(* ===== verification/_CoqProject ===== *)
-Q . S2P
Prelude.v
BTree.v
RustStr.v
Types.v
Guc.v
Model.v
Change.v
Diff.v
DiffFacts.v
DiffSafety.v
Interp.v
Converge.v
Convergence.v
Plan.v
PlanFacts.v
Sql.v
SqlLex.v
SqlFacts.v
Witnesses.v
Manifest.v
ManifestFacts.v
Desired.v
Timestamp.v
ManifestWitnesses.v
Pipeline.v
MembershipOptions.v
Overlap.v
Ownership.v
Composition.v
CompositionFacts.v
CompositionGraph.v
CompositionPlan.v
CompositionWitnesses.v
Export.v
Approval.v
ApprovalWitnesses.v
PlanStatus.v
PlanWrites.v
PlanSql.v
PlanCreation.v
PlanCreationFacts.v
PlanExecution.v
PlanExecutionFacts.v
Durations.v
PlanRetention.v
Clock.v
K8sNames.v
PlanWitnesses.v
ContentDigest.v
CandidateStatus.v
CandidateWrites.v
Promotion.v
PromotionFacts.v
PromotionRecord.v
CandidatePlanning.v
CandidatePlanningFacts.v
PromotionWitnesses.v
Ephemeral.v
EphemeralResolution.v
EphemeralScoped.v
EphemeralLifecycle.v
EphemeralFacts.v
EphemeralSafety.v
EphemeralOutcome.v
EphemeralOverlay.v
EphemeralWitnesses.v
PolicySpec.v
PolicySecrets.v
PolicySecretsFacts.v
PolicyClaims.v
PolicyWitnesses.v
Suggest.v
SuggestFacts.v
Visual.v
Explorer.v
ExplorerFacts.v
Inspect.v
Snapshot.v
InspectFacts.v
SnapshotFacts.v
