(* ===== verification/Prelude.v ===== *)
(** * pgroles: a verification library for the declarative role engine

    pgroles compares the roles, memberships, schemas, grants and default privileges that a
    manifest declares with those of a PostgreSQL database and executes the difference.  The
    core crate ([src/crates/pgroles-core]) is the engine; [src/crates/pgroles-inspect]
    reads the database; the operator ([src/crates/pgroles-operator]) runs the engine in
    Kubernetes, with reviewed plans, proposals ("candidates") and temporary access.  This
    library models them, file by file, and proves what each part promises to the next.

    ** The parts and how they interact

    A manifest is expanded ([Manifest]) into a desired role graph ([Model]); the live graph
    is read from the catalogs ([Inspect], [Snapshot]).  [Diff] lists
    the changes from the live graph to it; [Plan] filters them by mode and by what the
    manifest leaves alone; [MembershipOptions] binds option changes to grantors; [Sql]
    renders the result.  [Composition] builds one policy out of several documents under
    the scopes of [Ownership]; [Export] writes a live graph back as a manifest.  [Overlap]
    decides when two plans touch the same things.  [Suggest] rewrites a manifest with
    profiles, [Visual] draws a graph, and [Explorer] says what the executor of a plan is
    allowed to do at each step of it.  In the operator, [PolicySpec] is the policy object,
    [PolicySecrets] its passwords and [PolicyClaims] the things it claims against other
    policies; [Approval] gives a plan
    the digest a review binds to; [PlanStatus], [PlanWrites] and [PlanCreation] are the life
    of the plan object, [PlanExecution] the reconcile that executes it, [PlanRetention] its
    end.  [ContentDigest], [CandidateStatus], [CandidateWrites], [CandidatePlanning] and
    [Promotion] are the proposals: filed, planned, reviewed, and promoted into the policy,
    whose reconcile then executes the plan that was reviewed.  [Ephemeral],
    [EphemeralScoped] and [EphemeralLifecycle] are temporary memberships: what a request
    resolves to, the scoped plans that grant and withdraw it, and its reconcile; what it
    holds is composed with the desired graph of the policy, and so enters [Diff].

    ** Which file models what

    - [Prelude], [BTree], [RustStr]: results of fallible code, ordered maps and sets,
      UTF-8 strings with their byte slicing; [Guc]: [guc.rs].
    - [Types], [Manifest]: [manifest.rs], [bounds.rs]; facts in [ManifestFacts], [Desired],
      [Timestamp].
    - [Model], [Desired]: [model.rs]; [Change], [Diff], [Plan]: [diff.rs]; facts in
      [DiffFacts], [DiffSafety], [Converge], [Convergence], [PlanFacts].  [Interp] is the
      meaning of a change on a graph, as [tests/diff_property.rs] states it.
    - [Sql]: [sql.rs]; [SqlLex] is a reader of the produced text; facts in [SqlFacts],
      [Pipeline].
    - [MembershipOptions]: [membership_options.rs]; [Overlap]: [overlap.rs];
      [Ownership]: [ownership.rs]; [Composition], [CompositionFacts], [CompositionGraph],
      [CompositionPlan]: [composition.rs]; [Export]: [export.rs]; [Approval]: [approval.rs].
    - [Suggest], [SuggestFacts]: [suggest.rs]; [Visual]: [visual.rs]; [Explorer],
      [ExplorerFacts]: [explorer.rs], with [prepare_policy] of [authoring.rs].
    - [Inspect]: rows, configurations and the derivation of privileges ([lib.rs],
      [privileges.rs], [routines.rs], [roles.rs], [memberships.rs], [defaults.rs] of
      [pgroles-inspect]); [Snapshot]: the queries as selections of catalog rows, and
      [snapshot.rs]; [InspectFacts] and [SnapshotFacts]: what they keep.
    - [PolicySpec]: the policy object of [crd.rs]; [PolicySecrets], [PolicySecretsFacts]:
      [password.rs], with the Secrets of [reconciler.rs]; [PolicyClaims]: ownership claims
      and conflicts of [crd.rs] and [reconciler.rs].
    - [PlanStatus], [PlanWrites], [PlanSql], [PlanCreation], [PlanExecution],
      [PlanRetention] and their facts: [plan.rs], with the reconcile steps of
      [reconciler.rs] around a plan and the objects of [crd.rs]; [Durations]:
      [ephemeral.rs]; [Clock]: [crd.rs], [reconciler.rs]; [K8sNames]: [k8s_names.rs].
    - [ContentDigest]: [candidate.rs] of the core; [CandidateStatus], [CandidateWrites],
      [CandidatePlanning] and their facts: [candidate.rs] of the operator; [Promotion],
      [PromotionFacts], [PromotionRecord]: [promotion.rs].
    - [Ephemeral], [EphemeralScoped], [EphemeralLifecycle]: [ephemeral.rs], with the objects
      and validation rules of [crd.rs]; [EphemeralFacts] is a logic of their runs, with
      [EphemeralSafety], [EphemeralOutcome], [EphemeralOverlay] and [EphemeralResolution]
      on it.
    - The files named [...Witnesses] apply the theorems at concrete inputs.

    ** How the code is read

    Maps and sets of the code are [gmap] and [gset], iterated in key order; lists keep
    their order.  A function that may fail returns [res], which keeps a panic apart from an
    error.  Machine integers are [Z] or [N] with their bounds written out.  A call to
    Kubernetes or to the database is a change of an explicit state (the plans or the
    objects of a namespace, a role graph); what it answers is an argument.  A run of the
    reconcile of a request yields every state it leaves behind, one per write, so that a
    claim on all of them holds wherever the run is interrupted.  Serialisation,
    hashing, compression and calendars of libraries are parameters, with the properties the
    code relies on as hypotheses of the theorems that need them; witnesses instantiate them.
    Events, logs and metrics are left out.

    ** What the theorems show

    - The engine: executing a plan brings the live graph to the desired one
      ([diff_converges], [plan_effect]); it revokes only what the manifest gives it reason
      to, never an entry an owner holds by being owner ([diff_revokes_are_justified],
      [diff_keeps_inherent_entries]), enforces absences, and keeps the promises of its mode
      ([plan_changes_safe]).
    - Manifests: what an accepted one guarantees and that it can bootstrap a database
      ([expand_manifest_valid], [manifest_bootstraps]), the round trip through an export.
    - SQL: the text is one statement per string whatever the identifiers, runs each
      statement under the role that must grant, hides passwords when redacted, and can be
      rendered exactly when the checks of the code pass.
    - Composition: documents partition the policy, and plans stay within the scopes.
    - Review: a digest binds what was reviewed; only an approved plan of these effects on
      this database is executed, under manual and automatic approval and when a candidate
      is promoted; decisions are final; every status write is one the API server admits.
    - Proposals: the life of a candidate's status, its guarded write among other writers,
      who is planned and what a pass leaves to see, what is pruned, and that a promotion is
      recorded once.
    - Ephemeral access: a resolution is within what was offered and its hash stands for its
      content; wherever it stops, a reconcile has changed only memberships of the bundle in
      its database, granted under authority in force and withdrawn when due
      ([access_changes_are_authorised], [scoped_plan_is_confined]); expired access is
      withdrawn and its request ends; the reconcile of the policy leaves granted access
      alone.
    - Policies: accepted policies of one database claim disjoint things
      ([accepted_policies_are_disjoint]); the passwords of a policy are created, stored and
      then left alone ([passwords_settle], [generated_passwords_are_usable]).
    - Inspection: folding grants into wildcard keys keeps the access there was
      ([normalization_preserves_access]); a configuration inspected from a read it shares
      with others gets its own inspection ([shared_snapshot_is_invisible]).
    - Tools: a suggested manifest describes the same graph ([suggestion_preserves_policy]);
      a drawing is closed under its edges ([visual_graph_is_closed]); the explorer decides
      reachability, may skip recomputing it when a change cannot alter it, and accounts for
      every change of the plan ([reachability_decides], [recompute_when_affected],
      [analysis_covers_plan]).
    - Findings: [base_check_lapses], [stuck_plan_is_not_recovered],
      [denial_abandons_revocation] and [first_resolution_conflicts] prove behaviours the
      code does not intend; others are recorded with the manifest of the library.

    ** Bounds and fuel

    The guarded status write has three attempts, the code's own constant, and the theorem on
    it covers running out of them.  Splitting a quoted list has the length of its value,
    which [split_loop_fuel] shows is enough, and printing a hexadecimal escape the eight
    digits of a code point.  The traversal of the explorer has one step more than there are
    edge facts: a role enters the queue once, when an edge first leads to it, and
    [reachability_decides] shows the queue is empty when the traversal stops.  Every other
    recursion is structural.

    ** Not modelled

    Of [pgroles-inspect], the text of the queries (a query is the rows it selects), the
    unscoped reads of the command line, and the safety, version and identity checks that are
    queries themselves; the command line, reports, the authoring schema and the web binding;
    of the operator, the ConfigMaps of stored previews, leader locks, the cache behind the
    request index, the finalizer of access policies, and the parts of [reconciler.rs] that
    only move data between the API server, the database and the modelled decisions. *)

From stdpp Require Export prelude gmap strings sorting pretty ssreflect.


(** ** Results of fallible code

    A Rust function returning [Result<A, E>] may also panic.  The three outcomes
    are kept apart: [Ok], [Err] and [Panic]. *)

Inductive res (E A : Type) : Type :=
  | Ok (a : A)
  | Err (e : E)
  | Panic.
Arguments Ok {_ _} _.
Arguments Err {_ _} _.
Arguments Panic {_ _}.

#[export] Instance res_ret {E} : MRet (res E) := λ A a, Ok a.
#[export] Instance res_bind {E} : MBind (res E) := λ A B f m,
  match m with
  | Ok a => f a
  | Err e => Err e
  | Panic => Panic
  end.
#[export] Instance res_fmap {E} : FMap (res E) := λ A B f m,
  match m with
  | Ok a => Ok (f a)
  | Err e => Err e
  | Panic => Panic
  end.

Definition res_map_err {E F A} (f : E → F) (m : res E A) : res F A :=
  match m with
  | Ok a => Ok a
  | Err e => Err (f e)
  | Panic => Panic
  end.

(** [for x in l { body(x)?; }]: run the checks in order, stop at the first
    failure. *)
Fixpoint for_each {E A} (body : A → res E unit) (l : list A) : res E unit :=
  match l with
  | [] => Ok tt
  | x :: l => _ ← body x; for_each body l
  end.

(** [for x in l { acc = body(acc, x)?; }] *)
Fixpoint fold_res {E A S} (body : S → A → res E S) (acc : S) (l : list A) : res E S :=
  match l with
  | [] => Ok acc
  | x :: l => acc ← body acc x; fold_res body acc l
  end.

(** An early [return Err(e)] behind a condition. *)
Definition throw_if {E} (c : bool) (e : E) : res E unit :=
  if c then Err e else Ok tt.

Section results.
Context {E : Type}.

Lemma bind_Ok {A B} (m : res E A) (f : A → res E B) b :
  m ≫= f = Ok b ↔ ∃ a, m = Ok a ∧ f a = Ok b.
Proof. destruct m; simpl; naive_solver. Qed.

Lemma fmap_Ok {A B} (m : res E A) (f : A → B) b :
  f <$> m = Ok b ↔ ∃ a, m = Ok a ∧ b = f a.
Proof. destruct m; simpl; naive_solver. Qed.

Lemma throw_if_Ok (c : bool) (e : E) u : throw_if c e = Ok u ↔ c = false.
Proof. destruct c, u; simpl; naive_solver. Qed.

Lemma for_each_Ok {A} (body : A → res E unit) l u :
  for_each body l = Ok u ↔ ∀ x, x ∈ l → body x = Ok tt.
Proof.
  destruct u. induction l as [|x l IH]; simpl.
  - split; [intros _ x Hx; by apply not_elem_of_nil in Hx|done].
  - rw bind_Ok. split.
    + intros ([] & Hx & Hl) y [->|Hy]%elem_of_cons; [done|by apply IH].
    + intros H. exists tt. split; [apply H; left|].
      apply IH. intros y Hy. apply H. by right.
Qed.

Lemma fold_res_app {A S} (body : S → A → res E S) acc l1 l2 :
  fold_res body acc (l1 ++ l2) = fold_res body acc l1 ≫= λ acc, fold_res body acc l2.
Proof. revert acc. induction l1 as [|x l1 IH]=> acc //=. by destruct (body acc x) => /=. Qed.

(** Loop invariant rule for [fold_res]. *)
Lemma fold_res_inv {A S} (I : S → Prop) (body : S → A → res E S) l acc acc' :
  I acc →
  (∀ s x s', x ∈ l → I s → body s x = Ok s' → I s') →
  fold_res body acc l = Ok acc' → I acc'.
Proof.
  revert acc. induction l as [|x l IH]=> acc Hacc Hstep /=; [by intros [= <-]|].
  rw bind_Ok=> -[s [Hs Hl]]. eapply IH; [| |done].
  - eapply Hstep; [|done..]. left.
  - intros. eapply Hstep; [by right|done..].
Qed.

(** What each turn of a loop establishes, and no later turn undoes, holds of every
    element at the end. *)
Lemma fold_res_collect {A S} (R : relation S) `{!PreOrder R} (Q : A → S → Prop)
    (body : S → A → res E S) l s s' :
  (∀ x s s', Q x s → R s s' → Q x s') →
  (∀ s x s', x ∈ l → body s x = Ok s' → R s s' ∧ Q x s') →
  fold_res body s l = Ok s' → R s s' ∧ ∀ x, x ∈ l → Q x s'.
Proof.
  intros HQ. revert s. induction l as [|x l IH]=> s Hstep /=.
  - intros [= <-]. split; [reflexivity|]. intros x Hx. by apply not_elem_of_nil in Hx.
  - rw bind_Ok=> -[s1 [Hx Hl]].
    destruct (Hstep s x s1) as [HR Hq]; [left|done|].
    destruct (IH s1) as [HR' Hall]; [intros; eapply Hstep; [by right|done]|done|].
    split; [by etrans|]. intros y [->|Hy]%elem_of_cons; [by eapply HQ|by apply Hall].
Qed.

Lemma throw_if_bind {A} (c : bool) (e : E) (f : unit → res E A) a :
  throw_if c e ≫= f = Ok a ↔ c = false ∧ f tt = Ok a.
Proof. destruct c; simpl; naive_solver. Qed.

Lemma bind_unit_Ok {A} (m : res E unit) (f : unit → res E A) a :
  m ≫= f = Ok a ↔ m = Ok tt ∧ f tt = Ok a.
Proof. destruct m as [[]| |]; simpl; naive_solver. Qed.
End results.

Lemma map_err_Ok {E F A} (f : E → F) (m : res E A) a : res_map_err f m = Ok a ↔ m = Ok a.
Proof. destruct m; simpl; naive_solver. Qed.

(** ** Automation

    [elem_inv H] takes apart a membership [H] in a list built by appends, binds,
    filters, maps and conditionals; [elem_step] goes one step towards proving one. *)

Lemma elem_of_bind_1 {A B} (f : A → list B) (l : list A) y :
  y ∈ l ≫= f → ∃ x, x ∈ l ∧ y ∈ f x.
Proof. rw list_elem_of_bind. naive_solver. Qed.

Lemma elem_of_bind_2 {A B} (f : A → list B) (l : list A) x y :
  x ∈ l → y ∈ f x → y ∈ l ≫= f.
Proof. rw list_elem_of_bind. naive_solver. Qed.

Lemma elem_of_fmap_1 {A B} (f : A → B) (l : list A) y :
  y ∈ f <$> l → ∃ x, x ∈ l ∧ y = f x.
Proof. rw list_elem_of_fmap. naive_solver. Qed.

Ltac elem_inv H :=
  lazymatch type of H with
  | _ ∈ [] => exfalso; by apply not_elem_of_nil in H
  | _ ∈ [_] => apply list_elem_of_singleton in H
  | _ ∈ _ :: _ => apply elem_of_cons in H; destruct H as [H|H]; [|elem_inv H]
  | _ ∈ _ ++ _ => apply elem_of_app in H; destruct H as [H|H]; elem_inv H
  | _ ∈ _ ≫= _ =>
      apply elem_of_bind_1 in H;
      let x := fresh "x" in let Hx := fresh "Hx" in
      destruct H as (x & Hx & H); simpl in H; elem_inv H
  | _ ∈ filter _ _ =>
      apply list_elem_of_filter in H;
      let Hf := fresh "Hf" in destruct H as [Hf H]; elem_inv H
  | _ ∈ _ <$> _ =>
      apply elem_of_fmap_1 in H;
      let x := fresh "x" in let Hx := fresh "Hx" in destruct H as (x & Hx & H)
  | _ ∈ (if bool_decide ?P then _ else _) => destruct (bool_decide_reflect P); elem_inv H
  | _ ∈ (if ?b then _ else _) => destruct b eqn:?; elem_inv H
  | _ ∈ (_, _).1 => simpl in H; elem_inv H
  | _ ∈ (_, _).2 => simpl in H; elem_inv H
  | _ => idtac
  end.

(** Case analysis on every boolean condition inside a hypothesis. *)
Ltac destruct_ifs H :=
  repeat match type of H with
  | context [if ?b then _ else _] =>
      match type of b with bool => destruct b eqn:?; simpl in H end
  end.

(** Database of the library's rewriting and resolution lemmas. *)
Create HintDb pgroles.
#[export] Hint Resolve elem_of_bind_2 list_elem_of_fmap_2 : pgroles.
#[export] Hint Extern 1 (_ ∈ _ ++ _) => apply elem_of_app; left : pgroles.
#[export] Hint Extern 2 (_ ∈ _ ++ _) => apply elem_of_app; right : pgroles.
#[export] Hint Extern 1 (_ ∈ [_]) => apply list_elem_of_singleton : pgroles.
#[export] Hint Resolve list_elem_of_here : pgroles.
