(* ===== verification/BTree.v ===== *)
(** * Ordered maps and sets

    Rust's [BTreeMap] and [BTreeSet] are modelled as stdpp's [gmap] and [gset];
    what a B-tree adds is the iteration order.  The class [Ord] is Rust's trait of
    total orders; [map_iter] and [set_iter] list a map or a set in that order,
    [map_range] is [BTreeMap::range(start..)], [take_while] the iterator adaptor. *)

From S2P Require Import Prelude.

(** ** Total orders *)

Class Ord (A : Type) := {
  ord_le : relation A;
  #[global] ord_dec :: RelDecision ord_le;
  #[global] ord_po :: PartialOrder ord_le;
  #[global] ord_total :: Total ord_le;
}.

(** An order pulled back along an injection, as [derive(PartialOrd, Ord)] orders a
    struct by the tuple of its fields. *)
Section ord_by.
Context {A B} `{Ord B} (f : A → B) `{Hf : !Inj (=) (=) f}.

Definition ord_by_le : relation A := λ x y, ord_le (f x) (f y).

#[local] Instance ord_by_po : PartialOrder ord_by_le.
Proof.
  split; [split|].
  - intros x. unfold ord_by_le. reflexivity.
  - intros x y z. unfold ord_by_le. apply transitivity.
  - intros x y Hxy Hyx. by apply (inj f), (anti_symm ord_le).
Qed.
#[local] Instance ord_by_total : Total ord_by_le.
Proof. intros x y. apply (total ord_le). Qed.

Definition ord_by : Ord A := {|
  ord_le := ord_by_le;
  ord_dec := λ x y, ord_dec (f x) (f y);
|}.
End ord_by.

#[export] Instance ord_string : Ord string := {| ord_le := String.le |}.

#[export] Instance ord_nat : Ord nat := {| ord_le := le |}.

#[export] Program Instance ord_bool : Ord bool := {| ord_le := λ b c, b = true → c = true |}.
Next Obligation. intros b c. change (Decision (b = true → c = true)). apply _. Defined.
Next Obligation. split; [split|]; [by intros []|by intros [] [] []|intros [] []; naive_solver]. Qed.
Next Obligation. intros [] []; naive_solver. Qed.

Section ord_option.
Context {A} `{Ord A}.
(** [None < Some _]. *)
Definition option_le : relation (option A) := λ x y,
  match x, y with
  | None, _ => True
  | Some _, None => False
  | Some x, Some y => ord_le x y
  end.
#[local] Instance option_le_dec : RelDecision option_le.
Proof. intros [x|] [y|]; simpl; unfold Decision; [apply (ord_dec x y)|right; tauto|left; done|left; done]. Defined.
#[local] Instance option_le_po : PartialOrder option_le.
Proof.
  split; [split|].
  - intros [x|]; simpl; [reflexivity|done].
  - intros [x|] [y|] [z|]; simpl; try done. apply transitivity.
  - intros [x|] [y|]; simpl; try done. intros. f_equal. by apply (anti_symm ord_le).
Qed.
#[local] Instance option_le_total : Total option_le.
Proof. intros [x|] [y|]; simpl; [apply (total ord_le)|auto..]. Qed.
#[export] Instance ord_option : Ord (option A) := {| ord_le := option_le |}.
End ord_option.

Section ord_prod.
Context {A B} `{EqDecision A, Ord A, Ord B}.
(** Lexicographic. *)
Definition prod_le : relation (A * B) := λ x y,
  ord_le x.1 y.1 ∧ (x.1 = y.1 → ord_le x.2 y.2).
#[local] Instance prod_le_dec : RelDecision prod_le.
Proof. intros x y. unfold prod_le. apply _. Defined.
#[local] Instance prod_le_po : PartialOrder prod_le.
Proof.
  split; [split|].
  - intros x. by split.
  - unfold prod_le. intros [x1 x2] [y1 y2] [z1 z2] [? Hxy] [? Hyz]; simpl in *. split; [by etrans|].
    intros ->. simpl in *. assert (y1 = z1) as -> by by apply (anti_symm ord_le).
    etrans; eauto.
  - unfold prod_le. intros [x1 x2] [y1 y2] [? Hxy] [? Hyx]; simpl in *.
    assert (x1 = y1) as -> by by apply (anti_symm ord_le).
    f_equal. apply (anti_symm ord_le); auto.
Qed.
#[local] Instance prod_le_total : Total prod_le.
Proof.
  intros [x1 x2] [y1 y2]. unfold prod_le; simpl. destruct (decide (x1 = y1)) as [->|].
  - destruct (total ord_le x2 y2); [left|right]; done.
  - destruct (total ord_le x1 y1); [left|right]; naive_solver.
Qed.
#[export] Instance ord_prod : Ord (A * B) := {| ord_le := prod_le |}.
End ord_prod.

(** Of a [Vec] or a set in order: element by element. *)
Section ord_list.
Context {A} `{EqDecision A, Ord A}.
Fixpoint list_le (l k : list A) : Prop :=
  match l, k with
  | [], _ => True
  | _ :: _, [] => False
  | x :: l, y :: k => ord_le x y ∧ (x = y → list_le l k)
  end.
#[local] Instance list_le_dec : RelDecision list_le.
Proof.
  unfold RelDecision. induction x as [|x l IH]; intros [|y k]; cbn [list_le]; [left; done|left; done|right; tauto|].
  destruct (ord_dec x y) as [Hle|]; [|right; tauto].
  destruct (decide (x = y)) as [He|]; [|left; tauto]. destruct (IH k); [left; tauto|right; tauto].
Defined.
#[local] Instance list_le_po : PartialOrder list_le.
Proof.
  split; [split|].
  - intros l. induction l as [|x l IH]; cbn; [done|]. split; [reflexivity|done].
  - intros l. induction l as [|x l IH]; intros [|y k] [|z j]; cbn; try done.
    intros [Hxy Hlk] [Hyz Hkj]. split; [by etrans|]. intros ->.
    assert (z = y) as -> by by apply (anti_symm ord_le). eapply IH; [by apply Hlk|by apply Hkj].
  - intros l. induction l as [|x l IH]; intros [|y k]; cbn; try done. intros [Hxy Hlk] [Hyx Hkl].
    assert (x = y) as -> by by apply (anti_symm ord_le). f_equal. apply IH; [by apply Hlk|by apply Hkl].
Qed.
#[local] Instance list_le_total : Total list_le.
Proof.
  intros l. induction l as [|x l IH]; intros [|y k]; cbn; [by left|by left|by right|].
  destruct (decide (x = y)) as [->|].
  - destruct (IH k); [left|right]; done.
  - destruct (total ord_le x y); [left|right]; naive_solver.
Qed.
#[export] Instance ord_list : Ord (list A) := {| ord_le := list_le |}.
End ord_list.

(** ** Iteration *)

Definition key_le {K V} `{Ord K} : relation (K * V) := λ p q, ord_le p.1 q.1.

#[export] Instance key_le_dec {K V} `{Ord K} : RelDecision (@key_le K V _) :=
  λ p q, ord_dec p.1 q.1.
#[export] Instance key_le_trans {K V} `{Ord K} : Transitive (@key_le K V _).
Proof. intros p q r. apply (transitivity (R := ord_le)). Qed.
#[export] Instance key_le_total {K V} `{Ord K} : Total (@key_le K V _).
Proof. intros p q. apply (total ord_le). Qed.

(** [map.iter()] *)
Definition map_iter {K V} `{Countable K, Ord K} (m : gmap K V) : list (K * V) :=
  merge_sort key_le (map_to_list m).

(** [map.keys()] *)
Definition map_keys {K V} `{Countable K, Ord K} (m : gmap K V) : list K :=
  (map_iter m).*1.

(** [set.iter()] *)
Definition set_iter {A} `{Countable A, Ord A} (X : gset A) : list A :=
  merge_sort ord_le (elements X).

(** [map.range(start..)] *)
Definition map_range {K V} `{Countable K, Ord K} (start : K) (m : gmap K V) : list (K * V) :=
  filter (λ p, ord_le start p.1) (map_iter m).

(** [set.range(start..)] *)
Definition set_range {A} `{Countable A, Ord A} (start : A) (X : gset A) : list A :=
  filter (λ x, ord_le start x) (set_iter X).

Fixpoint take_while {A} (p : A → bool) (l : list A) : list A :=
  match l with
  | [] => []
  | x :: l => if p x then x :: take_while p l else []
  end.

(** [iter.collect::<BTreeMap<_, _>>()]: a later binding of a key wins. *)
Definition map_collect {K V} `{Countable K} (l : list (K * V)) : gmap K V :=
  foldl (λ m p, <[p.1 := p.2]> m) ∅ l.

(** [map.entry(k).or_default().extend(X)] for a map to sets. *)
Definition entry_extend {K A} `{Countable K, Countable A}
    (k : K) (X : gset A) (m : gmap K (gset A)) : gmap K (gset A) :=
  <[k := default ∅ (m !! k) ∪ X]> m.

Lemma list_filter_none {A} (P : A → Prop) `{∀ x, Decision (P x)} l :
  (∀ x, x ∈ l → ¬ P x) → filter P l = [].
Proof.
  intros Hl. destruct (filter P l) as [|x k] eqn:Hf; [done|]. exfalso.
  assert (x ∈ filter P l) as [? ?]%list_elem_of_filter by (rw Hf; left). by eapply Hl.
Qed.

Lemma list_filter_all {A} (P : A → Prop) `{∀ x, Decision (P x)} (l : list A) :
  (∀ x, x ∈ l → P x) → filter P l = l.
Proof.
  induction l as [|x l IH]=> Hl; [done|]. rw filter_cons decide_True; [|apply Hl; left].
  f_equal. apply IH. intros y Hy. apply Hl. by right.
Qed.

Lemma StronglySorted_filter {A} (R : relation A) (P : A → Prop) `{∀ x, Decision (P x)} l :
  StronglySorted R l → StronglySorted R (filter P l).
Proof.
  induction 1 as [|x l Hl IH Hx]; [constructor|].
  rw filter_cons. case_decide; [|done]. constructor; [done|].
  rw Forall_forall. intros y [_ Hy]%list_elem_of_filter. rw Forall_forall in Hx. by apply Hx.
Qed.

(** ** Laws of iteration *)

Section map_iter.
Context {K V : Type} `{Countable K, Ord K}.
Implicit Types (m : gmap K V) (k : K) (v : V).

Lemma map_iter_Permutation m : map_iter m ≡ₚ map_to_list m.
Proof. apply merge_sort_Permutation. Qed.

Lemma elem_of_map_iter m k v : (k, v) ∈ map_iter m ↔ m !! k = Some v.
Proof. rw map_iter_Permutation. apply elem_of_map_to_list. Qed.

Lemma elem_of_map_iter' m p : p ∈ map_iter m ↔ m !! p.1 = Some p.2.
Proof. destruct p. apply elem_of_map_iter. Qed.

Lemma NoDup_map_keys m : NoDup (map_keys m).
Proof. unfold map_keys. rw map_iter_Permutation. apply NoDup_fst_map_to_list. Qed.

Lemma NoDup_map_iter m : NoDup (map_iter m).
Proof. eapply NoDup_fmap_1, NoDup_map_keys. Qed.

Lemma elem_of_map_keys m k : k ∈ map_keys m ↔ is_Some (m !! k).
Proof.
  unfold map_keys. rw list_elem_of_fmap. split.
  - intros ([k' v] & -> & Hin%elem_of_map_iter). eauto.
  - intros [v Hv]. exists (k, v). by rw elem_of_map_iter.
Qed.

Lemma map_iter_sorted m : StronglySorted key_le (map_iter m).
Proof. apply (StronglySorted_merge_sort _). Qed.

Lemma map_keys_sorted m : StronglySorted ord_le (map_keys m).
Proof. unfold map_keys. by apply (StronglySorted_fmap _ key_le), map_iter_sorted. Qed.

Lemma map_iter_empty : map_iter (∅ : gmap K V) = [].
Proof. unfold map_iter. by rw map_to_list_empty. Qed.

Lemma map_iter_nil m : map_iter m = [] ↔ m = ∅.
Proof.
  split; [|intros ->; apply map_iter_empty].
  intros Hm. apply map_empty. intros k. destruct (m !! k) as [v|] eqn:Hk; [|done].
  apply elem_of_map_iter in Hk. rw Hm in Hk. by apply not_elem_of_nil in Hk.
Qed.

(** Among the bindings of a map, those of one key are at most one. *)
Lemma filter_map_iter m k :
  filter (λ p, p.1 = k) (map_iter m) =
  match m !! k with Some v => [(k, v)] | None => [] end.
Proof.
  assert (NoDup (filter (λ p, p.1 = k) (map_iter m)).*1) as Hnd.
  { eapply sublist_NoDup; [apply NoDup_map_keys|apply fmap_sublist, sublist_filter]. }
  assert (∀ p, p ∈ filter (λ p, p.1 = k) (map_iter m) ↔ p.1 = k ∧ m !! k = Some p.2) as Hin.
  { intros [k' v]. rw list_elem_of_filter elem_of_map_iter /=. naive_solver. }
  destruct (filter _ _) as [|[k1 v1] [|[k2 v2] l]].
  - destruct (m !! k) as [v|]; [|done]. exfalso. eapply not_elem_of_nil, (Hin (k, v)). done.
  - destruct (Hin (k1, v1)) as [[? ->] _]; [left|]. by simplify_eq/=.
  - exfalso. destruct (Hin (k1, v1)) as [[? _] _]; [left|].
    destruct (Hin (k2, v2)) as [[? _] _]; [right; left|]. simplify_eq/=.
    apply NoDup_cons in Hnd as [Hnd _]. apply Hnd. left.
Qed.
End map_iter.

Section set_iter.
Context {A : Type} `{Countable A, Ord A}.
Implicit Types (X : gset A).

Lemma elem_of_set_iter X x : x ∈ set_iter X ↔ x ∈ X.
Proof. unfold set_iter. rw merge_sort_Permutation. apply elem_of_elements. Qed.

Lemma NoDup_set_iter X : NoDup (set_iter X).
Proof. unfold set_iter. rw merge_sort_Permutation. apply NoDup_elements. Qed.

Lemma set_iter_sorted X : StronglySorted ord_le (set_iter X).
Proof. apply (StronglySorted_merge_sort _). Qed.

Lemma set_iter_nil X : set_iter X = [] ↔ X = ∅.
Proof.
  split; [|intros ->; unfold set_iter; by rw elements_empty].
  intros HX. apply set_eq. intros x. rw -elem_of_set_iter HX. set_solver.
Qed.

Lemma list_to_set_set_iter X : list_to_set (set_iter X) =@{gset A} X.
Proof. apply set_eq. intros x. by rw elem_of_list_to_set elem_of_set_iter. Qed.
End set_iter.

(** ** Range scans

    A scan [range(start..).take_while(P)] yields exactly the elements satisfying
    [P] when [start] is below all of them and [P] is convex for the order. *)

Section range.
Context {A : Type} (R : relation A).

Lemma take_while_convex (P : A → bool) l :
  StronglySorted R l →
  (∀ x y, x ∈ l → y ∈ l → R x y → P y → P x) →
  take_while P l = filter P l.
Proof.
  induction 1 as [|x l Hl IH Hx]=> HP //=. rw filter_cons. case_decide as Hd.
  - apply Is_true_true in Hd. rw Hd. f_equal. apply IH.
    intros y z Hy Hz. apply HP; by right.
  - destruct (P x) eqn:Hp; [done|]. symmetry. apply list_filter_none.
    intros y Hy Hpy. apply Hd. rw -Hp. rw Forall_forall in Hx.
    eapply (HP x y); [left|by right|auto|done].
Qed.
End range.

Section map_range.
Context {K V : Type} `{Countable K, Ord K}.

Lemma map_range_scan (m : gmap K V) (start : K) (P : K → bool) :
  (∀ k, P k → ord_le start k) →
  (∀ k k', ord_le start k → ord_le k k' → P k' → P k) →
  take_while (λ p, P p.1) (map_range start m) = filter (λ p, P p.1) (map_iter m).
Proof.
  intros Hstart Hconv. unfold map_range. rw (take_while_convex key_le).
  - rw list_filter_filter. apply list_filter_iff. naive_solver.
  - apply StronglySorted_filter, map_iter_sorted.
  - intros p q Hp _ Hpq. apply list_elem_of_filter in Hp as [? _]. by eapply Hconv.
Qed.

Lemma set_range_scan (X : gset K) (start : K) (P : K → bool) :
  (∀ k, P k → ord_le start k) →
  (∀ k k', ord_le start k → ord_le k k' → P k' → P k) →
  take_while P (set_range start X) = filter P (set_iter X).
Proof.
  intros Hstart Hconv. unfold set_range. rw (take_while_convex ord_le).
  - rw list_filter_filter. apply list_filter_iff. naive_solver.
  - apply StronglySorted_filter, set_iter_sorted.
  - intros p q Hp _ Hpq. apply list_elem_of_filter in Hp as [? _]. by eapply Hconv.
Qed.
End map_range.
