(* ===== verification/RustStr.v ===== *)
(** * Rust strings

    A [String] or [&str] is its UTF-8 byte sequence, a Stdlib [string] whose
    [ascii]s are the bytes; [len] is [String.length] and the byte order of Rust is
    [String.leb].  A [char] is the string of its one to four bytes: [chars] cuts a
    string before every byte that is not a continuation byte. *)

From S2P Require Import Prelude BTree.
From Stdlib Require Import Ascii NArith.
Global Open Scope string_scope.
Global Open Scope list_scope.
Global Open Scope nat_scope.

(** ** Bytes *)

Definition byte_of (a : ascii) : N := N_of_ascii a.

Definition of_bytes (l : list N) : string :=
  foldr (λ n s, String (ascii_of_N n) s) "" l.

(** A string constant for the double-quote byte, which has no literal here. *)
Definition dq_char : ascii := ascii_of_N 34.
Definition DQ : string := String dq_char "".
Definition sq_char : ascii := ascii_of_N 39.
Definition NL : string := of_bytes [10%N].

Definition in_range (lo hi : N) (a : ascii) : bool :=
  ((lo <=? byte_of a) && (byte_of a <=? hi))%N.

(** [10xxxxxx]: a byte inside a character. *)
Definition is_cont (a : ascii) : bool := in_range 128 191 a.

Definition lower_byte (a : ascii) : ascii :=
  if in_range 65 90 a then ascii_of_N (byte_of a + 32) else a.

(** [str::to_ascii_lowercase] *)
Fixpoint to_ascii_lowercase (s : string) : string :=
  match s with
  | "" => ""
  | String a s => String (lower_byte a) (to_ascii_lowercase s)
  end.

(** [str::eq_ignore_ascii_case] *)
Definition eq_ignore_ascii_case (s t : string) : bool :=
  String.eqb (to_ascii_lowercase s) (to_ascii_lowercase t).

(** ** Characters *)

(** A head byte, if any, belongs to the character that [chars] builds next. *)
Definition head_cont (s : string) : bool :=
  match s with String a _ => is_cont a | "" => false end.

Fixpoint chars (s : string) : list string :=
  match s with
  | "" => []
  | String a s =>
      if head_cont s
      then match chars s with
           | c :: cs => String a c :: cs
           | [] => [String a ""]
           end
      else String a "" :: chars s
  end.

(** [s.chars().count()] *)
Definition char_count (s : string) : nat := length (chars s).

Definition concat_all (l : list string) : string := foldr String.app "" l.

(** [slice.join(sep)] *)
Fixpoint join (sep : string) (l : list string) : string :=
  match l with
  | [] => ""
  | [x] => x
  | x :: l => x +:+ sep +:+ join sep l
  end.

Definition ascii_char (p : ascii → bool) (c : string) : bool :=
  match c with String a "" => p a | _ => false end.

Definition is_ascii_lowercase : string → bool := ascii_char (in_range 97 122).
Definition is_ascii_uppercase : string → bool := ascii_char (in_range 65 90).
Definition is_ascii_digit : string → bool := ascii_char (in_range 48 57).
Definition is_ascii_alphabetic (c : string) : bool :=
  is_ascii_lowercase c || is_ascii_uppercase c.
Definition is_ascii_alphanumeric (c : string) : bool :=
  is_ascii_alphabetic c || is_ascii_digit c.

(** The characters with Unicode's White_Space property, [char::is_whitespace]. *)
Definition whitespace_chars : list string :=
  of_bytes <$>
    (((λ n, [n]) <$> [9; 10; 11; 12; 13; 32]) ++
     [[194; 133]; [194; 160]; [225; 154; 128]] ++
     ((λ n, [226; 128; n]) <$>
        [128; 129; 130; 131; 132; 133; 134; 135; 136; 137; 138; 168; 169; 175]) ++
     [[226; 129; 159]; [227; 128; 128]])%N.

Definition is_whitespace (c : string) : bool := bool_decide (c ∈ whitespace_chars).

(** ** Searching and replacing *)

(** [str::starts_with] *)
Definition starts_with (pat s : string) : bool := String.prefix pat s.

(** [str::contains] *)
Fixpoint str_contains (pat s : string) : bool :=
  String.prefix pat s ||
  match s with "" => false | String _ s => str_contains pat s end.

(** [str::replace] of a non-empty pattern: matches are taken from the left and do
    not overlap, [skip] counts the bytes of the match still to drop. *)
Fixpoint replace_go (pat rep : string) (skip : nat) (s : string) : string :=
  match s with
  | "" => ""
  | String a s' =>
      match skip with
      | S skip => replace_go pat rep skip s'
      | O =>
          if String.prefix pat s
          then rep +:+ replace_go pat rep (String.length pat - 1) s'
          else String a (replace_go pat rep 0 s')
      end
  end.
Definition str_replace (pat rep s : string) : string := replace_go pat rep 0 s.

(** [str::replace] of one ASCII character. *)
Fixpoint replace_char (a : ascii) (rep s : string) : string :=
  match s with
  | "" => ""
  | String b s =>
      if Ascii.eqb a b then rep +:+ replace_char a rep s else String b (replace_char a rep s)
  end.

(** [str::split] on one ASCII character. *)
Fixpoint split_on (a : ascii) (s : string) : list string :=
  match s with
  | "" => [""]
  | String b s =>
      if Ascii.eqb a b then "" :: split_on a s
      else match split_on a s with
           | x :: l => String b x :: l
           | [] => [String b ""]
           end
  end.

(** [&s[i..j]] panics unless both ends are character boundaries within the string. *)
Fixpoint byte_at (s : string) (i : nat) : option ascii :=
  match s, i with
  | String a _, O => Some a
  | String _ s, S i => byte_at s i
  | "", _ => None
  end.
Definition is_char_boundary (s : string) (i : nat) : bool :=
  match byte_at s i with
  | Some a => negb (is_cont a) || bool_decide (i = 0)
  | None => bool_decide (i = String.length s)
  end.
Definition slice {E} (s : string) (i j : nat) : res E string :=
  if bool_decide (i ≤ j) && is_char_boundary s i && is_char_boundary s j
  then Ok (String.substring i (j - i) s)
  else Panic.

(** [str::parse] at an unsigned type of maximum [max]: an optional [+], then at
    least one digit, within the bound. *)
Fixpoint parse_digits (acc : N) (s : string) : option N :=
  match s with
  | "" => Some acc
  | String a s =>
      if in_range 48 57 a then parse_digits (acc * 10 + (byte_of a - 48)) s else None
  end.
Definition parse_unsigned (max : N) (s : string) : option N :=
  let digits := match s with String a s' => if (byte_of a =? 43)%N then s' else s | "" => "" end in
  if String.eqb digits "" then None
  else n ← parse_digits 0 digits; if (n <=? max)%N then Some n else None.

(** A double-quoted fragment of an error message or statement. *)
Definition dq (s : string) : string := DQ +:+ s +:+ DQ.

(** ** Laws *)

Lemma str_app_nil_r s : s +:+ "" = s.
Proof. induction s as [|a s IH]; [done|]. unfold String.app in *; simpl. by rw IH. Qed.

Lemma str_app_assoc s t u : s +:+ (t +:+ u) = (s +:+ t) +:+ u.
Proof. induction s as [|a s IH]; [done|]. unfold String.app in *; simpl. by rw IH. Qed.

Lemma str_app_cons a s t : String a s +:+ t = String a (s +:+ t).
Proof. done. Qed.

Lemma str_app_nil_l s : "" +:+ s = s.
Proof. done. Qed.

Lemma str_length_app s t : String.length (s +:+ t) = String.length s + String.length t.
Proof. induction s as [|a s IH]; [done|]. rw str_app_cons /=. by rw IH. Qed.

Lemma concat_all_app l k : concat_all (l ++ k) = concat_all l +:+ concat_all k.
Proof. induction l as [|s l IH]; [done|]. simpl. by rw IH str_app_assoc. Qed.

Lemma chars_nonempty a s : chars (String a s) ≠ [].
Proof. simpl. destruct (head_cont s), (chars s); done. Qed.

(** The characters of a string spell the string. *)
Lemma concat_chars s : concat_all (chars s) = s.
Proof.
  induction s as [|a s IH]; [done|]. simpl. destruct (head_cont s) eqn:Hc; simpl.
  - destruct (chars s) as [|c cs] eqn:Hs; simpl in *.
    + destruct s; [done|]. by apply chars_nonempty in Hs.
    + by rw str_app_cons IH.
  - by rw str_app_cons IH.
Qed.

(** A well-formed character: a head byte followed by continuation bytes, none after
    an ASCII byte. *)
Fixpoint all_cont (s : string) : bool :=
  match s with "" => true | String a s => is_cont a && all_cont s end.
Definition char_ok (c : string) : bool :=
  match c with
  | "" => false
  | String a s =>
      negb (is_cont a) && all_cont s && ((128 <=? byte_of a)%N || String.eqb s "")
  end.

(** Every Rust string satisfies this: its bytes are cut into such characters. *)
Definition rust_str (s : string) : bool := forallb char_ok (chars s).

Lemma rust_str_spec s : rust_str s ↔ Forall char_ok (chars s).
Proof.
  unfold rust_str. rw Is_true_true forallb_forall Forall_forall.
  split; intros H c Hc; [apply Is_true_true, H; by apply list_elem_of_In|].
  apply Is_true_true, H. by apply list_elem_of_In.
Qed.

Lemma char_ok_cont c : char_ok c → ∃ a s, c = String a s ∧ is_cont a = false ∧ all_cont s.
Proof.
  destruct c as [|a s]; [done|]. simpl. intros [[Ha Hs]%andb_True _]%andb_True.
  exists a, s. split_and!; [done| |done]. by destruct (is_cont a).
Qed.

Lemma char_ok_head c t : char_ok c → head_cont (c +:+ t) = false.
Proof. by intros (a & s & -> & Ha & _)%char_ok_cont. Qed.

Lemma chars_cons a s :
  chars (String a s) =
  if head_cont s
  then match chars s with c :: cs => String a c :: cs | [] => [String a ""] end
  else String a "" :: chars s.
Proof. done. Qed.

Lemma chars_cont a c t :
  all_cont c → head_cont t = false → chars (String a (c +:+ t)) = String a c :: chars t.
Proof.
  intros Hc Ht. revert a Hc. induction c as [|b c IH]=> a Hc.
  - by rw str_app_nil_l chars_cons Ht.
  - apply andb_True in Hc as [Hb Hc]. apply Is_true_true in Hb.
    by rw str_app_cons chars_cons IH //= Hb.
Qed.

Lemma chars_cons_ok c t : char_ok c → head_cont t = false → chars (c +:+ t) = c :: chars t.
Proof. intros (a & s & -> & _ & Hs)%char_ok_cont Ht. by apply chars_cont. Qed.

Lemma head_cont_concat cs : Forall char_ok cs → head_cont (concat_all cs) = false.
Proof. destruct 1; [done|]. simpl. by apply char_ok_head. Qed.

(** Characters written one after the other are read back. *)
Lemma chars_concat cs : Forall char_ok cs → chars (concat_all cs) = cs.
Proof.
  induction 1 as [|c cs Hc Hcs IH]; [done|]. simpl.
  rw chars_cons_ok; [by rw IH|done|]. by apply head_cont_concat.
Qed.

Lemma rust_str_concat cs : Forall char_ok cs → rust_str (concat_all cs).
Proof. intros Hcs. apply rust_str_spec. by rw chars_concat. Qed.

(** Replacing an ASCII character acts on the characters. *)
Lemma replace_char_app a rep s t :
  replace_char a rep (s +:+ t) = replace_char a rep s +:+ replace_char a rep t.
Proof.
  induction s as [|b s IH]; [done|]. rw str_app_cons /=.
  destruct (Ascii.eqb a b); [by rw IH str_app_assoc|by rw IH].
Qed.

Lemma replace_char_cont a rep s :
  is_cont a = false → all_cont s → replace_char a rep s = s.
Proof.
  intros Ha. induction s as [|b s IH]; [done|]. simpl. intros [Hb Hs]%andb_True.
  destruct (Ascii.eqb_spec a b) as [->|]; [by rw Ha in Hb|]. by rw IH.
Qed.

Lemma replace_char_ok a rep c :
  is_cont a = false → (byte_of a <? 128)%N → char_ok c →
  replace_char a rep c = if String.eqb c (String a "") then rep else c.
Proof.
  intros Ha H128 Hc. destruct (char_ok_cont c Hc) as (b & s & -> & Hb & Hs). simpl.
  destruct (Ascii.eqb_spec a b) as [->|Hab].
  - simpl in Hc. apply andb_True in Hc as [_ [Hc|Hc]%orb_True].
    + apply Is_true_true, N.leb_le in Hc. apply Is_true_true, N.ltb_lt in H128. lia.
    + apply Is_true_true, String.eqb_eq in Hc as ->. rw !String.eqb_refl Ascii.eqb_refl /=.
      by rw str_app_nil_r.
  - rw replace_char_cont //. destruct (Ascii.eqb_spec b a); [congruence|done].
Qed.

Lemma replace_char_chars a rep s :
  is_cont a = false → (byte_of a <? 128)%N → rust_str s →
  replace_char a rep s =
  concat_all ((λ c, if String.eqb c (String a "") then rep else c) <$> chars s).
Proof.
  intros Ha H128 Hs%rust_str_spec. rw -{1}(concat_chars s).
  induction Hs as [|c cs Hc Hcs IH]; [done|]. simpl.
  by rw replace_char_app replace_char_ok // IH.
Qed.
