(* ===== verification/Types.v ===== *)
(** * Data types of the manifest and of the role-graph keys

    The enums and structs of [manifest.rs], and the enums and key structs of
    [model.rs], with their derived or hand-written orders.  A struct's fields carry
    a prefix naming the struct; a [Vec] is a list, a [BTreeMap] a [gmap]. *)

From S2P Require Import Prelude BTree RustStr.

(** ** Enums of the manifest *)

Module ObjectType.
Inductive ObjectType : Set :=
  | Table | View | MaterializedView | Sequence | Function | Schema | Database | Type_.

(** [impl Display for ObjectType] *)
Definition object_type_to_string (t : ObjectType) : string :=
  match t with
  | Table => "table"
  | View => "view"
  | MaterializedView => "materialized_view"
  | Sequence => "sequence"
  | Function => "function"
  | Schema => "schema"
  | Database => "database"
  | Type_ => "type"
  end.
End ObjectType.
Abbreviation ObjectType := ObjectType.ObjectType.
Abbreviation object_type_to_string := ObjectType.object_type_to_string.

Module Privilege.
Inductive Privilege : Set :=
  | Select | Insert | Update | Delete | Truncate | References | Trigger
  | Execute | Usage | Create | Connect | Temporary.

(** [impl Display for Privilege] *)
Definition privilege_to_string (p : Privilege) : string :=
  match p with
  | Select => "SELECT"
  | Insert => "INSERT"
  | Update => "UPDATE"
  | Delete => "DELETE"
  | Truncate => "TRUNCATE"
  | References => "REFERENCES"
  | Trigger => "TRIGGER"
  | Execute => "EXECUTE"
  | Usage => "USAGE"
  | Create => "CREATE"
  | Connect => "CONNECT"
  | Temporary => "TEMPORARY"
  end.
End Privilege.
Abbreviation Privilege := Privilege.Privilege.
Abbreviation privilege_to_string := Privilege.privilege_to_string.

Module Ensure.
Inductive Ensure : Set := Present | Absent.
End Ensure.
Abbreviation Ensure := Ensure.Ensure.

Module SchemaBindingFacet.
Inductive SchemaBindingFacet : Set := Owner | Bindings.

(** [impl Display for SchemaBindingFacet] *)
Definition facet_to_string (f : SchemaBindingFacet) : string :=
  match f with Owner => "owner" | Bindings => "bindings" end.
End SchemaBindingFacet.
Abbreviation SchemaBindingFacet := SchemaBindingFacet.SchemaBindingFacet.
Abbreviation facet_to_string := SchemaBindingFacet.facet_to_string.

Module DefaultPrivilegeScopeType.
Inductive DefaultPrivilegeScopeType : Set := Global | Schema.
End DefaultPrivilegeScopeType.
Abbreviation DefaultPrivilegeScopeType := DefaultPrivilegeScopeType.DefaultPrivilegeScopeType.

Section enum_instances.
#[export] Instance object_type_eq_dec : EqDecision ObjectType.
Proof. solve_decision. Defined.
#[export] Instance privilege_eq_dec : EqDecision Privilege.
Proof. solve_decision. Defined.
#[export] Instance ensure_eq_dec : EqDecision Ensure.
Proof. solve_decision. Defined.
#[export] Instance facet_eq_dec : EqDecision SchemaBindingFacet.
Proof. solve_decision. Defined.
#[export] Instance scope_type_eq_dec : EqDecision DefaultPrivilegeScopeType.
Proof. solve_decision. Defined.
End enum_instances.

#[export] Instance object_type_to_string_inj : Inj (=) (=) object_type_to_string.
Proof. by intros [] []. Qed.
#[export] Instance privilege_to_string_inj : Inj (=) (=) privilege_to_string.
Proof. by intros [] []. Qed.

#[export] Instance object_type_countable : Countable ObjectType.
Proof.
  refine {|
  encode t := match t with
    | ObjectType.Table => 1 | ObjectType.View => 2 | ObjectType.MaterializedView => 3
    | ObjectType.Sequence => 4 | ObjectType.Function => 5 | ObjectType.Schema => 6
    | ObjectType.Database => 7 | ObjectType.Type_ => 8 end%positive;
  decode p := match p with
    | 1 => Some ObjectType.Table | 2 => Some ObjectType.View
    | 3 => Some ObjectType.MaterializedView | 4 => Some ObjectType.Sequence
    | 5 => Some ObjectType.Function | 6 => Some ObjectType.Schema
    | 7 => Some ObjectType.Database | 8 => Some ObjectType.Type_ | _ => None end%positive |}.
  by intros [].
Defined.

#[export] Instance privilege_countable : Countable Privilege.
Proof.
  refine {|
  encode p := match p with
    | Privilege.Select => 1 | Privilege.Insert => 2 | Privilege.Update => 3
    | Privilege.Delete => 4 | Privilege.Truncate => 5 | Privilege.References => 6
    | Privilege.Trigger => 7 | Privilege.Execute => 8 | Privilege.Usage => 9
    | Privilege.Create => 10 | Privilege.Connect => 11 | Privilege.Temporary => 12
    end%positive;
  decode n := match n with
    | 1 => Some Privilege.Select | 2 => Some Privilege.Insert | 3 => Some Privilege.Update
    | 4 => Some Privilege.Delete | 5 => Some Privilege.Truncate
    | 6 => Some Privilege.References | 7 => Some Privilege.Trigger
    | 8 => Some Privilege.Execute | 9 => Some Privilege.Usage | 10 => Some Privilege.Create
    | 11 => Some Privilege.Connect | 12 => Some Privilege.Temporary | _ => None
    end%positive |}.
  by intros [].
Defined.

#[export] Instance facet_countable : Countable SchemaBindingFacet.
Proof.
  refine {|
  encode f := match f with
    | SchemaBindingFacet.Owner => 1 | SchemaBindingFacet.Bindings => 2 end%positive;
  decode n := match n with
    | 1 => Some SchemaBindingFacet.Owner | 2 => Some SchemaBindingFacet.Bindings
    | _ => None end%positive |}.
  by intros [].
Defined.

(** [impl Ord for ObjectType], [impl Ord for Privilege]: by the displayed name. *)
#[export] Instance object_type_ord : Ord ObjectType := ord_by object_type_to_string.
#[export] Instance privilege_ord : Ord Privilege := ord_by privilege_to_string.

(** The derived order of [SchemaBindingFacet] is the order of its constructors. *)
Definition facet_index (f : SchemaBindingFacet) : nat :=
  match f with SchemaBindingFacet.Owner => 0 | SchemaBindingFacet.Bindings => 1 end.
#[export] Instance facet_index_inj : Inj (=) (=) facet_index.
Proof. by intros [] []. Qed.
#[export] Instance facet_ord : Ord SchemaBindingFacet := ord_by facet_index.

(** ** Structs of the manifest *)

(** [AuthProvider] is metadata no operation of this library reads: its tag and
    fields are kept as an association of names to optional values. *)
Record AuthProvider := {
  ap_type : string;
  ap_fields : list (string * option string);
}.

Definition ConfigValue : Type := string.

Record ProfileObjectTarget := {
  pot_object_type : ObjectType;
  pot_name : option string;
}.

Record ProfileGrant := {
  pg_privileges : list Privilege;
  pg_object : ProfileObjectTarget;
  pg_ensure : Ensure;
}.

Record DefaultPrivilegeGrant := {
  dpg_role : option string;
  dpg_privileges : list Privilege;
  dpg_on_type : ObjectType;
  dpg_ensure : Ensure;
}.

Record Profile := {
  prof_login : option bool;
  prof_inherit : option bool;
  prof_grants : list ProfileGrant;
  prof_default_privileges : list DefaultPrivilegeGrant;
  prof_config : gmap string ConfigValue;
}.

Record SchemaBinding := {
  sb_name : string;
  sb_profiles : list string;
  sb_role_pattern : option string;
  sb_owner : option string;
}.

Record PasswordSource := { ps_from_env : string }.

Record RoleDefinition := {
  rd_name : string;
  rd_external : bool;
  rd_preserve_undeclared_grants : bool;
  rd_login : option bool;
  rd_superuser : option bool;
  rd_createdb : option bool;
  rd_createrole : option bool;
  rd_inherit : option bool;
  rd_replication : option bool;
  rd_bypassrls : option bool;
  rd_connection_limit : option Z;
  rd_comment : option string;
  rd_password : option PasswordSource;
  rd_password_valid_until : option string;
  rd_config : gmap string ConfigValue;
}.

Record ObjectTarget := {
  ot_object_type : ObjectType;
  ot_schema : option string;
  ot_name : option string;
}.

Record Grant := {
  gr_role : string;
  gr_privileges : list Privilege;
  gr_object : ObjectTarget;
  gr_ensure : Ensure;
}.

Record DefaultPrivilegeScopeSpec := {
  dps_scope_type : DefaultPrivilegeScopeType;
  dps_schema : option string;
}.

Record DefaultPrivilege := {
  dp_owner : option string;
  dp_schema : option string;
  dp_scope : option DefaultPrivilegeScopeSpec;
  dp_grant : list DefaultPrivilegeGrant;
}.

Record MemberSpec := {
  ms_name : string;
  ms_inherit : option bool;
  ms_admin : option bool;
}.

(** [MemberSpec::inherit], [MemberSpec::admin] *)
Definition member_inherit (m : MemberSpec) : bool := default true (ms_inherit m).
Definition member_admin (m : MemberSpec) : bool := default false (ms_admin m).

Record Membership := {
  mb_role : string;
  mb_members : list MemberSpec;
  mb_exclusive : bool;
}.

Record RoleRetirement := {
  rr_role : string;
  rr_reassign_owned_to : option string;
  rr_drop_owned : bool;
  rr_terminate_sessions : bool;
}.

Record PolicyManifest := {
  pm_role_pattern : option string;
  pm_default_owner : option string;
  pm_auth_providers : list AuthProvider;
  pm_profiles : gmap string Profile;
  pm_schemas : list SchemaBinding;
  pm_roles : list RoleDefinition;
  pm_grants : list Grant;
  pm_default_privileges : list DefaultPrivilege;
  pm_memberships : list Membership;
  pm_retirements : list RoleRetirement;
}.

Record ExpandedSchema := {
  es_name : string;
  es_owner : option string;
}.

Record ExpandedManifest := {
  em_schemas : list ExpandedSchema;
  em_roles : list RoleDefinition;
  em_grants : list Grant;
  em_default_privileges : list DefaultPrivilege;
  em_memberships : list Membership;
}.

(** ** Grantees, scopes and keys of the model *)

Module Grantee.
Inductive Grantee : Set := Public | Role (name : string).
End Grantee.
Abbreviation Grantee := Grantee.Grantee.

Definition PUBLIC_ROLE : string := "PUBLIC".

(** [Grantee::parse], [Grantee::is_public], [Grantee::as_str] *)
Definition grantee_parse (s : string) : Grantee :=
  if String.eqb s PUBLIC_ROLE then Grantee.Public else Grantee.Role s.
Definition is_public (g : Grantee) : bool :=
  match g with Grantee.Public => true | Grantee.Role _ => false end.
Definition grantee_as_str (g : Grantee) : string :=
  match g with Grantee.Public => PUBLIC_ROLE | Grantee.Role name => name end.

Module DefaultPrivilegeScope.
Inductive DefaultPrivilegeScope : Set := Global | Schema (schema : string).
End DefaultPrivilegeScope.
Abbreviation DefaultPrivilegeScope := DefaultPrivilegeScope.DefaultPrivilegeScope.

(** [impl Display for DefaultPrivilegeScope] *)
Definition scope_to_string (s : DefaultPrivilegeScope) : string :=
  match s with
  | DefaultPrivilegeScope.Global => "global scope"
  | DefaultPrivilegeScope.Schema schema => "schema " +:+ dq schema
  end.

Record GrantKey := {
  gk_role : Grantee;
  gk_object_type : ObjectType;
  gk_schema : option string;
  gk_name : option string;
}.

Record DefaultPrivKey := {
  dk_owner : string;
  dk_scope : DefaultPrivilegeScope;
  dk_on_type : ObjectType;
  dk_grantee : Grantee;
}.

Record MembershipEdge := {
  me_role : string;
  me_member : string;
  me_inherit : bool;
  me_admin : bool;
}.

Record MembershipOptions := {
  mo_inherit : bool;
  mo_admin : bool;
  mo_set : bool;
}.

(** The tuple a derived order compares. *)
Definition grantee_tuple (g : Grantee) : option string :=
  match g with Grantee.Public => None | Grantee.Role name => Some name end.
Definition scope_tuple (s : DefaultPrivilegeScope) : option string :=
  match s with
  | DefaultPrivilegeScope.Global => None
  | DefaultPrivilegeScope.Schema schema => Some schema
  end.
Definition grant_key_tuple (k : GrantKey) : Grantee * (ObjectType * (option string * option string)) :=
  (gk_role k, (gk_object_type k, (gk_schema k, gk_name k))).
Definition default_key_tuple (k : DefaultPrivKey)
    : string * (DefaultPrivilegeScope * (ObjectType * Grantee)) :=
  (dk_owner k, (dk_scope k, (dk_on_type k, dk_grantee k))).
Definition edge_tuple (e : MembershipEdge) : string * (string * (bool * bool)) :=
  (me_role e, (me_member e, (me_inherit e, me_admin e))).

#[export] Instance grantee_tuple_inj : Inj (=) (=) grantee_tuple.
Proof. intros [] []; naive_solver. Qed.
#[export] Instance scope_tuple_inj : Inj (=) (=) scope_tuple.
Proof. intros [] []; naive_solver. Qed.
#[export] Instance grant_key_tuple_inj : Inj (=) (=) grant_key_tuple.
Proof. intros [] []; unfold grant_key_tuple; naive_solver. Qed.
#[export] Instance default_key_tuple_inj : Inj (=) (=) default_key_tuple.
Proof. intros [] []; unfold default_key_tuple; naive_solver. Qed.
#[export] Instance edge_tuple_inj : Inj (=) (=) edge_tuple.
Proof. intros [] []; unfold edge_tuple; naive_solver. Qed.

Section key_instances.
#[export] Instance grantee_eq_dec : EqDecision Grantee.
Proof. solve_decision. Defined.
#[export] Instance scope_eq_dec : EqDecision DefaultPrivilegeScope.
Proof. solve_decision. Defined.
#[export] Instance grant_key_eq_dec : EqDecision GrantKey.
Proof. solve_decision. Defined.
#[export] Instance default_key_eq_dec : EqDecision DefaultPrivKey.
Proof. solve_decision. Defined.
#[export] Instance edge_eq_dec : EqDecision MembershipEdge.
Proof. solve_decision. Defined.
#[export] Instance options_eq_dec : EqDecision MembershipOptions.
Proof. solve_decision. Defined.
End key_instances.

#[export] Instance grantee_countable : Countable Grantee.
Proof.
  refine (inj_countable' grantee_tuple
    (λ t, match t with None => Grantee.Public | Some s => Grantee.Role s end) _).
  by intros [].
Defined.
#[export] Instance scope_countable : Countable DefaultPrivilegeScope.
Proof.
  refine (inj_countable' scope_tuple (λ t, match t with
    None => DefaultPrivilegeScope.Global | Some s => DefaultPrivilegeScope.Schema s end) _).
  by intros [].
Defined.
#[export] Instance grant_key_countable : Countable GrantKey.
Proof.
  refine (inj_countable' (A := Grantee * (ObjectType * (option string * option string))) grant_key_tuple
    (λ '(r, (t, (s, n))), {| gk_role := r; gk_object_type := t; gk_schema := s; gk_name := n |}) _).
  by intros [].
Defined.
#[export] Instance default_key_countable : Countable DefaultPrivKey.
Proof.
  refine (inj_countable' (A := string * (DefaultPrivilegeScope * (ObjectType * Grantee))) default_key_tuple
    (λ '(o, (s, (t, g))), {| dk_owner := o; dk_scope := s; dk_on_type := t; dk_grantee := g |}) _).
  by intros [].
Defined.
#[export] Instance edge_countable : Countable MembershipEdge.
Proof.
  refine (inj_countable' (A := string * (string * (bool * bool))) edge_tuple
    (λ '(r, (m, (i, a))), {| me_role := r; me_member := m; me_inherit := i; me_admin := a |}) _).
  by intros [].
Defined.

#[export] Instance grantee_ord : Ord Grantee := ord_by grantee_tuple.
#[export] Instance scope_ord : Ord DefaultPrivilegeScope := ord_by scope_tuple.
#[export] Instance grant_key_ord : Ord GrantKey := ord_by grant_key_tuple.
#[export] Instance default_key_ord : Ord DefaultPrivKey := ord_by default_key_tuple.
#[export] Instance edge_ord : Ord MembershipEdge := ord_by edge_tuple.

(** ** Manifest errors *)

Module ManifestError.
Inductive ManifestError : Set :=
  | YamlTooLarge (actual limit : N)
  | Yaml (message : string)
  | DuplicateRole (role : string)
  | DuplicateSchema (schema : string)
  | UndefinedProfile (profile schema : string)
  | InvalidRolePattern (pattern : string)
  | MissingDefaultPrivilegeRole (scope : string)
  | DuplicateRetirement (role : string)
  | RetirementRoleStillDesired (role : string)
  | RetirementSelfReassign (role : string)
  | PasswordWithoutLogin (role : string)
  | InvalidValidUntil (role value : string)
  | InvalidConfigParameter (role parameter : string)
  | SetRoleWithoutMembership (role target : string)
  | TooManyEntries (collection : string) (actual limit : N)
  | ValueTooLong (context value : string) (actual limit : N)
  | ReservedPublicName (context : string)
  | ConflictingGrantEnsure (target privilege : string)
  | ConflictingWildcardEnsure (target privilege : string)
  | ConflictingDefaultPrivilegeEnsure (target privilege : string)
  | DefaultPrivilegeScopeConflict (owner : string)
  | DefaultPrivilegeScopeMissing (owner : string)
  | DefaultPrivilegeScopeSchemaMissing
  | DefaultPrivilegeScopeSchemaForbidden (schema : string)
  | InvalidDefaultPrivilegeOnType (on_type scope : string)
  | ProfileAbsentDefaultPrivilege (profile : string)
  | ProfileAbsentGrant (profile : string)
  | DatabaseGrantMissingName
  | PredefinedRoleNotExternal (role : string)
  | ExclusiveMembershipOnManagedRole (role : string).
End ManifestError.
Abbreviation ManifestError := ManifestError.ManifestError.

(** [is_predefined_role] *)
Definition is_predefined_role (name : string) : bool := starts_with "pg_" name.

(** [DefaultPrivilege::resolved_scope] *)
Definition resolved_scope (d : DefaultPrivilege) : res ManifestError DefaultPrivilegeScope :=
  let owner_context := default "(default owner)" (dp_owner d) in
  match dp_schema d, dp_scope d with
  | Some _, Some _ => Err (ManifestError.DefaultPrivilegeScopeConflict owner_context)
  | None, None => Err (ManifestError.DefaultPrivilegeScopeMissing owner_context)
  | Some schema, None => Ok (DefaultPrivilegeScope.Schema schema)
  | None, Some spec =>
      match dps_scope_type spec, dps_schema spec with
      | DefaultPrivilegeScopeType.Global, None => Ok DefaultPrivilegeScope.Global
      | DefaultPrivilegeScopeType.Global, Some schema =>
          Err (ManifestError.DefaultPrivilegeScopeSchemaForbidden schema)
      | DefaultPrivilegeScopeType.Schema, Some schema => Ok (DefaultPrivilegeScope.Schema schema)
      | DefaultPrivilegeScopeType.Schema, None =>
          Err ManifestError.DefaultPrivilegeScopeSchemaMissing
      end
  end.
