(* ===== verification/Guc.v ===== *)
(** * List-valued configuration parameters ([guc.rs])

    [split_guc_list] cuts the value of a list-quoted parameter into its elements,
    [canonicalize_list_guc_value] rewrites a value into one canonical spelling.
    The theorems: canonicalization keeps the denoted list, is idempotent, and two
    well-formed values have the same canonical form exactly when they denote the
    same list. *)

From S2P Require Import Prelude BTree RustStr.

Definition LIST_QUOTE_PARAMETERS : list string :=
  ["local_preload_libraries"; "search_path"; "session_preload_libraries";
   "shared_preload_libraries"; "temp_tablespaces"].

Definition is_list_quote_parameter (parameter : string) : bool :=
  bool_decide (parameter ∈ LIST_QUOTE_PARAMETERS).

(** A separator between elements. *)
Definition is_separator (c : string) : bool := is_whitespace c || String.eqb c ",".

(** The [while] loop over leading separators. *)
Fixpoint skip_separators (cs : list string) : list string :=
  match cs with
  | c :: cs' => if is_separator c then skip_separators cs' else cs
  | [] => []
  end.

(** The loop after an opening quote: the element and the characters after the
    closing quote, [None] when the input ends first. *)
Fixpoint take_quoted (cs : list string) : option (string * list string) :=
  match cs with
  | [] => None
  | c :: cs' =>
      if String.eqb c DQ then
        match cs' with
        | c' :: cs'' =>
            if String.eqb c' DQ
            then '(e, rest) ← take_quoted cs''; Some (DQ +:+ e, rest)
            else Some ("", cs')
        | [] => Some ("", [])
        end
      else '(e, rest) ← take_quoted cs'; Some (c +:+ e, rest)
  end.

(** The [while] loop of an unquoted element. *)
Fixpoint take_bare (cs : list string) : string * list string :=
  match cs with
  | c :: cs' =>
      if is_separator c then ("", cs)
      else let '(e, rest) := take_bare cs' in (c +:+ e, rest)
  | [] => ("", [])
  end.

(** The outer [loop]; every turn consumes a character, so the number of characters
    bounds the turns. *)
Fixpoint split_loop (fuel : nat) (cs : list string) : option (list string) :=
  match fuel with
  | O => None
  | S fuel =>
      match skip_separators cs with
      | [] => Some []
      | first :: cs' =>
          if String.eqb first DQ then
            '(element, rest) ← take_quoted cs';
            elements ← split_loop fuel rest; Some (element :: elements)
          else
            let '(element, rest) := take_bare (first :: cs') in
            elements ← split_loop fuel rest; Some (element :: elements)
      end
  end.

Definition split_guc_list (value : string) : option (list string) :=
  split_loop (S (length (chars value))) (chars value).

Definition is_simple_element (element : string) : bool :=
  match chars element with
  | [] => false
  | c :: cs =>
      (is_ascii_lowercase c || String.eqb c "_") &&
      forallb (λ c, is_ascii_lowercase c || is_ascii_digit c || String.eqb c "_") cs
  end.

Definition quote_element_if_needed (element : string) : string :=
  if is_simple_element element then element
  else DQ +:+ replace_char dq_char (DQ +:+ DQ) element +:+ DQ.

Definition canonicalize_list_guc_value (value : string) : string :=
  match split_guc_list value with
  | Some elements => join ", " (quote_element_if_needed <$> elements)
  | None => value
  end.

(** ** Termination *)

Lemma skip_separators_length cs : length (skip_separators cs) ≤ length cs.
Proof. induction cs as [|c cs IH]; simpl; [lia|]. destruct (is_separator c); simpl; lia. Qed.

Lemma take_quoted_length cs e rest : take_quoted cs = Some (e, rest) → length rest < length cs.
Proof.
  revert e rest. induction cs as [cs IH] using (induction_ltof1 _ length)=> e rest.
  unfold ltof in IH. destruct cs as [|c cs]; simpl in *; [done|]. destruct (String.eqb c DQ).
  - destruct cs as [|c' cs]; [intros [= <- <-]; simpl; lia|].
    destruct (String.eqb c' DQ); [|intros [= <- <-]; simpl; lia].
    destruct (take_quoted cs) as [[e' r]|] eqn:Hq; [|done]. intros [= <- <-].
    apply IH in Hq; simpl; lia.
  - destruct (take_quoted cs) as [[e' r]|] eqn:Hq; [|done]. intros [= <- <-].
    apply IH in Hq; simpl; lia.
Qed.

Lemma take_bare_length cs : length (take_bare cs).2 ≤ length cs.
Proof.
  induction cs as [|c cs IH]; simpl; [lia|]. destruct (is_separator c); simpl; [lia|].
  destruct (take_bare cs); simpl in *. lia.
Qed.

Lemma skip_separators_head cs c cs' : skip_separators cs = c :: cs' → is_separator c = false.
Proof.
  induction cs as [|d cs IH]; simpl; [done|]. destruct (is_separator d) eqn:?; naive_solver.
Qed.

Lemma split_loop_fuel n m cs :
  length cs < n → length cs < m → split_loop n cs = split_loop m cs.
Proof.
  revert m cs. induction n as [|n IH]=> m cs Hn Hm; [lia|]. destruct m as [|m]; [lia|]. simpl.
  pose proof (skip_separators_length cs) as Hs.
  destruct (skip_separators cs) as [|c cs'] eqn:Hskip; [done|]. simpl in Hs.
  destruct (String.eqb c DQ).
  - destruct (take_quoted cs') as [[e rest]|] eqn:Hq; [|done]. simpl.
    apply take_quoted_length in Hq. rw (IH m); [done|lia..].
  - apply skip_separators_head in Hskip. rw Hskip.
    pose proof (take_bare_length cs') as Hb. destruct (take_bare cs') as [e rest]. simpl in *.
    rw (IH m); [done|lia..].
Qed.

(** ** Reading back a canonical value *)

Lemma eqb_neq_false s t : s ≠ t → String.eqb s t = false.
Proof. apply String.eqb_neq. Qed.

Definition dq_chars (cs : list string) : list string :=
  cs ≫= λ c, if String.eqb c DQ then [DQ; DQ] else [c].

(** Escaped characters followed by a closing quote are read back, unless another
    quote follows. *)
Lemma take_quoted_escape cs rest :
  match rest with c :: _ => c ≠ DQ | [] => True end →
  take_quoted (dq_chars cs ++ DQ :: rest) = Some (concat_all cs, rest).
Proof.
  intros Hrest. induction cs as [|c cs IH]; simpl.
  - destruct rest as [|c rest]; [done|]. by rw eqb_neq_false.
  - destruct (String.eqb c DQ) eqn:Hc.
    + apply String.eqb_eq in Hc as ->. cbn [app take_quoted]. rw !String.eqb_refl.
      fold (dq_chars cs). by rw IH.
    + cbn [app take_quoted]. rw Hc. fold (dq_chars cs). by rw IH.
Qed.

Lemma take_bare_app cs rest :
  Forall (λ c, is_separator c = false) cs →
  match rest with c :: _ => is_separator c = true | [] => True end →
  take_bare (cs ++ rest) = (concat_all cs, rest).
Proof.
  intros Hcs Hrest. induction Hcs as [|c cs Hc Hcs IH]; simpl.
  - destruct rest as [|c rest]; [done|]. simpl. by rw Hrest.
  - by rw Hc IH.
Qed.

(** The characters of a quoted element. *)
Definition element_chars (e : string) : list string :=
  if is_simple_element e then chars e else DQ :: dq_chars (chars e) ++ [DQ].

Fixpoint elements_chars (es : list string) : list string :=
  match es with
  | [] => []
  | [e] => element_chars e
  | e :: es => element_chars e ++ "," :: " " :: elements_chars es
  end.

Lemma dq_chars_concat cs :
  concat_all (dq_chars cs) =
  concat_all ((λ c, if String.eqb c DQ then DQ +:+ DQ else c) <$> cs).
Proof.
  induction cs as [|c cs IH]; [done|]. cbn [dq_chars mbind list_bind fmap list_fmap].
  fold (dq_chars cs). rw concat_all_app IH.
  by destruct (String.eqb c DQ); cbn [concat_all foldr]; rw !str_app_nil_r.
Qed.

Lemma dq_chars_ok cs : Forall char_ok cs → Forall char_ok (dq_chars cs).
Proof.
  induction 1 as [|c cs Hc Hcs IH]; [constructor|]. cbn. apply Forall_app; split; [|done].
  destruct (String.eqb c DQ); repeat constructor; done.
Qed.

Lemma element_chars_spec e :
  rust_str e →
  quote_element_if_needed e = concat_all (element_chars e) ∧ Forall char_ok (element_chars e).
Proof.
  intros He. unfold quote_element_if_needed, element_chars. destruct (is_simple_element e).
  - split; [by rw concat_chars|by apply rust_str_spec].
  - split.
    + change (concat_all (DQ :: ?l)) with (DQ +:+ concat_all l).
      rw concat_all_app dq_chars_concat. rw replace_char_chars //.
    + constructor; [done|]. apply Forall_app; split; [|by repeat constructor].
      by apply dq_chars_ok, rust_str_spec.
Qed.

Lemma elements_chars_spec es :
  Forall rust_str es →
  join ", " (quote_element_if_needed <$> es) = concat_all (elements_chars es) ∧
  Forall char_ok (elements_chars es).
Proof.
  induction 1 as [|e es He Hes [IH1 IH2]]; [done|].
  destruct (element_chars_spec e He) as [H1 H2]. destruct es as [|e' es]; [done|].
  split.
  - change (elements_chars (e :: e' :: es)) with
      (element_chars e ++ "," :: " " :: elements_chars (e' :: es)).
    rw concat_all_app -H1. cbn [fmap list_fmap join] in *. by rw IH1.
  - change (elements_chars (e :: e' :: es)) with
      (element_chars e ++ "," :: " " :: elements_chars (e' :: es)).
    apply Forall_app; split; [done|]. by repeat constructor.
Qed.

(** An unquoted element holds no separator and no leading quote. *)
Lemma simple_char c :
  (is_ascii_lowercase c || is_ascii_digit c || String.eqb c "_") →
  is_separator c = false ∧ String.eqb c DQ = false.
Proof.
  destruct c as [|a [|b s]]; [done| |by simpl; destruct (Ascii.eqb a _)].
  destruct a as [[] [] [] [] [] [] [] []]; vm_compute; done.
Qed.

Lemma simple_chars e :
  is_simple_element e →
  ∃ c cs, chars e = c :: cs ∧ String.eqb c DQ = false ∧
          Forall (λ c, is_separator c = false) (c :: cs).
Proof.
  unfold is_simple_element. destruct (chars e) as [|c cs]; [done|].
  intros [Hc Hcs]%andb_True. exists c, cs.
  assert (is_separator c = false ∧ String.eqb c DQ = false) as [Hs Hd].
  { apply simple_char. destruct (is_ascii_lowercase c), (is_ascii_digit c); done. }
  split_and!; [done..|]. constructor; [done|]. apply Forall_forall=> d Hin.
  apply simple_char. apply Is_true_true. apply Is_true_true in Hcs.
  rw forallb_forall in Hcs. by apply Hcs, list_elem_of_In.
Qed.

(** What may follow an element: nothing, or a separator. *)
Definition delimited (rest : list string) : Prop :=
  match rest with c :: _ => is_separator c = true | [] => True end.

Lemma split_loop_element n e rest :
  rust_str e → delimited rest →
  split_loop (S n) (element_chars e ++ rest) =
  (elements ← split_loop n rest; Some (e :: elements)).
Proof.
  intros He Hrest. cbn [split_loop]. unfold element_chars.
  destruct (is_simple_element e) eqn:Hsimple.
  - apply Is_true_true, simple_chars in Hsimple as (c & cs & Hchars & Hc & Hcs).
    pose proof (concat_chars e) as Hcat. rw Hchars in Hcat. rw Hchars.
    inversion Hcs as [|? ? Hsep _]; subst. cbn [app skip_separators]. rw Hsep Hc.
    change (c :: cs ++ rest) with ((c :: cs) ++ rest). by rw take_bare_app.
  - cbn [app skip_separators].
    replace (is_separator DQ) with false by by vm_compute.
    rw String.eqb_refl -app_assoc /=. rw take_quoted_escape; [by rw concat_chars|].
    destruct rest as [|c rest]; [done|]. intros ->. by vm_compute in Hrest.
Qed.

Lemma split_elements_chars n es :
  Forall rust_str es → length (elements_chars es) < n →
  split_loop n (elements_chars es) = Some es.
Proof.
  intros Hes. revert n. induction Hes as [|e es He Hes IH]=> n Hn;
    (destruct n as [|n]; [lia|]); [done|]. destruct es as [|e' es].
  - cbn [elements_chars]. rw -(app_nil_r (element_chars e)) split_loop_element //.
    destruct n; [|done]. simpl in Hn. unfold element_chars in Hn.
    destruct (is_simple_element e) eqn:Hs; simpl in Hn; [|lia].
    apply Is_true_true, simple_chars in Hs as (c & cs & Hc & _). rw Hc /= in Hn. lia.
  - change (elements_chars (e :: e' :: es)) with
      (element_chars e ++ "," :: " " :: elements_chars (e' :: es)) in *.
    rw split_loop_element //. rw length_app in Hn. cbn [length] in Hn.
    destruct n as [|n]; [lia|].
    assert (∀ cs, split_loop (S n) ("," :: " " :: cs) = split_loop (S n) cs) as -> by done.
    rw IH //. lia.
Qed.

(** The elements of a Rust string are Rust strings. *)
Lemma take_quoted_ok cs e rest :
  Forall char_ok cs → take_quoted cs = Some (e, rest) → rust_str e ∧ Forall char_ok rest.
Proof.
  assert (∀ cs, Forall char_ok cs → take_quoted cs = Some (e, rest) →
    ∃ ds, e = concat_all ds ∧ Forall char_ok ds ∧ Forall char_ok rest) as H.
  { clear cs. intros cs. revert e rest.
    induction cs as [cs IH] using (induction_ltof1 _ length)=> e rest.
    unfold ltof in IH. destruct cs as [|c cs]; [done|]. cbn [take_quoted].
    intros [Hc Hcs]%Forall_cons. destruct (String.eqb c DQ).
    - destruct cs as [|c' cs]; [intros [= <- <-]; by exists []|].
      apply Forall_cons in Hcs as [Hc' Hcs].
      destruct (String.eqb c' DQ); [|intros [= <- <-]; exists []; by repeat constructor].
      destruct (take_quoted cs) as [[e' r]|] eqn:Hq; [|done]. intros [= <- <-].
      apply IH in Hq as (ds & -> & ? & ?); [|simpl; lia|done].
      exists (DQ :: ds). split_and!; [done|by constructor|done].
    - destruct (take_quoted cs) as [[e' r]|] eqn:Hq; [|done]. intros [= <- <-].
      apply IH in Hq as (ds & -> & ? & ?); [|simpl; lia|done].
      exists (c :: ds). split_and!; [done|by constructor|done]. }
  intros Hcs Hq. destruct (H cs Hcs Hq) as (ds & -> & Hds & ?).
  split; [by apply rust_str_concat|done].
Qed.

Lemma take_bare_ok cs :
  Forall char_ok cs → rust_str (take_bare cs).1 ∧ Forall char_ok (take_bare cs).2.
Proof.
  intros Hcs. assert (∃ ds, (take_bare cs).1 = concat_all ds ∧ Forall char_ok ds ∧
    Forall char_ok (take_bare cs).2) as (ds & -> & Hds & ?);
    [|split; [by apply rust_str_concat|done]].
  induction Hcs as [|c cs Hc Hcs IH]; [by exists []|]. cbn [take_bare].
  destruct (is_separator c); [exists []; split_and!; [done..|by constructor]|].
  destruct (take_bare cs) as [e rest]. destruct IH as (ds & Heq & ? & ?). simpl in *. subst.
  exists (c :: ds). split_and!; [done|by constructor|done].
Qed.

Lemma skip_separators_ok cs : Forall char_ok cs → Forall char_ok (skip_separators cs).
Proof.
  induction 1 as [|c cs Hc Hcs IH]; [done|]. simpl. destruct (is_separator c); [done|].
  by constructor.
Qed.

Lemma split_loop_ok n cs es :
  Forall char_ok cs → split_loop n cs = Some es → Forall rust_str es.
Proof.
  revert cs es. induction n as [|n IH]=> cs es Hcs; [done|]. cbn [split_loop].
  apply skip_separators_ok in Hcs. destruct (skip_separators cs) as [|c cs']; [naive_solver|].
  destruct (String.eqb c DQ).
  - apply Forall_cons in Hcs as [Hc Hcs].
    destruct (take_quoted cs') as [[e rest]|] eqn:Hq; [|done]. simpl.
    apply take_quoted_ok in Hq as [He Hrest]; [|done].
    destruct (split_loop n rest) eqn:Hl; [|done]. intros [= <-]. constructor; [done|by eapply IH].
  - destruct (take_bare_ok _ Hcs) as [He Hrest].
    destruct (take_bare (c :: cs')) as [e rest]. simpl in *.
    destruct (split_loop n rest) eqn:Hl; [|done]. intros [= <-]. constructor; [done|by eapply IH].
Qed.

Lemma split_guc_list_ok v es : rust_str v → split_guc_list v = Some es → Forall rust_str es.
Proof. intros Hv%rust_str_spec. by apply split_loop_ok. Qed.

(** The canonical spelling of a list of elements is split into that list. *)
Lemma split_join es :
  Forall rust_str es → split_guc_list (join ", " (quote_element_if_needed <$> es)) = Some es.
Proof.
  intros Hes. destruct (elements_chars_spec es Hes) as [-> Hok].
  unfold split_guc_list. rw chars_concat //. apply split_elements_chars; [done|lia].
Qed.

Lemma canonicalize_split v es :
  rust_str v → split_guc_list v = Some es →
  split_guc_list (canonicalize_list_guc_value v) = Some es.
Proof.
  intros Hv Hes. unfold canonicalize_list_guc_value. rw Hes.
  apply split_join, (split_guc_list_ok v); done.
Qed.

(** Canonical forms decide equality of the denoted lists: for well-formed values the
    canonical spelling splits into the elements of the original, a second
    canonicalization changes nothing, and two values get the same canonical form exactly
    when they split into the same elements. *)
Theorem canonicalize_decides_equality v w es fs :
  rust_str v → rust_str w → split_guc_list v = Some es → split_guc_list w = Some fs →
  split_guc_list (canonicalize_list_guc_value v) = Some es ∧
  canonicalize_list_guc_value (canonicalize_list_guc_value v) = canonicalize_list_guc_value v ∧
  (canonicalize_list_guc_value v = canonicalize_list_guc_value w ↔ es = fs).
Proof.
  intros Hv Hw Hes Hfs.
  pose proof (canonicalize_split v es Hv Hes) as Hcv.
  pose proof (canonicalize_split w fs Hw Hfs) as Hcw. split_and!; [done| |split].
  - unfold canonicalize_list_guc_value at 1. rw Hcv. unfold canonicalize_list_guc_value. by rw Hes.
  - intros Heq. rw Heq Hcw in Hcv. by simplify_eq.
  - intros ->. unfold canonicalize_list_guc_value. by rw Hes Hfs.
Qed.

Definition search_path_yaml : string := dq "$user" +:+ ",public".
Definition search_path_catalog : string := dq "$user" +:+ ",  " +:+ dq "public" +:+ " ".

Lemma canonicalize_decides_equality_witness :
  canonicalize_list_guc_value search_path_yaml = canonicalize_list_guc_value search_path_catalog.
Proof.
  apply (canonicalize_decides_equality search_path_yaml search_path_catalog
           ["$user"; "public"] ["$user"; "public"]); by vm_compute.
Defined.

(** [split_guc_list] needs no more turns of its loop than the value has characters. *)
Lemma split_guc_list_fuel n v :
  length (chars v) < n → split_loop n (chars v) = split_guc_list v.
Proof. intros Hn. apply split_loop_fuel; [done|lia]. Qed.
