(* ===== verification/Model.v ===== *)
(** * The role-graph model ([model.rs])

    [RoleGraph] is the state the diff engine compares; the desired one is built from
    an expanded manifest by [from_expanded], the current one by inspection. *)

From S2P Require Import Prelude BTree RustStr Types Guc.

(** ** Role attributes *)

Record RoleState := {
  rs_login : bool;
  rs_superuser : bool;
  rs_createdb : bool;
  rs_createrole : bool;
  rs_inherit : bool;
  rs_replication : bool;
  rs_bypassrls : bool;
  rs_connection_limit : Z;
  rs_comment : option string;
  rs_password_valid_until : option string;
  rs_config : gmap string string;
}.

#[export] Instance role_state_eq_dec : EqDecision RoleState.
Proof. solve_decision. Defined.

(** [impl Default for RoleState] *)
Definition role_state_default : RoleState := {|
  rs_login := false;
  rs_superuser := false;
  rs_createdb := false;
  rs_createrole := false;
  rs_inherit := true;
  rs_replication := false;
  rs_bypassrls := false;
  rs_connection_limit := (-1)%Z;
  rs_comment := None;
  rs_password_valid_until := None;
  rs_config := ∅;
|}.

(** The closure over [definition.config] in [from_definition]: lowercase name,
    canonical value of a list parameter. *)
Definition normalize_config_entry (entry : string * ConfigValue) : string * string :=
  let name := to_ascii_lowercase entry.1 in
  (name,
   if is_list_quote_parameter name then canonicalize_list_guc_value entry.2 else entry.2).

(** [RoleState::from_definition] *)
Definition from_definition (definition : RoleDefinition) : RoleState :=
  let defaults := role_state_default in {|
    rs_login := default (rs_login defaults) (rd_login definition);
    rs_superuser := default (rs_superuser defaults) (rd_superuser definition);
    rs_createdb := default (rs_createdb defaults) (rd_createdb definition);
    rs_createrole := default (rs_createrole defaults) (rd_createrole definition);
    rs_inherit := default (rs_inherit defaults) (rd_inherit definition);
    rs_replication := default (rs_replication defaults) (rd_replication definition);
    rs_bypassrls := default (rs_bypassrls defaults) (rd_bypassrls definition);
    rs_connection_limit := default (rs_connection_limit defaults) (rd_connection_limit definition);
    rs_comment := rd_comment definition;
    rs_password_valid_until := rd_password_valid_until definition;
    rs_config := map_collect (normalize_config_entry <$> map_iter (rd_config definition));
  |}.

Module RoleAttribute.
Inductive RoleAttribute : Set :=
  | Login (v : bool)
  | Superuser (v : bool)
  | Createdb (v : bool)
  | Createrole (v : bool)
  | Inherit (v : bool)
  | Replication (v : bool)
  | Bypassrls (v : bool)
  | ConnectionLimit (v : Z)
  | ValidUntil (v : option string)
  | SetConfig (parameter value : string)
  | ResetConfig (parameter : string).
End RoleAttribute.
Abbreviation RoleAttribute := RoleAttribute.RoleAttribute.

#[export] Instance role_attribute_eq_dec : EqDecision RoleAttribute.
Proof. solve_decision. Defined.

(** [if self.x != other.x { changes.push(..) }] *)
Definition push_if_changed {A} `{EqDecision A} (old new : A) (attr : A → RoleAttribute) :
    list RoleAttribute :=
  if decide (old = new) then [] else [attr new].

(** [RoleState::changed_attributes] *)
Definition changed_attributes (self other : RoleState) : list RoleAttribute :=
  push_if_changed (rs_login self) (rs_login other) RoleAttribute.Login ++
  push_if_changed (rs_superuser self) (rs_superuser other) RoleAttribute.Superuser ++
  push_if_changed (rs_createdb self) (rs_createdb other) RoleAttribute.Createdb ++
  push_if_changed (rs_createrole self) (rs_createrole other) RoleAttribute.Createrole ++
  push_if_changed (rs_inherit self) (rs_inherit other) RoleAttribute.Inherit ++
  push_if_changed (rs_replication self) (rs_replication other) RoleAttribute.Replication ++
  push_if_changed (rs_bypassrls self) (rs_bypassrls other) RoleAttribute.Bypassrls ++
  push_if_changed (rs_connection_limit self) (rs_connection_limit other)
    RoleAttribute.ConnectionLimit ++
  push_if_changed (rs_password_valid_until self) (rs_password_valid_until other)
    RoleAttribute.ValidUntil ++
  (map_iter (rs_config other) ≫= λ '(parameter, value),
     if decide (rs_config self !! parameter = Some value) then []
     else [RoleAttribute.SetConfig parameter value]) ++
  (map_keys (rs_config self) ≫= λ parameter,
     match rs_config other !! parameter with
     | Some _ => []
     | None => [RoleAttribute.ResetConfig parameter]
     end).

(** ** Schemas *)

Record SchemaState := {
  ss_owner : option string;
  ss_owner_privileges : gset Privilege;
}.

Definition default_schema_owner_privileges (_owner : string) : gset Privilege :=
  {[Privilege.Create; Privilege.Usage]}.

(** ** The role graph *)

(** [GrantState] and [DefaultPrivState] have the privilege set as their only field. *)
Abbreviation GrantState := (gset Privilege).
Abbreviation DefaultPrivState := (gset Privilege).

Record RoleGraph := {
  routine_aliases : gmap (string * string) string;
  roles : gmap string RoleState;
  schemas : gmap string SchemaState;
  grants : gmap GrantKey GrantState;
  default_privileges : gmap DefaultPrivKey DefaultPrivState;
  memberships : gset MembershipEdge;
  grant_absences : gmap GrantKey (gset Privilege);
  default_privilege_absences : gmap DefaultPrivKey (gset Privilege);
  exclusive_membership_roles : gset string;
  inherent_grants : gset GrantKey;
  membership_edge_grantors : gmap (string * string) (gset string);
  membership_edge_options : gmap (string * string) (gmap string MembershipOptions);
  executor_authority_edges : gset (string * string * string);
  grant_entry_grantors : gmap GrantKey (gmap string (gset Privilege));
}.

(** [RoleGraph::default] *)
Definition role_graph_default : RoleGraph := {|
  routine_aliases := ∅; roles := ∅; schemas := ∅; grants := ∅; default_privileges := ∅;
  memberships := ∅; grant_absences := ∅; default_privilege_absences := ∅;
  exclusive_membership_roles := ∅; inherent_grants := ∅; membership_edge_grantors := ∅;
  membership_edge_options := ∅; executor_authority_edges := ∅; grant_entry_grantors := ∅;
|}.

Definition with_grant_maps (g : RoleGraph) (gs : gmap GrantKey GrantState)
    (absences : gmap GrantKey (gset Privilege)) : RoleGraph := {|
  routine_aliases := routine_aliases g; roles := roles g; schemas := schemas g;
  grants := gs; default_privileges := default_privileges g; memberships := memberships g;
  grant_absences := absences; default_privilege_absences := default_privilege_absences g;
  exclusive_membership_roles := exclusive_membership_roles g;
  inherent_grants := inherent_grants g;
  membership_edge_grantors := membership_edge_grantors g;
  membership_edge_options := membership_edge_options g;
  executor_authority_edges := executor_authority_edges g;
  grant_entry_grantors := grant_entry_grantors g;
|}.

(** [RoleGraph::complete_membership_options] *)
Definition complete_membership_options (g : RoleGraph) (role member : string) :
    option (gmap string MembershipOptions) :=
  grantors ← membership_edge_grantors g !! (role, member);
  options ← membership_edge_options g !! (role, member);
  if bool_decide (grantors ≠ ∅) && bool_decide (set_iter grantors = map_keys options)
  then Some options else None.

(** The closure [resolve] of [resolve_routine_aliases]. *)
Definition resolve_key (aliases : gmap (string * string) string) (key : GrantKey) : GrantKey :=
  match gk_object_type key, gk_schema key, gk_name key with
  | ObjectType.Function, Some schema, Some name =>
      match aliases !! (schema, name) with
      | Some canonical =>
          {| gk_role := gk_role key; gk_object_type := gk_object_type key;
             gk_schema := gk_schema key; gk_name := Some canonical |}
      | None => key
      end
  | _, _, _ => key
  end.

(** The two loops of [resolve_routine_aliases]: rebuild a map under resolved keys. *)
Definition resolve_map (aliases : gmap (string * string) string)
    (m : gmap GrantKey (gset Privilege)) : gmap GrantKey (gset Privilege) :=
  foldl (λ acc p, entry_extend (resolve_key aliases p.1) p.2 acc) ∅ (map_iter m).

(** [RoleGraph::resolve_routine_aliases] *)
Definition resolve_routine_aliases (self : RoleGraph) (aliases : gmap (string * string) string) :
    RoleGraph :=
  if bool_decide (aliases = ∅) then self
  else if negb (existsb (λ key, bool_decide (resolve_key aliases key ≠ key))
                  (map_keys (grants self) ++ map_keys (grant_absences self)))
  then self
  else with_grant_maps self (resolve_map aliases (grants self))
         (resolve_map aliases (grant_absences self)).

(** ** From an expanded manifest *)

Definition grant_key_from_manifest (grant : Grant) : GrantKey := {|
  gk_role := grantee_parse (gr_role grant);
  gk_object_type := ot_object_type (gr_object grant);
  gk_schema := ot_schema (gr_object grant);
  gk_name := ot_name (gr_object grant);
|}.

(** Insert into the present or into the absent map, as [grant.ensure] says. *)
Definition add_ensured {K} `{Countable K} (maps : gmap K (gset Privilege) * gmap K (gset Privilege))
    (key : K) (ensure : Ensure) (privileges : list Privilege) :
    gmap K (gset Privilege) * gmap K (gset Privilege) :=
  match ensure with
  | Ensure.Present => (entry_extend key (list_to_set privileges) maps.1, maps.2)
  | Ensure.Absent => (maps.1, entry_extend key (list_to_set privileges) maps.2)
  end.

(** The body of the grants loop. *)
Definition add_grant (maps : gmap GrantKey GrantState * gmap GrantKey (gset Privilege))
    (grant : Grant) : gmap GrantKey GrantState * gmap GrantKey (gset Privilege) :=
  add_ensured maps (grant_key_from_manifest grant) (gr_ensure grant) (gr_privileges grant).

(** The owner of a default privilege: its own, the manifest's default, [postgres]. *)
Definition default_owner_of (d : DefaultPrivilege) (default_owner : option string) : string :=
  default "postgres" (match dp_owner d with Some o => Some o | None => default_owner end).

(** The bodies of the two default-privilege loops. *)
Definition add_default_grant (owner : string) (scope : DefaultPrivilegeScope)
    (maps : gmap DefaultPrivKey DefaultPrivState * gmap DefaultPrivKey (gset Privilege))
    (grant : DefaultPrivilegeGrant) :
    res ManifestError (gmap DefaultPrivKey DefaultPrivState * gmap DefaultPrivKey (gset Privilege)) :=
  match dpg_role grant with
  | None => Err (ManifestError.MissingDefaultPrivilegeRole (scope_to_string scope))
  | Some role =>
      let key := {| dk_owner := owner; dk_scope := scope; dk_on_type := dpg_on_type grant;
                    dk_grantee := grantee_parse role |} in
      Ok (add_ensured maps key (dpg_ensure grant) (dpg_privileges grant))
  end.

Definition add_default_privilege (default_owner : option string)
    (maps : gmap DefaultPrivKey DefaultPrivState * gmap DefaultPrivKey (gset Privilege))
    (d : DefaultPrivilege) :
    res ManifestError (gmap DefaultPrivKey DefaultPrivState * gmap DefaultPrivKey (gset Privilege)) :=
  let owner := default_owner_of d default_owner in
  scope ← resolved_scope d;
  fold_res (add_default_grant owner scope) maps (dp_grant d).

(** The body of the memberships loop. *)
Definition add_membership (acc : gset MembershipEdge * gset string) (m : Membership) :
    gset MembershipEdge * gset string :=
  (acc.1 ∪ list_to_set
     ((λ spec, {| me_role := mb_role m; me_member := ms_name spec;
                  me_inherit := member_inherit spec; me_admin := member_admin spec |})
        <$> mb_members m),
   if mb_exclusive m then {[mb_role m]} ∪ acc.2 else acc.2).

Definition schema_state_of (schema : ExpandedSchema) : SchemaState := {|
  ss_owner := es_owner schema;
  ss_owner_privileges :=
    match es_owner schema with
    | Some owner => default_schema_owner_privileges owner
    | None => ∅
    end;
|}.

(** [RoleGraph::from_expanded] *)
Definition from_expanded (expanded : ExpandedManifest) (default_owner : option string) :
    res ManifestError RoleGraph :=
  let roles := foldl (λ m rd, <[rd_name rd := from_definition rd]> m) ∅ (em_roles expanded) in
  let schemas := foldl (λ m s, <[es_name s := schema_state_of s]> m) ∅ (em_schemas expanded) in
  let grant_maps := foldl add_grant (∅, ∅) (em_grants expanded) in
  default_maps ←
    fold_res (add_default_privilege default_owner) (∅, ∅) (em_default_privileges expanded);
  let members := foldl add_membership (∅, ∅) (em_memberships expanded) in
  Ok {| routine_aliases := ∅; roles := roles; schemas := schemas;
        grants := grant_maps.1; default_privileges := default_maps.1;
        memberships := members.1; grant_absences := grant_maps.2;
        default_privilege_absences := default_maps.2;
        exclusive_membership_roles := members.2;
        inherent_grants := ∅; membership_edge_grantors := ∅; membership_edge_options := ∅;
        executor_authority_edges := ∅; grant_entry_grantors := ∅ |}.
