(* ===== verification/Change.v ===== *)
(** * Changes ([diff.rs], enum [Change])

    The operations a plan is made of, the reconciliation modes, and the membership
    option bindings of [membership_options.rs] that a change carries. *)

From S2P Require Import Prelude BTree RustStr Types Model.

Module MembershipExpectedState.
Inductive MembershipExpectedState : Set :=
  | Absent
  | Present (options : MembershipOptions).
End MembershipExpectedState.
Abbreviation MembershipExpectedState := MembershipExpectedState.MembershipExpectedState.

Module MembershipSetEffect.
Inductive MembershipSetEffect : Set := Preserve | CreateFalse.
End MembershipSetEffect.
Abbreviation MembershipSetEffect := MembershipSetEffect.MembershipSetEffect.

Record MembershipOptionBinding := {
  mob_executor : string;
  mob_set_effect : MembershipSetEffect;
  mob_expected : MembershipExpectedState;
  mob_expected_edges : gmap string MembershipOptions;
}.

Module Change.
Inductive Change :=
  | CreateRole (name : string) (state : RoleState)
  | CreateSchema (name : string) (owner : option string)
  | AlterSchemaOwner (name owner : string)
  | EnsureSchemaOwnerPrivileges (name owner : string) (privileges : gset Privilege)
  | AlterRole (name : string) (attributes : list RoleAttribute)
  | SetComment (name : string) (comment : option string)
  | Grant (role : Grantee) (privileges : gset Privilege) (object_type : ObjectType)
      (schema name : option string)
  | Revoke (role : Grantee) (privileges : gset Privilege) (object_type : ObjectType)
      (schema name : option string) (grantor : option string)
  | SetDefaultPrivilege (owner : string) (scope : DefaultPrivilegeScope) (on_type : ObjectType)
      (grantee : Grantee) (privileges : gset Privilege)
  | RevokeDefaultPrivilege (owner : string) (scope : DefaultPrivilegeScope)
      (on_type : ObjectType) (grantee : Grantee) (privileges : gset Privilege)
  | AddMember (role member : string) (inherit admin : bool)
  | UpdateMemberOptions (role member grantor : string) (inherit admin : option bool)
      (binding : option MembershipOptionBinding)
  | RemoveMember (role member : string) (grantor : option string)
  | ReassignOwned (from_role to_role : string)
  | DropOwned (role : string)
  | TerminateSessions (role : string)
  | SetPassword (name password : string)
  | DropRole (name : string).
End Change.
Abbreviation Change := Change.Change.

Module ReconciliationMode.
Inductive ReconciliationMode : Set := Authoritative | Additive | Adopt.

(** [impl Display for ReconciliationMode] *)
Definition mode_to_string (m : ReconciliationMode) : string :=
  match m with
  | Authoritative => "authoritative"
  | Additive => "additive"
  | Adopt => "adopt"
  end.
End ReconciliationMode.
Abbreviation ReconciliationMode := ReconciliationMode.ReconciliationMode.
Abbreviation mode_to_string := ReconciliationMode.mode_to_string.

Section change_instances.
#[export] Instance expected_state_eq_dec : EqDecision MembershipExpectedState.
Proof. solve_decision. Defined.
#[export] Instance set_effect_eq_dec : EqDecision MembershipSetEffect.
Proof. solve_decision. Defined.
#[export] Instance option_binding_eq_dec : EqDecision MembershipOptionBinding.
Proof. solve_decision. Defined.
#[export] Instance change_eq_dec : EqDecision Change.
Proof. solve_decision. Defined.
#[export] Instance mode_eq_dec : EqDecision ReconciliationMode.
Proof. solve_decision. Defined.
End change_instances.
