(* ===== verification/Diff.v ===== *)
(** * The convergent diff engine ([diff.rs])

    [diff current desired] lists the changes that bring the current graph to the
    desired one, in dependency order.  Each of the loops of the Rust functions is a
    fold over the ordered bindings of a map; a function pushing to several output
    vectors returns the tuple of them. *)

From S2P Require Import Prelude BTree RustStr Types Model Change.

(** ** Roles *)

(** The body of the loop over [desired.roles]: the pushes to [creates] and [alters]. *)
Definition diff_role (current : RoleGraph) (name : string) (desired_state : RoleState) :
    list Change * list Change :=
  match roles current !! name with
  | None =>
      ([Change.CreateRole name desired_state],
       if bool_decide (rs_config desired_state = ∅) then []
       else [Change.AlterRole name
               ((λ '(parameter, value), RoleAttribute.SetConfig parameter value)
                  <$> map_iter (rs_config desired_state))])
  | Some current_state =>
      let attribute_changes := changed_attributes current_state desired_state in
      ([],
       (if bool_decide (attribute_changes = []) then []
        else [Change.AlterRole name attribute_changes]) ++
       (if decide (rs_comment current_state = rs_comment desired_state) then []
        else [Change.SetComment name (rs_comment desired_state)]))
  end.

(** The two loops over roles: [creates], [alters], [drops]. *)
Definition diff_roles (current desired : RoleGraph) :
    list Change * list Change * list Change :=
  (map_iter (roles desired) ≫= λ '(name, s), (diff_role current name s).1,
   map_iter (roles desired) ≫= λ '(name, s), (diff_role current name s).2,
   map_keys (roles current) ≫= λ name,
     match roles desired !! name with
     | Some _ => []
     | None => [Change.DropRole name]
     end).

(** ** Schemas *)

(** The body of the loop of [diff_schemas]: the pushes to [schema_out] and
    [grant_out]. *)
Definition diff_schema (current : RoleGraph) (name : string) (desired_state : SchemaState) :
    list Change * list Change :=
  let owner_changed :=
    match schemas current !! name with
    | Some current_state => bool_decide (ss_owner current_state ≠ ss_owner desired_state)
    | None => false
    end in
  let schema_out :=
    match schemas current !! name with
    | None => [Change.CreateSchema name (ss_owner desired_state)]
    | Some current_state =>
        if bool_decide (ss_owner current_state ≠ ss_owner desired_state)
        then match ss_owner desired_state with
             | Some owner => [Change.AlterSchemaOwner name owner]
             | None => []
             end
        else []
    end in
  let grant_out :=
    match ss_owner desired_state, schemas current !! name with
    | Some owner, Some current_state =>
        let expected_privileges := default_schema_owner_privileges owner in
        let current_privileges :=
          if owner_changed then ∅ else ss_owner_privileges current_state in
        let missing_privileges := expected_privileges ∖ current_privileges in
        if bool_decide (missing_privileges = ∅) then []
        else [Change.EnsureSchemaOwnerPrivileges name owner missing_privileges]
    | _, _ => []
    end in
  (schema_out, grant_out).

Definition diff_schemas (current desired : RoleGraph) : list Change * list Change :=
  (map_iter (schemas desired) ≫= λ '(name, s), (diff_schema current name s).1,
   map_iter (schemas desired) ≫= λ '(name, s), (diff_schema current name s).2).

(** ** Grants *)

Definition change_grant (key : GrantKey) (privileges : gset Privilege) : Change :=
  Change.Grant (gk_role key) privileges (gk_object_type key) (gk_schema key) (gk_name key).

Definition change_revoke (key : GrantKey) (privileges : gset Privilege)
    (grantor : option string) : Change :=
  Change.Revoke (gk_role key) privileges (gk_object_type key) (gk_schema key) (gk_name key)
    grantor.

(** [key.name.as_deref() == Some("*")] *)
Definition is_wildcard (key : GrantKey) : bool := bool_decide (gk_name key = Some "*").

Definition has_schema (key : GrantKey) : bool := bool_decide (gk_schema key ≠ None).

(** The tuple under which wildcards are indexed. *)
Definition selector (key : GrantKey) : Grantee * (option string * ObjectType) :=
  (gk_role key, (gk_schema key, gk_object_type key)).

(** [desired_wildcards] and [absence_wildcards]. *)
Definition wildcard_index (m : gmap GrantKey (gset Privilege)) :
    gmap (Grantee * (option string * ObjectType)) (gset Privilege) :=
  map_collect ((λ p, (selector p.1, p.2))
    <$> filter (λ p, is_wildcard p.1 && has_schema p.1) (map_iter m)).

(** The closure [shadow_filter]. *)
Definition shadow_filter (desired : RoleGraph) (key : GrantKey) (candidate : gset Privilege) :
    gset Privilege :=
  if is_wildcard key then candidate
  else
    let filtered :=
      match wildcard_index (grants desired) !! selector key with
      | Some wildcard_privileges => candidate ∖ wildcard_privileges
      | None => candidate
      end in
    match wildcard_index (grant_absences desired) !! selector key with
    | Some absent_privileges => filtered ∖ absent_privileges
    | None => filtered
    end.

(** [if !x.is_empty() { revokes.entry(key).or_default().extend(x) }] *)
Definition extend_nonempty {K} `{Countable K} (key : K) (x : gset Privilege)
    (revokes : gmap K (gset Privilege)) : gmap K (gset Privilege) :=
  if bool_decide (x = ∅) then revokes else entry_extend key x revokes.

(** First loop of [diff_grants]: desired grants against current ones. *)
Definition grant_present_step (current desired : RoleGraph)
    (st : list Change * gmap GrantKey (gset Privilege)) (p : GrantKey * GrantState) :
    list Change * gmap GrantKey (gset Privilege) :=
  let '(grants_out, revokes) := st in
  let '(key, desired_state) := p in
  match grants current !! key with
  | None => (grants_out ++ [change_grant key desired_state], revokes)
  | Some current_state =>
      let to_add := desired_state ∖ current_state in
      let grants_out :=
        if bool_decide (to_add = ∅) then grants_out
        else grants_out ++ [change_grant key to_add] in
      if is_public (gk_role key) then (grants_out, revokes)
      else if bool_decide (key ∈ inherent_grants current) then (grants_out, revokes)
      else
        let to_remove := shadow_filter desired key (current_state ∖ desired_state) in
        (grants_out, extend_nonempty key to_remove revokes)
  end.

(** Second loop: current grants that are not desired. *)
Definition grant_excess_step (current desired : RoleGraph)
    (revokes : gmap GrantKey (gset Privilege)) (p : GrantKey * GrantState) :
    gmap GrantKey (gset Privilege) :=
  let '(key, current_state) := p in
  if bool_decide (is_Some (grants desired !! key)) || is_public (gk_role key) then revokes
  else if bool_decide (key ∈ inherent_grants current) then revokes
  else extend_nonempty key (shadow_filter desired key current_state) revokes.

(** The closure comparing a key with a (grantee, type, schema) prefix. *)
Definition in_scope (key candidate : GrantKey) : bool :=
  bool_decide (gk_role candidate = gk_role key) &&
  bool_decide (gk_object_type candidate = gk_object_type key) &&
  bool_decide (gk_schema candidate = gk_schema key).

(** [GrantKey { name: None, ..key.clone() }], the start of a range scan. *)
Definition range_start (key : GrantKey) : GrantKey := {|
  gk_role := gk_role key; gk_object_type := gk_object_type key;
  gk_schema := gk_schema key; gk_name := None |}.

(** Third loop: absence assertions, [absent ∩ held]. *)
Definition held_privileges (current : RoleGraph) (key : GrantKey) : gset Privilege :=
  if is_wildcard key then
    ⋃ (snd <$> filter (λ p, p.1 ∉ inherent_grants current)
         (take_while (λ p, in_scope key p.1) (map_range (range_start key) (grants current))))
  else if bool_decide (key ∈ inherent_grants current) then ∅
  else default ∅ (grants current !! key).

Definition grant_absence_step (current : RoleGraph)
    (revokes : gmap GrantKey (gset Privilege)) (p : GrantKey * gset Privilege) :
    gmap GrantKey (gset Privilege) :=
  let '(key, absent_privileges) := p in
  extend_nonempty key (absent_privileges ∩ held_privileges current key) revokes.

(** [ALTER SCHEMA ... OWNER TO] in the same plan makes the recorded attribution
    stale. *)
Definition schema_owner_moves (current desired : RoleGraph) (key : GrantKey) : bool :=
  match gk_object_type key, gk_name key with
  | ObjectType.Schema, Some name =>
      match schemas current !! name, schemas desired !! name with
      | Some current_schema, Some desired_schema =>
          bool_decide (ss_owner desired_schema ≠ None) &&
          bool_decide (ss_owner desired_schema ≠ ss_owner current_schema)
      | _, _ => false
      end
  | _, _ => false
  end.

(** The loop over the recorded grantors of one target: the covered privileges and
    the changes. *)
Definition per_grantor_step (key : GrantKey) (privileges : gset Privilege)
    (st : gset Privilege * list Change) (p : string * gset Privilege) :
    gset Privilege * list Change :=
  let '(covered, out) := st in
  let '(grantor, grantor_privileges) := p in
  let subset := privileges ∩ grantor_privileges in
  if bool_decide (subset = ∅) then (covered, out)
  else (covered ∪ subset, out ++ [change_revoke key subset (Some grantor)]).

(** [push_revokes_split_by_grantor] past its wildcard block. *)
Definition push_revokes_exact (current desired : RoleGraph) (key : GrantKey)
    (privileges : gset Privilege) : list Change :=
  if schema_owner_moves current desired key then [change_revoke key privileges None]
  else
    match grant_entry_grantors current !! key with
    | None => [change_revoke key privileges None]
    | Some per_grantor =>
        let '(covered, out) :=
          foldl (per_grantor_step key privileges) (∅, []) (map_iter per_grantor) in
        let remainder := privileges ∖ covered in
        if bool_decide (remainder = ∅) then out
        else out ++ [change_revoke key remainder None]
    end.

(** The map [concrete] of the wildcard block: every named target in the scope with
    the privileges held on it. *)
Definition concrete_targets (current : RoleGraph) (key : GrantKey) :
    gmap GrantKey (gset Privilege) :=
  let start := range_start key in
  let from_grantors :=
    foldl (λ acc p, if is_wildcard p.1 then acc
                    else entry_extend p.1 (⋃ (map_iter p.2).*2) acc) ∅
      (take_while (λ p, in_scope key p.1) (map_range start (grant_entry_grantors current))) in
  foldl (λ acc p, if is_wildcard p.1 then acc else entry_extend p.1 p.2 acc) from_grantors
    (take_while (λ p, in_scope key p.1) (map_range start (grants current))).

Definition has_inherent (current : RoleGraph) (key : GrantKey) : bool :=
  match take_while (in_scope key) (set_range (range_start key) (inherent_grants current)) with
  | [] => false
  | _ :: _ => true
  end.

(** [push_revokes_split_by_grantor].  The recursive call is on a target whose name is
    not ["*"], so it runs [push_revokes_exact] only. *)
Definition push_revokes_split_by_grantor (current desired : RoleGraph) (key : GrantKey)
    (privileges : gset Privilege) : list Change :=
  if is_wildcard key &&
     (bool_decide (concrete_targets current key ≠ ∅) || has_inherent current key)
  then
    map_iter (concrete_targets current key) ≫= λ '(target, held),
      if bool_decide (target ∈ inherent_grants current) then []
      else
        let subset := privileges ∩ held in
        if bool_decide (subset = ∅) then []
        else push_revokes_exact current desired target subset
  else push_revokes_exact current desired key privileges.

(** The accumulated revokes after the three loops, and the grants. *)
Definition diff_grants_state (current desired : RoleGraph) :
    list Change * gmap GrantKey (gset Privilege) :=
  let '(grants_out, revokes) :=
    foldl (grant_present_step current desired) ([], ∅) (map_iter (grants desired)) in
  let revokes := foldl (grant_excess_step current desired) revokes (map_iter (grants current)) in
  let revokes := foldl (grant_absence_step current) revokes (map_iter (grant_absences desired)) in
  (grants_out, revokes).

Definition diff_grants (current desired : RoleGraph) : list Change * list Change :=
  let '(grants_out, revokes) := diff_grants_state current desired in
  (grants_out,
   map_iter revokes ≫= λ '(key, privileges),
     push_revokes_split_by_grantor current desired key privileges).

(** ** Default privileges *)

Definition change_set_default (key : DefaultPrivKey) (privileges : gset Privilege) : Change :=
  Change.SetDefaultPrivilege (dk_owner key) (dk_scope key) (dk_on_type key) (dk_grantee key)
    privileges.

Definition change_revoke_default (key : DefaultPrivKey) (privileges : gset Privilege) : Change :=
  Change.RevokeDefaultPrivilege (dk_owner key) (dk_scope key) (dk_on_type key) (dk_grantee key)
    privileges.

Definition builtin_defaults_for_new_owner (current desired : RoleGraph) (key : DefaultPrivKey) :
    gset Privilege :=
  if bool_decide (is_Some (roles current !! dk_owner key)) ||
     bool_decide (roles desired !! dk_owner key = None) ||
     bool_decide (dk_scope key ≠ DefaultPrivilegeScope.Global) ||
     negb (is_public (dk_grantee key))
  then ∅
  else
    match dk_on_type key with
    | ObjectType.Function => {[Privilege.Execute]}
    | ObjectType.Type_ => {[Privilege.Usage]}
    | _ => ∅
    end.

Definition default_present_step (current : RoleGraph)
    (st : list Change * gmap DefaultPrivKey (gset Privilege))
    (p : DefaultPrivKey * DefaultPrivState) :
    list Change * gmap DefaultPrivKey (gset Privilege) :=
  let '(set_out, revokes) := st in
  let '(key, desired_state) := p in
  match default_privileges current !! key with
  | None => (set_out ++ [change_set_default key desired_state], revokes)
  | Some current_state =>
      let to_add := desired_state ∖ current_state in
      let set_out :=
        if bool_decide (to_add = ∅) then set_out
        else set_out ++ [change_set_default key to_add] in
      if is_public (dk_grantee key) then (set_out, revokes)
      else (set_out, extend_nonempty key (current_state ∖ desired_state) revokes)
  end.

Definition default_excess_step (desired : RoleGraph)
    (revokes : gmap DefaultPrivKey (gset Privilege)) (p : DefaultPrivKey * DefaultPrivState) :
    gmap DefaultPrivKey (gset Privilege) :=
  let '(key, current_state) := p in
  if bool_decide (is_Some (default_privileges desired !! key)) || is_public (dk_grantee key)
  then revokes
  else entry_extend key current_state revokes.

Definition default_absence_step (current desired : RoleGraph)
    (revokes : gmap DefaultPrivKey (gset Privilege)) (p : DefaultPrivKey * gset Privilege) :
    gmap DefaultPrivKey (gset Privilege) :=
  let '(key, absent_privileges) := p in
  let current_privileges :=
    match default_privileges current !! key with
    | Some state => state
    | None => builtin_defaults_for_new_owner current desired key
    end in
  extend_nonempty key (absent_privileges ∩ current_privileges) revokes.

Definition diff_default_privileges (current desired : RoleGraph) : list Change * list Change :=
  let '(set_out, revokes) :=
    foldl (default_present_step current) ([], ∅) (map_iter (default_privileges desired)) in
  let revokes :=
    foldl (default_excess_step desired) revokes (map_iter (default_privileges current)) in
  let revokes :=
    foldl (default_absence_step current desired) revokes
      (map_iter (default_privilege_absences desired)) in
  (set_out,
   map_iter revokes ≫= λ '(key, privileges), [change_revoke_default key privileges]).

(** ** Memberships *)

(** [current_map], [desired_map]: the edges by (role, member). *)
Definition membership_map (g : RoleGraph) : gmap (string * string) MembershipEdge :=
  map_collect ((λ e, ((me_role e, me_member e), e)) <$> set_iter (memberships g)).

(** The closure [executor_authority]. *)
Definition executor_authority (current : RoleGraph) (role member grantor : string) : bool :=
  bool_decide ((role, member, grantor) ∈ executor_authority_edges current).

(** The closure [remove_all_edges]. *)
Definition remove_all_edges (current : RoleGraph) (role member : string) : list Change :=
  match membership_edge_grantors current !! (role, member) with
  | Some grantors =>
      if bool_decide (grantors = ∅) then [Change.RemoveMember role member None]
      else
        (λ grantor, Change.RemoveMember role member (Some grantor))
          <$> filter (λ grantor, negb (executor_authority current role member grantor))
                (set_iter grantors)
  | None => [Change.RemoveMember role member None]
  end.

(** [b.then_some(v)] *)
Definition then_some {A} (b : bool) (v : A) : option A := if b then Some v else None.

(** The reduction planned on one recorded edge. *)
Definition option_reduction (current : RoleGraph) (current_edge desired_edge : MembershipEdge)
    (options : option (gmap string MembershipOptions)) (role member grantor : string) :
    list Change :=
  let live := options ≫= λ edges, edges !! grantor in
  let inherit :=
    then_some (me_inherit current_edge && negb (me_inherit desired_edge) &&
               match live with None => true | Some edge => mo_inherit edge end) false in
  let admin :=
    then_some (me_admin current_edge && negb (me_admin desired_edge) &&
               match live with None => true | Some edge => mo_admin edge end &&
               negb (executor_authority current role member grantor)) false in
  match inherit, admin with
  | None, None => []
  | _, _ => [Change.UpdateMemberOptions role member grantor inherit admin None]
  end.

(** The body of the loop over [desired_map]: pushes to [add_out] and [remove_out]. *)
Definition diff_membership (current : RoleGraph)
    (current_map : gmap (string * string) MembershipEdge)
    (p : string * string * MembershipEdge) : list Change * list Change :=
  let '(role, member, desired_edge) := p in
  let add :=
    Change.AddMember (me_role desired_edge) (me_member desired_edge) (me_inherit desired_edge)
      (me_admin desired_edge) in
  match current_map !! (role, member) with
  | None => ([add], [])
  | Some current_edge =>
      if bool_decide (me_inherit current_edge ≠ me_inherit desired_edge) ||
         bool_decide (me_admin current_edge ≠ me_admin desired_edge)
      then
        match membership_edge_grantors current !! (role, member) with
        | Some grantors =>
            match set_iter grantors with
            | first :: _ =>
                let options := membership_edge_options current !! (role, member) in
                let inherit :=
                  then_some (negb (me_inherit current_edge) && me_inherit desired_edge) true in
                let admin :=
                  then_some (negb (me_admin current_edge) && me_admin desired_edge) true in
                (match inherit, admin with
                 | None, None => []
                 | _, _ => [Change.UpdateMemberOptions role member first inherit admin None]
                 end,
                 set_iter grantors ≫=
                   option_reduction current current_edge desired_edge options role member)
            | [] => ([add], remove_all_edges current role member)
            end
        | None => ([add], remove_all_edges current role member)
        end
      else ([], [])
  end.

Definition diff_memberships (current desired : RoleGraph) : list Change * list Change :=
  let current_map := membership_map current in
  let desired_map := membership_map desired in
  (map_iter desired_map ≫= λ p, (diff_membership current current_map p).1,
   (map_iter desired_map ≫= λ p, (diff_membership current current_map p).2) ++
   (map_keys current_map ≫= λ '(role, member),
      match desired_map !! (role, member) with
      | Some _ => []
      | None => remove_all_edges current role member
      end)).

(** ** Assembly *)

Definition incoming_owners (schema_changes : list Change) : gset (string * string) :=
  list_to_set (schema_changes ≫= λ c,
    match c with Change.AlterSchemaOwner name owner => [(name, owner)] | _ => [] end).

(** The predicate of [revokes.retain]. *)
Definition retain_revoke (owners : gset (string * string)) (c : Change) : bool :=
  match c with
  | Change.Revoke role _ ObjectType.Schema _ (Some schema_name) _ =>
      bool_decide ((schema_name, grantee_as_str role) ∉ owners)
  | _ => true
  end.

(** [diff] *)
Definition diff (current desired : RoleGraph) : list Change :=
  let desired := resolve_routine_aliases desired (routine_aliases current) in
  let '(creates, alters, drops) := diff_roles current desired in
  let '(schema_changes, schema_grants) := diff_schemas current desired in
  let '(grants, revokes) := diff_grants current desired in
  let '(set_defaults, revoke_defaults) := diff_default_privileges current desired in
  let '(add_members, remove_members) := diff_memberships current desired in
  let owners := incoming_owners schema_changes in
  let revokes :=
    if bool_decide (owners = ∅) then revokes else filter (λ c, retain_revoke owners c) revokes in
  creates ++ alters ++ schema_changes ++ schema_grants ++ grants ++ set_defaults ++ revokes ++
  remove_members ++ add_members ++ revoke_defaults ++ drops.
