(* ===== verification/DiffFacts.v ===== *)
(** * Facts about the diff engine

    The lemmas the theorems on [diff] share: range scans are prefix filters, the
    accumulated revokes have a pointwise description [revoked], and every planned
    object revoke comes from it. *)

From S2P Require Import Prelude BTree RustStr Types Model Change Diff.

(** ** Scans of one (grantee, type, schema) prefix *)

Lemma in_scope_spec key k :
  in_scope key k ↔
  gk_role k = gk_role key ∧ gk_object_type k = gk_object_type key ∧ gk_schema k = gk_schema key.
Proof. unfold in_scope. rw !andb_True !bool_decide_spec. tauto. Qed.

Lemma ord_le_refl {A} `{Ord A} (x : A) : ord_le x x.
Proof. reflexivity. Qed.
#[export] Hint Resolve ord_le_refl : core.

Lemma range_start_le key k : in_scope key k → ord_le (range_start key) k.
Proof.
  rw in_scope_spec. intros (Hr & Ht & Hs). unfold ord_le, grant_key_ord, ord_by, ord_by_le.
  unfold grant_key_tuple; simpl. rw Hr Ht Hs. repeat (split; [apply ord_le_refl|intros _; simpl]). done.
Qed.

Lemma ord_squeeze {A} `{Ord A} (x y : A) : ord_le x y → ord_le y x → x = y.
Proof. apply (anti_symm ord_le). Qed.

Lemma in_scope_convex key k k' :
  ord_le (range_start key) k → ord_le k k' → in_scope key k' → in_scope key k.
Proof.
  rw !in_scope_spec. destruct key as [r t s n], k as [r1 t1 s1 n1], k' as [r2 t2 s2 n2]; simpl.
  intros [Hr1 H1] [Hr2 H2] (-> & -> & ->). simpl in *.
  assert (r = r1) as <- by by apply ord_squeeze.
  specialize (H1 eq_refl) as [Ht1 H1]. specialize (H2 eq_refl) as [Ht2 H2]. simpl in *.
  assert (t = t1) as <- by by apply ord_squeeze.
  specialize (H1 eq_refl) as [Hs1 _]. specialize (H2 eq_refl) as [Hs2 _]. simpl in *.
  assert (s = s1) as <- by by apply ord_squeeze. done.
Qed.

(** [BTreeMap::range(start..).take_while(prefix)] visits exactly the keys of the scope. *)
Lemma scope_scan {V} (m : gmap GrantKey V) key :
  take_while (λ p, in_scope key p.1) (map_range (range_start key) m) =
  filter (λ p, in_scope key p.1) (map_iter m).
Proof. apply map_range_scan; [apply range_start_le|apply in_scope_convex]. Qed.

Lemma scope_scan_set (X : gset GrantKey) key :
  take_while (in_scope key) (set_range (range_start key) X) =
  filter (λ k, in_scope key k) (set_iter X).
Proof. apply set_range_scan; [apply range_start_le|apply in_scope_convex]. Qed.

Lemma has_inherent_spec current key :
  has_inherent current key ↔ ∃ k, k ∈ inherent_grants current ∧ in_scope key k.
Proof.
  unfold has_inherent. rw scope_scan_set.
  assert (∀ k, k ∈ filter (λ k, in_scope key k) (set_iter (inherent_grants current)) ↔
    in_scope key k ∧ k ∈ inherent_grants current) as Hin.
  { intros k. by rw list_elem_of_filter elem_of_set_iter. }
  destruct (filter _ _) as [|k l].
  - split; [done|]. intros (k & Hk & Hs). by apply (not_elem_of_nil k), Hin.
  - split; [|done]. intros _. exists k. apply and_comm, Hin. left.
Qed.

(** ** Accumulating loops *)

Section accumulate.
Context {K V : Type} `{Countable K, Ord K}.
Implicit Types (r : gmap K (gset Privilege)) (k : K) (X : gset Privilege).

Lemma extend_nonempty_empty k r : extend_nonempty k ∅ r = r.
Proof. done. Qed.

Lemma extend_nonempty_lookup k k' X r :
  default ∅ (extend_nonempty k X r !! k') =
  (if decide (k = k') then default ∅ (r !! k') ∪ X else default ∅ (r !! k')).
Proof.
  unfold extend_nonempty, entry_extend. case_bool_decide as HX.
  - subst. case_decide; set_solver.
  - case_decide as Hk; [subst; by rw lookup_insert_eq|by rw lookup_insert_ne].
Qed.

(** Every accumulated entry is non-empty. *)
Definition nonempty_entries r : Prop := ∀ k, r !! k ≠ Some ∅.

Lemma extend_nonempty_entries k X r :
  nonempty_entries r → nonempty_entries (extend_nonempty k X r).
Proof.
  intros Hr k'. unfold extend_nonempty, entry_extend. case_bool_decide as HX; [done|].
  destruct (decide (k = k')) as [<-|].
  - rw lookup_insert_eq. intros [= Heq]. apply HX. set_solver.
  - by rw lookup_insert_ne.
Qed.

Lemma foldl_extend_entries (f : K * V → gset Privilege) l r :
  nonempty_entries r →
  nonempty_entries (foldl (λ r p, extend_nonempty p.1 (f p) r) r l).
Proof. revert r. induction l as [|p l IH]=> r Hr //=. by apply IH, extend_nonempty_entries. Qed.

(** A loop whose body adds [f p] to the entry of its own key, whatever it does about
    empty additions. *)
Lemma foldl_pointwise_list (step : gmap K (gset Privilege) → K * V → gmap K (gset Privilege))
    (f : K * V → gset Privilege) l r k :
  (∀ r p, p ∈ l → default ∅ (step r p !! k) =
     (if decide (p.1 = k) then default ∅ (r !! k) ∪ f p else default ∅ (r !! k))) →
  NoDup l.*1 →
  (∀ v, (k, v) ∈ l → default ∅ (foldl step r l !! k) = default ∅ (r !! k) ∪ f (k, v)) ∧
  (k ∉ l.*1 → default ∅ (foldl step r l !! k) = default ∅ (r !! k)).
Proof.
  revert r. induction l as [|[k1 v1] l IH]=> r Hstep /=.
  { intros _. split; [|done]. intros v Hv. by apply not_elem_of_nil in Hv. }
  intros [Hk1 Hnd]%NoDup_cons.
  destruct (IH (step r (k1, v1)) (λ r p Hp, Hstep r p (list_elem_of_further _ _ _ Hp)) Hnd)
    as [IH1 IH2].
  pose proof (Hstep r (k1, v1) (list_elem_of_here _ _)) as Hr. simpl in Hr.
  split.
  - intros v [[= -> ->]|Hv]%elem_of_cons.
    + by rw (IH2 Hk1) Hr decide_True.
    + rw (IH1 v Hv) Hr decide_False //. intros ->.
      apply Hk1, list_elem_of_fmap. by exists (k, v).
  - intros [Hne Hk]%not_elem_of_cons. by rw (IH2 Hk) Hr decide_False.
Qed.

Lemma foldl_pointwise (step : gmap K (gset Privilege) → K * V → gmap K (gset Privilege))
    (f : K * V → gset Privilege) (m : gmap K V) r k :
  (∀ r p, default ∅ (step r p !! k) =
     (if decide (p.1 = k) then default ∅ (r !! k) ∪ f p else default ∅ (r !! k))) →
  default ∅ (foldl step r (map_iter m) !! k) =
  default ∅ (r !! k) ∪ match m !! k with Some v => f (k, v) | None => ∅ end.
Proof.
  intros Hstep.
  destruct (foldl_pointwise_list step f (map_iter m) r k (λ r p _, Hstep r p) (NoDup_map_keys m))
    as [H1 H2].
  destruct (m !! k) as [v|] eqn:Hk.
  - apply H1. by apply elem_of_map_iter.
  - assert (k ∉ (map_iter m).*1) as Hn by (rw elem_of_map_keys Hk; by intros []).
    by rw (H2 Hn) (right_id_L ∅).
Qed.

Lemma entry_extend_lookup k k' X r :
  default ∅ (entry_extend k X r !! k') =
  (if decide (k = k') then default ∅ (r !! k') ∪ X else default ∅ (r !! k')).
Proof.
  unfold entry_extend. case_decide as Hk; [subst; by rw lookup_insert_eq|by rw lookup_insert_ne].
Qed.

Lemma foldl_extend_lookup (f : K * V → gset Privilege) (m : gmap K V) r k :
  default ∅ (foldl (λ r p, extend_nonempty p.1 (f p) r) r (map_iter m) !! k) =
  default ∅ (r !! k) ∪ match m !! k with Some v => f (k, v) | None => ∅ end.
Proof. apply foldl_pointwise. intros r' p. apply extend_nonempty_lookup. Qed.
End accumulate.

(** ** The accumulated revokes, pointwise *)

Section revoked.
Context (current desired : RoleGraph).

(** What each of the three loops of [diff_grants] adds under its key. *)
Definition present_excess (p : GrantKey * GrantState) : gset Privilege :=
  match grants current !! p.1 with
  | None => ∅
  | Some current_state =>
      if is_public (gk_role p.1) then ∅
      else if bool_decide (p.1 ∈ inherent_grants current) then ∅
      else shadow_filter desired p.1 (current_state ∖ p.2)
  end.

Definition undeclared_excess (p : GrantKey * GrantState) : gset Privilege :=
  if bool_decide (is_Some (grants desired !! p.1)) || is_public (gk_role p.1) then ∅
  else if bool_decide (p.1 ∈ inherent_grants current) then ∅
  else shadow_filter desired p.1 p.2.

Definition asserted_absent (p : GrantKey * gset Privilege) : gset Privilege :=
  p.2 ∩ held_privileges current p.1.

(** What the first loop pushes to [grants_out]. *)
Definition present_missing (p : GrantKey * GrantState) : list Change :=
  match grants current !! p.1 with
  | None => [change_grant p.1 p.2]
  | Some current_state =>
      if bool_decide (p.2 ∖ current_state = ∅) then []
      else [change_grant p.1 (p.2 ∖ current_state)]
  end.

Lemma grant_present_step_split st p :
  grant_present_step current desired st p =
  (st.1 ++ present_missing p, extend_nonempty p.1 (present_excess p) st.2).
Proof.
  destruct st as [out r], p as [key d].
  unfold grant_present_step, present_missing, present_excess; simpl.
  destruct (grants current !! key) as [c|]; [|done].
  destruct (bool_decide (d ∖ c = ∅)), (is_public (gk_role key)),
    (bool_decide (key ∈ inherent_grants current)); by rw ?app_nil_r.
Qed.

Lemma foldl_present_step out r l :
  foldl (grant_present_step current desired) (out, r) l =
  (out ++ (l ≫= present_missing), foldl (λ r p, extend_nonempty p.1 (present_excess p) r) r l).
Proof.
  revert out r. induction l as [|p l IH]=> out r; cbn [foldl mbind list_bind].
  - by rw app_nil_r.
  - by rw grant_present_step_split IH app_assoc.
Qed.

Lemma grant_excess_step_eq r p :
  grant_excess_step current desired r p = extend_nonempty p.1 (undeclared_excess p) r.
Proof.
  destruct p as [key c]. unfold grant_excess_step, undeclared_excess; simpl.
  destruct (bool_decide (is_Some _)), (is_public (gk_role key)),
    (bool_decide (key ∈ inherent_grants current)); done.
Qed.

Lemma grant_absence_step_eq r p :
  grant_absence_step current r p = extend_nonempty p.1 (asserted_absent p) r.
Proof. by destruct p. Qed.

(** The privileges planned for revocation under one key. *)
Definition revoked (k : GrantKey) : gset Privilege :=
  match grants desired !! k with Some d => present_excess (k, d) | None => ∅ end ∪
  match grants current !! k with Some c => undeclared_excess (k, c) | None => ∅ end ∪
  match grant_absences desired !! k with Some a => asserted_absent (k, a) | None => ∅ end.

Lemma foldl_ext' {A B} (f g : A → B → A) a l :
  (∀ a b, f a b = g a b) → foldl f a l = foldl g a l.
Proof. intros Hfg. revert a. induction l as [|b l IH]=> a //=. by rw Hfg IH. Qed.

Lemma diff_grants_state_eq :
  diff_grants_state current desired =
  (map_iter (grants desired) ≫= present_missing,
   foldl (λ r p, extend_nonempty p.1 (asserted_absent p) r)
     (foldl (λ r p, extend_nonempty p.1 (undeclared_excess p) r)
        (foldl (λ r p, extend_nonempty p.1 (present_excess p) r) ∅ (map_iter (grants desired)))
        (map_iter (grants current)))
     (map_iter (grant_absences desired))).
Proof.
  unfold diff_grants_state. rw foldl_present_step.
  rw (foldl_ext' _ _ _ _ grant_excess_step_eq) (foldl_ext' _ _ _ _ grant_absence_step_eq).
  done.
Qed.

Lemma revokes_nonempty : nonempty_entries (diff_grants_state current desired).2.
Proof. rw diff_grants_state_eq /=. repeat apply foldl_extend_entries. done. Qed.

(** The accumulated map holds exactly [revoked], without empty entries. *)
Lemma revokes_lookup k :
  (diff_grants_state current desired).2 !! k =
  (if decide (revoked k = ∅) then None else Some (revoked k)).
Proof.
  pose proof (revokes_nonempty k) as Hne.
  assert (default ∅ ((diff_grants_state current desired).2 !! k) = revoked k) as Hd.
  { rw diff_grants_state_eq /=. rw !foldl_extend_lookup lookup_empty /=.
    unfold revoked. by rw (left_id_L ∅). }
  destruct ((diff_grants_state current desired).2 !! k) as [X|]; simpl in Hd; subst.
  - rw decide_False; [done|congruence].
  - by rw decide_True.
Qed.
End revoked.
