(* ===== verification/DiffSafety.v ===== *)
(** * Safety of the diff engine

    Where each planned revoke comes from, and what no plan may do: revoke an
    owner-inherent entry, revoke from PUBLIC without an assertion, undo a desired
    wildcard, touch an executor's own authority, or break the dependency order. *)

From S2P Require Import Prelude BTree RustStr Types Model Change Diff DiffFacts.

(** ** Wildcard indexes *)

Lemma map_collect_app {K V} `{Countable K} (l : list (K * V)) p :
  map_collect (l ++ [p]) = <[p.1 := p.2]> (map_collect l).
Proof. unfold map_collect. by rw foldl_app. Qed.

Lemma map_collect_lookup {K V} `{Countable K} (l : list (K * V)) k v :
  (∀ v', (k, v') ∈ l → v' = v) → (k, v) ∈ l → map_collect l !! k = Some v.
Proof.
  induction l as [|[k1 v1] l IH] using rev_ind.
  { intros _ Hin. by apply not_elem_of_nil in Hin. }
  intros Huniq Hin. rw map_collect_app /=. destruct (decide (k1 = k)) as [->|Hne].
  - rw lookup_insert_eq. f_equal. apply Huniq, elem_of_app. right. left.
  - rw lookup_insert_ne //. apply IH.
    + intros v' Hv. apply Huniq, elem_of_app. by left.
    + elem_inv Hin; [done|]. congruence.
Qed.

Lemma map_collect_Some {K V} `{Countable K} (l : list (K * V)) k v :
  map_collect l !! k = Some v → (k, v) ∈ l.
Proof.
  induction l as [|[k1 v1] l IH] using rev_ind; [by rw lookup_empty|].
  rw map_collect_app lookup_insert_Some /=. intros [[-> ->]|[_ Hl]]; apply elem_of_app;
    [right; left|left; auto].
Qed.

(** The key of the wildcard of a selector. *)
Definition wildcard_of (key : GrantKey) : GrantKey := {|
  gk_role := gk_role key; gk_object_type := gk_object_type key;
  gk_schema := gk_schema key; gk_name := Some "*" |}.

(** Looking a selector up in the index is looking the wildcard key up in the map. *)
Lemma wildcard_index_lookup m key :
  wildcard_index m !! selector key = if has_schema key then m !! wildcard_of key else None.
Proof.
  unfold wildcard_index. set (l := _ <$> _).
  assert (∀ X, (selector key, X) ∈ l ↔ has_schema key ∧ m !! wildcard_of key = Some X) as Hl.
  { intros X. unfold l. rw list_elem_of_fmap. split.
    - intros ([k Y] & [= Hr Hs Ht ->] & [Hw Hin]%list_elem_of_filter).
      apply elem_of_map_iter in Hin. simpl in Hw.
      apply andb_True in Hw as [Hw Hsc]. apply bool_decide_unpack in Hw.
      unfold has_schema in *. rw Hs. split; [done|].
      replace (wildcard_of key) with k; [done|].
      destruct k, key; unfold wildcard_of; simpl in *; by subst.
    - intros [Hsc Hm]. exists (wildcard_of key, X). split; [done|].
      apply list_elem_of_filter. split; [|by apply elem_of_map_iter].
      unfold is_wildcard, has_schema in *. exact Hsc. }
  destruct (map_collect l !! selector key) as [X|] eqn:HX.
  - apply map_collect_Some, Hl in HX as [Hsc HX]. by rw (Is_true_eq_true _ Hsc) HX.
  - destruct (has_schema key) eqn:Hsc; [|done].
    destruct (m !! wildcard_of key) as [Y|] eqn:HY; [|done]. exfalso.
    assert (map_collect l !! selector key = Some Y); [|congruence].
    apply map_collect_lookup; [|by apply Hl].
    intros v' [_ Hv]%Hl. congruence.
Qed.

(** A privilege shadowed by a wildcard of the desired graph, present or absent. *)
Definition shadowing (m : gmap GrantKey (gset Privilege)) (key : GrantKey) : gset Privilege :=
  if has_schema key && negb (is_wildcard key) then default ∅ (m !! wildcard_of key) else ∅.

Lemma shadow_filter_eq desired key X :
  shadow_filter desired key X =
  X ∖ shadowing (grants desired) key ∖ shadowing (grant_absences desired) key.
Proof.
  unfold shadow_filter, shadowing. rw !wildcard_index_lookup.
  destruct (is_wildcard key), (has_schema key); simpl; try set_solver.
  destruct (_ !! _), (_ !! _); simpl; set_solver.
Qed.

(** ** Where a revoke comes from *)

Section revokes.
Context (current desired : RoleGraph).

Lemma elem_of_per_grantor key X st l c :
  c ∈ (foldl (per_grantor_step key X) st l).2 →
  c ∈ st.2 ∨ ∃ Y g, c = change_revoke key Y (Some g) ∧ Y ⊆ X ∧ Y ≠ ∅.
Proof.
  revert st. induction l as [|[g G] l IH]=> -[cov out] /=; [by left|].
  intros [Hc|Hc]%IH; [|by right]. case_bool_decide as Hs; simpl in Hc; [by left|].
  elem_inv Hc; [by left|]. right. eexists _, _. split; [done|]. set_solver.
Qed.

Lemma elem_of_push_exact key X c :
  X ≠ ∅ → c ∈ push_revokes_exact current desired key X →
  ∃ Y g, c = change_revoke key Y g ∧ Y ⊆ X ∧ Y ≠ ∅.
Proof.
  unfold push_revokes_exact. intros HX Hc.
  destruct (schema_owner_moves current desired key); [elem_inv Hc; by eauto 6|].
  destruct (_ !! key) as [per|]; [|elem_inv Hc; by eauto 6].
  pose proof (elem_of_per_grantor key X (∅, []) (map_iter per) c) as Hper.
  destruct (foldl _ _ _) as [cov out]; simpl in *.
  assert (c ∈ out → ∃ Y g, c = change_revoke key Y g ∧ Y ⊆ X ∧ Y ≠ ∅) as Hout.
  { intros [[]%not_elem_of_nil|]%Hper. naive_solver. }
  case_bool_decide as Hr; [auto|]. elem_inv Hc; [auto|].
  eexists _, _. split; [done|]. set_solver.
Qed.

(** A key of the wildcard expansion is a concrete key of the scope. *)
Lemma extend_concrete_lookup {V} (f : V → gset Privilege) l acc k X :
  foldl (λ acc p, if is_wildcard p.1 then acc else entry_extend p.1 (f p.2) acc) acc l !! k
    = Some X →
  is_Some (acc !! k) ∨ (is_wildcard k = false ∧ k ∈ l.*1).
Proof.
  revert acc. induction l as [|[k1 v1] l IH]=> acc /=; [by eauto|].
  intros [Ha|[? ?]]%IH; [|by right; split; [|right]].
  destruct (is_wildcard k1) eqn:Hw; [by left|]. destruct Ha as [Y HY].
  unfold entry_extend in HY. apply lookup_insert_Some in HY as [[-> _]|[_ HY]]; [|by eauto].
  right. split; [done|left].
Qed.

Lemma elem_of_scope_scan {V} (m : gmap GrantKey V) key k :
  k ∈ (take_while (λ p, in_scope key p.1) (map_range (range_start key) m)).*1 ↔
  in_scope key k ∧ is_Some (m !! k).
Proof.
  rw scope_scan list_elem_of_fmap. split.
  - intros ([k' v] & -> & [? Hin]%list_elem_of_filter). simpl in *.
    apply elem_of_map_iter in Hin. eauto.
  - intros [Hs [v Hv]]. exists (k, v). split; [done|].
    apply list_elem_of_filter. split; [done|]. by apply elem_of_map_iter.
Qed.

Lemma concrete_targets_spec key k X :
  concrete_targets current key !! k = Some X → is_wildcard k = false ∧ in_scope key k.
Proof.
  unfold concrete_targets. intros [[Y HY]|[? Hk]]%(extend_concrete_lookup (λ X, X)).
  - apply (extend_concrete_lookup (λ v : gmap string _, ⋃ (map_iter v).*2)) in HY
      as [[Z HZ]|[? Hk]]; [by rw lookup_empty in HZ|].
    apply elem_of_scope_scan in Hk as [? _]. done.
  - apply elem_of_scope_scan in Hk as [? _]. done.
Qed.

(** The key whose accumulated revokes produced a revoke of [key]. *)
Inductive revoke_source : GrantKey → GrantKey → Prop :=
  | source_exact key :
      (is_wildcard key → has_inherent current key = false) → revoke_source key key
  | source_expanded wildcard key :
      is_wildcard wildcard → is_wildcard key = false → in_scope wildcard key →
      key ∉ inherent_grants current → revoke_source wildcard key.

Lemma elem_of_push_split key0 X c :
  X ≠ ∅ → c ∈ push_revokes_split_by_grantor current desired key0 X →
  ∃ key Y g, c = change_revoke key Y g ∧ Y ⊆ X ∧ Y ≠ ∅ ∧ revoke_source key0 key.
Proof.
  unfold push_revokes_split_by_grantor. intros HX Hc.
  destruct (is_wildcard key0) eqn:Hw; simpl in Hc.
  - destruct (_ || _) eqn:Hcase.
    + elem_inv Hc. destruct x as [k held]. elem_inv Hc.
      apply elem_of_push_exact in Hc as (Y & gr & -> & HY & Hne); [|done].
      apply elem_of_map_iter, concrete_targets_spec in Hx as [Hwk Hs].
      exists k, Y, gr. split_and!; [done|set_solver|done|].
      apply source_expanded; [by rw Hw|done..].
    + apply elem_of_push_exact in Hc as (Y & gr & -> & HY & Hne); [|done].
      exists key0, Y, gr. split_and!; [done..|]. apply source_exact. intros _.
      by apply orb_false_iff in Hcase as [_ ?].
  - apply elem_of_push_exact in Hc as (Y & gr & -> & HY & Hne); [|done].
    exists key0, Y, gr. split_and!; [done..|]. apply source_exact. by rw Hw.
Qed.

(** Every planned object revoke takes its privileges from [revoked]. *)
Lemma elem_of_diff_grants_revokes c :
  c ∈ (diff_grants current desired).2 →
  ∃ key0 key X g, c = change_revoke key X g ∧ X ⊆ revoked current desired key0 ∧ X ≠ ∅ ∧
    revoke_source key0 key.
Proof.
  unfold diff_grants. pose proof (revokes_lookup current desired) as Hlk.
  destruct (diff_grants_state current desired) as [out r]; simpl in *. intros Hc.
  elem_inv Hc. destruct x as [key0 X]. apply elem_of_map_iter in Hx.
  rw Hlk in Hx. case_decide as Hne; [done|]. simplify_eq.
  apply elem_of_push_split in Hc as (key & Y & g & -> & ? & ? & ?); [|done].
  by exists key0, key, Y, g.
Qed.
End revokes.

(** ** Where each kind of change of a plan comes from *)

(** The key a grant or a revoke addresses. *)
Definition target_key (role : Grantee) (object_type : ObjectType) (schema name : option string) :
    GrantKey := {|
  gk_role := role; gk_object_type := object_type; gk_schema := schema; gk_name := name |}.

(** The desired graph [diff] works on. *)
Definition aligned (current desired : RoleGraph) : RoleGraph :=
  resolve_routine_aliases desired (routine_aliases current).

Lemma elem_of_diff current desired c :
  let d := aligned current desired in
  c ∈ diff current desired →
  c ∈ (diff_roles current d).1.1 ∨ c ∈ (diff_roles current d).1.2 ∨
  c ∈ (diff_schemas current d).1 ∨ c ∈ (diff_schemas current d).2 ∨
  c ∈ (diff_grants current d).1 ∨ c ∈ (diff_default_privileges current d).1 ∨
  (c ∈ (diff_grants current d).2 ∧
   retain_revoke (incoming_owners (diff_schemas current d).1) c) ∨
  c ∈ (diff_memberships current d).2 ∨ c ∈ (diff_memberships current d).1 ∨
  c ∈ (diff_default_privileges current d).2 ∨ c ∈ (diff_roles current d).2.
Proof.
  cbv zeta. unfold diff. change (resolve_routine_aliases _ _) with (aligned current desired).
  destruct (diff_roles _ _) as [[creates alters] drops].
  destruct (diff_schemas _ _) as [schema_changes schema_grants].
  destruct (diff_grants _ _) as [grants revokes].
  destruct (diff_default_privileges _ _) as [set_defaults revoke_defaults].
  destruct (diff_memberships _ _) as [add_members remove_members]. cbn [fst snd].
  assert (incoming_owners schema_changes = ∅ →
          retain_revoke (incoming_owners schema_changes) c) as Hret.
  { intros ->. destruct c; try done. destruct object_type; try done. destruct name; [|done]. simpl.
    rw bool_decide_true; [done|]. apply not_elem_of_empty. }
  case_bool_decide as Ho; rw !elem_of_app ?list_elem_of_filter. all: tauto.
Qed.

(** *** Each component emits its own constructors only *)

Definition emits (kind : Change → bool) (l : list Change) : Prop := ∀ c, c ∈ l → kind c.

Definition is_create_role c := if c is Change.CreateRole _ _ then true else false.
Definition is_role_alter c :=
  match c with Change.AlterRole _ _ | Change.SetComment _ _ => true | _ => false end.
Definition is_drop_role c := if c is Change.DropRole _ then true else false.
Definition is_schema_change c :=
  match c with Change.CreateSchema _ _ | Change.AlterSchemaOwner _ _ => true | _ => false end.
Definition is_ensure_owner c :=
  if c is Change.EnsureSchemaOwnerPrivileges _ _ _ then true else false.
Definition is_grant c := if c is Change.Grant _ _ _ _ _ then true else false.
Definition is_revoke c := if c is Change.Revoke _ _ _ _ _ _ then true else false.
Definition is_set_default c :=
  if c is Change.SetDefaultPrivilege _ _ _ _ _ then true else false.
Definition is_revoke_default c :=
  if c is Change.RevokeDefaultPrivilege _ _ _ _ _ then true else false.

Definition raises (b : option bool) : bool := bool_decide (b ≠ Some false).
Definition lowers (b : option bool) : bool := bool_decide (b ≠ Some true).

(** Additions raise options only, removals lower options only; neither is a no-op. *)
Definition is_member_add c :=
  match c with
  | Change.AddMember _ _ _ _ => true
  | Change.UpdateMemberOptions _ _ _ i a None =>
      raises i && raises a && bool_decide ((i, a) ≠ (None, None))
  | _ => false
  end.
Definition is_member_removal c :=
  match c with
  | Change.RemoveMember _ _ _ => true
  | Change.UpdateMemberOptions _ _ _ i a None =>
      lowers i && lowers a && bool_decide ((i, a) ≠ (None, None))
  | _ => false
  end.

Section emitted.
Context (current desired : RoleGraph).

Lemma emits_creates : emits is_create_role (diff_roles current desired).1.1.
Proof.
  intros c Hc. unfold diff_roles in Hc; simpl in Hc. elem_inv Hc. destruct x as [n s].
  unfold diff_role in Hc. destruct (_ !! n); simpl in Hc; elem_inv Hc. by subst.
Qed.
Lemma emits_alters : emits is_role_alter (diff_roles current desired).1.2.
Proof.
  intros c Hc. unfold diff_roles in Hc; simpl in Hc. elem_inv Hc. destruct x as [n s].
  unfold diff_role in Hc.
  destruct (_ !! n); simpl in Hc; elem_inv Hc; subst; try done;
    case_decide; elem_inv Hc; by subst.
Qed.
Lemma emits_drops : emits is_drop_role (diff_roles current desired).2.
Proof.
  intros c Hc. unfold diff_roles in Hc; simpl in Hc. elem_inv Hc.
  by simplify_eq.
Qed.
Lemma emits_schema_changes : emits is_schema_change (diff_schemas current desired).1.
Proof.
  intros c Hc. unfold diff_schemas in Hc; simpl in Hc. elem_inv Hc. destruct x as [n s].
  unfold diff_schema in Hc. destruct (_ !! n); simpl in Hc; elem_inv Hc; [|by subst].
  destruct (ss_owner s); elem_inv Hc. by subst.
Qed.
Lemma emits_schema_grants : emits is_ensure_owner (diff_schemas current desired).2.
Proof.
  intros c Hc. unfold diff_schemas in Hc; simpl in Hc. elem_inv Hc. destruct x as [n s].
  unfold diff_schema in Hc. destruct (schemas current !! n), (ss_owner s); simpl in Hc; elem_inv Hc.
  by subst.
Qed.
Lemma emits_grants : emits is_grant (diff_grants current desired).1.
Proof.
  intros c Hc. unfold diff_grants in Hc. rw diff_grants_state_eq /= in Hc. elem_inv Hc.
  unfold present_missing in Hc. destruct (_ !! x.1); elem_inv Hc; by subst.
Qed.
Lemma emits_revokes : emits is_revoke (diff_grants current desired).2.
Proof. by intros c (? & ? & ? & ? & -> & _)%elem_of_diff_grants_revokes. Qed.
Lemma emits_revoke_defaults : emits is_revoke_default (diff_default_privileges current desired).2.
Proof.
  intros c Hc. unfold diff_default_privileges in Hc.
  destruct (foldl _ _ _) as [out r]; simpl in Hc. elem_inv Hc. destruct x. elem_inv Hc. by subst.
Qed.

Lemma default_present_out st l :
  (foldl (default_present_step current) st l).1 =
  st.1 ++ (l ≫= λ p,
    match default_privileges current !! p.1 with
    | None => [change_set_default p.1 p.2]
    | Some c => if bool_decide (p.2 ∖ c = ∅) then [] else [change_set_default p.1 (p.2 ∖ c)]
    end).
Proof.
  revert st. induction l as [|[k d] l IH]=> -[out r]; cbn [foldl mbind list_bind].
  - by rw app_nil_r.
  - rw IH. unfold default_present_step; simpl. destruct (_ !! k) as [c|]; simpl; [|by rw -app_assoc].
    destruct (bool_decide (d ∖ c = ∅)), (is_public (dk_grantee k)); simpl; by rw -?app_assoc.
Qed.

Lemma emits_set_defaults : emits is_set_default (diff_default_privileges current desired).1.
Proof.
  intros c Hc. unfold diff_default_privileges in Hc.
  pose proof (default_present_out ([], ∅) (map_iter (default_privileges desired))) as Hout.
  destruct (foldl _ _ _) as [out r]; simpl in *. subst. elem_inv Hc.
  destruct (_ !! x.1); elem_inv Hc; by subst.
Qed.

Lemma elem_of_remove_all r m c :
  c ∈ remove_all_edges current r m →
  ∃ g, c = Change.RemoveMember r m g ∧
    (∀ n, g = Some n → executor_authority current r m n = false).
Proof.
  unfold remove_all_edges. intros Hc. destruct (_ !! _) as [X|].
  - elem_inv Hc; [by eexists|]. subst. eexists; split; [done|]. intros gn [= <-].
    apply list_elem_of_filter in Hx as [H _]. by apply negb_True, Is_true_false in H.
  - elem_inv Hc. by eexists.
Qed.

(** A planned reduction lowers what the policy lowers, on one recorded edge, and
    leaves the admin option of an executor's own authority alone. *)
Lemma elem_of_option_reduction ce de options r m g c :
  c ∈ option_reduction current ce de options r m g →
  ∃ i a, c = Change.UpdateMemberOptions r m g i a None ∧ is_member_removal c ∧
    (i ≠ None → me_inherit ce = true ∧ me_inherit de = false) ∧
    (a ≠ None → me_admin ce = true ∧ me_admin de = false ∧
      executor_authority current r m g = false).
Proof.
  unfold option_reduction. intros Hc.
  destruct (_ && _ && _) eqn:Hi, (_ && _ && _ && _) eqn:Ha; simpl in Hc; elem_inv Hc; subst;
    rw ?andb_true_iff ?negb_true_iff in Hi Ha; eexists _, _; (split; [done|]); naive_solver.
Qed.

Lemma elem_of_membership_removal c :
  c ∈ (diff_memberships current desired).2 →
  ∃ r m,
    c ∈ remove_all_edges current r m ∨
    ∃ ce de g, membership_map current !! (r, m) = Some ce ∧
      membership_map desired !! (r, m) = Some de ∧
      c ∈ option_reduction current ce de (membership_edge_options current !! (r, m)) r m g.
Proof.
  unfold diff_memberships; cbn [snd]. intros [Hc|Hc]%elem_of_app.
  - apply elem_of_bind_1 in Hc as ([[r m] de] & Hin & Hc). exists r, m.
    apply elem_of_map_iter in Hin. unfold diff_membership in Hc.
    destruct (membership_map current !! _) as [ce|] eqn:Hce; [|elem_inv Hc].
    destruct (_ || _); [|elem_inv Hc].
    destruct (membership_edge_grantors _ !! _) as [X|]; [|by left].
    destruct (set_iter X) as [|g l]; cbn [snd] in Hc; [by left|right].
    apply elem_of_bind_1 in Hc as (g' & _ & Hc). by exists ce, de, g'.
  - apply elem_of_bind_1 in Hc as ([r m] & _ & Hc). exists r, m. left.
    destruct (_ !! _); [elem_inv Hc|done].
Qed.

Lemma emits_member_removals : emits is_member_removal (diff_memberships current desired).2.
Proof.
  intros c (r & m & [Hc|(ce & de & g & _ & _ & Hc)])%elem_of_membership_removal.
  - by apply elem_of_remove_all in Hc as (g & -> & _).
  - by apply elem_of_option_reduction in Hc as (i & a & _ & ? & _).
Qed.
Lemma emits_member_adds : emits is_member_add (diff_memberships current desired).1.
Proof.
  intros c Hc. unfold diff_memberships in Hc; simpl in Hc. elem_inv Hc.
  destruct x as [[r m] e]. unfold diff_membership, then_some in Hc.
  destruct (_ !! _) as [ce|]; [|simpl in Hc; elem_inv Hc; by subst].
  destruct (_ || _); [|elem_inv Hc].
  destruct (_ !! _) as [X|]; [destruct (set_iter X)|]; simpl in Hc;
    destruct_ifs Hc; elem_inv Hc; by subst.
Qed.
End emitted.

(** ** Reading the accumulated revokes *)

Section justified.
Context (current desired : RoleGraph).

Lemma elem_of_shadow_filter key X p :
  p ∈ shadow_filter desired key X ↔
  (p ∈ X ∧ p ∉ shadowing (grants desired) key ∧ p ∉ shadowing (grant_absences desired) key).
Proof. rw shadow_filter_eq. set_solver. Qed.

(** Drift: held, neither desired on the key nor covered by a wildcard, revocable. *)
Definition drifted (key : GrantKey) (p : Privilege) : Prop :=
  (is_public (gk_role key) = false) ∧ (key ∉ inherent_grants current) ∧
  (p ∈ default ∅ (grants current !! key)) ∧ (p ∉ default ∅ (grants desired !! key)) ∧
  (p ∉ shadowing (grants desired) key) ∧ (p ∉ shadowing (grant_absences desired) key).

(** Asserted absent, and held under the assertion's key. *)
Definition assertion_violated (key : GrantKey) (p : Privilege) : Prop :=
  p ∈ default ∅ (grant_absences desired !! key) ∧ p ∈ held_privileges current key.

Lemma elem_of_revoked key p :
  p ∈ revoked current desired key ↔ (drifted key p ∨ assertion_violated key p).
Proof.
  unfold revoked, present_excess, undeclared_excess, asserted_absent, drifted,
    assertion_violated; simpl.
  destruct (grant_absences desired !! key) as [A|]; simpl.
  all: destruct (grants desired !! key) as [D|], (grants current !! key) as [C|]; simpl.
  all: rw ?(bool_decide_true (is_Some (Some _))) ?(bool_decide_false (is_Some None)) //=.
  all: destruct (is_public (gk_role key)); simpl; try set_solver.
  all: case_bool_decide; rw ?elem_of_union ?elem_of_shadow_filter; set_solver.
Qed.

Lemma held_not_inherent key p :
  p ∈ held_privileges current key → is_wildcard key = false → key ∉ inherent_grants current.
Proof. unfold held_privileges. intros Hp Hw. rw Hw in Hp. case_bool_decide; set_solver. Qed.

Lemma elem_of_held_wildcard key p :
  is_wildcard key →
  p ∈ held_privileges current key ↔
  (∃ k X, grants current !! k = Some X ∧ in_scope key k ∧ k ∉ inherent_grants current ∧ p ∈ X).
Proof.
  intros Hw%Is_true_true. unfold held_privileges. rw Hw scope_scan elem_of_union_list.
  split.
  - intros (X & ([k Y] & -> & [Hn [Hs Hin]%list_elem_of_filter]%list_elem_of_filter)%list_elem_of_fmap & Hp).
    apply elem_of_map_iter in Hin. by exists k, Y.
  - intros (k & X & Hk & Hs & Hn & Hp). exists X. split; [|done].
    apply list_elem_of_fmap. exists (k, X). split; [done|].
    rw !list_elem_of_filter. split_and!; [done..|]. by apply elem_of_map_iter.
Qed.

Lemma revoked_not_inherent key : revoked current desired key ≠ ∅ →
  is_wildcard key = false → key ∉ inherent_grants current.
Proof.
  intros [p Hp]%set_choose_L Hw. apply elem_of_revoked in Hp as [(_ & ? & _)|[_ ?]]; [done|].
  by eapply held_not_inherent.
Qed.
End justified.

(** [diff_origin Hc]: which component of the plan emitted the change of [Hc]; the
    components that cannot emit its constructor are discarded. *)
Ltac diff_origin Hc :=
  apply elem_of_diff in Hc;
  destruct Hc as [Hc|[Hc|[Hc|[Hc|[Hc|[Hc|[[Hc _]|[Hc|[Hc|[Hc|Hc]]]]]]]]]];
  try by first
    [ apply emits_creates in Hc | apply emits_alters in Hc | apply emits_schema_changes in Hc
    | apply emits_schema_grants in Hc | apply emits_grants in Hc | apply emits_set_defaults in Hc
    | apply emits_revokes in Hc | apply emits_member_removals in Hc
    | apply emits_member_adds in Hc | apply emits_revoke_defaults in Hc
    | apply emits_drops in Hc ].

Lemma diff_revoke_inv current desired r X t s n g :
  let d := aligned current desired in
  Change.Revoke r X t s n g ∈ diff current desired →
  ∃ key0, X ⊆ revoked current d key0 ∧ X ≠ ∅ ∧ revoke_source current key0 (target_key r t s n).
Proof.
  cbv zeta. intros Hc. diff_origin Hc.
  apply elem_of_diff_grants_revokes in Hc as (key0 & key & Y & gr & [= -> -> -> -> -> _] & ? & ? & ?).
  exists key0. by destruct key.
Qed.

Lemma revoke_source_in_scope current key0 key :
  revoke_source current key0 key → in_scope key0 key.
Proof. intros [k ?|w k ??? ?]; [by apply in_scope_spec|done]. Qed.

Lemma in_scope_refl key : in_scope key key = true.
Proof. by apply Is_true_true, in_scope_spec. Qed.

Lemma diff_revoke_not_inherent current desired r X t s n g :
  Change.Revoke r X t s n g ∈ diff current desired →
  target_key r t s n ∉ inherent_grants current ∧
  (n = Some "*" → ∀ k, k ∈ inherent_grants current → in_scope (target_key r t s n) k = false).
Proof.
  intros (key0 & HX & Hne & Hsrc)%diff_revoke_inv.
  assert (revoked current (aligned current desired) key0 ≠ ∅) as Hr by set_solver.
  remember (target_key r t s n) as key eqn:Hkey. destruct Hsrc as [key Hw|w key Hw Hk Hs Hi].
  - destruct (is_wildcard key) eqn:Hwild.
    + specialize (Hw I). assert (∀ k, k ∈ inherent_grants current → in_scope key k = false) as Hall.
      { intros k Hk. apply Is_true_false. intros Hs.
        apply Is_true_false in Hw. apply Hw, has_inherent_spec. eauto. }
      split; [|auto]. intros Hin%Hall. by rw in_scope_refl in Hin.
    + split; [by eapply revoked_not_inherent|]. intros ->. subst. by unfold is_wildcard in Hwild.
  - split; [done|]. intros ->. subst. by unfold is_wildcard in Hk.
Qed.

(** C26: a plan never revokes from an owner-inherent ACL entry, and never runs a
    wildcard revoke over a scope in which any entry is owner-inherent. *)
Theorem diff_keeps_inherent_entries current desired r X t s n g :
  Change.Revoke r X t s n g ∈ diff current desired →
  target_key r t s n ∉ inherent_grants current ∧
  (n = Some "*" → ∀ k, k ∈ inherent_grants current → in_scope (target_key r t s n) k = false).
Proof. apply diff_revoke_not_inherent. Qed.

(** C39: every privilege a plan revokes is justified, under the revoked key or under the
    wildcard key that was expanded to it: either the manifest asserts its absence
    (and it is held), or it is drift: held by a role other than PUBLIC, not desired
    on that key, not owner-inherent and not covered by a desired wildcard. *)
Theorem diff_revokes_are_justified current desired r X t s n g p :
  let d := aligned current desired in
  Change.Revoke r X t s n g ∈ diff current desired → p ∈ X →
  ∃ key0, revoke_source current key0 (target_key r t s n) ∧
    (assertion_violated current d key0 p ∨ drifted current d key0 p).
Proof.
  cbv zeta. intros (key0 & HX & _ & Hsrc)%diff_revoke_inv Hp.
  exists key0. split; [done|]. apply HX, elem_of_revoked in Hp. tauto.
Qed.

Section default_revokes.
Context (current desired : RoleGraph).

(** The accumulated default-privilege revokes: assertions and, for grantees other
    than PUBLIC, drift. *)
Definition default_revocable (key : DefaultPrivKey) (p : Privilege) : Prop :=
  (is_public (dk_grantee key) = false ∧
   p ∈ default ∅ (default_privileges current !! key)) ∨
  p ∈ default ∅ (default_privilege_absences desired !! key).

Definition defaults_justified (r : gmap DefaultPrivKey (gset Privilege)) : Prop :=
  ∀ key X p, r !! key = Some X → p ∈ X → default_revocable key p.

Lemma extend_justified key (Y : gset Privilege) r :
  defaults_justified r → (∀ p, p ∈ Y → default_revocable key p) →
  defaults_justified (entry_extend key Y r).
Proof.
  intros Hr HY k X p Hk Hp. unfold entry_extend in Hk.
  apply lookup_insert_Some in Hk as [[-> <-]|[_ Hk]]; [|by eapply Hr].
  apply elem_of_union in Hp as [Hp|Hp]; [|auto].
  destruct (r !! k) as [Z|] eqn:HZ; simpl in Hp; [by eapply Hr|set_solver].
Qed.

Lemma extend_nonempty_justified key (Y : gset Privilege) r :
  defaults_justified r → (∀ p, p ∈ Y → default_revocable key p) →
  defaults_justified (extend_nonempty key Y r).
Proof. unfold extend_nonempty. case_bool_decide; [done|]. apply extend_justified. Qed.

Lemma foldl_inv {A S} (I : S → Prop) (f : S → A → S) l s :
  I s → (∀ s x, x ∈ l → I s → I (f s x)) → I (foldl f s l).
Proof.
  revert s. induction l as [|x l IH]=> s Hs Hf //=. apply IH.
  - apply Hf; [left|done].
  - intros. apply Hf; [by right|done].
Qed.

Lemma diff_default_revokes_justified owner scope t grantee X p :
  Change.RevokeDefaultPrivilege owner scope t grantee X
    ∈ (diff_default_privileges current desired).2 → p ∈ X →
  default_revocable
    {| dk_owner := owner; dk_scope := scope; dk_on_type := t; dk_grantee := grantee |} p.
Proof.
  unfold diff_default_privileges.
  assert (defaults_justified (foldl (default_present_step current) ([], ∅)
            (map_iter (default_privileges desired))).2) as H1.
  { apply (foldl_inv (λ st, defaults_justified st.2)); [done|].
    intros [out r] [k D] _ Hr. unfold default_present_step. simpl in *.
    destruct (default_privileges current !! k) as [C|] eqn:HC; [|done].
    destruct (is_public (dk_grantee k)) eqn:Hpub; simpl; [done|].
    apply extend_nonempty_justified; [done|]. intros q Hq. left. rw HC /=. set_solver. }
  destruct (foldl (default_present_step current) _ _) as [out r]; simpl in *.
  match goal with |- context [map_iter (foldl ?f ?r0 ?l)] =>
    assert (defaults_justified (foldl f r0 l)) as H3 end.
  { apply foldl_inv; [apply foldl_inv|]; [done|..].
    - intros r' [k C] Hin Hr. apply elem_of_map_iter in Hin. simpl.
      destruct (_ || _) eqn:Hb; [done|]. apply extend_justified; [done|].
      intros q Hq. left. apply orb_false_iff in Hb as [_ ?]. by rw Hin.
    - intros r' [k A] Hin Hr. apply elem_of_map_iter in Hin.
      apply extend_nonempty_justified; [done|]. intros q [Hq _]%elem_of_intersection.
      right. by rw Hin. }
  intros Hc Hp. apply elem_of_bind_1 in Hc as ([k Y] & Hin & Hc). elem_inv Hc.
  apply elem_of_map_iter in Hin. unfold change_revoke_default in Hc. simplify_eq.
  destruct k. by eapply H3.
Qed.
End default_revokes.

(** PUBLIC is assertion-driven: whatever a plan revokes from PUBLIC, on an object or
    in default privileges, an [ensure: absent] rule of the manifest names. *)
Theorem public_revoked_only_by_assertion current desired c p :
  let d := aligned current desired in
  c ∈ diff current desired →
  match c with
  | Change.Revoke Grantee.Public X t s n _ =>
      p ∈ X → ∃ key0 A, grant_absences d !! key0 = Some A ∧ p ∈ A ∧
        in_scope key0 (target_key Grantee.Public t s n) ∧
        (key0 = target_key Grantee.Public t s n ∨ is_wildcard key0)
  | Change.RevokeDefaultPrivilege owner scope t Grantee.Public X =>
      p ∈ X → ∃ A, default_privilege_absences d !!
        {| dk_owner := owner; dk_scope := scope; dk_on_type := t; dk_grantee := Grantee.Public |}
        = Some A ∧ p ∈ A
  | _ => True
  end.
Proof.
  cbv zeta. intros Hc. destruct c as [| | | | | | |[] X t s n g| |o sc t [] X| | | | | | | |]; try done.
  - intros Hp. destruct (diff_revoke_inv _ _ _ _ _ _ _ _ Hc) as (key0 & HX & _ & Hsrc).
    pose proof (revoke_source_in_scope _ _ _ Hsrc) as Hs.
    apply HX, elem_of_revoked in Hp. destruct Hp as [(Hpub & _)|[HA _]].
    + apply in_scope_spec in Hs as (Hr & _). simpl in Hr. by rw -Hr in Hpub.
    + destruct (grant_absences _ !! key0) as [A|] eqn:HAk; simpl in HA; [|set_solver].
      exists key0, A. split_and!; [done..|]. destruct Hsrc; auto.
  - intros Hp. diff_origin Hc.
    eapply diff_default_revokes_justified in Hc as [[[=] _]|HA]; [|done].
    destruct (default_privilege_absences _ !! _) as [A|]; simpl in HA; [by exists A|set_solver].
Qed.

(** ** The split by grantor *)

Section split.
Context (current desired : RoleGraph) (key : GrantKey) (X : gset Privilege).

(** Covered are exactly the requested privileges of the grantors visited, each in a
    revoke that names its grantor and stays within that grantor's entry. *)
Definition split_invariant (seen : list (string * gset Privilege))
    (st : gset Privilege * list Change) : Prop :=
  (∀ p, p ∈ st.1 ↔ ∃ Y g, change_revoke key Y g ∈ st.2 ∧ p ∈ Y) ∧
  (∀ c, c ∈ st.2 → ∃ g G, (g, G) ∈ seen ∧ c = change_revoke key (X ∩ G) (Some g)) ∧
  (∀ g G p, (g, G) ∈ seen → p ∈ X → p ∈ G → p ∈ st.1).

Lemma per_grantor_step_invariant seen st q :
  split_invariant seen st →
  split_invariant (seen ++ [q]) (per_grantor_step key X st q).
Proof.
  destruct st as [cov out], q as [g G]. intros (H1 & H2 & H3); simpl in *.
  unfold split_invariant. case_bool_decide as Hsub; simpl.
  - split_and!; [done|..].
    + intros c (g' & G' & ? & ->)%H2. exists g', G'. rw elem_of_app. auto.
    + intros g' G' p [?|Hin]%elem_of_app Hp HG; [by eapply H3|]. elem_inv Hin. set_solver.
  - split_and!.
    + intros p. rw elem_of_union H1. split.
      * intros [(Y & g' & ? & ?)|Hp].
        -- exists Y, g'. rw elem_of_app. auto.
        -- exists (X ∩ G), (Some g). split; [|done]. apply elem_of_app. right. left.
      * intros (Y & g' & [?|Hin]%elem_of_app & Hp); [left; eauto|].
        elem_inv Hin. unfold change_revoke in Hin. simplify_eq. auto.
    + intros c [(g' & G' & ? & ->)%H2|Hin]%elem_of_app.
      * exists g', G'. rw elem_of_app. auto.
      * elem_inv Hin. exists g, G. split; [|done]. apply elem_of_app. right. left.
    + intros g' G' p [?|Hin]%elem_of_app Hp HG; apply elem_of_union.
      * left. by eapply H3.
      * right. elem_inv Hin. simplify_eq. set_solver.
Qed.

Lemma split_fold per :
  split_invariant per (foldl (per_grantor_step key X) (∅, []) per).
Proof.
  induction per as [|q per IH] using rev_ind.
  - split_and!; simpl; [|by intros ? []%not_elem_of_nil|by intros ??? []%not_elem_of_nil].
    intros p. split; [set_solver|]. by intros (? & ? & []%not_elem_of_nil & _).
  - rw foldl_app /=. by apply per_grantor_step_invariant.
Qed.
End split.

Lemma push_revokes_exact_spec current desired key X :
  X ≠ ∅ →
  let out := push_revokes_exact current desired key X in
  (∀ p, p ∈ X ↔ ∃ Y g, change_revoke key Y g ∈ out ∧ p ∈ Y) ∧
  (∀ Y g, change_revoke key Y (Some g) ∈ out →
     schema_owner_moves current desired key = false ∧
     ∃ per G, grant_entry_grantors current !! key = Some per ∧ per !! g = Some G ∧ Y = X ∩ G).
Proof.
  intros HX out. unfold out, push_revokes_exact.
  assert (∀ g0, (∀ p, p ∈ X ↔ ∃ Y g, change_revoke key Y g ∈ [change_revoke key X g0] ∧ p ∈ Y)) as H1.
  { intros g0 p. split; [intros Hp; exists X, g0; split; [left|done]|].
    intros (Y & g & Hin & Hp). elem_inv Hin. unfold change_revoke in Hin. by simplify_eq. }
  assert (∀ Y g, change_revoke key Y (Some g) ∉ [change_revoke key X None]) as H2.
  { intros Y g Hin. elem_inv Hin. done. }
  destruct (schema_owner_moves current desired key).
  { split; [apply H1|]. by intros Y g []%H2. }
  destruct (_ !! key) as [per|] eqn:Hper; [|split; [apply H1|]; by intros Y g []%H2].
  pose proof (split_fold key X (map_iter per)) as Hinv.
  destruct (foldl _ _ _) as [cov out']. destruct Hinv as (I1 & I2 & I3); simpl in *.
  assert (∀ Y g, change_revoke key Y (Some g) ∈ out' →
    false = false ∧ ∃ per' G, Some per = Some per' ∧ per' !! g = Some G ∧ Y = X ∩ G) as Hout.
  { intros Y g (g' & G & Hin & [= -> ->])%I2. split; [done|]. exists per, G.
    by apply elem_of_map_iter in Hin. }
  assert (∀ p, p ∈ cov → p ∈ X) as Hcov.
  { intros p (Y & g & (g' & G & _ & [= -> ->])%I2 & Hp)%I1. set_solver. }
  case_bool_decide as Hrem; split; [|done|..].
  - intros p. rw -I1. split; [|auto]. intros Hp. destruct (decide (p ∈ cov)); [done|set_solver].
  - intros p. split.
    + intros Hp. destruct (decide (p ∈ cov)) as [Hc|Hc].
      * apply I1 in Hc as (Y & g & ? & ?). exists Y, g. rw elem_of_app. auto.
      * exists (X ∖ cov), None. split; [apply elem_of_app; right; left|set_solver].
    + intros (Y & g & [Hin|Hin]%elem_of_app & Hp); [apply Hcov, I1; eauto|].
      elem_inv Hin. unfold change_revoke in Hin. simplify_eq. set_solver.
  - intros Y g [Hin|Hin]%elem_of_app; [auto|]. elem_inv Hin. done.
Qed.

(** splitting a revoke by recorded grantor loses nothing and adds nothing: the
    statements for one target together revoke exactly the requested privileges,
    and a statement bound to a grantor only names privileges that grantor's ACL
    entry holds, unless the plan moves the schema's owner, in which case none is
    bound to a grantor. *)
Theorem revoke_split_exact current desired key X :
  X ≠ ∅ →
  let out := push_revokes_exact current desired key X in
  (∀ p, p ∈ X ↔ ∃ Y g, change_revoke key Y g ∈ out ∧ p ∈ Y) ∧
  (∀ Y g, change_revoke key Y (Some g) ∈ out →
     schema_owner_moves current desired key = false ∧
     ∃ per G, grant_entry_grantors current !! key = Some per ∧ per !! g = Some G ∧ Y = X ∩ G).
Proof. apply push_revokes_exact_spec. Qed.

Section enforced.
Context (current desired : RoleGraph).

Lemma push_revokes_exact_covers key X p :
  p ∈ X → ∃ Y g, change_revoke key Y g ∈ push_revokes_exact current desired key X ∧ p ∈ Y.
Proof.
  intros Hp. apply push_revokes_exact_spec; [set_solver|done].
Qed.

Lemma entry_extend_mono {K} `{Countable K} (k k' : K) (Y : gset Privilege) m p :
  p ∈ default ∅ (m !! k) → p ∈ default ∅ (entry_extend k' Y m !! k).
Proof.
  unfold entry_extend. intros Hp. destruct (decide (k' = k)) as [->|].
  - rw lookup_insert_eq /=. set_solver.
  - by rw lookup_insert_ne.
Qed.

(** Every concrete current grant of the scope is a target of the expansion. *)
Lemma concrete_targets_complete key k X p :
  grants current !! k = Some X → in_scope key k → is_wildcard k = false → p ∈ X →
  p ∈ default ∅ (concrete_targets current key !! k).
Proof.
  intros Hk Hs Hw Hp. unfold concrete_targets.
  assert ((k, X) ∈ take_while (λ p, in_scope key p.1)
    (map_range (range_start key) (grants current))) as Hin.
  { rw scope_scan list_elem_of_filter. split; [done|]. by apply elem_of_map_iter. }
  revert Hin. generalize (foldl (λ acc p, if is_wildcard p.1 then acc
    else entry_extend p.1 (⋃ (map_iter p.2).*2) acc) ∅
    (take_while (λ p, in_scope key p.1) (map_range (range_start key) (grant_entry_grantors current)))).
  generalize (take_while (λ p, in_scope key p.1) (map_range (range_start key) (grants current))).
  intros l. induction l as [|q l IH] using rev_ind; intros acc Hin; [by apply not_elem_of_nil in Hin|].
  rw foldl_app /=. apply elem_of_app in Hin as [Hin|Hin].
  - destruct (is_wildcard q.1); [|apply entry_extend_mono]; by apply IH.
  - elem_inv Hin. subst. simpl. rw Hw. unfold entry_extend. rw lookup_insert_eq /=. set_solver.
Qed.

Lemma revoked_planned key X :
  revoked current desired key = X → X ≠ ∅ →
  ∀ c, c ∈ push_revokes_split_by_grantor current desired key X →
  c ∈ (diff_grants current desired).2.
Proof.
  intros HX Hne c Hc. unfold diff_grants.
  pose proof (revokes_lookup current desired key) as Hlk.
  destruct (diff_grants_state current desired) as [out r]; simpl in *.
  rw HX decide_False // in Hlk.
  eapply elem_of_bind_2; [by apply elem_of_map_iter|done].
Qed.

Lemma assertion_planned key A k X p :
  grant_absences desired !! key = Some A → p ∈ A →
  grants current !! k = Some X → p ∈ X →
  k ∉ inherent_grants current → is_wildcard k = false →
  k = key ∨ (is_wildcard key ∧ in_scope key k) →
  ∃ Y g, change_revoke k Y g ∈ (diff_grants current desired).2 ∧ p ∈ Y.
Proof.
  intros HA Hp Hk HpX Hinh Hw Hkey.
  assert (p ∈ revoked current desired key) as Hrev.
  { apply elem_of_revoked. right. unfold assertion_violated. rw HA /=. split; [done|].
    destruct Hkey as [<-|[Hwk Hs]].
    - unfold held_privileges. rw Hw bool_decide_false // Hk. done.
    - apply elem_of_held_wildcard; [done|]. eauto 6. }
  pose proof (revoked_planned key _ eq_refl ltac:(set_solver)) as Hplan.
  unfold push_revokes_split_by_grantor in Hplan. destruct Hkey as [->|[Hwk Hs]].
  - rw Hw /= in Hplan. destruct (push_revokes_exact_covers key _ p Hrev) as (Y & g & Hc & ?).
    exists Y, g. auto.
  - pose proof (concrete_targets_complete _ _ _ _ Hk Hs Hw HpX) as Hct.
    destruct (concrete_targets current key !! k) as [held|] eqn:Hheld; simpl in Hct; [|set_solver].
    rw (Is_true_eq_true _ Hwk) bool_decide_true /= in Hplan; [|intros Hemp; by rw Hemp in Hheld].
    destruct (push_revokes_exact_covers k (revoked current desired key ∩ held) p)
      as (Y & g & Hc & ?); [set_solver|].
    exists Y, g. split; [|done]. apply Hplan. eapply elem_of_bind_2; [by apply elem_of_map_iter|].
    cbv beta iota. rw bool_decide_false // bool_decide_false //; set_solver.
Qed.
End enforced.


(** ** Executor authority *)

(** a plan never takes away the edge through which an executor administers a role:
    no removal names it, and no option update drops its admin option. *)
Theorem diff_keeps_executor_authority current desired role member grantor :
  (role, member, grantor) ∈ executor_authority_edges current →
  Change.RemoveMember role member (Some grantor) ∉ diff current desired ∧
  ∀ inherit binding,
    Change.UpdateMemberOptions role member grantor inherit (Some false) binding
      ∉ diff current desired.
Proof.
  intros Hexec.
  assert (executor_authority current role member grantor = true) as Hauth.
  { by apply bool_decide_eq_true. }
  split.
  - intros Hc. diff_origin Hc.
    apply elem_of_membership_removal in Hc as (r & m & [Hc|(ce & de & g & _ & _ & Hc)]).
    + apply elem_of_remove_all in Hc as (g & [= -> -> <-] & Hg).
      rw (Hg _ eq_refl) in Hauth. done.
    + by apply elem_of_option_reduction in Hc as (i & a & ? & _).
  - intros inherit binding Hc. diff_origin Hc.
    + apply elem_of_membership_removal in Hc as (r & m & [Hc|(ce & de & g & _ & _ & Hc)]).
      * by apply elem_of_remove_all in Hc as (g & ? & _).
      * apply elem_of_option_reduction in Hc as (i & a & [= -> -> -> -> <- ->] & _ & _ & Ha).
        destruct Ha as (_ & _ & Ha); [done|]. by rw Ha in Hauth.
    + apply emits_member_adds in Hc. destruct binding, inherit as [[]|]; done.
Qed.

(** ** Dependency order *)

(** The position of a change's group in a plan, as the doc comment of [diff] lists it. *)
Definition phase (c : Change) : nat :=
  match c with
  | Change.CreateRole _ _ => 0
  | Change.AlterRole _ _ | Change.SetComment _ _ => 1
  | Change.CreateSchema _ _ | Change.AlterSchemaOwner _ _ => 2
  | Change.EnsureSchemaOwnerPrivileges _ _ _ => 3
  | Change.Grant _ _ _ _ _ => 4
  | Change.SetDefaultPrivilege _ _ _ _ _ => 5
  | Change.Revoke _ _ _ _ _ _ => 6
  | Change.RemoveMember _ _ _ => 7
  | Change.UpdateMemberOptions _ _ _ i a _ => if lowers i && lowers a then 7 else 8
  | Change.AddMember _ _ _ _ => 8
  | Change.RevokeDefaultPrivilege _ _ _ _ _ => 9
  | Change.DropRole _ => 10
  | _ => 11
  end.

Lemma emits_phase (kind : Change → bool) k l :
  emits kind l → (∀ c, kind c → phase c = k) → Forall (λ c, phase c = k) l.
Proof. intros Hl Hk. apply Forall_forall. auto. Qed.

(** Segments of constant phase, the phases ascending, make a list sorted by phase. *)
Lemma sorted_segments (segments : list (nat * list Change)) :
  StronglySorted le segments.*1 →
  Forall (λ s, Forall (λ c, phase c = s.1) s.2) segments →
  StronglySorted le (phase <$> concat segments.*2).
Proof.
  induction segments as [|[k l] segments IH]; simpl; [by constructor|].
  intros [Hs Hk]%StronglySorted_inv [Hl Hsegs]%Forall_cons; simpl in *.
  specialize (IH Hs Hsegs). rw fmap_app.
  assert (Forall (le k) (phase <$> concat segments.*2)) as Hrest.
  { apply Forall_fmap, Forall_concat, Forall_fmap, Forall_forall. intros s Hin.
    apply Forall_forall. intros c Hc. simpl.
    rw (proj1 (Forall_forall _ _) (proj1 (Forall_forall _ _) Hsegs s Hin) c Hc).
    apply (proj1 (Forall_forall _ _) Hk). by apply list_elem_of_fmap_2. }
  clear Hs Hk Hsegs. induction Hl as [|c l Hc Hl IHl]; simpl; [done|].
  constructor; [done|]. apply Forall_app. split; [|by rw Hc].
  apply Forall_fmap. eapply Forall_impl; [exact Hl|]. simpl. lia.
Qed.

Lemma filter_phase (P : Change → Prop) `{∀ c, Decision (P c)} k l :
  Forall (λ c, phase c = k) l → Forall (λ c, phase c = k) (filter P l).
Proof. rw !Forall_forall. intros Hl c [_ Hc]%list_elem_of_filter. auto. Qed.

(** every plan is in dependency order: roles are created before they are altered,
    then schemas, owner privileges, grants, defaults; revokes, membership removals,
    membership additions, default revokes and role drops follow in that order, and
    nothing else (no retirement step, no password) is planned. *)
Theorem diff_in_dependency_order current desired :
  StronglySorted le (phase <$> diff current desired) ∧
  Forall (λ c, phase c ≤ 10) (diff current desired).
Proof.
  set (d := aligned current desired).
  pose proof (emits_phase _ 0 _ (emits_creates current d) ltac:(by intros [])) as H0.
  pose proof (emits_phase _ 1 _ (emits_alters current d) ltac:(by intros [])) as H1.
  pose proof (emits_phase _ 2 _ (emits_schema_changes current d) ltac:(by intros [])) as H2.
  pose proof (emits_phase _ 3 _ (emits_schema_grants current d) ltac:(by intros [])) as H3.
  pose proof (emits_phase _ 4 _ (emits_grants current d) ltac:(by intros [])) as H4.
  pose proof (emits_phase _ 5 _ (emits_set_defaults current d) ltac:(by intros [])) as H5.
  pose proof (emits_phase _ 6 _ (emits_revokes current d) ltac:(by intros [])) as H6.
  pose proof (emits_phase _ 7 _ (emits_member_removals current d)
    ltac:(by intros [| | | | | | | | | | |? ? ? [[]|] [[]|] []| | | | | |])) as H7.
  pose proof (emits_phase _ 8 _ (emits_member_adds current d)
    ltac:(by intros [| | | | | | | | | | |? ? ? [[]|] [[]|] []| | | | | |])) as H8.
  pose proof (emits_phase _ 9 _ (emits_revoke_defaults current d) ltac:(by intros [])) as H9.
  pose proof (emits_phase _ 10 _ (emits_drops current d) ltac:(by intros [])) as H10.
  unfold diff. change (resolve_routine_aliases _ _) with d.
  destruct (diff_roles _ _) as [[creates alters] drops].
  destruct (diff_schemas _ _) as [schema_changes schema_grants].
  destruct (diff_grants _ _) as [grants revokes].
  destruct (diff_default_privileges _ _) as [set_defaults revoke_defaults].
  destruct (diff_memberships _ _) as [add_members remove_members]. cbn [fst snd] in *.
  set (rev := if bool_decide _ then revokes else _).
  assert (Forall (λ c, phase c = 6) rev) as Hrev.
  { unfold rev. case_bool_decide; [done|by apply filter_phase]. }
  split.
  - rw -(app_nil_r drops).
    apply (sorted_segments [(0, creates); (1, alters); (2, schema_changes); (3, schema_grants);
      (4, grants); (5, set_defaults); (6, rev); (7, remove_members); (8, add_members);
      (9, revoke_defaults); (10, drops)]).
    + repeat constructor; simpl; lia.
    + repeat apply Forall_cons_2; [done..|constructor].
  - repeat apply Forall_app_2; (eapply Forall_impl; [eassumption|]); simpl; lia.
Qed.
