(* ===== verification/Interp.v ===== *)
(** * Execution semantics of a plan ([tests/diff_property.rs], [apply_changes])

    The repository states what each [Change] is meant to do to the state of the
    database as an interpreter over [RoleGraph]; it panics on a change the diff
    engine must not emit and on an alteration of an absent object.  A panic is
    [None] here. *)

From S2P Require Import Prelude BTree RustStr Types Model Change Diff.

(** ** Assignments to one field *)

Definition with_live (g : RoleGraph) (rs : gmap string RoleState) (ss : gmap string SchemaState)
    (gs : gmap GrantKey GrantState) (ds : gmap DefaultPrivKey DefaultPrivState)
    (ms : gset MembershipEdge) : RoleGraph := {|
  routine_aliases := routine_aliases g; roles := rs; schemas := ss; grants := gs;
  default_privileges := ds; memberships := ms; grant_absences := grant_absences g;
  default_privilege_absences := default_privilege_absences g;
  exclusive_membership_roles := exclusive_membership_roles g;
  inherent_grants := inherent_grants g;
  membership_edge_grantors := membership_edge_grantors g;
  membership_edge_options := membership_edge_options g;
  executor_authority_edges := executor_authority_edges g;
  grant_entry_grantors := grant_entry_grantors g;
|}.

Definition with_roles g rs :=
  with_live g rs (schemas g) (grants g) (default_privileges g) (memberships g).
Definition with_schemas g ss :=
  with_live g (roles g) ss (grants g) (default_privileges g) (memberships g).
Definition with_grants g gs :=
  with_live g (roles g) (schemas g) gs (default_privileges g) (memberships g).
Definition with_defaults g ds :=
  with_live g (roles g) (schemas g) (grants g) ds (memberships g).
Definition with_memberships g ms :=
  with_live g (roles g) (schemas g) (grants g) (default_privileges g) ms.

(** ** Effects *)

Definition with_config (s : RoleState) (config : gmap string string) : RoleState := {|
  rs_login := rs_login s; rs_superuser := rs_superuser s; rs_createdb := rs_createdb s;
  rs_createrole := rs_createrole s; rs_inherit := rs_inherit s;
  rs_replication := rs_replication s; rs_bypassrls := rs_bypassrls s;
  rs_connection_limit := rs_connection_limit s; rs_comment := rs_comment s;
  rs_password_valid_until := rs_password_valid_until s; rs_config := config |}.

(** [state.comment = comment.clone()] *)
Definition with_comment (s : RoleState) (comment : option string) : RoleState := {|
  rs_login := rs_login s; rs_superuser := rs_superuser s; rs_createdb := rs_createdb s;
  rs_createrole := rs_createrole s; rs_inherit := rs_inherit s;
  rs_replication := rs_replication s; rs_bypassrls := rs_bypassrls s;
  rs_connection_limit := rs_connection_limit s; rs_comment := comment;
  rs_password_valid_until := rs_password_valid_until s; rs_config := rs_config s |}.

(** [apply_attribute] *)
Definition apply_attribute (s : RoleState) (attr : RoleAttribute) : RoleState :=
  let set login superuser createdb createrole inherit replication bypassrls limit valid := {|
    rs_login := login; rs_superuser := superuser; rs_createdb := createdb;
    rs_createrole := createrole; rs_inherit := inherit; rs_replication := replication;
    rs_bypassrls := bypassrls; rs_connection_limit := limit; rs_comment := rs_comment s;
    rs_password_valid_until := valid; rs_config := rs_config s |} in
  let '(l, su, cd, cr, i, r, b, n, v) :=
    (rs_login s, rs_superuser s, rs_createdb s, rs_createrole s, rs_inherit s,
     rs_replication s, rs_bypassrls s, rs_connection_limit s, rs_password_valid_until s) in
  match attr with
  | RoleAttribute.Login x => set x su cd cr i r b n v
  | RoleAttribute.Superuser x => set l x cd cr i r b n v
  | RoleAttribute.Createdb x => set l su x cr i r b n v
  | RoleAttribute.Createrole x => set l su cd x i r b n v
  | RoleAttribute.Inherit x => set l su cd cr x r b n v
  | RoleAttribute.Replication x => set l su cd cr i x b n v
  | RoleAttribute.Bypassrls x => set l su cd cr i r x n v
  | RoleAttribute.ConnectionLimit x => set l su cd cr i r b x v
  | RoleAttribute.ValidUntil x => set l su cd cr i r b n x
  | RoleAttribute.SetConfig k x => with_config s (<[k := x]> (rs_config s))
  | RoleAttribute.ResetConfig k => with_config s (delete k (rs_config s))
  end.

(** The loop body of the [Revoke] arms: remove the privileges, drop an emptied entry. *)
Definition revoke_entry {K} `{Countable K} (privileges : gset Privilege)
    (m : gmap K (gset Privilege)) (key : K) : gmap K (gset Privilege) :=
  match m !! key with
  | Some entry =>
      if bool_decide (entry ∖ privileges = ∅) then delete key m
      else <[key := entry ∖ privileges]> m
  | None => m
  end.

(** The keys one [Revoke] reaches. *)
Definition affected (gs : gmap GrantKey GrantState) (key : GrantKey) : list GrantKey :=
  if is_wildcard key then filter (λ k, in_scope key k) (map_keys gs) else [key].

(** [retain(|e| !(e.role == role && e.member == member))] *)
Definition retain_others (role member : string) (ms : gset MembershipEdge) : gset MembershipEdge :=
  filter (λ e, ¬ (me_role e = role ∧ me_member e = member)) ms.

(** One iteration of [apply_changes]. *)
Definition apply_change (g : RoleGraph) (c : Change) : option RoleGraph :=
  match c with
  | Change.CreateRole name state => Some (with_roles g (<[name := state]> (roles g)))
  | Change.AlterRole name attributes =>
      state ← roles g !! name;
      Some (with_roles g (<[name := foldl apply_attribute state attributes]> (roles g)))
  | Change.SetComment name comment =>
      state ← roles g !! name;
      Some (with_roles g (<[name := with_comment state comment]> (roles g)))
  | Change.DropRole name => Some (with_roles g (delete name (roles g)))
  | Change.CreateSchema name owner =>
      let owner_privileges :=
        match owner with Some o => default_schema_owner_privileges o | None => ∅ end in
      Some (with_schemas g
        (<[name := {| ss_owner := owner; ss_owner_privileges := owner_privileges |}]> (schemas g)))
  | Change.AlterSchemaOwner name owner =>
      _ ← schemas g !! name;
      let g := with_schemas g
        (<[name := {| ss_owner := Some owner;
                      ss_owner_privileges := {[Privilege.Create; Privilege.Usage]} |}]>
           (schemas g)) in
      Some (with_grants g
        (delete {| gk_role := Grantee.Role owner; gk_object_type := ObjectType.Schema;
                   gk_schema := None; gk_name := Some name |} (grants g)))
  | Change.EnsureSchemaOwnerPrivileges name _ privileges =>
      state ← schemas g !! name;
      Some (with_schemas g
        (<[name := {| ss_owner := ss_owner state;
                      ss_owner_privileges := ss_owner_privileges state ∪ privileges |}]>
           (schemas g)))
  | Change.Grant role privileges object_type schema name =>
      let key := {| gk_role := role; gk_object_type := object_type;
                    gk_schema := schema; gk_name := name |} in
      Some (with_grants g (entry_extend key privileges (grants g)))
  | Change.Revoke role privileges object_type schema name _ =>
      let key := {| gk_role := role; gk_object_type := object_type;
                    gk_schema := schema; gk_name := name |} in
      Some (with_grants g (foldl (revoke_entry privileges) (grants g) (affected (grants g) key)))
  | Change.SetDefaultPrivilege owner scope on_type grantee privileges =>
      let key := {| dk_owner := owner; dk_scope := scope; dk_on_type := on_type;
                    dk_grantee := grantee |} in
      Some (with_defaults g (entry_extend key privileges (default_privileges g)))
  | Change.RevokeDefaultPrivilege owner scope on_type grantee privileges =>
      let key := {| dk_owner := owner; dk_scope := scope; dk_on_type := on_type;
                    dk_grantee := grantee |} in
      Some (with_defaults g (revoke_entry privileges (default_privileges g) key))
  | Change.AddMember role member inherit admin =>
      Some (with_memberships g
        (retain_others role member (memberships g) ∪
         {[ {| me_role := role; me_member := member; me_inherit := inherit;
               me_admin := admin |} ]}))
  | Change.RemoveMember role member _ =>
      Some (with_memberships g (retain_others role member (memberships g)))
  | Change.UpdateMemberOptions _ _ _ _ _ _ | Change.SetPassword _ _
  | Change.ReassignOwned _ _ | Change.DropOwned _ | Change.TerminateSessions _ => None
  end.

(** [apply_changes] *)
Fixpoint apply_changes (g : RoleGraph) (changes : list Change) : option RoleGraph :=
  match changes with
  | [] => Some g
  | c :: changes => g ← apply_change g c; apply_changes g changes
  end.

Lemma apply_changes_app g l1 l2 :
  apply_changes g (l1 ++ l2) = apply_changes g l1 ≫= λ g, apply_changes g l2.
Proof. revert g. induction l1 as [|c l1 IH]=> g //=. by destruct (apply_change g c) => /=. Qed.

(** [graph_mismatch(got, want) == None]: the five live fields agree. *)
Definition graph_matches (got want : RoleGraph) : Prop :=
  roles got = roles want ∧ schemas got = schemas want ∧ grants got = grants want ∧
  default_privileges got = default_privileges want ∧ memberships got = memberships want.
