(* ===== verification/Converge.v ===== *)
(** * Convergence of the diff engine

    Executing [diff current desired] from [current], by the semantics of [Interp],
    succeeds and reaches the desired graph.  Each segment of a plan touches one
    field; a segment emitted by a loop over an ordered map is a sweep that updates
    that field key by key ([run_sweep]). *)

From S2P Require Import Prelude BTree RustStr Types Model Change Diff DiffFacts DiffSafety Interp.

(** ** Running a list of operations *)

Fixpoint run {M C} (step : M → C → option M) (m : M) (l : list C) : option M :=
  match l with
  | [] => Some m
  | c :: l => m ← step m c; run step m l
  end.

Lemma run_app {M C} (step : M → C → option M) m l1 l2 :
  run step m (l1 ++ l2) = run step m l1 ≫= λ m, run step m l2.
Proof. revert m. induction l1 as [|c l1 IH]=> m //=. by destruct (step m c) => /=. Qed.

Lemma apply_changes_run g l : apply_changes g l = run apply_change g l.
Proof. revert g. induction l as [|c l IH]=> g //=. by destruct (apply_change g c) => /=. Qed.

(** Operations that act on a part [M] of the graph only. *)
Lemma run_lens {M} (get : RoleGraph → M) (set : RoleGraph → M → RoleGraph)
    (step : M → Change → option M) (kind : Change → bool) g l :
  (∀ g m, get (set g m) = m) → (∀ g m m', set (set g m) m' = set g m') →
  (∀ g, set g (get g) = g) →
  (∀ g c, kind c → apply_change g c = set g <$> step (get g) c) →
  emits kind l → apply_changes g l = set g <$> run step (get g) l.
Proof.
  intros Hgs Hss Hsg Hstep. rw apply_changes_run. revert g.
  induction l as [|c l IH]=> g Hl /=; [by rw Hsg|].
  rw Hstep; [|apply Hl; left]. destruct (step (get g) c) as [m|]; simpl; [|done].
  rw IH; [|intros c' Hc; apply Hl; by right]. rw Hgs.
  destruct (run step m l); simpl; [by rw Hss|done].
Qed.

(** A loop over ordered bindings whose body rewrites the entry of its own key. *)
Section sweep.
Context {K V A C : Type} `{Countable K, Ord K}.
Context (step : gmap K A → C → option (gmap K A)).
Context (body : K * V → list C) (new : K * V → option A).

Lemma run_sweep_list l m :
  NoDup l.*1 →
  (∀ p m', p ∈ l → m' !! p.1 = m !! p.1 →
     run step m' (body p) = Some (partial_alter (λ _, new p) p.1 m')) →
  ∃ m', run step m (l ≫= body) = Some m' ∧
    (∀ p, p ∈ l → m' !! p.1 = new p) ∧ (∀ k, k ∉ l.*1 → m' !! k = m !! k).
Proof.
  revert m. induction l as [|p l IH]=> m Hnd Hbody; cbn [mbind list_bind].
  { exists m. split_and!; [done|by intros p []%not_elem_of_nil|done]. }
  apply NoDup_cons in Hnd as [Hp Hnd]. rw run_app.
  rw (Hbody p m); [|left|done]. simpl.
  destruct (IH (partial_alter (λ _, new p) p.1 m)) as (m' & Hrun & H1 & H2); [done|..].
  - intros q m' Hq Hm'. apply Hbody; [by right|]. rw Hm' lookup_partial_alter_ne //.
    intros Heq. apply Hp. rw Heq. by apply list_elem_of_fmap_2.
  - exists m'. split_and!; [done|..].
    + intros q [->|Hq]%elem_of_cons; [|by apply H1]. by rw (H2 _ Hp) lookup_partial_alter_eq.
    + intros k [Hk Hkl]%not_elem_of_cons. rw (H2 _ Hkl) lookup_partial_alter_ne //.
Qed.

Lemma run_sweep (x : gmap K V) m :
  (∀ k v m', x !! k = Some v → m' !! k = m !! k →
     run step m' (body (k, v)) = Some (partial_alter (λ _, new (k, v)) k m')) →
  ∃ m', run step m (map_iter x ≫= body) = Some m' ∧
    ∀ k, m' !! k = match x !! k with Some v => new (k, v) | None => m !! k end.
Proof.
  intros Hbody. destruct (run_sweep_list (map_iter x) m (NoDup_map_keys x)) as (m' & Hrun & H1 & H2).
  - intros [k v] m' Hin%elem_of_map_iter. by apply Hbody.
  - exists m'. split; [done|]. intros k. destruct (x !! k) as [v|] eqn:Hk.
    + apply (H1 (k, v)). by apply elem_of_map_iter.
    + apply H2. rw elem_of_map_keys Hk. by intros [].
Qed.

Lemma map_keys_bind (x : gmap K V) (f : K → list C) :
  map_keys x ≫= f = map_iter x ≫= λ p, f p.1.
Proof. unfold map_keys. induction (map_iter x) as [|p l IH]; simpl; [done|by f_equal]. Qed.
End sweep.

Lemma partial_alter_same {K A} `{Countable K} (m : gmap K A) k (v : option A) :
  m !! k = v → partial_alter (λ _, v) k m = m.
Proof. intros <-. apply partial_alter_self. Qed.

Lemma insert_partial_alter {K A} `{Countable K} (m : gmap K A) k (v w : A) :
  v = w → Some (<[k := v]> m) = Some (partial_alter (λ _, Some w) k m).
Proof. by intros ->. Qed.

Lemma union_diff (X Y : gset Privilege) : X ∪ Y ∖ X = X ∪ Y.
Proof. apply set_eq. intros p. destruct (decide (p ∈ X)); set_solver. Qed.
Lemma union_covered (X Y : gset Privilege) : Y ∖ X = ∅ → X ∪ Y = X.
Proof. intros HY. rw -union_diff HY. set_solver. Qed.

(** ** Roles *)

Section roles.
Definition config_step (m : gmap string string) (a : RoleAttribute) : option (gmap string string) :=
  match a with
  | RoleAttribute.SetConfig k v => Some (<[k := v]> m)
  | RoleAttribute.ResetConfig k => Some (delete k m)
  | _ => None
  end.

Lemma with_config_id s : with_config s (rs_config s) = s.
Proof. by destruct s. Qed.

Lemma apply_config_attributes s l m :
  run config_step (rs_config s) l = Some m → foldl apply_attribute s l = with_config s m.
Proof.
  revert s. induction l as [|a l IH]=> s /=; [intros [= <-]; by rw with_config_id|].
  destruct a; try done; simpl; intros Hrun; apply (IH (with_config s _)) in Hrun; done.
Qed.

Lemma set_all_config (c : gmap string string) (m : gmap string string) :
  ∃ m', run config_step m ((λ '(k, v), RoleAttribute.SetConfig k v) <$> map_iter c) = Some m' ∧
    ∀ k, m' !! k = match c !! k with Some v => Some v | None => m !! k end.
Proof.
  destruct (run_sweep config_step (λ '(k, v), [RoleAttribute.SetConfig k v])
    (λ p, Some p.2) c m) as (m' & Hrun & Hm'); [done|].
  exists m'. split; [|done]. rw -Hrun. f_equal.
  clear. induction (map_iter c) as [|[k v] l IH]; cbn [fmap list_fmap mbind list_bind app]; [done|f_equal; exact IH].
Qed.

Lemma config_delta (old new : gmap string string) :
  run config_step old
    ((map_iter new ≫= λ '(parameter, value),
        if decide (old !! parameter = Some value) then []
        else [RoleAttribute.SetConfig parameter value]) ++
     (map_keys old ≫= λ parameter,
        match new !! parameter with
        | Some _ => []
        | None => [RoleAttribute.ResetConfig parameter]
        end)) = Some new.
Proof.
  rw run_app. destruct (run_sweep config_step (λ '(k, v),
    if decide (old !! k = Some v) then [] else [RoleAttribute.SetConfig k v])
    (λ p, Some p.2) new old) as (m1 & -> & H1); simpl.
  { intros k v m' Hk Hm'. case_decide as Ho; [|done]. simpl.
    by rw partial_alter_same; [|rw Hm']. }
  rw map_keys_bind. destruct (run_sweep config_step (λ p : string * string,
    match new !! p.1 with Some _ => [] | None => [RoleAttribute.ResetConfig p.1] end)
    (λ p, new !! p.1) old m1) as (m2 & -> & H2); simpl.
  { intros k v m' Hk Hm'. rw H1 in Hm'. destruct (new !! k) as [w|] eqn:Hn; [|done].
    simpl. by rw partial_alter_same. }
  f_equal. apply map_eq. intros k. rw H2 H1.
  simpl. by destruct (old !! k), (new !! k).
Qed.

(** The attribute delta turns one role state into the other, comment apart. *)
Lemma changed_attributes_apply self other :
  foldl apply_attribute self (changed_attributes self other) =
  with_comment other (rs_comment self).
Proof.
  unfold changed_attributes. rw !foldl_app. unfold push_if_changed.
  rw -foldl_app. rw (apply_config_attributes _ _ (rs_config other)).
  2:{ etrans; [|apply (config_delta (rs_config self) (rs_config other))]. f_equal.
      repeat case_decide; done. }
  destruct self, other; simpl. repeat case_decide; subst; done.
Qed.
End roles.

Section role_segments.
Context (current desired : RoleGraph).

Definition role_step (m : gmap string RoleState) (c : Change) : option (gmap string RoleState) :=
  match c with
  | Change.CreateRole name state => Some (<[name := state]> m)
  | Change.AlterRole name attributes =>
      state ← m !! name; Some (<[name := foldl apply_attribute state attributes]> m)
  | Change.SetComment name comment =>
      state ← m !! name; Some (<[name := with_comment state comment]> m)
  | Change.DropRole name => Some (delete name m)
  | _ => None
  end.

Definition is_role_change c := is_create_role c || is_role_alter c || is_drop_role c.

Lemma run_roles g l :
  emits is_role_change l →
  apply_changes g l = with_roles g <$> run role_step (roles g) l.
Proof.
  apply (run_lens roles); try done; [by intros []|].
  intros g' [] Hc; try done; simpl; by destruct (_ !! _).
Qed.

(** Role states after the creations, and after the alterations. *)
Definition roles_created (name : string) : option RoleState :=
  match roles current !! name with Some s => Some s | None => roles desired !! name end.
Definition roles_altered (name : string) : option RoleState :=
  match roles desired !! name with Some s => Some s | None => roles current !! name end.

Lemma creates_run :
  ∃ m, run role_step (roles current) (diff_roles current desired).1.1 = Some m ∧
    ∀ k, m !! k = roles_created k.
Proof.
  unfold diff_roles; simpl.
  destruct (run_sweep role_step (λ '(name, s), (diff_role current name s).1)
    (λ p, match roles current !! p.1 with Some s => Some s | None => Some p.2 end)
    (roles desired) (roles current)) as (m & Hrun & Hm).
  - intros k v m' Hk Hm'. unfold diff_role. simpl. rw -Hm'.
    destruct (m' !! k) as [s|] eqn:Hs; simpl; [|done]. by rw partial_alter_same.
  - exists m. split; [done|]. intros k. rw Hm. unfold roles_created; simpl.
    by destruct (roles desired !! k), (roles current !! k).
Qed.

Lemma alters_run m0 :
  (∀ k, m0 !! k = roles_created k) →
  ∃ m, run role_step m0 (diff_roles current desired).1.2 = Some m ∧
    ∀ k, m !! k = roles_altered k.
Proof.
  intros Hm0. unfold diff_roles; simpl.
  destruct (run_sweep role_step (λ '(name, s), (diff_role current name s).2)
    (λ p, Some p.2) (roles desired) m0) as (m & Hrun & Hm).
  - intros k v m' Hk Hm'. rw Hm0 /roles_created Hk in Hm'. unfold diff_role.
    destruct (roles current !! k) as [s|]; simpl.
    + rw run_app. pose proof (changed_attributes_apply s v) as Hdelta.
      assert (run role_step m'
        (if bool_decide (changed_attributes s v = []) then []
         else [Change.AlterRole k (changed_attributes s v)]) =
        Some (<[k := with_comment v (rs_comment s)]> m')) as ->.
      { case_bool_decide as Hch; simpl; [|by rw Hm' /= Hdelta].
        rw Hch /= in Hdelta. by rw insert_id; [|rw Hm' Hdelta]. }
      simpl. case_decide as Hcom; simpl.
      * f_equal. f_equal. rw Hcom. by destruct v.
      * rw lookup_insert_eq /= insert_insert_eq. f_equal. f_equal. by destruct v.
    + case_bool_decide; simpl; [by rw partial_alter_same|].
      rw Hm' /=. f_equal. f_equal.
      destruct (set_all_config (rs_config v) (rs_config v)) as (c & Hrun & Hc).
      rw (apply_config_attributes _ _ _ Hrun).
      replace c with (rs_config v); [by rw with_config_id|].
      apply map_eq. intros i. rw Hc. by destruct (_ !! i).
  - exists m. split; [done|]. intros k. by rw Hm Hm0 /roles_created /roles_altered;
      destruct (roles desired !! k), (roles current !! k).
Qed.

Lemma drops_run m0 :
  (∀ k, m0 !! k = roles_altered k) →
  run role_step m0 (diff_roles current desired).2 = Some (roles desired).
Proof.
  intros Hm0. unfold diff_roles; simpl. rw map_keys_bind.
  destruct (run_sweep role_step (λ p : string * RoleState,
    match roles desired !! p.1 with Some _ => [] | None => [Change.DropRole p.1] end)
    (λ p, roles desired !! p.1) (roles current) m0) as (m & -> & Hm).
  - intros k v m' Hk Hm'. rw Hm0 /roles_altered in Hm'. simpl.
    destruct (roles desired !! k); simpl; [by rw partial_alter_same|done].
  - f_equal. apply map_eq. intros k. rw Hm Hm0 /roles_altered. simpl.
    by destruct (roles current !! k), (roles desired !! k).
Qed.
End role_segments.

(** ** Schemas *)

Section schema_segments.
Context (current desired : RoleGraph).

Definition schema_step (m : gmap string SchemaState) (c : Change) :
    option (gmap string SchemaState) :=
  match c with
  | Change.CreateSchema name owner =>
      Some (<[name := schema_state_of {| es_name := name; es_owner := owner |}]> m)
  | Change.AlterSchemaOwner name owner =>
      _ ← m !! name;
      Some (<[name := {| ss_owner := Some owner;
                         ss_owner_privileges := {[Privilege.Create; Privilege.Usage]} |}]> m)
  | Change.EnsureSchemaOwnerPrivileges name _ privileges =>
      state ← m !! name;
      Some (<[name := {| ss_owner := ss_owner state;
                         ss_owner_privileges := ss_owner_privileges state ∪ privileges |}]> m)
  | _ => None
  end.

(** What an ownership transfer does to the grants. *)
Definition owner_key (name owner : string) : GrantKey := {|
  gk_role := Grantee.Role owner; gk_object_type := ObjectType.Schema;
  gk_schema := None; gk_name := Some name |}.
Definition drop_owner_entry (gs : gmap GrantKey GrantState) (c : Change) :
    gmap GrantKey GrantState :=
  match c with
  | Change.AlterSchemaOwner name owner => delete (owner_key name owner) gs
  | _ => gs
  end.

Definition is_any_schema_change c := is_schema_change c || is_ensure_owner c.

Definition with_schemas_grants g (p : gmap string SchemaState * gmap GrantKey GrantState) :=
  with_grants (with_schemas g p.1) p.2.

Lemma run_schemas g l :
  emits is_any_schema_change l →
  apply_changes g l =
  (λ ss, with_grants (with_schemas g ss) (foldl drop_owner_entry (grants g) l))
    <$> run schema_step (schemas g) l.
Proof.
  intros Hl. rw (run_lens (λ g, (schemas g, grants g)) with_schemas_grants
    (λ p c, (λ ss, (ss, drop_owner_entry p.2 c)) <$> schema_step p.1 c) _ _ _ _ _ _ _ Hl).
  - generalize (schemas g), (grants g). clear Hl.
    induction l as [|c l IH]=> ss gs /=; [done|].
    destruct (schema_step ss c) as [ss'|]; simpl; [|done]. rw -IH.
    done.
  - by intros g' [].
  - done.
  - by intros [].
  - intros g' [] Hc; try done; simpl.
    all: destruct (_ !! _); done.
Qed.

Lemma union_missing (D X : gset Privilege) : X ⊆ D → X ∪ D ∖ X = D.
Proof.
  intros HX. apply set_eq. intros p. destruct (decide (p ∈ X)); set_solver.
Qed.
Lemma no_missing (D X : gset Privilege) : X ⊆ D → D ∖ X = ∅ → X = D.
Proof. intros HX HD. pose proof (union_missing D X HX) as HU. rw HD in HU. set_solver. Qed.

(** The schemas a plan can bring to the desired state: [pgroles] never drops a schema,
    never clears an owner, and only grants an owner its default privileges. *)
Record schemas_manageable : Prop := {
  sm_declared : ∀ s, is_Some (schemas current !! s) → is_Some (schemas desired !! s);
  sm_canonical : ∀ s d, schemas desired !! s = Some d →
    d = schema_state_of {| es_name := s; es_owner := ss_owner d |};
  sm_unowned : ∀ s c d, schemas current !! s = Some c → schemas desired !! s = Some d →
    ss_owner d = None → c = d;
  sm_no_excess : ∀ s c d, schemas current !! s = Some c → schemas desired !! s = Some d →
    ss_owner c = ss_owner d → ss_owner_privileges c ⊆ ss_owner_privileges d;
}.
Context (Hm : schemas_manageable).

Definition schema_created (name : string) (d : SchemaState) : SchemaState :=
  match schemas current !! name with
  | Some c => if decide (ss_owner c = ss_owner d) then c else d
  | None => d
  end.

Lemma schema_changes_run :
  ∃ m, run schema_step (schemas current) (diff_schemas current desired).1 = Some m ∧
    ∀ k, m !! k = schema_created k <$> schemas desired !! k.
Proof.
  unfold diff_schemas; cbn [fst].
  destruct (run_sweep schema_step (λ '(name, s), (diff_schema current name s).1)
    (λ p, Some (schema_created p.1 p.2)) (schemas desired) (schemas current)) as (m & Hrun & H).
  - intros k d m' Hk Hm'. unfold diff_schema, schema_created; cbn [fst snd].
    destruct (schemas current !! k) as [c|] eqn:Hc.
    + case_bool_decide as Ho; simpl.
      * rw decide_False; [|done]. destruct (ss_owner d) as [o|] eqn:Hod.
        -- simpl. rw Hm' /=. f_equal. unfold insert, map_insert. f_equal. f_equal.
           rw (sm_canonical Hm _ _ Hk) Hod /=. done.
        -- by rw (sm_unowned Hm _ _ _ Hc Hk Hod) Hod in Ho.
      * rw decide_True; [|done]. by rw partial_alter_same.
    + simpl. by rw -(sm_canonical Hm _ _ Hk).
  - exists m. split; [done|]. intros k. rw H. destruct (schemas desired !! k) eqn:Hd; [done|].
    simpl. destruct (schemas current !! k) eqn:Hc; [|done].
    destruct (sm_declared Hm k) as [? ?]; [by eexists|congruence].
Qed.

Lemma schema_grants_run m0 :
  (∀ k, m0 !! k = schema_created k <$> schemas desired !! k) →
  run schema_step m0 (diff_schemas current desired).2 = Some (schemas desired).
Proof.
  intros Hm0. unfold diff_schemas; cbn [snd].
  destruct (run_sweep schema_step (λ '(name, s), (diff_schema current name s).2)
    (λ p, Some p.2) (schemas desired) m0) as (m & -> & H).
  - intros k d m' Hk Hm'. rw Hm0 Hk /= in Hm'. unfold diff_schema; cbn [fst snd].
    pose proof (sm_canonical Hm _ _ Hk) as Hcan. unfold schema_created in Hm'.
    destruct (schemas current !! k) as [c|] eqn:Hc;
      [|by destruct (ss_owner d); rw /= partial_alter_same].
    destruct (ss_owner d) as [o|] eqn:Hod.
    2:{ rw (sm_unowned Hm _ _ _ Hc Hk Hod) in Hm'. rw /= partial_alter_same //.
        by case_decide. }
    rw Hcan in Hm' |- *. cbn [schema_state_of ss_owner es_owner ss_owner_privileges] in *.
    destruct (decide (ss_owner c = Some o)) as [Ho|Ho].
    + rw (bool_decide_false (ss_owner c ≠ Some o)); [|tauto].
      pose proof (sm_no_excess Hm _ _ _ Hc Hk) as Hex. rw Hcan /= in Hex. specialize (Hex Ho).
      case_bool_decide as Hmiss; simpl.
      * rw partial_alter_same // Hm'. f_equal. destruct c as [co cp].
        unfold schema_state_of; cbn in *. f_equal; [done|]. by apply no_missing.
      * rw Hm' /=. apply insert_partial_alter. unfold schema_state_of; cbn.
        f_equal; [done|]. by apply union_missing.
    + rw (bool_decide_true (ss_owner c ≠ Some o)); [|done].
      rw bool_decide_false; [|set_solver].
      simpl. rw Hm' /=. apply insert_partial_alter. unfold schema_state_of; cbn. done.
  - f_equal. apply map_eq. intros k. rw H Hm0. by destruct (schemas desired !! k).
Qed.
End schema_segments.

(** ** Grants *)

(** The entries of a key before and after a revoke. *)
Definition shrink (v : option (gset Privilege)) (X : gset Privilege) : option (gset Privilege) :=
  E ← v; if bool_decide (E ∖ X = ∅) then None else Some (E ∖ X).

Definition non_empty (X : gset Privilege) : option (gset Privilege) :=
  if decide (X = ∅) then None else Some X.

Lemma shrink_shrink v X Y : shrink (shrink v X) Y = shrink v (X ∪ Y).
Proof.
  destruct v as [E|]; simpl; [|done].
  assert (E ∖ (X ∪ Y) = E ∖ X ∖ Y) as -> by set_solver.
  case_bool_decide as H1; simpl; [|done]. rw H1. by rw bool_decide_true; [|set_solver].
Qed.

Lemma shrink_Some E X : shrink (Some E) X = non_empty (E ∖ X).
Proof. unfold shrink, non_empty; simpl. by case_bool_decide; case_decide. Qed.

Lemma revoke_entry_shrink {K} `{Countable K} X (m : gmap K (gset Privilege)) k :
  revoke_entry X m k = partial_alter (λ _, shrink (m !! k) X) k m.
Proof.
  unfold revoke_entry. destruct (m !! k) as [E|] eqn:Hk; simpl.
  - by case_bool_decide.
  - by rw partial_alter_same.
Qed.

Definition grant_step (m : gmap GrantKey GrantState) (c : Change) :
    option (gmap GrantKey GrantState) :=
  match c with
  | Change.Grant r X t s n => Some (entry_extend (target_key r t s n) X m)
  | Change.Revoke r X t s n _ =>
      Some (foldl (revoke_entry X) m (affected m (target_key r t s n)))
  | _ => None
  end.

Definition is_grant_change c := is_grant c || is_revoke c.

Lemma run_grants g l :
  emits is_grant_change l →
  apply_changes g l = with_grants g <$> run grant_step (grants g) l.
Proof.
  apply (run_lens grants); try done; [by intros []|]. intros g' [] Hc; done.
Qed.

Lemma grant_step_revoke m k X g :
  is_wildcard k = false →
  grant_step m (change_revoke k X g) = Some (partial_alter (λ _, shrink (m !! k) X) k m).
Proof.
  intros Hw. destruct k as [r t s n]; simpl. unfold target_key, affected. rw Hw /=.
  by rw revoke_entry_shrink.
Qed.

(** Several revokes of one concrete key act as one. *)
Lemma run_revokes m k l :
  is_wildcard k = false → (∀ c, c ∈ l → ∃ Y g, c = change_revoke k Y g) → l ≠ [] →
  ∃ U, (∀ p, p ∈ U ↔ ∃ Y g, change_revoke k Y g ∈ l ∧ p ∈ Y) ∧
    run grant_step m l = Some (partial_alter (λ _, shrink (m !! k) U) k m).
Proof.
  intros Hw. revert m. induction l as [|c l IH]=> m Hl Hne; [done|].
  destruct (Hl c) as (Y & g & ->); [left|].
  cbn [run]. rw grant_step_revoke //=.
  destruct l as [|c' l].
  - exists Y. split; [|done]. intros p. split.
    + intros Hp. exists Y, g. split; [left|done].
    + intros (Y' & g' & Hin & Hp). elem_inv Hin. unfold change_revoke in Hin. by simplify_eq.
  - destruct (IH (partial_alter (λ _, shrink (m !! k) Y) k m)) as (U & HU & Hrun); [|done|].
    { intros c Hc. apply Hl. by right. }
    exists (Y ∪ U). split.
    + intros p. rw elem_of_union HU. split.
      * intros [Hp|(Y' & g' & ? & ?)]; [exists Y, g; split; [left|done]|].
        exists Y', g'. split; [by right|done].
      * intros (Y' & g' & [Heq|Hin]%elem_of_cons & Hp); [|eauto].
        unfold change_revoke in Heq. simplify_eq. by left.
    + cbn [run] in Hrun |- *. rw Hrun lookup_partial_alter_eq shrink_shrink. f_equal.
      by rw partial_alter_partial_alter_eq.
Qed.

Lemma push_exact_run current desired m k X :
  is_wildcard k = false → X ≠ ∅ →
  run grant_step m (push_revokes_exact current desired k X) =
  Some (partial_alter (λ _, shrink (m !! k) X) k m).
Proof.
  intros Hw HX. destruct (push_revokes_exact_spec current desired k X HX) as [Hspec _].
  destruct (run_revokes m k (push_revokes_exact current desired k X) Hw) as (U & HU & ->).
  - intros c Hc. apply elem_of_push_exact in Hc as (Y & g & -> & _); eauto.
  - intros Hnil. apply HX. apply set_eq. intros p. rw Hspec Hnil.
    split; [|set_solver]. by intros (? & ? & []%not_elem_of_nil & _).
  - do 2 f_equal. assert (U = X) as ->; [|done]. apply set_eq. intros p. by rw HU Hspec.
Qed.

Section grant_segments.
Context (current desired : RoleGraph).

(** The incoming schema owners of the plan, and the explicit entries the transfers
    consume. *)
Definition incoming : gset (string * string) :=
  incoming_owners (diff_schemas current desired).1.
Definition consumed (owners : gset (string * string)) : gset GrantKey :=
  set_map (λ p, owner_key p.1 p.2) owners.

(** Graphs whose grants are concrete objects: the names are not ["*"], no entry is
    empty, a schema is not itself inside a schema; and the desired graph does not
    grant a schema to the role that is to own it. *)
Record grants_manageable : Prop := {
  gm_concrete : ∀ k X, grants current !! k = Some X →
    is_wildcard k = false ∧ X ≠ ∅ ∧ (gk_object_type k = ObjectType.Schema → gk_schema k = None);
  gm_concrete_absence : ∀ k A, grant_absences desired !! k = Some A → is_wildcard k = false;
  gm_desired_nonempty : ∀ k X, grants desired !! k = Some X → X ≠ ∅;
  gm_owner_implicit : ∀ name owner, (name, owner) ∈ incoming →
    owner ≠ PUBLIC_ROLE ∧ grants desired !! owner_key name owner = None;
}.

Lemma incoming_owners_app l1 l2 :
  incoming_owners (l1 ++ l2) = incoming_owners l1 ∪ incoming_owners l2.
Proof. unfold incoming_owners. by rw bind_app list_to_set_app_L. Qed.

Lemma drop_owner_entries l gs k :
  foldl drop_owner_entry gs l !! k =
  if decide (k ∈ consumed (incoming_owners l)) then None else gs !! k.
Proof.
  induction l as [|c l IH] using rev_ind; [simpl; case_decide; [set_solver|done]|].
  rw foldl_app incoming_owners_app; cbn [foldl]. unfold consumed in *. rw set_map_union_L.
  destruct c; cbn [drop_owner_entry].
  all: try (rw IH; replace (incoming_owners [_]) with (∅ : gset (string * string)) by done;
    rw set_map_empty (right_id_L ∅); done).
  assert (set_map (λ p, owner_key p.1 p.2) (incoming_owners [Change.AlterSchemaOwner name owner])
    =@{gset GrantKey} {[owner_key name owner]}) as ->.
  { unfold incoming_owners; simpl. rw (right_id_L ∅) set_map_singleton_L. done. }
  destruct (decide (owner_key name owner = k)) as [<-|Hne].
  - rw lookup_delete_eq decide_True //. set_solver.
  - rw lookup_delete_ne // IH. case_decide as H1; case_decide as H2; set_solver.
Qed.

(** Grants after the schema segment, after the grants and after the revokes. *)
Definition grants_owned (k : GrantKey) : option GrantState :=
  if decide (k ∈ consumed incoming) then None else grants current !! k.
Definition grants_added (k : GrantKey) : option GrantState :=
  match grants desired !! k with
  | Some d => Some (default ∅ (grants_owned k) ∪ d)
  | None => grants_owned k
  end.
Definition grants_final (k : GrantKey) : option GrantState :=
  if decide (k ∈ consumed incoming) then None
  else non_empty ((default ∅ (grants current !! k) ∪ default ∅ (grants desired !! k))
                  ∖ revoked current desired k).

Context (Hm : grants_manageable).

Lemma consumed_not_desired k : k ∈ consumed incoming → grants desired !! k = None.
Proof.
  unfold consumed. intros ([n o] & -> & Hin)%elem_of_map.
  by apply (gm_owner_implicit Hm) in Hin as [_ ?].
Qed.

Lemma grants_run m0 :
  (∀ k, m0 !! k = grants_owned k) →
  ∃ m, run grant_step m0 (diff_grants current desired).1 = Some m ∧ ∀ k, m !! k = grants_added k.
Proof.
  intros Hm0.
  assert ((diff_grants current desired).1 = map_iter (grants desired) ≫= present_missing current)
    as -> by (unfold diff_grants; by rw diff_grants_state_eq).
  destruct (run_sweep grant_step (present_missing current)
    (λ p, Some (default ∅ (grants_owned p.1) ∪ p.2)) (grants desired) m0) as (m & Hrun & H).
  - intros k d m' Hk Hm'. rw Hm0 in Hm'. unfold present_missing; simpl.
    assert (grants_owned k = grants current !! k) as Hown.
    { unfold grants_owned. rw decide_False //. intros Hc%consumed_not_desired. congruence. }
    rw Hown in Hm' |- *.
    assert (∀ X, grant_step m' (change_grant k X) =
      Some (partial_alter (λ _, Some (default ∅ (grants current !! k) ∪ X)) k m')) as Hg.
    { intros X. destruct k; simpl. unfold entry_extend. by rw Hm'. }
    destruct (grants current !! k) as [c|]; cbn [run]; [|by rw Hg].
    case_bool_decide as Hd; cbn [run].
    + rw partial_alter_same //. by rw Hm' /= union_covered.
    + by rw Hg /= union_diff.
  - exists m. split; [done|]. intros k. rw H Hm0. unfold grants_added; simpl.
    by destruct (grants desired !! k).
Qed.

Lemma retain_key k X g owners :
  retain_revoke owners (change_revoke k X g) =
  match gk_object_type k, gk_name k with
  | ObjectType.Schema, Some n => bool_decide ((n, grantee_as_str (gk_role k)) ∉ owners)
  | _, _ => true
  end.
Proof. by destruct k as [r [] s [n|]]. Qed.

(** Revokes are dropped exactly on the consumed entries. *)
Lemma retain_consumed k X g E :
  grants current !! k = Some E →
  retain_revoke incoming (change_revoke k X g) = bool_decide (k ∉ consumed incoming).
Proof.
  intros HE. rw retain_key. destruct (gm_concrete Hm _ _ HE) as (_ & _ & Hs).
  assert (k ∈ consumed incoming → gk_object_type k = ObjectType.Schema ∧
    ∃ n, gk_name k = Some n ∧ (n, grantee_as_str (gk_role k)) ∈ incoming) as H1.
  { unfold consumed. intros ([n o] & -> & Hin)%elem_of_map. split; [done|]. by exists n. }
  destruct (gk_object_type k) eqn:Ht.
  all: try (symmetry; apply bool_decide_eq_true; intros Hc; by apply H1 in Hc as [? _]).
  destruct (gk_name k) as [n|] eqn:Hn.
  2:{ symmetry; apply bool_decide_eq_true. intros Hc. by apply H1 in Hc as (_ & ? & ? & _). }
  apply bool_decide_ext. split.
  - intros Hno Hc. apply H1 in Hc as (_ & n' & [= <-] & Hin). done.
  - intros Hno Hin. apply Hno. unfold consumed. apply elem_of_map.
    eexists; split; [|exact Hin]. specialize (Hs eq_refl).
    destruct (gm_owner_implicit Hm _ _ Hin) as [Hpub _].
    destruct k as [[|r] t s nm]; simpl in *; [done|]. unfold owner_key; simpl. by subst.
Qed.

Lemma revoked_current k p :
  p ∈ revoked current desired k → is_wildcard k = false →
  ∃ E, grants current !! k = Some E ∧ p ∈ E.
Proof.
  intros Hp Hw. apply elem_of_revoked in Hp as [(_ & _ & Hp & _)|[_ Hp]].
  - destruct (grants current !! k) as [E|]; simpl in Hp; [by exists E|set_solver].
  - unfold held_privileges in Hp. rw Hw in Hp. case_bool_decide; [set_solver|].
    destruct (grants current !! k) as [E|]; simpl in Hp; [by exists E|set_solver].
Qed.

Lemma revoked_concrete k : revoked current desired k ≠ ∅ → is_wildcard k = false.
Proof.
  intros [p Hp]%set_choose_L. apply elem_of_revoked in Hp as [(_ & _ & Hp & _)|[Hp _]].
  - destruct (grants current !! k) as [E|] eqn:HE; simpl in Hp; [|set_solver].
    by apply (gm_concrete Hm) in HE as [? _].
  - destruct (grant_absences desired !! k) as [A|] eqn:HA; simpl in Hp; [|set_solver].
    by apply (gm_concrete_absence Hm) in HA.
Qed.

(** The revokes of the plan, one key at a time. *)
Definition key_revokes (p : GrantKey * gset Privilege) : list Change :=
  if decide (p.1 ∈ consumed incoming) then [] else push_revokes_exact current desired p.1 p.2.

Lemma filter_bind {A B} (P : B → Prop) `{∀ b, Decision (P b)} (f : A → list B) l :
  filter P (l ≫= f) = l ≫= λ a, filter P (f a).
Proof. induction l as [|a l IH]; simpl; [done|]. by rw filter_app IH. Qed.

Lemma bind_ext_in {A B} (f g : A → list B) l :
  (∀ a, a ∈ l → f a = g a) → l ≫= f = l ≫= g.
Proof.
  induction l as [|a l IH]=> Hfg; simpl; [done|]. f_equal; [apply Hfg; left|].
  apply IH. intros b Hb. apply Hfg. by right.
Qed.

Lemma planned_revokes :
  filter (λ c, retain_revoke incoming c) (diff_grants current desired).2 =
  map_iter (diff_grants_state current desired).2 ≫= key_revokes.
Proof.
  unfold diff_grants. pose proof (revokes_lookup current desired) as Hlk.
  destruct (diff_grants_state current desired) as [out r]; cbn [snd] in *. rw filter_bind.
  apply bind_ext_in. intros [k X] Hin%elem_of_map_iter.
  rw Hlk in Hin. case_decide as Hne; [done|]. simplify_eq.
  pose proof (revoked_concrete _ Hne) as Hw.
  unfold push_revokes_split_by_grantor, key_revokes; cbn [fst snd]. rw Hw. cbn [andb].
  destruct (set_choose_L _ Hne) as [p Hp]. destruct (revoked_current _ _ Hp Hw) as (E & HE & _).
  assert (∀ c, c ∈ push_revokes_exact current desired k (revoked current desired k) →
    retain_revoke incoming c = bool_decide (k ∉ consumed incoming)) as Hret.
  { intros c (Y & g & -> & _)%elem_of_push_exact; [|done]. by eapply retain_consumed. }
  case_decide as Hc.
  - apply list_filter_none. intros c Hin. rw (Hret c Hin). by intros Hb%bool_decide_unpack.
  - apply list_filter_all. intros c Hin. rw (Hret c Hin). by apply bool_decide_pack.
Qed.

Lemma revokes_run m0 :
  (∀ k, m0 !! k = grants_added k) →
  ∃ m, run grant_step m0 (filter (λ c, retain_revoke incoming c) (diff_grants current desired).2)
         = Some m ∧ ∀ k, m !! k = grants_final k.
Proof.
  intros Hm0. rw planned_revokes.
  pose proof (revokes_lookup current desired) as Hlk.
  set (r := (diff_grants_state current desired).2) in *.
  destruct (run_sweep grant_step key_revokes (λ p, if decide (p.1 ∈ consumed incoming)
    then grants_added p.1 else shrink (grants_added p.1) p.2) r m0) as (m & Hrun & H).
  - intros k X m' Hk Hm'. rw Hm0 in Hm'. unfold key_revokes; cbn [fst snd].
    case_decide as Hc; cbn [run]; [by rw partial_alter_same|].
    rw Hlk in Hk. case_decide as Hne; [done|]. simplify_eq.
    rw push_exact_run // ?Hm' //. by apply revoked_concrete.
  - exists m. split; [done|]. intros k. rw H Hm0 Hlk. unfold grants_added, grants_final.
    assert (∀ d, grants desired !! k = Some d → k ∉ consumed incoming) as Hcons.
    { intros d Hd Hc%consumed_not_desired. congruence. }
    unfold grants_owned; cbn [fst snd].
    case_decide as Hne; (case_decide as Hc; [by rw consumed_not_desired|]).
    + rw Hne. assert (∀ X : gset Privilege, X ∖ ∅ = X) as Hdiff by set_solver. rw Hdiff.
      destruct (grants desired !! k) as [d|] eqn:Hd; simpl.
      * unfold non_empty. rw decide_False //. pose proof (gm_desired_nonempty Hm _ _ Hd). set_solver.
      * rw (right_id_L ∅). destruct (grants current !! k) as [E|] eqn:HE; [|done]. simpl.
        unfold non_empty. rw decide_False //. by apply (gm_concrete Hm) in HE as (_ & ? & _).
    + destruct (grants desired !! k) as [d|] eqn:Hd; [by rw shrink_Some|].
      destruct (grants current !! k) as [E|] eqn:HE; rw ?shrink_Some /= (right_id_L ∅) //.
      unfold non_empty. by rw decide_True; [|set_solver].
Qed.
End grant_segments.

(** ** Default privileges *)

Definition default_step (m : gmap DefaultPrivKey DefaultPrivState) (c : Change) :
    option (gmap DefaultPrivKey DefaultPrivState) :=
  match c with
  | Change.SetDefaultPrivilege o s t g X =>
      Some (entry_extend {| dk_owner := o; dk_scope := s; dk_on_type := t; dk_grantee := g |} X m)
  | Change.RevokeDefaultPrivilege o s t g X =>
      Some (revoke_entry X m {| dk_owner := o; dk_scope := s; dk_on_type := t; dk_grantee := g |})
  | _ => None
  end.

Definition is_default_change c := is_set_default c || is_revoke_default c.

Lemma run_defaults g l :
  emits is_default_change l →
  apply_changes g l = with_defaults g <$> run default_step (default_privileges g) l.
Proof.
  apply (run_lens default_privileges); try done; [by intros []|]. intros g' [] Hc; done.
Qed.

Section default_segments.
Context (current desired : RoleGraph).

(** What the plan revokes under a key. *)
Definition default_revoked (k : DefaultPrivKey) : gset Privilege :=
  match default_privileges desired !! k, default_privileges current !! k with
  | Some d, Some c => if is_public (dk_grantee k) then ∅ else c ∖ d
  | None, Some c => if is_public (dk_grantee k) then ∅ else c
  | _, None => ∅
  end ∪
  match default_privilege_absences desired !! k with
  | Some a => a ∩ match default_privileges current !! k with
                  | Some c => c
                  | None => builtin_defaults_for_new_owner current desired k
                  end
  | None => ∅
  end.

Lemma default_present_snd l out r :
  (foldl (default_present_step current) (out, r) l).2 =
  foldl (λ r p, match default_privileges current !! p.1 with
                | None => r
                | Some c => if is_public (dk_grantee p.1) then r
                            else extend_nonempty p.1 (c ∖ p.2) r
                end) r l.
Proof.
  revert out r. induction l as [|[k d] l IH]=> out r; cbn [foldl]; [done|].
  unfold default_present_step at 2. cbn [fst snd].
  destruct (_ !! k) as [c|]; [destruct (is_public (dk_grantee k))|]; apply IH.
Qed.

Definition default_revokes : gmap DefaultPrivKey (gset Privilege) :=
  foldl (default_absence_step current desired)
    (foldl (default_excess_step desired)
      (foldl (default_present_step current) ([], ∅) (map_iter (default_privileges desired))).2
      (map_iter (default_privileges current)))
    (map_iter (default_privilege_absences desired)).

Lemma diff_default_privileges_eq :
  diff_default_privileges current desired =
  (map_iter (default_privileges desired) ≫= λ p,
    match default_privileges current !! p.1 with
    | None => [change_set_default p.1 p.2]
    | Some c => if bool_decide (p.2 ∖ c = ∅) then [] else [change_set_default p.1 (p.2 ∖ c)]
    end,
   map_iter default_revokes ≫= λ p, [change_revoke_default p.1 p.2]).
Proof.
  unfold diff_default_privileges, default_revokes.
  pose proof (default_present_out current ([], ∅) (map_iter (default_privileges desired))) as Hout.
  destruct (foldl (default_present_step current) _ _) as [out r]. cbn [fst snd] in *. subst out.
  f_equal. apply bind_ext_in. by intros [].
Qed.

Lemma default_revokes_lookup k : default ∅ (default_revokes !! k) = default_revoked k.
Proof.
  unfold default_revokes. rw default_present_snd.
  rw (foldl_pointwise _ (λ p, p.2 ∩ match default_privileges current !! p.1 with
    | Some c => c | None => builtin_defaults_for_new_owner current desired p.1 end)).
  2:{ intros r [k' A]. unfold default_absence_step. apply extend_nonempty_lookup. }
  rw (foldl_pointwise _ (λ p, if bool_decide (is_Some (default_privileges desired !! p.1)) ||
    is_public (dk_grantee p.1) then ∅ else p.2)).
  2:{ intros r [k' C]. unfold default_excess_step; simpl. destruct (_ || _);
      [case_decide; by rw ?(right_id_L ∅)|apply entry_extend_lookup]. }
  rw (foldl_pointwise _ (λ p, match default_privileges current !! p.1 with
    | None => ∅ | Some c => if is_public (dk_grantee p.1) then ∅ else c ∖ p.2 end)).
  2:{ intros r [k' D]; simpl. destruct (_ !! k') as [C|];
        [destruct (is_public _)|]; try apply extend_nonempty_lookup;
        case_decide; by rw ?(right_id_L ∅). }
  unfold default_revoked. rw lookup_empty (left_id_L ∅); simpl.
  destruct (default_privileges desired !! k), (default_privileges current !! k);
    simpl; rw ?bool_decide_true ?bool_decide_false //=; destruct (is_public (dk_grantee k)); set_solver.
Qed.

Record defaults_manageable : Prop := {
  dm_current_nonempty : ∀ k X, default_privileges current !! k = Some X → X ≠ ∅;
  dm_desired_nonempty : ∀ k X, default_privileges desired !! k = Some X → X ≠ ∅;
}.
Context (Hm : defaults_manageable).

Definition defaults_added (k : DefaultPrivKey) : option DefaultPrivState :=
  match default_privileges desired !! k with
  | Some d => Some (default ∅ (default_privileges current !! k) ∪ d)
  | None => default_privileges current !! k
  end.
Definition defaults_final (k : DefaultPrivKey) : option DefaultPrivState :=
  non_empty ((default ∅ (default_privileges current !! k) ∪
              default ∅ (default_privileges desired !! k)) ∖ default_revoked k).

Lemma set_defaults_run m0 :
  m0 = default_privileges current →
  ∃ m, run default_step m0 (diff_default_privileges current desired).1 = Some m ∧
    ∀ k, m !! k = defaults_added k.
Proof.
  intros ->. rw diff_default_privileges_eq; cbn [fst].
  destruct (run_sweep default_step (λ p,
    match default_privileges current !! p.1 with
    | None => [change_set_default p.1 p.2]
    | Some c => if bool_decide (p.2 ∖ c = ∅) then [] else [change_set_default p.1 (p.2 ∖ c)]
    end) (λ p, Some (default ∅ (default_privileges current !! p.1) ∪ p.2))
    (default_privileges desired) (default_privileges current)) as (m & Hrun & H).
  - intros k d m' Hk Hm'. cbn [fst snd].
    assert (∀ X, default_step m' (change_set_default k X) =
      Some (partial_alter (λ _, Some (default ∅ (default_privileges current !! k) ∪ X)) k m')) as Hg.
    { intros X. destruct k; simpl. unfold entry_extend. by rw Hm'. }
    destruct (default_privileges current !! k) as [c|]; cbn [run]; [|by rw Hg].
    case_bool_decide as Hd; cbn [run].
    + rw partial_alter_same //. by rw Hm' /= union_covered.
    + by rw Hg /= union_diff.
  - exists m. split; [done|]. intros k. rw H. unfold defaults_added; simpl.
    by destruct (default_privileges desired !! k).
Qed.

Lemma revoke_defaults_run m0 :
  (∀ k, m0 !! k = defaults_added k) →
  ∃ m, run default_step m0 (diff_default_privileges current desired).2 = Some m ∧
    ∀ k, m !! k = defaults_final k.
Proof.
  intros Hm0. rw diff_default_privileges_eq; cbn [snd].
  destruct (run_sweep default_step (λ p, [change_revoke_default p.1 p.2])
    (λ p, shrink (defaults_added p.1) p.2) default_revokes m0) as (m & Hrun & H).
  - intros k X m' Hk Hm'. rw Hm0 in Hm'. destruct k; simpl. by rw revoke_entry_shrink Hm'.
  - exists m. split; [done|]. intros k. rw H Hm0. pose proof (default_revokes_lookup k) as Hlk.
    unfold defaults_final. rw -Hlk. unfold defaults_added; cbn [fst snd].
    destruct (default_revokes !! k) as [X|]; cbn [default].
    + destruct (default_privileges desired !! k) as [d|] eqn:Hd; [by rw shrink_Some|].
      destruct (default_privileges current !! k) as [c|] eqn:Hc;
        rw ?shrink_Some /= (right_id_L ∅) //.
      unfold non_empty. by rw decide_True; [|set_solver].
    + assert (∀ X : gset Privilege, X ∖ ∅ = X) as Hdiff by set_solver. simpl. rw Hdiff.
      destruct (default_privileges desired !! k) as [d|] eqn:Hd; simpl.
      * unfold non_empty. rw decide_False //. pose proof (dm_desired_nonempty Hm _ _ Hd). set_solver.
      * rw (right_id_L ∅). destruct (default_privileges current !! k) as [c|] eqn:Hc; [|done]. simpl.
        unfold non_empty. rw decide_False //. by apply (dm_current_nonempty Hm) in Hc.
Qed.
End default_segments.

(** ** Memberships *)

Abbreviation edge_map := (gmap (string * string) MembershipEdge).

Definition edge_key (e : MembershipEdge) : string * string := (me_role e, me_member e).

(** At most one edge per role and member. *)
Definition edges_functional (X : gset MembershipEdge) : Prop :=
  ∀ e e', e ∈ X → e' ∈ X → edge_key e = edge_key e' → e = e'.

(** A set of edges as a map by role and member. *)
Definition represents (M : edge_map) (X : gset MembershipEdge) : Prop :=
  ∀ k e, M !! k = Some e ↔ (e ∈ X ∧ edge_key e = k).

Lemma membership_map_represents g :
  edges_functional (memberships g) → represents (membership_map g) (memberships g).
Proof.
  intros Hf k e. unfold membership_map. set (l := _ <$> _).
  assert (∀ k e, (k, e) ∈ l ↔ (e ∈ memberships g ∧ edge_key e = k)) as Hl.
  { intros k' e'. unfold l. rw list_elem_of_fmap. split.
    - by intros (x & [= -> ->] & Hx%elem_of_set_iter).
    - intros [Hx <-]. exists e'. by rw elem_of_set_iter. }
  rw -Hl. split; [apply map_collect_Some|]. intros Hin. apply map_collect_lookup; [|done].
  apply Hl in Hin as [He Hk]. intros e' [He' Hk']%Hl. apply Hf; congruence.
Qed.

Lemma represents_eq M X Y : represents M X → represents M Y → X = Y.
Proof.
  intros HX HY. apply set_eq. intros e. split; intros He.
  - assert (M !! edge_key e = Some e) as Hk by by apply HX. by apply HY in Hk as [? _].
  - assert (M !! edge_key e = Some e) as Hk by by apply HY. by apply HX in Hk as [? _].
Qed.

Definition member_step (X : gset MembershipEdge) (c : Change) : option (gset MembershipEdge) :=
  match c with
  | Change.AddMember r m i a =>
      Some (retain_others r m X ∪
            {[ {| me_role := r; me_member := m; me_inherit := i; me_admin := a |} ]})
  | Change.RemoveMember r m _ => Some (retain_others r m X)
  | _ => None
  end.

Definition edge_step (M : edge_map) (c : Change) : option edge_map :=
  match c with
  | Change.AddMember r m i a =>
      Some (<[(r, m) := {| me_role := r; me_member := m; me_inherit := i; me_admin := a |}]> M)
  | Change.RemoveMember r m _ => Some (delete (r, m) M)
  | _ => None
  end.

Lemma edge_step_represents M X c M' :
  represents M X → edge_step M c = Some M' → ∃ X', member_step X c = Some X' ∧ represents M' X'.
Proof.
  intros HM. destruct c; try done; simpl; intros [= <-]; eexists; (split; [done|]); intros k e.
  - rw elem_of_union elem_of_singleton. unfold retain_others. rw elem_of_filter.
    rw lookup_insert_Some HM. unfold edge_key. split.
    + intros [[<- <-]|[Hk [He <-]]]; [by split; [right|]|].
      split; [|done]. left. split; [|done]. intros [? ?]. congruence.
    + intros [[[Hne He]| ->] <-]; [right|by left]. split; [|done]. intros [= -> ->]. by apply Hne.
  - unfold retain_others. rw elem_of_filter lookup_delete_Some HM. unfold edge_key. split.
    + intros [Hk [He <-]]. split; [|done]. split; [|done]. intros [? ?]. congruence.
    + intros [[Hne He] <-]. split; [|done]. intros [= -> ->]. by apply Hne.
Qed.

Lemma run_edges M X l M' :
  represents M X → run edge_step M l = Some M' →
  ∃ X', run member_step X l = Some X' ∧ represents M' X'.
Proof.
  revert M X. induction l as [|c l IH]=> M X HM /=; [intros [= <-]; eauto|].
  destruct (edge_step M c) as [M1|] eqn:Hc; simpl; [|done]. intros Hrun.
  destruct (edge_step_represents _ _ _ _ HM Hc) as (X1 & -> & HX1). simpl. by eapply IH.
Qed.

Definition is_edge_change c :=
  match c with Change.AddMember _ _ _ _ | Change.RemoveMember _ _ _ => true | _ => false end.

Lemma run_memberships g l :
  emits is_edge_change l →
  apply_changes g l = with_memberships g <$> run member_step (memberships g) l.
Proof.
  apply (run_lens memberships); try done; [by intros []|]. intros g' [] Hc; done.
Qed.

Section membership_segments.
Context (current desired : RoleGraph).

(** Both graphs have one edge per pair, and no grantors are recorded, so that
    options change by replacing the edge. *)
Record memberships_manageable : Prop := {
  mm_current : edges_functional (memberships current);
  mm_desired : edges_functional (memberships desired);
  mm_no_grantors : membership_edge_grantors current = ∅;
}.
Context (Hm : memberships_manageable).

Lemma remove_all_plain r m : remove_all_edges current r m = [Change.RemoveMember r m None].
Proof. unfold remove_all_edges. by rw (mm_no_grantors Hm) lookup_empty. Qed.

Definition options_differ (c d : MembershipEdge) : bool :=
  bool_decide (me_inherit c ≠ me_inherit d) || bool_decide (me_admin c ≠ me_admin d).

Definition add_edge (d : MembershipEdge) : Change :=
  Change.AddMember (me_role d) (me_member d) (me_inherit d) (me_admin d).

Lemma diff_membership_plain r m d :
  diff_membership current (membership_map current) (r, m, d) =
  match membership_map current !! (r, m) with
  | None => ([add_edge d], [])
  | Some c => if options_differ c d then ([add_edge d], [Change.RemoveMember r m None])
              else ([], [])
  end.
Proof.
  unfold diff_membership. rw (mm_no_grantors Hm) lookup_empty remove_all_plain. done.
Qed.

Lemma current_edge r m c :
  membership_map current !! (r, m) = Some c → me_role c = r ∧ me_member c = m.
Proof.
  intros Hc. apply (membership_map_represents _ (mm_current Hm)) in Hc as [_ Hc].
  unfold edge_key in Hc. by simplify_eq.
Qed.
Lemma desired_edge r m d :
  membership_map desired !! (r, m) = Some d → me_role d = r ∧ me_member d = m.
Proof.
  intros Hd. apply (membership_map_represents _ (mm_desired Hm)) in Hd as [_ Hd].
  unfold edge_key in Hd. by simplify_eq.
Qed.

Definition edges_removed (k : string * string) : option MembershipEdge :=
  match membership_map current !! k, membership_map desired !! k with
  | Some c, Some d => if options_differ c d then None else Some c
  | _, _ => None
  end.

Lemma edge_removals_run :
  ∃ M, run edge_step (membership_map current) (diff_memberships current desired).2 = Some M ∧
    ∀ k, M !! k = edges_removed k.
Proof.
  unfold diff_memberships; cbn [snd]. rw run_app.
  destruct (run_sweep edge_step (λ p, (diff_membership current (membership_map current) p).2)
    (λ p, match membership_map current !! p.1 with
          | Some c => if options_differ c p.2 then None else Some c | None => None end)
    (membership_map desired) (membership_map current)) as (M1 & -> & H1).
  { intros [r m] d m' Hk Hm'. rw diff_membership_plain. cbn [fst snd].
    destruct (membership_map current !! (r, m)) as [c|]; cbn [snd run]; [|by rw partial_alter_same].
    destruct (options_differ c d); cbn [snd run]; [done|by rw partial_alter_same]. }
  cbn [mbind option_bind]. rw map_keys_bind.
  destruct (run_sweep edge_step (λ p : string * string * MembershipEdge,
      (λ '(role, member), match membership_map desired !! (role, member) with
      | Some _ => [] | None => remove_all_edges current role member end) p.1)
    (λ p, match membership_map desired !! p.1 with
          | Some d => if options_differ p.2 d then None else Some p.2 | None => None end)
    (membership_map current) M1) as (M2 & -> & H2).
  { intros [r m] c m' Hk Hm'. rw H1 Hk in Hm'. cbn [fst snd] in *.
    destruct (membership_map desired !! (r, m)) as [d|]; cbn [run]; [by rw partial_alter_same|].
    by rw remove_all_plain. }
  exists M2. split; [done|]. intros k. rw H2 H1. unfold edges_removed; cbn [fst snd].
  by destruct (membership_map current !! k), (membership_map desired !! k).
Qed.

Lemma edge_additions_run M :
  (∀ k, M !! k = edges_removed k) →
  run edge_step M (diff_memberships current desired).1 = Some (membership_map desired).
Proof.
  intros HM. unfold diff_memberships; cbn [fst].
  destruct (run_sweep edge_step (λ p, (diff_membership current (membership_map current) p).1)
    (λ p, Some p.2) (membership_map desired) M) as (M1 & -> & H1).
  { intros [r m] d m' Hk Hm'. rw diff_membership_plain. cbn [fst snd].
    rw HM /edges_removed Hk in Hm'. destruct (desired_edge _ _ _ Hk) as [Hr Hmem].
    assert (edge_step m' (add_edge d) = Some (<[(r, m) := d]> m')) as Hadd
      by (simpl; rw Hr Hmem; by destruct d; simpl in *; subst).
    destruct (membership_map current !! (r, m)) as [c|] eqn:Hc; cbn [fst run]; [|by rw Hadd].
    destruct (options_differ c d) eqn:Ho; cbn [fst run]; [by rw Hadd|].
    rw partial_alter_same // Hm'. f_equal. destruct (current_edge _ _ _ Hc) as [Hcr Hcm].
    apply orb_false_iff in Ho as [Hi Ha].
    apply bool_decide_eq_false in Hi, Ha. apply dec_stable in Hi, Ha.
    destruct c, d; simpl in *; by subst. }
  f_equal. apply map_eq. intros k. rw H1 HM. unfold edges_removed; cbn [snd].
  destruct (membership_map desired !! k); [done|]. by destruct (membership_map current !! k).
Qed.

Lemma memberships_run :
  ∃ X, run member_step (memberships current) (diff_memberships current desired).2 = Some X ∧
    run member_step X (diff_memberships current desired).1 = Some (memberships desired).
Proof.
  destruct edge_removals_run as (M & Hrun & HM).
  destruct (run_edges _ _ _ _ (membership_map_represents _ (mm_current Hm)) Hrun)
    as (X & HX & Hrep).
  exists X. split; [done|].
  destruct (run_edges _ _ _ _ Hrep (edge_additions_run M HM)) as (Y & -> & HY). f_equal.
  eapply represents_eq; [done|]. apply membership_map_represents, (mm_desired Hm).
Qed.

Lemma membership_changes_plain :
  emits is_edge_change (diff_memberships current desired).1 ∧
  emits is_edge_change (diff_memberships current desired).2.
Proof.
  split; intros c Hc; unfold diff_memberships in Hc; cbn [fst snd] in Hc.
  - apply elem_of_bind_1 in Hc as ([[r m] d] & _ & Hc). rw diff_membership_plain in Hc.
    destruct (_ !! _) as [e|]; [destruct (options_differ e d)|]; cbn [fst] in Hc; elem_inv Hc; by subst.
  - apply elem_of_app in Hc as [Hc|Hc]; apply elem_of_bind_1 in Hc.
    + destruct Hc as ([[r m] d] & _ & Hc). rw diff_membership_plain in Hc.
      destruct (_ !! _) as [e|]; [destruct (options_differ e d)|]; cbn [snd] in Hc; elem_inv Hc; by subst.
    + destruct Hc as ([r m] & _ & Hc). rw remove_all_plain in Hc. elem_inv Hc; by subst.
Qed.
End membership_segments.
