(* ===== verification/Convergence.v ===== *)
(** * The convergence theorems

    Assembles the segments of [Converge]: a plan always executes, its exact effect on
    every key, full convergence on managed graphs, and idempotence. *)

From S2P Require Import Prelude BTree RustStr Types Model Change Diff DiffFacts DiffSafety Interp.
From S2P Require Import Converge.

(** What one plan needs to execute: see the four records of [Converge]. *)
Record manageable (current d : RoleGraph) : Prop := {
  man_schemas : schemas_manageable current d;
  man_grants : grants_manageable current d;
  man_defaults : defaults_manageable current d;
  man_memberships : memberships_manageable current d;
}.

Lemma emits_weaken (k k' : Change → bool) l : emits k l → (∀ c, k c → k' c) → emits k' l.
Proof. intros Hl Hk c Hc. auto. Qed.

Lemma diff_segments current desired :
  let d := aligned current desired in
  diff current desired =
  (diff_roles current d).1.1 ++ (diff_roles current d).1.2 ++
  (diff_schemas current d).1 ++ (diff_schemas current d).2 ++
  (diff_grants current d).1 ++ (diff_default_privileges current d).1 ++
  filter (λ c, retain_revoke (incoming current d) c) (diff_grants current d).2 ++
  (diff_memberships current d).2 ++ (diff_memberships current d).1 ++
  (diff_default_privileges current d).2 ++ (diff_roles current d).2.
Proof.
  cbv zeta. unfold diff, incoming.
  change (resolve_routine_aliases _ _) with (aligned current desired).
  destruct (diff_roles _ _) as [[creates alters] drops].
  destruct (diff_schemas _ _) as [schema_changes schema_grants].
  pose proof (emits_revokes current (aligned current desired)) as Hrev.
  destruct (diff_grants _ _) as [grants revokes].
  destruct (diff_default_privileges _ _) as [set_defaults revoke_defaults].
  destruct (diff_memberships _ _) as [add_members remove_members]. cbn [fst snd] in *.
  case_bool_decide as Ho; [|done]. rw (list_filter_all _ revokes); [done|].
  intros c Hc. rw Ho. apply Hrev in Hc. destruct c; try done. destruct object_type; try done.
  destruct name; [|done]. apply bool_decide_pack, not_elem_of_empty.
Qed.

Section execute.
Context (current desired : RoleGraph).
Let d := aligned current desired.
Context (Hm : manageable current d).

Lemma drop_owner_entries_ensure gs :
  foldl drop_owner_entry gs (diff_schemas current d).2 = gs.
Proof.
  pose proof (emits_schema_grants current d) as Hl.
  revert gs. induction (diff_schemas current d).2 as [|c l IH]=> gs; [done|]. cbn [foldl].
  rw IH; [|intros c' Hc; apply Hl; by right]. specialize (Hl c (list_elem_of_here _ _)).
  by destruct c.
Qed.

Lemma apply_segment g g' l l' :
  apply_changes g l = Some g' → apply_changes g (l ++ l') = apply_changes g' l'.
Proof. intros Hl. by rw apply_changes_app Hl. Qed.

Lemma role_segment g l m :
  emits is_role_change l → run role_step (roles g) l = Some m →
  apply_changes g l = Some (with_roles g m).
Proof. intros Hl Hr. by rw run_roles // Hr. Qed.
Lemma schema_segment g l ss :
  emits is_any_schema_change l → run schema_step (schemas g) l = Some ss →
  apply_changes g l =
    Some (with_grants (with_schemas g ss) (foldl drop_owner_entry (grants g) l)).
Proof. intros Hl Hr. by rw run_schemas // Hr. Qed.
Lemma grant_segment g l m :
  emits is_grant_change l → run grant_step (grants g) l = Some m →
  apply_changes g l = Some (with_grants g m).
Proof. intros Hl Hr. by rw run_grants // Hr. Qed.
Lemma default_segment g l m :
  emits is_default_change l → run default_step (default_privileges g) l = Some m →
  apply_changes g l = Some (with_defaults g m).
Proof. intros Hl Hr. by rw run_defaults // Hr. Qed.
Lemma membership_segment g l m :
  emits is_edge_change l → run member_step (memberships g) l = Some m →
  apply_changes g l = Some (with_memberships g m).
Proof. intros Hl Hr. by rw run_memberships // Hr. Qed.

(** The effect of a plan on every key of the graph. *)
Lemma diff_effect :
  ∃ g, apply_changes current (diff current desired) = Some g ∧
    roles g = roles d ∧ schemas g = schemas d ∧ memberships g = memberships d ∧
    (∀ k, grants g !! k = grants_final current d k) ∧
    (∀ k, default_privileges g !! k = defaults_final current d k) ∧
    routine_aliases g = routine_aliases current.
Proof.
  destruct Hm as [Hs Hg Hd Hmem].
  destruct (creates_run current d) as (m1 & R1 & L1).
  destruct (alters_run current d m1 L1) as (m2 & R2 & L2).
  pose proof (drops_run current d m2 L2) as R3.
  destruct (schema_changes_run current d Hs) as (s1 & S1 & LS1).
  pose proof (schema_grants_run current d Hs s1 LS1) as S2.
  destruct (grants_run current d Hg (foldl drop_owner_entry (grants current) (diff_schemas current d).1))
    as (g1 & G1 & LG1); [apply drop_owner_entries|].
  destruct (revokes_run current d Hg g1 LG1) as (g2 & G2 & LG2).
  destruct (set_defaults_run current d _ eq_refl) as (d1 & D1 & LD1).
  destruct (revoke_defaults_run current d Hd d1 LD1) as (d2 & D2 & LD2).
  destruct (memberships_run current d Hmem) as (X & M1 & M2).
  destruct (membership_changes_plain current d Hmem) as [E1 E2].
  rw diff_segments. cbv zeta. fold d.
  set (L := with_live current). set (gs0 := foldl _ (grants current) _) in *.
  set (ds := default_privileges current). set (ms := memberships current).
  assert (emits is_any_schema_change (diff_schemas current d).1 ∧
          emits is_any_schema_change (diff_schemas current d).2) as [ES1 ES2].
  { split; eapply emits_weaken; [apply emits_schema_changes|by intros []
                                |apply emits_schema_grants|by intros []]. }
  rw (apply_segment _ _ _ _ (role_segment current _ m1 _ R1)).
  2:{ eapply emits_weaken; [apply emits_creates|by intros []]. }
  rw (apply_segment _ _ _ _ (role_segment (with_roles current m1) _ m2 _ R2)).
  2:{ eapply emits_weaken; [apply emits_alters|by intros []]. }
  rw (apply_segment _ _ _ _ (schema_segment (with_roles current m2) _ s1 ES1 S1)).
  rw (apply_segment _ _ _ _ (schema_segment (L m2 s1 gs0 ds ms) _ _ ES2 S2)).
  rw drop_owner_entries_ensure.
  rw (apply_segment _ _ _ _ (grant_segment (L m2 (schemas d) gs0 ds ms) _ g1 _ G1)).
  2:{ eapply emits_weaken; [apply emits_grants|by intros []]. }
  rw (apply_segment _ _ _ _ (default_segment (L m2 (schemas d) g1 ds ms) _ d1 _ D1)).
  2:{ eapply emits_weaken; [apply emits_set_defaults|by intros []]. }
  rw (apply_segment _ _ _ _ (grant_segment (L m2 (schemas d) g1 d1 ms) _ g2 _ G2)).
  2:{ intros c [_ Hc]%list_elem_of_filter. apply emits_revokes in Hc. by destruct c. }
  rw (apply_segment _ _ _ _ (membership_segment (L m2 (schemas d) g2 d1 ms) _ X E2 M1)).
  rw (apply_segment _ _ _ _ (membership_segment (L m2 (schemas d) g2 d1 X) _ _ E1 M2)).
  rw (apply_segment _ _ _ _ (default_segment (L m2 (schemas d) g2 d1 (memberships d)) _ d2 _ D2)).
  2:{ eapply emits_weaken; [apply emits_revoke_defaults|by intros []]. }
  rw (role_segment (L m2 (schemas d) g2 d2 (memberships d)) _ _ _ R3).
  2:{ eapply emits_weaken; [apply emits_drops|by intros []]. }
  eexists. split; [done|by split_and!].
Qed.
End execute.

(** ** A graph that matches has an empty plan *)

Section matching.
Context (current d : RoleGraph).

Lemma bind_nil_in {A B} (f : A → list B) l : (∀ a, a ∈ l → f a = []) → l ≫= f = [].
Proof.
  induction l as [|a l IH]=> Hf; simpl; [done|]. rw (Hf a); [|left].
  apply IH. intros b Hb. apply Hf. by right.
Qed.

Lemma changed_attributes_refl s : changed_attributes s s = [].
Proof.
  unfold changed_attributes, push_if_changed. rw !decide_True //=. apply app_nil. split.
  - apply bind_nil_in. intros [k v] Hin%elem_of_map_iter. by rw decide_True.
  - apply bind_nil_in. intros k [v Hv]%elem_of_map_keys. by rw Hv.
Qed.

Lemma diff_roles_matching : roles current = roles d → diff_roles current d = ([], [], []).
Proof.
  intros Hr. unfold diff_roles. f_equal; [f_equal|]; apply bind_nil_in.
  - intros [k s] Hin%elem_of_map_iter. unfold diff_role. by rw Hr Hin.
  - intros [k s] Hin%elem_of_map_iter. unfold diff_role.
    rw Hr Hin changed_attributes_refl /=. by rw decide_True.
  - intros k [s Hs]%elem_of_map_keys. by rw -Hr Hs.
Qed.

(** Owners hold at least the default owner privileges. *)
Definition owners_complete : Prop :=
  ∀ s st o, schemas d !! s = Some st → ss_owner st = Some o →
    default_schema_owner_privileges o ⊆ ss_owner_privileges st.

Lemma diff_schemas_matching :
  schemas current = schemas d → owners_complete → diff_schemas current d = ([], []).
Proof.
  intros Hs Ho.
  assert (∀ k s, schemas d !! k = Some s → diff_schema current k s = ([], [])) as Hsame.
  { intros k s Hk. unfold diff_schema. rw Hs Hk. rw bool_decide_false; [|tauto].
    destruct (ss_owner s) as [o|] eqn:Hso; [|done].
    specialize (Ho _ _ _ Hk Hso). rw bool_decide_true; [done|]. set_solver. }
  unfold diff_schemas. f_equal; apply bind_nil_in; intros [k s] Hin%elem_of_map_iter; by rw Hsame.
Qed.

Lemma diff_grants_matching :
  grants current = grants d → (∀ k, revoked current d k = ∅) → diff_grants current d = ([], []).
Proof.
  intros Hg Hr. unfold diff_grants. rw diff_grants_state_eq.
  assert ((diff_grants_state current d).2 = ∅) as H2.
  { apply map_eq. intros k. rw revokes_lookup lookup_empty. by rw decide_True. }
  rw diff_grants_state_eq /= in H2. rw H2 map_iter_empty; simpl. f_equal.
  apply bind_nil_in. intros [k X] Hin%elem_of_map_iter. unfold present_missing.
  rw Hg Hin /=. rw bool_decide_true //. set_solver.
Qed.

Lemma foldl_id {A S} (f : S → A → S) l s : (∀ a, a ∈ l → f s a = s) → foldl f s l = s.
Proof.
  induction l as [|a l IH]=> Hf //=. rw Hf; [|left]. apply IH. intros b Hb. apply Hf. by right.
Qed.

Lemma diff_defaults_matching :
  default_privileges current = default_privileges d →
  (∀ k A, default_privilege_absences d !! k = Some A →
     A ∩ match default_privileges current !! k with
         | Some c => c | None => builtin_defaults_for_new_owner current d k end = ∅) →
  diff_default_privileges current d = ([], []).
Proof.
  intros Hd Ha. rw diff_default_privileges_eq.
  assert (default_revokes current d = ∅) as ->.
  { unfold default_revokes. rw default_present_snd.
    rw (foldl_id _ (map_iter (default_privileges d))).
    2:{ intros [k X] Hin%elem_of_map_iter. rw Hd Hin /=. destruct (is_public _); [done|].
        unfold extend_nonempty. rw bool_decide_true //. set_solver. }
    rw (foldl_id _ (map_iter (default_privileges current))).
    2:{ intros [k X] Hin%elem_of_map_iter. simpl. rw -Hd Hin bool_decide_true //. }
    apply foldl_id. intros [k A] Hin%elem_of_map_iter. unfold default_absence_step.
    unfold extend_nonempty. by rw bool_decide_true; [|apply Ha]. }
  rw map_iter_empty. f_equal. apply bind_nil_in. intros [k X] Hin%elem_of_map_iter; simpl.
  rw Hd Hin bool_decide_true //. set_solver.
Qed.

Lemma diff_memberships_matching :
  memberships current = memberships d → diff_memberships current d = ([], []).
Proof.
  intros Hm. assert (membership_map current = membership_map d) as Hmap
    by (unfold membership_map; by rw Hm).
  unfold diff_memberships. rw Hmap.
  assert (∀ p, p ∈ map_iter (membership_map d) →
    diff_membership current (membership_map d) p = ([], [])) as Hsame.
  { intros [[r m] e] Hin%elem_of_map_iter. unfold diff_membership. rw Hin.
    rw !bool_decide_false //; tauto. }
  f_equal; [|apply app_nil; split]; apply bind_nil_in.
  - intros p Hp. by rw Hsame.
  - intros p Hp. by rw Hsame.
  - intros [r m] [e He]%elem_of_map_keys. by rw He.
Qed.
End matching.

Lemma diff_matching current desired :
  let d := aligned current desired in
  graph_matches current d → owners_complete d → (∀ k, revoked current d k = ∅) →
  (∀ k A, default_privilege_absences d !! k = Some A →
     A ∩ match default_privileges current !! k with
         | Some c => c | None => builtin_defaults_for_new_owner current d k end = ∅) →
  diff current desired = [].
Proof.
  intros d (Hr & Hs & Hg & Hd & Hm) Ho Hrev Hab. rw diff_segments; cbv zeta. fold d.
  rw diff_roles_matching // diff_schemas_matching // diff_grants_matching //.
  by rw diff_defaults_matching // diff_memberships_matching.
Qed.

(** ** Theorems *)

(** C13: a plan for manageable graphs always executes, and its effect is exactly this:
    roles, schemas and memberships become the desired ones; the entry of every grant key
    becomes current plus desired minus the revoked privileges (nothing is left of an
    entry an ownership transfer consumes); and likewise for every default privilege. *)
Theorem plan_effect current desired :
  let d := aligned current desired in
  manageable current d →
  ∃ g, apply_changes current (diff current desired) = Some g ∧
    roles g = roles d ∧ schemas g = schemas d ∧ memberships g = memberships d ∧
    (∀ k, grants g !! k =
       if decide (k ∈ consumed (incoming current d)) then None
       else non_empty ((default ∅ (grants current !! k) ∪ default ∅ (grants d !! k))
                       ∖ revoked current d k)) ∧
    (∀ k, default_privileges g !! k =
       non_empty ((default ∅ (default_privileges current !! k) ∪
                   default ∅ (default_privileges d !! k)) ∖ default_revoked current d k)).
Proof.
  cbv zeta. intros Hm. destruct (diff_effect current desired Hm) as (g & H1 & H2 & H3 & H4 & H5 & H6 & _).
  by exists g.
Qed.

(** The current state is entirely under management: nothing the engine must leave
    alone, and the desired state has neither wildcards nor absence assertions. *)
Record fully_managed (current d : RoleGraph) : Prop := {
  fm_inherent : inherent_grants current = ∅;
  fm_public : ∀ k X, grants current !! k = Some X → is_public (gk_role k) = false;
  fm_public_defaults : ∀ k X, default_privileges current !! k = Some X →
    is_public (dk_grantee k) = false;
  fm_concrete : ∀ k X, grants d !! k = Some X → is_wildcard k = false;
  fm_absences : grant_absences d = ∅;
  fm_default_absences : default_privilege_absences d = ∅;
}.

Section converge.
Context (current d : RoleGraph) (Hm : manageable current d) (Hf : fully_managed current d).

Lemma shadowing_none m k : (∀ k X, m !! k = Some X → is_wildcard k = false) → shadowing m k = ∅.
Proof.
  intros Hc. unfold shadowing. destruct (_ && _); [|done].
  destruct (m !! wildcard_of k) as [X|] eqn:HX; [|done]. by apply Hc in HX.
Qed.

Lemma revoked_managed k :
  revoked current d k = default ∅ (grants current !! k) ∖ default ∅ (grants d !! k).
Proof.
  apply set_eq. intros p. rw elem_of_revoked elem_of_difference. unfold drifted, assertion_violated.
  rw (shadowing_none (grants d)); [|apply (fm_concrete _ _ Hf)].
  rw (fm_absences _ _ Hf) (fm_inherent _ _ Hf) lookup_empty shadowing_none; [|by intros ??].
  destruct (grants current !! k) as [X|] eqn:HX; simpl; [|set_solver].
  pose proof (fm_public _ _ Hf _ _ HX). set_solver.
Qed.

Lemma default_revoked_managed k :
  default_revoked current d k =
  default ∅ (default_privileges current !! k) ∖ default ∅ (default_privileges d !! k).
Proof.
  unfold default_revoked. rw (fm_default_absences _ _ Hf) lookup_empty (right_id_L ∅).
  destruct (default_privileges current !! k) as [c|] eqn:Hc;
    [rw (fm_public_defaults _ _ Hf _ _ Hc)|]; destruct (default_privileges d !! k); simpl; set_solver.
Qed.

Lemma keep_desired (C D : gset Privilege) : (C ∪ D) ∖ (C ∖ D) = D.
Proof. apply set_eq. intros p. destruct (decide (p ∈ D)); set_solver. Qed.

Lemma non_empty_default (v : option (gset Privilege)) :
  (∀ X, v = Some X → X ≠ ∅) → non_empty (default ∅ v) = v.
Proof.
  unfold non_empty. destruct v as [X|]; simpl; intros Hne; [|done].
  rw decide_False; [done|by apply Hne].
Qed.

Lemma grants_final_managed k : grants_final current d k = grants d !! k.
Proof.
  unfold grants_final. case_decide as Hc.
  - symmetry. eapply consumed_not_desired; [apply Hm|done].
  - rw revoked_managed keep_desired. apply non_empty_default.
    intros X. apply (gm_desired_nonempty _ _ (man_grants _ _ Hm)).
Qed.

Lemma defaults_final_managed k : defaults_final current d k = default_privileges d !! k.
Proof.
  unfold defaults_final. rw default_revoked_managed keep_desired. apply non_empty_default.
  intros X. apply (dm_desired_nonempty _ _ (man_defaults _ _ Hm)).
Qed.

Lemma owners_complete_manageable : owners_complete d.
Proof.
  intros s st o Hs Ho. rw (sm_canonical _ _ (man_schemas _ _ Hm) _ _ Hs).
  unfold schema_state_of; simpl. by rw Ho.
Qed.
End converge.

Lemma diff_reaches_desired current desired :
  let d := aligned current desired in
  manageable current d → fully_managed current d →
  ∃ g, apply_changes current (diff current desired) = Some g ∧ graph_matches g d ∧
    diff g desired = [].
Proof.
  cbv zeta. set (d := aligned current desired). intros Hm Hf.
  destruct (diff_effect current desired Hm) as (g & H1 & H2 & H3 & H4 & H5 & H6 & H7). fold d in H2, H3, H4, H5, H6.
  assert (graph_matches g d) as Hmatch.
  { split_and!; [done|done|apply map_eq; intros k|apply map_eq; intros k|done].
    - by rw H5 grants_final_managed.
    - by rw H6 defaults_final_managed. }
  exists g. split; [done|]. split; [done|].
  assert (aligned g desired = d) as Hal by (unfold d, aligned; by rw H7).
  apply diff_matching; cbv zeta; rw Hal; [done|by eapply owners_complete_manageable|..].
  - intros k. apply set_eq. intros p. rw elem_of_revoked. unfold drifted, assertion_violated.
    destruct Hmatch as (_ & _ & -> & _). rw (fm_absences _ _ Hf) lookup_empty. set_solver.
  - intros k A. by rw (fm_default_absences _ _ Hf) lookup_empty.
Qed.

(** C1: convergence and idempotence.  From a fully managed current graph, executing the
    plan reaches the desired graph, and planning again from there finds nothing to do. *)
Theorem diff_converges current desired :
  let d := aligned current desired in
  manageable current d → fully_managed current d →
  ∃ g, apply_changes current (diff current desired) = Some g ∧ graph_matches g d ∧
    diff g desired = [].
Proof. apply diff_reaches_desired. Qed.

(** planning a graph against itself finds nothing to do, provided owners hold their
    default privileges and the graph violates none of its own absence assertions. *)
Theorem self_diff_empty g :
  aligned g g = g → owners_complete g →
  (∀ k p, ¬ assertion_violated g g k p) →
  (∀ k A, default_privilege_absences g !! k = Some A →
     A ∩ match default_privileges g !! k with
         | Some c => c | None => builtin_defaults_for_new_owner g g k end = ∅) →
  diff g g = [].
Proof.
  intros Hal Ho Ha Hd. apply diff_matching; cbv zeta; rw Hal; [done|done| |done].
  intros k. apply set_eq. intros p. rw elem_of_revoked.
  split; [intros [(_ & _ & ? & ? & _)|?]; [done|by eapply Ha in H]|set_solver].
Qed.

(** ** A concrete pair of graphs *)

Module Sample.
Definition object (role : string) (t : ObjectType) (schema name : string) : GrantKey := {|
  gk_role := Grantee.Role role; gk_object_type := t; gk_schema := Some schema;
  gk_name := Some name |}.
Definition schema_of (owner : string) : SchemaState :=
  schema_state_of {| es_name := ""; es_owner := Some owner |}.
Definition edge (role member : string) (admin : bool) : MembershipEdge := {|
  me_role := role; me_member := member; me_inherit := true; me_admin := admin |}.
Definition defaults_of (owner grantee : string) : DefaultPrivKey := {|
  dk_owner := owner; dk_scope := DefaultPrivilegeScope.Schema "app";
  dk_on_type := ObjectType.Table; dk_grantee := Grantee.Role grantee |}.
Definition login_role : RoleState :=
  foldl apply_attribute role_state_default
    [RoleAttribute.Login true; RoleAttribute.SetConfig "role" "app"].

(** The application schema changes owner, one role is new and one goes; a grant
    recorded from two grantors drifted, and a membership lost its admin option. *)
Definition current : RoleGraph := {|
  routine_aliases := ∅;
  roles := {["old" := role_state_default; "app" := role_state_default]};
  schemas := {["app" := schema_of "old"]};
  grants := {[object "app" ObjectType.Table "app" "t" := {[Privilege.Select; Privilege.Insert]};
              object "old" ObjectType.View "app" "v" := {[Privilege.Select]};
              owner_key "app" "app" := {[Privilege.Usage]}]};
  default_privileges := {[defaults_of "old" "app" := {[Privilege.Select]}]};
  memberships := {[edge "app" "old" true]};
  grant_absences := ∅; default_privilege_absences := ∅; exclusive_membership_roles := ∅;
  inherent_grants := ∅; membership_edge_grantors := ∅; membership_edge_options := ∅;
  executor_authority_edges := ∅;
  grant_entry_grantors :=
    {[object "app" ObjectType.Table "app" "t" :=
        {["postgres" := {[Privilege.Select]}; "old" := {[Privilege.Insert]}]}]};
|}.
Definition desired : RoleGraph :=
  with_live role_graph_default
    {["app" := role_state_default; "reader" := login_role]}
    {["app" := schema_of "app"; "audit" := schema_of "app"]}
    {[object "app" ObjectType.Table "app" "t" := {[Privilege.Select; Privilege.Update]};
      object "reader" ObjectType.Table "app" "t" := {[Privilege.Select]}]}
    {[defaults_of "app" "reader" := {[Privilege.Select]}]}
    {[edge "app" "old" false; edge "app" "reader" false]}.
End Sample.

(** [concrete H]: enumerate the bindings a lookup in a concrete map can have. *)
Ltac concrete_list H :=
  vm_compute in H; repeat (apply elem_of_cons in H; destruct H as [H|H]; [first [injection H as; subst | subst]|]);
  [..|by apply not_elem_of_nil in H].
Ltac concrete H := apply elem_of_map_to_list in H; concrete_list H.
Ltac concrete_set H := apply elem_of_elements in H; concrete_list H.

Lemma sample_aligned : aligned Sample.current Sample.desired = Sample.desired.
Proof. reflexivity. Qed.

Lemma sample_manageable : manageable Sample.current (aligned Sample.current Sample.desired).
Proof.
  split.
  - split.
    + intros s [st Hs]. concrete Hs. all: vm_compute; eauto.
    + intros s dd Hd. concrete Hd. all: vm_compute; done.
    + intros s c dd Hc Hd. concrete Hd; done.
    + intros s c dd Hc Hd. concrete Hd; concrete Hc; done.
  - split.
    + intros k X Hk. concrete Hk; done.
    + done.
    + intros k X Hk. concrete Hk; done.
    + intros n o Hin. concrete_set Hin. split; [done|by vm_compute].
  - split; intros k X Hk; concrete Hk; done.
  - split; [| |done]; intros e e' He He'; concrete_set He; concrete_set He'; done.
Qed.

Lemma sample_fully_managed : fully_managed Sample.current (aligned Sample.current Sample.desired).
Proof. split; try done; intros k X Hk; concrete Hk; done. Qed.

Lemma plan_effect_witness :
  manageable Sample.current (aligned Sample.current Sample.desired) ∧
  ∃ g, apply_changes Sample.current (diff Sample.current Sample.desired) = Some g ∧
    roles g = roles Sample.desired.
Proof.
  split; [exact sample_manageable|].
  destruct (plan_effect Sample.current Sample.desired sample_manageable) as (g & H1 & H2 & _).
  rw sample_aligned in H2. exists g. split; [exact H1|exact H2].
Defined.

Lemma diff_converges_witness :
  ∃ g, apply_changes Sample.current (diff Sample.current Sample.desired) = Some g ∧
    graph_matches g Sample.desired ∧ diff g Sample.desired = [].
Proof.
  pose proof (diff_converges Sample.current Sample.desired sample_manageable
    sample_fully_managed) as H. cbv zeta in H. rw sample_aligned in H. exact H.
Defined.

Lemma self_diff_empty_witness : diff Sample.desired Sample.desired = [].
Proof.
  apply self_diff_empty; [done| | |done].
  - intros s st o Hs Ho. concrete Hs; vm_compute in Ho; injection Ho as; by subst.
  - intros k p [Hp _]. by apply not_elem_of_empty in Hp.
Defined.

(** The sample's plan and its outcome, evaluated. *)
Example sample_plan :
  phase <$> diff Sample.current Sample.desired = [0; 1; 2; 2; 3; 4; 4; 5; 6; 6; 7; 8; 8; 9; 10].
Proof. vm_compute. reflexivity. Qed.
