(* ===== verification/Plan.v ===== *)
(** * From a diff to a plan ([diff.rs])

    The post-filters every surface applies to a diff: reconciliation modes, external
    and predefined roles, preserved grants, role retirements, password injection and
    the composition [plan_changes]. *)

From S2P Require Import Prelude BTree RustStr Types Model Change Diff.

(** ** Reconciliation modes *)

Definition is_destructive (change : Change) : bool :=
  match change with
  | Change.UpdateMemberOptions _ _ _ (Some false) _ _ => true
  | Change.UpdateMemberOptions _ _ _ _ (Some false) _ => true
  | Change.AlterSchemaOwner _ _
  | Change.Revoke _ _ _ _ _ _
  | Change.RevokeDefaultPrivilege _ _ _ _ _
  | Change.RemoveMember _ _ _
  | Change.DropRole _
  | Change.DropOwned _
  | Change.ReassignOwned _ _
  | Change.TerminateSessions _ => true
  | _ => false
  end.

Definition is_role_drop_or_retirement (change : Change) : bool :=
  match change with
  | Change.DropRole _ | Change.DropOwned _ | Change.ReassignOwned _ _
  | Change.TerminateSessions _ => true
  | _ => false
  end.

Definition owner_transfer (change : Change) : option (string * string) :=
  match change with Change.AlterSchemaOwner name owner => Some (name, owner) | _ => None end.

Definition created_role (change : Change) : option string :=
  match change with Change.CreateRole name _ => Some name | _ => None end.

(** The closure of the first [filter_map]: an update keeps its raised options only. *)
Definition raise_only (change : Change) : option Change :=
  match change with
  | Change.UpdateMemberOptions role member grantor inherit admin binding =>
      let inherit := if decide (inherit = Some false) then None else inherit in
      let admin := if decide (admin = Some false) then None else admin in
      match inherit, admin with
      | None, None => None
      | _, _ => Some (Change.UpdateMemberOptions role member grantor inherit admin binding)
      end
  | _ => Some change
  end.

(** The closure of the second filter. *)
Definition additive_keeps (skipped_owner_transfers : gset (string * string))
    (created_roles : gset string) (change : Change) : bool :=
  match change with
  | Change.EnsureSchemaOwnerPrivileges name owner _ =>
      bool_decide ((name, owner) ∉ skipped_owner_transfers)
  | Change.SetDefaultPrivilege owner (DefaultPrivilegeScope.Schema schema) _ _ _ =>
      bool_decide ((schema, owner) ∉ skipped_owner_transfers)
  | Change.AlterRole name attributes =>
      bool_decide (name ∈ created_roles) &&
      forallb (λ attr, if attr is RoleAttribute.SetConfig _ _ then true else false) attributes
  | Change.SetComment _ _ => false
  | _ => negb (is_destructive change)
  end.

Definition filter_additive_changes (changes : list Change) : list Change :=
  let skipped_owner_transfers := list_to_set (omap owner_transfer changes) in
  let created_roles := list_to_set (omap created_role changes) in
  filter (λ c, additive_keeps skipped_owner_transfers created_roles c) (omap raise_only changes).

Definition filter_changes (changes : list Change) (mode : ReconciliationMode) : list Change :=
  match mode with
  | ReconciliationMode.Authoritative => changes
  | ReconciliationMode.Additive => filter_additive_changes changes
  | ReconciliationMode.Adopt => filter (λ c, negb (is_role_drop_or_retirement c)) changes
  end.

Definition adopt_schema_owner_transfers (mode : ReconciliationMode) (changes : list Change) :
    list (string * string) :=
  if decide (mode = ReconciliationMode.Adopt) then omap owner_transfer changes else [].

Definition additive_ignores_absence_assertions (desired : RoleGraph) (mode : ReconciliationMode) :
    bool :=
  bool_decide (mode = ReconciliationMode.Additive) &&
  (bool_decide (grant_absences desired ≠ ∅) ||
   bool_decide (default_privilege_absences desired ≠ ∅) ||
   bool_decide (exclusive_membership_roles desired ≠ ∅)).

(** ** External and predefined roles *)

(** [external_roles], [exclusive_roles], [declared_edges] *)
Definition external_role_names (roles : list RoleDefinition) : gset string :=
  list_to_set (rd_name <$> filter (λ r, rd_external r) roles).
Definition exclusive_role_names (memberships : list Membership) : gset string :=
  list_to_set (mb_role <$> filter (λ m, mb_exclusive m) memberships).
Definition declared_edge_set (memberships : list Membership) : gset (string * string) :=
  list_to_set (memberships ≫= λ m, (λ member, (mb_role m, ms_name member)) <$> mb_members m).

(** The closure [unmanaged]. *)
Definition unmanaged (external_roles : gset string) (name : string) : bool :=
  bool_decide (name ∈ external_roles) || is_predefined_role name.

Definition external_keeps (external_roles exclusive_roles : gset string)
    (declared_edges : gset (string * string)) (change : Change) : bool :=
  match change with
  | Change.CreateRole name _ | Change.AlterRole name _ | Change.SetComment name _
  | Change.SetPassword name _ | Change.DropRole name => negb (unmanaged external_roles name)
  | Change.TerminateSessions role | Change.DropOwned role | Change.ReassignOwned role _ =>
      negb (unmanaged external_roles role)
  | Change.AddMember role member _ _ | Change.UpdateMemberOptions role member _ _ _ _ =>
      negb (unmanaged external_roles role) || bool_decide ((role, member) ∈ declared_edges)
  | Change.RemoveMember role member _ =>
      negb (unmanaged external_roles role) || bool_decide ((role, member) ∈ declared_edges) ||
      (bool_decide (role ∈ exclusive_roles) && negb (is_predefined_role member))
  | _ => true
  end.

Definition filter_external_role_changes (changes : list Change) (roles : list RoleDefinition)
    (memberships : list Membership) : list Change :=
  filter (λ c, external_keeps (external_role_names roles) (exclusive_role_names memberships)
                 (declared_edge_set memberships) c) changes.

(** ** Preserved grants *)

Definition preserved_role_names (roles : list RoleDefinition) : gset string :=
  list_to_set (rd_name <$> filter (λ r, rd_preserve_undeclared_grants r) roles).

(** The exact revokes split off a wildcard revoke, one per absence key it covers. *)
Definition exact_enforced (key : GrantKey) (privileges wildcard_enforced : gset Privilege)
    (grantor : option string) (p : GrantKey * gset Privilege) : list Change :=
  let '(absence_key, absent) := p in
  if bool_decide (gk_role absence_key ≠ gk_role key) ||
     bool_decide (gk_object_type absence_key ≠ gk_object_type key) ||
     bool_decide (gk_schema absence_key ≠ gk_schema key) ||
     match gk_name absence_key with None => true | Some value => String.eqb value "*" end
  then []
  else
    let exact := (privileges ∩ absent) ∖ wildcard_enforced in
    if bool_decide (exact = ∅) then []
    else [Change.Revoke (gk_role key) exact (gk_object_type key) (gk_schema key)
            (gk_name absence_key) grantor].

(** The [flat_map] closure past its two guards: what is left of a revoke on a role
    whose undeclared grants are preserved. *)
Definition preserve_revoke (desired : RoleGraph) (key : GrantKey) (privileges : gset Privilege)
    (grantor : option string) : list Change :=
  let wildcard_key := {| gk_role := gk_role key; gk_object_type := gk_object_type key;
                         gk_schema := gk_schema key; gk_name := Some "*" |} in
  let wildcard_enforced :=
    match grant_absences desired !! wildcard_key with
    | Some absent => privileges ∩ absent
    | None => ∅
    end in
  if negb (is_wildcard key) then
    let enforced :=
      match grant_absences desired !! key with
      | Some absent => wildcard_enforced ∪ (privileges ∩ absent)
      | None => wildcard_enforced
      end in
    if bool_decide (enforced = ∅) then [] else [change_revoke key enforced grantor]
  else
    (if bool_decide (wildcard_enforced = ∅) then []
     else [change_revoke key wildcard_enforced grantor]) ++
    (map_iter (grant_absences desired) ≫=
       exact_enforced key privileges wildcard_enforced grantor).

Definition preserve_change (preserved : gset string) (desired : RoleGraph) (change : Change) :
    list Change :=
  match change with
  | Change.Revoke role privileges object_type schema name grantor =>
      if bool_decide (grantee_as_str role ∉ preserved) then [change]
      else preserve_revoke desired
             {| gk_role := role; gk_object_type := object_type; gk_schema := schema;
                gk_name := name |} privileges grantor
  | _ => [change]
  end.

Definition filter_preserved_grant_revokes (changes : list Change) (roles : list RoleDefinition)
    (desired : RoleGraph) : list Change :=
  let preserved := preserved_role_names roles in
  if bool_decide (preserved = ∅) then changes
  else changes ≫= preserve_change preserved desired.

(** ** Retirements *)

Definition retirement_steps (name : string) (retirement : RoleRetirement) : list Change :=
  (if rr_terminate_sessions retirement then [Change.TerminateSessions name] else []) ++
  match rr_reassign_owned_to retirement with
  | Some successor => [Change.ReassignOwned name successor]
  | None => []
  end ++
  (if rr_drop_owned retirement then [Change.DropOwned name] else []).

Definition retire_change (retirement_by_role : gmap string RoleRetirement) (change : Change) :
    list Change :=
  match change with
  | Change.DropRole name =>
      match retirement_by_role !! name with
      | Some retirement => retirement_steps name retirement
      | None => []
      end ++ [change]
  | _ => [change]
  end.

Definition apply_role_retirements (changes : list Change) (retirements : list RoleRetirement) :
    list Change :=
  if bool_decide (length retirements = 0) then changes
  else
    let retirement_by_role := map_collect ((λ r, (rr_role r, r)) <$> retirements) in
    changes ≫= retire_change retirement_by_role.

(** ** The structural plan *)

Definition plan_changes (current desired : RoleGraph) (manifest : PolicyManifest)
    (expanded : ExpandedManifest) (mode : ReconciliationMode) : list Change :=
  let desired := resolve_routine_aliases desired (routine_aliases current) in
  let changes := apply_role_retirements (diff current desired) (pm_retirements manifest) in
  let changes := filter_changes changes mode in
  let changes := filter_external_role_changes changes (em_roles expanded) (em_memberships expanded) in
  filter_preserved_grant_revokes changes (em_roles expanded) desired.

(** ** Warnings *)

Definition format_privileges (privileges : gset Privilege) : string :=
  join ", " (privilege_to_string <$> set_iter privileges).

Definition holds_any (state absent : gset Privilege) : bool := bool_decide (state ∩ absent ≠ ∅).

Definition unenforceable_warning (current : RoleGraph) (p : GrantKey * gset Privilege) :
    list string :=
  let '(key, absent) := p in
  if is_wildcard key then
    let covered :=
      take_while (λ p, in_scope key p.1) (map_range (range_start key) (grants current)) in
    if existsb (λ p, bool_decide (p.1 ∈ inherent_grants current) && holds_any p.2 absent) covered
    then ["ensure: absent of " +:+ format_privileges absent +:+ " on " +:+
          object_type_to_string (gk_object_type key) +:+ " " +:+
          dq (default "" (gk_schema key)) +:+ "." +:+ dq "*" +:+ " for " +:+
          dq (grantee_as_str (gk_role key)) +:+
          " cannot be fully enforced — the grantee owns some covered objects, so those privileges are inherent"]
    else []
  else if bool_decide (key ∈ inherent_grants current) &&
          match grants current !! key with Some state => holds_any state absent | None => false end
  then ["ensure: absent of " +:+ format_privileges absent +:+ " on " +:+
        object_type_to_string (gk_object_type key) +:+ " for " +:+
        dq (grantee_as_str (gk_role key)) +:+
        " cannot be enforced — the grantee owns the object, so those privileges are inherent"]
  else [].

Definition unenforceable_absence_warnings (current desired : RoleGraph) : list string :=
  let desired := resolve_routine_aliases desired (routine_aliases current) in
  map_iter (grant_absences desired) ≫= unenforceable_warning current.

(** ** Passwords *)

Module PasswordResolutionError.
Inductive PasswordResolutionError : Set :=
  | MissingEnvVar (role env_var : string)
  | EmptyPassword (role env_var : string).
End PasswordResolutionError.
Abbreviation PasswordResolutionError := PasswordResolutionError.PasswordResolutionError.

Section passwords.
(** [std::env::var]: the value of a variable that is set and valid Unicode. *)
Context (env_var : string → option string).

(** The loop body of [resolve_passwords]. *)
Definition resolve_password (resolved : gmap string string) (role : RoleDefinition) :
    res PasswordResolutionError (gmap string string) :=
  if rd_external role then Ok resolved
  else
    match rd_password role with
    | None => Ok resolved
    | Some source =>
        match env_var (ps_from_env source) with
        | None =>
            Err (PasswordResolutionError.MissingEnvVar (rd_name role) (ps_from_env source))
        | Some value =>
            if String.eqb value ""
            then Err (PasswordResolutionError.EmptyPassword (rd_name role) (ps_from_env source))
            else Ok (<[rd_name role := value]> resolved)
        end
    end.

Definition resolve_passwords (roles : list RoleDefinition) :
    res PasswordResolutionError (gmap string string) :=
  fold_res resolve_password ∅ roles.
End passwords.

Section injection.
(** [scram::compute_verifier] draws a fresh salt at each call; the first argument
    numbers the calls. *)
Context (compute_verifier : nat → string → string).

(** The first loop, over the changes of the plan. *)
Definition inject_created (resolved_passwords : gmap string string) (result : list Change)
    (change : Change) : list Change :=
  match created_role change with
  | Some name =>
      match resolved_passwords !! name with
      | Some password =>
          result ++ [change; Change.SetPassword name (compute_verifier (length result) password)]
      | None => result ++ [change]
      end
  | None => result ++ [change]
  end.

(** The second loop, over the resolved passwords. *)
Definition inject_existing (created_roles : gset string) (result : list Change)
    (p : string * string) : list Change :=
  let '(role_name, password) := p in
  if bool_decide (role_name ∈ created_roles) then result
  else result ++ [Change.SetPassword role_name (compute_verifier (length result) password)].

Definition inject_password_changes (changes : list Change)
    (resolved_passwords : gmap string string) : list Change :=
  if bool_decide (resolved_passwords = ∅) then changes
  else
    let created_roles := list_to_set (omap created_role changes) in
    foldl (inject_existing created_roles)
      (foldl (inject_created resolved_passwords) [] changes)
      (map_iter resolved_passwords).
End injection.
