(* ===== verification/PlanFacts.v ===== *)
(** * Theorems on plans

    What each filter of [Plan] guarantees, whatever list of changes it is given, and
    what [plan_changes] therefore guarantees of a whole plan. *)

From S2P Require Import Prelude BTree RustStr Types Model Change Diff DiffFacts DiffSafety.
From S2P Require Import Interp Plan.

(** ** Modes *)

Lemma elem_of_additive changes c :
  c ∈ filter_additive_changes changes ↔
  (additive_keeps (list_to_set (omap owner_transfer changes))
     (list_to_set (omap created_role changes)) c ∧
   ∃ c0, c0 ∈ changes ∧ raise_only c0 = Some c).
Proof. unfold filter_additive_changes. by rw list_elem_of_filter list_elem_of_omap. Qed.

Lemma additive_not_destructive changes c :
  c ∈ filter_additive_changes changes → is_destructive c = false.
Proof.
  intros [Hk (c0 & _ & Hr)]%elem_of_additive.
  destruct c; try done; simpl in Hk; try (by apply negb_True, Is_true_false in Hk).
Qed.

Definition is_grantlike (c : Change) : bool :=
  match c with
  | Change.CreateRole _ _ | Change.CreateSchema _ _ | Change.Grant _ _ _ _ _
  | Change.SetDefaultPrivilege _ DefaultPrivilegeScope.Global _ _ _
  | Change.AddMember _ _ _ _ | Change.SetPassword _ _ => true
  | _ => false
  end.

(** additive mode never removes: what is left of any list of changes is
    non-destructive, rewrites no comment, alters only roles the same plan creates, and
    lowers no membership option; whatever only creates or grants is kept. *)
Theorem additive_filter_spec changes c :
  (c ∈ filter_changes changes ReconciliationMode.Additive →
     is_destructive c = false ∧
     match c with
     | Change.SetComment _ _ => False
     | Change.AlterRole name _ => ∃ s, Change.CreateRole name s ∈ changes
     | Change.UpdateMemberOptions _ _ _ i a _ => i ≠ Some false ∧ a ≠ Some false
     | Change.EnsureSchemaOwnerPrivileges name owner _ =>
         Change.AlterSchemaOwner name owner ∉ changes
     | _ => True
     end) ∧
  (c ∈ changes → is_grantlike c → c ∈ filter_changes changes ReconciliationMode.Additive).
Proof.
  simpl. split.
  - intros Hc. pose proof (additive_not_destructive _ _ Hc) as Hd. split; [done|].
    apply elem_of_additive in Hc as [Hk _]. destruct c; try done; simpl in Hk.
    + apply bool_decide_unpack in Hk. intros Hin. apply Hk, elem_of_list_to_set, list_elem_of_omap.
      by eexists.
    + apply andb_True in Hk as [Hk _]. apply bool_decide_unpack, elem_of_list_to_set in Hk.
      apply list_elem_of_omap in Hk as (c0 & Hin & Hc0). destruct c0; simplify_eq/=. eauto.
    + destruct inherit as [[]|], admin as [[]|]; done.
  - intros Hin Hg. apply elem_of_additive. destruct c; try done; simpl in *; eauto.
    destruct scope; [|done]. eauto.
Qed.

(** adopt mode removes exactly the role drops and their retirement steps, and
    authoritative mode nothing. *)
Theorem adopt_filter_spec changes c :
  (c ∈ filter_changes changes ReconciliationMode.Adopt ↔
   c ∈ changes ∧ match c with
                 | Change.DropRole _ | Change.DropOwned _ | Change.ReassignOwned _ _
                 | Change.TerminateSessions _ => False
                 | _ => True
                 end) ∧
  filter_changes changes ReconciliationMode.Authoritative = changes.
Proof.
  split; [|done]. simpl. rw list_elem_of_filter. by destruct c; simpl; tauto.
Qed.

(** *** Additive plans only add *)

(** [g'] holds every role, schema, grant, default privilege and membership of [g]. *)
Record extends (g g' : RoleGraph) : Prop := {
  ext_roles : ∀ r, is_Some (roles g !! r) → is_Some (roles g' !! r);
  ext_schemas : ∀ s, is_Some (schemas g !! s) → is_Some (schemas g' !! s);
  ext_grants : ∀ k, default ∅ (grants g !! k) ⊆ default ∅ (grants g' !! k);
  ext_defaults : ∀ k, default ∅ (default_privileges g !! k) ⊆ default ∅ (default_privileges g' !! k);
  ext_memberships : ∀ e, e ∈ memberships g →
    ∃ e', e' ∈ memberships g' ∧ me_role e' = me_role e ∧ me_member e' = me_member e;
}.

#[export] Instance extends_preorder : PreOrder extends.
Proof.
  split.
  - intros g. split; eauto.
  - intros g1 g2 g3 [R1 S1 G1 D1 M1] [R2 S2 G2 D2 M2]. split; auto.
    + intros k. etrans; [apply G1|apply G2].
    + intros k. etrans; [apply D1|apply D2].
    + intros e (e' & He' & <- & <-)%M1. auto.
Qed.

Lemma extend_subseteq {K} `{Countable K} (k k' : K) (X : gset Privilege) m :
  default ∅ (m !! k') ⊆ default ∅ (entry_extend k X m !! k').
Proof.
  unfold entry_extend. destruct (decide (k = k')) as [<-|].
  - rw lookup_insert_eq /=. set_solver.
  - by rw lookup_insert_ne.
Qed.

Lemma insert_keeps {A} (m : gmap string A) k k' v : is_Some (m !! k') → is_Some (<[k := v]> m !! k').
Proof. intros ?. apply lookup_insert_is_Some'. by right. Qed.

Lemma apply_change_extends g c g' :
  is_destructive c = false → apply_change g c = Some g' → extends g g'.
Proof.
  destruct c; try done; simpl; intros _.
  all: try (intros [= <-]).
  all: try (intros (st & Hst & [= <-])%bind_Some).
  all: split; simpl; eauto using insert_keeps, extend_subseteq.
  intros e He. destruct (decide (me_role e = role ∧ me_member e = member)) as [[<- <-]|Hne].
  - eexists; split; [apply elem_of_union_r, elem_of_singleton; reflexivity|done].
  - exists e. split; [|done]. apply elem_of_union_l. unfold retain_others. by apply elem_of_filter.
Qed.

(** executing an additive plan, whatever changes it was filtered from, takes nothing
    away: every role, schema, granted privilege, default privilege and membership of the
    state before is there after. *)
Theorem additive_execution_extends g changes g' :
  apply_changes g (filter_changes changes ReconciliationMode.Additive) = Some g' → extends g g'.
Proof.
  simpl. assert (∀ c, c ∈ filter_additive_changes changes → is_destructive c = false) as Hl
    by (intros c; apply additive_not_destructive).
  revert g Hl. generalize (filter_additive_changes changes) as l.
  induction l as [|c l IH]=> g Hl /=; [by intros [= <-]|].
  intros (g1 & H1 & H2)%bind_Some. etrans.
  - eapply apply_change_extends; [apply Hl; left|done].
  - eapply IH; [|done]. intros c' Hc'. apply Hl. by right.
Qed.

(** ** External and predefined roles *)

Lemma elem_of_names {A} (f : A → bool) (name : A → string) l x :
  x ∈ (list_to_set (name <$> filter (λ a, f a) l) : gset string) ↔
  (∃ a, a ∈ l ∧ f a ∧ name a = x).
Proof.
  rw elem_of_list_to_set list_elem_of_fmap. split.
  - intros (a & -> & [Hf Ha]%list_elem_of_filter). eauto.
  - intros (a & Ha & Hf & <-). exists a. split; [done|]. by apply list_elem_of_filter.
Qed.

(** A role whose object is owned elsewhere. *)
Definition is_unmanaged (roles : list RoleDefinition) (name : string) : Prop :=
  (∃ r, r ∈ roles ∧ rd_external r ∧ rd_name r = name) ∨ is_predefined_role name.

Definition is_declared (memberships : list Membership) (role member : string) : Prop :=
  ∃ m s, m ∈ memberships ∧ s ∈ mb_members m ∧ mb_role m = role ∧ ms_name s = member.

Lemma unmanaged_spec roles name :
  unmanaged (external_role_names roles) name ↔ is_unmanaged roles name.
Proof.
  unfold unmanaged, is_unmanaged. rw orb_True bool_decide_spec.
  unfold external_role_names. by rw (elem_of_names rd_external rd_name).
Qed.

Lemma declared_spec memberships role member :
  (role, member) ∈ declared_edge_set memberships ↔ is_declared memberships role member.
Proof.
  unfold declared_edge_set, is_declared. rw elem_of_list_to_set list_elem_of_bind. split.
  - intros (m & (s & [= -> ->] & Hs)%list_elem_of_fmap & Hm). eauto 6.
  - intros (m & s & Hm & Hs & <- & <-). exists m. split; [|done]. apply list_elem_of_fmap. eauto.
Qed.

(** on an external or predefined role a plan keeps no lifecycle change at all; it
    touches only declared memberships, and revokes an undeclared one only when the stanza
    is exclusive and the member is not itself predefined.  Every other change is kept. *)
Theorem external_filter_spec changes roles memberships c :
  c ∈ filter_external_role_changes changes roles memberships ↔
  c ∈ changes ∧
  match c with
  | Change.CreateRole role _ | Change.AlterRole role _ | Change.SetComment role _
  | Change.SetPassword role _ | Change.DropRole role | Change.TerminateSessions role
  | Change.DropOwned role | Change.ReassignOwned role _ => ¬ is_unmanaged roles role
  | Change.AddMember role member _ _ | Change.UpdateMemberOptions role member _ _ _ _ =>
      is_unmanaged roles role → is_declared memberships role member
  | Change.RemoveMember role member _ =>
      is_unmanaged roles role →
      is_declared memberships role member ∨
      ((∃ m, m ∈ memberships ∧ mb_exclusive m ∧ mb_role m = role) ∧
       is_predefined_role member = false)
  | _ => True
  end.
Proof.
  unfold filter_external_role_changes. rw list_elem_of_filter.
  assert (∀ r, negb (unmanaged (external_role_names roles) r) ↔ ¬ is_unmanaged roles r) as Hneg
    by (intros r; by rw negb_True unmanaged_spec).
  assert (∀ r, is_unmanaged roles r ∨ ¬ is_unmanaged roles r) as Hdec.
  { intros r. rw -unmanaged_spec. destruct (unmanaged _ r); simpl; tauto. }
  destruct c; simpl; rw ?orb_True ?andb_True ?bool_decide_spec ?Hneg ?declared_spec; try tauto.
  1,2: destruct (Hdec role); tauto.
  unfold exclusive_role_names. rw (elem_of_names mb_exclusive mb_role) negb_True Is_true_false.
  destruct (Hdec role); tauto.
Qed.

(** ** Preserved grants *)

(** The privileges of a revoke under [key] that the manifest asserts absent. *)
Definition asserted (desired : RoleGraph) (key : GrantKey) (p : Privilege) : Prop :=
  p ∈ default ∅ (grant_absences desired !! key) ∨
  p ∈ default ∅ (grant_absences desired !! wildcard_of key).

Lemma wildcard_of_wildcard key : is_wildcard key → wildcard_of key = key.
Proof.
  unfold is_wildcard, wildcard_of. intros Hw%bool_decide_unpack. destruct key; simpl in *. by subst.
Qed.

Lemma lookup_inter (m : gmap GrantKey (gset Privilege)) k X p :
  p ∈ match m !! k with Some A => X ∩ A | None => ∅ end ↔ (p ∈ X ∧ p ∈ default ∅ (m !! k)).
Proof. destruct (m !! k); simpl; set_solver. Qed.

Lemma elem_of_preserve_revoke desired key X g c :
  c ∈ preserve_revoke desired key X g →
  ∃ k Y, c = change_revoke k Y g ∧ Y ≠ ∅ ∧ Y ⊆ X ∧
    (k = key ∨ (is_wildcard key ∧ is_wildcard k = false ∧ in_scope key k)) ∧
    ∀ p, p ∈ Y → asserted desired k p.
Proof.
  unfold preserve_revoke. change {| gk_role := gk_role key |} with (wildcard_of key).
  set (W := match grant_absences desired !! wildcard_of key with
            | Some absent => X ∩ absent | None => ∅ end).
  assert (∀ p, p ∈ W ↔ (p ∈ X ∧ p ∈ default ∅ (grant_absences desired !! wildcard_of key))) as HW
    by (intros p; apply lookup_inter).
  destruct (is_wildcard key) eqn:Hwild; cbn [negb]; intros Hc.
  - apply elem_of_app in Hc as [Hc|Hc].
    + elem_inv Hc. exists key, W. split_and!; [done|done|set_solver|by left|].
      intros p [_ ?]%HW. by right.
    + apply elem_of_bind_1 in Hc as ([k A] & Hin%elem_of_map_iter & Hc). unfold exact_enforced in Hc.
      destruct (_ || _) eqn:Hg; [elem_inv Hc|].
      rw !orb_false_iff in Hg. destruct Hg as [[[Hr Ht] Hs] Hn].
      apply bool_decide_eq_false, dec_stable in Hr, Ht, Hs. elem_inv Hc.
      exists k, ((X ∩ A) ∖ W). split_and!; [|done|set_solver|right|].
      * subst c. unfold change_revoke. by rw Hr Ht Hs.
      * split_and!; [done| |by apply in_scope_spec]. unfold is_wildcard.
        apply bool_decide_eq_false. intros Heq. by rw Heq in Hn.
      * intros p Hp. left. rw Hin /=. set_solver.
  - elem_inv Hc. eexists key, _. split_and!; [exact Hc|done| |by left|].
    + destruct (grant_absences desired !! key); set_solver.
    + intros p Hp. unfold asserted. destruct (grant_absences desired !! key); simpl; set_solver.
Qed.

Lemma preserve_revoke_complete desired key X g p :
  p ∈ X → asserted desired key p →
  ∃ Y, change_revoke key Y g ∈ preserve_revoke desired key X g ∧ p ∈ Y.
Proof.
  unfold preserve_revoke. change {| gk_role := gk_role key |} with (wildcard_of key).
  set (W := match grant_absences desired !! wildcard_of key with
            | Some absent => X ∩ absent | None => ∅ end).
  assert (∀ p, p ∈ W ↔ (p ∈ X ∧ p ∈ default ∅ (grant_absences desired !! wildcard_of key))) as HW
    by (intros q; apply lookup_inter).
  intros Hp Ha. unfold asserted in Ha. destruct (is_wildcard key) eqn:Hwild; cbn [negb].
  - assert (p ∈ W) as HpW.
    { apply HW. rw wildcard_of_wildcard in Ha |- *; [|by rw Hwild]. tauto. }
    exists W. split; [|done]. apply elem_of_app. left. rw bool_decide_false; [left|set_solver].
  - set (E := match grant_absences desired !! key with Some absent => W ∪ X ∩ absent | None => W end).
    assert (p ∈ E) as HpE.
    { unfold E. destruct (grant_absences desired !! key); simpl in *; set_solver. }
    exists E. split; [|done]. rw bool_decide_false; [left|set_solver].
Qed.

Definition is_preserved (roles : list RoleDefinition) (name : string) : Prop :=
  ∃ r, r ∈ roles ∧ rd_preserve_undeclared_grants r ∧ rd_name r = name.

Lemma preserved_spec roles name : name ∈ preserved_role_names roles ↔ is_preserved roles name.
Proof. apply (elem_of_names rd_preserve_undeclared_grants rd_name). Qed.

Lemma elem_of_preserved changes roles desired c :
  c ∈ filter_preserved_grant_revokes changes roles desired →
  c ∈ changes ∨
  ∃ k k0 X Y g, change_revoke k0 X g ∈ changes ∧
    c = change_revoke k Y g ∧ Y ≠ ∅ ∧ Y ⊆ X ∧
    (k = k0 ∨ (is_wildcard k0 ∧ is_wildcard k = false ∧ in_scope k0 k)) ∧
    ∀ p, p ∈ Y → asserted desired k p.
Proof.
  unfold filter_preserved_grant_revokes. case_bool_decide; [by left|]. intros Hc.
  apply elem_of_bind_1 in Hc as (c0 & Hc0 & Hc). destruct c0; simpl in Hc; elem_inv Hc; subst; auto.
  apply elem_of_preserve_revoke in Hc as (k & Y & -> & ? & ? & ? & ?). right.
  exists k, (target_key role object_type schema name), privileges, Y, grantor. done.
Qed.

Lemma preserved_only_asserted changes roles desired k Y g p :
  change_revoke k Y g ∈ filter_preserved_grant_revokes changes roles desired → p ∈ Y →
  is_preserved roles (grantee_as_str (gk_role k)) → asserted desired k p.
Proof.
  unfold filter_preserved_grant_revokes. intros Hc Hp Hpres%preserved_spec.
  case_bool_decide as He; [set_solver|].
  apply elem_of_bind_1 in Hc as (c0 & Hc0 & Hc).
  destruct c0; simpl in Hc; elem_inv Hc; unfold change_revoke in Hc; simplify_eq; try done.
  apply elem_of_preserve_revoke in Hc as (k' & Y' & [= H1 H2 H3 H4 H5 H6] & _ & _ & _ & Ha).
  assert (k = k') as -> by (destruct k, k'; simpl in *; by subst). subst. auto.
Qed.

(** on a role that preserves its undeclared grants, the plan revokes exactly what an
    [ensure: absent] rule names: nothing else survives the filter, and every asserted
    privilege of a revoke still does, under the same key and grantor.  Changes to other
    roles, and changes other than revokes, pass unchanged. *)
Theorem preserved_filter_spec changes roles desired :
  let out := filter_preserved_grant_revokes changes roles desired in
  (∀ k Y g p, change_revoke k Y g ∈ out → p ∈ Y →
     is_preserved roles (grantee_as_str (gk_role k)) → asserted desired k p) ∧
  (∀ k X g p, change_revoke k X g ∈ changes → p ∈ X → asserted desired k p →
     ∃ Y, change_revoke k Y g ∈ out ∧ p ∈ Y) ∧
  (∀ c, c ∈ changes →
     match c with
     | Change.Revoke r _ _ _ _ _ => ¬ is_preserved roles (grantee_as_str r)
     | _ => True
     end → c ∈ out).
Proof.
  cbv zeta. split_and!; [apply preserved_only_asserted|..]; unfold filter_preserved_grant_revokes.
  - intros k X g p Hc Hp Ha. case_bool_decide as He; [by exists X|].
    destruct (decide (grantee_as_str (gk_role k) ∈ preserved_role_names roles)) as [Hin|Hin].
    + destruct (preserve_revoke_complete desired k X g p Hp Ha) as (Y & HY & ?).
      exists Y. split; [|done]. eapply elem_of_bind_2; [exact Hc|]. simpl.
      rw bool_decide_false; [|tauto]. by destruct k.
    + exists X. split; [|done]. eapply elem_of_bind_2; [exact Hc|]. simpl.
      rw bool_decide_true; [left|done].
  - intros c Hc Hk. case_bool_decide as He; [done|]. eapply elem_of_bind_2; [exact Hc|].
    destruct c; simpl; try left. rw bool_decide_true; [left|]. by rw preserved_spec.
Qed.

(** ** Retirements *)

Definition is_retirement_step (c : Change) : bool :=
  match c with
  | Change.TerminateSessions _ | Change.ReassignOwned _ _ | Change.DropOwned _ => true
  | _ => false
  end.

(** The retirement declared for a role: the last one of the list. *)
Definition retirement_of (retirements : list RoleRetirement) : gmap string RoleRetirement :=
  map_collect ((λ r, (rr_role r, r)) <$> retirements).

Lemma apply_role_retirements_eq changes retirements :
  apply_role_retirements changes retirements =
  changes ≫= retire_change (retirement_of retirements).
Proof.
  unfold apply_role_retirements. destruct retirements as [|r l]; [|done]. simpl.
  assert (∀ c, retire_change (retirement_of []) c = [c]) as Hc by (by intros []).
  induction changes as [|c changes IH]; cbn [mbind list_bind]; [done|]. rw Hc. simpl. by f_equal.
Qed.

(** retirement steps are inserted directly before the drop of their role, in the order
    terminate, reassign, drop owned, and nothing else changes: the plan before a drop, the
    role's steps, the drop, the plan after it; erasing the steps gives back the plan. *)
Theorem retirements_spec retirements before name after :
  let apply l := apply_role_retirements l retirements in
  (apply (before ++ Change.DropRole name :: after) =
   apply before ++
   match retirement_of retirements !! name with
   | Some r =>
       (if rr_terminate_sessions r then [Change.TerminateSessions name] else []) ++
       match rr_reassign_owned_to r with Some to => [Change.ReassignOwned name to] | None => [] end ++
       (if rr_drop_owned r then [Change.DropOwned name] else [])
   | None => []
   end ++ Change.DropRole name :: apply after) ∧
  (∀ l, (∀ c, c ∈ l → is_retirement_step c = false) →
        filter (λ c, negb (is_retirement_step c)) (apply l) = l).
Proof.
  cbv zeta. split.
  - rw !apply_role_retirements_eq bind_app. f_equal. simpl. rw -!app_assoc. simpl.
    by destruct (_ !! name).
  - intros l Hl. rw apply_role_retirements_eq.
    induction l as [|c l IH]; simpl; [done|]. rw filter_app IH; [|intros c' Hc; apply Hl; by right].
    assert (filter (λ c, negb (is_retirement_step c)) [c] = [c]) as Hc.
    { rw filter_cons decide_True //. rw (Hl c); [done|left]. }
    destruct c; try done; [exfalso; by specialize (Hl _ (list_elem_of_here _ _))..|].
    cbn [retire_change]. rw filter_app Hc.
    assert (∀ r, filter (λ c, negb (is_retirement_step c)) (retirement_steps name0 r) = []) as Hs.
    { intros r. unfold retirement_steps. by destruct r as [? [?|] [] []]. }
    by destruct (retirement_of retirements !! name0); simpl; rw ?Hs.
Qed.

(** ** Passwords *)

Section password_facts.
Context (compute_verifier : nat → string → string).

Definition password_target (c : Change) : option string :=
  match c with Change.SetPassword name _ => Some name | _ => None end.

(** The passwords set for a role by a list of changes. *)
Definition password_count (name : string) (l : list Change) : nat :=
  length (filter (λ c, password_target c = Some name) l).

Lemma password_count_app name l1 l2 :
  password_count name (l1 ++ l2) = password_count name l1 + password_count name l2.
Proof. unfold password_count. by rw filter_app length_app. Qed.

Definition creations (name : string) (l : list Change) : nat :=
  length (filter (λ c, created_role c = Some name) l).

Lemma creations_app name l1 l2 : creations name (l1 ++ l2) = creations name l1 + creations name l2.
Proof. unfold creations. by rw filter_app length_app. Qed.

(** First loop: one password per creation of a role that has one. *)
Lemma inject_created_count resolved name l out :
  (∀ c, c ∈ l → password_target c = None) →
  password_count name (foldl (inject_created compute_verifier resolved) out l) =
  password_count name out +
  (if decide (is_Some (resolved !! name)) then creations name l else 0).
Proof.
  revert out. induction l as [|c l IH]=> out Hl; cbn [foldl].
  { unfold creations; simpl. case_decide; lia. }
  rw IH; [|intros c' Hc; apply Hl; by right].
  assert (password_target c = None) as Hc by (apply Hl; left).
  assert (creations name (c :: l) =
    (if decide (created_role c = Some name) then 1 else 0) + creations name l) as ->.
  { unfold creations. rw filter_cons. repeat case_decide; try done; lia. }
  assert (password_count name [c] = 0) as H0.
  { unfold password_count. rw filter_cons decide_False; [done|by rw Hc]. }
  unfold inject_created. destruct (created_role c) as [n|] eqn:Hn.
  - destruct (resolved !! n) as [pw|] eqn:Hpw; rw password_count_app.
    + assert (∀ v, password_count name [c; Change.SetPassword n v] =
        if decide (n = name) then 1 else 0) as Hcount.
      { intros v. unfold password_count in *. rw filter_cons decide_False; [|by rw Hc].
        rw filter_cons. simpl. repeat case_decide; simplify_eq; done. }
      rw Hcount. destruct (decide (n = name)) as [->|Hne].
      * rw !decide_True //. lia.
      * repeat case_decide; simplify_eq; lia.
    + rw H0. destruct (decide (n = name)) as [->|Hne].
      * destruct (decide (is_Some (resolved !! name))) as [[? Hs]|_]; [congruence|lia].
      * repeat case_decide; simplify_eq; lia.
  - rw password_count_app H0. repeat case_decide; try done; lia.
Qed.

(** Second loop: one password per resolved role that is not created. *)
Lemma inject_existing_count created name l out :
  NoDup l.*1 →
  password_count name (foldl (inject_existing compute_verifier created) out l) =
  password_count name out + (if decide (name ∈ l.*1 ∧ name ∉ created) then 1 else 0).
Proof.
  revert out. induction l as [|[n pw] l IH]=> out; cbn [foldl].
  { intros _. destruct (decide _) as [[[]%not_elem_of_nil _]|_]. lia. }
  simpl. intros [Hn Hnd]%NoDup_cons. rw IH //. case_bool_decide as Hc.
  - destruct (decide (name ∈ l.*1 ∧ name ∉ created)) as [[? ?]|Hno].
    + rw decide_True; [done|]. split; [by right|done].
    + rw decide_False; [done|]. intros [[->|?]%elem_of_cons ?]; [done|tauto].
  - rw password_count_app. unfold password_count at 2. rw filter_cons. simpl.
    destruct (decide (n = name)) as [->|Hne].
    + repeat case_decide; simpl; try lia; exfalso; set_solver.
    + repeat case_decide; simplify_eq; simpl; try lia; exfalso; set_solver.
Qed.

Lemma created_iff name l :
  name ∈ (list_to_set (omap created_role l) : gset string) ↔ creations name l ≠ 0.
Proof.
  rw elem_of_list_to_set list_elem_of_omap. unfold creations. split.
  - intros (c & Hc & Hn) Hl%nil_length_inv.
    assert (c ∈ filter (λ c, created_role c = Some name) l) as Hin by by apply list_elem_of_filter.
    rw Hl in Hin. by apply not_elem_of_nil in Hin.
  - intros Hl. destruct (filter _ l) as [|c k] eqn:Hf; [done|].
    assert (c ∈ filter (λ c, created_role c = Some name) l) as [? ?]%list_elem_of_filter
      by (rw Hf; left). eauto.
Qed.

Lemma inject_created_erase resolved l out :
  (∀ c, c ∈ l → password_target c = None) →
  filter (λ c, password_target c = None) (foldl (inject_created compute_verifier resolved) out l) =
  filter (λ c, password_target c = None) out ++ l.
Proof.
  revert out. induction l as [|c l IH]=> out Hl; cbn [foldl]; [by rw app_nil_r|].
  rw IH; [|intros c' Hc; apply Hl; by right].
  assert (password_target c = None) as Hc by (apply Hl; left).
  assert (filter (λ c, password_target c = None) [c] = [c]) as H1
    by (rw filter_cons decide_True //).
  assert (∀ n v, filter (λ c, password_target c = None) [c; Change.SetPassword n v] = [c]) as H2.
  { intros n v. rw filter_cons decide_True //. }
  unfold inject_created. destruct (created_role c) as [n|]; [destruct (resolved !! n)|];
    rw filter_app ?H1 ?H2 -app_assoc //.
Qed.

Lemma inject_existing_erase created l out :
  filter (λ c, password_target c = None) (foldl (inject_existing compute_verifier created) out l) =
  filter (λ c, password_target c = None) out.
Proof.
  revert out. induction l as [|[n pw] l IH]=> out; cbn [foldl]; [done|].
  rw IH. simpl. case_bool_decide; [done|]. rw filter_app. by rw app_nil_r.
Qed.
End password_facts.

(** password injection sets the password of every resolved role exactly once and of no
    other role, and erasing the password changes gives back the plan. *)
Theorem inject_passwords_spec compute_verifier changes resolved :
  (∀ c, c ∈ changes → password_target c = None) →
  (∀ name, creations name changes ≤ 1) →
  let out := inject_password_changes compute_verifier changes resolved in
  (∀ name, password_count name out = if decide (is_Some (resolved !! name)) then 1 else 0) ∧
  filter (λ c, password_target c = None) out = changes.
Proof.
  intros Hl Hcr. cbv zeta. unfold inject_password_changes. case_bool_decide as He.
  - subst. split; [|by apply list_filter_all]. intros name. rw lookup_empty.
    destruct (decide _) as [[]|_]; [done|].
    unfold password_count. rw list_filter_none; [done|]. intros c Hc. by rw (Hl c Hc).
  - split.
    + intros name. rw inject_existing_count; [|apply NoDup_map_keys].
      rw inject_created_count //. change (password_count name []) with 0.
      change (map_iter resolved).*1 with (map_keys resolved). specialize (Hcr name).
      pose proof (elem_of_map_keys resolved name) as Hk.
      pose proof (created_iff name changes) as Hc.
      destruct (decide (creations name changes = 0)) as [H0|H0];
        repeat case_decide; (lia || (exfalso; tauto)).
    + by rw inject_existing_erase inject_created_erase.
Qed.

(** ** Whole plans *)

Lemma elem_of_filter_changes changes mode c :
  c ∈ filter_changes changes mode →
  (mode = ReconciliationMode.Additive → is_destructive c = false) ∧
  (mode = ReconciliationMode.Adopt → is_role_drop_or_retirement c = false) ∧
  (is_revoke c → c ∈ changes).
Proof.
  destruct mode; simpl; intros Hc; split_and!; try done.
  - intros _. by eapply additive_not_destructive.
  - intros Hr. apply additive_not_destructive in Hc. by destruct c.
  - intros _. apply list_elem_of_filter in Hc as [Hn _]. by apply negb_True, Is_true_false in Hn.
  - intros _. by apply list_elem_of_filter in Hc as [_ ?].
Qed.

Lemma elem_of_retired changes retirements c :
  c ∈ apply_role_retirements changes retirements → is_revoke c → c ∈ changes.
Proof.
  rw apply_role_retirements_eq. intros Hc Hr. apply elem_of_bind_1 in Hc as (c0 & Hc0 & Hc).
  assert (∀ name r, c ∉ retirement_steps name r) as Hsteps.
  { intros name r Hin. unfold retirement_steps in Hin. destruct r as [n [to|] [] []]; simpl in Hin;
      elem_inv Hin; by subst. }
  destruct c0; simpl in Hc; elem_inv Hc; subst; try done.
  destruct (_ !! name); [by apply Hsteps in Hc|elem_inv Hc].
Qed.

Section plan.
Context (current desired : RoleGraph) (manifest : PolicyManifest)
  (expanded : ExpandedManifest) (mode : ReconciliationMode).
Let d := aligned current desired.

Lemma elem_of_plan c :
  c ∈ plan_changes current desired manifest expanded mode →
  ∃ c0, c0 ∈ filter_changes (apply_role_retirements (diff current d) (pm_retirements manifest)) mode ∧
    external_keeps (external_role_names (em_roles expanded))
      (exclusive_role_names (em_memberships expanded))
      (declared_edge_set (em_memberships expanded)) c0 ∧
    (c = c0 ∨ ∃ k k0 X Y g, c0 = change_revoke k0 X g ∧ c = change_revoke k Y g ∧ Y ≠ ∅ ∧ Y ⊆ X ∧
       (k = k0 ∨ (is_wildcard k0 ∧ is_wildcard k = false ∧ in_scope k0 k)) ∧
       ∀ p, p ∈ Y → asserted d k p).
Proof.
  unfold plan_changes. change (resolve_routine_aliases _ _) with d.
  unfold filter_external_role_changes. intros Hc. apply elem_of_preserved in Hc.
  destruct Hc as [Hc|(k & k0 & X & Y & g & Hc & -> & H1 & H2 & H3 & H4)];
    apply list_elem_of_filter in Hc as [Hk Hc]; eexists; split_and!; eauto 12.
Qed.

(** A revoke of the plan comes from a revoke of the diff. *)
Lemma plan_revoke_origin r X t s n g :
  Change.Revoke r X t s n g ∈ plan_changes current desired manifest expanded mode →
  ∃ k0 X0, change_revoke k0 X0 g ∈ diff current d ∧ X ⊆ X0 ∧
    (k0 = target_key r t s n ∨
     (is_wildcard k0 ∧ is_wildcard (target_key r t s n) = false ∧ in_scope k0 (target_key r t s n))).
Proof.
  intros (c0 & Hc0 & _ & Hc)%elem_of_plan.
  apply elem_of_filter_changes in Hc0 as (_ & _ & Hrev).
  destruct Hc as [<-|(k & k0 & X0 & Y & g' & -> & Heq & Hne & Hsub & Hk & _)].
  - exists (target_key r t s n), X. split_and!; [|done|by left].
    eapply elem_of_retired; [apply Hrev|]; done.
  - unfold change_revoke in Heq. simplify_eq. exists k0, X0.
    split_and!; [eapply elem_of_retired; [apply Hrev|]; done|done|].
    destruct k as [r t s n]; simpl in *. by destruct Hk as [<-|?]; [left|right].
Qed.
End plan.


Lemma plan_keeps_inherent current desired manifest expanded mode r X t s n g :
  Change.Revoke r X t s n g ∈ plan_changes current desired manifest expanded mode →
  target_key r t s n ∉ inherent_grants current ∧
  (n = Some "*" → ∀ k, k ∈ inherent_grants current → in_scope (target_key r t s n) k = false).
Proof.
  intros (k0 & X0 & Hc & _ & Hk)%plan_revoke_origin.
  apply diff_revoke_not_inherent in Hc as [Hi Hw].
  destruct k0 as [r0 t0 s0 n0]. unfold target_key in *; simpl in *.
  destruct Hk as [[= -> -> -> ->]|(Hwild & Hnw & Hs)]; [done|].
  apply bool_decide_unpack in Hwild. simpl in Hwild. specialize (Hw Hwild). split.
  - intros Hin. apply Hw in Hin. by rw Hin in Hs.
  - intros ->. by unfold is_wildcard in Hnw.
Qed.

(** C11: the structural plan of every surface keeps the promises of its mode and of the
    manifest, whatever the live state: in additive mode nothing destructive, in adopt mode
    no role drop or retirement step, never a lifecycle change of an external or predefined
    role, never a revoke from an owner-inherent entry, and from a role that preserves its
    undeclared grants only what an absence rule names. *)
Theorem plan_changes_safe current desired manifest expanded mode c :
  c ∈ plan_changes current desired manifest expanded mode →
  (mode = ReconciliationMode.Additive → is_destructive c = false) ∧
  (mode = ReconciliationMode.Adopt → is_role_drop_or_retirement c = false) ∧
  match c with
  | Change.CreateRole role _ | Change.AlterRole role _ | Change.SetComment role _
  | Change.DropRole role | Change.TerminateSessions role
  | Change.DropOwned role | Change.ReassignOwned role _ => ¬ is_unmanaged (em_roles expanded) role
  | Change.Revoke r X t s n _ =>
      target_key r t s n ∉ inherent_grants current ∧
      (is_preserved (em_roles expanded) (grantee_as_str r) →
       ∀ p, p ∈ X → asserted (aligned current desired) (target_key r t s n) p)
  | _ => True
  end.
Proof.
  intros Hc. pose proof Hc as Hc'. apply elem_of_plan in Hc' as (c0 & Hc0 & Hext & Hcase).
  apply elem_of_filter_changes in Hc0 as (Hadd & Hadopt & _). split_and!.
  - intros Hmode. specialize (Hadd Hmode).
    by destruct Hcase as [<-|(k & k0 & X & Y & g & -> & _ & _)].
  - intros Hmode. specialize (Hadopt Hmode).
    by destruct Hcase as [<-|(k & k0 & X & Y & g & -> & -> & _)].
  - destruct c; try done.
    all: try (destruct Hcase as [<-|(k & k0 & X & Y & g & _ & ? & _)]; [|done];
      simpl in Hext; by apply negb_True in Hext; rw -unmanaged_spec).
    split; [by apply plan_keeps_inherent in Hc as [? _]|]. intros Hpres p Hp.
    by eapply preserved_only_asserted.
Qed.
