(* ===== verification/Sql.v ===== *)
(** * SQL generation ([sql.rs])

    Every [Change] is rendered into statements; a plan is rendered as one batch that
    becomes the recorded grantor around the revokes that need it.  An [unreachable!]
    of the source is [Panic]. *)

From Stdlib Require Import Ascii.
From S2P Require Import Prelude BTree RustStr Types Model Change Guc Diff Plan.

(** ** Quoting *)

Definition quote_ident (identifier : string) : string :=
  DQ +:+ replace_char dq_char (DQ +:+ DQ) identifier +:+ DQ.

Definition quote_literal (value : string) : string :=
  "'" +:+ replace_char sq_char "''" value +:+ "'".

(** ** Rendering context *)

Record SqlContext := {
  pg_major_version : Z;
  object_inventory : gmap (ObjectType * string) (list string);
  owned_relations : gset (string * ObjectType * string * string);
  execution_role : option string;
}.

(** [SqlContext::from_version_num]: [i32] division truncates. *)
Definition from_version_num (version_num : Z) : SqlContext := {|
  pg_major_version := Z.quot version_num 10000;
  object_inventory := ∅; owned_relations := ∅; execution_role := None |}.

(** [SqlContext::default] *)
Definition sql_context_default : SqlContext := {|
  pg_major_version := 16; object_inventory := ∅; owned_relations := ∅; execution_role := None |}.

Definition with_execution_role (ctx : SqlContext) (role : option string) : SqlContext := {|
  pg_major_version := pg_major_version ctx; object_inventory := object_inventory ctx;
  owned_relations := owned_relations ctx; execution_role := role |}.
Definition with_object_inventory (ctx : SqlContext)
    (inventory : gmap (ObjectType * string) (list string)) : SqlContext := {|
  pg_major_version := pg_major_version ctx; object_inventory := inventory;
  owned_relations := owned_relations ctx; execution_role := execution_role ctx |}.
Definition with_owned_relations (ctx : SqlContext)
    (owned : gset (string * ObjectType * string * string)) : SqlContext := {|
  pg_major_version := pg_major_version ctx; object_inventory := object_inventory ctx;
  owned_relations := owned; execution_role := execution_role ctx |}.

Definition grantee_owns_relation (ctx : SqlContext) (role : Grantee) (object_type : ObjectType)
    (schema name : string) : bool :=
  match role with
  | Grantee.Role role_name =>
      bool_decide ((role_name, object_type, schema, name) ∈ owned_relations ctx)
  | Grantee.Public => false
  end.

Definition supports_grant_with_options (ctx : SqlContext) : bool :=
  (16 <=? pg_major_version ctx)%Z.

(** ** Errors *)

Module SqlRenderError.
Inductive SqlRenderError : Set :=
  | UnsupportedMembershipOptions
  | UnattributedMembershipReplacement
  | EmptyMembershipOptions
  | MixedMembershipOptions
  | InvalidMembershipExpectation
  | UnresolvedMembershipOptions.
End SqlRenderError.
Abbreviation SqlRenderError := SqlRenderError.SqlRenderError.

(** [binding.is_some_and(p)] *)
Definition binding_and (binding : option MembershipOptionBinding)
    (p : MembershipOptionBinding → bool) : bool :=
  match binding with Some b => p b | None => false end.

Definition expects_absent (b : MembershipOptionBinding) : bool :=
  match mob_expected b with MembershipExpectedState.Absent => true | _ => false end.

Definition creates_false (b : MembershipOptionBinding) : bool :=
  match mob_set_effect b with MembershipSetEffect.CreateFalse => true | _ => false end.

(** The expected state of the named grantor must be what the full snapshot says. *)
Definition expectation_mismatch (grantor : string) (b : MembershipOptionBinding) : bool :=
  bool_decide (mob_expected_edges b = ∅) ||
  match mob_expected b with
  | MembershipExpectedState.Absent => bool_decide (is_Some (mob_expected_edges b !! grantor))
  | MembershipExpectedState.Present options =>
      bool_decide (mob_expected_edges b !! grantor ≠ Some options)
  end.

Definition validate_membership_options (change : Change) (ctx : SqlContext) :
    res SqlRenderError unit :=
  match change with
  | Change.UpdateMemberOptions _ _ grantor inherit admin binding =>
      let lowered := bool_decide (inherit = Some false) || bool_decide (admin = Some false) in
      let raised := bool_decide (inherit = Some true) || bool_decide (admin = Some true) in
      _ ← throw_if (negb (supports_grant_with_options ctx))
            SqlRenderError.UnsupportedMembershipOptions;
      _ ← throw_if (lowered && raised) SqlRenderError.MixedMembershipOptions;
      _ ← throw_if (bool_decide (inherit = None) && bool_decide (admin = None))
            SqlRenderError.EmptyMembershipOptions;
      _ ← throw_if (match binding with None => true | Some b => String.eqb (mob_executor b) "" end)
            SqlRenderError.UnresolvedMembershipOptions;
      _ ← throw_if (binding_and binding (expectation_mismatch grantor))
            SqlRenderError.InvalidMembershipExpectation;
      _ ← throw_if (binding_and binding (λ b, xorb (expects_absent b) (creates_false b)))
            SqlRenderError.InvalidMembershipExpectation;
      throw_if (binding_and binding expects_absent && lowered)
        SqlRenderError.InvalidMembershipExpectation
  | _ => Ok tt
  end.

(** ** Keywords *)

Definition sql_object_type_keyword (t : ObjectType) : string :=
  match t with
  | ObjectType.Table | ObjectType.View | ObjectType.MaterializedView => "TABLE"
  | ObjectType.Sequence => "SEQUENCE"
  | ObjectType.Function => "ROUTINE"
  | ObjectType.Schema => "SCHEMA"
  | ObjectType.Database => "DATABASE"
  | ObjectType.Type_ => "TYPE"
  end.

Definition sql_object_type_plural (t : ObjectType) : string :=
  match t with
  | ObjectType.Table | ObjectType.View | ObjectType.MaterializedView => "TABLES"
  | ObjectType.Sequence => "SEQUENCES"
  | ObjectType.Function => "ROUTINES"
  | ObjectType.Type_ => "TABLES"
  | ObjectType.Schema | ObjectType.Database => "TABLES"
  end.

Definition default_privilege_object_keyword (t : ObjectType) : res SqlRenderError string :=
  match t with
  | ObjectType.Table | ObjectType.View | ObjectType.MaterializedView => Ok "TABLES"
  | ObjectType.Sequence => Ok "SEQUENCES"
  | ObjectType.Function => Ok "ROUTINES"
  | ObjectType.Type_ => Ok "TYPES"
  | ObjectType.Schema => Ok "SCHEMAS"
  | ObjectType.Database => Panic
  end.

Definition relation_relkinds_sql (t : ObjectType) : res SqlRenderError string :=
  match t with
  | ObjectType.Table => Ok "'r', 'p'"
  | ObjectType.View => Ok "'v'"
  | ObjectType.MaterializedView => Ok "'m'"
  | ObjectType.Sequence => Ok "'S'"
  | _ => Panic
  end.

(** ** Schemas and roles *)

Definition render_create_schema (name : string) (owner : option string) : list string :=
  match owner with
  | Some owner =>
      ["CREATE SCHEMA " +:+ quote_ident name +:+ " AUTHORIZATION " +:+ quote_ident owner +:+ ";"]
  | None => ["CREATE SCHEMA " +:+ quote_ident name +:+ ";"]
  end.

Definition render_alter_schema_owner (name owner : string) : list string :=
  ["ALTER SCHEMA " +:+ quote_ident name +:+ " OWNER TO " +:+ quote_ident owner +:+ ";"].

Definition bool_option (positive negative : string) (value : bool) : string :=
  if value then positive else negative.

Definition render_create_role (name : string) (state : RoleState) : list string :=
  let options :=
    [bool_option "LOGIN" "NOLOGIN" (rs_login state);
     bool_option "SUPERUSER" "NOSUPERUSER" (rs_superuser state);
     bool_option "CREATEDB" "NOCREATEDB" (rs_createdb state);
     bool_option "CREATEROLE" "NOCREATEROLE" (rs_createrole state);
     bool_option "INHERIT" "NOINHERIT" (rs_inherit state);
     bool_option "REPLICATION" "NOREPLICATION" (rs_replication state);
     bool_option "BYPASSRLS" "NOBYPASSRLS" (rs_bypassrls state)] ++
    (if bool_decide (rs_connection_limit state = (-1)%Z) then []
     else ["CONNECTION LIMIT " +:+ pretty (rs_connection_limit state)]) ++
    match rs_password_valid_until state with
    | Some valid_until => ["VALID UNTIL " +:+ quote_literal valid_until]
    | None => []
    end in
  ("CREATE ROLE " +:+ quote_ident name +:+ " " +:+ join " " options +:+ ";") ::
  match rs_comment state with
  | Some comment =>
      ["COMMENT ON ROLE " +:+ quote_ident name +:+ " IS " +:+ quote_literal comment +:+ ";"]
  | None => []
  end.

(** The options an attribute contributes to [ALTER ROLE]. *)
Definition attribute_option (attr : RoleAttribute) : list string :=
  match attr with
  | RoleAttribute.Login v => [bool_option "LOGIN" "NOLOGIN" v]
  | RoleAttribute.Superuser v => [bool_option "SUPERUSER" "NOSUPERUSER" v]
  | RoleAttribute.Createdb v => [bool_option "CREATEDB" "NOCREATEDB" v]
  | RoleAttribute.Createrole v => [bool_option "CREATEROLE" "NOCREATEROLE" v]
  | RoleAttribute.Inherit v => [bool_option "INHERIT" "NOINHERIT" v]
  | RoleAttribute.Replication v => [bool_option "REPLICATION" "NOREPLICATION" v]
  | RoleAttribute.Bypassrls v => [bool_option "BYPASSRLS" "NOBYPASSRLS" v]
  | RoleAttribute.ConnectionLimit v => ["CONNECTION LIMIT " +:+ pretty v]
  | RoleAttribute.ValidUntil (Some ts) => ["VALID UNTIL " +:+ quote_literal ts]
  | RoleAttribute.ValidUntil None => ["VALID UNTIL 'infinity'"]
  | RoleAttribute.SetConfig _ _ | RoleAttribute.ResetConfig _ => []
  end.

Definition render_set_config (name parameter value : string) : string :=
  let rendered_value :=
    if is_list_quote_parameter parameter then
      match default [] (split_guc_list value) with
      | [] => quote_literal ""
      | elements => join ", " (quote_literal <$> elements)
      end
    else quote_literal value in
  "ALTER ROLE " +:+ quote_ident name +:+ " SET " +:+ quote_ident parameter +:+ " = " +:+
  rendered_value +:+ ";".

Definition attribute_statement (name : string) (attr : RoleAttribute) : list string :=
  match attr with
  | RoleAttribute.SetConfig parameter value => [render_set_config name parameter value]
  | RoleAttribute.ResetConfig parameter =>
      ["ALTER ROLE " +:+ quote_ident name +:+ " RESET " +:+ quote_ident parameter +:+ ";"]
  | _ => []
  end.

Definition render_alter_role (name : string) (attributes : list RoleAttribute) : list string :=
  let options := attributes ≫= attribute_option in
  (if bool_decide (options = []) then []
   else ["ALTER ROLE " +:+ quote_ident name +:+ " " +:+ join " " options +:+ ";"]) ++
  (attributes ≫= attribute_statement name).

Definition render_set_comment (name : string) (comment : option string) : list string :=
  match comment with
  | Some text =>
      ["COMMENT ON ROLE " +:+ quote_ident name +:+ " IS " +:+ quote_literal text +:+ ";"]
  | None => ["COMMENT ON ROLE " +:+ quote_ident name +:+ " IS NULL;"]
  end.

(** ** Routine signatures *)

(** The reverse scan of [function_signature_start] over the bytes before position
    [length l], [l] listing them from the last to the first. *)
Fixpoint signature_scan (depth : nat) (quoted : bool) (l : list ascii) : option nat :=
  match l with
  | [] => None
  | a :: l =>
      if Ascii.eqb a dq_char then signature_scan depth (negb quoted) l
      else if Ascii.eqb a ")" && negb quoted then signature_scan (S depth) quoted l
      else if Ascii.eqb a "(" && negb quoted then
        match depth with
        | O => None
        | 1 => Some (length l)
        | S depth => signature_scan depth quoted l
        end
      else signature_scan depth quoted l
  end.

Definition ends_with_paren (s : string) : bool :=
  match reverse (String.list_ascii_of_string s) with a :: _ => Ascii.eqb a ")" | [] => false end.

Definition function_signature_start (signature : string) : option nat :=
  if ends_with_paren signature
  then signature_scan 0 false (reverse (String.list_ascii_of_string signature))
  else None.

Definition qualified_function_name (schema_name function_name : string) : string :=
  match function_signature_start function_name with
  | Some paren_idx =>
      if ends_with_paren function_name then
        quote_ident schema_name +:+ "." +:+
        quote_ident (String.substring 0 paren_idx function_name) +:+
        String.substring paren_idx (String.length function_name - paren_idx) function_name
      else quote_ident schema_name +:+ "." +:+ quote_ident function_name
  | None => quote_ident schema_name +:+ "." +:+ quote_ident function_name
  end.

Definition routine_base_name (function_name : string) : string :=
  match function_signature_start function_name with
  | Some paren_idx => String.substring 0 paren_idx function_name
  | None => function_name
  end.

Definition format_function_target (schema : option string) (function_name : string) : string :=
  "ROUTINE " +:+ qualified_function_name (default "public" schema) function_name.

(** ** Grants and revokes *)

Definition render_grantee (grantee : Grantee) : string :=
  match grantee with Grantee.Public => "PUBLIC" | Grantee.Role name => quote_ident name end.

Definition format_object_target (object_type : ObjectType) (schema name : option string) : string :=
  let type_keyword := sql_object_type_keyword object_type in
  let schema_name := default "public" schema in
  match object_type with
  | ObjectType.Schema => type_keyword +:+ " " +:+ quote_ident (default "public" name)
  | ObjectType.Database => type_keyword +:+ " " +:+ quote_ident (default "postgres" name)
  | ObjectType.Function =>
      match name with
      | Some name =>
          if String.eqb name "*" then "ALL ROUTINES IN SCHEMA " +:+ quote_ident schema_name
          else format_function_target schema name
      | None => type_keyword +:+ " " +:+ quote_ident schema_name
      end
  | _ =>
      match name with
      | Some name =>
          if String.eqb name "*"
          then "ALL " +:+ sql_object_type_plural object_type +:+ " IN SCHEMA " +:+
               quote_ident schema_name
          else type_keyword +:+ " " +:+ quote_ident schema_name +:+ "." +:+ quote_ident name
      | None => type_keyword +:+ " " +:+ quote_ident schema_name
      end
  end.

(** The statement executed for each relation of a wildcard without inventory. *)
Definition wildcard_do_block (action subject_preposition : string) (role : Grantee)
    (privilege_list : string) (object_type : ObjectType) (relkinds schema_name : string) : string :=
  let grantee_placeholder :=
    match role with Grantee.Public => "PUBLIC" | Grantee.Role _ => "%I" end in
  let grantee_argument :=
    match role with Grantee.Public => "" | Grantee.Role name => ", " +:+ quote_literal name end in
  let owner_filter :=
    match role with
    | Grantee.Role role_name =>
        if String.eqb action "REVOKE"
        then "AND pg_get_userbyid(c.relowner) <> " +:+ quote_literal role_name else ""
    | Grantee.Public => ""
    end in
  "DO $pgroles$" +:+ NL +:+ "DECLARE obj record;" +:+ NL +:+ "BEGIN" +:+ NL +:+
  "  FOR obj IN" +:+ NL +:+
  "    SELECT n.nspname AS schema_name, c.relname AS object_name" +:+ NL +:+
  "    FROM pg_class c" +:+ NL +:+
  "    JOIN pg_namespace n ON n.oid = c.relnamespace" +:+ NL +:+
  "    WHERE c.relkind IN (" +:+ relkinds +:+ ")" +:+ NL +:+
  "      AND n.nspname = " +:+ quote_literal schema_name +:+ NL +:+
  "      " +:+ owner_filter +:+ NL +:+
  "    ORDER BY c.relname" +:+ NL +:+
  "  LOOP" +:+ NL +:+
  "    EXECUTE format('" +:+ action +:+ " " +:+ privilege_list +:+ " ON " +:+
  sql_object_type_keyword object_type +:+ " %I.%I " +:+ subject_preposition +:+ " " +:+
  grantee_placeholder +:+ ";', obj.schema_name, obj.object_name" +:+ grantee_argument +:+ ");" +:+
  NL +:+ "  END LOOP;" +:+ NL +:+ "END" +:+ NL +:+ "$pgroles$;".

Definition privilege_statement (action privilege_list target subject_preposition : string)
    (role : Grantee) : string :=
  action +:+ " " +:+ privilege_list +:+ " ON " +:+ target +:+ " " +:+ subject_preposition +:+
  " " +:+ render_grantee role +:+ ";".

(** The target of one object of an inventory. *)
Definition inventory_target (object_type : ObjectType) (schema_name object_name : string) : string :=
  match object_type with
  | ObjectType.Function => format_function_target (Some schema_name) object_name
  | _ => sql_object_type_keyword object_type +:+ " " +:+ quote_ident schema_name +:+ "." +:+
         quote_ident object_name
  end.

Definition render_wildcard_expanded (action subject_preposition : string) (role : Grantee)
    (privilege_list : string) (object_type : ObjectType) (schema : option string)
    (ctx : SqlContext) : res SqlRenderError (list string) :=
  let schema_name := default "public" schema in
  let skip_owned := String.eqb action "REVOKE" in
  let compact :=
    [privilege_statement action privilege_list
       (format_object_target object_type schema (Some "*")) subject_preposition role] in
  if negb skip_owned &&
     match object_type with ObjectType.Sequence | ObjectType.Function => true | _ => false end
  then Ok compact
  else
    match object_inventory ctx !! (object_type, schema_name) with
    | Some object_names =>
        Ok ((λ object_name,
               privilege_statement action privilege_list
                 (inventory_target object_type schema_name object_name) subject_preposition role)
              <$> filter (λ object_name,
                    negb skip_owned ||
                    negb (grantee_owns_relation ctx role object_type schema_name object_name))
                    object_names)
    | None =>
        if decide (object_type = ObjectType.Function) then Ok compact
        else
          relkinds ← relation_relkinds_sql object_type;
          Ok [wildcard_do_block action subject_preposition role privilege_list object_type
                relkinds schema_name]
    end.

Definition render_privilege_statements (action : string) (role : Grantee)
    (privilege_list : string) (object_type : ObjectType) (schema name : option string)
    (ctx : SqlContext) : res SqlRenderError (list string) :=
  let subject_preposition := if String.eqb action "GRANT" then "TO" else "FROM" in
  if match object_type with
     | ObjectType.Table | ObjectType.View | ObjectType.MaterializedView
     | ObjectType.Sequence | ObjectType.Function => true
     | _ => false
     end && bool_decide (name = Some "*")
  then render_wildcard_expanded action subject_preposition role privilege_list object_type schema ctx
  else
    Ok [privilege_statement action privilege_list (format_object_target object_type schema name)
          subject_preposition role].

Definition render_grant (role : Grantee) (privileges : gset Privilege) (object_type : ObjectType)
    (schema name : option string) (ctx : SqlContext) : res SqlRenderError (list string) :=
  render_privilege_statements "GRANT" role (format_privileges privileges) object_type schema name ctx.

Definition render_revoke (role : Grantee) (privileges : gset Privilege) (object_type : ObjectType)
    (schema name : option string) (ctx : SqlContext) : res SqlRenderError (list string) :=
  render_privilege_statements "REVOKE" role (format_privileges privileges) object_type schema name ctx.

(** ** Default privileges *)

Definition render_default_privilege_scope_clause (scope : DefaultPrivilegeScope) : string :=
  match scope with
  | DefaultPrivilegeScope.Global => ""
  | DefaultPrivilegeScope.Schema schema => " IN SCHEMA " +:+ quote_ident schema
  end.

Definition render_set_default_privilege (owner : string) (scope : DefaultPrivilegeScope)
    (on_type : ObjectType) (grantee : Grantee) (privileges : gset Privilege) :
    res SqlRenderError (list string) :=
  type_keyword ← default_privilege_object_keyword on_type;
  Ok ["ALTER DEFAULT PRIVILEGES FOR ROLE " +:+ quote_ident owner +:+
      render_default_privilege_scope_clause scope +:+ " GRANT " +:+
      format_privileges privileges +:+ " ON " +:+ type_keyword +:+ " TO " +:+
      render_grantee grantee +:+ ";"].

Definition render_revoke_default_privilege (owner : string) (scope : DefaultPrivilegeScope)
    (on_type : ObjectType) (grantee : Grantee) (privileges : gset Privilege) :
    res SqlRenderError (list string) :=
  type_keyword ← default_privilege_object_keyword on_type;
  Ok ["ALTER DEFAULT PRIVILEGES FOR ROLE " +:+ quote_ident owner +:+
      render_default_privilege_scope_clause scope +:+ " REVOKE " +:+
      format_privileges privileges +:+ " ON " +:+ type_keyword +:+ " FROM " +:+
      render_grantee grantee +:+ ";"].

(** ** Memberships *)

Definition render_add_member (role member : string) (inherit admin : bool) (ctx : SqlContext) :
    list string :=
  let sql := "GRANT " +:+ quote_ident role +:+ " TO " +:+ quote_ident member in
  if supports_grant_with_options ctx then
    let options :=
      (if inherit then "INHERIT TRUE" else "INHERIT FALSE") ::
      (if admin then ["ADMIN TRUE"] else []) in
    [sql +:+ " WITH " +:+ join ", " options +:+ ";"]
  else [sql +:+ (if admin then " WITH ADMIN OPTION" else "") +:+ ";"].

Definition render_remove_member (role member : string) (grantor : option string)
    (ctx : SqlContext) : list string :=
  match grantor with
  | Some grantor =>
      if supports_grant_with_options ctx
      then ["REVOKE " +:+ quote_ident role +:+ " FROM " +:+ quote_ident member +:+
            " GRANTED BY " +:+ quote_ident grantor +:+ ";"]
      else ["REVOKE " +:+ quote_ident role +:+ " FROM " +:+ quote_ident member +:+ ";"]
  | None => ["REVOKE " +:+ quote_ident role +:+ " FROM " +:+ quote_ident member +:+ ";"]
  end.

(** The [UpdateMemberOptions] arm. *)
Definition render_member_options (role member grantor : string) (inherit admin : option bool)
    (binding : option MembershipOptionBinding) : list string :=
  let revoke_option name value :=
    if bool_decide (value = Some false)
    then ["REVOKE " +:+ name +:+ " OPTION FOR " +:+ quote_ident role +:+ " FROM " +:+
          quote_ident member +:+ " GRANTED BY " +:+ quote_ident grantor +:+ " RESTRICT;"]
    else [] in
  let options :=
    (if bool_decide (inherit = Some true) then ["INHERIT TRUE"] else []) ++
    (if bool_decide (admin = Some true) then ["ADMIN TRUE"] else []) ++
    (if binding_and binding creates_false
     then (if bool_decide (inherit = None) then ["INHERIT FALSE"] else []) ++ ["SET FALSE"]
     else []) in
  revoke_option "INHERIT" inherit ++ revoke_option "ADMIN" admin ++
  (if bool_decide (inherit = Some true) || bool_decide (admin = Some true)
   then ["GRANT " +:+ quote_ident role +:+ " TO " +:+ quote_ident member +:+ " WITH " +:+
         join ", " options +:+ " GRANTED BY " +:+ quote_ident grantor +:+ ";"]
   else []).

(** ** Retirement and passwords *)

Definition render_reassign_owned (from_role to_role : string) : list string :=
  ["REASSIGN OWNED BY " +:+ quote_ident from_role +:+ " TO " +:+ quote_ident to_role +:+ ";"].
Definition render_drop_owned (role : string) : list string :=
  ["DROP OWNED BY " +:+ quote_ident role +:+ ";"].
Definition render_terminate_sessions (role : string) : list string :=
  ["SELECT pg_terminate_backend(pid) FROM pg_stat_activity WHERE usename = " +:+
   quote_literal role +:+ " AND pid <> pg_backend_pid();"].
Definition render_set_password (name password : string) : list string :=
  ["ALTER ROLE " +:+ quote_ident name +:+ " PASSWORD " +:+ quote_literal password +:+ ";"].

(** ** One change *)

Definition render_unscoped_statements (change : Change) (ctx : SqlContext) :
    res SqlRenderError (list string) :=
  match change with
  | Change.CreateRole name state => Ok (render_create_role name state)
  | Change.CreateSchema name owner => Ok (render_create_schema name owner)
  | Change.AlterSchemaOwner name owner => Ok (render_alter_schema_owner name owner)
  | Change.EnsureSchemaOwnerPrivileges name owner privileges =>
      render_grant (Grantee.Role owner) privileges ObjectType.Schema None (Some name) ctx
  | Change.AlterRole name attributes => Ok (render_alter_role name attributes)
  | Change.SetComment name comment => Ok (render_set_comment name comment)
  | Change.Grant role privileges object_type schema name =>
      render_grant role privileges object_type schema name ctx
  | Change.Revoke role privileges object_type schema name _ =>
      render_revoke role privileges object_type schema name ctx
  | Change.SetDefaultPrivilege owner scope on_type grantee privileges =>
      render_set_default_privilege owner scope on_type grantee privileges
  | Change.RevokeDefaultPrivilege owner scope on_type grantee privileges =>
      render_revoke_default_privilege owner scope on_type grantee privileges
  | Change.AddMember role member inherit admin => Ok (render_add_member role member inherit admin ctx)
  | Change.UpdateMemberOptions role member grantor inherit admin binding =>
      Ok (render_member_options role member grantor inherit admin binding)
  | Change.RemoveMember role member grantor => Ok (render_remove_member role member grantor ctx)
  | Change.ReassignOwned from_role to_role => Ok (render_reassign_owned from_role to_role)
  | Change.DropOwned role => Ok (render_drop_owned role)
  | Change.TerminateSessions role => Ok (render_terminate_sessions role)
  | Change.SetPassword name password => Ok (render_set_password name password)
  | Change.DropRole name => Ok ["DROP ROLE IF EXISTS " +:+ quote_ident name +:+ ";"]
  end.

(** ** Batches *)

Record RenderedStatement := {
  sql : string;
  redacted_sql : string;
}.

(** The closures [plain] and [restore]. *)
Definition plain (sql : string) : RenderedStatement := {| sql := sql; redacted_sql := sql |}.
Definition set_role (role : string) : string := "SET ROLE " +:+ quote_ident role +:+ ";".
Definition restore (ctx : SqlContext) : string :=
  match execution_role ctx with Some role => set_role role | None => "RESET ROLE;" end.

Definition grantor_of (change : Change) : option string :=
  match change with Change.Revoke _ _ _ _ _ grantor => grantor | _ => None end.

Definition redact (change : Change) (sql : string) : RenderedStatement := {|
  sql := sql;
  redacted_sql :=
    match change with
    | Change.SetPassword name _ => "ALTER ROLE " +:+ quote_ident name +:+ " PASSWORD '[REDACTED]';"
    | _ => sql
    end |}.

(** One turn of the loop, on the output and the active grantor. *)
Definition render_step (ctx : SqlContext) (st : list RenderedStatement * option string)
    (change : Change) : res SqlRenderError (list RenderedStatement * option string) :=
  let '(result, active_grantor) := st in
  _ ← validate_membership_options change ctx;
  statements ← render_unscoped_statements change ctx;
  if bool_decide (statements = []) then Ok (result, active_grantor)
  else
    let grantor := grantor_of change in
    let switches :=
      if decide (grantor = active_grantor) then []
      else (if active_grantor is Some _ then [plain (restore ctx)] else []) ++
           (if grantor is Some role then [plain (set_role role)] else []) in
    Ok (result ++ switches ++ (redact change <$> statements), grantor).

(** A membership would be replaced without knowing its grantors. *)
Definition unattributed_replacement (changes : list Change) (change : Change) : bool :=
  match change with
  | Change.RemoveMember role member None =>
      existsb (λ other, match other with
                        | Change.AddMember r m _ _ => String.eqb r role && String.eqb m member
                        | _ => false
                        end) changes
  | _ => false
  end.

Definition render_batch_with_context (changes : list Change) (ctx : SqlContext) :
    res SqlRenderError (list RenderedStatement) :=
  if supports_grant_with_options ctx && existsb (unattributed_replacement changes) changes
  then Err SqlRenderError.UnattributedMembershipReplacement
  else
    '(result, active_grantor) ← fold_res (render_step ctx) ([], None) changes;
    Ok (result ++ (if active_grantor is Some _ then [plain (restore ctx)] else [])).

Definition render_statements_with_context (change : Change) (ctx : SqlContext) :
    res SqlRenderError (list string) :=
  statements ← render_batch_with_context [change] ctx; Ok (map sql statements).

Definition render_statements (change : Change) : res SqlRenderError (list string) :=
  render_statements_with_context change sql_context_default.

Definition render (change : Change) : res SqlRenderError string :=
  statements ← render_statements change; Ok (join NL statements).

Definition render_all_with_context (changes : list Change) (ctx : SqlContext) :
    res SqlRenderError string :=
  statements ← render_batch_with_context changes ctx; Ok (join NL (map sql statements)).

Definition render_all (changes : list Change) : res SqlRenderError string :=
  render_all_with_context changes sql_context_default.
