(* ===== verification/SqlLex.v ===== *)
(** * Reading rendered SQL back

    A reference lexer for the quoted tokens and a scanner for statement boundaries,
    as PostgreSQL reads them with [standard_conforming_strings] on, and the proof that
    what [sql.rs] quotes is read back as one token. *)

From Stdlib Require Import Ascii.
From S2P Require Import Prelude BTree RustStr Types Model Change Guc Diff Plan Sql.

(** ** Quoted tokens *)

(** The rest of a token quoted by [q], its opening quote already read: the text with
    doubled quotes undone, and what follows the token. *)
Fixpoint lex_body (q : ascii) (s : string) : option (string * string) :=
  match s with
  | "" => None
  | String a s =>
      if Ascii.eqb a q then
        match s with
        | String b s' =>
            if Ascii.eqb b q
            then '(text, rest) ← lex_body q s'; Some (String q text, rest)
            else Some ("", s)
        | "" => Some ("", "")
        end
      else '(text, rest) ← lex_body q s; Some (String a text, rest)
  end.

Definition lex_quoted (q : ascii) (s : string) : option (string * string) :=
  match s with
  | String a s => if Ascii.eqb a q then lex_body q s else None
  | "" => None
  end.

Definition head_is (q : ascii) (s : string) : bool :=
  match s with String a _ => Ascii.eqb a q | "" => false end.

Lemma lex_body_close q s :
  head_is q s = false → lex_body q (String q s) = Some ("", s).
Proof.
  intros Hs. simpl. rw Ascii.eqb_refl. destruct s as [|b s]; [done|]. simpl in Hs. by rw Hs.
Qed.

Lemma lex_body_double q text s :
  head_is q s = false →
  lex_body q (replace_char q (String q (String q "")) text +:+ String q s) = Some (text, s).
Proof.
  intros Hs. induction text as [|a text IH].
  - by rw str_app_nil_l lex_body_close.
  - simpl. destruct (Ascii.eqb_spec q a) as [<-|Hq].
    + rw !str_app_cons str_app_nil_l. cbn [lex_body]. by rw Ascii.eqb_refl IH.
    + rw !str_app_cons. cbn [lex_body]. destruct (Ascii.eqb_spec a q); [congruence|].
      by rw IH.
Qed.

(** A quoted identifier is read back, whatever it contains. *)
Lemma lex_quote_ident identifier rest :
  head_is dq_char rest = false →
  lex_quoted dq_char (quote_ident identifier +:+ rest) = Some (identifier, rest).
Proof.
  intros Hr. unfold quote_ident, DQ. rw !str_app_cons str_app_nil_l.
  cbn [lex_quoted]. rw Ascii.eqb_refl -str_app_assoc. by apply lex_body_double.
Qed.

Lemma lex_quote_literal value rest :
  head_is sq_char rest = false →
  lex_quoted sq_char (quote_literal value +:+ rest) = Some (value, rest).
Proof.
  intros Hr. unfold quote_literal. change "'" with (String sq_char "").
  change "''" with (String sq_char (String sq_char "")).
  rw !str_app_cons str_app_nil_l.
  cbn [lex_quoted]. rw Ascii.eqb_refl -str_app_assoc. by apply lex_body_double.
Qed.

#[export] Instance quote_ident_inj : Inj (=) (=) quote_ident.
Proof.
  intros x y Hxy. generalize (lex_quote_ident x "" eq_refl). rw Hxy lex_quote_ident //. congruence.
Qed.

(** ** Statements *)

(** Where a scanner is: between tokens, after a [-] between tokens, inside a quoted
    identifier or literal, just after the terminating [;], or past it.  A comment or
    a dollar-quoted body sends it to [Lost], so does anything after the [;]. *)
Module ScanMode.
Inductive ScanMode : Set := Top | Dash | InIdent | InLiteral | Ended | Lost.
End ScanMode.
Abbreviation ScanMode := ScanMode.ScanMode.

Definition scan_top (a : ascii) : ScanMode :=
  if Ascii.eqb a dq_char then ScanMode.InIdent
  else if Ascii.eqb a sq_char then ScanMode.InLiteral
  else if Ascii.eqb a ";" then ScanMode.Ended
  else if Ascii.eqb a "-" then ScanMode.Dash
  else if Ascii.eqb a "$" || Ascii.eqb a "/" then ScanMode.Lost
  else ScanMode.Top.

Definition scan_char (m : ScanMode) (a : ascii) : ScanMode :=
  match m with
  | ScanMode.Top => scan_top a
  | ScanMode.Dash => if Ascii.eqb a "-" then ScanMode.Lost else scan_top a
  | ScanMode.InIdent => if Ascii.eqb a dq_char then ScanMode.Top else ScanMode.InIdent
  | ScanMode.InLiteral => if Ascii.eqb a sq_char then ScanMode.Top else ScanMode.InLiteral
  | ScanMode.Ended | ScanMode.Lost => ScanMode.Lost
  end.

Fixpoint scan (m : ScanMode) (s : string) : ScanMode :=
  match s with "" => m | String a s => scan (scan_char m a) s end.

(** A fragment of a statement, and a whole one. *)
Definition fragment (s : string) : Prop := scan ScanMode.Top s = ScanMode.Top.
Definition one_statement (s : string) : bool :=
  match scan ScanMode.Top s with ScanMode.Ended => true | _ => false end.

Lemma scan_app m s t : scan m (s +:+ t) = scan (scan m s) t.
Proof. revert m. induction s as [|a s IH]=> m; [done|]. rw str_app_cons /=. apply IH. Qed.

Lemma fragment_app s t : fragment s → fragment t → fragment (s +:+ t).
Proof. unfold fragment. rw scan_app. by intros ->. Qed.

Lemma one_statement_app s t : fragment s → one_statement t → one_statement (s +:+ t).
Proof. unfold fragment, one_statement. rw scan_app. by intros ->. Qed.

Lemma fragment_join sep l : fragment sep → Forall fragment l → fragment (join sep l).
Proof.
  intros Hsep. induction 1 as [|s l Hs Hl IH]; [done|].
  destruct l as [|t l]; [done|]. change (fragment (s +:+ sep +:+ join sep (t :: l))).
  eauto using fragment_app.
Qed.

Lemma scan_ident_body text :
  scan ScanMode.InIdent (replace_char dq_char (DQ +:+ DQ) text) = ScanMode.InIdent.
Proof.
  induction text as [|a text IH]; [done|]. cbn [replace_char].
  destruct (Ascii.eqb_spec dq_char a) as [<-|Hq].
  - by rw scan_app.
  - cbn [scan scan_char]. destruct (Ascii.eqb_spec a dq_char); [congruence|done].
Qed.

Lemma scan_literal_body text :
  scan ScanMode.InLiteral (replace_char sq_char "''" text) = ScanMode.InLiteral.
Proof.
  induction text as [|a text IH]; [done|]. cbn [replace_char].
  destruct (Ascii.eqb_spec sq_char a) as [<-|Hq].
  - by rw scan_app.
  - cbn [scan scan_char]. destruct (Ascii.eqb_spec a sq_char); [congruence|done].
Qed.

Lemma fragment_ident text : fragment (quote_ident text).
Proof.
  unfold fragment, quote_ident. rw !scan_app.
  change (scan ScanMode.Top DQ) with ScanMode.InIdent. by rw scan_ident_body.
Qed.

Lemma fragment_literal text : fragment (quote_literal text).
Proof.
  unfold fragment, quote_literal. rw !scan_app.
  change (scan ScanMode.Top "'") with ScanMode.InLiteral. by rw scan_literal_body.
Qed.

Lemma fragment_privileges ps : fragment (format_privileges ps).
Proof.
  apply fragment_join; [done|]. apply Forall_fmap, Forall_forall. by intros [] _.
Qed.

Lemma fragment_grantee g : fragment (render_grantee g).
Proof. destruct g; [done|apply fragment_ident]. Qed.

(** Numbers are printed as digits. *)
Lemma scan_digit m x : m = ScanMode.Top ∨ m = ScanMode.Dash →
  scan_char m (pretty_N_char x) = ScanMode.Top.
Proof. intros [-> | ->]; unfold pretty_N_char; by repeat case_match. Qed.

Lemma scan_pretty_go x s m :
  (0 < x)%N → (m = ScanMode.Top ∨ m = ScanMode.Dash) → fragment s →
  scan m (pretty_N_go x s) = ScanMode.Top.
Proof.
  revert s. induction (N.lt_wf_0 x) as [x _ IH]=> s Hx Hm Hs.
  rw pretty_N_go_step //. destruct (decide (x / 10 = 0)%N) as [->|Hne].
  - rw pretty_N_go_0 /= scan_digit //.
  - apply IH; [apply N.div_lt; lia|by apply N.neq_0_lt_0|done|]. unfold fragment. cbn [scan].
    rw scan_digit //. by left.
Qed.

Lemma scan_pretty_N m (n : N) :
  m = ScanMode.Top ∨ m = ScanMode.Dash → scan m (pretty n) = ScanMode.Top.
Proof.
  intros Hm. unfold pretty, pretty_N. destruct (decide (n = 0)%N).
  - by destruct Hm as [-> | ->].
  - apply scan_pretty_go; [by apply N.neq_0_lt_0|done|done].
Qed.

Lemma fragment_pretty (z : Z) : fragment (pretty z).
Proof.
  destruct z as [|p|p]; [done| |]; unfold fragment.
  - apply (scan_pretty_N ScanMode.Top). by left.
  - change (pretty (Z.neg p)) with ("-" +:+ pretty (N.pos p)). rw scan_app.
    apply (scan_pretty_N ScanMode.Dash). by right.
Qed.

#[export] Hint Resolve fragment_app one_statement_app fragment_ident fragment_literal
  fragment_privileges fragment_grantee fragment_pretty : pgroles.
#[export] Hint Extern 0 (fragment _) => reflexivity : pgroles.
#[export] Hint Extern 0 (is_true (one_statement _)) => reflexivity : pgroles.
#[export] Hint Extern 0 (Is_true (one_statement _)) => exact I : pgroles.
