(* ===== verification/SqlFacts.v ===== *)
(** * Properties of the generated SQL

    One statement per string, the role each statement runs under, redaction, the
    changes that can be rendered, and the owner guard of wildcard revokes. *)

From Stdlib Require Import Ascii.
From S2P Require Import Prelude BTree RustStr Types Model Change Guc Diff Plan Sql SqlLex.

(** ** Which changes can be rendered *)

(** The condition under which [render_unscoped_statements] does not panic. *)
Definition default_target_ok (change : Change) : bool :=
  match change with
  | Change.SetDefaultPrivilege _ _ on_type _ _ | Change.RevokeDefaultPrivilege _ _ on_type _ _ =>
      bool_decide (on_type ≠ ObjectType.Database)
  | _ => true
  end.

Lemma default_keyword_ok t :
  (∃ k, default_privilege_object_keyword t = Ok k) ↔ t ≠ ObjectType.Database.
Proof. destruct t; simpl; naive_solver. Qed.

Lemma render_privilege_ok action role ps t schema name ctx :
  ∃ ss, render_privilege_statements action role ps t schema name ctx = Ok ss.
Proof.
  unfold render_privilege_statements, render_wildcard_expanded.
  destruct (bool_decide_reflect (name = Some "*")) as [->|];
    destruct t; cbn [andb]; eauto; repeat (case_match || case_decide); simpl; eauto; congruence.
Qed.

Lemma render_unscoped_ok change ctx :
  (∃ ss, render_unscoped_statements change ctx = Ok ss) ↔ default_target_ok change.
Proof.
  assert (∀ A (x : A), (∃ y, Ok (E:=SqlRenderError) x = Ok y) ↔ True) as Hok by naive_solver.
  destruct change; cbn [render_unscoped_statements default_target_ok];
    unfold render_grant, render_revoke, render_set_default_privilege,
      render_revoke_default_privilege;
    try (split; [done|intros _; eauto using render_privilege_ok]).
  all: rw bool_decide_spec -default_keyword_ok;
    destruct (default_privilege_object_keyword on_type); simpl; naive_solver.
Qed.

(** Every check a change passes before it is rendered. *)
Definition renderable (ctx : SqlContext) (change : Change) : Prop :=
  validate_membership_options change ctx = Ok tt ∧ default_target_ok change.

Lemma render_step_ok ctx st change :
  (∃ st', render_step ctx st change = Ok st') ↔ renderable ctx change.
Proof.
  destruct st as [result active]. unfold render_step, renderable. rw -(render_unscoped_ok _ ctx).
  destruct (validate_membership_options change ctx) as [[]| |]; simpl; [|naive_solver..].
  destruct (render_unscoped_statements change ctx) as [ss| |]; simpl; [|naive_solver..].
  split; [by eauto|]. intros _. destruct (bool_decide (ss = [])); eauto.
Qed.

Lemma fold_step_ok ctx changes st :
  (∃ st', fold_res (render_step ctx) st changes = Ok st') ↔ ∀ c, c ∈ changes → renderable ctx c.
Proof.
  revert st. induction changes as [|c changes IH]=> st; simpl.
  - split; [|by eauto]. intros _ c Hc. by apply not_elem_of_nil in Hc.
  - split.
    + intros [st' (s & Hs & Hst)%bind_Ok] d [->|Hd]%elem_of_cons.
      * apply (render_step_ok ctx st). eauto.
      * eapply IH; eauto.
    + intros Hall. destruct (proj2 (render_step_ok ctx st c)) as [s Hs].
      { apply Hall. left. }
      rw Hs /=. apply IH. intros d Hd. apply Hall. by right.
Qed.

Definition unattributed (changes : list Change) (ctx : SqlContext) : bool :=
  supports_grant_with_options ctx && existsb (unattributed_replacement changes) changes.

Lemma render_batch_ok changes ctx :
  (∃ out, render_batch_with_context changes ctx = Ok out) ↔
  unattributed changes ctx = false ∧ ∀ c, c ∈ changes → renderable ctx c.
Proof.
  unfold render_batch_with_context, unattributed. rw -(fold_step_ok ctx changes ([], None)).
  destruct (supports_grant_with_options ctx && _); [naive_solver|].
  destruct (fold_res (render_step ctx) ([], None) changes) as [[r a]| |]; simpl; naive_solver.
Qed.

(** ** Statements under their role *)

(** The statement's own role, if it is a role switch. *)
Definition session_switch (s : string) : option (option string) :=
  if String.eqb s "RESET ROLE;" then Some None
  else if starts_with "SET ROLE " s then
    match lex_quoted dq_char (String.substring 9 (String.length s - 9) s) with
    | Some (role, ";") => Some (Some role)
    | _ => None
    end
  else None.

(** A session: its current role ([None] for the login role), the role each ordinary
    statement runs under, and the role it is left with. *)
Fixpoint run_session (role : option string) (l : list string) :
    list (option string * string) * option string :=
  match l with
  | [] => ([], role)
  | s :: l =>
      match session_switch s with
      | Some role' => run_session role' l
      | None => let '(trace, final) := run_session role l in ((role, s) :: trace, final)
      end
  end.

Lemma run_session_app role l k :
  run_session role (l ++ k) =
  let '(trace, role') := run_session role l in
  let '(trace', final) := run_session role' k in (trace ++ trace', final).
Proof.
  revert role. induction l as [|s l IH]=> role.
  - cbn [app run_session]. by destruct (run_session role k).
  - cbn [app run_session]. rw !IH. destruct (session_switch s); [done|].
    destruct (run_session role l) as [trace role']. by destruct (run_session role' k).
Qed.

Lemma substring_all s : String.substring 0 (String.length s) s = s.
Proof. induction s as [|a s IH]; simpl; [done|by rw IH]. Qed.

Lemma substring_skip n s : String.substring 9 n ("SET ROLE " +:+ s) = String.substring 0 n s.
Proof. done. Qed.

Lemma set_role_not_reset s : String.eqb ("SET ROLE " +:+ s) "RESET ROLE;" = false.
Proof. done. Qed.

Lemma set_role_starts s : starts_with "SET ROLE " ("SET ROLE " +:+ s) = true.
Proof. by destruct s. Qed.

Lemma session_switch_set role : session_switch (set_role role) = Some (Some role).
Proof.
  unfold session_switch, set_role. rw set_role_not_reset set_role_starts str_length_app.
  change (String.length "SET ROLE ") with 9. rw Nat.add_comm Nat.add_sub substring_skip.
  rw substring_all lex_quote_ident //.
Qed.

Lemma session_switch_restore ctx : session_switch (restore ctx) = Some (execution_role ctx).
Proof. unfold restore. destruct (execution_role ctx); [apply session_switch_set|done]. Qed.

(** No change is rendered as a role switch. *)
Definition ordinary (s : string) : Prop := session_switch s = None.

Lemma ordinary_app s t : session_switch (s +:+ t) = None → ordinary (s +:+ t).
Proof. done. Qed.

Lemma attribute_statement_ordinary name attrs : Forall ordinary (attrs ≫= attribute_statement name).
Proof.
  apply Forall_bind, Forall_forall. intros attr _. destruct attr; repeat constructor.
Qed.

Lemma render_privilege_ordinary action role ps t schema name ctx ss :
  action = "GRANT" ∨ action = "REVOKE" →
  render_privilege_statements action role ps t schema name ctx = Ok ss → Forall ordinary ss.
Proof.
  intros Haction. unfold render_privilege_statements, render_wildcard_expanded.
  assert (∀ target prep, ordinary (privilege_statement action ps target prep role)) as Hps.
  { intros. by destruct Haction as [-> | ->]. }
  assert (∀ s, ordinary s → Ok (E:=SqlRenderError) [s] = Ok ss → Forall ordinary ss) as Hone.
  { intros s Hs [= <-]. by constructor. }
  destruct (_ && bool_decide (name = Some "*")); [|by apply Hone, Hps].
  destruct (negb _ && _); [by apply Hone, Hps|].
  destruct (object_inventory ctx !! _).
  - intros [= <-]. apply Forall_fmap, Forall_forall. intros. apply Hps.
  - case_decide; [by apply Hone, Hps|]. rw bind_Ok. intros (k & _ & Hss). by eapply Hone, Hss.
Qed.

Lemma render_unscoped_ordinary change ctx ss :
  render_unscoped_statements change ctx = Ok ss → Forall ordinary ss.
Proof.
  destruct change; cbn [render_unscoped_statements].
  all: unfold render_grant, render_revoke, render_set_default_privilege,
    render_revoke_default_privilege.
  all: try (intros Hss; eapply render_privilege_ordinary, Hss; auto).
  all: try (rw bind_Ok; intros (? & _ & [= <-]); repeat constructor).
  all: intros [= <-].
  - unfold render_create_role. repeat constructor. case_match; repeat constructor.
  - unfold render_create_schema. case_match; repeat constructor.
  - repeat constructor.
  - unfold render_alter_role. apply Forall_app. split; [|apply attribute_statement_ordinary].
    case_match; repeat constructor.
  - unfold render_set_comment. case_match; repeat constructor.
  - unfold render_add_member. case_match; repeat constructor.
  - unfold render_member_options. rw !Forall_app. split_and!; repeat case_match; repeat constructor.
  - unfold render_remove_member. repeat case_match; repeat constructor.
  - repeat constructor.
  - repeat constructor.
  - repeat constructor.
  - repeat constructor.
  - repeat constructor.
Qed.

Lemma run_ordinary role ss :
  Forall ordinary ss → run_session role ss = ((λ s, (role, s)) <$> ss, role).
Proof.
  induction 1 as [|s ss Hs Hss IH]; [done|]. cbn [run_session]. by rw Hs IH.
Qed.

(** The role a change's statements are meant to run under: the recorded grantor of an
    object revoke, the configured role otherwise. *)
Definition statement_role (ctx : SqlContext) (change : Change) : option string :=
  match grantor_of change with Some grantor => Some grantor | None => execution_role ctx end.

(** The specification of a batch: every change's statements, under its role. *)
Definition change_trace (ctx : SqlContext) (change : Change) : list (option string * string) :=
  match render_unscoped_statements change ctx with
  | Ok ss => (λ s, (statement_role ctx change, s)) <$> ss
  | _ => []
  end.

Definition active_role (ctx : SqlContext) (active : option string) : option string :=
  match active with Some grantor => Some grantor | None => execution_role ctx end.

Lemma sql_redact change ss : map sql (redact change <$> ss) = ss.
Proof. induction ss as [|s ss IH]; [done|]. simpl. by rw IH. Qed.

Lemma render_step_session ctx result active change result' active' trace :
  render_step ctx (result, active) change = Ok (result', active') →
  run_session (execution_role ctx) (map sql result) = (trace, active_role ctx active) →
  run_session (execution_role ctx) (map sql result') =
    (trace ++ change_trace ctx change, active_role ctx active').
Proof.
  unfold render_step, change_trace. rw bind_Ok. intros ([] & _ & Hstep). revert Hstep.
  destruct (render_unscoped_statements change ctx) as [ss| |] eqn:Hss; simpl; [|done..].
  apply render_unscoped_ordinary in Hss.
  case_bool_decide as Hnil; [subst; intros [= <- <-] ->; by rw app_nil_r|].
  intros [= <- <-] Hrun. rw !map_app sql_redact run_session_app Hrun.
  rw run_session_app.
  assert (run_session (active_role ctx active)
            (map sql (if decide (grantor_of change = active) then []
                      else (if active is Some _ then [plain (restore ctx)] else []) ++
                           (if grantor_of change is Some role then [plain (set_role role)] else [])))
          = ([], statement_role ctx change)) as ->.
  { unfold statement_role. case_decide as Hg; [by rw Hg; destruct active|].
    destruct active, (grantor_of change); simpl; rw ?session_switch_restore ?session_switch_set //. }
  by rw run_ordinary.
Qed.

Lemma fold_step_session ctx changes result active result' active' trace :
  fold_res (render_step ctx) (result, active) changes = Ok (result', active') →
  run_session (execution_role ctx) (map sql result) = (trace, active_role ctx active) →
  run_session (execution_role ctx) (map sql result') =
    (trace ++ (changes ≫= change_trace ctx), active_role ctx active').
Proof.
  revert result active trace. induction changes as [|c changes IH]=> result active trace.
  - simpl. intros [= <- <-] ->. by rw app_nil_r.
  - cbn [fold_res]. rw bind_Ok. intros ([r a] & Hc & Hrest) Hrun.
    rw (IH r a (trace ++ change_trace ctx c)) //; [by rw bind_cons app_assoc|].
    by eapply render_step_session.
Qed.

(** C2: Executing a rendered batch in order, starting in the configured role, runs
    every statement of every change exactly once and in plan order: the statements of
    an object revoke under its recorded grantor, all others under the configured role.
    The session ends in the configured role. *)
Theorem batch_runs_under_roles (changes : list Change) (ctx : SqlContext)
    (out : list RenderedStatement) :
  render_batch_with_context changes ctx = Ok out →
  run_session (execution_role ctx) (map sql out) =
    (changes ≫= change_trace ctx, execution_role ctx).
Proof.
  unfold render_batch_with_context. case_match; [done|].
  rw bind_Ok. intros ([result active] & Hfold & [= <-]).
  rw map_app run_session_app.
  rw (fold_step_session _ _ _ _ _ _ [] Hfold) //.
  destruct active as [g|]; simpl; [rw session_switch_restore|]; by rw app_nil_r.
Qed.

(** A batch is rendered exactly when no membership with unknown grantors is
    replaced on PostgreSQL 16 and every change passes its membership-option checks and
    sets no default privilege on databases; otherwise the caller gets an error. *)
Theorem batch_rendered_iff (changes : list Change) (ctx : SqlContext) :
  (∃ out, render_batch_with_context changes ctx = Ok out) ↔
  unattributed changes ctx = false ∧ ∀ c, c ∈ changes → renderable ctx c.
Proof. apply render_batch_ok. Qed.

(** ** Redaction *)

(** The plan with every password replaced. *)
Definition with_passwords (f : string → string) (change : Change) : Change :=
  match change with
  | Change.SetPassword name password => Change.SetPassword name (f name)
  | c => c
  end.

Lemma validate_with_passwords f change ctx :
  validate_membership_options (with_passwords f change) ctx = validate_membership_options change ctx.
Proof. by destruct change. Qed.

Lemma unattributed_with_passwords f changes ctx :
  unattributed (with_passwords f <$> changes) ctx = unattributed changes ctx.
Proof.
  unfold unattributed. f_equal.
  assert (∀ c, unattributed_replacement (with_passwords f <$> changes) (with_passwords f c) =
               unattributed_replacement changes c) as Hc.
  { intros c. destruct c; try done. destruct grantor; [done|]. simpl.
    induction changes as [|d changes IH]; [done|]. simpl. rw IH. by destruct d. }
  assert (∀ l, existsb (unattributed_replacement (with_passwords f <$> changes)) (with_passwords f <$> l) =
               existsb (unattributed_replacement changes) l) as Hl; [|apply Hl].
  intros l. induction l as [|c l IH]; [done|]. cbn [fmap list_fmap existsb]. by rw Hc IH.
Qed.

(** Two outputs that look the same once redacted. *)
Definition same_redacted (st st' : list RenderedStatement * option string) : Prop :=
  redacted_sql <$> st.1 = redacted_sql <$> st'.1 ∧ st.2 = st'.2.

Lemma render_redacted f ctx change ss :
  render_unscoped_statements change ctx = Ok ss →
  ∃ ss', render_unscoped_statements (with_passwords f change) ctx = Ok ss' ∧
         (ss = [] ↔ ss' = []) ∧
         redacted_sql <$> (redact change <$> ss) =
         redacted_sql <$> (redact (with_passwords f change) <$> ss').
Proof.
  intros Hss. destruct change; try (by exists ss).
  simpl in *. injection Hss as <-. eexists. split_and!; done.
Qed.

Lemma render_step_redacted f ctx change st st' res :
  same_redacted st st' →
  render_step ctx st change = Ok res →
  ∃ res', render_step ctx st' (with_passwords f change) = Ok res' ∧ same_redacted res res'.
Proof.
  destruct st as [r a], st' as [r' a']. intros [Hr Ha]. simpl in Hr, Ha. subst a'.
  unfold render_step. rw validate_with_passwords bind_Ok. intros ([] & -> & Hstep). revert Hstep.
  rw bind_Ok. intros (ss & Hss & Hstep). revert Hstep.
  destruct (render_redacted f _ _ _ Hss) as (ss' & Hss' & Hnil & Hred).
  rw /= Hss' /=. rw (bool_decide_ext (ss = []) (ss' = []) Hnil).
  assert (grantor_of (with_passwords f change) = grantor_of change) as -> by by destruct change.
  case_bool_decide; intros [= <-]; eexists; (split; [done|]); [done|].
  split; [|done]. cbn [fst snd]. by rw !fmap_app Hr Hred.
Qed.

Lemma fold_step_redacted f ctx changes st st' res :
  same_redacted st st' →
  fold_res (render_step ctx) st changes = Ok res →
  ∃ res', fold_res (render_step ctx) st' (with_passwords f <$> changes) = Ok res' ∧
          same_redacted res res'.
Proof.
  revert st st'. induction changes as [|c changes IH]=> st st' Hst.
  - intros [= <-]. by exists st'.
  - cbn [fold_res fmap list_fmap]. rw bind_Ok. intros (s & Hs & Hrest).
    destruct (render_step_redacted f _ _ _ _ _ Hst Hs) as (s' & -> & Hs').
    by apply (IH s s').
Qed.

(** What is displayed or logged of a batch does not depend on its passwords: with
    every password replaced by anything else, the redacted statements are the same. *)
Theorem redacted_hides_passwords (f : string → string) (changes : list Change) (ctx : SqlContext)
    (out : list RenderedStatement) :
  render_batch_with_context changes ctx = Ok out →
  ∃ out', render_batch_with_context (with_passwords f <$> changes) ctx = Ok out' ∧
          redacted_sql <$> out' = redacted_sql <$> out.
Proof.
  unfold render_batch_with_context. fold (unattributed changes ctx).
  fold (unattributed (with_passwords f <$> changes) ctx). rw unattributed_with_passwords.
  destruct (unattributed changes ctx); [done|].
  rw bind_Ok. intros ([r a] & Hfold & [= <-]).
  destruct (fold_step_redacted f _ _ _ ([], None) _ (conj eq_refl eq_refl) Hfold)
    as ([r' a'] & -> & [Hr Ha]). simpl in Hr, Ha. subst a'.
  eexists. split; [done|]. by rw !fmap_app Hr.
Qed.

(** ** Wildcards and owners *)

(** The objects of an inventory a statement with [action] may name. *)
Definition target_objects (revoking : bool) (ctx : SqlContext) (role : Grantee) (t : ObjectType)
    (schema : string) (names : list string) : list string :=
  filter (λ n, negb revoking || negb (grantee_owns_relation ctx role t schema n)) names.

Definition relation_type (t : ObjectType) : bool :=
  match t with
  | ObjectType.Table | ObjectType.View | ObjectType.MaterializedView
  | ObjectType.Sequence | ObjectType.Function => true
  | _ => false
  end.

Lemma format_target_inventory t schema n :
  relation_type t → n ≠ "*" →
  format_object_target t (Some schema) (Some n) = inventory_target t schema n.
Proof.
  intros Ht Hn%String.eqb_neq. destruct t; try done; cbn [format_object_target default]; by rw Hn.
Qed.

Lemma render_revoke_one role ps t schema n ctx :
  relation_type t → n ≠ "*" →
  render_revoke role ps t (Some schema) (Some n) ctx =
    Ok [privilege_statement "REVOKE" (format_privileges ps) (inventory_target t schema n) "FROM" role].
Proof.
  intros Ht Hn. unfold render_revoke, render_privilege_statements.
  rw bool_decide_false; [|congruence]. rw andb_false_r. by rw format_target_inventory.
Qed.

(** A wildcard REVOKE over an inventoried schema is one REVOKE per object of the
    inventory, in its order, each the statement of the revoke of that object alone, and
    leaves out exactly the objects the grantee owns. *)
Theorem wildcard_revoke_spares_owned (role : Grantee) (ps : gset Privilege) (t : ObjectType)
    (schema : string) (grantor : option string) (ctx : SqlContext) (names : list string) :
  relation_type t → object_inventory ctx !! (t, schema) = Some names → "*" ∉ names →
  ∃ ss,
    render_unscoped_statements (Change.Revoke role ps t (Some schema) (Some "*") grantor) ctx = Ok ss ∧
    Forall2 (λ n s,
        render_unscoped_statements (Change.Revoke role ps t (Some schema) (Some n) grantor) ctx = Ok [s])
      (target_objects true ctx role t schema names) ss ∧
    ∀ n, n ∈ target_objects true ctx role t schema names ↔
         n ∈ names ∧ grantee_owns_relation ctx role t schema n = false.
Proof.
  intros Ht Hinv Hstar. cbn [render_unscoped_statements].
  exists ((λ n, privilege_statement "REVOKE" (format_privileges ps) (inventory_target t schema n)
                  "FROM" role) <$> target_objects true ctx role t schema names).
  split_and!.
  - unfold render_revoke, render_privilege_statements.
    assert ((match t with
             | ObjectType.Table | ObjectType.View | ObjectType.MaterializedView
             | ObjectType.Sequence | ObjectType.Function => true
             | _ => false
             end && bool_decide (Some "*" = Some "*")) = true) as -> by by destruct t.
    unfold render_wildcard_expanded. cbn [default]. by rw Hinv.
  - apply Forall2_fmap_r, Forall_Forall2_diag, Forall_forall. intros n Hn.
    apply render_revoke_one; [done|]. intros ->.
    apply Hstar. by apply list_elem_of_filter in Hn as [_ ?].
  - intros n. unfold target_objects. rw list_elem_of_filter.
    destruct (grantee_owns_relation ctx role t schema n); simpl; naive_solver.
Qed.

(** ** One statement per string *)

(** The part of a routine name that is not quoted: its signature. *)
Definition signature_of (function_name : string) : string :=
  match function_signature_start function_name with
  | Some i => String.substring i (String.length function_name - i) function_name
  | None => ""
  end.
Definition signature_fragment (n : string) : Prop := fragment (signature_of n).
#[global] Instance signature_fragment_dec n : Decision (signature_fragment n).
Proof.
  unfold signature_fragment, fragment. generalize (scan ScanMode.Top (signature_of n)).
  intros m. destruct m; first [left; reflexivity | right; discriminate].
Defined.

(** Routine names have well-delimited signatures, and a relation wildcard has the
    inventory that keeps it from becoming a [DO] block. *)
Definition target_delimited (ctx : SqlContext) (revoking : bool) (t : ObjectType)
    (schema name : option string) : Prop :=
  match name with
  | None => True
  | Some n =>
      if String.eqb n "*" then
        match object_inventory ctx !! (t, default "public" schema) with
        | Some names => t = ObjectType.Function → Forall signature_fragment names
        | None => t ∉ [ObjectType.Table; ObjectType.View; ObjectType.MaterializedView] ∧
                  (revoking → t ≠ ObjectType.Sequence)
        end
      else t = ObjectType.Function → signature_fragment n
  end.

Definition delimited (ctx : SqlContext) (change : Change) : Prop :=
  match change with
  | Change.Grant _ _ t schema name => target_delimited ctx false t schema name
  | Change.Revoke _ _ t schema name _ => target_delimited ctx true t schema name
  | _ => True
  end.

Lemma fragment_routine schema n : signature_fragment n → fragment (qualified_function_name schema n).
Proof.
  unfold signature_fragment, signature_of, qualified_function_name.
  destruct (function_signature_start n) as [i|]; intros Hs; [case_match|];
    eauto 10 with pgroles.
Qed.

Lemma fragment_target t schema name :
  match name with
  | Some n => if String.eqb n "*" then True else t = ObjectType.Function → signature_fragment n
  | None => True
  end → fragment (format_object_target t schema name).
Proof.
  intros Hn. destruct t; cbn [format_object_target sql_object_type_keyword sql_object_type_plural];
    try (destruct name as [n|]; [destruct (String.eqb n "*")|]); eauto 10 with pgroles.
  unfold format_function_target. eauto using fragment_routine with pgroles.
Qed.

Lemma fragment_inventory_target t schema n :
  (t = ObjectType.Function → signature_fragment n) → fragment (inventory_target t schema n).
Proof.
  intros Hn. destruct t; cbn [inventory_target sql_object_type_keyword]; eauto 10 with pgroles.
  unfold format_function_target. eauto using fragment_routine with pgroles.
Qed.

Lemma privilege_statement_one action ps target prep role :
  fragment action → fragment prep → fragment target → fragment ps →
  one_statement (privilege_statement action ps target prep role).
Proof. intros. unfold privilege_statement. eauto 20 with pgroles. Qed.

Lemma render_privilege_one (revoking : bool) role ps t schema name ctx ss :
  target_delimited ctx revoking t schema name →
  render_privilege_statements (if revoking then "REVOKE" else "GRANT") role (format_privileges ps)
    t schema name ctx = Ok ss →
  Forall one_statement ss.
Proof.
  intros Hd. unfold render_privilege_statements.
  assert (∀ target prep, fragment target → prep = "TO" ∨ prep = "FROM" →
            one_statement (privilege_statement (if revoking then "REVOKE" else "GRANT")
                             (format_privileges ps) target prep role)) as Hone.
  { intros target prep Ht [-> | ->]; apply privilege_statement_one; auto with pgroles;
      by destruct revoking. }
  set (prep := if String.eqb _ "GRANT" then "TO" else "FROM").
  assert (prep = "TO" ∨ prep = "FROM") as Hprep by (subst prep; destruct revoking; auto).
  destruct (match t with ObjectType.Table => _ | _ => _ end && bool_decide (name = Some "*")) eqn:Hw.
  - apply andb_true_iff in Hw as [Ht ->%bool_decide_eq_true]. simpl in Hd.
    unfold render_wildcard_expanded.
    destruct (negb _ && _) eqn:Hc.
    { intros [= <-]. constructor; [|done]. apply Hone; [by apply fragment_target|done]. }
    destruct (object_inventory ctx !! (t, default "public" schema)) as [names|].
    { intros [= <-]. apply Forall_fmap, Forall_forall. intros n [_ Hn]%list_elem_of_filter. simpl.
      apply Hone; [|done]. apply fragment_inventory_target. intros Hf.
      by apply (proj1 (Forall_forall _ _) (Hd Hf)). }
    case_decide.
    { intros [= <-]. constructor; [|done]. apply Hone; [by apply fragment_target|done]. }
    destruct Hd as [Hrel Hseq]. exfalso.
    rw !not_elem_of_cons in Hrel. destruct Hrel as (? & ? & ? & _).
    destruct t, revoking; try done. by apply Hseq.
  - intros [= <-]. constructor; [|done]. apply Hone; [|done]. apply fragment_target.
    destruct name as [n|]; [|done]. simpl in Hd. by destruct (String.eqb n "*").
Qed.

Lemma options_fragment l : Forall fragment l → fragment (join " " l).
Proof. by apply fragment_join. Qed.

Lemma attribute_option_fragment attr : Forall fragment (attribute_option attr).
Proof.
  destruct attr as [[]|[]|[]|[]|[]|[]|[]|v|[ts|]|p v|p]; repeat constructor;
    eauto with pgroles.
Qed.

Lemma set_config_one name parameter value : one_statement (render_set_config name parameter value).
Proof.
  unfold render_set_config.
  assert (fragment (if is_list_quote_parameter parameter then
      match default [] (split_guc_list value) with
      | [] => quote_literal ""
      | elements => join ", " (quote_literal <$> elements)
      end else quote_literal value)) as Hv; [|eauto 20 with pgroles].
  case_match; [|apply fragment_literal]. case_match; [apply fragment_literal|].
  apply fragment_join; [done|]. apply Forall_fmap, Forall_forall. intros. apply fragment_literal.
Qed.

Lemma alter_role_one name attrs : Forall one_statement (render_alter_role name attrs).
Proof.
  unfold render_alter_role. apply Forall_app. split.
  - case_bool_decide; constructor; [|done].
    assert (fragment (join " " (attrs ≫= attribute_option))); [|eauto 20 with pgroles].
    apply options_fragment, Forall_bind, Forall_forall. intros. apply attribute_option_fragment.
  - apply Forall_bind, Forall_forall. intros [] _; repeat constructor;
      eauto using set_config_one with pgroles.
Qed.

Lemma create_role_one name st : Forall one_statement (render_create_role name st).
Proof.
  unfold render_create_role. set (opts := _ ++ _ ++ _).
  assert (fragment (join " " opts)) as Ho.
  { apply options_fragment. subst opts. apply Forall_app. split.
    - unfold bool_option. repeat constructor; by case_match.
    - apply Forall_app. split; case_match; repeat constructor; eauto with pgroles. }
  constructor; [eauto 20 with pgroles|].
  case_match; repeat constructor. eauto 20 with pgroles.
Qed.

Lemma add_member_one role member inherit admin ctx :
  Forall one_statement (render_add_member role member inherit admin ctx).
Proof.
  unfold render_add_member. cbv zeta. case_match; constructor; try done.
  - assert (fragment (join ", " ((if inherit then "INHERIT TRUE" else "INHERIT FALSE") ::
              (if admin then ["ADMIN TRUE"] else [])))) by (by destruct inherit, admin).
    eauto 20 with pgroles.
  - destruct admin; eauto 20 with pgroles.
Qed.

Lemma member_options_one role member grantor inherit admin binding :
  Forall one_statement (render_member_options role member grantor inherit admin binding).
Proof.
  unfold render_member_options. rw !Forall_app.
  split_and!; case_match; repeat constructor; eauto 20 with pgroles.
  assert (∀ o, Forall fragment o → fragment (join ", " o)) as Hj by (by intros; apply fragment_join).
  match goal with |- context [join ", " ?o] => assert (fragment (join ", " o)) end;
    [|eauto 20 with pgroles].
  apply Hj. rw !Forall_app. split_and!; repeat case_match; repeat constructor.
Qed.

Lemma default_privilege_one owner scope k g ps verb prep :
  fragment verb → fragment prep → fragment k →
  one_statement ("ALTER DEFAULT PRIVILEGES FOR ROLE " +:+ quote_ident owner +:+
      render_default_privilege_scope_clause scope +:+ verb +:+
      format_privileges ps +:+ " ON " +:+ k +:+ prep +:+ render_grantee g +:+ ";").
Proof.
  intros. assert (fragment (render_default_privilege_scope_clause scope)).
  { destruct scope; simpl; eauto with pgroles. }
  eauto 20 with pgroles.
Qed.

Lemma render_unscoped_one change ctx ss :
  delimited ctx change → render_unscoped_statements change ctx = Ok ss → Forall one_statement ss.
Proof.
  intros Hd. destruct change; cbn [render_unscoped_statements].
  all: try (lazymatch goal with |- Ok _ = _ → _ => intros [= <-] end).
  - apply create_role_one.
  - unfold render_create_schema. case_match; repeat constructor; eauto 20 with pgroles.
  - repeat constructor. unfold render_alter_schema_owner. eauto 20 with pgroles.
  - intros Hr. eapply (render_privilege_one false), Hr. simpl.
    repeat case_match; [done| |done]. split; [|done]. rw !not_elem_of_cons.
    split_and!; [done..|apply not_elem_of_nil].
  - apply alter_role_one.
  - unfold render_set_comment. case_match; repeat constructor; eauto 20 with pgroles.
  - intros Hr. by eapply (render_privilege_one false), Hr.
  - intros Hr. by eapply (render_privilege_one true), Hr.
  - unfold render_set_default_privilege. rw bind_Ok. intros (k & Hk & [= <-]).
    constructor; [|done]. apply default_privilege_one; [done..|]. by destruct on_type; simplify_eq/=.
  - unfold render_revoke_default_privilege. rw bind_Ok. intros (k & Hk & [= <-]).
    constructor; [|done]. apply default_privilege_one; [done..|]. by destruct on_type; simplify_eq/=.
  - apply add_member_one.
  - apply member_options_one.
  - unfold render_remove_member. repeat case_match; repeat constructor; eauto 20 with pgroles.
  - repeat constructor. eauto 20 with pgroles.
  - repeat constructor. eauto 20 with pgroles.
  - repeat constructor. eauto 20 with pgroles.
  - repeat constructor. eauto 20 with pgroles.
  - repeat constructor. eauto 20 with pgroles.
Qed.

Lemma switches_one ctx (active grantor : option string) :
  Forall (λ st, one_statement (sql st))
    ((if active is Some _ then [plain (restore ctx)] else []) ++
     (if grantor is Some role then [plain (set_role role)] else [])).
Proof.
  assert (∀ role, one_statement (set_role role)) as Hset by (unfold set_role; eauto with pgroles).
  assert (one_statement (restore ctx)) as Hres by (unfold restore; by case_match).
  apply Forall_app. split; case_match; repeat constructor; simpl; done.
Qed.

(** Whatever text the names, comments, settings and passwords of a plan contain,
    every string of its rendered batch is read as exactly one statement: outside quotes
    it has no comment, no dollar quoting and no semicolon but its last byte.  Routine
    names must carry a well-delimited signature, and relation wildcards an inventory. *)
Theorem batch_one_statement_each (changes : list Change) (ctx : SqlContext)
    (out : list RenderedStatement) :
  (∀ c, c ∈ changes → delimited ctx c) →
  render_batch_with_context changes ctx = Ok out →
  Forall (λ st, one_statement (sql st)) out.
Proof.
  intros Hd. unfold render_batch_with_context. case_match; [done|].
  rw bind_Ok. intros ([result active] & Hfold & [= <-]). apply Forall_app. split.
  - revert Hfold. apply (fold_res_inv (λ st, Forall (λ x, one_statement (sql x)) st.1)); [done|].
    intros [r a] c [r' a'] Hc Hr. unfold render_step. rw bind_Ok. intros ([] & _ & Hstep).
    apply bind_Ok in Hstep as (ss & Hss & Hstep).
    apply (render_unscoped_one _ _ _ (Hd c Hc)) in Hss. revert Hstep.
    case_bool_decide; intros [= <- <-]; [done|]. cbn [fst] in *.
    apply Forall_app. split; [done|]. apply Forall_app. split.
    + case_decide; [done|]. apply switches_one.
    + by apply Forall_fmap.
  - generalize (switches_one ctx active None). by rw app_nil_r.
Qed.
