(* ===== verification/Witnesses.v ===== *)
(** * Concrete instances of the theorems on diffs, plans and rendered SQL

    One graph pair with an owner-inherent entry, a PUBLIC grant, a wildcard, absence
    assertions and recorded grantors; each theorem with hypotheses is applied to it. *)

From S2P Require Import Prelude BTree RustStr Types Guc Model Change Diff DiffFacts DiffSafety Interp Converge Convergence Plan PlanFacts Sql SqlLex SqlFacts.

Module Scene.
Definition key (role : Grantee) (name : string) : GrantKey := {|
  gk_role := role; gk_object_type := ObjectType.Table; gk_schema := Some "app";
  gk_name := Some name |}.
Definition app : Grantee := Grantee.Role "app".

Definition with_extras (g : RoleGraph) (absences : gmap GrantKey (gset Privilege))
    (inherent : gset GrantKey) (edge_grantors : gmap (string * string) (gset string))
    (authority : gset (string * string * string))
    (grantors : gmap GrantKey (gmap string (gset Privilege))) : RoleGraph := {|
  routine_aliases := routine_aliases g; roles := roles g; schemas := schemas g;
  grants := grants g; default_privileges := default_privileges g;
  memberships := memberships g; grant_absences := absences;
  default_privilege_absences := default_privilege_absences g;
  exclusive_membership_roles := exclusive_membership_roles g;
  inherent_grants := inherent; membership_edge_grantors := edge_grantors;
  membership_edge_options := membership_edge_options g;
  executor_authority_edges := authority; grant_entry_grantors := grantors |}.

Definition current : RoleGraph :=
  with_extras
    (with_live role_graph_default {["app" := role_state_default; "old" := role_state_default]} ∅
       {[key app "owned" := {[Privilege.Select; Privilege.Insert]};
         key app "t" := {[Privilege.Select; Privilege.Insert]};
         key Grantee.Public "t" := {[Privilege.Select; Privilege.Update]}]} ∅
       {[ {| me_role := "app"; me_member := "old"; me_inherit := true; me_admin := true |} ]})
    ∅ {[key app "owned"]} {[("app", "old") := {["admin"; "postgres"]}]}
    {[("app", "old", "admin")]}
    {[key app "t" := {["postgres" := {[Privilege.Select; Privilege.Insert]};
                       "owner" := {[Privilege.Insert]}]}]}.

Definition desired : RoleGraph :=
  with_extras
    (with_live role_graph_default {["app" := role_state_default]} ∅
       {[key app "t" := {[Privilege.Select]}]} ∅ ∅)
    {[key Grantee.Public "t" := {[Privilege.Select]}; key app "*" := {[Privilege.Insert]}]}
    ∅ ∅ ∅ ∅.

Definition manifest : PolicyManifest := {|
  pm_role_pattern := None; pm_default_owner := None; pm_auth_providers := [];
  pm_profiles := ∅; pm_schemas := []; pm_roles := []; pm_grants := [];
  pm_default_privileges := []; pm_memberships := []; pm_retirements :=
    [{| rr_role := "old"; rr_reassign_owned_to := Some "app"; rr_drop_owned := true;
        rr_terminate_sessions := false |}] |}.
Definition expanded : ExpandedManifest := {|
  em_schemas := []; em_roles := []; em_grants := []; em_default_privileges := [];
  em_memberships := [] |}.
End Scene.

(** The whole plan of the scene: the insert privilege goes once per grantor, PUBLIC loses
    the asserted privilege only, the owned table and the executor's edge stay. *)
Example scene_plan :
  plan_changes Scene.current Scene.desired Scene.manifest Scene.expanded
    ReconciliationMode.Authoritative =
  [change_revoke (Scene.key Grantee.Public "t") {[Privilege.Select]} None;
   change_revoke (Scene.key Scene.app "t") {[Privilege.Insert]} (Some "owner");
   change_revoke (Scene.key Scene.app "t") {[Privilege.Insert]} (Some "postgres");
   Change.RemoveMember "app" "old" (Some "postgres");
   Change.ReassignOwned "old" "app"; Change.DropOwned "old"; Change.DropRole "old"].
Proof. vm_compute. reflexivity. Qed.

Lemma diff_keeps_inherent_entries_witness :
  Scene.key Scene.app "t" ∉ inherent_grants Scene.current.
Proof.
  apply (diff_keeps_inherent_entries Scene.current Scene.desired Scene.app {[Privilege.Insert]}
    ObjectType.Table (Some "app") (Some "t") (Some "owner")).
  apply (bool_decide_unpack _). vm_compute. exact I.
Defined.

Lemma diff_revokes_are_justified_witness :
  ∃ key0, revoke_source Scene.current key0 (Scene.key Scene.app "t") ∧
    (assertion_violated Scene.current (aligned Scene.current Scene.desired) key0 Privilege.Insert ∨
     drifted Scene.current (aligned Scene.current Scene.desired) key0 Privilege.Insert).
Proof.
  apply (diff_revokes_are_justified Scene.current Scene.desired Scene.app {[Privilege.Insert]}
    ObjectType.Table (Some "app") (Some "t") (Some "owner")).
  - apply (bool_decide_unpack _). vm_compute. exact I.
  - set_solver.
Defined.

Lemma public_revoked_only_by_assertion_witness :
  ∃ key0 A, grant_absences Scene.desired !! key0 = Some A ∧ Privilege.Select ∈ A.
Proof.
  destruct (public_revoked_only_by_assertion Scene.current Scene.desired
    (change_revoke (Scene.key Grantee.Public "t") {[Privilege.Select]} None) Privilege.Select)
    as (key0 & A & H1 & H2 & _).
  - apply (bool_decide_unpack _). vm_compute. exact I.
  - set_solver.
  - by exists key0, A.
Defined.

Lemma revoke_split_exact_witness :
  ∃ Y g, change_revoke (Scene.key Scene.app "t") Y g ∈
    push_revokes_exact Scene.current Scene.desired (Scene.key Scene.app "t") {[Privilege.Insert]} ∧
    Privilege.Insert ∈ Y.
Proof. apply revoke_split_exact; [set_solver|set_solver]. Defined.


Lemma diff_keeps_executor_authority_witness :
  Change.RemoveMember "app" "old" (Some "admin") ∉ diff Scene.current Scene.desired.
Proof.
  apply (diff_keeps_executor_authority Scene.current Scene.desired "app" "old" "admin").
  apply (bool_decide_unpack _). vm_compute. exact I.
Defined.

Lemma additive_execution_extends_witness :
  apply_changes Scene.current
    (filter_changes [Change.DropRole "old"] ReconciliationMode.Additive) = Some Scene.current ∧
  extends Scene.current Scene.current.
Proof.
  split; [reflexivity|].
  apply (additive_execution_extends Scene.current [Change.DropRole "old"]). reflexivity.
Defined.

Lemma inject_passwords_spec_witness :
  password_count "app" (inject_password_changes (λ _ pw, pw)
    [Change.CreateRole "app" role_state_default] {["app" := "secret"; "old" := "s2"]}) = 1.
Proof.
  destruct (inject_passwords_spec (λ _ pw, pw) [Change.CreateRole "app" role_state_default]
    {["app" := "secret"; "old" := "s2"]}) as [Hcount _].
  - intros c Hc. by apply list_elem_of_singleton in Hc as ->.
  - intros name. unfold creations. rw filter_cons. case_decide; simpl; lia.
  - by rw Hcount.
Defined.

Lemma plan_changes_safe_witness :
  Scene.key Scene.app "t" ∉ inherent_grants Scene.current.
Proof.
  apply (plan_changes_safe Scene.current Scene.desired Scene.manifest Scene.expanded
    ReconciliationMode.Authoritative
    (change_revoke (Scene.key Scene.app "t") {[Privilege.Insert]} (Some "owner"))).
  rw scene_plan. right. left.
Defined.

(** ** A rendered plan

    The properties of [SqlFacts] at a concrete batch, and the two inputs a rendered
    statement is not delimited at. *)

Module SqlScene.

Definition dba : string := "dba".
Definition app : Grantee := Grantee.Role "app'x".

(** A server of version 17.2 with an inventory of two tables, one owned by the
    grantee, reached as [dba]. *)
Definition ctx : SqlContext :=
  with_execution_role
    (with_owned_relations
       (with_object_inventory (from_version_num 170002)
          {[ (ObjectType.Table, "s") := ["own"; "t;--"] ]})
       {[ ("app'x", ObjectType.Table, "s", "own") ]})
    (Some dba).

Definition select : gset Privilege := {[ Privilege.Select ]}.

Definition changes : list Change :=
  [Change.Grant app select ObjectType.Table (Some "s") (Some "it's");
   Change.Grant app {[ Privilege.Execute ]} ObjectType.Function (Some "s") (Some "f(bigint)");
   Change.Revoke app select ObjectType.Table (Some "s") (Some "*") (Some "alice");
   Change.Revoke app select ObjectType.Table (Some "s") (Some "x") (Some "alice");
   Change.Revoke app select ObjectType.Table (Some "s") (Some "y") None;
   Change.SetPassword "app" "SCRAM-SHA-256$'";
   Change.Revoke app select ObjectType.View (Some "s") (Some "v") (Some "bob")].

Definition batch : list RenderedStatement :=
  match render_batch_with_context changes ctx with Ok out => out | _ => [] end.
End SqlScene.

Import SqlScene.

Lemma scene_renders : render_batch_with_context changes ctx = Ok batch.
Proof. vm_compute. reflexivity. Qed.

Lemma scene_delimited c : c ∈ changes → delimited ctx c.
Proof.
  assert (Forall (delimited ctx) changes) as H; [|intros Hc; by apply (proj1 (Forall_forall _ _) H)].
  assert (signature_fragment "f(bigint)") by (by apply (bool_decide_unpack _); vm_compute).
  repeat (apply Forall_cons; split); [..|apply Forall_nil; exact I].
  all: first [exact I | by intros ? | vm_compute; discriminate].
Qed.

Lemma batch_runs_under_roles_witness :
  render_batch_with_context changes ctx = Ok batch ∧
  run_session (Some dba) (map sql batch) = (changes ≫= change_trace ctx, Some dba).
Proof.
  split; [apply scene_renders|].
  exact (batch_runs_under_roles changes ctx batch scene_renders).
Defined.

Lemma batch_one_statement_each_witness :
  length batch = 11 ∧ Forall (λ st, one_statement (sql st)) batch.
Proof.
  split; [by vm_compute|].
  exact (batch_one_statement_each changes ctx batch scene_delimited scene_renders).
Defined.

Lemma redacted_hides_passwords_witness :
  (∃ st, st ∈ batch ∧ sql st ≠ redacted_sql st) ∧
  ∃ out', render_batch_with_context (with_passwords (λ _, "x") <$> changes) ctx = Ok out' ∧
          redacted_sql <$> out' = redacted_sql <$> batch.
Proof.
  split; [|exact (redacted_hides_passwords (λ _, "x") changes ctx batch scene_renders)].
  exists (nth 7 batch (plain "")). split; [|vm_compute; discriminate].
  apply list_elem_of_lookup_2 with (i := 7). vm_compute. reflexivity.
Defined.

Lemma wildcard_revoke_spares_owned_witness :
  target_objects true ctx app ObjectType.Table "s" ["own"; "t;--"] = ["t;--"] ∧
  ∃ ss,
    render_unscoped_statements
      (Change.Revoke app select ObjectType.Table (Some "s") (Some "*") (Some "alice")) ctx = Ok ss ∧
    Forall2 (λ n s,
        render_unscoped_statements
          (Change.Revoke app select ObjectType.Table (Some "s") (Some n) (Some "alice")) ctx = Ok [s])
      (target_objects true ctx app ObjectType.Table "s" ["own"; "t;--"]) ss ∧
    ∀ n, n ∈ target_objects true ctx app ObjectType.Table "s" ["own"; "t;--"] ↔
         n ∈ ["own"; "t;--"] ∧ grantee_owns_relation ctx app ObjectType.Table "s" n = false.
Proof.
  split; [by vm_compute|].
  apply (wildcard_revoke_spares_owned app select ObjectType.Table "s" (Some "alice") ctx
           ["own"; "t;--"]).
  - reflexivity.
  - vm_compute. reflexivity.
  - apply (bool_decide_unpack _). vm_compute. exact I.
Defined.

(** ** Where a statement is not delimited *)

(** A routine name is split at the parenthesis a backwards scan finds, and what follows
    it is not quoted.  The scan reads the double quotes of comments as quotes, so a
    name can close the argument list early and go on with another statement. *)
Definition breakout_name : string :=
  "f(/*" +:+ DQ +:+ "*/int) TO app; DROP ROLE dba; --" +:+ DQ +:+ ")".

Lemma routine_name_breaks_out :
  render_unscoped_statements
    (Change.Grant (Grantee.Role "app") {[ Privilege.Execute ]} ObjectType.Function
       (Some "s") (Some breakout_name)) ctx =
  Ok ["GRANT EXECUTE ON ROUTINE " +:+ dq "s" +:+ "." +:+ dq "f" +:+
      "(/*" +:+ DQ +:+ "*/int) TO app; DROP ROLE dba; --" +:+ DQ +:+ ") TO " +:+ dq "app" +:+ ";"].
Proof. vm_compute. reflexivity. Qed.

(** A dollar-quoted body ends at the next occurrence of its tag, wherever that is. *)
Fixpoint until_tag (tag s : string) : option (string * string) :=
  if String.prefix tag s
  then Some ("", String.substring (String.length tag) (String.length s) s)
  else match s with
       | "" => None
       | String a s => '(body, rest) ← until_tag tag s; Some (String a body, rest)
       end.

(** The wildcard of a relation without inventory is a [DO] block whose tag is fixed: a
    schema whose name contains the tag ends the block inside the name. *)
Lemma do_block_tag_breaks_out :
  ∃ block body rest,
    render_unscoped_statements
      (Change.Grant (Grantee.Role "app") select ObjectType.Table
         (Some "x$pgroles$; DROP ROLE dba; --") (Some "*")) ctx =
      Ok ["DO $pgroles$" +:+ block] ∧
    until_tag "$pgroles$" block = Some (body, rest) ∧
    starts_with "; DROP ROLE dba; --" rest = true.
Proof. eexists _, _, _. split_and!; [vm_compute; reflexivity..|]. vm_compute. reflexivity. Qed.
