(* ===== verification/Manifest.v ===== *)
(** * Content bounds ([bounds.rs], [validate_bounds] of [manifest.rs])

    The limits on the sizes of a manifest, counted in characters and, for identifiers,
    also in bytes. *)

From Stdlib Require Import Ascii.
From S2P Require Import Prelude BTree RustStr Types.

Definition MAX_IDENTIFIER : N := 63.
Definition MAX_OBJECT_NAME : N := 256.
Definition MAX_CONFIG_VALUE : N := 256.
Definition MAX_CONFIG_ENTRIES : N := 32.
Definition MAX_ROLE_PATTERN : N := 128.
Definition MAX_TIMESTAMP : N := 64.
Definition MAX_ROLES : N := 1024.
Definition MAX_GRANTS : N := 4096.
Definition MAX_PRIVILEGES : N := 16.
Definition MAX_MEMBERSHIPS : N := 2048.
Definition MAX_MEMBERS : N := 512.
Definition MAX_DEFAULT_PRIVILEGES : N := 512.
Definition MAX_DEFAULT_PRIVILEGE_GRANTS : N := 64.
Definition MAX_PROFILES : N := 128.
Definition MAX_PROFILE_GRANTS : N := 64.
Definition MAX_PROFILE_DEFAULT_PRIVILEGES : N := 32.
Definition MAX_SCHEMAS : N := 1024.
Definition MAX_SCHEMA_PROFILES : N := 64.
Definition MAX_RETIREMENTS : N := 512.

Definition validate_role_pattern (pattern : string) : res ManifestError unit :=
  let actual := N.of_nat (char_count pattern) in
  _ ← throw_if (MAX_ROLE_PATTERN <? actual)%N
        (ManifestError.ValueTooLong "role_pattern" pattern actual MAX_ROLE_PATTERN);
  throw_if (negb (str_contains "{profile}" pattern)) (ManifestError.InvalidRolePattern pattern).

(** The inner functions [entries], [text] and [config] of [validate_bounds]. *)
Definition entries (collection : string) (actual : nat) (limit : N) : res ManifestError unit :=
  throw_if (limit <? N.of_nat actual)%N
    (ManifestError.TooManyEntries collection (N.of_nat actual) limit).

Definition text (context value : string) (limit : N) : res ManifestError unit :=
  let actual := N.of_nat (char_count value) in
  let bytes := N.of_nat (String.length value) in
  _ ← throw_if (limit <? actual)%N (ManifestError.ValueTooLong context value actual limit);
  throw_if ((limit =? MAX_IDENTIFIER)%N && (limit <? bytes)%N)
    (ManifestError.ValueTooLong
       (context +:+ " (bytes; PostgreSQL identifiers are limited to 63 bytes)") value bytes limit).

(** [if let Some(value) = &value { text(..)?; }] *)
Definition text_opt (context : string) (value : option string) (limit : N) :
    res ManifestError unit :=
  match value with Some value => text context value limit | None => Ok tt end.

Definition config_bounds (context : string) (config : gmap string ConfigValue) :
    res ManifestError unit :=
  _ ← entries (context +:+ ".config") (size config) MAX_CONFIG_ENTRIES;
  for_each (λ '(key, value),
    _ ← text (context +:+ ".config key") key MAX_IDENTIFIER;
    text (context +:+ ".config[" +:+ key +:+ "]") value MAX_CONFIG_VALUE) (map_iter config).

(** The bodies of the loops of [validate_bounds], one per collection. *)
Definition profile_bounds (p : string * Profile) : res ManifestError unit :=
  let '(name, profile) := p in
  let context := "profiles." +:+ name in
  _ ← text "profile name" name MAX_IDENTIFIER;
  _ ← entries (context +:+ ".grants") (length (prof_grants profile)) MAX_PROFILE_GRANTS;
  _ ← for_each (λ grant,
        _ ← entries (context +:+ ".grants[].privileges") (length (pg_privileges grant))
              MAX_PRIVILEGES;
        text_opt "grant object name" (pot_name (pg_object grant)) MAX_OBJECT_NAME)
      (prof_grants profile);
  _ ← entries (context +:+ ".default_privileges") (length (prof_default_privileges profile))
        MAX_PROFILE_DEFAULT_PRIVILEGES;
  _ ← for_each (λ grant,
        _ ← entries (context +:+ ".default_privileges[].privileges")
              (length (dpg_privileges grant)) MAX_PRIVILEGES;
        text_opt "default privilege role" (dpg_role grant) MAX_IDENTIFIER)
      (prof_default_privileges profile);
  config_bounds context (prof_config profile).

Definition schema_bounds (binding : SchemaBinding) : res ManifestError unit :=
  _ ← text "schema name" (sb_name binding) MAX_IDENTIFIER;
  _ ← entries ("schemas." +:+ sb_name binding +:+ ".profiles") (length (sb_profiles binding))
        MAX_SCHEMA_PROFILES;
  _ ← for_each (λ profile, text "profile reference" profile MAX_IDENTIFIER) (sb_profiles binding);
  _ ← match sb_role_pattern binding with
      | Some pattern => validate_role_pattern pattern
      | None => Ok tt
      end;
  text_opt "schema owner" (sb_owner binding) MAX_IDENTIFIER.

Definition role_bounds (role : RoleDefinition) : res ManifestError unit :=
  let context := "roles." +:+ rd_name role in
  _ ← text "role name" (rd_name role) MAX_IDENTIFIER;
  _ ← text_opt (context +:+ ".comment") (rd_comment role) MAX_OBJECT_NAME;
  _ ← text_opt (context +:+ ".password_valid_until") (rd_password_valid_until role) MAX_TIMESTAMP;
  config_bounds context (rd_config role).

Definition grant_bounds (grant : Grant) : res ManifestError unit :=
  _ ← text "grant role" (gr_role grant) MAX_IDENTIFIER;
  _ ← entries "grants[].privileges" (length (gr_privileges grant)) MAX_PRIVILEGES;
  _ ← text_opt "grant object schema" (ot_schema (gr_object grant)) MAX_IDENTIFIER;
  text_opt "grant object name" (ot_name (gr_object grant)) MAX_OBJECT_NAME.

Definition default_privilege_bounds (d : DefaultPrivilege) : res ManifestError unit :=
  _ ← text_opt "default privilege schema" (dp_schema d) MAX_IDENTIFIER;
  _ ← text_opt "default privilege scope schema" (dp_scope d ≫= dps_schema) MAX_IDENTIFIER;
  _ ← text_opt "default privilege owner" (dp_owner d) MAX_IDENTIFIER;
  _ ← entries "default_privileges[].grant" (length (dp_grant d)) MAX_DEFAULT_PRIVILEGE_GRANTS;
  for_each (λ grant,
    _ ← entries "default_privileges[].grant[].privileges" (length (dpg_privileges grant))
          MAX_PRIVILEGES;
    text_opt "default privilege role" (dpg_role grant) MAX_IDENTIFIER) (dp_grant d).

Definition membership_bounds (membership : Membership) : res ManifestError unit :=
  _ ← text "membership role" (mb_role membership) MAX_IDENTIFIER;
  _ ← entries ("memberships." +:+ mb_role membership +:+ ".members")
        (length (mb_members membership)) MAX_MEMBERS;
  for_each (λ member, text "member name" (ms_name member) MAX_IDENTIFIER) (mb_members membership).

Definition retirement_bounds (retirement : RoleRetirement) : res ManifestError unit :=
  _ ← text "retirement role" (rr_role retirement) MAX_IDENTIFIER;
  text_opt "reassign_owned_to" (rr_reassign_owned_to retirement) MAX_IDENTIFIER.

Definition validate_bounds (manifest : PolicyManifest) : res ManifestError unit :=
  _ ← entries "profiles" (size (pm_profiles manifest)) MAX_PROFILES;
  _ ← for_each profile_bounds (map_iter (pm_profiles manifest));
  _ ← entries "schemas" (length (pm_schemas manifest)) MAX_SCHEMAS;
  _ ← for_each schema_bounds (pm_schemas manifest);
  _ ← match pm_role_pattern manifest with
      | Some pattern => validate_role_pattern pattern
      | None => Ok tt
      end;
  _ ← text_opt "default_owner" (pm_default_owner manifest) MAX_IDENTIFIER;
  _ ← entries "roles" (length (pm_roles manifest)) MAX_ROLES;
  _ ← for_each role_bounds (pm_roles manifest);
  _ ← entries "grants" (length (pm_grants manifest)) MAX_GRANTS;
  _ ← for_each grant_bounds (pm_grants manifest);
  _ ← entries "default_privileges" (length (pm_default_privileges manifest))
        MAX_DEFAULT_PRIVILEGES;
  _ ← for_each default_privilege_bounds (pm_default_privileges manifest);
  _ ← entries "memberships" (length (pm_memberships manifest)) MAX_MEMBERSHIPS;
  _ ← for_each membership_bounds (pm_memberships manifest);
  _ ← entries "retirements" (length (pm_retirements manifest)) MAX_RETIREMENTS;
  for_each retirement_bounds (pm_retirements manifest).

(** ** Manifest expansion ([manifest.rs])

    [expand_manifest] resolves profiles and schemas into concrete roles, grants and
    default privileges and validates the result.  A string slice off a character
    boundary is [Panic]. *)

Definition DEFAULT_ROLE_PATTERN : string := "{schema}-{profile}".

Definition substitute_placeholders (value schema profile : string) : string :=
  str_replace "{profile}" profile (str_replace "{schema}" schema value).

Definition is_valid_config_parameter_name (name : string) : bool :=
  negb (String.eqb name "") &&
  forallb (λ segment,
    match chars segment with
    | c :: cs =>
        (is_ascii_alphabetic c || String.eqb c "_") &&
        forallb (λ c, is_ascii_alphanumeric c || String.eqb c "_") cs
    | [] => false
    end) (split_on "." name).

(** ** Timestamps *)

Definition byte_is (value : string) (i : nat) (a : ascii) : bool :=
  match byte_at value i with Some b => Ascii.eqb a b | None => false end.

(** [value[i..j].parse::<uN>()], [None] when it does not parse. *)
Definition parse_field (value : string) (i j : nat) (max : N) : res ManifestError (option N) :=
  field ← slice value i j; Ok (parse_unsigned max field).

Definition is_valid_iso8601_timestamp (value : string) : res ManifestError bool :=
  if negb (String.length value =? 20)%nat then Ok false
  else if negb (byte_is value 4 "-" && byte_is value 7 "-" && byte_is value 10 "T") then Ok false
  else
    year ← slice value 0 4;
    month ← slice value 5 7;
    day ← slice value 8 10;
    match parse_unsigned 65535 year, parse_unsigned 255 month, parse_unsigned 255 day with
    | Some y, Some m, Some d =>
        if ((y <? 1970) || negb ((1 <=? m) && (m <=? 12)) || negb ((1 <=? d) && (d <=? 31)))%N
        then Ok false
        else if negb (byte_is value 13 ":" && byte_is value 16 ":") then Ok false
        else
          hour ← slice value 11 13;
          minute ← slice value 14 16;
          second ← slice value 17 19;
          match parse_unsigned 255 hour, parse_unsigned 255 minute, parse_unsigned 255 second with
          | Some h, Some min, Some sec =>
              if ((23 <? h) || (59 <? min) || (59 <? sec))%N then Ok false
              else zone ← slice value 19 (String.length value); Ok (String.eqb zone "Z")
          | _, _, _ => Ok false
          end
    | _, _, _ => Ok false
    end.

(** ** Validation helpers *)

(** [if !seen.insert(x) { return Err(e(x)) }] over a list. *)
Definition reject_duplicates (error : string → ManifestError) (names : list string) :
    res ManifestError unit :=
  seen ← fold_res (λ (seen : gset string) name,
           _ ← throw_if (bool_decide (name ∈ seen)) (error name); Ok ({[name]} ∪ seen))
         ∅ names;
  Ok tt.

(** The closure [reserved]. *)
Definition reserved (value : option string) (context : string) : res ManifestError unit :=
  throw_if (bool_decide (value = Some "PUBLIC")) (ManifestError.ReservedPublicName context).

Definition validate_public_reservation (manifest : PolicyManifest) (roles : list RoleDefinition)
    (schemas : list ExpandedSchema) (default_privileges : list DefaultPrivilege)
    (memberships : list Membership) : res ManifestError unit :=
  _ ← reserved (pm_default_owner manifest) "default_owner";
  _ ← for_each (λ role, reserved (Some (rd_name role)) "a role name") roles;
  _ ← for_each (λ schema, reserved (es_owner schema) "a schema owner") schemas;
  _ ← for_each (λ d, reserved (dp_owner d) "a default privilege owner") default_privileges;
  _ ← for_each (λ membership,
        _ ← reserved (Some (mb_role membership)) "a membership role";
        for_each (λ member, reserved (Some (ms_name member)) "a membership member")
          (mb_members membership)) memberships;
  for_each (λ retirement,
    _ ← reserved (Some (rr_role retirement)) "a retirement role";
    reserved (rr_reassign_owned_to retirement) "a retirement ownership target")
    (pm_retirements manifest).

Definition validate_database_grant_targets (grants : list Grant) : res ManifestError unit :=
  throw_if (existsb (λ grant,
      bool_decide (ot_object_type (gr_object grant) = ObjectType.Database) &&
      bool_decide (ot_name (gr_object grant) = None)) grants)
    ManifestError.DatabaseGrantMissingName.

(** The pattern of [allowed]. *)
Definition on_type_allowed (scope : DefaultPrivilegeScope) (on_type : ObjectType) : bool :=
  match scope, on_type with
  | _, (ObjectType.Database | ObjectType.View | ObjectType.MaterializedView)
  | DefaultPrivilegeScope.Schema _, ObjectType.Schema => false
  | _, _ => true
  end.

Definition validate_default_privilege_scopes (default_privileges : list DefaultPrivilege) :
    res ManifestError unit :=
  for_each (λ d,
    scope ← resolved_scope d;
    for_each (λ grant,
      throw_if (negb (on_type_allowed scope (dpg_on_type grant)))
        (ManifestError.InvalidDefaultPrivilegeOnType
           (object_type_to_string (dpg_on_type grant)) (scope_to_string scope)))
      (dp_grant d)) default_privileges.

Definition describe_object_target (target : ObjectTarget) : string :=
  let object_type := object_type_to_string (ot_object_type target) in
  match ot_schema target, ot_name target with
  | Some schema, Some name => object_type +:+ " " +:+ dq schema +:+ "." +:+ dq name
  | Some schema, None => object_type +:+ " in schema " +:+ dq schema
  | None, Some name => object_type +:+ " " +:+ dq name
  | None, None => object_type
  end.

(** ** Conflicting assertions *)

Definition GrantAssertionKey : Type :=
  string * ObjectType * option string * option string * Privilege.
Definition SelectorKey : Type := string * ObjectType * string * Privilege.
Definition DefaultAssertionKey : Type :=
  string * DefaultPrivilegeScope * string * ObjectType * Privilege.

(** [[bool; 4]]: wildcard present and absent, named present and absent. *)
Record SelectorFlags := {
  wild_present : bool;
  wild_absent : bool;
  named_present : bool;
  named_absent : bool;
}.
Definition no_flags : SelectorFlags := {|
  wild_present := false; wild_absent := false; named_present := false; named_absent := false |}.

Definition raise_flag (f : SelectorFlags) (wild : bool) (ensure : Ensure) : SelectorFlags :=
  let is_absent := match ensure with Ensure.Absent => true | Ensure.Present => false end in {|
    wild_present := wild_present f || (wild && negb is_absent);
    wild_absent := wild_absent f || (wild && is_absent);
    named_present := named_present f || (negb wild && negb is_absent);
    named_absent := named_absent f || (negb wild && is_absent) |}.

#[export] Instance ensure_eq_dec : EqDecision Ensure.
Proof. solve_decision. Defined.

(** [if let Some(existing) = map.insert(key, ensure) && existing != ensure { Err }] *)
Definition insert_assertion {K} `{Countable K} (key : K) (ensure : Ensure) (error : ManifestError)
    (assertions : gmap K Ensure) : res ManifestError (gmap K Ensure) :=
  _ ← throw_if (match assertions !! key with
                | Some existing => bool_decide (existing ≠ ensure)
                | None => false
                end) error;
  Ok (<[key := ensure]> assertions).

Definition GrantAssertions : Type :=
  gmap GrantAssertionKey Ensure * gmap SelectorKey SelectorFlags.

Definition flags_conflict (f : SelectorFlags) : bool :=
  (wild_present f && named_absent f) || (wild_absent f && named_present f).

Definition check_grant_privilege (grant : Grant) (st : GrantAssertions) (privilege : Privilege) :
    res ManifestError GrantAssertions :=
  let target := gr_object grant in
  let t := ot_object_type target in
  assertions ← insert_assertion (gr_role grant, t, ot_schema target, ot_name target, privilege)
    (gr_ensure grant)
    (ManifestError.ConflictingGrantEnsure
       ("for " +:+ dq (gr_role grant) +:+ " on " +:+ describe_object_target target)
       (privilege_to_string privilege)) st.1;
  match ot_schema target, ot_name target with
  | Some schema, Some name =>
      let key := (gr_role grant, t, schema, privilege) in
      let flags := raise_flag (default no_flags (st.2 !! key)) (String.eqb name "*") (gr_ensure grant) in
      _ ← throw_if (flags_conflict flags)
            (ManifestError.ConflictingWildcardEnsure
               ("for " +:+ dq (gr_role grant) +:+ " on " +:+ object_type_to_string t +:+
                " in schema " +:+ dq schema) (privilege_to_string privilege));
      Ok (assertions, <[key := flags]> st.2)
  | _, _ => Ok (assertions, st.2)
  end.

Definition check_grant (st : GrantAssertions) (grant : Grant) : res ManifestError GrantAssertions :=
  fold_res (check_grant_privilege grant) st (gr_privileges grant).

Definition check_default_grant (owner : string) (scope : DefaultPrivilegeScope)
    (assertions : gmap DefaultAssertionKey Ensure) (grant : DefaultPrivilegeGrant) :
    res ManifestError (gmap DefaultAssertionKey Ensure) :=
  match dpg_role grant with
  | None => Ok assertions
  | Some grantee =>
      fold_res (λ assertions privilege,
        insert_assertion (owner, scope, grantee, dpg_on_type grant, privilege) (dpg_ensure grant)
          (ManifestError.ConflictingDefaultPrivilegeEnsure
             ("for owner " +:+ dq owner +:+ " (" +:+ scope_to_string scope +:+ ", " +:+
              object_type_to_string (dpg_on_type grant) +:+ " to " +:+ dq grantee +:+ ")")
             (privilege_to_string privilege)) assertions) assertions (dpg_privileges grant)
  end.

Definition check_default (default_owner : option string)
    (assertions : gmap DefaultAssertionKey Ensure) (d : DefaultPrivilege) :
    res ManifestError (gmap DefaultAssertionKey Ensure) :=
  let owner := default "postgres" (match dp_owner d with Some o => Some o | None => default_owner end) in
  scope ← resolved_scope d;
  fold_res (check_default_grant owner scope) assertions (dp_grant d).

Definition validate_ensure_conflicts (default_owner : option string) (grants : list Grant)
    (default_privileges : list DefaultPrivilege) : res ManifestError unit :=
  _ ← fold_res check_grant (∅, ∅) grants;
  _ ← fold_res (check_default default_owner) ∅ default_privileges;
  Ok tt.

(** ** Expansion *)

(** The loops over roles, memberships and schemas before the expansion. *)
Definition check_predefined (manifest : PolicyManifest) : res ManifestError unit :=
  for_each (λ role,
    throw_if (is_predefined_role (rd_name role) && negb (rd_external role))
      (ManifestError.PredefinedRoleNotExternal (rd_name role))) (pm_roles manifest).

Definition external_names (manifest : PolicyManifest) : list string :=
  rd_name <$> filter (λ role, rd_external role = true) (pm_roles manifest).

Definition check_exclusive (manifest : PolicyManifest) : res ManifestError unit :=
  for_each (λ membership,
    throw_if (mb_exclusive membership && negb (is_predefined_role (mb_role membership)) &&
              negb (bool_decide (mb_role membership ∈ external_names manifest)))
      (ManifestError.ExclusiveMembershipOnManagedRole (mb_role membership)))
    (pm_memberships manifest).

(** [binding.owner.clone().or(manifest.default_owner.clone())] *)
Definition owner_or_default (manifest : PolicyManifest) (owner : option string) : option string :=
  match owner with Some owner => Some owner | None => pm_default_owner manifest end.

Definition expand_schema (manifest : PolicyManifest) (binding : SchemaBinding) : ExpandedSchema := {|
  es_name := sb_name binding;
  es_owner := owner_or_default manifest (sb_owner binding) |}.

(** What the nested loop accumulates. *)
Record Expansion := {
  ex_roles : list RoleDefinition;
  ex_grants : list Grant;
  ex_default_privileges : list DefaultPrivilege;
}.

Definition generated_role_name (manifest : PolicyManifest) (binding : SchemaBinding)
    (profile_name : string) : string :=
  let pattern :=
    default DEFAULT_ROLE_PATTERN
      (match sb_role_pattern binding with Some p => Some p | None => pm_role_pattern manifest end) in
  str_replace "{profile}" profile_name (str_replace "{schema}" (sb_name binding) pattern).

Definition generated_role (role_name : string) (binding : SchemaBinding) (profile_name : string)
    (profile : Profile) : RoleDefinition := {|
  rd_name := role_name; rd_external := false; rd_preserve_undeclared_grants := false;
  rd_login := prof_login profile; rd_superuser := None; rd_createdb := None;
  rd_createrole := None; rd_inherit := prof_inherit profile; rd_replication := None;
  rd_bypassrls := None; rd_connection_limit := None;
  rd_comment := Some ("Generated from profile '" +:+ profile_name +:+ "' for schema '" +:+
                      sb_name binding +:+ "'");
  rd_password := None; rd_password_valid_until := None;
  rd_config := (λ value, substitute_placeholders value (sb_name binding) profile_name)
                 <$> prof_config profile |}.

Definition profile_target (binding : SchemaBinding) (target : ProfileObjectTarget) : ObjectTarget :=
  match pot_object_type target with
  | ObjectType.Schema =>
      {| ot_object_type := ObjectType.Schema; ot_schema := None; ot_name := Some (sb_name binding) |}
  | t => {| ot_object_type := t; ot_schema := Some (sb_name binding); ot_name := pot_name target |}
  end.

Definition profile_grant (role_name : string) (binding : SchemaBinding) (profile_name : string)
    (grant : ProfileGrant) : res ManifestError Grant :=
  _ ← throw_if (bool_decide (pg_ensure grant = Ensure.Absent))
        (ManifestError.ProfileAbsentGrant profile_name);
  Ok {| gr_role := role_name; gr_privileges := pg_privileges grant;
        gr_object := profile_target binding (pg_object grant); gr_ensure := Ensure.Present |}.

Definition profile_default_grant (role_name profile_name : string) (d : DefaultPrivilegeGrant) :
    res ManifestError DefaultPrivilegeGrant :=
  _ ← throw_if (bool_decide (dpg_ensure d = Ensure.Absent))
        (ManifestError.ProfileAbsentDefaultPrivilege profile_name);
  Ok {| dpg_role := Some role_name; dpg_privileges := dpg_privileges d;
        dpg_on_type := dpg_on_type d; dpg_ensure := Ensure.Present |}.

(** [iter.map(f).collect::<Result<Vec<_>, _>>()] *)
Fixpoint collect_results {E A B} (f : A → res E B) (l : list A) : res E (list B) :=
  match l with
  | [] => Ok []
  | x :: l => y ← f x; ys ← collect_results f l; Ok (y :: ys)
  end.

(** One turn of the nested loop: one profile of one schema. *)
Definition expand_profile (manifest : PolicyManifest) (acc : Expansion)
    (p : SchemaBinding * string) : res ManifestError Expansion :=
  let '(binding, profile_name) := p in
  match pm_profiles manifest !! profile_name with
  | None => Err (ManifestError.UndefinedProfile profile_name (sb_name binding))
  | Some profile =>
      let pattern :=
        default DEFAULT_ROLE_PATTERN
          (match sb_role_pattern binding with Some p => Some p | None => pm_role_pattern manifest end) in
      let role_name := generated_role_name manifest binding profile_name in
      _ ← throw_if (63 <? String.length role_name)%nat
            (ManifestError.ValueTooLong
               ("role name expanded from role_pattern " +:+ dq pattern +:+ " for schema " +:+
                dq (sb_name binding) +:+
                " (bytes; PostgreSQL identifiers are limited to 63 bytes)")
               role_name (N.of_nat (String.length role_name)) 63);
      grants ← collect_results (profile_grant role_name binding profile_name) (prof_grants profile);
      defaults ← collect_results (profile_default_grant role_name profile_name)
                   (prof_default_privileges profile);
      Ok {| ex_roles := ex_roles acc ++ [generated_role role_name binding profile_name profile];
            ex_grants := ex_grants acc ++ grants;
            ex_default_privileges := ex_default_privileges acc ++
              match prof_default_privileges profile with
              | [] => []
              | _ => [{| dp_owner := owner_or_default manifest (sb_owner binding);
                         dp_schema := Some (sb_name binding); dp_scope := None;
                         dp_grant := defaults |}]
              end |}
  end.

Definition expansion_pairs (manifest : PolicyManifest) : list (SchemaBinding * string) :=
  pm_schemas manifest ≫= λ binding, (λ profile_name, (binding, profile_name)) <$> sb_profiles binding.

(** Top-level default privileges name their grantee. *)
Definition check_default_roles (manifest : PolicyManifest) : res ManifestError unit :=
  for_each (λ d,
    for_each (λ grant,
      match dpg_role grant with
      | Some _ => Ok tt
      | None => scope ← resolved_scope d;
                Err (ManifestError.MissingDefaultPrivilegeRole (scope_to_string scope))
      end) (dp_grant d)) (pm_default_privileges manifest).

(** The owner fallback written back into every default privilege. *)
Definition normalize_owner (manifest : PolicyManifest) (d : DefaultPrivilege) : DefaultPrivilege := {|
  dp_owner := owner_or_default manifest (dp_owner d);
  dp_schema := dp_schema d; dp_scope := dp_scope d; dp_grant := dp_grant d |}.

Definition check_retirement (desired_role_names : list string) (seen : gset string)
    (retirement : RoleRetirement) : res ManifestError (gset string) :=
  let role := rr_role retirement in
  _ ← throw_if (bool_decide (role ∈ seen)) (ManifestError.DuplicateRetirement role);
  _ ← throw_if (bool_decide (role ∈ desired_role_names))
        (ManifestError.RetirementRoleStillDesired role);
  _ ← throw_if (bool_decide (rr_reassign_owned_to retirement = Some role))
        (ManifestError.RetirementSelfReassign role);
  Ok ({[role]} ∪ seen).

Definition check_password (role : RoleDefinition) : res ManifestError unit :=
  throw_if (bool_decide (is_Some (rd_password role)) && bool_decide (rd_login role ≠ Some true))
    (ManifestError.PasswordWithoutLogin (rd_name role)).

Definition check_valid_until (role : RoleDefinition) : res ManifestError unit :=
  match rd_password_valid_until role with
  | Some value =>
      valid ← is_valid_iso8601_timestamp value;
      throw_if (negb valid) (ManifestError.InvalidValidUntil (rd_name role) value)
  | None => Ok tt
  end.

Definition membership_declares (target member : string) (membership : Membership) : bool :=
  String.eqb (mb_role membership) target &&
  existsb (λ m, String.eqb (ms_name m) member) (mb_members membership).

Definition check_config_entry (desired_role_names : list string) (memberships : list Membership)
    (role : string) (p : string * ConfigValue) : res ManifestError unit :=
  let '(parameter, target) := p in
  _ ← throw_if (negb (is_valid_config_parameter_name parameter))
        (ManifestError.InvalidConfigParameter role parameter);
  throw_if (eq_ignore_ascii_case parameter "role" && bool_decide (target ∈ desired_role_names) &&
            negb (existsb (membership_declares target role) memberships))
    (ManifestError.SetRoleWithoutMembership role target).

Definition expand_manifest (manifest : PolicyManifest) : res ManifestError ExpandedManifest :=
  _ ← validate_bounds manifest;
  _ ← check_predefined manifest;
  _ ← check_exclusive manifest;
  _ ← reject_duplicates ManifestError.DuplicateSchema (sb_name <$> pm_schemas manifest);
  let schemas := expand_schema manifest <$> pm_schemas manifest in
  expansion ← fold_res (expand_profile manifest)
                {| ex_roles := []; ex_grants := []; ex_default_privileges := [] |}
                (expansion_pairs manifest);
  _ ← check_default_roles manifest;
  let roles := ex_roles expansion ++ pm_roles manifest in
  let grants := ex_grants expansion ++ pm_grants manifest in
  let default_privileges :=
    normalize_owner manifest <$> (ex_default_privileges expansion ++ pm_default_privileges manifest) in
  let memberships := pm_memberships manifest in
  _ ← validate_public_reservation manifest roles schemas default_privileges memberships;
  _ ← validate_database_grant_targets grants;
  _ ← validate_default_privilege_scopes default_privileges;
  _ ← validate_ensure_conflicts (pm_default_owner manifest) grants default_privileges;
  _ ← reject_duplicates ManifestError.DuplicateRole (rd_name <$> roles);
  let desired_role_names := rd_name <$> roles in
  _ ← fold_res (check_retirement desired_role_names) ∅ (pm_retirements manifest);
  _ ← for_each check_password roles;
  _ ← for_each check_valid_until roles;
  _ ← for_each (λ role,
        for_each (check_config_entry desired_role_names memberships (rd_name role))
          (map_iter (rd_config role))) roles;
  Ok {| em_schemas := schemas; em_roles := roles; em_grants := grants;
        em_default_privileges := default_privileges; em_memberships := memberships |}.
