(* ===== verification/ManifestFacts.v ===== *)
(** * Properties of manifest expansion

    What an accepted manifest guarantees, what it expands to, and that its desired
    graph is a fixpoint of planning. *)

From S2P Require Import Prelude BTree RustStr Types Manifest.

(** ** The checks *)

Lemma fold_seen_NoDup error names (seen seen' : gset string) :
  fold_res (λ (seen : gset string) name,
    _ ← throw_if (bool_decide (name ∈ seen)) (error name); Ok ({[name]} ∪ seen)) seen names =
    Ok (E:=ManifestError) seen' →
  NoDup names ∧ (∀ x, x ∈ names → x ∉ seen) ∧ seen' = list_to_set names ∪ seen.
Proof.
  revert seen. induction names as [|x names IH]=> seen /=.
  - intros [= <-]. split_and!; [constructor|set_solver|set_solver].
  - rw bind_Ok. intros (s & Hx & Hrest). apply throw_if_bind in Hx as [Hx%bool_decide_eq_false [= <-]].
    destruct (IH _ Hrest) as (HN & Hout & ->). split_and!; [|set_solver|set_solver].
    constructor; [|done]. intros Hin. apply Hout in Hin. set_solver.
Qed.

Lemma reject_duplicates_Ok error names u :
  reject_duplicates error names = Ok u → NoDup names.
Proof. unfold reject_duplicates. rw bind_Ok. intros (s & Hs & _). by eapply fold_seen_NoDup. Qed.

Lemma reserved_Ok value context u : reserved value context = Ok u → value ≠ Some "PUBLIC".
Proof. unfold reserved. rw throw_if_Ok. apply bool_decide_eq_false_1. Qed.

Lemma text_identifier_Ok context value u :
  text context value MAX_IDENTIFIER = Ok u → String.length value ≤ 63.
Proof.
  unfold text. rw throw_if_bind throw_if_Ok. intros [_ H].
  change (MAX_IDENTIFIER =? MAX_IDENTIFIER)%N with true in H. simpl in H.
  apply N.ltb_ge in H. unfold MAX_IDENTIFIER in H. lia.
Qed.

Lemma retirements_fold roles (seen seen' : gset string) l :
  fold_res (check_retirement roles) seen l = Ok seen' →
  NoDup (rr_role <$> l) ∧
  (∀ r, r ∈ l → rr_role r ∉ seen ∧ rr_role r ∉ roles ∧ rr_reassign_owned_to r ≠ Some (rr_role r)).
Proof.
  revert seen. induction l as [|r l IH]=> seen /=.
  - intros _. split; [constructor|]. intros r Hr. by apply not_elem_of_nil in Hr.
  - rw bind_Ok. intros (s & Hx & Hrest). unfold check_retirement in Hx.
    apply throw_if_bind in Hx as [H1%bool_decide_eq_false Hx].
    apply throw_if_bind in Hx as [H2%bool_decide_eq_false Hx].
    apply throw_if_bind in Hx as [H3%bool_decide_eq_false [= <-]].
    destruct (IH _ Hrest) as [HN Hall]. split.
    + constructor; [|done]. intros (r' & Heq & Hr')%list_elem_of_fmap.
      destruct (Hall r' Hr') as [Hr _]. rw -Heq in Hr. set_solver.
    + intros r' [->|Hr']%elem_of_cons; [done|]. destruct (Hall r' Hr') as (? & ? & ?). set_solver.
Qed.

(** ** What one profile of one schema contributes *)

Lemma collect_results_Ok {E A B} (f : A → res E B) l ys :
  collect_results f l = Ok ys ↔ Forall2 (λ x y, f x = Ok y) l ys.
Proof.
  revert ys. induction l as [|x l IH]=> ys /=.
  - split; [intros [= <-]; constructor|]. by inversion 1.
  - rw bind_Ok. split.
    + intros (y & Hy & Hys). apply bind_Ok in Hys as (ys' & Hys & [= <-]).
      constructor; [done|by apply IH].
    + inversion 1 as [|? y ? ys' Hy Hys]; simplify_eq. exists y. split; [done|].
      apply bind_Ok. exists ys'. split; [by apply IH|done].
Qed.

(** The reference definition of the expansion, without its checks. *)
Definition generated_grants (manifest : PolicyManifest) (p : SchemaBinding * string) : list Grant :=
  let '(binding, profile_name) := p in
  match pm_profiles manifest !! profile_name with
  | None => []
  | Some profile =>
      (λ g, {| gr_role := generated_role_name manifest binding profile_name;
               gr_privileges := pg_privileges g; gr_object := profile_target binding (pg_object g);
               gr_ensure := Ensure.Present |}) <$> prof_grants profile
  end.

Definition generated_defaults (manifest : PolicyManifest) (p : SchemaBinding * string) :
    list DefaultPrivilege :=
  let '(binding, profile_name) := p in
  match pm_profiles manifest !! profile_name with
  | None => []
  | Some profile =>
      match prof_default_privileges profile with
      | [] => []
      | ds =>
          [{| dp_owner := owner_or_default manifest (sb_owner binding);
              dp_schema := Some (sb_name binding); dp_scope := None;
              dp_grant := (λ d, {| dpg_role := Some (generated_role_name manifest binding profile_name);
                                   dpg_privileges := dpg_privileges d; dpg_on_type := dpg_on_type d;
                                   dpg_ensure := Ensure.Present |}) <$> ds |}]
      end
  end.

Definition generated_roles (manifest : PolicyManifest) (p : SchemaBinding * string) :
    list RoleDefinition :=
  let '(binding, profile_name) := p in
  match pm_profiles manifest !! profile_name with
  | None => []
  | Some profile =>
      [generated_role (generated_role_name manifest binding profile_name) binding profile_name profile]
  end.

(** A pair the expansion accepts. *)
Definition pair_ok (manifest : PolicyManifest) (p : SchemaBinding * string) : Prop :=
  is_Some (pm_profiles manifest !! p.2) ∧
  String.length (generated_role_name manifest p.1 p.2) ≤ 63.

Lemma profile_grants_Ok role_name binding profile_name l gs :
  collect_results (profile_grant role_name binding profile_name) l = Ok gs →
  gs = (λ g, {| gr_role := role_name; gr_privileges := pg_privileges g;
                gr_object := profile_target binding (pg_object g);
                gr_ensure := Ensure.Present |}) <$> l.
Proof.
  rw collect_results_Ok. induction 1 as [|g x l gs Hg _ IH]; [done|]. simpl.
  unfold profile_grant in Hg. apply throw_if_bind in Hg as [_ [= <-]]. by rw IH.
Qed.

Lemma profile_defaults_Ok role_name profile_name l ds :
  collect_results (profile_default_grant role_name profile_name) l = Ok ds →
  ds = (λ d, {| dpg_role := Some role_name; dpg_privileges := dpg_privileges d;
                dpg_on_type := dpg_on_type d; dpg_ensure := Ensure.Present |}) <$> l.
Proof.
  rw collect_results_Ok. induction 1 as [|d x l ds Hd _ IH]; [done|]. simpl.
  unfold profile_default_grant in Hd. apply throw_if_bind in Hd as [_ [= <-]]. by rw IH.
Qed.

Lemma expand_profile_Ok manifest acc p acc' :
  expand_profile manifest acc p = Ok acc' →
  pair_ok manifest p ∧
  acc' = {| ex_roles := ex_roles acc ++ generated_roles manifest p;
            ex_grants := ex_grants acc ++ generated_grants manifest p;
            ex_default_privileges := ex_default_privileges acc ++ generated_defaults manifest p |}.
Proof.
  destruct p as [binding profile_name]. unfold expand_profile, pair_ok. cbn [fst snd].
  destruct (pm_profiles manifest !! profile_name) as [profile|] eqn:Hp; [|done].
  intros [Hlen H]%throw_if_bind. apply Nat.ltb_ge in Hlen.
  apply bind_Ok in H as (gs & Hgs & H). apply bind_Ok in H as (ds & Hds & [= <-]).
  split; [split; [by eexists|done]|].
  apply profile_grants_Ok in Hgs as ->. apply profile_defaults_Ok in Hds as ->.
  unfold generated_roles, generated_grants, generated_defaults. rw Hp.
  by destruct (prof_default_privileges profile).
Qed.

Lemma expand_profiles_Ok manifest l acc acc' :
  fold_res (expand_profile manifest) acc l = Ok acc' →
  Forall (pair_ok manifest) l ∧
  acc' = {| ex_roles := ex_roles acc ++ (l ≫= generated_roles manifest);
            ex_grants := ex_grants acc ++ (l ≫= generated_grants manifest);
            ex_default_privileges := ex_default_privileges acc ++ (l ≫= generated_defaults manifest) |}.
Proof.
  revert acc. induction l as [|p l IH]=> acc /=.
  - intros [= <-]. split; [constructor|]. rw !app_nil_r. by destruct acc.
  - rw bind_Ok. intros (s & Hs & Hrest). apply expand_profile_Ok in Hs as [Hp ->].
    apply IH in Hrest as [Hl ->]. split; [by constructor|]. cbn [ex_roles ex_grants ex_default_privileges].
    by rw -!app_assoc.
Qed.

(** ** Every check of an accepted manifest *)

(** The reference expansion: generated entries first, then the manifest's own. *)
Definition expanded_of (manifest : PolicyManifest) : ExpandedManifest := {|
  em_schemas := expand_schema manifest <$> pm_schemas manifest;
  em_roles := (expansion_pairs manifest ≫= generated_roles manifest) ++ pm_roles manifest;
  em_grants := (expansion_pairs manifest ≫= generated_grants manifest) ++ pm_grants manifest;
  em_default_privileges := normalize_owner manifest <$>
    ((expansion_pairs manifest ≫= generated_defaults manifest) ++ pm_default_privileges manifest);
  em_memberships := pm_memberships manifest |}.

Record accepted (manifest : PolicyManifest) (em : ExpandedManifest) : Prop := {
  ac_bounds : validate_bounds manifest = Ok tt;
  ac_predefined : check_predefined manifest = Ok tt;
  ac_exclusive : check_exclusive manifest = Ok tt;
  ac_schemas : NoDup (es_name <$> em_schemas em);
  ac_pairs : Forall (pair_ok manifest) (expansion_pairs manifest);
  ac_default_roles : check_default_roles manifest = Ok tt;
  ac_public : validate_public_reservation manifest (em_roles em) (em_schemas em)
                (em_default_privileges em) (em_memberships em) = Ok tt;
  ac_database : validate_database_grant_targets (em_grants em) = Ok tt;
  ac_scopes : validate_default_privilege_scopes (em_default_privileges em) = Ok tt;
  ac_conflicts : validate_ensure_conflicts (pm_default_owner manifest) (em_grants em)
                   (em_default_privileges em) = Ok tt;
  ac_roles : NoDup (rd_name <$> em_roles em);
  ac_retirements : ∃ seen,
    fold_res (check_retirement (rd_name <$> em_roles em)) ∅ (pm_retirements manifest) = Ok seen;
  ac_passwords : for_each check_password (em_roles em) = Ok tt;
  ac_valid_until : for_each check_valid_until (em_roles em) = Ok tt;
  ac_config : for_each (λ role,
      for_each (check_config_entry (rd_name <$> em_roles em) (em_memberships em) (rd_name role))
        (map_iter (rd_config role))) (em_roles em) = Ok tt;
}.

Lemma expand_schema_names manifest :
  es_name <$> (expand_schema manifest <$> pm_schemas manifest) = sb_name <$> pm_schemas manifest.
Proof. rw -list_fmap_compose. done. Qed.

Lemma expand_manifest_Ok manifest em :
  expand_manifest manifest = Ok em → em = expanded_of manifest ∧ accepted manifest em.
Proof.
  unfold expand_manifest. intros H.
  apply bind_unit_Ok in H as [Hbounds H]. apply bind_unit_Ok in H as [Hpre H].
  apply bind_unit_Ok in H as [Hexcl H]. apply bind_unit_Ok in H as [Hsch H].
  apply bind_Ok in H as (ex & Hex & H).
  apply expand_profiles_Ok in Hex as [Hpairs ->]. cbn [ex_roles ex_grants ex_default_privileges app] in H.
  apply bind_unit_Ok in H as [Hdr H]. apply bind_unit_Ok in H as [Hpub H].
  apply bind_unit_Ok in H as [Hdb H]. apply bind_unit_Ok in H as [Hscopes H].
  apply bind_unit_Ok in H as [Hconf H]. apply bind_unit_Ok in H as [Hroles H].
  apply bind_Ok in H as (seen & Hret & H). apply bind_unit_Ok in H as [Hpw H].
  apply bind_unit_Ok in H as [Hvu H]. apply bind_unit_Ok in H as [Hcfg [= <-]].
  split; [done|].
  split; cbn [em_schemas em_roles em_grants em_default_privileges em_memberships]; try done.
  - rw expand_schema_names. by eapply reject_duplicates_Ok.
  - by eapply reject_duplicates_Ok.
  - by eexists.
Qed.

Section accepted_facts.
Context {manifest : PolicyManifest} {em : ExpandedManifest}
  (Hem : em = expanded_of manifest) (Ha : accepted manifest em).

Lemma accepted_role role :
  role ∈ em_roles em →
  role ∈ pm_roles manifest ∨
  ∃ p profile, p ∈ expansion_pairs manifest ∧ pm_profiles manifest !! p.2 = Some profile ∧
    role = generated_role (generated_role_name manifest p.1 p.2) p.1 p.2 profile.
Proof.
  rw Hem. cbn [em_roles expanded_of]. rw elem_of_app. intros [Hr|]; [right|by left].
  elem_inv Hr. destruct x as [binding name]. cbn [generated_roles] in Hr.
  destruct (pm_profiles manifest !! name) as [profile|] eqn:Hp; elem_inv Hr.
  exists (binding, name), profile. done.
Qed.

Lemma accepted_role_length role : role ∈ em_roles em → String.length (rd_name role) ≤ 63.
Proof.
  intros [Hr|(p & profile & Hp & _ & ->)]%accepted_role.
  - generalize (ac_bounds _ _ Ha). unfold validate_bounds. intros H.
    do 7 apply bind_unit_Ok in H as [_ H]. apply bind_unit_Ok in H as [H _].
    apply (proj1 (for_each_Ok _ _ _)) with (x := role) in H; [|done]. unfold role_bounds in H.
    apply bind_unit_Ok in H as [H _]. by eapply text_identifier_Ok.
  - apply (proj1 (Forall_forall _ _) (ac_pairs _ _ Ha)) in Hp as [_ ?]. done.
Qed.

Lemma accepted_not_public role : role ∈ em_roles em → rd_name role ≠ PUBLIC_ROLE.
Proof.
  intros Hr. generalize (ac_public _ _ Ha). unfold validate_public_reservation.
  intros [_ [H _]%bind_unit_Ok]%bind_unit_Ok.
  apply (proj1 (for_each_Ok _ _ _)) with (x := role) in H; [|done].
  apply reserved_Ok in H. unfold PUBLIC_ROLE. congruence.
Qed.

Lemma accepted_owner_not_public schema owner :
  schema ∈ em_schemas em → es_owner schema = Some owner → owner ≠ PUBLIC_ROLE.
Proof.
  intros Hs Ho. generalize (ac_public _ _ Ha). unfold validate_public_reservation.
  intros [_ [_ [H _]%bind_unit_Ok]%bind_unit_Ok]%bind_unit_Ok.
  apply (proj1 (for_each_Ok _ _ _)) with (x := schema) in H; [|done].
  apply reserved_Ok in H. unfold PUBLIC_ROLE. congruence.
Qed.

Lemma accepted_password role :
  role ∈ em_roles em → is_Some (rd_password role) → rd_login role = Some true.
Proof.
  intros Hr Hp. generalize (ac_passwords _ _ Ha). intros H.
  apply (proj1 (for_each_Ok _ _ _)) with (x := role) in H; [|done].
  unfold check_password in H. apply throw_if_Ok in H.
  rw (bool_decide_true _ Hp) /= in H. apply bool_decide_eq_false in H.
  by destruct (decide (rd_login role = Some true)).
Qed.

Lemma accepted_valid_until role value :
  role ∈ em_roles em → rd_password_valid_until role = Some value →
  is_valid_iso8601_timestamp value = Ok true.
Proof.
  intros Hr Hv. generalize (ac_valid_until _ _ Ha). intros H.
  apply (proj1 (for_each_Ok _ _ _)) with (x := role) in H; [|done].
  unfold check_valid_until in H. rw Hv in H. apply bind_Ok in H as (b & Hb & H).
  apply throw_if_Ok in H. by destruct b.
Qed.

Lemma accepted_default d :
  d ∈ em_default_privileges em →
  ∃ scope, resolved_scope d = Ok scope ∧
    ∀ g, g ∈ dp_grant d → on_type_allowed scope (dpg_on_type g) = true.
Proof.
  intros Hd. generalize (ac_scopes _ _ Ha). intros H.
  apply (proj1 (for_each_Ok _ _ _)) with (x := d) in H; [|done].
  apply bind_Ok in H as (scope & Hs & H). exists scope. split; [done|]. intros g Hg.
  apply (proj1 (for_each_Ok _ _ _)) with (x := g) in H; [|done].
  apply throw_if_Ok in H. by apply negb_false_iff in H.
Qed.

Lemma generated_default_roles p d g :
  d ∈ generated_defaults manifest p → g ∈ dp_grant d → is_Some (dpg_role g).
Proof.
  destruct p as [binding name]. unfold generated_defaults.
  destruct (pm_profiles manifest !! name) as [profile|]; [|by intros ?%not_elem_of_nil].
  destruct (prof_default_privileges profile) as [|x l]; [by intros ?%not_elem_of_nil|].
  intros ->%list_elem_of_singleton. cbn [dp_grant].
  intros (y & -> & _)%list_elem_of_fmap. by eexists.
Qed.

Lemma accepted_default_role d g :
  d ∈ em_default_privileges em → g ∈ dp_grant d → is_Some (dpg_role g).
Proof.
  rw Hem. cbn [em_default_privileges expanded_of].
  intros (d0 & -> & Hd)%list_elem_of_fmap Hg. cbn [dp_grant normalize_owner] in Hg.
  apply elem_of_app in Hd as [Hd|Hd].
  - elem_inv Hd. by eapply generated_default_roles.
  - generalize (ac_default_roles _ _ Ha). intros H.
    apply (proj1 (for_each_Ok _ _ _)) with (x := d0) in H; [|done].
    apply (proj1 (for_each_Ok _ _ _)) with (x := g) in H; [|done].
    destruct (dpg_role g); [by eexists|]. by destruct (resolved_scope d0).
Qed.

Lemma accepted_database g :
  g ∈ em_grants em → ot_object_type (gr_object g) = ObjectType.Database → is_Some (ot_name (gr_object g)).
Proof.
  intros Hg Ht. generalize (ac_database _ _ Ha). unfold validate_database_grant_targets.
  rw throw_if_Ok. intros H. destruct (ot_name (gr_object g)) eqn:Hn; [by eexists|].
  apply not_true_iff_false in H. exfalso. apply H, existsb_exists. exists g.
  split; [by apply list_elem_of_In|]. by rw bool_decide_true // bool_decide_true.
Qed.

Lemma accepted_retirements :
  NoDup (rr_role <$> pm_retirements manifest) ∧
  ∀ r, r ∈ pm_retirements manifest →
    rr_role r ∉ rd_name <$> em_roles em ∧ rr_reassign_owned_to r ≠ Some (rr_role r).
Proof.
  destruct (ac_retirements _ _ Ha) as [seen Hs]. apply retirements_fold in Hs as [HN Hall].
  split; [done|]. intros r Hr. by apply Hall in Hr as (_ & ? & ?).
Qed.
End accepted_facts.

(** The expansion of an accepted manifest is its generated entries, one role per
    profile of each schema binding in their order and the grants and default privileges
    of that profile for that role and schema, followed by the manifest's own entries
    unchanged, with [default_owner] filled in wherever an owner is missing. *)
Theorem expand_manifest_content (manifest : PolicyManifest) (em : ExpandedManifest) :
  expand_manifest manifest = Ok em → em = expanded_of manifest.
Proof. by intros [-> _]%expand_manifest_Ok. Qed.

(** C35: What an accepted manifest guarantees: unique schemas and roles, role names that
    fit PostgreSQL's 63 bytes and are never [PUBLIC], passwords only on login roles,
    timestamps the validator accepts, database grants that name the database, default
    privileges with a grantee, a resolvable scope and an object type that scope allows,
    and retirements that are unique, not desired and not their own successor. *)
Theorem expand_manifest_valid (manifest : PolicyManifest) (em : ExpandedManifest) :
  expand_manifest manifest = Ok em →
  NoDup (es_name <$> em_schemas em) ∧ NoDup (rd_name <$> em_roles em) ∧
  (∀ role, role ∈ em_roles em →
     String.length (rd_name role) ≤ 63 ∧ rd_name role ≠ PUBLIC_ROLE ∧
     (is_Some (rd_password role) → rd_login role = Some true) ∧
     (∀ value, rd_password_valid_until role = Some value →
        is_valid_iso8601_timestamp value = Ok true)) ∧
  (∀ s owner, s ∈ em_schemas em → es_owner s = Some owner → owner ≠ PUBLIC_ROLE) ∧
  (∀ g, g ∈ em_grants em → ot_object_type (gr_object g) = ObjectType.Database →
     is_Some (ot_name (gr_object g))) ∧
  (∀ d, d ∈ em_default_privileges em → ∃ scope, resolved_scope d = Ok scope ∧
     ∀ g, g ∈ dp_grant d →
       is_Some (dpg_role g) ∧ on_type_allowed scope (dpg_on_type g) = true) ∧
  NoDup (rr_role <$> pm_retirements manifest) ∧
  (∀ r, r ∈ pm_retirements manifest →
     rr_role r ∉ rd_name <$> em_roles em ∧ rr_reassign_owned_to r ≠ Some (rr_role r)).
Proof.
  intros [Hem Ha]%expand_manifest_Ok. destruct (accepted_retirements Ha) as [HN Hret].
  split_and!; [apply (ac_schemas _ _ Ha)|apply (ac_roles _ _ Ha)|..|done|done].
  - intros role Hr. split_and!.
    + by apply (accepted_role_length Hem Ha).
    + by apply (accepted_not_public Ha).
    + by apply (accepted_password Ha).
    + intros value. by apply (accepted_valid_until Ha).
  - intros s owner. apply (accepted_owner_not_public Ha).
  - intros g. apply (accepted_database Ha).
  - intros d Hd. destruct (accepted_default Ha d Hd) as (scope & Hs & Hall).
    exists scope. split; [done|]. intros g Hg.
    split; [by eapply (accepted_default_role Hem Ha)|by apply Hall].
Qed.

(** ** Assertions do not conflict

    [validate_ensure_conflicts] lets no privilege be asserted both present and absent:
    not by two entries for one target, nor by a wildcard and a named target. *)

(** ** One table of assertions *)

Section assertions.
Context {K : Type} `{Countable K}.

Lemma insert_assertion_Ok (key : K) ensure error m m' :
  insert_assertion key ensure error m = Ok m' → m ⊆ m' ∧ m' !! key = Some ensure.
Proof.
  unfold insert_assertion. rw throw_if_bind. intros [Hc [= <-]].
  split; [|by rw lookup_insert_eq].
  apply map_subseteq_spec. intros k e Hk. destruct (decide (key = k)) as [<-|].
  - rw lookup_insert_eq. rw Hk in Hc. apply bool_decide_eq_false in Hc.
    by destruct (decide (e = ensure)) as [->|].
  - by rw lookup_insert_ne.
Qed.
End assertions.

(** ** Grants *)

Definition assertion_key (g : Grant) (p : Privilege) : GrantAssertionKey :=
  (gr_role g, ot_object_type (gr_object g), ot_schema (gr_object g), ot_name (gr_object g), p).

Definition flag (f : SelectorFlags) (wild : bool) (ensure : Ensure) : bool :=
  match wild, ensure with
  | true, Ensure.Present => wild_present f
  | true, Ensure.Absent => wild_absent f
  | false, Ensure.Present => named_present f
  | false, Ensure.Absent => named_absent f
  end.

Definition flags_le (f f' : SelectorFlags) : Prop := ∀ wild ensure, flag f wild ensure → flag f' wild ensure.

Definition assertions_le (st st' : GrantAssertions) : Prop :=
  st.1 ⊆ st'.1 ∧
  (∀ k f, st.2 !! k = Some f → ∃ f', st'.2 !! k = Some f' ∧ flags_le f f') ∧
  ((∀ k f, st.2 !! k = Some f → flags_conflict f = false) →
   (∀ k f, st'.2 !! k = Some f → flags_conflict f = false)).

#[local] Instance assertions_le_preorder : PreOrder assertions_le.
Proof.
  split.
  - intros st. split_and!; [done| |done]. intros k f Hk. exists f. split; [done|]. by intros ? ?.
  - intros s1 s2 s3 (H1 & H2 & H3) (G1 & G2 & G3). split_and!; [by etrans| |intros Hc; exact (G3 (H3 Hc))].
    intros k f Hk. destruct (H2 k f Hk) as (f' & Hf' & Hle).
    destruct (G2 k f' Hf') as (f'' & Hf'' & Hle'). exists f''. split; [done|].
    intros w e Hw. by apply Hle', Hle.
Qed.

(** The table has the assertion of privilege [p] of grant [g]. *)
Definition asserted (g : Grant) (p : Privilege) (st : GrantAssertions) : Prop :=
  st.1 !! assertion_key g p = Some (gr_ensure g) ∧
  ∀ schema name, ot_schema (gr_object g) = Some schema → ot_name (gr_object g) = Some name →
    ∃ f, st.2 !! (gr_role g, ot_object_type (gr_object g), schema, p) = Some f ∧
         flag f (String.eqb name "*") (gr_ensure g).

Lemma asserted_mono g p st st' : asserted g p st → assertions_le st st' → asserted g p st'.
Proof.
  intros [H1 H2] (G1 & G2 & _). split; [by eapply lookup_weaken|].
  intros schema name Hs Hn. destruct (H2 schema name Hs Hn) as (f & Hf & Hw).
  destruct (G2 _ _ Hf) as (f' & ? & Hle). exists f'. split; [done|by apply Hle].
Qed.

Lemma flags_le_refl f : flags_le f f.
Proof. by intros ? ?. Qed.

Lemma raise_flag_le f wild ensure : flags_le f (raise_flag f wild ensure).
Proof. by intros [] []; destruct f as [[] [] [] []], wild, ensure. Qed.

Lemma raise_flag_set f wild ensure : flag (raise_flag f wild ensure) wild ensure.
Proof. by destruct f as [[] [] [] []], wild, ensure. Qed.

Lemma check_grant_privilege_Ok g st p st' :
  check_grant_privilege g st p = Ok st' → assertions_le st st' ∧ asserted g p st'.
Proof.
  unfold check_grant_privilege. rw bind_Ok. intros (m & Hm & Hrest).
  apply insert_assertion_Ok in Hm as [Hsub Hkey].
  unfold asserted, assertions_le.
  destruct (ot_schema (gr_object g)) as [schema|] eqn:Hs;
    [destruct (ot_name (gr_object g)) as [name|] eqn:Hn|].
  2,3: injection Hrest as <-; cbn [fst snd]; split_and!; try done;
    [intros k f Hk; eauto using flags_le_refl|unfold assertion_key; rw Hs ?Hn; done].
  apply throw_if_bind in Hrest as [Hc [= <-]]. cbn [fst snd].
  set (key := (gr_role g, ot_object_type (gr_object g), schema, p)) in *.
  set (flags := raise_flag (default no_flags (st.2 !! key)) (String.eqb name "*") (gr_ensure g)) in *.
  split_and!.
  - done.
  - intros k f Hk. destruct (decide (key = k)) as [<-|]; [|rw lookup_insert_ne //; eauto using flags_le_refl].
    rw lookup_insert_eq. exists flags. split; [done|]. unfold flags. rw Hk. apply raise_flag_le.
  - intros Hclean k f. destruct (decide (key = k)) as [<-|]; [|rw lookup_insert_ne //; apply Hclean].
    rw lookup_insert_eq. by intros [= <-].
  - unfold assertion_key. by rw Hs Hn.
  - intros ?? [= <-] [= <-]. exists flags. rw lookup_insert_eq. split; [done|apply raise_flag_set].
Qed.

Lemma check_grant_Ok g st st' :
  check_grant st g = Ok st' → assertions_le st st' ∧ ∀ p, p ∈ gr_privileges g → asserted g p st'.
Proof.
  unfold check_grant. apply (fold_res_collect assertions_le (asserted g)).
  - intros. by eapply asserted_mono.
  - intros s p s' _ Hs. by apply check_grant_privilege_Ok.
Qed.

Lemma check_grants_Ok grants st :
  fold_res check_grant (∅, ∅) grants = Ok st →
  (∀ g p, g ∈ grants → p ∈ gr_privileges g → asserted g p st) ∧
  ∀ k f, st.2 !! k = Some f → flags_conflict f = false.
Proof.
  intros Hst.
  destruct (fold_res_collect assertions_le (λ g st, ∀ p, p ∈ gr_privileges g → asserted g p st)
              check_grant grants (∅, ∅) st) as [(_ & _ & Hclean) Hall]; [| |done|].
  - intros g s s' Hg Hle p Hp. by eapply asserted_mono; [apply Hg|].
  - intros s g s' _. apply check_grant_Ok.
  - split; [intros g p Hg; by apply Hall|].
    apply Hclean. intros k f. cbn [snd]. by rw lookup_empty.
Qed.

(** ** Default privileges *)

Definition default_assertion_key (owner : string) (scope : DefaultPrivilegeScope) (grantee : string)
    (g : DefaultPrivilegeGrant) (p : Privilege) : DefaultAssertionKey :=
  (owner, scope, grantee, dpg_on_type g, p).

Definition default_asserted (owner : string) (scope : DefaultPrivilegeScope)
    (g : DefaultPrivilegeGrant) (st : gmap DefaultAssertionKey Ensure) : Prop :=
  ∀ grantee p, dpg_role g = Some grantee → p ∈ dpg_privileges g →
    st !! default_assertion_key owner scope grantee g p = Some (dpg_ensure g).

Lemma check_default_grant_Ok owner scope st g st' :
  check_default_grant owner scope st g = Ok st' → st ⊆ st' ∧ default_asserted owner scope g st'.
Proof.
  unfold check_default_grant, default_asserted. destruct (dpg_role g) as [grantee|].
  - intros Hf. destruct (fold_res_collect (⊆@{gmap DefaultAssertionKey Ensure})
      (λ p st, st !! default_assertion_key owner scope grantee g p = Some (dpg_ensure g))
      _ _ _ _ (λ x s s' Hx Hle, lookup_weaken _ _ _ _ Hx Hle)
      (λ s x s' _ Hs, insert_assertion_Ok _ _ _ _ _ Hs) Hf) as [Hle Hall].
    split; [done|]. intros ? p [= <-] Hp. exact (Hall p Hp).
  - intros [= <-]. split; [done|]. by intros ? ? [=].
Qed.

Definition owner_of (default_owner : option string) (d : DefaultPrivilege) : string :=
  default "postgres" (match dp_owner d with Some o => Some o | None => default_owner end).

Lemma check_default_Ok default_owner st d st' :
  check_default default_owner st d = Ok st' →
  st ⊆ st' ∧ ∀ scope g, resolved_scope d = Ok scope → g ∈ dp_grant d →
    default_asserted (owner_of default_owner d) scope g st'.
Proof.
  unfold check_default. fold (owner_of default_owner d). rw bind_Ok.
  intros (scope & Hs & Hf).
  destruct (fold_res_collect (⊆@{gmap DefaultAssertionKey Ensure})
      (default_asserted (owner_of default_owner d) scope) _ _ _ _
      (λ x s s' Hx Hle grantee p Hg Hp, lookup_weaken _ _ _ _ (Hx grantee p Hg Hp) Hle)
      (λ s x s' _ Hs', check_default_grant_Ok _ _ _ _ _ Hs') Hf) as [Hle Hall].
  split; [done|]. intros scope' g Hs' Hg. rw Hs in Hs'. injection Hs' as <-. by apply Hall.
Qed.

Lemma check_defaults_Ok default_owner ds st :
  fold_res (check_default default_owner) ∅ ds = Ok st →
  ∀ d scope g, d ∈ ds → resolved_scope d = Ok scope → g ∈ dp_grant d →
    default_asserted (owner_of default_owner d) scope g st.
Proof.
  intros Hf.
  destruct (fold_res_collect (⊆@{gmap DefaultAssertionKey Ensure})
      (λ d st, ∀ scope g, resolved_scope d = Ok scope → g ∈ dp_grant d →
        default_asserted (owner_of default_owner d) scope g st) _ _ _ _
      (λ x s s' Hx Hle scope g Hs Hg grantee p Hr Hp,
         lookup_weaken _ _ _ _ (Hx scope g Hs Hg grantee p Hr Hp) Hle)
      (λ s x s' _ Hs, check_default_Ok _ _ _ _ Hs) Hf) as [_ Hall].
  intros d scope g Hd. by apply Hall.
Qed.

(** ** Consistency *)

(** Two grants assert one target: the same one, or a wildcard and a named target of its
    schema. *)
Definition same_target (g1 g2 : Grant) : Prop :=
  gr_role g1 = gr_role g2 ∧
  ot_object_type (gr_object g1) = ot_object_type (gr_object g2) ∧
  ot_schema (gr_object g1) = ot_schema (gr_object g2) ∧
  (ot_name (gr_object g1) = ot_name (gr_object g2) ∨
   ∃ schema name, ot_schema (gr_object g1) = Some schema ∧
     ot_name (gr_object g1) = Some "*" ∧ ot_name (gr_object g2) = Some name).

Lemma no_flag_conflict f w1 w2 e1 e2 :
  flags_conflict f = false → flag f w1 e1 → flag f w2 e2 → w1 ≠ w2 → e1 = e2.
Proof. by destruct f as [[] [] [] []], w1, w2, e1, e2. Qed.

Lemma ensure_consistent default_owner grants ds g1 g2 p :
  validate_ensure_conflicts default_owner grants ds = Ok tt →
  g1 ∈ grants → g2 ∈ grants → p ∈ gr_privileges g1 → p ∈ gr_privileges g2 →
  same_target g1 g2 → gr_ensure g1 = gr_ensure g2.
Proof.
  unfold validate_ensure_conflicts. rw bind_Ok. intros (st & Hst & _).
  apply check_grants_Ok in Hst as [Hall Hclean]. intros H1 H2 Hp1 Hp2 (Hr & Ht & Hs & Hn).
  destruct (Hall g1 p H1 Hp1) as [Hk1 Hf1], (Hall g2 p H2 Hp2) as [Hk2 Hf2].
  assert (ot_name (gr_object g1) = ot_name (gr_object g2) → gr_ensure g1 = gr_ensure g2) as Hsame.
  { intros Hn'. unfold assertion_key in *. rw Hr Ht Hs Hn' in Hk1. congruence. }
  destruct Hn as [|(schema & name & Hs1 & Hn1 & Hn2)]; [by apply Hsame|].
  destruct (decide (name = "*")) as [->|Hne]; [apply Hsame; congruence|].
  destruct (Hf1 _ _ Hs1 Hn1) as (f & Hf & Hw1).
  destruct (Hf2 schema name) as (f' & Hf' & Hw2); [congruence|done|].
  rw Hr Ht Hf' in Hf. injection Hf as ->.
  eapply no_flag_conflict; [by eapply Hclean|done|done|].
  apply String.eqb_neq in Hne. by rw Hne.
Qed.

Lemma default_consistent default_owner grants ds d1 d2 scope g1 g2 grantee p :
  validate_ensure_conflicts default_owner grants ds = Ok tt →
  d1 ∈ ds → d2 ∈ ds → resolved_scope d1 = Ok scope → resolved_scope d2 = Ok scope →
  owner_of default_owner d1 = owner_of default_owner d2 →
  g1 ∈ dp_grant d1 → g2 ∈ dp_grant d2 → dpg_role g1 = Some grantee → dpg_role g2 = Some grantee →
  dpg_on_type g1 = dpg_on_type g2 → p ∈ dpg_privileges g1 → p ∈ dpg_privileges g2 →
  dpg_ensure g1 = dpg_ensure g2.
Proof.
  unfold validate_ensure_conflicts. rw bind_Ok. intros (st & _ & Hd). revert Hd.
  rw bind_Ok. intros (ds' & Hds & _). generalize (check_defaults_Ok _ _ _ Hds). intros Hall.
  intros H1 H2 Hs1 Hs2 Ho Hg1 Hg2 Hr1 Hr2 Ht Hp1 Hp2.
  pose proof (Hall d1 scope g1 H1 Hs1 Hg1 grantee p Hr1 Hp1) as Hk1.
  pose proof (Hall d2 scope g2 H2 Hs2 Hg2 grantee p Hr2 Hp2) as Hk2.
  unfold default_assertion_key in *. rw Ho Ht in Hk1. congruence.
Qed.
