(* ===== verification/Desired.v ===== *)
(** * The desired graph of a manifest

    What [RoleGraph::from_expanded] puts into the graph, and the fixpoint theorem: the
    desired graph of an accepted manifest, planned against itself, needs no change. *)

From S2P Require Import Prelude BTree RustStr Types Guc Model Change Diff DiffFacts DiffSafety Interp Converge Convergence Manifest ManifestFacts.

(** ** Maps of present and absent privileges *)

Section ensured.
Context {K : Type} `{Countable K}.

Definition holds (m : gmap K (gset Privilege)) (k : K) (p : Privilege) : Prop :=
  p ∈ default ∅ (m !! k).

Lemma holds_empty k p : ¬ holds ∅ k p.
Proof. unfold holds. rw lookup_empty. set_solver. Qed.

Lemma holds_extend (m : gmap K (gset Privilege)) key ps k p :
  holds (entry_extend key (list_to_set ps) m) k p ↔ holds m k p ∨ (key = k ∧ p ∈ ps).
Proof.
  unfold holds. unfold entry_extend. destruct (decide (key = k)) as [<-|].
  - rw lookup_insert_eq /=. set_solver.
  - rw lookup_insert_ne //. naive_solver.
Qed.

(** The map of the [ensure] side. *)
Definition side (maps : gmap K (gset Privilege) * gmap K (gset Privilege)) (e : Ensure) :
    gmap K (gset Privilege) :=
  match e with Ensure.Present => maps.1 | Ensure.Absent => maps.2 end.

Lemma holds_ensured maps key e ps e' k p :
  holds (side (add_ensured maps key e ps) e') k p ↔
  holds (side maps e') k p ∨ (key = k ∧ e = e' ∧ p ∈ ps).
Proof. destruct e, e'; simpl; rw ?holds_extend; naive_solver. Qed.
End ensured.

Lemma holds_grants maps grants e k p :
  holds (side (foldl add_grant maps grants) e) k p ↔
  holds (side maps e) k p ∨
  ∃ g, g ∈ grants ∧ grant_key_from_manifest g = k ∧ gr_ensure g = e ∧ p ∈ gr_privileges g.
Proof.
  revert maps. induction grants as [|g grants IH]=> maps; cbn [foldl].
  - split; [by left|]. intros [|(g & Hg & _)]; [done|]. by apply not_elem_of_nil in Hg.
  - rw IH. unfold add_grant. rw holds_ensured. setoid_rewrite elem_of_cons. naive_solver.
Qed.

(** The key of a default-privilege entry. *)
Definition default_key (owner : string) (scope : DefaultPrivilegeScope) (g : DefaultPrivilegeGrant)
    (grantee : string) : DefaultPrivKey := {|
  dk_owner := owner; dk_scope := scope; dk_on_type := dpg_on_type g;
  dk_grantee := grantee_parse grantee |}.

Lemma holds_default_grants owner scope maps l maps' e k p :
  fold_res (add_default_grant owner scope) maps l = Ok maps' →
  holds (side maps' e) k p ↔
  holds (side maps e) k p ∨
  ∃ g grantee, g ∈ l ∧ dpg_role g = Some grantee ∧ default_key owner scope g grantee = k ∧
    dpg_ensure g = e ∧ p ∈ dpg_privileges g.
Proof.
  revert maps. induction l as [|g l IH]=> maps; cbn [fold_res].
  - intros [= <-]. split; [by left|]. intros [|(g & ? & Hg & _)]; [done|]. by apply not_elem_of_nil in Hg.
  - rw bind_Ok. intros (m & Hm & Hrest). rw (IH _ Hrest). unfold add_default_grant in Hm.
    destruct (dpg_role g) as [grantee|] eqn:Hg; [|done]. injection Hm as <-.
    rw holds_ensured. setoid_rewrite elem_of_cons. unfold default_key. naive_solver.
Qed.

Lemma holds_defaults default_owner maps ds maps' e k p :
  fold_res (add_default_privilege default_owner) maps ds = Ok maps' →
  holds (side maps' e) k p ↔
  holds (side maps e) k p ∨
  ∃ d scope g grantee, d ∈ ds ∧ resolved_scope d = Ok scope ∧ g ∈ dp_grant d ∧
    dpg_role g = Some grantee ∧
    default_key (owner_of default_owner d) scope g grantee = k ∧
    dpg_ensure g = e ∧ p ∈ dpg_privileges g.
Proof.
  revert maps. induction ds as [|d ds IH]=> maps; cbn [fold_res].
  - intros [= <-]. split; [by left|]. intros [|(d & ? & ? & ? & Hd & _)]; [done|].
    by apply not_elem_of_nil in Hd.
  - rw bind_Ok. intros (m & Hm & Hrest). rw (IH _ Hrest). unfold add_default_privilege in Hm.
    apply bind_Ok in Hm as (scope & Hs & Hm). apply (holds_default_grants _ _ _ _ _ e k p) in Hm.
    rw Hm. unfold owner_of, default_owner_of in *. setoid_rewrite elem_of_cons. split.
    + intros [[?|(g & grantee & ?)]|(d' & s & g & grantee & ? & ?)].
      * by left.
      * right. exists d, scope, g, grantee. naive_solver.
      * right. exists d', s, g, grantee. naive_solver.
    + intros [?|(d' & s & g & grantee & [->|?] & Hs' & ?)].
      * by left; left.
      * left; right. exists g, grantee. rw Hs in Hs'. injection Hs' as <-. naive_solver.
      * right. exists d', s, g, grantee. naive_solver.
Qed.

(** ** The graph of an expanded manifest *)

Record graph_of (em : ExpandedManifest) (default_owner : option string) (g : RoleGraph) : Prop := {
  go_grants : ∀ k p, holds (grants g) k p ↔ ∃ gr, gr ∈ em_grants em ∧
    grant_key_from_manifest gr = k ∧ gr_ensure gr = Ensure.Present ∧ p ∈ gr_privileges gr;
  go_absences : ∀ k p, holds (grant_absences g) k p ↔ ∃ gr, gr ∈ em_grants em ∧
    grant_key_from_manifest gr = k ∧ gr_ensure gr = Ensure.Absent ∧ p ∈ gr_privileges gr;
  go_defaults : ∀ e k p,
    holds (match e with Ensure.Present => default_privileges g
                      | Ensure.Absent => default_privilege_absences g end) k p ↔
    ∃ d scope dg grantee, d ∈ em_default_privileges em ∧ resolved_scope d = Ok scope ∧
      dg ∈ dp_grant d ∧ dpg_role dg = Some grantee ∧
      default_key (owner_of default_owner d) scope dg grantee = k ∧
      dpg_ensure dg = e ∧ p ∈ dpg_privileges dg;
  go_schemas : ∀ s st, schemas g !! s = Some st → st = schema_state_of {| es_name := s; es_owner := ss_owner st |};
  go_live : routine_aliases g = ∅ ∧ inherent_grants g = ∅ ∧ membership_edge_grantors g = ∅ ∧
            grant_entry_grantors g = ∅;
}.

Lemma schema_fold_canonical (l : list ExpandedSchema) (m : gmap string SchemaState) s st :
  (∀ s st, m !! s = Some st → st = schema_state_of {| es_name := s; es_owner := ss_owner st |}) →
  foldl (λ m s, <[es_name s := schema_state_of s]> m) m l !! s = Some st →
  st = schema_state_of {| es_name := s; es_owner := ss_owner st |}.
Proof.
  revert m. induction l as [|x l IH]=> m Hm; cbn [foldl]; [apply Hm|]. apply IH.
  intros s' st'. rw lookup_insert_Some. intros [[<- <-]|[_ ?]]; [done|by apply Hm].
Qed.

Lemma from_expanded_graph em default_owner g :
  from_expanded em default_owner = Ok g → graph_of em default_owner g.
Proof.
  unfold from_expanded. intros H. apply bind_Ok in H as (maps & Hmaps & [= <-]).
  split; cbn [grants grant_absences default_privileges default_privilege_absences schemas
    routine_aliases inherent_grants membership_edge_grantors grant_entry_grantors].
  - intros k p. rw (holds_grants (∅, ∅) _ Ensure.Present k p). split; [|by right].
    intros [Hh|?]; [by apply holds_empty in Hh|done].
  - intros k p. rw (holds_grants (∅, ∅) _ Ensure.Absent k p). split; [|by right].
    intros [Hh|?]; [by apply holds_empty in Hh|done].
  - intros e k p. apply (holds_defaults _ _ _ _ e k p) in Hmaps.
    assert (match e with Ensure.Present => maps.1 | Ensure.Absent => maps.2 end = side maps e) as ->
      by done.
    rw Hmaps. split; [|by right]. intros [Hh|?]; [|done]. by destruct e; apply holds_empty in Hh.
  - intros s st. apply schema_fold_canonical. intros ? ?. by rw lookup_empty.
  - done.
Qed.

(** ** Building the graph does not fail *)

Lemma add_defaults_ok default_owner maps ds :
  (∀ d, d ∈ ds → ∃ scope, resolved_scope d = Ok scope ∧
     ∀ g, g ∈ dp_grant d → is_Some (dpg_role g)) →
  ∃ maps', fold_res (add_default_privilege default_owner) maps ds = Ok maps'.
Proof.
  revert maps. induction ds as [|d ds IH]=> maps Hd; [by eexists|]. cbn [fold_res].
  destruct (Hd d) as (scope & Hs & Hg); [left|].
  assert (∀ l maps, (∀ g, g ∈ l → is_Some (dpg_role g)) →
    ∃ maps', fold_res (add_default_grant (default_owner_of d default_owner) scope) maps l = Ok maps')
    as Hinner.
  { induction l as [|g l IHl]=> m Hl; [by eexists|]. cbn [fold_res].
    destruct (Hl g) as [grantee Hgr]; [left|].
    assert (∃ m1, add_default_grant (default_owner_of d default_owner) scope m g = Ok m1) as [m1 ->]
      by (unfold add_default_grant; rw Hgr; eauto).
    apply IHl. intros g' Hg'. apply Hl. by right. }
  assert (∃ m, add_default_privilege default_owner maps d = Ok m) as [m ->].
  { unfold add_default_privilege. rw Hs. by apply Hinner. }
  apply IH. intros d' Hd'. apply Hd. by right.
Qed.

(** The condition that the conflict check relies on: a wildcard is asserted absent only
    inside a schema, and what names a schema names an object. *)
Definition selectors_qualified (em : ExpandedManifest) : Prop :=
  ∀ g, g ∈ em_grants em →
    (gr_ensure g = Ensure.Absent → ot_name (gr_object g) = Some "*" → ot_schema (gr_object g) ≠ None) ∧
    (ot_schema (gr_object g) ≠ None → ot_name (gr_object g) ≠ None).

#[export] Instance grantee_parse_inj : Inj (=) (=) grantee_parse.
Proof.
  intros x y. unfold grantee_parse. destruct (String.eqb_spec x PUBLIC_ROLE) as [->|];
    destruct (String.eqb_spec y PUBLIC_ROLE) as [->|]; congruence.
Qed.

Section fixpoint.
Context {manifest : PolicyManifest} {em : ExpandedManifest} {g : RoleGraph}
  (Hacc : accepted manifest em) (Hg : graph_of em (pm_default_owner manifest) g)
  (Hq : selectors_qualified em).

Lemma accepted_grants_consistent g1 g2 p :
  g1 ∈ em_grants em → g2 ∈ em_grants em → p ∈ gr_privileges g1 → p ∈ gr_privileges g2 →
  same_target g1 g2 → gr_ensure g1 = gr_ensure g2.
Proof. intros. eapply ensure_consistent; [apply (ac_conflicts _ _ Hacc)|done..]. Qed.

Lemma desired_not_violated k p : ¬ assertion_violated g g k p.
Proof.
  unfold assertion_violated. intros [Habs Hheld].
  apply (go_absences _ _ _ Hg) in Habs as (ga & Hga & <- & Hea & Hpa).
  assert (∃ k X, grants g !! k = Some X ∧ p ∈ X ∧
            (k = grant_key_from_manifest ga ∨
             is_wildcard (grant_key_from_manifest ga) ∧ in_scope (grant_key_from_manifest ga) k))
    as (k & X & Hk & HpX & Hkey).
  { destruct (is_wildcard (grant_key_from_manifest ga)) eqn:Hw.
    - apply elem_of_held_wildcard in Hheld as (k & X & ? & ? & _ & ?); [|by rw Hw].
      exists k, X. auto.
    - unfold held_privileges in Hheld. rw Hw in Hheld. case_bool_decide; [set_solver|].
      destruct (grants g !! grant_key_from_manifest ga) as [X|] eqn:Hk; [|set_solver].
      exists (grant_key_from_manifest ga), X. auto. }
  assert (holds (grants g) k p) as Hp by (unfold holds; by rw Hk).
  apply (go_grants _ _ _ Hg) in Hp as (gp & Hgp & <- & Hep & Hpp).
  assert (same_target ga gp) as Hsame.
  { destruct Hkey as [Heq|[Hw%bool_decide_unpack Hs]].
    - unfold grant_key_from_manifest in Heq. injection Heq as Hr%(inj grantee_parse) ? ? ?.
      unfold same_target. split_and!; [done..|by left].
    - unfold in_scope in Hs. apply andb_True in Hs as [[Hr Ht]%andb_True Hsc].
      apply bool_decide_unpack in Hr, Ht, Hsc. simpl in *.
      apply (inj grantee_parse) in Hr.
      destruct (Hq ga Hga) as [Hschema _].
      destruct (ot_schema (gr_object ga)) as [schema|] eqn:Hsa; [|by destruct (Hschema Hea Hw)].
      destruct (Hq gp Hgp) as [_ Hname]. rw Hsc in Hname.
      destruct (ot_name (gr_object gp)) as [name|] eqn:Hn; [|by destruct (Hname ltac:(done))].
      unfold same_target. split_and!; [done..|congruence|right].
      exists schema, name. done. }
  pose proof (accepted_grants_consistent ga gp p Hga Hgp Hpa Hpp Hsame) as He. congruence.
Qed.

Lemma desired_defaults_disjoint k A :
  default_privilege_absences g !! k = Some A →
  A ∩ match default_privileges g !! k with
      | Some c => c | None => builtin_defaults_for_new_owner g g k end = ∅.
Proof.
  intros HA. apply set_eq. intros p. rw elem_of_intersection. split; [|set_solver].
  intros [HpA Hp]. exfalso. destruct (default_privileges g !! k) as [X|] eqn:Hk.
  - assert (holds (default_privilege_absences g) k p) as Ha by (unfold holds; by rw HA).
    assert (holds (default_privileges g) k p) as Hpr by (unfold holds; by rw Hk).
    apply (go_defaults _ _ _ Hg Ensure.Absent) in Ha as (d1 & s1 & g1 & r1 & Hd1 & Hs1 & Hg1 & Hr1 & <- & He1 & Hp1).
    apply (go_defaults _ _ _ Hg Ensure.Present) in Hpr as (d2 & s2 & g2 & r2 & Hd2 & Hs2 & Hg2 & Hr2 & Heq & He2 & Hp2).
    unfold default_key in Heq. injection Heq as Ho -> Ht Hgr%(inj grantee_parse). subst r2.
    assert (dpg_ensure g1 = dpg_ensure g2) as He; [|congruence].
    eapply default_consistent; [apply (ac_conflicts _ _ Hacc)|exact Hd1|exact Hd2|done..].
  - assert (builtin_defaults_for_new_owner g g k = ∅) as Hb; [|rw Hb in Hp; set_solver].
    unfold builtin_defaults_for_new_owner. by destruct (roles g !! dk_owner k).
Qed.

Lemma desired_fixpoint : diff g g = [].
Proof.
  destruct (go_live _ _ _ Hg) as (Hal & _).
  assert (aligned g g = g) as Haligned.
  { unfold aligned, resolve_routine_aliases. rw Hal bool_decide_true //. }
  apply diff_matching; cbv zeta; rw Haligned; [done| | |apply desired_defaults_disjoint].
  - intros s st o Hs Ho. rw (go_schemas _ _ _ Hg _ _ Hs) /=. by rw Ho.
  - intros k. apply set_eq. intros p. rw elem_of_revoked.
    split; [intros [(_ & _ & ? & ? & _)|Hv]; [done|by apply desired_not_violated in Hv]|set_solver].
Qed.
End fixpoint.

Lemma desired_exists {manifest em} :
  em = expanded_of manifest → accepted manifest em →
  ∃ g, from_expanded em (pm_default_owner manifest) = Ok g.
Proof.
  intros Hem Ha.
  destruct (add_defaults_ok (pm_default_owner manifest) (∅, ∅) (em_default_privileges em))
    as [maps Hmaps].
  { intros d Hd. destruct (accepted_default Ha d Hd) as (scope & Hs & _).
    exists scope. split; [done|]. intros g Hg. by eapply (accepted_default_role Hem Ha). }
  unfold from_expanded. rw Hmaps /=. by eexists.
Qed.

(** The desired graph of an accepted manifest is a fixpoint of planning: it can be
    built, and planned against itself it needs no change, so no entry of the manifest
    undoes another on every reconciliation.  A wildcard may be asserted absent only
    inside a schema, and an object named in each schema. *)
Theorem accepted_manifest_fixpoint (manifest : PolicyManifest) (em : ExpandedManifest) :
  expand_manifest manifest = Ok em → selectors_qualified em →
  ∃ g, from_expanded em (pm_default_owner manifest) = Ok g ∧ diff g g = [].
Proof.
  intros [Hem Ha]%expand_manifest_Ok Hq. destruct (desired_exists Hem Ha) as [g Hg].
  exists g. split; [done|]. eapply desired_fixpoint; [done|by apply from_expanded_graph|done].
Qed.

(** ** From an empty database to the manifest *)

Definition nonempty_entries {K} `{Countable K} (m : gmap K (gset Privilege)) : Prop :=
  ∀ k X, m !! k = Some X → X ≠ ∅.

Lemma nonempty_extend {K} `{Countable K} (m : gmap K (gset Privilege)) key ps :
  ps ≠ [] → nonempty_entries m → nonempty_entries (entry_extend key (list_to_set ps) m).
Proof.
  intros Hps Hm k X. unfold entry_extend. rw lookup_insert_Some. intros [[_ <-]|[_ ?]]; [|by eapply Hm].
  destruct ps as [|p ps]; [done|]. set_solver.
Qed.

Lemma nonempty_ensured {K} `{Countable K} (maps : gmap K (gset Privilege) * gmap K (gset Privilege))
    key e ps e' :
  ps ≠ [] → (∀ e, nonempty_entries (side maps e)) →
  nonempty_entries (side (add_ensured maps key e ps) e').
Proof.
  intros Hps Hm. generalize (Hm Ensure.Present), (Hm Ensure.Absent). intros Hp Ha.
  destruct e, e'; simpl; auto using nonempty_extend.
Qed.

Lemma nonempty_grants maps l :
  (∀ g, g ∈ l → gr_privileges g ≠ []) → (∀ e, nonempty_entries (side maps e)) →
  ∀ e, nonempty_entries (side (foldl add_grant maps l) e).
Proof.
  revert maps. induction l as [|g l IH]=> maps Hl Hm; [done|]. cbn [foldl].
  apply IH; [intros g' ?; apply Hl; by right|]. intros e. unfold add_grant.
  apply nonempty_ensured; [apply Hl; left|done].
Qed.

Lemma nonempty_defaults default_owner maps ds maps' :
  (∀ d g, d ∈ ds → g ∈ dp_grant d → dpg_privileges g ≠ []) →
  (∀ e, nonempty_entries (side maps e)) →
  fold_res (add_default_privilege default_owner) maps ds = Ok maps' →
  ∀ e, nonempty_entries (side maps' e).
Proof.
  intros Hds Hm.
  apply (fold_res_inv (λ maps, ∀ e, nonempty_entries (side maps e))); [done|].
  intros s d s' Hd Hs. unfold add_default_privilege. rw bind_Ok. intros (scope & _ & Hf).
  revert Hf. apply (fold_res_inv (λ maps, ∀ e, nonempty_entries (side maps e))); [done|].
  intros s1 g s2 Hg Hs1. unfold add_default_grant. destruct (dpg_role g); [|done].
  intros [= <-] e. apply nonempty_ensured; [by eapply Hds|done].
Qed.

(** The edge of one member of one membership. *)
Definition edge_of (m : Membership) (spec : MemberSpec) : MembershipEdge := {|
  me_role := mb_role m; me_member := ms_name spec;
  me_inherit := member_inherit spec; me_admin := member_admin spec |}.

Lemma elem_of_memberships acc l e :
  e ∈ (foldl add_membership acc l).1 ↔
  e ∈ acc.1 ∨ ∃ m spec, m ∈ l ∧ spec ∈ mb_members m ∧ e = edge_of m spec.
Proof.
  revert acc. induction l as [|m l IH]=> acc; cbn [foldl].
  - split; [by left|]. intros [|(m & ? & Hm & _)]; [done|]. by apply not_elem_of_nil in Hm.
  - rw IH. unfold add_membership; cbn [fst]. rw elem_of_union elem_of_list_to_set list_elem_of_fmap.
    setoid_rewrite elem_of_cons. unfold edge_of. split.
    + intros [[?|(spec & ? & ?)]|(m' & spec & ? & ? & ?)]; [by left|right..].
      * exists m, spec. auto.
      * exists m', spec. auto.
    + intros [?|(m' & spec & [->|?] & ? & ?)]; [by left; left|left; right|right].
      * by exists spec.
      * by exists m', spec.
Qed.

(** A manifest of positive entries: every grant and default privilege is present and
    names privileges, no grant is a wildcard, and a member has one set of options. *)
Record positive (em : ExpandedManifest) : Prop := {
  po_grants : ∀ g, g ∈ em_grants em →
    gr_ensure g = Ensure.Present ∧ gr_privileges g ≠ [] ∧ ot_name (gr_object g) ≠ Some "*";
  po_defaults : ∀ d g, d ∈ em_default_privileges em → g ∈ dp_grant d →
    dpg_ensure g = Ensure.Present ∧ dpg_privileges g ≠ [];
  po_members : ∀ m1 s1 m2 s2, m1 ∈ em_memberships em → m2 ∈ em_memberships em →
    s1 ∈ mb_members m1 → s2 ∈ mb_members m2 → mb_role m1 = mb_role m2 → ms_name s1 = ms_name s2 →
    edge_of m1 s1 = edge_of m2 s2;
}.

Section bootstrap.
Context {em : ExpandedManifest} {default_owner : option string} {g : RoleGraph}
  (Hg : from_expanded em default_owner = Ok g) (Hp : positive em).

Lemma positive_nonempty :
  (nonempty_entries (grants g) ∧ nonempty_entries (grant_absences g)) ∧
  nonempty_entries (default_privileges g) ∧ nonempty_entries (default_privilege_absences g).
Proof.
  assert (∀ K `{Countable K}, nonempty_entries (∅ : gmap K (gset Privilege))) as He.
  { intros K ?? k X. by rw lookup_empty. }
  revert Hg. unfold from_expanded. rw bind_Ok. intros (maps & Hmaps & [= <-]).
  cbn [grants grant_absences default_privileges default_privilege_absences]. split.
  - assert (∀ e, nonempty_entries (side (foldl add_grant (∅, ∅) (em_grants em)) e)) as H.
    { apply (nonempty_grants (∅, ∅)); [|intros []; exact (He _ _ _)]. intros gr Hgr. by apply (po_grants _ Hp). }
    split; [exact (H Ensure.Present)|exact (H Ensure.Absent)].
  - assert (∀ e, nonempty_entries (side maps e)) as H.
    { apply (nonempty_defaults default_owner (∅, ∅) (em_default_privileges em) maps);
        [|intros []; exact (He _ _ _)|exact Hmaps]. intros d dg Hd Hdg.
      by eapply (po_defaults _ Hp). }
    split; [exact (H Ensure.Present)|exact (H Ensure.Absent)].
Qed.

Lemma held_key {K} `{Countable K} (m : gmap K (gset Privilege)) k X :
  nonempty_entries m → m !! k = Some X → ∃ p, holds m k p.
Proof.
  intros Hm Hk. destruct (set_choose_L X) as [p Hpp]; [by eapply Hm|].
  exists p. unfold holds. by rw Hk.
Qed.

Lemma positive_no_absences : grant_absences g = ∅ ∧ default_privilege_absences g = ∅.
Proof.
  destruct positive_nonempty as [[_ Ha] [_ Hd]]. pose proof (from_expanded_graph _ _ _ Hg) as Hgo.
  split; apply map_empty; intros k; apply eq_None_not_Some; intros [X Hk].
  - destruct (held_key _ _ _ Ha Hk) as [p Hh].
    apply (go_absences _ _ _ Hgo) in Hh as (gr & Hgr & _ & He & _).
    apply (po_grants _ Hp) in Hgr as [? _]. congruence.
  - destruct (held_key _ _ _ Hd Hk) as [p Hh].
    apply (go_defaults _ _ _ Hgo Ensure.Absent) in Hh as (d & ? & dg & ? & Hin & _ & Hdg & _ & _ & He & _).
    apply (po_defaults _ Hp _ _ Hin) in Hdg as [? _]. congruence.
Qed.

Lemma positive_concrete k X : grants g !! k = Some X → is_wildcard k = false.
Proof.
  intros Hk. destruct positive_nonempty as [[Hn _] _].
  destruct (held_key _ _ _ Hn Hk) as [p Hh].
  apply (go_grants _ _ _ (from_expanded_graph _ _ _ Hg)) in Hh as (gr & Hgr & <- & _).
  apply (po_grants _ Hp) in Hgr as (_ & _ & Hname). by apply bool_decide_eq_false.
Qed.

Lemma positive_edges : edges_functional (memberships g).
Proof.
  revert Hg. unfold from_expanded. rw bind_Ok. intros (maps & _ & [= <-]). cbn [memberships].
  intros e e' [He|(m & s & Hm & Hs & ->)]%elem_of_memberships
    [He'|(m' & s' & Hm' & Hs' & ->)]%elem_of_memberships [= Hr Hn]; try set_solver.
  by apply (po_members _ Hp).
Qed.

Lemma positive_live : routine_aliases g = ∅ ∧ inherent_grants g = ∅.
Proof. destruct (go_live _ _ _ (from_expanded_graph _ _ _ Hg)) as (? & ? & _). done. Qed.

Lemma empty_incoming name owner : (name, owner) ∉ incoming role_graph_default g.
Proof.
  unfold incoming, incoming_owners, diff_schemas; cbn [fst].
  rw elem_of_list_to_set.
  intros (c & ([s st] & _ & Hc)%elem_of_bind_1 & Hin)%elem_of_bind_1.
  unfold diff_schema in Hc; cbn [fst] in Hc.
  change (schemas role_graph_default) with (∅ : gmap string SchemaState) in Hc.
  rw lookup_empty in Hc. apply list_elem_of_singleton in Hc as ->. by apply not_elem_of_nil in Hin.
Qed.

Lemma bootstrap_manageable : manageable role_graph_default g.
Proof.
  destruct positive_nonempty as [[Hn _] [Hd _]], positive_no_absences as [Ha Hda].
  split.
  - split; try (intros s *; cbn [schemas role_graph_default]; rw lookup_empty; by intros ?%is_Some_None || done).
    intros s d Hs. by apply (go_schemas _ _ _ (from_expanded_graph _ _ _ Hg)).
  - split.
    + intros k X. cbn [grants role_graph_default]. by rw lookup_empty.
    + intros k A. by rw Ha lookup_empty.
    + exact Hn.
    + intros name owner Hin. by apply empty_incoming in Hin.
  - split; [|exact Hd]. intros k X. cbn [default_privileges role_graph_default]. by rw lookup_empty.
  - split; [|apply positive_edges|done]. intros e e'. cbn [memberships role_graph_default]. set_solver.
Qed.

Lemma bootstrap_managed : fully_managed role_graph_default g.
Proof.
  destruct positive_no_absences as [Ha Hda].
  split; [done|by intros k X; rw lookup_empty..| |done|done].
  intros k X. apply positive_concrete.
Qed.
End bootstrap.


(** ** What [from_expanded] builds

    The role graph of an expanded manifest, field by field: each grant and
    default-privilege entry is the union of the assertions of its key. *)

(** ** Assertions *)

(** A key, the side it is asserted on, and the privileges. *)
Abbreviation assertion K := (K * Ensure * list Privilege)%type.

Section assertions.
Context {K : Type} `{Countable K}.

Definition assert_entry (maps : gmap K (gset Privilege) * gmap K (gset Privilege)) (a : assertion K) :=
  add_ensured maps a.1.1 a.1.2 a.2.

(** The entry of [k] on side [e]: there is one if [k] is asserted, and it has what the
    assertions name. *)
Definition entries_of (m : gmap K (gset Privilege)) (e : Ensure) (l : list (assertion K)) : Prop :=
  ∀ k X, m !! k = Some X ↔
    (∃ ps, (k, e, ps) ∈ l) ∧ ∀ p, p ∈ X ↔ ∃ ps, (k, e, ps) ∈ l ∧ p ∈ ps.

Lemma asserted_keys maps l e k :
  is_Some (side (foldl assert_entry maps l) e !! k) ↔
  is_Some (side maps e !! k) ∨ ∃ ps, (k, e, ps) ∈ l.
Proof.
  revert maps. induction l as [|[[k' e'] ps] l IH]; intros maps; cbn [foldl].
  - split; [by left|]. by intros [?|(ps & ?%not_elem_of_nil)].
  - rw IH. setoid_rewrite elem_of_cons. unfold assert_entry; cbn [fst snd].
    assert (is_Some (side (add_ensured maps k' e' ps) e !! k) ↔ is_Some (side maps e !! k) ∨ (k = k' ∧ e = e')) as ->.
    { destruct (decide (k = k')) as [->|Hk]; destruct e', e; cbn; unfold entry_extend;
        rw ?lookup_insert_eq ?lookup_insert_ne //; naive_solver. }
    naive_solver.
Qed.

Lemma asserted_holds maps l e k p :
  holds (side (foldl assert_entry maps l) e) k p ↔
  holds (side maps e) k p ∨ ∃ ps, (k, e, ps) ∈ l ∧ p ∈ ps.
Proof.
  revert maps. induction l as [|[[k' e'] ps] l IH]; intros maps; cbn [foldl].
  - split; [by left|]. by intros [?|(ps & ?%not_elem_of_nil & _)].
  - rw IH. unfold assert_entry; cbn [fst snd]. rw holds_ensured. setoid_rewrite elem_of_cons. naive_solver.
Qed.

Lemma assert_entries l e : entries_of (side (foldl assert_entry (∅, ∅) l) e) e l.
Proof.
  intros k X. pose proof (asserted_keys (∅, ∅) l e k) as Hkey.
  pose proof (λ p, asserted_holds (∅, ∅) l e k p) as Hh. unfold holds in Hh.
  assert (side (∅, ∅) e !! k = @None (gset Privilege)) as Hnone by (destruct e; cbn; by rw lookup_empty).
  rw Hnone in Hkey Hh. cbn [default] in Hh. split.
  - intros HX. rw HX in Hkey Hh. cbn in Hh. split; [destruct (proj1 Hkey) as [[? [=]]|?]; [by eauto|done]|].
    intros p. rw Hh. set_solver.
  - intros [Hex Hp]. destruct (proj2 Hkey) as [Y HY]; [by right|]. rw HY in Hh |- *. f_equal.
    apply set_eq. intros p. cbn in Hh. rw Hh Hp. set_solver.
Qed.

Lemma asserted_present m e l k ps : entries_of m e l → (k, e, ps) ∈ l → is_Some (m !! k).
Proof.
  intros Hm Hps.
  set (Y := list_to_set (C := gset Privilege) (l ≫= λ a, if bool_decide (a.1 = (k, e)) then a.2 else [])).
  exists Y. apply Hm. split; [by exists ps|]. intros p. unfold Y. rw elem_of_list_to_set list_elem_of_bind. split.
  - intros ([[k' e'] ps'] & Hp & Ha). case_bool_decide as Heq; [|by apply not_elem_of_nil in Hp].
    cbn in Heq. injection Heq as -> ->. by exists ps'.
  - intros (ps' & Hps' & Hp). exists (k, e, ps'). rw bool_decide_true //.
Qed.

(** The entries depend on the assertions of the key only. *)
Lemma entries_alike m m' e l l' k X :
  entries_of m e l → entries_of m' e l' → (∀ ps, (k, e, ps) ∈ l ↔ (k, e, ps) ∈ l') →
  m !! k = Some X ↔ m' !! k = Some X.
Proof. intros Hm Hm' Hl. rw (Hm k X) (Hm' k X). by setoid_rewrite Hl. Qed.
End assertions.

Definition grant_assertions (em : ExpandedManifest) : list (assertion GrantKey) :=
  (λ g, (grant_key_from_manifest g, gr_ensure g, gr_privileges g)) <$> em_grants em.

Definition default_assertions (default_owner : option string) (em : ExpandedManifest) :
    list (assertion DefaultPrivKey) :=
  em_default_privileges em ≫= λ d,
    match resolved_scope d with
    | Ok scope =>
        dp_grant d ≫= λ g,
          match dpg_role g with
          | Some r => [(default_key (default_owner_of d default_owner) scope g r, dpg_ensure g, dpg_privileges g)]
          | None => []
          end
    | _ => []
    end.

Lemma add_defaults_assertions default_owner maps ds maps' :
  fold_res (add_default_privilege default_owner) maps ds = Ok maps' →
  maps' = foldl assert_entry maps (ds ≫= λ d,
    match resolved_scope d with
    | Ok scope =>
        dp_grant d ≫= λ g,
          match dpg_role g with
          | Some r => [(default_key (default_owner_of d default_owner) scope g r, dpg_ensure g, dpg_privileges g)]
          | None => []
          end
    | _ => []
    end).
Proof.
  revert maps. induction ds as [|d ds IH]; intros maps; cbn [fold_res]; [by intros [= <-]|].
  intros (m1 & H1 & H2)%bind_Ok. rw bind_cons foldl_app (IH _ H2). f_equal.
  unfold add_default_privilege in H1. apply bind_Ok in H1 as (scope & -> & H1).
  clear -H1. revert maps H1. induction (dp_grant d) as [|g l IHl]; intros maps; cbn [fold_res]; [by intros [= <-]|].
  intros (m & Hm & Hrest)%bind_Ok. rw bind_cons foldl_app (IHl _ Hrest). f_equal.
  unfold add_default_grant in Hm. destruct (dpg_role g); [|done]. by injection Hm as <-.
Qed.

(** What [from_expanded] builds, by fields. *)
Record built (em : ExpandedManifest) (default_owner : option string) (g : RoleGraph) : Prop := {
  bu_roles : NoDup (rd_name <$> em_roles em) →
    ∀ name st, roles g !! name = Some st ↔
      ∃ rd, rd ∈ em_roles em ∧ rd_name rd = name ∧ from_definition rd = st;
  bu_schemas : NoDup (es_name <$> em_schemas em) →
    ∀ s st, schemas g !! s = Some st ↔
      ∃ es, es ∈ em_schemas em ∧ es_name es = s ∧ schema_state_of es = st;
  bu_grants : entries_of (grants g) Ensure.Present (grant_assertions em);
  bu_grant_absences : entries_of (grant_absences g) Ensure.Absent (grant_assertions em);
  bu_defaults : entries_of (default_privileges g) Ensure.Present (default_assertions default_owner em);
  bu_default_absences :
    entries_of (default_privilege_absences g) Ensure.Absent (default_assertions default_owner em);
  bu_memberships : ∀ e, e ∈ memberships g ↔
    ∃ m spec, m ∈ em_memberships em ∧ spec ∈ mb_members m ∧ e = edge_of m spec;
}.

Lemma foldl_insert_lookup {A V} (key : A → string) (val : A → V) (l : list A) (m : gmap string V) k v :
  NoDup (key <$> l) →
  foldl (λ m x, <[key x := val x]> m) m l !! k = Some v ↔
  (∃ x, x ∈ l ∧ key x = k ∧ val x = v) ∨ (k ∉ key <$> l ∧ m !! k = Some v).
Proof.
  revert m. induction l as [|x l IH]; intros m HN; cbn [foldl].
  - split; [right; split; [apply not_elem_of_nil|done]|]. by intros [(x & ?%not_elem_of_nil & _)|[_ ?]].
  - rw fmap_cons in HN. apply NoDup_cons in HN as [Hx HN]. rw (IH _ HN) fmap_cons not_elem_of_cons.
    setoid_rewrite elem_of_cons. destruct (decide (k = key x)) as [->|Hne].
    + rw lookup_insert_eq. split.
      * intros [(y & Hy & Hk & <-)|[_ [= <-]]]; [left; exists y; auto|left; exists x; auto].
      * intros [(y & [->|Hy] & Hk & <-)|[[? _] _]]; [by right|left; by exists y|done].
    + rw lookup_insert_ne //. split.
      * intros [(y & Hy & Hk & <-)|[? ?]]; [left; exists y; auto|by right].
      * intros [(y & [->|Hy] & Hk & <-)|[[_ ?] ?]]; [done|left; by exists y|by right].
Qed.

Lemma from_expanded_built em default_owner g : from_expanded em default_owner = Ok g → built em default_owner g.
Proof.
  unfold from_expanded. intros H. apply bind_Ok in H as (maps & Hmaps & [= <-]).
  apply add_defaults_assertions in Hmaps as ->.
  assert (foldl add_grant (∅, ∅) (em_grants em) = foldl assert_entry (∅, ∅) (grant_assertions em)) as ->.
  { unfold grant_assertions. generalize ((∅, ∅) : gmap GrantKey (gset Privilege) * gmap GrantKey (gset Privilege)).
    induction (em_grants em) as [|x l IH]; intros m; [done|]. rw fmap_cons. cbn [foldl]. by rw IH. }
  split; cbn [roles schemas grants grant_absences default_privileges default_privilege_absences memberships].
  - intros HN name st. rw foldl_insert_lookup //. rw lookup_empty. naive_solver.
  - intros HN name st. rw foldl_insert_lookup //. rw lookup_empty. naive_solver.
  - apply (assert_entries _ Ensure.Present).
  - apply (assert_entries _ Ensure.Absent).
  - apply (assert_entries _ Ensure.Present).
  - apply (assert_entries _ Ensure.Absent).
  - intros e. rw elem_of_memberships. cbn [fst]. set_solver.
Qed.
