(* ===== verification/Timestamp.v ===== *)
(** * Timestamps

    [is_valid_iso8601_timestamp] accepts every printed timestamp of the supported range,
    and what it accepts has the printed shape up to the digits of its fields. *)

From Stdlib Require Import Ascii.
From S2P Require Import Prelude BTree RustStr Types Manifest.

(** ** Printing *)

Definition digit (n : N) : ascii := ascii_of_N (48 + n mod 10).
Definition pad2 (n : N) : string := String (digit (n / 10)) (String (digit n) "").
Definition pad4 (n : N) : string := pad2 (n / 100) +:+ pad2 (n mod 100).

(** [YYYY-MM-DDTHH:MM:SSZ] *)
Definition print_timestamp (y m d h mi s : N) : string :=
  pad4 y +:+ "-" +:+ pad2 m +:+ "-" +:+ pad2 d +:+ "T" +:+ pad2 h +:+ ":" +:+ pad2 mi +:+ ":" +:+
  pad2 s +:+ "Z".

Definition in_bounds (y m d h mi s : N) : bool :=
  ((1970 <=? y) && (y <=? 9999) && (1 <=? m) && (m <=? 12) && (1 <=? d) && (d <=? 31) &&
   (h <=? 23) && (mi <=? 59) && (s <=? 59))%N.

Definition below (n : nat) : list N := N.of_nat <$> seq 0 n.

Lemma below_forallb (n : nat) (f : N → bool) :
  forallb f (below n) = true → ∀ x : N, (x < N.of_nat n)%N → f x = true.
Proof.
  intros Hf x Hx. apply (proj1 (forallb_forall _ _) Hf). apply list_elem_of_In.
  apply list_elem_of_fmap. exists (N.to_nat x). split; [lia|]. apply elem_of_seq. lia.
Qed.

Lemma digit_not_cont n : is_cont (digit n) = false.
Proof.
  apply negb_true_iff.
  assert (∀ x : N, (x < 10)%N → negb (is_cont (ascii_of_N (48 + x))) = true) as H.
  { apply (below_forallb 10 (λ x, negb (is_cont (ascii_of_N (48 + x))))). by vm_compute. }
  apply H. by apply N.mod_lt.
Qed.

Definition parses_to (max : N) (field : string) (n : N) : bool :=
  match parse_unsigned max field with Some x => (x =? n)%N | None => false end.

Lemma parses_to_spec max field n : parses_to max field n = true → parse_unsigned max field = Some n.
Proof. unfold parses_to. destruct (parse_unsigned max field); [|done]. by intros ->%N.eqb_eq. Qed.

Lemma parse_pad2 n : (n < 100)%N → parse_unsigned 255 (pad2 n) = Some n.
Proof.
  intros Hn. apply parses_to_spec.
  apply (below_forallb 100 (λ n, parses_to 255 (pad2 n) n)); [by vm_compute|done].
Qed.

Lemma parse_pad4 n : (n < 10000)%N → parse_unsigned 65535 (pad4 n) = Some n.
Proof.
  intros Hn. apply parses_to_spec. assert (n < N.of_nat (100 * 100))%N as Hn' by lia.
  apply (below_forallb (100 * 100) (λ n, parses_to 65535 (pad4 n) n)); [by vm_compute|done].
Qed.

(** ** What is accepted *)

(** Twenty bytes cut at the positions the validator reads. *)
Lemma slice_Ok (value : string) i j field :
  slice (E:=ManifestError) value i j = Ok field → field = String.substring i (j - i) value.
Proof. unfold slice. case_match; congruence. Qed.

Lemma byte_is_spec value i a : byte_is value i a = true → byte_at value i = Some a.
Proof.
  unfold byte_is. destruct (byte_at value i); [|done]. intros ->%Ascii.eqb_eq. done.
Qed.

(** The positions and ranges the validator checks. *)
Record timestamp_shape (value : string) (y m d h mi s : N) : Prop := {
  ts_length : String.length value = 20;
  ts_separators : byte_at value 4 = Some "-"%char ∧ byte_at value 7 = Some "-"%char ∧
    byte_at value 10 = Some "T"%char ∧ byte_at value 13 = Some ":"%char ∧
    byte_at value 16 = Some ":"%char;
  ts_zone : String.substring 19 1 value = "Z";
  ts_date : parse_unsigned 65535 (String.substring 0 4 value) = Some y ∧
    parse_unsigned 255 (String.substring 5 2 value) = Some m ∧
    parse_unsigned 255 (String.substring 8 2 value) = Some d;
  ts_time : parse_unsigned 255 (String.substring 11 2 value) = Some h ∧
    parse_unsigned 255 (String.substring 14 2 value) = Some mi ∧
    parse_unsigned 255 (String.substring 17 2 value) = Some s;
  ts_ranges : (1970 <= y ∧ 1 <= m <= 12 ∧ 1 <= d <= 31 ∧ h <= 23 ∧ mi <= 59 ∧ s <= 59)%N;
}.

Lemma accepted_shape value :
  is_valid_iso8601_timestamp value = Ok true →
  ∃ y m d h mi s, timestamp_shape value y m d h mi s.
Proof.
  unfold is_valid_iso8601_timestamp.
  destruct (Nat.eqb_spec (String.length value) 20) as [Hlen|]; cbn [negb]; [|done].
  destruct (byte_is value 4 "-" && byte_is value 7 "-" && byte_is value 10 "T") eqn:Hsep;
    cbn [negb]; [|done].
  apply andb_true_iff in Hsep as [[H4 H7]%andb_true_iff H10].
  intros (fy & Hy & H)%bind_Ok. apply bind_Ok in H as (fm & Hm & H). apply bind_Ok in H as (fd & Hd & H).
  apply slice_Ok in Hy as ->, Hm as ->, Hd as ->. revert H. cbn [Nat.sub].
  destruct (parse_unsigned 65535 _) as [y|] eqn:Hpy; [|done].
  destruct (parse_unsigned 255 (String.substring 5 2 value)) as [m|] eqn:Hpm; [|done].
  destruct (parse_unsigned 255 (String.substring 8 2 value)) as [d|] eqn:Hpd; [|done].
  destruct (_ || _ || _) eqn:Hdate; [done|].
  destruct (byte_is value 13 ":" && byte_is value 16 ":") eqn:Hsep2; cbn [negb]; [|done].
  apply andb_true_iff in Hsep2 as [H13 H16].
  intros (fh & Hh & H)%bind_Ok. apply bind_Ok in H as (fmi & Hmi & H). apply bind_Ok in H as (fs & Hs & H).
  apply slice_Ok in Hh as ->, Hmi as ->, Hs as ->. revert H. cbn [Nat.sub].
  destruct (parse_unsigned 255 (String.substring 11 2 value)) as [h|] eqn:Hph; [|done].
  destruct (parse_unsigned 255 (String.substring 14 2 value)) as [mi|] eqn:Hpmi; [|done].
  destruct (parse_unsigned 255 (String.substring 17 2 value)) as [s|] eqn:Hps; [|done].
  destruct ((23 <? h) || (59 <? mi) || (59 <? s))%N eqn:Htime; [done|].
  intros (zone & Hz & [= Hzz%String.eqb_eq])%bind_Ok. apply slice_Ok in Hz as ->.
  rw Hlen in Hzz. cbn [Nat.sub] in Hzz.
  exists y, m, d, h, mi, s. split; try done.
  - by split_and!; apply byte_is_spec.
  - rw !orb_false_iff !negb_false_iff !andb_true_iff in Hdate.
    rw !orb_false_iff in Htime. rw !N.ltb_ge !N.leb_le in Hdate. rw !N.ltb_ge in Htime. lia.
Qed.

(** ** ASCII input *)

(** No byte is inside a multibyte character. *)
Definition is_ascii (value : string) : Prop := ∀ i a, byte_at value i = Some a → is_cont a = false.

Lemma byte_at_end value i : byte_at value i = None ↔ String.length value ≤ i.
Proof.
  revert i. induction value as [|a value IH]=> i; simpl; [split; [lia|done]|].
  destruct i; [split; [done|lia]|]. rw IH. lia.
Qed.

Lemma boundary_ascii value i :
  is_ascii value → i ≤ String.length value → is_char_boundary value i = true.
Proof.
  intros Ha Hi. unfold is_char_boundary. destruct (byte_at value i) as [a|] eqn:Hb.
  - by rw (Ha i a Hb).
  - apply byte_at_end in Hb. apply bool_decide_eq_true. lia.
Qed.

Lemma slice_ascii value i j :
  is_ascii value → i ≤ j → j ≤ String.length value →
  slice (E:=ManifestError) value i j = Ok (String.substring i (j - i) value).
Proof.
  intros Ha Hi Hj. unfold slice. rw bool_decide_true // !boundary_ascii //. lia.
Qed.

Lemma ascii_decided value :
  is_ascii value →
  ∃ b, is_valid_iso8601_timestamp value = Ok b.
Proof.
  intros Ha. unfold is_valid_iso8601_timestamp.
  destruct (Nat.eqb_spec (String.length value) 20) as [Hlen|]; cbn [negb]; [|by eexists].
  rw !slice_ascii //; [|lia..]. cbn [mbind res_bind].
  repeat (case_match; try by eexists).
Qed.

Lemma shape_accepted value y m d h mi s :
  is_ascii value → timestamp_shape value y m d h mi s →
  is_valid_iso8601_timestamp value = Ok true.
Proof.
  intros Ha [Hlen (H4 & H7 & H10 & H13 & H16) Hz (Hy & Hm & Hd) (Hh & Hmi & Hs) Hr].
  unfold is_valid_iso8601_timestamp, byte_is. rw Hlen H4 H7 H10 H13 H16 /=.
  rw !slice_ascii //; [|lia..]. cbn [mbind res_bind Nat.sub].
  rw Hy Hm Hd Hh Hmi Hs Hz.
  replace ((y <? 1970) || negb ((1 <=? m) && (m <=? 12)) || negb ((1 <=? d) && (d <=? 31)))%N
    with false; [replace ((23 <? h) || (59 <? mi) || (59 <? s))%N with false; [done|]|].
  - symmetry. rw !orb_false_iff !N.ltb_ge. lia.
  - symmetry. rw !orb_false_iff !negb_false_iff !andb_true_iff !N.ltb_ge !N.leb_le. lia.
Qed.

(** On ASCII input the timestamp check terminates with a verdict, never panics, and
    accepts exactly the twenty-byte values with the separators and the final [Z] in
    place and every field in its range. *)
Theorem timestamp_check_spec (value : string) :
  is_ascii value →
  (∃ b, is_valid_iso8601_timestamp value = Ok b) ∧
  (is_valid_iso8601_timestamp value = Ok true ↔ ∃ y m d h mi s, timestamp_shape value y m d h mi s).
Proof.
  intros Ha. split; [by apply ascii_decided|]. split; [apply accepted_shape|].
  intros (y & m & d & h & mi & s & Hs). by eapply shape_accepted.
Qed.

(** ** Printed timestamps are accepted *)

Lemma print_shape y m d h mi s :
  in_bounds y m d h mi s → timestamp_shape (print_timestamp y m d h mi s) y m d h mi s.
Proof.
  unfold in_bounds. rw !andb_True. intros H.
  assert (1970 <= y <= 9999 ∧ 1 <= m <= 12 ∧ 1 <= d <= 31 ∧ h <= 23 ∧ mi <= 59 ∧ s <= 59)%N as Hb.
  { destruct H as [[[[[[[[Hy1 Hy2] Hm1] Hm2] Hd1] Hd2] Hh] Hmi] Hs].
    apply Is_true_true, N.leb_le in Hy1, Hy2, Hm1, Hm2, Hd1, Hd2, Hh, Hmi, Hs. lia. }
  split; try done.
  - split_and!; [apply (parse_pad4 y)|apply (parse_pad2 m)|apply (parse_pad2 d)]; lia.
  - split_and!; [apply (parse_pad2 h)|apply (parse_pad2 mi)|apply (parse_pad2 s)]; lia.
  - lia.
Qed.

Lemma print_ascii y m d h mi s : is_ascii (print_timestamp y m d h mi s).
Proof.
  intros i a. unfold print_timestamp, pad4, pad2. cbn [String.app].
  do 20 (destruct i as [|i]; [intros [= <-]; first [apply digit_not_cont | done]|]). done.
Qed.

(** Every instant from 1970 to 9999, printed in the form inspection reports it, is
    an accepted [password_valid_until] value. *)
Theorem printed_timestamp_accepted (y m d h mi s : N) :
  in_bounds y m d h mi s → is_valid_iso8601_timestamp (print_timestamp y m d h mi s) = Ok true.
Proof. intros H. eapply shape_accepted; [apply print_ascii|by apply print_shape]. Qed.

Lemma timestamp_check_spec_witness :
  is_ascii (print_timestamp 2025 12 31 0 0 0) ∧
  ((∃ b, is_valid_iso8601_timestamp "2025-12-31T00:00:00Z" = Ok b) ∧
   (is_valid_iso8601_timestamp "2025-12-31T00:00:00Z" = Ok true ↔
    ∃ y m d h mi s, timestamp_shape "2025-12-31T00:00:00Z" y m d h mi s)).
Proof.
  split; [apply print_ascii|].
  exact (timestamp_check_spec "2025-12-31T00:00:00Z" (print_ascii 2025 12 31 0 0 0)).
Defined.

Lemma printed_timestamp_accepted_witness :
  print_timestamp 2025 12 31 23 59 59 = "2025-12-31T23:59:59Z" ∧
  is_valid_iso8601_timestamp (print_timestamp 2025 12 31 23 59 59) = Ok true.
Proof.
  split; [by vm_compute|]. apply printed_timestamp_accepted. vm_compute. exact I.
Defined.

(** ** Two inputs the check mishandles *)

(** A value of twenty bytes whose last character has three bytes is cut inside it. *)
Lemma multibyte_timestamp_panics :
  is_valid_iso8601_timestamp ("2025-12-31T00:00:" +:+ of_bytes [226; 130; 172]%N) = Panic.
Proof. vm_compute. reflexivity. Qed.

(** An explicit sign is a digit of [parse]. *)
Lemma signed_timestamp_accepted : is_valid_iso8601_timestamp "2025-+1-+1T+1:+1:+1Z" = Ok true.
Proof. vm_compute. reflexivity. Qed.
