(* ===== verification/ManifestWitnesses.v ===== *)
(** * A manifest

    The properties of manifest expansion at a concrete manifest, and two manifests the
    validation lets through. *)

From S2P Require Import Prelude BTree RustStr Types Manifest ManifestFacts.
From S2P Require Import Model Guc Change Diff Interp Convergence Desired.

Module ManifestScene.

Definition plain_role (name : string) : RoleDefinition := {|
  rd_name := name; rd_external := false; rd_preserve_undeclared_grants := false;
  rd_login := None; rd_superuser := None; rd_createdb := None; rd_createrole := None;
  rd_inherit := None; rd_replication := None; rd_bypassrls := None;
  rd_connection_limit := None; rd_comment := None; rd_password := None;
  rd_password_valid_until := None; rd_config := ∅ |}.

Definition login_role (name : string) : RoleDefinition := {|
  rd_name := name; rd_external := false; rd_preserve_undeclared_grants := false;
  rd_login := Some true; rd_superuser := None; rd_createdb := None; rd_createrole := None;
  rd_inherit := None; rd_replication := None; rd_bypassrls := None;
  rd_connection_limit := Some 5%Z; rd_comment := None;
  rd_password := Some {| ps_from_env := "APP_PASSWORD" |};
  rd_password_valid_until := Some "2030-01-01T00:00:00Z";
  rd_config := {[ "role" := "shop-editor" ]} |}.

Definition grant_on (role : string) (ensure : Ensure) (t : ObjectType) (schema name : option string)
    (privileges : list Privilege) : Grant := {|
  gr_role := role; gr_privileges := privileges; gr_ensure := ensure;
  gr_object := {| ot_object_type := t; ot_schema := schema; ot_name := name |} |}.

(** An editor profile: usage of the schema, rows of its tables, tables to come. *)
Definition editor : Profile := {|
  prof_login := None; prof_inherit := None;
  prof_grants :=
    [{| pg_privileges := [Privilege.Usage]; pg_ensure := Ensure.Present;
        pg_object := {| pot_object_type := ObjectType.Schema; pot_name := None |} |};
     {| pg_privileges := [Privilege.Select; Privilege.Insert]; pg_ensure := Ensure.Present;
        pg_object := {| pot_object_type := ObjectType.Table; pot_name := Some "*" |} |}];
  prof_default_privileges :=
    [{| dpg_role := None; dpg_privileges := [Privilege.Select]; dpg_on_type := ObjectType.Table;
        dpg_ensure := Ensure.Present |}];
  prof_config := {[ "search_path" := "{schema}" ]} |}.

Definition manifest_of (profiles : gmap string Profile) (schemas : list SchemaBinding)
    (roles : list RoleDefinition) (grants : list Grant) (memberships : list Membership) :
    PolicyManifest := {|
  pm_role_pattern := None; pm_default_owner := Some "owner"; pm_auth_providers := [];
  pm_profiles := profiles; pm_schemas := schemas; pm_roles := roles; pm_grants := grants;
  pm_default_privileges := []; pm_memberships := memberships; pm_retirements := [] |}.

Definition bind_schema (name : string) (profiles : list string) (pattern : option string) :
    SchemaBinding := {|
  sb_name := name; sb_profiles := profiles; sb_role_pattern := pattern; sb_owner := None |}.

Definition shop : PolicyManifest :=
  manifest_of {[ "editor" := editor ]} [bind_schema "shop" ["editor"] None]
    [plain_role "owner"; login_role "app"]
    [grant_on "app" Ensure.Absent ObjectType.Table (Some "shop") (Some "*") [Privilege.Truncate];
     grant_on "app" Ensure.Present ObjectType.Table (Some "shop") (Some "orders") [Privilege.Select];
     grant_on "PUBLIC" Ensure.Absent ObjectType.Database None (Some "db") [Privilege.Connect]]
    [{| mb_role := "shop-editor";
        mb_members := [{| ms_name := "app"; ms_inherit := None; ms_admin := None |}];
        mb_exclusive := false |}].

Definition expanded : ExpandedManifest := expanded_of shop.
End ManifestScene.

Import ManifestScene.

Lemma shop_accepted : expand_manifest shop = Ok expanded.
Proof. vm_compute. reflexivity. Qed.

Lemma shop_generated :
  rd_name <$> em_roles expanded = ["shop-editor"; "owner"; "app"] ∧
  (rd_config <$> head (em_roles expanded)) = Some {[ "search_path" := "shop" ]}.
Proof. split; vm_compute; reflexivity. Qed.

Lemma expand_manifest_content_witness :
  expand_manifest shop = Ok expanded ∧ expanded = expanded_of shop.
Proof.
  split; [apply shop_accepted|].
  exact (expand_manifest_content shop expanded shop_accepted).
Defined.

Lemma expand_manifest_valid_witness :
  NoDup (es_name <$> em_schemas expanded) ∧ NoDup (rd_name <$> em_roles expanded).
Proof.
  destruct (expand_manifest_valid shop expanded shop_accepted) as (Hs & Hr & _).
  exact (conj Hs Hr).
Defined.

Lemma shop_qualified : selectors_qualified expanded.
Proof.
  unfold selectors_qualified. apply Forall_forall.
  assert (em_grants expanded = em_grants (expanded_of shop)) as -> by done.
  assert (Forall (λ g, negb (bool_decide (gr_ensure g = Ensure.Absent) &&
              bool_decide (ot_name (gr_object g) = Some "*") &&
              bool_decide (ot_schema (gr_object g) = None)) &&
            (bool_decide (ot_schema (gr_object g) = None) ||
             negb (bool_decide (ot_name (gr_object g) = None)))) (em_grants (expanded_of shop))) as H.
  { apply (bool_decide_unpack _). vm_compute. exact I. }
  eapply Forall_impl; [exact H|]. intros g [H1 H2]%andb_True. split.
  - intros He Hn Hs. by rw He Hn Hs in H1.
  - intros Hs Hn. rw Hn bool_decide_false // in H2.
Qed.

Lemma accepted_manifest_fixpoint_witness :
  expand_manifest shop = Ok expanded ∧ selectors_qualified expanded ∧
  ∃ g, from_expanded expanded (Some "owner") = Ok g ∧ diff g g = [].
Proof.
  split; [apply shop_accepted|]. split; [apply shop_qualified|].
  exact (accepted_manifest_fixpoint shop expanded shop_accepted shop_qualified).
Defined.

(** A manifest of positive entries: a profile of one named table. *)
Definition reader : Profile := {|
  prof_login := None; prof_inherit := None;
  prof_grants :=
    [{| pg_privileges := [Privilege.Usage]; pg_ensure := Ensure.Present;
        pg_object := {| pot_object_type := ObjectType.Schema; pot_name := None |} |};
     {| pg_privileges := [Privilege.Select]; pg_ensure := Ensure.Present;
        pg_object := {| pot_object_type := ObjectType.Table; pot_name := Some "orders" |} |}];
  prof_default_privileges :=
    [{| dpg_role := None; dpg_privileges := [Privilege.Select]; dpg_on_type := ObjectType.Table;
        dpg_ensure := Ensure.Present |}];
  prof_config := ∅ |}.

Definition readers : PolicyManifest :=
  manifest_of {[ "editor" := reader ]} [bind_schema "shop" ["editor"] None]
    [plain_role "owner"; login_role "app"]
    [grant_on "app" Ensure.Present ObjectType.Table (Some "shop") (Some "orders") [Privilege.Select]]
    [{| mb_role := "shop-editor";
        mb_members := [{| ms_name := "app"; ms_inherit := None; ms_admin := None |}];
        mb_exclusive := false |}].

Lemma readers_accepted : expand_manifest readers = Ok (expanded_of readers).
Proof. vm_compute. reflexivity. Qed.

Definition positive_grant (g : Grant) : bool :=
  bool_decide (gr_ensure g = Ensure.Present) && negb (bool_decide (gr_privileges g = [])) &&
  negb (bool_decide (ot_name (gr_object g) = Some "*")).
Definition positive_default (g : DefaultPrivilegeGrant) : bool :=
  bool_decide (dpg_ensure g = Ensure.Present) && negb (bool_decide (dpg_privileges g = [])).

Lemma readers_positive : positive (expanded_of readers).
Proof.
  split.
  - apply Forall_forall.
    assert (Forall positive_grant (em_grants (expanded_of readers))) as H
      by (apply (bool_decide_unpack _); vm_compute; exact I).
    eapply Forall_impl; [exact H|]. intros g [[H1 H2]%andb_True H3]%andb_True.
    by rw !negb_True !bool_decide_spec in H1 H2 H3.
  - intros d g Hd.
    assert (Forall (λ d, Forall positive_default (dp_grant d))
              (em_default_privileges (expanded_of readers))) as H
      by (apply (bool_decide_unpack _); vm_compute; exact I).
    pose proof (proj1 (Forall_forall _ _) H d Hd) as Hg. intros Hin.
    pose proof (proj1 (Forall_forall _ _) Hg g Hin) as [H1 H2]%andb_True.
    by rw negb_True !bool_decide_spec in H1 H2.
  - intros m1 s1 m2 s2 ->%list_elem_of_singleton ->%list_elem_of_singleton.
    by intros ->%list_elem_of_singleton ->%list_elem_of_singleton.
Qed.


(** ** Two manifests that are let through *)

(** Schema and database targets have no schema, so the wildcard rule does not see them:
    a role is granted [USAGE] on one schema and denied it on the schema wildcard, and
    planning the desired graph against itself revokes what it grants. *)
Definition schema_wildcard : PolicyManifest :=
  manifest_of ∅ [] [plain_role "app"]
    [grant_on "app" Ensure.Present ObjectType.Schema None (Some "shop") [Privilege.Usage];
     grant_on "app" Ensure.Absent ObjectType.Schema None (Some "*") [Privilege.Usage]] [].

Lemma schema_wildcard_never_converges :
  ∃ em g, expand_manifest schema_wildcard = Ok em ∧
    from_expanded em (pm_default_owner schema_wildcard) = Ok g ∧
    diff g g = [Change.Revoke (Grantee.Role "app") {[Privilege.Usage]} ObjectType.Schema None
                  (Some "shop") None].
Proof. eexists _, _. split_and!; [vm_compute; reflexivity..|]. vm_compute. reflexivity. Qed.

(** The reserved prefix is checked on declared roles, not on generated ones. *)
Definition reserved_prefix : PolicyManifest :=
  manifest_of {[ "editor" := editor ]} [bind_schema "shop" ["editor"] (Some "pg_{profile}")]
    [] [] [].

Lemma generated_role_takes_reserved_prefix :
  ∃ em role, expand_manifest reserved_prefix = Ok em ∧ role ∈ em_roles em ∧
    is_predefined_role (rd_name role) = true ∧ rd_external role = false.
Proof.
  eexists _, _. split_and!; [vm_compute; reflexivity|left|done|done].
Qed.
