(* ===== verification/Pipeline.v ===== *)
(** * From a manifest to SQL

    The plan of an accepted manifest can be rendered: the panics of [sql.rs] are
    unreachable behind the validation of [manifest.rs]. *)

From S2P Require Import Prelude BTree RustStr Types Manifest ManifestFacts.
From S2P Require Import Model Guc Change Diff DiffFacts DiffSafety Interp Converge Convergence Desired.
From S2P Require Import Plan Sql SqlLex SqlFacts.

(** ** The object types of default privileges *)

Definition keys_ok (P : DefaultPrivKey → Prop) (m : gmap DefaultPrivKey (gset Privilege)) : Prop :=
  ∀ k, is_Some (m !! k) → P k.

Lemma keys_extend P key X m : P key → keys_ok P m → keys_ok P (entry_extend key X m).
Proof.
  intros HP Hm k [Y Hk]. unfold entry_extend in Hk.
  apply lookup_insert_Some in Hk as [[<- _]|[_ Hk]]; [done|]. apply Hm. by eexists.
Qed.

Lemma keys_extend_nonempty P key X m : P key → keys_ok P m → keys_ok P (extend_nonempty key X m).
Proof. unfold extend_nonempty. case_bool_decide; [done|]. apply keys_extend. Qed.

Definition not_database (k : DefaultPrivKey) : Prop := dk_on_type k ≠ ObjectType.Database.

Lemma allowed_not_database scope t : on_type_allowed scope t = true → t ≠ ObjectType.Database.
Proof. by destruct scope, t. Qed.

Lemma expanded_default_keys em default_owner g :
  (∀ d, d ∈ em_default_privileges em → ∃ scope, resolved_scope d = Ok scope ∧
     ∀ dg, dg ∈ dp_grant d → on_type_allowed scope (dpg_on_type dg) = true) →
  from_expanded em default_owner = Ok g →
  keys_ok not_database (default_privileges g) ∧ keys_ok not_database (default_privilege_absences g).
Proof.
  intros Hd. unfold from_expanded. rw bind_Ok. intros (maps & Hmaps & [= <-]).
  cbn [default_privileges default_privilege_absences]. revert Hmaps.
  apply (fold_res_inv (λ maps, keys_ok not_database maps.1 ∧ keys_ok not_database maps.2)).
  { by split; intros k; rw lookup_empty; intros ?%is_Some_None. }
  intros s d s' Hin Hs. unfold add_default_privilege. rw bind_Ok. intros (scope & Hscope & Hf).
  destruct (Hd d Hin) as (scope' & Hscope' & Hall). rw Hscope in Hscope'. injection Hscope' as <-.
  revert Hf.
  apply (fold_res_inv (λ maps, keys_ok not_database maps.1 ∧ keys_ok not_database maps.2)); [done|].
  intros s1 dg s2 Hdg [H1 H2]. unfold add_default_grant. destruct (dpg_role dg); [|done].
  intros [= <-]. pose proof (allowed_not_database _ _ (Hall dg Hdg)) as Hdb.
  destruct (dpg_ensure dg); cbn [add_ensured fst snd]; split; try done; by apply keys_extend.
Qed.

Section default_keys.
Context (current desired : RoleGraph) (P : DefaultPrivKey → Prop)
  (Hc : keys_ok P (default_privileges current)) (Hd : keys_ok P (default_privileges desired))
  (Ha : keys_ok P (default_privilege_absences desired)).

Lemma default_revoke_keys : keys_ok P (default_revokes current desired).
Proof.
  unfold default_revokes. rw default_present_snd.
  apply foldl_inv; [apply foldl_inv; [apply foldl_inv|]|].
  - intros k. rw lookup_empty. by intros ?%is_Some_None.
  - intros r [k D] Hin%elem_of_map_iter Hr. cbn [fst snd].
    destruct (default_privileges current !! k); [|done]. destruct (is_public _); [done|].
    apply keys_extend_nonempty; [|done]. apply Hd. by eexists.
  - intros r [k C] Hin%elem_of_map_iter Hr. unfold default_excess_step.
    destruct (_ || _); [done|]. apply keys_extend; [|done]. apply Hc. by eexists.
  - intros r [k A] Hin%elem_of_map_iter Hr. unfold default_absence_step.
    apply keys_extend_nonempty; [|done]. apply Ha. by eexists.
Qed.

Lemma default_change_keys c :
  c ∈ (diff_default_privileges current desired).1 ∨ c ∈ (diff_default_privileges current desired).2 →
  ∃ k X, P k ∧ (c = change_set_default k X ∨ c = change_revoke_default k X).
Proof.
  rw diff_default_privileges_eq; cbn [fst snd]. intros [Hin|Hin].
  - apply elem_of_bind_1 in Hin as ([k D] & Hk%elem_of_map_iter & Hin). cbn [fst snd] in Hin.
    assert (P k) as HP by (apply Hd; by eexists).
    destruct (default_privileges current !! k) as [C|]; [case_bool_decide|]; elem_inv Hin; eauto.
  - apply elem_of_bind_1 in Hin as ([k X] & Hk%elem_of_map_iter & Hin). elem_inv Hin.
    exists k, X. split; [|by right]. apply default_revoke_keys. by eexists.
Qed.
End default_keys.

(** ** Rendering *)

Definition option_update (c : Change) : bool :=
  match c with Change.UpdateMemberOptions _ _ _ _ _ _ => true | _ => false end.

(** A planned option update has no executor yet. *)
Lemma elem_of_option_update current desired c :
  option_update c → c ∈ diff current desired → ∃ r m g i a, c = Change.UpdateMemberOptions r m g i a None.
Proof.
  intros Hu Hin. diff_origin Hin.
  all: try (apply emits_creates in Hin || apply emits_alters in Hin || apply emits_schema_changes in Hin
    || apply emits_schema_grants in Hin || apply emits_grants in Hin || apply emits_set_defaults in Hin
    || apply emits_revokes in Hin || apply emits_revoke_defaults in Hin || apply emits_drops in Hin);
    try (by destruct c).
  - apply elem_of_membership_removal in Hin as (r & m & [Hin|(ce & de & g & _ & _ & Hin)]).
    + by apply elem_of_remove_all in Hin as (g & -> & _).
    + apply elem_of_option_reduction in Hin as (i & a & -> & _). eauto 6.
  - unfold diff_memberships in Hin; cbn [fst] in Hin. elem_inv Hin.
    destruct x as [[r m] e]. unfold diff_membership, then_some in Hin.
    destruct (_ !! _) as [ce|]; [|simpl in Hin; elem_inv Hin; by subst].
    destruct (_ || _); [|elem_inv Hin].
    destruct (_ !! _) as [X|]; [destruct (set_iter X)|]; simpl in Hin;
      destruct_ifs Hin; elem_inv Hin; subst; try done; eauto 6.
Qed.

Lemma unresolved_not_renderable ctx r m g i a :
  ¬ renderable ctx (Change.UpdateMemberOptions r m g i a None).
Proof.
  intros [Hv _]. revert Hv. unfold validate_membership_options.
  intros [_ [_ [_ [Hn _]%throw_if_bind]%throw_if_bind]%throw_if_bind]%throw_if_bind. done.
Qed.

Lemma plain_renderable ctx c :
  option_update c = false → default_target_ok c → renderable ctx c.
Proof. intros Hu Hd. split; [by destruct c|done]. Qed.

Lemma aligned_defaults current g : default_privileges (aligned current g) = default_privileges g.
Proof. unfold aligned, resolve_routine_aliases. by repeat case_match. Qed.

Lemma aligned_default_absences current g :
  default_privilege_absences (aligned current g) = default_privilege_absences g.
Proof. unfold aligned, resolve_routine_aliases. by repeat case_match. Qed.

Lemma diff_default_targets current desired c :
  keys_ok not_database (default_privileges current) →
  keys_ok not_database (default_privileges desired) →
  keys_ok not_database (default_privilege_absences desired) →
  c ∈ diff current desired → default_target_ok c.
Proof.
  intros Hc Hd Ha Hin.
  assert (c ∈ (diff_default_privileges current (aligned current desired)).1 ∨
          c ∈ (diff_default_privileges current (aligned current desired)).2 ∨
          match c with Change.SetDefaultPrivilege _ _ _ _ _ | Change.RevokeDefaultPrivilege _ _ _ _ _ => False
                     | _ => True end) as Hcase.
  { apply elem_of_diff in Hin.
    destruct Hin as [H|[H|[H|[H|[H|[H|[[H _]|[H|[H|[H|H]]]]]]]]]]; auto; right; right;
      first [ apply emits_creates in H | apply emits_alters in H | apply emits_schema_changes in H
            | apply emits_schema_grants in H | apply emits_grants in H | apply emits_revokes in H
            | apply emits_member_removals in H | apply emits_member_adds in H
            | apply emits_drops in H ]; by destruct c. }
  assert (c ∈ (diff_default_privileges current (aligned current desired)).1 ∨
          c ∈ (diff_default_privileges current (aligned current desired)).2 → default_target_ok c) as Hdef.
  { intros H. rw -(aligned_defaults current) in Hd. rw -(aligned_default_absences current) in Ha.
    destruct (default_change_keys current (aligned current desired) not_database Hc Hd Ha c H) as (k & X & HP & [-> | ->]); by apply bool_decide_pack. }
  destruct Hcase as [H|[H|H]]; [auto..|]. by destruct c.
Qed.

(** A plan towards an accepted manifest is never stopped by a panic of the renderer:
    it is rendered exactly when it holds no membership-option update, which must be
    given its executor first, and replaces no membership whose grantors PostgreSQL 16
    would need.  The current state has no default privileges on databases, which
    PostgreSQL does not know. *)
Theorem accepted_plan_renders (manifest : PolicyManifest) (em : ExpandedManifest)
    (current desired : RoleGraph) (ctx : SqlContext) :
  expand_manifest manifest = Ok em →
  from_expanded em (pm_default_owner manifest) = Ok desired →
  keys_ok not_database (default_privileges current) →
  (∃ out, render_batch_with_context (diff current desired) ctx = Ok out) ↔
  unattributed (diff current desired) ctx = false ∧
  ∀ c, c ∈ diff current desired → option_update c = false.
Proof.
  intros [Hem Ha]%expand_manifest_Ok Hdes Hcur.
  destruct (expanded_default_keys _ _ _ (accepted_default Ha) Hdes) as [Hd Hda].
  rw render_batch_ok. split; intros [Hu Hall]; (split; [done|]); intros c Hc.
  - destruct (option_update c) eqn:Hopt; [|done]. exfalso.
    destruct (elem_of_option_update current desired c) as (r & m & g & i & a & ->); [by rw Hopt|done|].
    eapply unresolved_not_renderable, Hall, Hc.
  - apply plain_renderable; [by apply Hall|]. exact (diff_default_targets current desired c Hcur Hd Hda Hc).
Qed.

(** ** The reader manifest against an empty server *)

From S2P Require Import ManifestWitnesses.
Import ManifestScene.

Definition readers_graph : RoleGraph :=
  match from_expanded (expanded_of readers) (Some "owner") with
  | Ok g => g
  | _ => role_graph_default
  end.

Lemma readers_built : from_expanded (expanded_of readers) (Some "owner") = Ok readers_graph.
Proof.
  destruct (desired_exists eq_refl (proj2 (expand_manifest_Ok _ _ readers_accepted))) as [g Hg].
  change (pm_default_owner readers) with (Some "owner") in Hg. unfold readers_graph. by rw Hg.
Qed.

Lemma empty_keys_ok P : keys_ok P (default_privileges role_graph_default).
Proof. intros k. cbn [default_privileges role_graph_default]. rw lookup_empty. by intros ?%is_Some_None. Qed.

Lemma accepted_plan_renders_witness :
  expand_manifest readers = Ok (expanded_of readers) ∧
  ((∃ out, render_batch_with_context (diff role_graph_default readers_graph) sql_context_default = Ok out) ↔
   unattributed (diff role_graph_default readers_graph) sql_context_default = false ∧
   ∀ c, c ∈ diff role_graph_default readers_graph → option_update c = false).
Proof.
  split; [apply readers_accepted|].
  exact (accepted_plan_renders readers _ role_graph_default readers_graph sql_context_default
           readers_accepted readers_built (empty_keys_ok _)).
Defined.
