(* ===== verification/MembershipOptions.v ===== *)
(** * Membership-option resolution ([membership_options.rs])

    A planned option change names no executor.  Before review it is bound to a grantor
    the executor can act for, with the catalog facts it was decided on; a bound change
    passes every check of the renderer. *)

From S2P Require Import Prelude BTree RustStr Types Model Change Guc Diff DiffFacts DiffSafety Plan.
From S2P Require Import Sql SqlLex SqlFacts Manifest ManifestFacts.
From S2P Require Import Interp Converge Convergence Desired ManifestWitnesses Pipeline.

Record MembershipAuthority := {
  ma_executor : string;
  ma_usable_grantors : gmap string (gset string);
}.

Module MembershipOptionsError.
Inductive MembershipOptionsError : Set := IncompleteFacts (role member : string).
End MembershipOptionsError.
Abbreviation MembershipOptionsError := MembershipOptionsError.MembershipOptionsError.

(** The closure of [.filter]: the edges agree with the effective membership. *)
Definition agrees_with_membership (current : RoleGraph) (role member : string)
    (os : gmap string MembershipOptions) : bool :=
  match list_find (λ e, me_role e = role ∧ me_member e = member) (set_iter (memberships current)) with
  | Some (_, e) =>
      Bool.eqb (me_inherit e) (existsb mo_inherit (map_iter os).*2) &&
      Bool.eqb (me_admin e) (existsb mo_admin (map_iter os).*2)
  | None => false
  end.

(** The closure of [usable.and_then]: an existing edge of the executor, an existing
    usable edge, a new edge of the executor, a new edge of another. *)
Definition choose_grantor (executor : string) (options : gmap string MembershipOptions)
    (gs : gset string) : option string :=
  if bool_decide (executor ∈ gs) && bool_decide (is_Some (options !! executor))
  then Some executor
  else
    match list_find (λ g, is_Some (options !! g)) (set_iter gs) with
    | Some (_, g) => Some g
    | None => if bool_decide (executor ∈ gs) then Some executor else head (set_iter gs)
    end.

(** The closure of [.map]: one change. *)
Definition resolve_change (current : RoleGraph) (authority : MembershipAuthority) (change : Change) :
    res MembershipOptionsError Change :=
  match change with
  | Change.UpdateMemberOptions role member grantor inherit admin _ =>
      let incomplete := MembershipOptionsError.IncompleteFacts role member in
      match complete_membership_options current role member with
      | Some options =>
          _ ← throw_if (negb (agrees_with_membership current role member options)) incomplete;
          grantor ←
            (if bool_decide (inherit = Some true) || bool_decide (admin = Some true)
             then Ok (default (ma_executor authority)
                        (ma_usable_grantors authority !! role ≫=
                         choose_grantor (ma_executor authority) options))
             else _ ← throw_if (bool_decide (options !! grantor = None)) incomplete; Ok grantor);
          let expected :=
            match options !! grantor with
            | Some o => MembershipExpectedState.Present o
            | None => MembershipExpectedState.Absent
            end in
          Ok (Change.UpdateMemberOptions role member grantor inherit admin (Some {|
                mob_executor := ma_executor authority;
                mob_expected_edges := options;
                mob_set_effect := match expected with
                                  | MembershipExpectedState.Absent => MembershipSetEffect.CreateFalse
                                  | MembershipExpectedState.Present _ => MembershipSetEffect.Preserve
                                  end;
                mob_expected := expected |}))
      | None => Err incomplete
      end
  | c => Ok c
  end.

Definition resolve_membership_options (changes : list Change) (current : RoleGraph)
    (authority : MembershipAuthority) : res MembershipOptionsError (list Change) :=
  collect_results (resolve_change current authority) changes.

(** ** What is planned *)

(** An option change that lowers or raises something, and not both. *)
Definition one_direction (c : Change) : Prop :=
  match c with
  | Change.UpdateMemberOptions _ _ _ inherit admin _ =>
      (inherit ≠ None ∨ admin ≠ None) ∧
      ¬ ((inherit = Some false ∨ admin = Some false) ∧ (inherit = Some true ∨ admin = Some true))
  | _ => True
  end.

Lemma option_reduction_one_direction current ce de options r m g c :
  c ∈ option_reduction current ce de options r m g → one_direction c.
Proof.
  unfold option_reduction. intros Hc.
  destruct (_ && _ && _), (_ && _ && _ && _); simpl in Hc; elem_inv Hc; subst; simpl; naive_solver.
Qed.

Lemma planned_one_direction current desired c : c ∈ diff current desired → one_direction c.
Proof.
  intros Hin. destruct (option_update c) eqn:Hu; [|by destruct c].
  diff_origin Hin.
  all: try (apply emits_creates in Hin || apply emits_alters in Hin || apply emits_schema_changes in Hin
    || apply emits_schema_grants in Hin || apply emits_grants in Hin || apply emits_set_defaults in Hin
    || apply emits_revokes in Hin || apply emits_revoke_defaults in Hin || apply emits_drops in Hin);
    try (by destruct c).
  - apply elem_of_membership_removal in Hin as (r & m & [Hin|(ce & de & g & _ & _ & Hin)]).
    + by apply elem_of_remove_all in Hin as (g & -> & _).
    + by eapply option_reduction_one_direction.
  - unfold diff_memberships in Hin; cbn [fst] in Hin. elem_inv Hin.
    destruct x as [[r m] e]. unfold diff_membership, then_some in Hin.
    destruct (_ !! _) as [ce|]; [|simpl in Hin; elem_inv Hin; by subst].
    destruct (_ || _); [|elem_inv Hin].
    destruct (_ !! _) as [X|]; [destruct (set_iter X)|]; simpl in Hin;
      destruct_ifs Hin; elem_inv Hin; subst; simpl; naive_solver.
Qed.

(** ** What is resolved *)

Lemma complete_options_nonempty g role member options :
  complete_membership_options g role member = Some options → options ≠ ∅.
Proof.
  unfold complete_membership_options. destruct (membership_edge_grantors g !! _) as [X|]; [|done].
  simpl. destruct (membership_edge_options g !! _) as [os|]; [|done]. simpl.
  destruct (_ && _) eqn:Hb; [|done]. intros [= <-] ->.
  apply andb_true_iff in Hb as [Hne%bool_decide_eq_true Hk%bool_decide_eq_true].
  apply Hne, set_eq. intros x. rw -elem_of_set_iter Hk.
  change (map_keys (∅ : gmap string MembershipOptions)) with ([] : list string). set_solver.
Qed.

Lemma resolved_valid current authority ctx c c' :
  supports_grant_with_options ctx → ma_executor authority ≠ "" → one_direction c →
  resolve_change current authority c = Ok c' →
  validate_membership_options c' ctx = Ok tt.
Proof.
  intros Hctx Hex Hone. destruct c; cbn [resolve_change]; try (intros [= <-]; done).
  destruct (complete_membership_options current role member) as [options|] eqn:Hopt; [|done].
  apply complete_options_nonempty in Hopt.
  intros [_ (g & Hg & [= <-])%bind_Ok]%throw_if_bind.
  destruct Hone as [Hsome Hmixed].
  assert (∀ b, Is_true b → negb b = false) as Hneg by (by intros []).
  assert (bool_decide (inherit = Some false) || bool_decide (admin = Some false) = true →
          bool_decide (inherit = Some true) || bool_decide (admin = Some true) = true → False) as Hmix.
  { rw !orb_true_iff !bool_decide_eq_true. tauto. }
  assert (bool_decide (inherit = None) && bool_decide (admin = None) = false) as Hnone.
  { apply andb_false_iff. rw !bool_decide_eq_false. tauto. }
  assert (options !! g = None →
          bool_decide (inherit = Some false) || bool_decide (admin = Some false) = false) as Hlow.
  { intros Hgo. destruct (bool_decide (inherit = Some true) || bool_decide (admin = Some true)) eqn:Hr.
    - by destruct (bool_decide (inherit = Some false) || bool_decide (admin = Some false)); [destruct Hmix|].
    - apply throw_if_bind in Hg as [Hn%bool_decide_eq_false [= ->]]. by rw Hgo in Hn. }
  unfold validate_membership_options. rw !throw_if_bind throw_if_Ok.
  split; [by apply Hneg|].
  split; [apply not_true_iff_false; intros [? ?]%andb_true_iff; by apply Hmix|].
  split; [done|]. split; [simpl; by apply String.eqb_neq|].
  unfold binding_and, expectation_mismatch, expects_absent, creates_false. cbn [mob_expected mob_expected_edges mob_set_effect].
  rw (bool_decide_false (options = ∅)) //.
  destruct (options !! g) as [o|] eqn:Hgo; cbn [orb andb xorb].
  - rw bool_decide_false //. intros H. by apply H.
  - rw bool_decide_false; [|by intros [? ?]]. split; [done|]. split; [done|]. by apply Hlow.
Qed.


(** Existing edges come first, and every choice is usable. *)
Lemma choose_grantor_spec executor options gs :
  match choose_grantor executor options gs with
  | Some g => g ∈ gs ∧ ((∃ g', g' ∈ gs ∧ is_Some (options !! g')) → is_Some (options !! g))
  | None => gs = ∅
  end.
Proof.
  unfold choose_grantor. destruct (_ && _) eqn:Hex.
  { apply andb_true_iff in Hex as [H1%bool_decide_eq_true H2%bool_decide_eq_true]. done. }
  destruct (list_find _ (set_iter gs)) as [[i g]|] eqn:Hf.
  { apply list_find_Some in Hf as (Hg & Hsome & _). apply list_elem_of_lookup_2, elem_of_set_iter in Hg. done. }
  apply list_find_None in Hf.
  assert (¬ ∃ g', g' ∈ gs ∧ is_Some (options !! g')) as Hno.
  { intros (g' & Hg' & Hs). apply elem_of_set_iter in Hg'.
    by apply (proj1 (Forall_forall _ _) Hf) in Hg'. }
  case_bool_decide as Hin; [done|]. destruct (set_iter gs) as [|x l] eqn:Hl; simpl.
  - by apply set_iter_nil.
  - split; [|done]. apply elem_of_set_iter. rw Hl. left.
Qed.

(** What the resolution does to one change. *)
Definition resolved_as (current : RoleGraph) (authority : MembershipAuthority) (c c' : Change) : Prop :=
  match c with
  | Change.UpdateMemberOptions role member grantor inherit admin _ =>
      ∃ options grantor' binding,
        complete_membership_options current role member = Some options ∧
        c' = Change.UpdateMemberOptions role member grantor' inherit admin (Some binding) ∧
        mob_executor binding = ma_executor authority ∧ mob_expected_edges binding = options ∧
        mob_expected binding = match options !! grantor' with
                               | Some o => MembershipExpectedState.Present o
                               | None => MembershipExpectedState.Absent
                               end ∧
        let usable := default ∅ (ma_usable_grantors authority !! role) in
        if bool_decide (inherit = Some true) || bool_decide (admin = Some true)
        then (usable = ∅ → grantor' = ma_executor authority) ∧
             (usable ≠ ∅ → grantor' ∈ usable) ∧
             ((∃ g, g ∈ usable ∧ is_Some (options !! g)) → is_Some (options !! grantor'))
        else grantor' = grantor ∧ is_Some (options !! grantor)
  | _ => c' = c
  end.

Lemma resolve_change_spec current authority c c' :
  resolve_change current authority c = Ok c' → resolved_as current authority c c'.
Proof.
  destruct c; cbn [resolve_change resolved_as]; try (intros [= <-]; done).
  destruct (complete_membership_options current role member) as [options|]; [|done].
  intros [_ (g & Hg & [= <-])%bind_Ok]%throw_if_bind. eexists options, g, _.
  split_and!; [done..|]. destruct (_ || _).
  - injection Hg as <-. destruct (ma_usable_grantors authority !! role) as [gs|]; cbn [mbind option_bind default].
    + generalize (choose_grantor_spec (ma_executor authority) options gs).
      destruct (choose_grantor _ _ _) as [g|]; simpl; [|intros ->; set_solver].
      intros [Hg Hpref]. split_and!; [set_solver|done|done].
    + set_solver.
  - apply throw_if_bind in Hg as [Hn%bool_decide_eq_false [= <-]].
    split; [done|]. by apply not_eq_None_Some.
Qed.

(** Resolution changes nothing but option updates, one for one, and binds each of
    them to the executor and to all attributed edges of its pair: a reduction keeps its
    grantor, whose edge exists; an increase goes to a grantor the executor can act for,
    on an existing edge when there is one, and to the executor when there is none. *)
Theorem resolution_binds_authority (changes plan : list Change) (current : RoleGraph)
    (authority : MembershipAuthority) :
  resolve_membership_options changes current authority = Ok plan →
  Forall2 (resolved_as current authority) changes plan.
Proof.
  unfold resolve_membership_options. rw collect_results_Ok. intros H.
  eapply Forall2_impl; [exact H|]. apply resolve_change_spec.
Qed.

Lemma resolved_target current authority c c' :
  resolve_change current authority c = Ok c' → default_target_ok c → default_target_ok c'.
Proof. intros H%resolve_change_spec. destruct c; simpl in H; try (by subst). by destruct H as (? & ? & ? & _ & -> & _). Qed.

(** A resolved plan towards an accepted manifest is rendered for PostgreSQL 16 and
    later, unless it replaces a membership whose grantors are unknown: a bound option
    update passes every check of the renderer. *)
Theorem resolved_plan_renders (manifest : PolicyManifest) (em : ExpandedManifest)
    (current desired : RoleGraph) (authority : MembershipAuthority) (ctx : SqlContext)
    (plan : list Change) :
  expand_manifest manifest = Ok em →
  from_expanded em (pm_default_owner manifest) = Ok desired →
  keys_ok not_database (default_privileges current) →
  supports_grant_with_options ctx → ma_executor authority ≠ "" →
  resolve_membership_options (diff current desired) current authority = Ok plan →
  (∃ out, render_batch_with_context plan ctx = Ok out) ↔ unattributed plan ctx = false.
Proof.
  intros [Hem Ha]%expand_manifest_Ok Hdes Hcur Hctx Hex Hres.
  destruct (expanded_default_keys _ _ _ (accepted_default Ha) Hdes) as [Hd Hda].
  rw render_batch_ok. split; [by intros [? _]|]. intros Hu. split; [done|].
  intros c' Hc'. apply collect_results_Ok in Hres.
  apply list_elem_of_lookup_1 in Hc' as [i Hi].
  destruct (Forall2_lookup_r _ _ _ _ _ Hres Hi) as (c & Hc%list_elem_of_lookup_2 & Hcc').
  split.
  - eapply resolved_valid; [done|done|by eapply planned_one_direction|done].
  - eapply resolved_target; [done|]. exact (diff_default_targets current desired c Hcur Hd Hda Hc).
Qed.

(** ** A membership to reduce *)

Module OptionScene.
Definition edge : MembershipEdge := {|
  me_role := "shop-editor"; me_member := "app"; me_inherit := true; me_admin := true |}.
Definition options : gmap string MembershipOptions :=
  {[ "alice" := {| mo_inherit := true; mo_admin := true; mo_set := true |} ]}.
Definition current : RoleGraph := {|
  routine_aliases := ∅; roles := ∅; schemas := ∅; grants := ∅; default_privileges := ∅;
  memberships := {[ edge ]}; grant_absences := ∅; default_privilege_absences := ∅;
  exclusive_membership_roles := ∅; inherent_grants := ∅;
  membership_edge_grantors := {[ ("shop-editor", "app") := {[ "alice" ]} ]};
  membership_edge_options := {[ ("shop-editor", "app") := options ]};
  executor_authority_edges := ∅; grant_entry_grantors := ∅ |}.
Definition authority : MembershipAuthority := {|
  ma_executor := "dba"; ma_usable_grantors := {[ "shop-editor" := {[ "alice" ]} ]} |}.
Definition plan : list Change :=
  match resolve_membership_options (diff current readers_graph) current authority with
  | Ok plan => plan
  | _ => []
  end.
End OptionScene.

Lemma option_scene_resolves :
  resolve_membership_options (diff OptionScene.current readers_graph) OptionScene.current
    OptionScene.authority = Ok OptionScene.plan.
Proof. vm_compute. reflexivity. Qed.

Lemma resolution_binds_authority_witness :
  existsb option_update OptionScene.plan = true ∧
  Forall2 (resolved_as OptionScene.current OptionScene.authority)
    (diff OptionScene.current readers_graph) OptionScene.plan.
Proof.
  split; [vm_compute; reflexivity|].
  exact (resolution_binds_authority _ _ _ _ option_scene_resolves).
Defined.

Lemma resolved_plan_renders_witness :
  supports_grant_with_options sql_context_default ∧
  ((∃ out, render_batch_with_context OptionScene.plan sql_context_default = Ok out) ↔
   unattributed OptionScene.plan sql_context_default = false).
Proof.
  split; [exact I|].
  apply (resolved_plan_renders readers (ManifestFacts.expanded_of readers) OptionScene.current
           readers_graph OptionScene.authority sql_context_default OptionScene.plan).
  - exact readers_accepted.
  - exact readers_built.
  - exact (empty_keys_ok _).
  - exact I.
  - discriminate.
  - exact option_scene_resolves.
Defined.
