(* ===== verification/Overlap.v ===== *)
(** * Effect pairs ([overlap.rs])

    The (role, object) pairs a change touches, and when two of them intersect: two
    plans whose pairs do not intersect can be executed in either order. *)

From S2P Require Import Prelude BTree RustStr Types Model Change Diff DiffFacts DiffSafety Interp Converge.

Module EffectObject.
Inductive EffectObject : Set :=
  | RoleAttributes
  | Role (role : string)
  | Schema (schema : string)
  | Relation (schema name : string) (object_type : ObjectType)
  | Database (name : string).
End EffectObject.
Abbreviation EffectObject := EffectObject.EffectObject.

Record EffectPair := {
  ep_role : string;
  ep_object : EffectObject;
}.

Section effect_instances.
#[export] Instance effect_object_eq_dec : EqDecision EffectObject.
Proof. solve_decision. Defined.
#[export] Instance effect_pair_eq_dec : EqDecision EffectPair.
Proof. solve_decision. Defined.
#[export] Instance effect_object_countable : Countable EffectObject.
Proof.
  refine (inj_countable'
    (λ o, match o with
          | EffectObject.RoleAttributes => inl (inl ())
          | EffectObject.Role r => inl (inr (inl r))
          | EffectObject.Schema s => inl (inr (inr s))
          | EffectObject.Relation s n t => inr (inl (s, n, t))
          | EffectObject.Database n => inr (inr n)
          end)
    (λ x, match x with
          | inl (inl _) => EffectObject.RoleAttributes
          | inl (inr (inl r)) => EffectObject.Role r
          | inl (inr (inr s)) => EffectObject.Schema s
          | inr (inl (s, n, t)) => EffectObject.Relation s n t
          | inr (inr n) => EffectObject.Database n
          end) _).
  by intros [].
Defined.
#[export] Instance effect_pair_countable : Countable EffectPair.
Proof.
  refine (inj_countable' (λ p, (ep_role p, ep_object p))
    (λ '(r, o), {| ep_role := r; ep_object := o |}) _).
  by intros [].
Defined.
End effect_instances.

Definition roles_intersect (left right : string) : bool :=
  String.eqb left right || String.eqb left PUBLIC_ROLE || String.eqb right PUBLIC_ROLE.

Definition objects_intersect (left right : EffectObject) : bool :=
  match left, right with
  | EffectObject.RoleAttributes, _ | _, EffectObject.RoleAttributes => true
  | EffectObject.Role a, EffectObject.Role b => String.eqb a b
  | EffectObject.Schema a, EffectObject.Schema b => String.eqb a b
  | EffectObject.Schema s, EffectObject.Relation other _ _
  | EffectObject.Relation other _ _, EffectObject.Schema s => String.eqb s other
  | EffectObject.Relation s n t, EffectObject.Relation s' n' t' =>
      String.eqb s s' && String.eqb n n' && bool_decide (t = t')
  | EffectObject.Database a, EffectObject.Database b => String.eqb a b
  | _, _ => false
  end.

Definition intersects (self other : EffectPair) : bool :=
  roles_intersect (ep_role self) (ep_role other) && objects_intersect (ep_object self) (ep_object other).

Definition default_privilege_object (scope : DefaultPrivilegeScope) : EffectObject :=
  match scope with
  | DefaultPrivilegeScope.Schema schema => EffectObject.Schema schema
  | DefaultPrivilegeScope.Global => EffectObject.RoleAttributes
  end.

Definition grant_object (object_type : ObjectType) (schema name : option string) : EffectObject :=
  match object_type with
  | ObjectType.Schema =>
      match name, schema with
      | Some name, _ => EffectObject.Schema name
      | None, Some schema => EffectObject.Schema schema
      | None, None => EffectObject.RoleAttributes
      end
  | ObjectType.Database =>
      match name with Some name => EffectObject.Database name | None => EffectObject.Database "" end
  | object_type =>
      match schema, name with
      | Some schema, Some name => EffectObject.Relation schema name object_type
      | Some schema, None => EffectObject.Schema schema
      | None, Some name => EffectObject.Relation "" name object_type
      | None, None => EffectObject.RoleAttributes
      end
  end.

(** [EffectPair::new] *)
Definition new_pair (role : string) (object : EffectObject) : EffectPair := {|
  ep_role := role; ep_object := object |}.

Definition change_pairs (change : Change) : list EffectPair :=
  match change with
  | Change.CreateRole name _ | Change.AlterRole name _ | Change.SetComment name _
  | Change.SetPassword name _ | Change.DropRole name => [new_pair name EffectObject.RoleAttributes]
  | Change.DropOwned role | Change.TerminateSessions role =>
      [new_pair role EffectObject.RoleAttributes]
  | Change.ReassignOwned from_role to_role =>
      [new_pair from_role EffectObject.RoleAttributes; new_pair to_role EffectObject.RoleAttributes]
  | Change.CreateSchema name owner =>
      match owner with Some owner => [new_pair owner (EffectObject.Schema name)] | None => [] end
  | Change.AlterSchemaOwner name owner | Change.EnsureSchemaOwnerPrivileges name owner _ =>
      [new_pair owner (EffectObject.Schema name)]
  | Change.Grant role _ object_type schema name | Change.Revoke role _ object_type schema name _ =>
      [new_pair (grantee_as_str role) (grant_object object_type schema name)]
  | Change.SetDefaultPrivilege owner scope _ grantee _
  | Change.RevokeDefaultPrivilege owner scope _ grantee _ =>
      [new_pair (grantee_as_str grantee) (default_privilege_object scope);
       new_pair owner (default_privilege_object scope)]
  | Change.AddMember role member _ _ | Change.UpdateMemberOptions role member _ _ _ _
  | Change.RemoveMember role member _ => [new_pair member (EffectObject.Role role)]
  end.

Definition effect_pairs (changes : list Change) : gset EffectPair :=
  list_to_set (changes ≫= change_pairs).

Definition membership_overlay_pairs (edges : list MembershipEdge) : gset EffectPair :=
  list_to_set ((λ edge, new_pair (me_member edge) (EffectObject.Role (me_role edge))) <$> edges).

Definition intersecting_pairs (left right : gset EffectPair) : gset EffectPair :=
  filter (λ pair, existsb (intersects pair) (elements right)) left.

Definition pairs_intersect (left right : gset EffectPair) : bool :=
  existsb (λ pair, existsb (intersects pair) (elements right)) (elements left).

Definition describe_pair (pair : EffectPair) : string :=
  ep_role pair +:+
  match ep_object pair with
  | EffectObject.RoleAttributes => " (role attributes)"
  | EffectObject.Role role => " -> " +:+ role +:+ " (membership)"
  | EffectObject.Schema schema => " on schema " +:+ schema
  | EffectObject.Relation schema name object_type =>
      " on " +:+ object_type_to_string object_type +:+ " " +:+ schema +:+ "." +:+ name
  | EffectObject.Database name => " on database " +:+ name
  end.

(** ** Laws of intersection *)

Lemma roles_intersect_refl r : roles_intersect r r = true.
Proof. unfold roles_intersect. by rw String.eqb_refl. Qed.

Lemma objects_intersect_refl o : objects_intersect o o = true.
Proof. destruct o; simpl; rw ?String.eqb_refl ?bool_decide_true //. Qed.

Lemma intersects_refl p : intersects p p = true.
Proof. unfold intersects. by rw roles_intersect_refl objects_intersect_refl. Qed.

Lemma roles_intersect_sym r r' : roles_intersect r r' = roles_intersect r' r.
Proof.
  unfold roles_intersect. rw (String.eqb_sym r r').
  by destruct (r' =? r)%string, (r =? PUBLIC_ROLE)%string, (r' =? PUBLIC_ROLE)%string.
Qed.

Lemma objects_intersect_sym o o' : objects_intersect o o' = objects_intersect o' o.
Proof.
  destruct o, o'; simpl; try done; try apply String.eqb_sym.
  rw (String.eqb_sym schema) (String.eqb_sym name). f_equal. by apply bool_decide_ext.
Qed.

Lemma intersects_sym p q : intersects p q = intersects q p.
Proof. unfold intersects. by rw roles_intersect_sym objects_intersect_sym. Qed.

Lemma pairs_intersect_spec X Y :
  pairs_intersect X Y = true ↔ ∃ p q, p ∈ X ∧ q ∈ Y ∧ intersects p q = true.
Proof.
  unfold pairs_intersect. rw existsb_exists. setoid_rewrite existsb_exists.
  setoid_rewrite <- list_elem_of_In. setoid_rewrite elem_of_elements. naive_solver.
Qed.

Lemma pairs_disjoint l1 l2 c1 c2 p q :
  pairs_intersect (effect_pairs l1) (effect_pairs l2) = false →
  c1 ∈ l1 → c2 ∈ l2 → p ∈ change_pairs c1 → q ∈ change_pairs c2 → intersects p q = false.
Proof.
  intros Hn Hc1 Hc2 Hp Hq. apply not_true_iff_false. intros Hi.
  apply not_true_iff_false in Hn. apply Hn, pairs_intersect_spec. exists p, q.
  unfold effect_pairs. rw !elem_of_list_to_set. eauto using elem_of_bind_2.
Qed.

(** ** Plans with disjoint effects commute

    The intersection rule decides when an overlay forces a fresh review of a plan.  Its
    meaning on the role graph: every change updates single entries of single fields,
    two changes without intersecting pairs update different entries, and so two plans
    without intersecting pairs have the same outcome in either order. *)

(** ** Updates of one entry *)

Section entry_updates.
Context {K A : Type} `{Countable K}.
Implicit Type m : gmap K A.

(** An update of one entry, which may fail on what it finds there. *)
Definition update : Type := K * (option A → option (option A)).

Definition run_update (u : update) m : option (gmap K A) :=
  new ← u.2 (m !! u.1); Some (partial_alter (λ _, new) u.1 m).

(** A field a change leaves alone. *)
Definition run_field (u : option update) m : option (gmap K A) :=
  match u with Some u => run_update u m | None => Some m end.

Definition apart {B} (x y : option (K * B)) : Prop :=
  ∀ p q, x = Some p → y = Some q → p.1 ≠ q.1.

Lemma run_update_commute (u v : update) m :
  u.1 ≠ v.1 → run_update u m ≫= run_update v = run_update v m ≫= run_update u.
Proof.
  destruct u as [k f], v as [k' f']. cbn [fst]. intros Hk. unfold run_update; cbn [fst snd].
  destruct (f (m !! k)) as [x|] eqn:Hf, (f' (m !! k')) as [y|] eqn:Hf'; cbn [mbind option_bind];
    rw ?lookup_partial_alter_ne // ?Hf ?Hf' //=.
  by rw partial_alter_partial_alter_ne.
Qed.

Lemma run_field_commute (u v : option update) m :
  apart u v → run_field u m ≫= run_field v = run_field v m ≫= run_field u.
Proof.
  intros Ha. destruct u as [u|], v as [v|]; simpl; try done.
  - apply run_update_commute. by apply Ha.
  - by destruct (run_update u m).
  - by destruct (run_update v m).
Qed.
End entry_updates.
Arguments update : clear implicits.

(** An update of the edges of one (role, member) pair. *)
Definition edge_update : Type := (string * string) * gset MembershipEdge.

Definition run_edges_of (u : edge_update) (ms : gset MembershipEdge) : gset MembershipEdge :=
  retain_others u.1.1 u.1.2 ms ∪ u.2.
Definition run_members (u : option edge_update) (ms : gset MembershipEdge) : gset MembershipEdge :=
  match u with Some u => run_edges_of u ms | None => ms end.

Definition edges_on (u : edge_update) : Prop :=
  ∀ e, e ∈ u.2 → me_role e = u.1.1 ∧ me_member e = u.1.2.

Lemma elem_of_run_edges u ms e :
  e ∈ run_edges_of u ms ↔ (e ∈ ms ∧ ¬ (me_role e = u.1.1 ∧ me_member e = u.1.2)) ∨ e ∈ u.2.
Proof. unfold run_edges_of, retain_others. set_solver. Qed.

Lemma run_members_commute u v ms :
  apart u v → (∀ w, u = Some w → edges_on w) → (∀ w, v = Some w → edges_on w) →
  run_members v (run_members u ms) = run_members u (run_members v ms).
Proof.
  intros Ha Hu Hv. destruct u as [u|], v as [v|]; simpl; try done.
  specialize (Hu u eq_refl). specialize (Hv v eq_refl). specialize (Ha u v eq_refl eq_refl).
  apply set_eq. intros e. rw !elem_of_run_edges.
  assert (e ∈ u.2 → ¬ (me_role e = v.1.1 ∧ me_member e = v.1.2)) as H1.
  { intros [-> ->]%Hu [??]. apply Ha. by destruct u as [[] ?], v as [[] ?]; simpl in *; congruence. }
  assert (e ∈ v.2 → ¬ (me_role e = u.1.1 ∧ me_member e = u.1.2)) as H2.
  { intros [-> ->]%Hv [??]. apply Ha. by destruct u as [[] ?], v as [[] ?]; simpl in *; congruence. }
  tauto.
Qed.

(** ** The footprint of a change *)

Record Footprint := {
  fp_roles : option (update string RoleState);
  fp_schemas : option (update string SchemaState);
  fp_grants : option (update GrantKey GrantState);
  fp_defaults : option (update DefaultPrivKey DefaultPrivState);
  fp_members : option edge_update;
}.

Definition run_footprint (fp : Footprint) (g : RoleGraph) : option RoleGraph :=
  rs ← run_field (fp_roles fp) (roles g);
  ss ← run_field (fp_schemas fp) (schemas g);
  gs ← run_field (fp_grants fp) (grants g);
  ds ← run_field (fp_defaults fp) (default_privileges g);
  Some (with_live g rs ss gs ds (run_members (fp_members fp) (memberships g))).

Definition touching (r : option (update string RoleState)) (s : option (update string SchemaState))
    (g : option (update GrantKey GrantState)) (d : option (update DefaultPrivKey DefaultPrivState))
    (m : option edge_update) : option Footprint :=
  Some {| fp_roles := r; fp_schemas := s; fp_grants := g; fp_defaults := d; fp_members := m |}.

Definition set_entry {A} (x : A) : option A → option (option A) := λ _, Some (Some x).
Definition drop_entry {A} : option A → option (option A) := λ _, Some None.
Definition alter_entry {A} (f : A → A) : option A → option (option A) := λ old, x ← old; Some (Some (f x)).
Definition extend_entry (ps : gset Privilege) : option (gset Privilege) → option (option (gset Privilege)) :=
  λ old, Some (Some (default ∅ old ∪ ps)).
Definition shrink_entry (ps : gset Privilege) : option (gset Privilege) → option (option (gset Privilege)) :=
  λ old, Some (x ← old; if bool_decide (x ∖ ps = ∅) then None else Some (x ∖ ps)).

Definition default_key_of (owner : string) (scope : DefaultPrivilegeScope) (t : ObjectType)
    (grantee : Grantee) : DefaultPrivKey := {|
  dk_owner := owner; dk_scope := scope; dk_on_type := t; dk_grantee := grantee |}.

(** [None] for the changes the interpreter has no effect for. *)
Definition footprint (c : Change) : option Footprint :=
  match c with
  | Change.CreateRole name state => touching (Some (name, set_entry state)) None None None None
  | Change.AlterRole name attributes =>
      touching (Some (name, alter_entry (λ st, foldl apply_attribute st attributes))) None None None None
  | Change.SetComment name comment =>
      touching (Some (name, alter_entry (λ st, with_comment st comment))) None None None None
  | Change.DropRole name => touching (Some (name, drop_entry)) None None None None
  | Change.CreateSchema name owner =>
      touching None (Some (name, set_entry {|
        ss_owner := owner;
        ss_owner_privileges :=
          match owner with Some o => default_schema_owner_privileges o | None => ∅ end |}))
        None None None
  | Change.AlterSchemaOwner name owner =>
      touching None
        (Some (name, alter_entry (λ _, {| ss_owner := Some owner;
                       ss_owner_privileges := {[Privilege.Create; Privilege.Usage]} |})))
        (Some (owner_key name owner, drop_entry)) None None
  | Change.EnsureSchemaOwnerPrivileges name _ privileges =>
      touching None (Some (name, alter_entry (λ st, {|
        ss_owner := ss_owner st; ss_owner_privileges := ss_owner_privileges st ∪ privileges |})))
        None None None
  | Change.Grant role ps t schema name =>
      touching None None (Some (target_key role t schema name, extend_entry ps)) None None
  | Change.Revoke role ps t schema name _ =>
      touching None None (Some (target_key role t schema name, shrink_entry ps)) None None
  | Change.SetDefaultPrivilege owner scope t grantee ps =>
      touching None None None (Some (default_key_of owner scope t grantee, extend_entry ps)) None
  | Change.RevokeDefaultPrivilege owner scope t grantee ps =>
      touching None None None (Some (default_key_of owner scope t grantee, shrink_entry ps)) None
  | Change.AddMember role member inherit admin =>
      touching None None None None (Some (role, member, {[ {|
        me_role := role; me_member := member; me_inherit := inherit; me_admin := admin |} ]}))
  | Change.RemoveMember role member _ => touching None None None None (Some (role, member, ∅))
  | _ => None
  end.

(** No revoke over a wildcard. *)
Definition concrete_change (c : Change) : bool :=
  match c with Change.Revoke _ _ _ _ (Some name) _ => negb (String.eqb name "*") | _ => true end.

Lemma revoke_entry_update {K} `{Countable K} ps (m : gmap K (gset Privilege)) k :
  Some (revoke_entry ps m k) = run_update (k, shrink_entry ps) m.
Proof.
  unfold revoke_entry, run_update, shrink_entry; cbn [fst snd mbind option_bind]. f_equal.
  destruct (m !! k) as [x|] eqn:Hk; cbn [mbind option_bind].
  - by case_bool_decide.
  - symmetry. by apply partial_alter_same.
Qed.

Lemma with_live_same g :
  with_live g (roles g) (schemas g) (grants g) (default_privileges g) (memberships g) = g.
Proof. by destruct g. Qed.

(** The interpreter acts through the footprint. *)
Lemma apply_change_footprint g c :
  concrete_change c →
  apply_change g c = match footprint c with Some fp => run_footprint fp g | None => None end.
Proof.
  intros Hc. destruct c; cbn [apply_change footprint]; unfold touching, run_footprint;
    cbn [fp_roles fp_schemas fp_grants fp_defaults fp_members run_field run_members mbind option_bind];
    try done.
  - unfold run_update, alter_entry; cbn [fst snd]. destruct (schemas g !! name); by cbn.
  - unfold run_update, alter_entry; cbn [fst snd]. by destruct (schemas g !! name).
  - unfold run_update, alter_entry; cbn [fst snd]. by destruct (roles g !! name).
  - unfold run_update, alter_entry; cbn [fst snd]. by destruct (roles g !! name).
  - unfold affected, is_wildcard; cbn [gk_name]. rw bool_decide_false.
    + by rw -revoke_entry_update.
    + intros ->. destruct Hc.
  - by rw -revoke_entry_update.
  - unfold run_edges_of; cbn [fst snd]. by rw (right_id_L ∅).
Qed.

(** ** Footprints apart *)

Record footprints_apart (a b : Footprint) : Prop := {
  fa_roles : apart (fp_roles a) (fp_roles b);
  fa_schemas : apart (fp_schemas a) (fp_schemas b);
  fa_grants : apart (fp_grants a) (fp_grants b);
  fa_defaults : apart (fp_defaults a) (fp_defaults b);
  fa_members : apart (fp_members a) (fp_members b);
}.

Definition members_ok (fp : Footprint) : Prop := ∀ w, fp_members fp = Some w → edges_on w.

Lemma footprint_members_ok c fp : footprint c = Some fp → members_ok fp.
Proof.
  intros Hf w Hw e He. destruct c; cbn [footprint] in Hf; unfold touching in Hf; try discriminate;
    injection Hf as <-; cbn [fp_members] in Hw; try discriminate; injection Hw as <-; cbn [fst snd] in *; [|set_solver].
  apply elem_of_singleton in He as ->. done.
Qed.

Lemma run_footprint_bind fp g (k : RoleGraph → option RoleGraph) :
  run_footprint fp g ≫= k =
  rs ← run_field (fp_roles fp) (roles g);
  ss ← run_field (fp_schemas fp) (schemas g);
  gs ← run_field (fp_grants fp) (grants g);
  ds ← run_field (fp_defaults fp) (default_privileges g);
  k (with_live g rs ss gs ds (run_members (fp_members fp) (memberships g))).
Proof.
  unfold run_footprint.
  destruct (run_field (fp_roles fp) _), (run_field (fp_schemas fp) _), (run_field (fp_grants fp) _),
    (run_field (fp_defaults fp) _); done.
Qed.

(** Four pairs of commuting steps, run field by field, commute as a whole. *)
Lemma four_fields_commute {A B C D R} (a a' : option A) (fa fa' : A → option A)
    (b b' : option B) (fb fb' : B → option B) (c c' : option C) (fc fc' : C → option C)
    (d d' : option D) (fd fd' : D → option D) (k : A → B → C → D → option R) :
  a ≫= fa' = a' ≫= fa → b ≫= fb' = b' ≫= fb → c ≫= fc' = c' ≫= fc → d ≫= fd' = d' ≫= fd →
  (x ← a; y ← b; z ← c; w ← d; x ← fa' x; y ← fb' y; z ← fc' z; w ← fd' w; k x y z w) =
  (x ← a'; y ← b'; z ← c'; w ← d'; x ← fa x; y ← fb y; z ← fc z; w ← fd w; k x y z w).
Proof.
  intros Ha Hb Hc Hd.
  assert (∀ T (a : option A) (b : option B) (c : option C) (d : option D) fa fb fc fd
      (k : A → B → C → D → option T),
    (x ← a; y ← b; z ← c; w ← d; x ← fa x; y ← fb y; z ← fc z; w ← fd w; k x y z w) =
    (x ← a ≫= fa; y ← b ≫= fb; z ← c ≫= fc; w ← d ≫= fd; k x y z w)) as Hseq.
  { intros T a0 b0 c0 d0 fa0 fb0 fc0 fd0 k0.
    destruct a0 as [x|], b0 as [y|], c0 as [z|], d0 as [w|]; simpl; try done;
      destruct (fa0 x) as [?|]; simpl; try done; destruct (fb0 y) as [?|]; simpl; try done;
      destruct (fc0 z) as [?|]; simpl; done. }
  by rw !Hseq Ha Hb Hc Hd.
Qed.

Lemma footprints_commute a b g :
  footprints_apart a b → members_ok a → members_ok b →
  run_footprint a g ≫= run_footprint b = run_footprint b g ≫= run_footprint a.
Proof.
  intros [Hr Hs Hg Hd Hm] Ha Hb. rw !run_footprint_bind. unfold run_footprint.
  cbn [roles schemas grants default_privileges memberships with_live].
  pose proof (run_members_commute _ _ (memberships g) Hm Ha Hb) as Hms.
  pose proof (four_fields_commute _ _ _ _ _ _ _ _ _ _ _ _ _ _ _ _
    (λ rs ss gs ds, Some (with_live g rs ss gs ds (run_members (fp_members b) (run_members (fp_members a) (memberships g)))))
    (run_field_commute _ _ (roles g) Hr) (run_field_commute _ _ (schemas g) Hs)
    (run_field_commute _ _ (grants g) Hg) (run_field_commute _ _ (default_privileges g) Hd)) as H.
  etrans; [exact H|]. by rw Hms.
Qed.

(** ** Disjoint changes *)

(** The schema whose entry a change replaces. *)
Definition schema_entry (c : Change) : option string :=
  match c with
  | Change.CreateSchema name _ | Change.AlterSchemaOwner name _
  | Change.EnsureSchemaOwnerPrivileges name _ _ => Some name
  | _ => None
  end.

Definition schema_entries (l : list Change) : list string := omap schema_entry l.

(** Every entry of a footprint shows in the pairs of the change. *)
Lemma footprint_pairs c fp :
  footprint c = Some fp →
  (∀ u, fp_roles fp = Some u → new_pair u.1 EffectObject.RoleAttributes ∈ change_pairs c) ∧
  (∀ u, fp_schemas fp = Some u → schema_entry c = Some u.1) ∧
  (∀ u, fp_grants fp = Some u →
     new_pair (grantee_as_str (gk_role u.1)) (grant_object (gk_object_type u.1) (gk_schema u.1) (gk_name u.1))
       ∈ change_pairs c) ∧
  (∀ u, fp_defaults fp = Some u →
     new_pair (dk_owner u.1) (default_privilege_object (dk_scope u.1)) ∈ change_pairs c) ∧
  (∀ u, fp_members fp = Some u → new_pair u.1.2 (EffectObject.Role u.1.1) ∈ change_pairs c).
Proof.
  intros Hf. destruct c; cbn [footprint] in Hf; unfold touching in Hf; try discriminate; injection Hf as <-;
    cbn [fp_roles fp_schemas fp_grants fp_defaults fp_members change_pairs schema_entry];
    split_and!; intros u Hu; try discriminate; injection Hu as <-; cbn; try done; rw ?elem_of_cons; tauto.
Qed.

Lemma disjoint_apart c1 c2 f1 f2 :
  (∀ p q, p ∈ change_pairs c1 → q ∈ change_pairs c2 → intersects p q = false) →
  (∀ s, schema_entry c1 = Some s → schema_entry c2 = Some s → False) →
  footprint c1 = Some f1 → footprint c2 = Some f2 → footprints_apart f1 f2.
Proof.
  intros Hd Hs H1%footprint_pairs H2%footprint_pairs.
  destruct H1 as (R1 & S1 & G1 & D1 & M1), H2 as (R2 & S2' & G2 & D2 & M2).
  assert (∀ p, p ∈ change_pairs c1 → p ∈ change_pairs c2 → False) as Hno.
  { intros p Hp Hq. specialize (Hd p p Hp Hq). by rw intersects_refl in Hd. }
  split; intros p q Hp Hq Heq.
  - apply (Hno _ (R1 _ Hp)). rw Heq. by apply R2.
  - apply (Hs p.1); [by apply S1|]. rw Heq. by apply S2'.
  - apply (Hno _ (G1 _ Hp)). rw Heq. by apply G2.
  - apply (Hno _ (D1 _ Hp)). rw Heq. by apply D2.
  - apply (Hno _ (M1 _ Hp)). rw Heq. by apply M2.
Qed.

Lemma changes_commute c1 c2 g :
  concrete_change c1 → concrete_change c2 →
  (∀ p q, p ∈ change_pairs c1 → q ∈ change_pairs c2 → intersects p q = false) →
  (∀ s, schema_entry c1 = Some s → schema_entry c2 = Some s → False) →
  apply_change g c1 ≫= (λ g, apply_change g c2) = apply_change g c2 ≫= (λ g, apply_change g c1).
Proof.
  intros H1 H2 Hd Hs.
  assert (∀ c, concrete_change c → ∀ o, o ≫= (λ g, apply_change g c) =
    match footprint c with Some fp => o ≫= run_footprint fp | None => None end) as Happ.
  { intros c Hc [g'|]; simpl; [|by destruct (footprint c)]. by rw apply_change_footprint. }
  rw !Happ // !apply_change_footprint //.
  destruct (footprint c1) as [f1|] eqn:E1, (footprint c2) as [f2|] eqn:E2; try done.
  apply footprints_commute; [by eapply disjoint_apart|by eapply footprint_members_ok..].
Qed.

(** A step that commutes with every change of a list commutes with the list. *)
Lemma change_over_changes c l g :
  (∀ d, d ∈ l → ∀ g, apply_change g c ≫= (λ g, apply_change g d) =
                     apply_change g d ≫= (λ g, apply_change g c)) →
  apply_change g c ≫= (λ g, apply_changes g l) = apply_changes g l ≫= (λ g, apply_change g c).
Proof.
  revert g. induction l as [|d l IH]; intros g Hl; [simpl; by destruct (apply_change g c)|].
  transitivity ((apply_change g c ≫= (λ g, apply_change g d)) ≫= λ g, apply_changes g l).
  { by destruct (apply_change g c). }
  rw Hl; [|left]. cbn [apply_changes]. destruct (apply_change g d) as [g'|]; [|done].
  cbn [mbind option_bind]. apply IH. intros e He. apply Hl. by right.
Qed.

Lemma lists_commute l1 l2 g :
  (∀ c d, c ∈ l1 → d ∈ l2 → ∀ g, apply_change g c ≫= (λ g, apply_change g d) =
                                 apply_change g d ≫= (λ g, apply_change g c)) →
  apply_changes g (l1 ++ l2) = apply_changes g (l2 ++ l1).
Proof.
  revert g. induction l1 as [|c l1 IH]; intros g Hl; [by rw app_nil_r|].
  transitivity (apply_change g c ≫= λ g, apply_changes g (l2 ++ l1)).
  { simpl. destruct (apply_change g c); [|done]. apply IH. intros x d Hx. apply Hl. by right. }
  transitivity ((apply_change g c ≫= (λ g, apply_changes g l2)) ≫= λ g, apply_changes g l1).
  { destruct (apply_change g c); [|done]. simpl. by rw apply_changes_app. }
  rw change_over_changes.
  - rw apply_changes_app. by destruct (apply_changes g l2).
  - intros d Hd. apply Hl; [left|done].
Qed.


(** The pairs of an overlay are those of the grants that install its edges. *)
Lemma overlay_pairs_are_effects (edges : list MembershipEdge) :
  membership_overlay_pairs edges =
  effect_pairs ((λ e, Change.AddMember (me_role e) (me_member e) (me_inherit e) (me_admin e)) <$> edges).
Proof.
  unfold membership_overlay_pairs, effect_pairs. f_equal.
  induction edges as [|e edges IH]; [done|]. by rw !fmap_cons bind_cons IH.
Qed.

(** when the edges an overlay adds and a plan have no intersecting pairs, the plan
    has the same outcome whether the overlay is installed before or after it. *)
Theorem overlay_commutes_with_plan (edges : list MembershipEdge) (l : list Change) (g : RoleGraph) :
  Forall concrete_change l →
  pairs_intersect (membership_overlay_pairs edges) (effect_pairs l) = false →
  let installed := (λ e, Change.AddMember (me_role e) (me_member e) (me_inherit e) (me_admin e)) <$> edges in
  apply_changes g (installed ++ l) = apply_changes g (l ++ installed).
Proof.
  rw overlay_pairs_are_effects Forall_forall. intros Hl Hp installed. apply lists_commute.
  intros c d Hc Hd g'. apply changes_commute; [..|by eauto using pairs_disjoint|].
  - by apply list_elem_of_fmap in Hc as (e & -> & _).
  - by apply Hl.
  - apply list_elem_of_fmap in Hc as (e & -> & _). done.
Qed.

Module OverlapScene.
(** A plan for the schema [audit] and the tables of [app]. *)
Definition plan : list Change := [
  Change.AlterRole "writer" [RoleAttribute.Login true];
  Change.CreateSchema "audit" (Some "owner");
  Change.Grant (Grantee.Role "reader") {[Privilege.Select]} ObjectType.Table (Some "app") (Some "orders")].
(** Another, on other roles. *)
Definition other : list Change := [
  Change.SetComment "owner2" (Some "the owner");
  Change.Revoke (Grantee.Role "guest") {[Privilege.Select]} ObjectType.Table (Some "app") (Some "orders") None].
Definition edges : list MembershipEdge := [
  {| me_role := "app_admin"; me_member := "alice"; me_inherit := true; me_admin := false |}].
Definition graph : RoleGraph :=
  with_live role_graph_default {[ "writer" := role_state_default; "owner2" := role_state_default ]}
    ∅ ∅ ∅ ∅.
Definition installed : list Change :=
  (λ e, Change.AddMember (me_role e) (me_member e) (me_inherit e) (me_admin e)) <$> edges.
End OverlapScene.


Lemma overlay_commutes_with_plan_witness :
  bool_decide (is_Some (apply_changes OverlapScene.graph (OverlapScene.installed ++ OverlapScene.plan))) = true ∧
  apply_changes OverlapScene.graph (OverlapScene.installed ++ OverlapScene.plan) =
  apply_changes OverlapScene.graph (OverlapScene.plan ++ OverlapScene.installed).
Proof.
  split; [vm_compute; reflexivity|].
  apply overlay_commutes_with_plan; [by repeat constructor|by vm_compute].
Defined.
