(* ===== verification/Ownership.v ===== *)
(** * Managed scope of a bundle ([ownership.rs])

    The ownership index says which policy document declares what.  The change surface
    derived from it is the authority of a plan: a plan that validates against the
    surface leaves everything outside it as it was. *)

From S2P Require Import Prelude BTree RustStr Types Model Change Diff DiffFacts DiffSafety Interp Converge.

Record SchemaFacetKey := {
  sfk_schema : string;
  sfk_facet : SchemaBindingFacet;
}.

Record MembershipKey := {
  mk_role : string;
  mk_member : string;
}.

Definition facet_key_tuple (k : SchemaFacetKey) : string * SchemaBindingFacet :=
  (sfk_schema k, sfk_facet k).
Definition membership_key_tuple (k : MembershipKey) : string * string := (mk_role k, mk_member k).

#[export] Instance facet_key_tuple_inj : Inj (=) (=) facet_key_tuple.
Proof. intros [] []; unfold facet_key_tuple; naive_solver. Qed.
#[export] Instance membership_key_tuple_inj : Inj (=) (=) membership_key_tuple.
Proof. intros [] []; unfold membership_key_tuple; naive_solver. Qed.

Section ownership_instances.
#[export] Instance facet_key_eq_dec : EqDecision SchemaFacetKey.
Proof. solve_decision. Defined.
#[export] Instance membership_key_eq_dec : EqDecision MembershipKey.
Proof. solve_decision. Defined.
#[export] Instance facet_key_countable : Countable SchemaFacetKey.
Proof.
  refine (inj_countable' facet_key_tuple (λ '(s, f), {| sfk_schema := s; sfk_facet := f |}) _).
  by intros [].
Defined.
#[export] Instance membership_key_countable : Countable MembershipKey.
Proof.
  refine (inj_countable' membership_key_tuple (λ '(r, m), {| mk_role := r; mk_member := m |}) _).
  by intros [].
Defined.
End ownership_instances.

#[export] Instance facet_key_ord : Ord SchemaFacetKey := ord_by facet_key_tuple.
#[export] Instance membership_key_ord : Ord MembershipKey := ord_by membership_key_tuple.

Record OwnershipIndex := {
  oi_roles : gmap string string;
  oi_schema_facets : gmap SchemaFacetKey string;
  oi_grants : gmap GrantKey string;
  oi_default_privileges : gmap DefaultPrivKey string;
  oi_memberships : gmap MembershipKey string;
  oi_membership_stanzas : gmap string (string * bool);
}.

(** [OwnershipIndex::default] *)
Definition ownership_default : OwnershipIndex := {|
  oi_roles := ∅; oi_schema_facets := ∅; oi_grants := ∅; oi_default_privileges := ∅;
  oi_memberships := ∅; oi_membership_stanzas := ∅;
|}.

Record ManagedSchemaScope := {
  mss_owner : bool;
  mss_bindings : bool;
}.

Record ManagedScope := {
  mgs_roles : gset string;
  mgs_schemas : gmap string ManagedSchemaScope;
}.

Record ManagedChangeSurface := {
  mcs_roles : gset string;
  mcs_owner_schemas : gset string;
  mcs_binding_schemas : gset string;
  mcs_explicit_grants : gset GrantKey;
  mcs_explicit_default_privileges : gset DefaultPrivKey;
  mcs_explicit_memberships : gset MembershipKey;
}.

(** The loop body of [managed_scope]: [entry.owner = true], [entry.bindings = true]. *)
Definition scope_facet (m : gmap string ManagedSchemaScope) (key : SchemaFacetKey) :
    gmap string ManagedSchemaScope :=
  let entry := default {| mss_owner := false; mss_bindings := false |} (m !! sfk_schema key) in
  <[sfk_schema key :=
      match sfk_facet key with
      | SchemaBindingFacet.Owner => {| mss_owner := true; mss_bindings := mss_bindings entry |}
      | SchemaBindingFacet.Bindings => {| mss_owner := mss_owner entry; mss_bindings := true |}
      end]> m.

Definition managed_scope (self : OwnershipIndex) : ManagedScope := {|
  mgs_roles := list_to_set (map_keys (oi_roles self));
  mgs_schemas := foldl scope_facet ∅ (map_keys (oi_schema_facets self));
|}.

(** The schemas a facet loop inserts. *)
Definition facet_schemas (facet : SchemaBindingFacet) (keys : list SchemaFacetKey) : gset string :=
  foldl (λ X key, if decide (sfk_facet key = facet) then {[sfk_schema key]} ∪ X else X) ∅ keys.

Definition managed_change_surface (self : OwnershipIndex) : ManagedChangeSurface := {|
  mcs_roles := list_to_set (map_keys (oi_roles self));
  mcs_owner_schemas := facet_schemas SchemaBindingFacet.Owner (map_keys (oi_schema_facets self));
  mcs_binding_schemas := facet_schemas SchemaBindingFacet.Bindings (map_keys (oi_schema_facets self));
  mcs_explicit_grants := list_to_set (map_keys (oi_grants self));
  mcs_explicit_default_privileges := list_to_set (map_keys (oi_default_privileges self));
  mcs_explicit_memberships := list_to_set (map_keys (oi_memberships self));
|}.

Definition needs_database_privilege_inspection (self : ManagedChangeSurface) : bool :=
  negb (bool_decide (mcs_roles self = ∅)).

Definition is_binding_schema_object (object_type : ObjectType) : bool :=
  match object_type with ObjectType.Database => false | _ => true end.

Definition grant_schema_name (key : GrantKey) : option string :=
  match gk_object_type key with
  | ObjectType.Schema => gk_name key
  | ObjectType.Database => None
  | _ => gk_schema key
  end.

(** [is_some_and(|x| set.contains(x))] *)
Definition is_some_in {A} `{Countable A} (x : option A) (X : gset A) : bool :=
  match x with Some x => bool_decide (x ∈ X) | None => false end.

Definition allows_grant_change (self : ManagedChangeSurface) (key : GrantKey) : bool :=
  if bool_decide (key ∈ mcs_explicit_grants self) then true
  else if is_binding_schema_object (gk_object_type key) &&
          is_some_in (grant_schema_name key) (mcs_binding_schemas self) then true
  else bool_decide (gk_object_type key = ObjectType.Database) &&
       match gk_role key with
       | Grantee.Role role => bool_decide (role ∈ mcs_roles self)
       | Grantee.Public => false
       end.

Definition allows_default_privilege_change (self : ManagedChangeSurface) (key : DefaultPrivKey) : bool :=
  if bool_decide (key ∈ mcs_explicit_default_privileges self) then true
  else
    match dk_scope key with
    | DefaultPrivilegeScope.Schema schema => bool_decide (schema ∈ mcs_binding_schemas self)
    | DefaultPrivilegeScope.Global => bool_decide (dk_owner key ∈ mcs_roles self)
    end.

Definition allows_membership_change (self : ManagedChangeSurface) (role member : string) : bool :=
  bool_decide (role ∈ mcs_roles self) ||
  bool_decide ({| mk_role := role; mk_member := member |} ∈ mcs_explicit_memberships self).

Definition is_empty (s : string) : bool := String.eqb s "".

Definition allows_change (self : ManagedChangeSurface) (change : Change) : bool :=
  match change with
  | Change.CreateRole name _ | Change.AlterRole name _ | Change.SetComment name _
  | Change.SetPassword name _ | Change.DropRole name => bool_decide (name ∈ mcs_roles self)
  | Change.TerminateSessions role | Change.DropOwned role => bool_decide (role ∈ mcs_roles self)
  | Change.ReassignOwned from_role to_role =>
      bool_decide (from_role ∈ mcs_roles self) && negb (is_empty to_role)
  | Change.CreateSchema name _ =>
      bool_decide (name ∈ mcs_owner_schemas self) || bool_decide (name ∈ mcs_binding_schemas self)
  | Change.AlterSchemaOwner name owner | Change.EnsureSchemaOwnerPrivileges name owner _ =>
      bool_decide (name ∈ mcs_owner_schemas self) && negb (is_empty owner)
  | Change.Grant role _ object_type schema name | Change.Revoke role _ object_type schema name _ =>
      allows_grant_change self
        {| gk_role := role; gk_object_type := object_type; gk_schema := schema; gk_name := name |}
  | Change.SetDefaultPrivilege owner scope on_type grantee _
  | Change.RevokeDefaultPrivilege owner scope on_type grantee _ =>
      allows_default_privilege_change self
        {| dk_owner := owner; dk_scope := scope; dk_on_type := on_type; dk_grantee := grantee |}
  | Change.AddMember role member _ _ | Change.UpdateMemberOptions role member _ _ _ _
  | Change.RemoveMember role member _ => allows_membership_change self role member
  end.

(** Name a grantee in prose. *)
Definition describe_grantee (grantee : Grantee) : string :=
  match grantee with
  | Grantee.Public => "PUBLIC"
  | Grantee.Role name => "role " +:+ dq name
  end.

Definition target_text (schema name : option string) : string :=
  match schema, name with
  | Some schema, Some name => schema +:+ "." +:+ name
  | Some schema, None => schema
  | None, Some name => name
  | None, None => "<unnamed>"
  end.

Definition format_grant_action (action : string) (role : Grantee) (object_type : ObjectType)
    (schema name : option string) : string :=
  action +:+ " for " +:+ describe_grantee role +:+ " on " +:+ object_type_to_string object_type +:+
  " " +:+ dq (target_text schema name).

Definition describe_change (change : Change) : string :=
  match change with
  | Change.CreateRole name _ => "create role " +:+ dq name
  | Change.AlterRole name _ => "alter role " +:+ dq name
  | Change.SetComment name _ => "set comment on role " +:+ dq name
  | Change.SetPassword name _ => "set password for role " +:+ dq name
  | Change.DropRole name => "drop role " +:+ dq name
  | Change.CreateSchema name _ => "create schema " +:+ dq name
  | Change.AlterSchemaOwner name owner => "alter schema " +:+ dq name +:+ " owner to " +:+ dq owner
  | Change.EnsureSchemaOwnerPrivileges name owner _ =>
      "ensure owner privileges on schema " +:+ dq name +:+ " for " +:+ dq owner
  | Change.Grant role _ object_type schema name =>
      format_grant_action "grant" role object_type schema name
  | Change.Revoke role _ object_type schema name _ =>
      format_grant_action "revoke" role object_type schema name
  | Change.SetDefaultPrivilege owner scope on_type grantee _ =>
      "set default privilege for owner " +:+ dq owner +:+ " " +:+ scope_to_string scope +:+ " on " +:+
      object_type_to_string on_type +:+ " to " +:+ describe_grantee grantee
  | Change.RevokeDefaultPrivilege owner scope on_type grantee _ =>
      "revoke default privilege for owner " +:+ dq owner +:+ " " +:+ scope_to_string scope +:+ " on " +:+
      object_type_to_string on_type +:+ " from " +:+ describe_grantee grantee
  | Change.AddMember role member _ _ => "add membership " +:+ dq role +:+ " -> " +:+ dq member
  | Change.UpdateMemberOptions role member _ _ _ _ =>
      "update membership options " +:+ dq role +:+ " -> " +:+ dq member
  | Change.RemoveMember role member _ => "remove membership " +:+ dq role +:+ " -> " +:+ dq member
  | Change.TerminateSessions role => "terminate sessions for role " +:+ dq role
  | Change.ReassignOwned from_role to_role =>
      "reassign owned from " +:+ dq from_role +:+ " to " +:+ dq to_role
  | Change.DropOwned role => "drop owned by role " +:+ dq role
  end.

Module ManagedChangeError.
Inductive ManagedChangeError : Set := OutOfScope (change : string).
End ManagedChangeError.
Abbreviation ManagedChangeError := ManagedChangeError.ManagedChangeError.

Definition validate_changes_against_managed_surface (changes : list Change)
    (surface : ManagedChangeSurface) : res ManagedChangeError unit :=
  for_each (λ change,
    throw_if (negb (allows_change surface change))
      (ManagedChangeError.OutOfScope (describe_change change))) changes.

(** ** The derived scope *)

Lemma elem_of_map_keys_set {K V} `{Countable K, Ord K} (m : gmap K V) k :
  k ∈@{gset K} list_to_set (map_keys m) ↔ is_Some (m !! k).
Proof. by rw elem_of_list_to_set elem_of_map_keys. Qed.

Lemma elem_of_facet_schemas facet keys s :
  s ∈ facet_schemas facet keys ↔ {| sfk_schema := s; sfk_facet := facet |} ∈@{list SchemaFacetKey} keys.
Proof.
  unfold facet_schemas. assert (∀ X, s ∈ foldl (λ X key, if decide (sfk_facet key = facet)
    then {[sfk_schema key]} ∪ X else X) (X : gset string) keys ↔ s ∈ X ∨ {| sfk_schema := s; sfk_facet := facet |} ∈@{list SchemaFacetKey} keys) as Hgen.
  { induction keys as [|[s' f'] keys IH]; intros X; simpl.
    - rw elem_of_nil. tauto.
    - rw IH elem_of_cons. case_decide as Hf; [rw elem_of_union elem_of_singleton|]; naive_solver. }
  rw Hgen. set_solver.
Qed.

(** [managed_scope] and [managed_change_surface] agree on the facets. *)
Lemma scope_facets_agree self s :
  let scope := default {| mss_owner := false; mss_bindings := false |} (mgs_schemas (managed_scope self) !! s) in
  (mss_owner scope ↔ s ∈ mcs_owner_schemas (managed_change_surface self)) ∧
  (mss_bindings scope ↔ s ∈ mcs_binding_schemas (managed_change_surface self)).
Proof.
  cbn [managed_scope mgs_schemas managed_change_surface mcs_owner_schemas mcs_binding_schemas].
  rw !elem_of_facet_schemas. generalize (map_keys (oi_schema_facets self)) as keys. intros keys.
  induction keys as [|[s' f] keys IH] using rev_ind.
  - rw !elem_of_nil. cbn. rw lookup_empty. cbn. naive_solver.
  - rw foldl_app !elem_of_app !list_elem_of_singleton. cbn [foldl].
    generalize dependent (foldl scope_facet ∅ keys). intros m IH. unfold scope_facet; cbn [sfk_schema sfk_facet].
    destruct (decide (s' = s)) as [->|Hne].
    + assert (∀ f f' : SchemaBindingFacet, {| sfk_schema := s; sfk_facet := f |} = {| sfk_schema := s; sfk_facet := f' |} ↔ f = f')
        as Hf by (intros; split; congruence).
      rw lookup_insert_eq !Hf. destruct (m !! s) as [sc|], f;
        cbn in *; destruct IH as [IH1 IH2]; split; rw -?IH1 -?IH2; intuition congruence.
    + rw lookup_insert_ne //. destruct IH as [-> ->].
      split; (split; [by left|intros [?|[= -> _]]; done]).
Qed.

(** ** What a validated plan leaves alone *)

Lemma validated_spec changes surface u :
  validate_changes_against_managed_surface changes surface = Ok u ↔
  ∀ c, c ∈ changes → allows_change surface c = true.
Proof.
  unfold validate_changes_against_managed_surface. rw for_each_Ok.
  split; intros H c Hc; specialize (H c Hc).
  - apply throw_if_Ok in H. by destruct (allows_change surface c).
  - apply throw_if_Ok. by rw H.
Qed.

Definition wildcard_of (key : GrantKey) : GrantKey := {|
  gk_role := gk_role key; gk_object_type := gk_object_type key;
  gk_schema := gk_schema key; gk_name := Some "*" |}.

(** The grant entries a plan over the surface may change: those it names, those a
    wildcard it names reaches, and the entry of the new owner of a schema. *)
Definition covers_grant (s : ManagedChangeSurface) (key : GrantKey) : Prop :=
  allows_grant_change s key ∨ allows_grant_change s (wildcard_of key) ∨
  ∃ name owner, name ∈ mcs_owner_schemas s ∧ key = owner_key name owner.

Record same_outside (s : ManagedChangeSurface) (g g' : RoleGraph) : Prop := {
  so_roles : ∀ name, name ∉ mcs_roles s → roles g' !! name = roles g !! name;
  so_schemas : ∀ name, name ∉ mcs_owner_schemas s → name ∉ mcs_binding_schemas s →
    schemas g' !! name = schemas g !! name;
  so_grants : ∀ key, ¬ covers_grant s key → grants g' !! key = grants g !! key;
  so_defaults : ∀ key, allows_default_privilege_change s key = false →
    default_privileges g' !! key = default_privileges g !! key;
  so_memberships : ∀ e, allows_membership_change s (me_role e) (me_member e) = false →
    (e ∈ memberships g' ↔ e ∈ memberships g);
}.

#[export] Instance same_outside_preorder s : PreOrder (same_outside s).
Proof.
  split; [by intros g|]. intros g1 g2 g3 [R S G D M] [R' S' G' D' M'].
  split; intros; [rw R' // R|rw S' // S|rw G' // G|rw D' // D|rw M' // M]; done.
Qed.

Lemma revoke_entry_other {K} `{Countable K} ps (m : gmap K (gset Privilege)) k k' :
  k ≠ k' → revoke_entry ps m k !! k' = m !! k'.
Proof.
  intros Hk. unfold revoke_entry. destruct (m !! k); [|done].
  case_bool_decide; [by rw lookup_delete_ne|by rw lookup_insert_ne].
Qed.

Lemma revoke_entries_other ps ks (m : gmap GrantKey (gset Privilege)) k :
  k ∉ ks → foldl (revoke_entry ps) m ks !! k = m !! k.
Proof.
  revert m. induction ks as [|k' ks IH]; intros m Hk; [done|]. simpl.
  rw IH; [apply revoke_entry_other|]; set_solver.
Qed.

(** A revoke reaches its own key, or the keys whose wildcard it is. *)
Lemma elem_of_affected gs key k :
  k ∈ affected gs key → k = key ∨ key = wildcard_of k.
Proof.
  unfold affected. destruct (is_wildcard key) eqn:Hw; [|intros ->%list_elem_of_singleton; by left].
  intros [Hin _]%list_elem_of_filter. right. unfold in_scope in Hin.
  apply andb_True in Hin as [[H1 H2]%andb_True H3].
  apply bool_decide_unpack in H1, H2, H3. apply bool_decide_eq_true in Hw.
  destruct key; unfold wildcard_of; simpl in *. congruence.
Qed.

Lemma same_outside_refl s g : same_outside s g g.
Proof. reflexivity. Qed.

Lemma not_covered_ne s key k : ¬ covers_grant s k → allows_grant_change s key → key ≠ k.
Proof. intros Hk Ha ->. apply Hk. by left. Qed.

Lemma not_allowed_edge s e role member :
  allows_membership_change s (me_role e) (me_member e) = false →
  allows_membership_change s role member = true → ¬ (me_role e = role ∧ me_member e = member).
Proof. intros Hn Ha [<- <-]. congruence. Qed.

Lemma change_stays_outside s g g' c :
  allows_change s c = true → apply_change g c = Some g' → same_outside s g g'.
Proof.
  intros Ha Hc. destruct c; cbn [apply_change] in Hc; try discriminate; cbn [allows_change] in Ha;
    repeat match goal with
    | H : bool_decide _ = true |- _ => apply bool_decide_eq_true in H
    | H : _ && _ = true |- _ => apply andb_true_iff in H as [? ?]
    | H : _ || _ = true |- _ => apply orb_true_iff in H
    | H : (_ ≫= _) = Some _ |- _ => apply bind_Some in H as (? & ? & H)
    end; injection Hc as <-;
    split; try done; intros k; cbn; try intros Hk; try (by rw lookup_insert_ne; [|set_solver]).
  - intros Hk'. rw lookup_insert_ne //. intros ->. destruct Ha as [?%bool_decide_eq_true|?%bool_decide_eq_true]; done.
  - rw lookup_delete_ne //. intros <-. apply Hk. right. right. eauto.
  - unfold entry_extend. rw lookup_insert_ne //. apply (not_covered_ne s); [done|]. by rw Ha.
  - apply revoke_entries_other. intros [->|Hw]%elem_of_affected; apply Hk.
    + left. by rw Ha.
    + right. left. by rw -Hw Ha.
  - unfold entry_extend. rw lookup_insert_ne //. intros <-. by rw Ha in Hk.
  - apply revoke_entry_other. intros <-. by rw Ha in Hk.
  - unfold retain_others. rw elem_of_union elem_of_filter elem_of_singleton.
    pose proof (not_allowed_edge _ _ _ _ Hk Ha).
    split; [by intros [[_ ?]| ->]; [done|cbn in *; tauto]|tauto].
  - unfold retain_others. rw elem_of_filter.
    pose proof (not_allowed_edge _ _ _ _ Hk Ha).
    tauto.
  - rw lookup_delete_ne //. set_solver.
Qed.

(** C27: the change surface is an authority. When a plan passes
    [validate_changes_against_managed_surface] and executes, every role, schema, grant
    entry, default-privilege entry and membership that the surface does not cover is the
    same before and after. *)
Theorem validated_plan_stays_in_surface (surface : ManagedChangeSurface) (changes : list Change)
    (g g' : RoleGraph) :
  validate_changes_against_managed_surface changes surface = Ok tt →
  apply_changes g changes = Some g' →
  same_outside surface g g'.
Proof.
  rw validated_spec. revert g. induction changes as [|c changes IH]; intros g Hall Hrun.
  - injection Hrun as <-. reflexivity.
  - apply bind_Some in Hrun as (g1 & Hc & Hrun). transitivity g1.
    + eapply change_stays_outside; [apply Hall; left|done].
    + apply IH; [|done]. intros d Hd. apply Hall. by right.
Qed.
