(* ===== verification/Composition.v ===== *)
(** * Policy composition ([composition.rs])

    A bundle is composed from policy documents: each document is checked against the
    scope it declares, expanded on its own, registered in the ownership index, and merged
    into one manifest, which is expanded again. *)

From S2P Require Import Prelude BTree RustStr Types Manifest Model Guc Change Diff.
From S2P Require Import DiffFacts DiffSafety Interp Converge Ownership.

(** ** Documents *)

Record SharedPolicy := {
  sp_role_pattern : option string;
  sp_default_owner : option string;
  sp_auth_providers : list AuthProvider;
  sp_profiles : gmap string Profile;
}.

Record BundleSource := { bs_file : string }.

Record PolicyBundle := {
  pb_shared : SharedPolicy;
  pb_sources : list BundleSource;
}.

Record FragmentMetadata := { fm_name : option string }.

Record ScopedSchema := {
  scs_name : string;
  scs_facets : list SchemaBindingFacet;
}.

Record FragmentScope := {
  fs_roles : list string;
  fs_schemas : list ScopedSchema;
}.

Record PolicyFragment := {
  pf_role_pattern : option string;
  pf_policy : FragmentMetadata;
  pf_scope : FragmentScope;
  pf_schemas : list SchemaBinding;
  pf_roles : list RoleDefinition;
  pf_grants : list Grant;
  pf_default_privileges : list DefaultPrivilege;
  pf_memberships : list Membership;
  pf_retirements : list RoleRetirement;
}.

Record PolicyDocument := {
  pd_source : string;
  pd_fragment : PolicyFragment;
}.

(** [PolicyDocument::label] *)
Definition label (self : PolicyDocument) : string :=
  default (pd_source self) (fm_name (pf_policy (pd_fragment self))).

Record ComposedPolicy := {
  cp_manifest : PolicyManifest;
  cp_expanded : ExpandedManifest;
  cp_desired : RoleGraph;
  cp_ownership : OwnershipIndex;
  cp_managed_scope : ManagedScope;
  cp_managed_change_surface : ManagedChangeSurface;
}.

Module CompositionError.
Inductive CompositionError : Set :=
  | Yaml (message : string)
  | MissingSources
  | RoleOutOfScope (document role : string)
  | SchemaOwnerOutOfScope (document schema : string)
  | SchemaBindingsOutOfScope (document schema : string)
  | GlobalDefaultPrivilegeOutOfScope (document owner : string)
  | DuplicateManagedRole (role first second : string)
  | DuplicateManagedSchemaFacet (schema facet first second : string)
  | DuplicateManagedGrant (target first second : string)
  | DuplicateManagedDefaultPrivilege (target first second : string)
  | DuplicateManagedMembership (role member first second : string)
  | ExclusiveMembershipSplit (role first second : string)
  | InvalidDocument (document : string) (error : ManifestError)
  | InvalidComposedManifest (error : ManifestError).
End CompositionError.
Abbreviation CompositionError := CompositionError.CompositionError.

(** ** Scope *)

(** The loop body of [schema_scope_map]: [entry(name).or_insert_with(new)], then one
    insertion per facet. *)
Definition scope_entry (m : gmap string (gset SchemaBindingFacet)) (schema : ScopedSchema) :
    gmap string (gset SchemaBindingFacet) :=
  entry_extend (scs_name schema) (list_to_set (scs_facets schema)) m.

Definition schema_scope_map (scope : FragmentScope) : gmap string (gset SchemaBindingFacet) :=
  foldl scope_entry ∅ (fs_schemas scope).

Definition has_schema_facet (scope : gmap string (gset SchemaBindingFacet)) (schema : string)
    (facet : SchemaBindingFacet) : bool :=
  match scope !! schema with Some facets => bool_decide (facet ∈ facets) | None => false end.

Definition schema_name_for_grant (grant : Grant) : option string :=
  match ot_object_type (gr_object grant) with
  | ObjectType.Database => None
  | ObjectType.Schema => ot_name (gr_object grant)
  | _ => ot_schema (gr_object grant)
  end.

Definition is_some {A} (x : option A) : bool := match x with Some _ => true | None => false end.

Definition manages_bindings (schema : SchemaBinding) : bool :=
  negb (bool_decide (sb_profiles schema = [])) || is_some (sb_role_pattern schema).

Definition manages_owner (bundle : PolicyBundle) (schema : SchemaBinding) : bool :=
  is_some (sb_owner schema) || is_some (sp_default_owner (pb_shared bundle)).

(** The five loops of [validate_document_scope]. *)
Definition check_role_scope (owned_roles : gset string) (document_name role : string) :
    res CompositionError unit :=
  throw_if (negb (bool_decide (role ∈ owned_roles))) (CompositionError.RoleOutOfScope document_name role).

Definition check_schema_scope (bundle : PolicyBundle)
    (schema_scope : gmap string (gset SchemaBindingFacet)) (document_name : string)
    (schema : SchemaBinding) : res CompositionError unit :=
  _ ← throw_if (manages_bindings schema &&
                negb (has_schema_facet schema_scope (sb_name schema) SchemaBindingFacet.Bindings))
        (CompositionError.SchemaBindingsOutOfScope document_name (sb_name schema));
  throw_if (manages_owner bundle schema &&
            negb (has_schema_facet schema_scope (sb_name schema) SchemaBindingFacet.Owner))
    (CompositionError.SchemaOwnerOutOfScope document_name (sb_name schema)).

Definition check_grant_scope (schema_scope : gmap string (gset SchemaBindingFacet))
    (document_name : string) (grant : Grant) : res CompositionError unit :=
  match schema_name_for_grant grant with
  | Some schema =>
      throw_if (negb (has_schema_facet schema_scope schema SchemaBindingFacet.Bindings))
        (CompositionError.SchemaBindingsOutOfScope document_name schema)
  | None => Ok tt
  end.

Definition check_default_scope (bundle : PolicyBundle) (owned_roles : gset string)
    (schema_scope : gmap string (gset SchemaBindingFacet)) (document_name : string)
    (default_privilege : DefaultPrivilege) : res CompositionError unit :=
  scope ← res_map_err (CompositionError.InvalidDocument document_name) (resolved_scope default_privilege);
  match scope with
  | DefaultPrivilegeScope.Schema schema =>
      throw_if (negb (has_schema_facet schema_scope schema SchemaBindingFacet.Bindings))
        (CompositionError.SchemaBindingsOutOfScope document_name schema)
  | DefaultPrivilegeScope.Global =>
      let owner := default_owner_of default_privilege (sp_default_owner (pb_shared bundle)) in
      throw_if (negb (bool_decide (owner ∈ owned_roles)))
        (CompositionError.GlobalDefaultPrivilegeOutOfScope document_name owner)
  end.

Definition validate_document_scope (bundle : PolicyBundle) (document : PolicyDocument) :
    res CompositionError unit :=
  let fragment := pd_fragment document in
  let owned_roles : gset string := list_to_set (fs_roles (pf_scope fragment)) in
  let schema_scope := schema_scope_map (pf_scope fragment) in
  let document_name := label document in
  _ ← for_each (λ role, check_role_scope owned_roles document_name (rd_name role)) (pf_roles fragment);
  _ ← for_each (λ retirement, check_role_scope owned_roles document_name (rr_role retirement))
        (pf_retirements fragment);
  _ ← for_each (check_schema_scope bundle schema_scope document_name) (pf_schemas fragment);
  _ ← for_each (check_grant_scope schema_scope document_name) (pf_grants fragment);
  for_each (check_default_scope bundle owned_roles schema_scope document_name)
    (pf_default_privileges fragment).

(** ** Registration *)

(** [if let Some(existing) = map.insert(key, owner) { return Err(..) }] *)
Definition register {K} `{Countable K} (key : K) (owner : string) (error : string → CompositionError)
    (m : gmap K string) : res CompositionError (gmap K string) :=
  match m !! key with
  | Some existing => Err (error existing)
  | None => Ok (<[key := owner]> m)
  end.

Definition register_role_owner (owner : string) (o : OwnershipIndex) (role : string) :
    res CompositionError OwnershipIndex :=
  rs ← register role owner (λ existing, CompositionError.DuplicateManagedRole role existing owner)
         (oi_roles o);
  Ok {| oi_roles := rs; oi_schema_facets := oi_schema_facets o; oi_grants := oi_grants o;
        oi_default_privileges := oi_default_privileges o; oi_memberships := oi_memberships o;
        oi_membership_stanzas := oi_membership_stanzas o |}.

Definition register_schema_facet_owner (owner : string) (o : OwnershipIndex) (key : SchemaFacetKey) :
    res CompositionError OwnershipIndex :=
  fs ← register key owner
         (λ existing, CompositionError.DuplicateManagedSchemaFacet (sfk_schema key)
                        (facet_to_string (sfk_facet key)) existing owner)
         (oi_schema_facets o);
  Ok {| oi_roles := oi_roles o; oi_schema_facets := fs; oi_grants := oi_grants o;
        oi_default_privileges := oi_default_privileges o; oi_memberships := oi_memberships o;
        oi_membership_stanzas := oi_membership_stanzas o |}.

Definition format_grant_key (key : GrantKey) : string :=
  "for role " +:+ dq (grantee_as_str (gk_role key)) +:+ " on " +:+
  object_type_to_string (gk_object_type key) +:+ " " +:+
  dq (target_text (gk_schema key) (gk_name key)).

Definition format_default_privilege_key (key : DefaultPrivKey) : string :=
  "owner " +:+ dq (dk_owner key) +:+ " " +:+ scope_to_string (dk_scope key) +:+ " on " +:+
  object_type_to_string (dk_on_type key) +:+ " to " +:+ dq (grantee_as_str (dk_grantee key)).

Definition register_grant_owner (owner : string) (o : OwnershipIndex) (key : GrantKey) :
    res CompositionError OwnershipIndex :=
  gs ← register key owner
         (λ existing, CompositionError.DuplicateManagedGrant (format_grant_key key) existing owner)
         (oi_grants o);
  Ok {| oi_roles := oi_roles o; oi_schema_facets := oi_schema_facets o; oi_grants := gs;
        oi_default_privileges := oi_default_privileges o; oi_memberships := oi_memberships o;
        oi_membership_stanzas := oi_membership_stanzas o |}.

Definition register_default_privilege_owner (owner : string) (o : OwnershipIndex)
    (key : DefaultPrivKey) : res CompositionError OwnershipIndex :=
  ds ← register key owner
         (λ existing, CompositionError.DuplicateManagedDefaultPrivilege
                        (format_default_privilege_key key) existing owner)
         (oi_default_privileges o);
  Ok {| oi_roles := oi_roles o; oi_schema_facets := oi_schema_facets o; oi_grants := oi_grants o;
        oi_default_privileges := ds; oi_memberships := oi_memberships o;
        oi_membership_stanzas := oi_membership_stanzas o |}.

Definition register_membership_owner (owner : string) (o : OwnershipIndex) (key : MembershipKey) :
    res CompositionError OwnershipIndex :=
  ms ← register key owner
         (λ existing, CompositionError.DuplicateManagedMembership (mk_role key) (mk_member key)
                        existing owner)
         (oi_memberships o);
  Ok {| oi_roles := oi_roles o; oi_schema_facets := oi_schema_facets o; oi_grants := oi_grants o;
        oi_default_privileges := oi_default_privileges o; oi_memberships := ms;
        oi_membership_stanzas := oi_membership_stanzas o |}.

(** The last loop: an exclusive member list has one document. *)
Definition register_stanza (owner : string) (o : OwnershipIndex) (membership : Membership) :
    res CompositionError OwnershipIndex :=
  let set entry := {|
    oi_roles := oi_roles o; oi_schema_facets := oi_schema_facets o; oi_grants := oi_grants o;
    oi_default_privileges := oi_default_privileges o; oi_memberships := oi_memberships o;
    oi_membership_stanzas := <[mb_role membership := entry]> (oi_membership_stanzas o) |} in
  match oi_membership_stanzas o !! mb_role membership with
  | None => Ok (set (owner, mb_exclusive membership))
  | Some (first, any_exclusive) =>
      _ ← throw_if (negb (String.eqb first owner) && (any_exclusive || mb_exclusive membership))
            (CompositionError.ExclusiveMembershipSplit (mb_role membership) first owner);
      Ok (set (first, any_exclusive || mb_exclusive membership))
  end.

Definition membership_key_of (e : MembershipEdge) : MembershipKey := {|
  mk_role := me_role e; mk_member := me_member e |}.

(** The facets a scope declares, in the order of the two loops. *)
Definition declared_facets (scope : FragmentScope) : list SchemaFacetKey :=
  fs_schemas scope ≫= λ schema,
    (λ facet, {| sfk_schema := scs_name schema; sfk_facet := facet |}) <$> scs_facets schema.

Definition register_document_ownership (ownership : OwnershipIndex) (document : PolicyDocument)
    (expanded : ExpandedManifest) (desired : RoleGraph) : res CompositionError OwnershipIndex :=
  let owner := label document in
  let fragment := pd_fragment document in
  o ← fold_res (register_role_owner owner) ownership (rd_name <$> em_roles expanded);
  o ← fold_res (register_role_owner owner) o (rr_role <$> pf_retirements fragment);
  o ← fold_res (register_schema_facet_owner owner) o (declared_facets (pf_scope fragment));
  o ← fold_res (register_grant_owner owner) o
        (set_iter (dom (grants desired) ∪ dom (grant_absences desired)));
  o ← fold_res (register_default_privilege_owner owner) o
        (set_iter (dom (default_privileges desired) ∪ dom (default_privilege_absences desired)));
  o ← fold_res (register_membership_owner owner) o (membership_key_of <$> set_iter (memberships desired));
  fold_res (register_stanza owner) o (pf_memberships fragment).

(** ** Merging *)

Definition document_manifest (bundle : PolicyBundle) (fragment : PolicyFragment) : PolicyManifest := {|
  pm_role_pattern := match pf_role_pattern fragment with
                     | Some p => Some p
                     | None => sp_role_pattern (pb_shared bundle)
                     end;
  pm_default_owner := sp_default_owner (pb_shared bundle);
  pm_auth_providers := sp_auth_providers (pb_shared bundle);
  pm_profiles := sp_profiles (pb_shared bundle);
  pm_schemas := pf_schemas fragment;
  pm_roles := pf_roles fragment;
  pm_grants := pf_grants fragment;
  pm_default_privileges := pf_default_privileges fragment;
  pm_memberships := pf_memberships fragment;
  pm_retirements := pf_retirements fragment |}.

(** The loop body of [merge_document_manifest] over schemas. *)
Definition merge_schema (fragment : PolicyFragment) (merged : gmap string SchemaBinding)
    (schema : SchemaBinding) : gmap string SchemaBinding :=
  let entry := default {| sb_name := sb_name schema; sb_profiles := []; sb_role_pattern := None;
                          sb_owner := None |} (merged !! sb_name schema) in
  let declares := negb (bool_decide (sb_profiles schema = [])) in
  <[sb_name schema := {|
      sb_name := sb_name entry;
      sb_profiles := if declares then sb_profiles schema else sb_profiles entry;
      sb_role_pattern :=
        if declares || is_some (sb_role_pattern schema)
        then match sb_role_pattern schema with
             | Some p => Some p
             | None => pf_role_pattern fragment
             end
        else sb_role_pattern entry;
      sb_owner := match sb_owner schema with Some o => Some o | None => sb_owner entry end |}]> merged.

Definition merge_document_manifest (manifest : PolicyManifest) (merged : gmap string SchemaBinding)
    (fragment : PolicyFragment) : PolicyManifest * gmap string SchemaBinding :=
  ({| pm_role_pattern := pm_role_pattern manifest;
      pm_default_owner := pm_default_owner manifest;
      pm_auth_providers := pm_auth_providers manifest;
      pm_profiles := pm_profiles manifest;
      pm_schemas := pm_schemas manifest;
      pm_roles := pm_roles manifest ++ pf_roles fragment;
      pm_grants := pm_grants manifest ++ pf_grants fragment;
      pm_default_privileges := pm_default_privileges manifest ++ pf_default_privileges fragment;
      pm_memberships := pm_memberships manifest ++ pf_memberships fragment;
      pm_retirements := pm_retirements manifest ++ pf_retirements fragment |},
   foldl (merge_schema fragment) merged (pf_schemas fragment)).

(** The three variables of the document loop. *)
Record Composing := {
  cg_ownership : OwnershipIndex;
  cg_manifest : PolicyManifest;
  cg_merged : gmap string SchemaBinding;
}.

(** The manifest the loop starts from. *)
Definition shared_manifest (bundle : PolicyBundle) : PolicyManifest := {|
  pm_role_pattern := sp_role_pattern (pb_shared bundle);
  pm_default_owner := sp_default_owner (pb_shared bundle);
  pm_auth_providers := sp_auth_providers (pb_shared bundle);
  pm_profiles := sp_profiles (pb_shared bundle);
  pm_schemas := []; pm_roles := []; pm_grants := []; pm_default_privileges := [];
  pm_memberships := []; pm_retirements := [] |}.

Definition compose_document (bundle : PolicyBundle) (s : Composing) (document : PolicyDocument) :
    res CompositionError Composing :=
  _ ← validate_document_scope bundle document;
  let document_manifest := document_manifest bundle (pd_fragment document) in
  expanded ← res_map_err (CompositionError.InvalidDocument (label document))
               (expand_manifest document_manifest);
  desired ← res_map_err (CompositionError.InvalidDocument (label document))
              (from_expanded expanded (pm_default_owner document_manifest));
  ownership ← register_document_ownership (cg_ownership s) document expanded desired;
  let merged := merge_document_manifest (cg_manifest s) (cg_merged s) (pd_fragment document) in
  Ok {| cg_ownership := ownership; cg_manifest := merged.1; cg_merged := merged.2 |}.

(** [manifest.schemas = schemas] *)
Definition with_manifest_schemas (m : PolicyManifest) (schemas : list SchemaBinding) : PolicyManifest := {|
  pm_role_pattern := pm_role_pattern m; pm_default_owner := pm_default_owner m;
  pm_auth_providers := pm_auth_providers m; pm_profiles := pm_profiles m; pm_schemas := schemas;
  pm_roles := pm_roles m; pm_grants := pm_grants m; pm_default_privileges := pm_default_privileges m;
  pm_memberships := pm_memberships m; pm_retirements := pm_retirements m |}.

Definition compose_bundle (bundle : PolicyBundle) (documents : list PolicyDocument) :
    res CompositionError ComposedPolicy :=
  _ ← throw_if (bool_decide (pb_sources bundle = []) || bool_decide (documents = []))
        CompositionError.MissingSources;
  s ← fold_res (compose_document bundle)
        {| cg_ownership := ownership_default; cg_manifest := shared_manifest bundle; cg_merged := ∅ |}
        documents;
  let manifest := with_manifest_schemas (cg_manifest s) (map_iter (cg_merged s)).*2 in
  expanded ← res_map_err CompositionError.InvalidComposedManifest (expand_manifest manifest);
  desired ← res_map_err CompositionError.InvalidComposedManifest
              (from_expanded expanded (pm_default_owner manifest));
  Ok {| cp_manifest := manifest; cp_expanded := expanded; cp_desired := desired;
        cp_ownership := cg_ownership s;
        cp_managed_scope := managed_scope (cg_ownership s);
        cp_managed_change_surface := managed_change_surface (cg_ownership s) |}.
