(* ===== verification/CompositionFacts.v ===== *)
(** * Composition partitions the policy

    Every entry of a composed policy is declared by exactly one document, the ownership
    index names it, and the composed graph is the disjoint union of the graphs of the
    documents. *)

From S2P Require Import Prelude BTree RustStr Types Manifest ManifestFacts Model Guc Change Diff.
From S2P Require Import DiffFacts DiffSafety Interp Converge Desired Ownership Composition.

(** ** One document of a bundle *)

Record Part := {
  pt_document : PolicyDocument;
  pt_expanded : ExpandedManifest;
  pt_desired : RoleGraph;
}.

Abbreviation pt_label pt := (label (pt_document pt)).
Abbreviation pt_fragment pt := (pd_fragment (pt_document pt)).

(** The part passes its own checks. *)
Record part_ok (bundle : PolicyBundle) (pt : Part) : Prop := {
  po_scope : validate_document_scope bundle (pt_document pt) = Ok tt;
  po_expanded : expand_manifest (document_manifest bundle (pt_fragment pt)) = Ok (pt_expanded pt);
  po_desired : from_expanded (pt_expanded pt) (sp_default_owner (pb_shared bundle)) = Ok (pt_desired pt);
}.

(** What a part registers. *)
Definition part_roles (pt : Part) : list string :=
  (rd_name <$> em_roles (pt_expanded pt)) ++ (rr_role <$> pf_retirements (pt_fragment pt)).
Definition part_facets (pt : Part) : list SchemaFacetKey := declared_facets (pf_scope (pt_fragment pt)).
Definition part_grants (pt : Part) : list GrantKey :=
  set_iter (dom (grants (pt_desired pt)) ∪ dom (grant_absences (pt_desired pt))).
Definition part_defaults (pt : Part) : list DefaultPrivKey :=
  set_iter (dom (default_privileges (pt_desired pt)) ∪ dom (default_privilege_absences (pt_desired pt))).
Definition part_memberships (pt : Part) : list MembershipKey :=
  membership_key_of <$> set_iter (memberships (pt_desired pt)).

(** ** Registration *)

Section registers.
Context {K : Type} `{Countable K}.

Definition registers (owner : string) (m : gmap K string) (keys : list K) : gmap K string :=
  foldl (λ m k, <[k := owner]> m) m keys.

Lemma registers_lookup owner m keys k :
  registers owner m keys !! k = if decide (k ∈ keys) then Some owner else m !! k.
Proof.
  unfold registers. revert m. induction keys as [|k' keys IH]; intros m; cbn [foldl].
  - case_decide as Hk; [by apply not_elem_of_nil in Hk|done].
  - rw IH. destruct (decide (k = k')) as [->|Hne]; [rw lookup_insert_eq|rw lookup_insert_ne //];
      repeat case_decide; rewrite ->?elem_of_cons in *; naive_solver.
Qed.

(** The index of the keys [f] of a list of parts. *)
Definition owned_by (f : Part → list K) (parts : list Part) : gmap K string :=
  foldl (λ m pt, registers (pt_label pt) m (f pt)) ∅ parts.

Lemma owned_by_snoc f parts pt :
  owned_by f (parts ++ [pt]) = registers (pt_label pt) (owned_by f parts) (f pt).
Proof. unfold owned_by. by rw foldl_app. Qed.

Lemma owned_by_keys f parts k : is_Some (owned_by f parts !! k) ↔ k ∈ parts ≫= f.
Proof.
  induction parts as [|pt parts IH] using rev_ind.
  - cbn. rw lookup_empty. split; [by intros []|by intros ?%not_elem_of_nil].
  - rw owned_by_snoc registers_lookup bind_app elem_of_app -IH. cbn. rw app_nil_r.
    case_decide; split; [by right|by eauto|by left|intros [?|?]; done].
Qed.

Lemma owned_by_lookup f parts k l :
  NoDup (parts ≫= f) →
  owned_by f parts !! k = Some l ↔ ∃ pt, pt ∈ parts ∧ k ∈ f pt ∧ pt_label pt = l.
Proof.
  induction parts as [|pt parts IH] using rev_ind; intros HN.
  - cbn. rw lookup_empty. split; [done|]. intros (pt & Hpt & _). by apply not_elem_of_nil in Hpt.
  - rw bind_app in HN. cbn in HN. rw app_nil_r in HN. apply NoDup_app in HN as (HN & Hdis & _).
    rw owned_by_snoc registers_lookup. setoid_rewrite elem_of_app. setoid_rewrite list_elem_of_singleton.
    destruct (decide (k ∈ f pt)) as [Hk|Hk].
    + split; [intros [= <-]; by exists pt; split; [right|]|].
      intros (pt' & [Hpt'| ->] & Hk' & <-); [|done]. exfalso. eapply Hdis; [|done]. by eapply elem_of_bind_2.
    + rw IH //. naive_solver.
Qed.

(** Distinct parts own distinct keys. *)
Lemma owned_once (f : Part → list K) parts i j p q k :
  NoDup (parts ≫= f) → parts !! i = Some p → parts !! j = Some q → k ∈ f p → k ∈ f q → i = j.
Proof.
  revert i j. induction parts as [|pt parts IH]; intros i j HN Hi Hj Hp Hq; [done|].
  cbn in HN. apply NoDup_app in HN as (_ & Hdis & HN).
  destruct i as [|i], j as [|j]; [done|..]; simpl in *.
  - injection Hi as ->. apply list_elem_of_lookup_2 in Hj. destruct (Hdis k Hp). by eapply elem_of_bind_2.
  - injection Hj as ->. apply list_elem_of_lookup_2 in Hi. destruct (Hdis k Hq). by eapply elem_of_bind_2.
  - f_equal. by eapply IH.
Qed.

(** A field of the index, with the functions that read and replace it. *)
Record field := {
  get : OwnershipIndex → gmap K string;
  set : gmap K string → OwnershipIndex → OwnershipIndex;
  get_set : ∀ m o, get (set m o) = m;
  set_get : ∀ o, set (get o) o = o;
  set_set : ∀ m m' o, set m (set m' o) = set m o;
}.

Lemma register_all (fd : field) (owner : string) (error : K → string → CompositionError)
    (step : OwnershipIndex → K → res CompositionError OwnershipIndex) keys o o' :
  (∀ o k, step o k = (m ← register k owner (error k) (get fd o); Ok (set fd m o))) →
  fold_res step o keys = Ok o' →
  NoDup keys ∧ (∀ k, k ∈ keys → get fd o !! k = None) ∧ o' = set fd (registers owner (get fd o) keys) o.
Proof.
  intros Hstep. revert o. induction keys as [|k keys IH]; intros o; cbn [fold_res].
  - intros [= <-]. split; [constructor|]. split; [by intros k ?%not_elem_of_nil|]. symmetry. apply set_get.
  - rw bind_Ok Hstep. intros (o1 & Ho1 & Hrest). unfold register in Ho1.
    destruct (get fd o !! k) as [e|] eqn:Hk; [done|]. injection Ho1 as <-.
    apply IH in Hrest as (HN & Hnew & ->). rw get_set in Hnew. rw get_set set_set. split_and!; [|intros k'|done].
    + constructor; [|done]. intros Hin. apply Hnew in Hin. by rw lookup_insert_eq in Hin.
    + intros [->|Hin]%elem_of_cons; [done|]. apply Hnew in Hin.
      destruct (decide (k = k')) as [->|]; [by rw lookup_insert_eq in Hin|by rw lookup_insert_ne in Hin].
Qed.
End registers.
Arguments field : clear implicits.
Arguments field _ {_ _}.

(** The five indexed fields. *)
Definition roles_field : field string := {|
  get := oi_roles;
  set m o := {| oi_roles := m; oi_schema_facets := oi_schema_facets o; oi_grants := oi_grants o;
                oi_default_privileges := oi_default_privileges o; oi_memberships := oi_memberships o;
                oi_membership_stanzas := oi_membership_stanzas o |};
  get_set _ _ := eq_refl; set_get o := match o with Build_OwnershipIndex _ _ _ _ _ _ => eq_refl end;
  set_set _ _ _ := eq_refl |}.
Definition facets_field : field SchemaFacetKey := {|
  get := oi_schema_facets;
  set m o := {| oi_roles := oi_roles o; oi_schema_facets := m; oi_grants := oi_grants o;
                oi_default_privileges := oi_default_privileges o; oi_memberships := oi_memberships o;
                oi_membership_stanzas := oi_membership_stanzas o |};
  get_set _ _ := eq_refl; set_get o := match o with Build_OwnershipIndex _ _ _ _ _ _ => eq_refl end;
  set_set _ _ _ := eq_refl |}.
Definition grants_field : field GrantKey := {|
  get := oi_grants;
  set m o := {| oi_roles := oi_roles o; oi_schema_facets := oi_schema_facets o; oi_grants := m;
                oi_default_privileges := oi_default_privileges o; oi_memberships := oi_memberships o;
                oi_membership_stanzas := oi_membership_stanzas o |};
  get_set _ _ := eq_refl; set_get o := match o with Build_OwnershipIndex _ _ _ _ _ _ => eq_refl end;
  set_set _ _ _ := eq_refl |}.
Definition defaults_field : field DefaultPrivKey := {|
  get := oi_default_privileges;
  set m o := {| oi_roles := oi_roles o; oi_schema_facets := oi_schema_facets o; oi_grants := oi_grants o;
                oi_default_privileges := m; oi_memberships := oi_memberships o;
                oi_membership_stanzas := oi_membership_stanzas o |};
  get_set _ _ := eq_refl; set_get o := match o with Build_OwnershipIndex _ _ _ _ _ _ => eq_refl end;
  set_set _ _ _ := eq_refl |}.
Definition memberships_field : field MembershipKey := {|
  get := oi_memberships;
  set m o := {| oi_roles := oi_roles o; oi_schema_facets := oi_schema_facets o; oi_grants := oi_grants o;
                oi_default_privileges := oi_default_privileges o; oi_memberships := m;
                oi_membership_stanzas := oi_membership_stanzas o |};
  get_set _ _ := eq_refl; set_get o := match o with Build_OwnershipIndex _ _ _ _ _ _ => eq_refl end;
  set_set _ _ _ := eq_refl |}.

(** The stanza loop only touches the stanzas. *)
Definition indexed_alike (o o' : OwnershipIndex) : Prop :=
  oi_roles o' = oi_roles o ∧ oi_schema_facets o' = oi_schema_facets o ∧ oi_grants o' = oi_grants o ∧
  oi_default_privileges o' = oi_default_privileges o ∧ oi_memberships o' = oi_memberships o.

Lemma stanzas_indexed owner o l o' :
  fold_res (register_stanza owner) o l = Ok o' → indexed_alike o o'.
Proof.
  apply (fold_res_inv (indexed_alike o)); [by split_and!|].
  intros s m s' _ Hs. unfold register_stanza. destruct (_ !! _) as [[first any]|].
  - intros [_ [= <-]]%throw_if_bind. exact Hs.
  - intros [= <-]. exact Hs.
Qed.

(** What one document adds to the index. *)
Definition fresh {K} `{Countable K} (m : gmap K string) (keys : list K) : Prop :=
  NoDup keys ∧ ∀ k, k ∈ keys → m !! k = None.

Record registered (o : OwnershipIndex) (pt : Part) (o' : OwnershipIndex) : Prop := {
  rg_roles : fresh (oi_roles o) (part_roles pt) ∧
    oi_roles o' = registers (pt_label pt) (oi_roles o) (part_roles pt);
  rg_facets : fresh (oi_schema_facets o) (part_facets pt) ∧
    oi_schema_facets o' = registers (pt_label pt) (oi_schema_facets o) (part_facets pt);
  rg_grants : fresh (oi_grants o) (part_grants pt) ∧
    oi_grants o' = registers (pt_label pt) (oi_grants o) (part_grants pt);
  rg_defaults : fresh (oi_default_privileges o) (part_defaults pt) ∧
    oi_default_privileges o' = registers (pt_label pt) (oi_default_privileges o) (part_defaults pt);
  rg_memberships : fresh (oi_memberships o) (part_memberships pt) ∧
    oi_memberships o' = registers (pt_label pt) (oi_memberships o) (part_memberships pt);
}.

Lemma register_document_Ok o pt o' :
  register_document_ownership o (pt_document pt) (pt_expanded pt) (pt_desired pt) = Ok o' →
  registered o pt o'.
Proof.
  unfold register_document_ownership. intros (o1 & H1 & H)%bind_Ok.
  apply bind_Ok in H as (o2 & H2 & H). apply bind_Ok in H as (o3 & H3 & H).
  apply bind_Ok in H as (o4 & H4 & H). apply bind_Ok in H as (o5 & H5 & H).
  apply bind_Ok in H as (o6 & H6 & H). apply stanzas_indexed in H.
  assert (fold_res (register_role_owner (pt_label pt)) o (part_roles pt) = Ok o2) as H12.
  { unfold part_roles. rw fold_res_app H1. done. }
  apply (register_all roles_field (pt_label pt) _ _ _ _ _ ltac:(reflexivity)) in H12 as (N1 & F1 & ->).
  apply (register_all facets_field (pt_label pt) _ _ _ _ _ ltac:(reflexivity)) in H3 as (N3 & F3 & ->).
  apply (register_all grants_field (pt_label pt) _ _ _ _ _ ltac:(reflexivity)) in H4 as (N4 & F4 & ->).
  apply (register_all defaults_field (pt_label pt) _ _ _ _ _ ltac:(reflexivity)) in H5 as (N5 & F5 & ->).
  apply (register_all memberships_field (pt_label pt) _ _ _ _ _ ltac:(reflexivity)) in H6 as (N6 & F6 & ->).
  destruct H as (E1 & E2 & E3 & E4 & E5). by split.
Qed.

(** ** The document loop *)

(** The fields of the merged manifest. *)
Definition merged_manifest (bundle : PolicyBundle) (parts : list Part) : PolicyManifest := {|
  pm_role_pattern := sp_role_pattern (pb_shared bundle);
  pm_default_owner := sp_default_owner (pb_shared bundle);
  pm_auth_providers := sp_auth_providers (pb_shared bundle);
  pm_profiles := sp_profiles (pb_shared bundle);
  pm_schemas := [];
  pm_roles := parts ≫= λ pt, pf_roles (pt_fragment pt);
  pm_grants := parts ≫= λ pt, pf_grants (pt_fragment pt);
  pm_default_privileges := parts ≫= λ pt, pf_default_privileges (pt_fragment pt);
  pm_memberships := parts ≫= λ pt, pf_memberships (pt_fragment pt);
  pm_retirements := parts ≫= λ pt, pf_retirements (pt_fragment pt) |}.

Definition merge_part (m : gmap string SchemaBinding) (pt : Part) : gmap string SchemaBinding :=
  foldl (merge_schema (pt_fragment pt)) m (pf_schemas (pt_fragment pt)).
Definition merged_schemas (parts : list Part) : gmap string SchemaBinding := foldl merge_part ∅ parts.

Definition indexes {K} `{Countable K} (m : gmap K string) (f : Part → list K) (parts : list Part) : Prop :=
  NoDup (parts ≫= f) ∧ m = owned_by f parts.

Record loop_done (bundle : PolicyBundle) (parts : list Part) (s : Composing) : Prop := {
  ld_parts : Forall (part_ok bundle) parts;
  ld_roles : indexes (oi_roles (cg_ownership s)) part_roles parts;
  ld_facets : indexes (oi_schema_facets (cg_ownership s)) part_facets parts;
  ld_grants : indexes (oi_grants (cg_ownership s)) part_grants parts;
  ld_defaults : indexes (oi_default_privileges (cg_ownership s)) part_defaults parts;
  ld_memberships : indexes (oi_memberships (cg_ownership s)) part_memberships parts;
  ld_manifest : cg_manifest s = merged_manifest bundle parts;
  ld_merged : cg_merged s = merged_schemas parts;
}.

Lemma indexes_snoc {K} `{Countable K} (m m' : gmap K string) (f : Part → list K) parts pt :
  indexes m f parts → fresh m (f pt) ∧ m' = registers (pt_label pt) m (f pt) →
  indexes m' f (parts ++ [pt]).
Proof.
  intros [HN ->] [[HN' Hnew] ->]. split; [|by rw owned_by_snoc].
  rw bind_app. cbn. rw app_nil_r. apply NoDup_app. split_and!; [done| |done].
  intros k Hk Hk'. apply owned_by_keys in Hk as [l Hl]. apply Hnew in Hk'. congruence.
Qed.

Lemma compose_document_Ok bundle parts s d s' :
  loop_done bundle parts s → compose_document bundle s d = Ok s' →
  ∃ pt, pt_document pt = d ∧ loop_done bundle (parts ++ [pt]) s'.
Proof.
  intros [P R F G D M HM HS] H. unfold compose_document in H.
  apply bind_unit_Ok in H as [Hv H]. apply bind_Ok in H as (em & He%map_err_Ok & H).
  apply bind_Ok in H as (g & Hg%map_err_Ok & H). apply bind_Ok in H as (o & Ho & [= <-]).
  set (pt := {| pt_document := d; pt_expanded := em; pt_desired := g |}).
  pose proof (register_document_Ok _ pt _ Ho) as [r f gr df mb].
  exists pt. split; [done|].
  split; cbn [cg_ownership cg_manifest cg_merged merge_document_manifest fst snd];
    try (eapply indexes_snoc; [eassumption|assumption]).
  - apply Forall_app. split; [done|]. constructor; [|constructor]. by split.
  - rw HM. unfold merged_manifest; cbn [pm_role_pattern pm_default_owner pm_auth_providers pm_profiles
      pm_schemas pm_roles pm_grants pm_default_privileges pm_memberships pm_retirements].
    by rw !bind_app; cbn; rw !app_nil_r.
  - rw HS. unfold merged_schemas. by rw foldl_app.
Qed.

Lemma compose_documents_Ok bundle documents s :
  fold_res (compose_document bundle)
    {| cg_ownership := ownership_default; cg_manifest := shared_manifest bundle; cg_merged := ∅ |}
    documents = Ok s →
  ∃ parts, pt_document <$> parts = documents ∧ loop_done bundle parts s.
Proof.
  revert s. induction documents as [|d documents IH] using rev_ind; intros s H.
  - injection H as <-. exists []. split; [done|]. split; try done; split; constructor.
  - rw fold_res_app in H. apply bind_Ok in H as (s1 & H1 & H). cbn [fold_res] in H.
    apply bind_Ok in H as (s2 & H2 & [= <-]).
    apply IH in H1 as (parts & <- & Hd). destruct (compose_document_Ok _ _ _ _ _ Hd H2) as (pt & <- & Hd').
    exists (parts ++ [pt]). split; [by rw fmap_app|done].
Qed.

(** The composed policy in terms of its parts. *)
Record composed (bundle : PolicyBundle) (parts : list Part) (c : ComposedPolicy) : Prop := {
  cd_parts : Forall (part_ok bundle) parts;
  cd_roles : indexes (oi_roles (cp_ownership c)) part_roles parts;
  cd_facets : indexes (oi_schema_facets (cp_ownership c)) part_facets parts;
  cd_grants : indexes (oi_grants (cp_ownership c)) part_grants parts;
  cd_defaults : indexes (oi_default_privileges (cp_ownership c)) part_defaults parts;
  cd_memberships : indexes (oi_memberships (cp_ownership c)) part_memberships parts;
  cd_manifest : cp_manifest c =
    with_manifest_schemas (merged_manifest bundle parts) (map_iter (merged_schemas parts)).*2;
  cd_expanded : expand_manifest (cp_manifest c) = Ok (cp_expanded c);
  cd_desired : from_expanded (cp_expanded c) (sp_default_owner (pb_shared bundle)) = Ok (cp_desired c);
  cd_surface : cp_managed_change_surface c = managed_change_surface (cp_ownership c);
}.

Lemma compose_bundle_Ok bundle documents c :
  compose_bundle bundle documents = Ok c →
  ∃ parts, pt_document <$> parts = documents ∧ composed bundle parts c.
Proof.
  unfold compose_bundle. intros [_ H]%throw_if_bind.
  apply bind_Ok in H as (s & (parts & Hp & [])%compose_documents_Ok & H).
  apply bind_Ok in H as (em & He%map_err_Ok & H). apply bind_Ok in H as (g & Hg%map_err_Ok & [= <-]).
  exists parts. split; [done|]. split; try done; cbn [cp_manifest cp_expanded cp_desired].
  - by rw ld_manifest0 ld_merged0.
  - rw ld_manifest0 in Hg. done.
Qed.

(** ** Merged schema bindings *)

(** One schema binding with the fragment it stands in. *)
Abbreviation contribution := (PolicyFragment * SchemaBinding)%type.

Definition contributions (parts : list Part) : list contribution :=
  parts ≫= λ pt, (λ b, (pt_fragment pt, b)) <$> pf_schemas (pt_fragment pt).

Definition merge_contribution (m : gmap string SchemaBinding) (c : contribution) :
    gmap string SchemaBinding := merge_schema c.1 m c.2.

Lemma merged_schemas_contributions parts :
  merged_schemas parts = foldl merge_contribution ∅ (contributions parts).
Proof.
  unfold merged_schemas, contributions. generalize (∅ : gmap string SchemaBinding).
  induction parts as [|pt parts IH]; intros m; [done|]. cbn [foldl]. rw IH bind_cons foldl_app. f_equal.
  unfold merge_part. generalize (pt_fragment pt) as f. intros f. generalize (pf_schemas f) as l. intros l.
  revert m. induction l as [|b l IHl]; intros m; [done|]. cbn. apply IHl.
Qed.

(** The role pattern a binding is expanded with, apart from the shared one. *)
Definition own_pattern (c : contribution) : option string :=
  match sb_role_pattern c.2 with Some p => Some p | None => pf_role_pattern c.1 end.

(** What is asserted once: who binds profiles to a schema, who names its owner. *)
Definition binders (cs : list contribution) : list string :=
  (λ c, sb_name c.2) <$> filter (λ c, manages_bindings c.2) cs.
Definition owners (cs : list contribution) : list string :=
  (λ c, sb_name c.2) <$> filter (λ c, is_some (sb_owner c.2)) cs.

Record binding_merged (cs : list contribution) (s : string) (b : SchemaBinding) : Prop := {
  bm_name : sb_name b = s;
  bm_source : ∃ c, c ∈ cs ∧ sb_name c.2 = s;
  bm_bound : ∀ c, c ∈ cs → sb_name c.2 = s → manages_bindings c.2 →
    sb_profiles b = sb_profiles c.2 ∧ sb_role_pattern b = own_pattern c;
  bm_unbound : (∀ c, c ∈ cs → sb_name c.2 = s → ¬ manages_bindings c.2) → sb_profiles b = [];
  bm_owner : ∀ o, sb_owner b = Some o ↔ ∃ c, c ∈ cs ∧ sb_name c.2 = s ∧ sb_owner c.2 = Some o;
}.

Definition merged_ok (cs : list contribution) (m : gmap string SchemaBinding) : Prop :=
  ∀ s, match m !! s with
       | Some b => binding_merged cs s b
       | None => ∀ c, c ∈ cs → sb_name c.2 ≠ s
       end.

Lemma elem_of_binders cs c : c ∈ cs → manages_bindings c.2 → sb_name c.2 ∈ binders cs.
Proof. intros Hc Hm. apply list_elem_of_fmap. exists c. by rw list_elem_of_filter. Qed.

Lemma elem_of_owners cs c o : c ∈ cs → sb_owner c.2 = Some o → sb_name c.2 ∈ owners cs.
Proof. intros Hc Ho. apply list_elem_of_fmap. exists c. by rw list_elem_of_filter Ho. Qed.

Lemma manages_bindings_spec b :
  manages_bindings b = negb (bool_decide (sb_profiles b = [])) || is_some (sb_role_pattern b).
Proof. done. Qed.

Lemma merge_contributions cs :
  NoDup (binders cs) → NoDup (owners cs) → merged_ok cs (foldl merge_contribution ∅ cs).
Proof.
  induction cs as [|c cs IH] using rev_ind; intros HB HO s.
  { cbn. rw lookup_empty. by intros c ?%not_elem_of_nil. }
  unfold binders, owners in HB, HO. rw filter_app fmap_app in HB. rw filter_app fmap_app in HO.
  apply NoDup_app in HB as (HB & HB' & _). apply NoDup_app in HO as (HO & HO' & _).
  specialize (IH HB HO). rw foldl_app. cbn [foldl].
  generalize dependent (foldl merge_contribution ∅ cs). intros m IH.
  unfold merge_contribution, merge_schema. destruct c as [f b]. cbn [fst snd].
  destruct (decide (sb_name b = s)) as [<-|Hne].
  - rw lookup_insert_eq. specialize (IH (sb_name b)).
    assert (∀ c, c ∈ cs → sb_name c.2 = sb_name b → manages_bindings c.2 → ¬ manages_bindings b) as Hbind.
    { intros c Hc Hn Hm Hb. eapply HB'; [by apply elem_of_binders|]. rw Hn.
      apply (elem_of_binders [(f, b)]  (f, b)); [left|done]. }
    assert (∀ c o, c ∈ cs → sb_name c.2 = sb_name b → sb_owner c.2 = Some o → sb_owner b = None) as Hown.
    { intros c o Hc Hn Hm. destruct (sb_owner b) as [o'|] eqn:Hb; [|done]. exfalso.
      eapply HO'; [by eapply elem_of_owners|]. rw Hn. by apply (elem_of_owners [(f, b)] (f, b) o'); [left|]. }
    set (entry := default _ (m !! sb_name b)).
    assert (sb_name entry = sb_name b ∧
            (∀ c, c ∈ cs → sb_name c.2 = sb_name b → manages_bindings c.2 →
               sb_profiles entry = sb_profiles c.2 ∧ sb_role_pattern entry = own_pattern c) ∧
            ((∀ c, c ∈ cs → sb_name c.2 = sb_name b → ¬ manages_bindings c.2) → sb_profiles entry = []) ∧
            (∀ o, sb_owner entry = Some o ↔ ∃ c, c ∈ cs ∧ sb_name c.2 = sb_name b ∧ sb_owner c.2 = Some o))
      as (En & Eb & Eu & Eo).
    { unfold entry. destruct (m !! sb_name b) as [e|]; cbn; [destruct IH; by split_and!|].
      split_and!; [done|by intros c Hc Hn%IH..|done|]. intros o. split; [done|]. intros (c & Hc & Hn & _). by apply IH in Hc. }
    assert (manages_bindings b = false → sb_profiles b = [] ∧ sb_role_pattern b = None) as Hnot.
    { unfold manages_bindings. case_bool_decide; [|done]. by destruct (sb_role_pattern b). }
    assert (is_Some (sb_owner b) → ∀ c o, c ∈ cs → sb_name c.2 = sb_name b → sb_owner c.2 ≠ Some o) as Hown'.
    { intros [o' Ho'] c o Hc Hn Hm. by rw (Hown c o) in Ho'. }
    clearbody entry. split; cbn [sb_name sb_profiles sb_role_pattern sb_owner].
    + done.
    + exists (f, b). rw elem_of_app list_elem_of_singleton. by split; [right|].
    + intros c [Hc| ->%list_elem_of_singleton]%elem_of_app Hn Hm.
      * assert (manages_bindings b = false) as [-> ->]%Hnot.
        { apply not_true_iff_false. intros Hb. apply (Hbind c Hc Hn Hm). by rw Hb. }
        rw bool_decide_true //. cbn. by apply Eb.
      * cbn [fst snd]. unfold manages_bindings in Hm. unfold own_pattern; cbn [fst snd].
        destruct (decide (sb_profiles b = [])) as [Hp|Hp]; [|by rw bool_decide_false].
        rw bool_decide_true // in Hm. rw bool_decide_true //. destruct (sb_role_pattern b) as [p|] eqn:Hpat; [|by rw Hpat in Hm].
        cbn. rw Hp. split; [|done]. apply Eu. intros c Hc Hn' Hm'. apply (Hbind c Hc Hn' Hm').
        unfold manages_bindings. rw Hpat. by rw orb_true_r.
    + intros Hno. assert (manages_bindings b = false) as [-> _]%Hnot.
      { apply not_true_iff_false. intros Hb. apply (Hno (f, b)); [|done|by rw Hb].
        apply elem_of_app. right. left. }
      rw bool_decide_true //. cbn. apply Eu. intros c Hc. apply Hno. apply elem_of_app. by left.
    + intros o. destruct (sb_owner b) as [o'|] eqn:Ho'.
      * split; [intros [= <-]; exists (f, b); split; [apply elem_of_app; right; left|done]|].
        intros (c & [Hc| ->%list_elem_of_singleton]%elem_of_app & Hn & Hc'); [|cbn in *; congruence].
        exfalso. by eapply Hown'.
      * rw Eo. split; intros (c & Hc & Hn & Ho); exists c; (split; [|done]); [apply elem_of_app; by left|].
        apply elem_of_app in Hc as [Hc| ->%list_elem_of_singleton]; [done|]. cbn in Ho. congruence.
  - rw lookup_insert_ne //. specialize (IH s). destruct (m !! s) as [e|].
    + destruct IH as [I1 (c0 & Hc0 & Hn0) I2 I3 I4].
      assert (∀ c, c ∈ cs ++ [(f, b)] → sb_name c.2 = s → c ∈ cs) as Hin.
      { by intros c [Hc| ->%list_elem_of_singleton]%elem_of_app Hn. }
      split; [done|..].
      * exists c0. split; [apply elem_of_app; by left|done].
      * intros c Hc Hn. apply I2; eauto.
      * intros Hno. apply I3. intros c Hc. apply Hno. apply elem_of_app. by left.
      * intros o. rw I4. split; intros (c & Hc & Hn & Ho); exists c; split_and!; try done;
          [apply elem_of_app; by left|by apply Hin].
    + intros c [Hc| ->%list_elem_of_singleton]%elem_of_app; [by apply IH|done].
Qed.

(** ** Every assertion has one place *)

Definition facet_of (facet : SchemaBindingFacet) (s : string) : SchemaFacetKey := {|
  sfk_schema := s; sfk_facet := facet |}.

Lemma elem_of_scope_entries l m s f :
  has_schema_facet (foldl scope_entry m l) s f = true ↔
  has_schema_facet m s f = true ∨ ∃ sc, sc ∈ l ∧ scs_name sc = s ∧ f ∈ scs_facets sc.
Proof.
  revert m. induction l as [|sc l IH]; intros m; cbn [foldl].
  - split; [by left|]. intros [|(sc & ?%not_elem_of_nil & _)]; done.
  - rw IH. assert (has_schema_facet (scope_entry m sc) s f = true ↔
      has_schema_facet m s f = true ∨ (scs_name sc = s ∧ f ∈ scs_facets sc)) as ->.
    { unfold has_schema_facet, scope_entry, entry_extend. destruct (decide (scs_name sc = s)) as [<-|Hne].
      - rw lookup_insert_eq bool_decide_eq_true elem_of_union elem_of_list_to_set.
        destruct (m !! scs_name sc); cbn; rw ?bool_decide_eq_true; set_solver.
      - rw lookup_insert_ne //. split; [by left|by intros [?|[? _]]]. }
    split.
    + intros [[?|?]|(sc' & Hsc & ?)]; [by left|right; exists sc; split; [left|done]|].
      right. exists sc'. split; [by right|done].
    + intros [?|(sc' & [->|Hsc]%elem_of_cons & ?)]; [by left; left|by left; right|right; by exists sc'].
Qed.

(** A facet the scope has is a facet the document registers. *)
Lemma has_facet_declared scope s f :
  has_schema_facet (schema_scope_map scope) s f = true ↔ facet_of f s ∈ declared_facets scope.
Proof.
  unfold schema_scope_map. rw elem_of_scope_entries. unfold declared_facets. split.
  - intros [H|(sc & Hsc & <- & Hf)]; [by rw /has_schema_facet lookup_empty in H|].
    eapply elem_of_bind_2; [done|]. apply list_elem_of_fmap. by exists f.
  - intros (sc & Hsc & Hf)%elem_of_bind_1. apply list_elem_of_fmap in Hf as (f' & [= -> ->] & Hf).
    right. by exists sc.
Qed.

Section parts.
Context (bundle : PolicyBundle).

Section part.
Context (pt : Part) (Hpt : part_ok bundle pt).

Lemma part_binding_scope b :
  b ∈ pf_schemas (pt_fragment pt) →
  (manages_bindings b → facet_of SchemaBindingFacet.Bindings (sb_name b) ∈ part_facets pt) ∧
  (manages_owner bundle b → facet_of SchemaBindingFacet.Owner (sb_name b) ∈ part_facets pt).
Proof.
  intros Hb. destruct Hpt as [H _ _]. unfold validate_document_scope in H.
  do 2 apply bind_unit_Ok in H as [_ H]. apply bind_unit_Ok in H as [H _].
  apply (proj1 (for_each_Ok _ _ _)) with (x := b) in H; [|done].
  apply bind_unit_Ok in H as [H1%throw_if_Ok H2%throw_if_Ok].
  unfold part_facets. rw -!has_facet_declared.
  split; intros Hm; apply Is_true_true in Hm; rw Hm in H1 H2 || rw Hm in H2;
    by apply negb_false_iff.
Qed.

Lemma part_grant_scope gr s :
  gr ∈ pf_grants (pt_fragment pt) → schema_name_for_grant gr = Some s →
  facet_of SchemaBindingFacet.Bindings s ∈ part_facets pt.
Proof.
  intros Hg Hs. destruct Hpt as [H _ _]. unfold validate_document_scope in H.
  do 3 apply bind_unit_Ok in H as [_ H]. apply bind_unit_Ok in H as [H _].
  apply (proj1 (for_each_Ok _ _ _)) with (x := gr) in H; [|done]. unfold check_grant_scope in H.
  rw Hs throw_if_Ok in H. apply negb_false_iff in H. by apply has_facet_declared.
Qed.

Lemma part_default_scope d s :
  d ∈ pf_default_privileges (pt_fragment pt) → resolved_scope d = Ok (DefaultPrivilegeScope.Schema s) →
  facet_of SchemaBindingFacet.Bindings s ∈ part_facets pt.
Proof.
  intros Hd Hs. destruct Hpt as [H _ _]. unfold validate_document_scope in H.
  do 4 apply bind_unit_Ok in H as [_ H].
  apply (proj1 (for_each_Ok _ _ _)) with (x := d) in H; [|done]. unfold check_default_scope in H.
  rw Hs in H. cbn in H. apply throw_if_Ok, negb_false_iff in H. by apply has_facet_declared.
Qed.

Lemma part_schema_names : NoDup (sb_name <$> pf_schemas (pt_fragment pt)).
Proof.
  destruct Hpt as [_ H _]. apply expand_manifest_Ok in H as [Hem Ha].
  generalize (ac_schemas _ _ Ha). rw Hem. cbn [em_schemas expanded_of]. by rw expand_schema_names.
Qed.
End part.

Lemma contributions_cons pt parts :
  contributions (pt :: parts) = ((λ b, (pt_fragment pt, b)) <$> pf_schemas (pt_fragment pt)) ++ contributions parts.
Proof. done. Qed.

Lemma elem_of_contributions parts c :
  c ∈ contributions parts ↔ ∃ pt, pt ∈ parts ∧ c.1 = pt_fragment pt ∧ c.2 ∈ pf_schemas (pt_fragment pt).
Proof.
  unfold contributions. rw list_elem_of_bind. split.
  - intros (pt & Hc & Hpt). apply list_elem_of_fmap in Hc as (b & -> & Hb). by exists pt.
  - intros (pt & Hpt & H1 & H2). exists pt. split; [|done]. apply list_elem_of_fmap.
    exists c.2. split; [|done]. by rw -H1 -surjective_pairing.
Qed.

(** What is asserted under one facet has one place. *)
Lemma asserted_once parts (P : SchemaBinding → bool) facet :
  Forall (part_ok bundle) parts → NoDup (parts ≫= part_facets) →
  (∀ pt b, pt ∈ parts → b ∈ pf_schemas (pt_fragment pt) → P b → facet_of facet (sb_name b) ∈ part_facets pt) →
  NoDup ((λ c : contribution, sb_name c.2) <$> filter (λ c : contribution, P c.2) (contributions parts)).
Proof.
  induction parts as [|pt parts IH]; intros HP HN Hf; [constructor|].
  apply Forall_cons in HP as [Hpt HP]. cbn in HN. apply NoDup_app in HN as (_ & Hdis & HN).
  rw contributions_cons filter_app fmap_app NoDup_app. split_and!.
  - eapply sublist_NoDup; [apply (part_schema_names pt Hpt)|].
    assert (∀ l : list SchemaBinding, (λ c : contribution, sb_name c.2) <$>
      filter (λ c : contribution, P c.2) ((λ b, (pt_fragment pt, b)) <$> l) `sublist_of` (sb_name <$> l)) as Hsub.
    { induction l as [|b l IHl]; [constructor|]. rw !fmap_cons filter_cons.
      case_decide; rw ?fmap_cons; by constructor. }
    apply Hsub.
  - intros s Hs Hs'. apply list_elem_of_fmap in Hs as ([f b] & -> & [Hp Hb]%list_elem_of_filter).
    apply list_elem_of_fmap in Hb as (b' & [= -> ->] & Hb).
    apply list_elem_of_fmap in Hs' as (c & Heq & [Hp' Hc]%list_elem_of_filter).
    apply elem_of_contributions in Hc as (pt' & Hpt' & _ & Hc). cbn [snd] in *.
    eapply Hdis; [apply (Hf pt b'); [left|done|done]|]. rw Heq.
    eapply elem_of_bind_2; [done|]. apply (Hf pt' c.2); [by right|done|done].
  - apply IH; [done|done|]. intros pt' b Hpt'. apply Hf. by right.
Qed.
End parts.

Lemma NoDup_fmap_eq {A B} (f : A → B) (l : list A) x y :
  NoDup (f <$> l) → x ∈ l → y ∈ l → f x = f y → x = y.
Proof.
  induction l as [|z l IH]; [by intros _ ?%not_elem_of_nil|]. rw fmap_cons NoDup_cons.
  intros [Hz HN] [->|Hx]%elem_of_cons [->|Hy]%elem_of_cons Hf; [done|..|by apply IH].
  - destruct Hz. rw Hf. by apply list_elem_of_fmap_2.
  - destruct Hz. rw -Hf. by apply list_elem_of_fmap_2.
Qed.

(** ** The composed expansion is the union of the expansions *)

Section composed.
Context {bundle : PolicyBundle} {parts : list Part} {c : ComposedPolicy} (Hc : composed bundle parts c).

Let M : PolicyManifest := cp_manifest c.
Abbreviation part_manifest pt := (document_manifest bundle (pt_fragment pt)).

Lemma composed_part pt : pt ∈ parts → part_ok bundle pt.
Proof. intros Hpt. by apply (proj1 (Forall_forall _ _) (cd_parts _ _ _ Hc)). Qed.

Lemma part_expansion pt : pt ∈ parts → pt_expanded pt = expanded_of (part_manifest pt).
Proof. intros Hpt. by apply (expand_manifest_Ok _ _ (po_expanded _ _ (composed_part pt Hpt))). Qed.

Lemma composed_expansion : cp_expanded c = expanded_of M.
Proof. by apply (expand_manifest_Ok _ _ (cd_expanded _ _ _ Hc)). Qed.

Lemma composed_accepted : accepted M (cp_expanded c).
Proof. by apply (expand_manifest_Ok _ _ (cd_expanded _ _ _ Hc)). Qed.

Lemma parts_merged : merged_ok (contributions parts) (merged_schemas parts).
Proof.
  rw merged_schemas_contributions. destruct (cd_facets _ _ _ Hc) as [HN _].
  apply merge_contributions.
  - eapply (asserted_once bundle parts manages_bindings); [apply (cd_parts _ _ _ Hc)|done|].
    intros pt b Hpt Hb Hm. exact (proj1 (part_binding_scope bundle pt (composed_part pt Hpt) b Hb) Hm).
  - eapply (asserted_once bundle parts (λ b, is_some (sb_owner b))); [apply (cd_parts _ _ _ Hc)|done|].
    intros pt b Hpt Hb Hm. apply (proj2 (part_binding_scope bundle pt (composed_part pt Hpt) b Hb)).
    unfold manages_owner. by destruct (sb_owner b).
Qed.

Lemma composed_schemas : pm_schemas M = (map_iter (merged_schemas parts)).*2.
Proof. unfold M. by rw (cd_manifest _ _ _ Hc). Qed.

Lemma elem_of_composed_schemas b :
  b ∈ pm_schemas M ↔ merged_schemas parts !! sb_name b = Some b.
Proof.
  rw composed_schemas list_elem_of_fmap. split.
  - intros ([s b'] & -> & Hs%elem_of_map_iter). cbn [snd]. pose proof (parts_merged s) as Hm.
    rw Hs in Hm. by rw (bm_name _ _ _ Hm).
  - intros Hb. exists (sb_name b, b). by rw elem_of_map_iter.
Qed.

(** What a generated entry depends on. *)
Definition same_generated (M1 M2 : PolicyManifest) (p1 p2 : SchemaBinding * string) : Prop :=
  pm_profiles M1 = pm_profiles M2 ∧ pm_default_owner M1 = pm_default_owner M2 ∧
  p1.2 = p2.2 ∧ sb_name p1.1 = sb_name p2.1 ∧
  generated_role_name M1 p1.1 p1.2 = generated_role_name M2 p2.1 p2.2 ∧
  (is_Some (pm_default_owner M1) → sb_owner p1.1 = sb_owner p2.1).

Lemma same_generated_entries M1 M2 p1 p2 :
  same_generated M1 M2 p1 p2 →
  generated_roles M1 p1 = generated_roles M2 p2 ∧ generated_grants M1 p1 = generated_grants M2 p2.
Proof.
  destruct p1 as [b1 n1], p2 as [b2 n2]. intros (Hp & _ & Hn & Hs & Hr & _); cbn [fst snd] in *. subst n2.
  unfold generated_roles, generated_grants. rw Hp. destruct (pm_profiles M2 !! n1) as [profile|]; [|done].
  rw Hr. unfold generated_role, profile_target. by rw Hs.
Qed.

(** With a default owner every binding asserts an owner, so a schema stands in one place
    and keeps the owner it has there. *)
Lemma merged_owner x b :
  is_Some (sp_default_owner (pb_shared bundle)) →
  x ∈ contributions parts → merged_schemas parts !! sb_name x.2 = Some b → sb_owner b = sb_owner x.2.
Proof.
  intros Hd Hx Hb. destruct (cd_facets _ _ _ Hc) as [HN _].
  assert (∀ b, manages_owner bundle b) as Hall.
  { intros b'. unfold manages_owner. destruct Hd as [o ->]. by rw orb_true_r. }
  pose proof (asserted_once bundle parts (manages_owner bundle) SchemaBindingFacet.Owner
    (cd_parts _ _ _ Hc) HN) as Honce.
  rw list_filter_all in Honce; [|intros y _; apply Hall].
  pose proof (parts_merged (sb_name x.2)) as Hm. rw Hb in Hm.
  assert (∀ y, y ∈ contributions parts → sb_name y.2 = sb_name x.2 → y = x) as Huniq.
  { intros y Hy Hn. eapply NoDup_fmap_eq; [apply Honce|done..].
    intros pt b' Hpt Hb' Hm'. exact (proj2 (part_binding_scope bundle pt (composed_part pt Hpt) b' Hb') Hm'). }
  apply option_eq. intros o. rw (bm_owner _ _ _ Hm). split; [|by exists x].
  intros (y & Hy & Hn & Ho). by rw -(Huniq y Hy Hn).
Qed.

Lemma elem_of_expansion_pairs M' p :
  p ∈ expansion_pairs M' ↔ p.1 ∈ pm_schemas M' ∧ p.2 ∈ sb_profiles p.1.
Proof.
  unfold expansion_pairs. rw list_elem_of_bind. split.
  - intros (b & Hp & Hb). by apply list_elem_of_fmap in Hp as (n & -> & Hn).
  - intros [Hb Hn]. exists p.1. split; [|done]. apply list_elem_of_fmap. exists p.2.
    by rw -surjective_pairing.
Qed.

Lemma bound_alike pt b b' n :
  pt ∈ parts → b' ∈ pf_schemas (pt_fragment pt) → sb_name b' = sb_name b →
  merged_schemas parts !! sb_name b = Some b →
  sb_role_pattern b = own_pattern (pt_fragment pt, b') →
  same_generated M (part_manifest pt) (b, n) (b', n).
Proof.
  intros Hpt Hb Hn Hl Hp. split_and!; [unfold M; by rw (cd_manifest _ _ _ Hc)..|done|done| |]; cbn [fst snd].
  2: { unfold M. rw (cd_manifest _ _ _ Hc). intros Hd.
       apply (merged_owner (pt_fragment pt, b') b Hd); cbn [snd]; [|by rw Hn].
       apply elem_of_contributions. by exists pt. }
  unfold generated_role_name. rw Hn Hp. unfold own_pattern; cbn [fst snd].
  assert (pm_role_pattern M = sp_role_pattern (pb_shared bundle)) as ->.
  { unfold M. by rw (cd_manifest _ _ _ Hc). }
  cbn [pm_role_pattern document_manifest].
  by destruct (sb_role_pattern b'), (pf_role_pattern (pt_fragment pt)).
Qed.

Lemma declares_profiles b n : n ∈ sb_profiles b → manages_bindings b.
Proof.
  intros Hn. unfold manages_bindings. rw bool_decide_false //. intros Hb. rw Hb in Hn.
  by apply not_elem_of_nil in Hn.
Qed.

(** Every generated pair of the composed manifest stands in one document, and back. *)
Lemma composed_pair p :
  p ∈ expansion_pairs M →
  ∃ pt p', pt ∈ parts ∧ p' ∈ expansion_pairs (part_manifest pt) ∧ same_generated M (part_manifest pt) p p'.
Proof.
  destruct p as [b n]. intros [Hb Hn]%elem_of_expansion_pairs; cbn [fst snd] in *.
  apply elem_of_composed_schemas in Hb. pose proof (parts_merged (sb_name b)) as Hm. rw Hb in Hm.
  destruct (decide (Exists (λ x : contribution, sb_name x.2 = sb_name b ∧ manages_bindings x.2) (contributions parts)))
    as [(x & Hx & Hxn & Hxm)%Exists_exists|Hno].
  - destruct (bm_bound _ _ _ Hm x Hx Hxn Hxm) as [Hp Hpat].
    apply elem_of_contributions in Hx as (pt & Hpt & Hf & Hxb). exists pt, (x.2, n).
    split; [done|]. split; [apply elem_of_expansion_pairs; cbn; split; [done|by rw -Hp]|].
    apply bound_alike; [done..|]. by rw Hpat -Hf -surjective_pairing.
  - rw (bm_unbound _ _ _ Hm) in Hn; [by apply not_elem_of_nil in Hn|].
    intros x Hx Hxn Hxm. apply Hno, Exists_exists. eauto.
Qed.

Lemma part_pair pt p :
  pt ∈ parts → p ∈ expansion_pairs (part_manifest pt) →
  ∃ p', p' ∈ expansion_pairs M ∧ same_generated M (part_manifest pt) p' p.
Proof.
  destruct p as [b n]. intros Hpt [Hb Hn]%elem_of_expansion_pairs; cbn [fst snd] in *.
  assert ((pt_fragment pt, b) ∈ contributions parts) as Hx by (apply elem_of_contributions; by exists pt).
  pose proof (parts_merged (sb_name b)) as Hm.
  destruct (merged_schemas parts !! sb_name b) as [b'|] eqn:Hl; [|by apply Hm in Hx].
  pose proof (bm_name _ _ _ Hm) as Hname.
  destruct (bm_bound _ _ _ Hm _ Hx eq_refl (declares_profiles _ _ Hn)) as [Hp Hpat]; cbn [fst snd] in *.
  exists (b', n). split.
  - apply elem_of_expansion_pairs; cbn [fst snd]. rw Hp elem_of_composed_schemas Hname. done.
  - apply bound_alike; [done..|by rw Hname|done].
Qed.

(** One statement for roles and for grants. *)
Lemma union_of_parts {A} (gen : PolicyManifest → SchemaBinding * string → list A)
    (own : PolicyManifest → list A) (all : ExpandedManifest → list A) x :
  (∀ M', all (expanded_of M') = (expansion_pairs M' ≫= gen M') ++ own M') →
  (∀ M1 M2 p1 p2, pm_default_owner M1 = sp_default_owner (pb_shared bundle) →
     same_generated M1 M2 p1 p2 → gen M1 p1 = gen M2 p2) →
  (x ∈ own M ↔ ∃ pt, pt ∈ parts ∧ x ∈ own (part_manifest pt)) →
  x ∈ all (cp_expanded c) ↔ ∃ pt, pt ∈ parts ∧ x ∈ all (pt_expanded pt).
Proof.
  intros Hall Hgen Hown.
  assert (pm_default_owner M = sp_default_owner (pb_shared bundle)) as HM by (unfold M; by rw (cd_manifest _ _ _ Hc)).
  rw composed_expansion Hall elem_of_app Hown list_elem_of_bind. split.
  - intros [(p & Hx & Hp)|(pt & Hpt & Hx)].
    + apply composed_pair in Hp as (pt & p' & Hpt & Hp' & Hsame). exists pt. split; [done|].
      rw part_expansion // Hall elem_of_app. left. eapply elem_of_bind_2; [done|]. by rw -(Hgen _ _ _ _ HM Hsame).
    + exists pt. split; [done|]. rw part_expansion // Hall elem_of_app. by right.
  - intros (pt & Hpt & Hx). rw part_expansion // Hall elem_of_app in Hx.
    destruct Hx as [(p & Hp & Hx)%elem_of_bind_1|Hx]; [|right; by exists pt].
    left. destruct (part_pair pt p Hpt Hp) as (p' & Hp' & Hsame). exists p'.
    by rw (Hgen _ _ _ _ HM Hsame).
Qed.

Lemma elem_of_parts_bind {A} (f : Part → list A) x : x ∈ parts ≫= f ↔ ∃ pt, pt ∈ parts ∧ x ∈ f pt.
Proof. rw list_elem_of_bind. naive_solver. Qed.

Lemma composed_roles rd : rd ∈ em_roles (cp_expanded c) ↔ ∃ pt, pt ∈ parts ∧ rd ∈ em_roles (pt_expanded pt).
Proof.
  apply (union_of_parts generated_roles pm_roles); [done|intros; by apply same_generated_entries|].
  unfold M. rw (cd_manifest _ _ _ Hc). apply elem_of_parts_bind.
Qed.

Lemma composed_grants gr : gr ∈ em_grants (cp_expanded c) ↔ ∃ pt, pt ∈ parts ∧ gr ∈ em_grants (pt_expanded pt).
Proof.
  apply (union_of_parts generated_grants pm_grants); [done|intros; by apply same_generated_entries|].
  unfold M. rw (cd_manifest _ _ _ Hc). apply elem_of_parts_bind.
Qed.

(** With a default owner, the default privileges too. *)
Lemma composed_defaults d :
  is_Some (sp_default_owner (pb_shared bundle)) →
  d ∈ em_default_privileges (cp_expanded c) ↔ ∃ pt, pt ∈ parts ∧ d ∈ em_default_privileges (pt_expanded pt).
Proof.
  intros Hd. assert (∀ M1 M2, pm_default_owner M1 = pm_default_owner M2 →
    ∀ d, normalize_owner M1 d = normalize_owner M2 d) as Hnorm.
  { intros M1 M2 HM d'. unfold normalize_owner, owner_or_default. by rw HM. }
  assert (∀ pt, pm_default_owner M = pm_default_owner (part_manifest pt)) as HM.
  { intros pt. unfold M. by rw (cd_manifest _ _ _ Hc). }
  apply (union_of_parts (λ M' p, normalize_owner M' <$> generated_defaults M' p)
           (λ M', normalize_owner M' <$> pm_default_privileges M')).
  - intros M'. cbn [em_default_privileges expanded_of]. rw fmap_app. f_equal.
    generalize (expansion_pairs M') as l. intros l. induction l as [|p l IH]; [done|].
    by rw !bind_cons fmap_app IH.
  - intros M1 M2 [b1 n1] [b2 n2] Ho (Hp & HMo & Hn & Hs & Hr & Hown); cbn [fst snd] in *. subst n2.
    rw -Ho in Hd. specialize (Hown Hd). unfold generated_defaults. rw Hp.
    destruct (pm_profiles M2 !! n1) as [profile|]; [|done].
    destruct (prof_default_privileges profile); [done|].
    unfold normalize_owner, owner_or_default. cbn. by rw HMo Hs Hr Hown.
  - rw list_elem_of_fmap. setoid_rewrite list_elem_of_fmap. split.
    + intros (d' & -> & Hd'). unfold M in Hd'. rw (cd_manifest _ _ _ Hc) in Hd'.
      apply elem_of_parts_bind in Hd' as (pt & Hpt & Hd'). exists pt. split; [done|].
      exists d'. split; [apply Hnorm, HM|done].
    + intros (pt & Hpt & d' & -> & Hd'). exists d'. split; [symmetry; apply Hnorm, HM|].
      unfold M. rw (cd_manifest _ _ _ Hc). apply elem_of_parts_bind. by exists pt.
Qed.

Lemma composed_memberships m :
  m ∈ em_memberships (cp_expanded c) ↔ ∃ pt, pt ∈ parts ∧ m ∈ em_memberships (pt_expanded pt).
Proof.
  rw composed_expansion. cbn [em_memberships expanded_of]. unfold M. rw (cd_manifest _ _ _ Hc).
  cbn [pm_memberships with_manifest_schemas merged_manifest]. rw elem_of_parts_bind.
  split; intros (pt & Hpt & Hm); exists pt; (split; [done|]); [rw part_expansion //|rw part_expansion // in Hm].
Qed.
End composed.
