(* ===== verification/CompositionGraph.v ===== *)
(** * The composed graph ([composition.rs], [compose_bundle])

    The graph of a composed policy is the disjoint union of the graphs of its documents,
    and what a plan adds towards it stays within the change surface of the bundle. *)

From S2P Require Import Prelude BTree RustStr Types Manifest ManifestFacts Model Guc Change Diff.
From S2P Require Import DiffFacts DiffSafety Interp Converge Desired Ownership Composition CompositionFacts.

(** ** The union *)

(** An index names the one part that has a key. *)
Definition names_owner {K} `{Countable K} (index : gmap K string) (f : Part → list K)
    (parts : list Part) : Prop :=
  NoDup (parts ≫= f) ∧
  ∀ k l, index !! k = Some l ↔ ∃ pt, pt ∈ parts ∧ k ∈ f pt ∧ pt_label pt = l.

Lemma indexes_names_owner {K} `{Countable K} (m : gmap K string) (f : Part → list K) parts :
  indexes m f parts → names_owner m f parts.
Proof. intros [HN ->]. split; [done|]. intros k l. by apply owned_by_lookup. Qed.

Lemma one_part {K} `{Countable K} (f : Part → list K) parts p q k :
  NoDup (parts ≫= f) → p ∈ parts → q ∈ parts → k ∈ f p → k ∈ f q → p = q.
Proof.
  intros HN [i Hi]%list_elem_of_lookup [j Hj]%list_elem_of_lookup Hp Hq.
  assert (i = j) as -> by by eapply owned_once. congruence.
Qed.

Section composed.
Context {bundle : PolicyBundle} {parts : list Part} {c : ComposedPolicy} (Hc : composed bundle parts c).

Abbreviation owner := (sp_default_owner (pb_shared bundle)).

Lemma part_built pt : pt ∈ parts → built (pt_expanded pt) owner (pt_desired pt).
Proof. intros Hpt. apply from_expanded_built, (composed_part Hc pt Hpt). Qed.

Lemma composed_built : built (cp_expanded c) owner (cp_desired c).
Proof. apply from_expanded_built, (cd_desired _ _ _ Hc). Qed.

Lemma part_accepted pt :
  pt ∈ parts → accepted (document_manifest bundle (pt_fragment pt)) (pt_expanded pt).
Proof. intros Hpt. apply (expand_manifest_Ok _ _ (po_expanded _ _ (composed_part Hc pt Hpt))). Qed.

(** The union of maps whose keys have one part each. *)
Lemma union_of_entries {K} `{Countable K} (keys : Part → list K)
    (m : gmap K (gset Privilege)) (pm : Part → gmap K (gset Privilege)) (e : Ensure)
    (l : list (assertion K)) (pl : Part → list (assertion K)) :
  NoDup (parts ≫= keys) → entries_of m e l → (∀ pt, pt ∈ parts → entries_of (pm pt) e (pl pt)) →
  (∀ pt k, is_Some (pm pt !! k) → k ∈ keys pt) →
  (∀ a, a ∈ l ↔ ∃ pt, pt ∈ parts ∧ a ∈ pl pt) →
  ∀ k X, m !! k = Some X ↔ ∃ pt, pt ∈ parts ∧ pm pt !! k = Some X.
Proof.
  intros HN Hm Hpm Hkeys Hl k X.
  assert (∀ pt ps, pt ∈ parts → (k, e, ps) ∈ pl pt → k ∈ keys pt) as Hin.
  { intros pt ps Hpt Hps. apply Hkeys. by eapply asserted_present; [apply Hpm|]. }
  assert (∀ pt, pt ∈ parts → k ∈ keys pt → ∀ ps, (k, e, ps) ∈ l ↔ (k, e, ps) ∈ pl pt) as Hone.
  { intros pt Hpt Hk ps. rw Hl. split; [|by exists pt]. intros (pt' & Hpt' & Hps).
    by rw (one_part keys parts pt pt' k HN Hpt Hpt' Hk (Hin _ _ Hpt' Hps)). }
  split.
  - intros Hk. destruct (proj1 (Hm k X) Hk) as [(ps & (pt & Hpt & Hps)%Hl) _].
    exists pt. split; [done|]. rw -(entries_alike m (pm pt) e l (pl pt) k X Hm (Hpm pt Hpt)) //.
    apply Hone; [done|]. by eapply Hin.
  - intros (pt & Hpt & Hk). rw (entries_alike m (pm pt) e l (pl pt) k X Hm (Hpm pt Hpt)) //.
    apply Hone; [done|]. apply Hkeys. by eexists.
Qed.

Lemma composed_grant_assertions a :
  a ∈ grant_assertions (cp_expanded c) ↔ ∃ pt, pt ∈ parts ∧ a ∈ grant_assertions (pt_expanded pt).
Proof.
  unfold grant_assertions. rw list_elem_of_fmap. setoid_rewrite list_elem_of_fmap.
  setoid_rewrite (composed_grants Hc). naive_solver.
Qed.

Lemma elem_of_part_grants pt k :
  k ∈ part_grants pt ↔ is_Some (grants (pt_desired pt) !! k) ∨ is_Some (grant_absences (pt_desired pt) !! k).
Proof. unfold part_grants. by rw elem_of_set_iter elem_of_union !elem_of_dom. Qed.

Lemma elem_of_part_defaults pt k :
  k ∈ part_defaults pt ↔ is_Some (default_privileges (pt_desired pt) !! k) ∨
                         is_Some (default_privilege_absences (pt_desired pt) !! k).
Proof. unfold part_defaults. by rw elem_of_set_iter elem_of_union !elem_of_dom. Qed.

Lemma union_grants k X :
  grants (cp_desired c) !! k = Some X ↔ ∃ pt, pt ∈ parts ∧ grants (pt_desired pt) !! k = Some X.
Proof.
  apply (union_of_entries part_grants _ (λ pt, grants (pt_desired pt)) Ensure.Present
           (grant_assertions (cp_expanded c)) (λ pt, grant_assertions (pt_expanded pt))).
  - apply (cd_grants _ _ _ Hc).
  - apply (bu_grants _ _ _ composed_built).
  - intros pt Hpt. apply (bu_grants _ _ _ (part_built pt Hpt)).
  - intros pt k' Hk. apply elem_of_part_grants. by left.
  - apply composed_grant_assertions.
Qed.

Lemma union_grant_absences k X :
  grant_absences (cp_desired c) !! k = Some X ↔ ∃ pt, pt ∈ parts ∧ grant_absences (pt_desired pt) !! k = Some X.
Proof.
  apply (union_of_entries part_grants _ (λ pt, grant_absences (pt_desired pt)) Ensure.Absent
           (grant_assertions (cp_expanded c)) (λ pt, grant_assertions (pt_expanded pt))).
  - apply (cd_grants _ _ _ Hc).
  - apply (bu_grant_absences _ _ _ composed_built).
  - intros pt Hpt. apply (bu_grant_absences _ _ _ (part_built pt Hpt)).
  - intros pt k' Hk. apply elem_of_part_grants. by right.
  - apply composed_grant_assertions.
Qed.

Lemma union_roles name st :
  roles (cp_desired c) !! name = Some st ↔ ∃ pt, pt ∈ parts ∧ roles (pt_desired pt) !! name = Some st.
Proof.
  rw (bu_roles _ _ _ composed_built); [|apply (ac_roles _ _ (composed_accepted Hc))]. split.
  - intros (rd & (pt & Hpt & Hrd)%(composed_roles Hc) & Hn & Hst). exists pt. split; [done|].
    apply (bu_roles _ _ _ (part_built pt Hpt)); [apply (ac_roles _ _ (part_accepted pt Hpt))|by exists rd].
  - intros (pt & Hpt & Hst). apply (bu_roles _ _ _ (part_built pt Hpt)) in Hst as (rd & Hrd & Hn & Hst);
      [|apply (ac_roles _ _ (part_accepted pt Hpt))].
    exists rd. split; [|done]. apply (composed_roles Hc). by exists pt.
Qed.

Lemma union_memberships e :
  e ∈ memberships (cp_desired c) ↔ ∃ pt, pt ∈ parts ∧ e ∈ memberships (pt_desired pt).
Proof.
  rw (bu_memberships _ _ _ composed_built). split.
  - intros (m & spec & (pt & Hpt & Hm)%(composed_memberships Hc) & Hs & ->). exists pt. split; [done|].
    apply (bu_memberships _ _ _ (part_built pt Hpt)). by exists m, spec.
  - intros (pt & Hpt & He). apply (bu_memberships _ _ _ (part_built pt Hpt)) in He as (m & spec & Hm & Hs & ->).
    exists m, spec. split; [|done]. apply (composed_memberships Hc). by exists pt.
Qed.

(** With a default owner, default privileges and schemas are unions too. *)
Section default_owner.
Context (Hd : is_Some owner).

Lemma composed_default_assertions a :
  a ∈ default_assertions owner (cp_expanded c) ↔
  ∃ pt, pt ∈ parts ∧ a ∈ default_assertions owner (pt_expanded pt).
Proof.
  unfold default_assertions. rw list_elem_of_bind. setoid_rewrite list_elem_of_bind.
  setoid_rewrite (λ d, composed_defaults Hc d Hd). naive_solver.
Qed.

Lemma union_defaults k X :
  default_privileges (cp_desired c) !! k = Some X ↔
  ∃ pt, pt ∈ parts ∧ default_privileges (pt_desired pt) !! k = Some X.
Proof.
  apply (union_of_entries part_defaults _ (λ pt, default_privileges (pt_desired pt)) Ensure.Present
           (default_assertions owner (cp_expanded c)) (λ pt, default_assertions owner (pt_expanded pt))).
  - apply (cd_defaults _ _ _ Hc).
  - apply (bu_defaults _ _ _ composed_built).
  - intros pt Hpt. apply (bu_defaults _ _ _ (part_built pt Hpt)).
  - intros pt k' Hk. apply elem_of_part_defaults. by left.
  - apply composed_default_assertions.
Qed.

Lemma union_default_absences k X :
  default_privilege_absences (cp_desired c) !! k = Some X ↔
  ∃ pt, pt ∈ parts ∧ default_privilege_absences (pt_desired pt) !! k = Some X.
Proof.
  apply (union_of_entries part_defaults _ (λ pt, default_privilege_absences (pt_desired pt)) Ensure.Absent
           (default_assertions owner (cp_expanded c)) (λ pt, default_assertions owner (pt_expanded pt))).
  - apply (cd_defaults _ _ _ Hc).
  - apply (bu_default_absences _ _ _ composed_built).
  - intros pt Hpt. apply (bu_default_absences _ _ _ (part_built pt Hpt)).
  - intros pt k' Hk. apply elem_of_part_defaults. by right.
  - apply composed_default_assertions.
Qed.

Lemma composed_default_owner : pm_default_owner (cp_manifest c) = owner.
Proof. by rw (cd_manifest _ _ _ Hc). Qed.

Lemma composed_schema es :
  es ∈ em_schemas (cp_expanded c) ↔ ∃ pt, pt ∈ parts ∧ es ∈ em_schemas (pt_expanded pt).
Proof.
  rw (composed_expansion Hc). cbn [em_schemas expanded_of]. rw list_elem_of_fmap. split.
  - intros (b & -> & Hb%(elem_of_composed_schemas Hc)). pose proof (parts_merged Hc (sb_name b)) as Hm.
    rw Hb in Hm. destruct (bm_source _ _ _ Hm) as (x & Hx & Hxn).
    pose proof (merged_owner Hc x b Hd Hx) as Ho. rw Hxn in Ho. specialize (Ho Hb).
    apply elem_of_contributions in Hx as (pt & Hpt & Hf & Hxb). exists pt. split; [done|].
    rw (part_expansion Hc) //. cbn [em_schemas expanded_of]. apply list_elem_of_fmap. exists x.2. split; [|done].
    unfold expand_schema, owner_or_default. rw Hxn Ho composed_default_owner. done.
  - intros (pt & Hpt & Hes). rw (part_expansion Hc) // in Hes. cbn [em_schemas expanded_of] in Hes.
    apply list_elem_of_fmap in Hes as (b' & -> & Hb').
    assert ((pt_fragment pt, b') ∈ contributions parts) as Hx by (apply elem_of_contributions; by exists pt).
    pose proof (parts_merged Hc (sb_name b')) as Hm.
    destruct (merged_schemas parts !! sb_name b') as [b|] eqn:Hl; [|by apply Hm in Hx].
    pose proof (merged_owner Hc _ b Hd Hx Hl) as Ho. pose proof (bm_name _ _ _ Hm) as Hn.
    exists b. split; [|apply (elem_of_composed_schemas Hc); by rw Hn].
    unfold expand_schema, owner_or_default. cbn [snd] in Ho. rw Hn Ho composed_default_owner. done.
Qed.

Lemma union_schemas s st :
  schemas (cp_desired c) !! s = Some st ↔ ∃ pt, pt ∈ parts ∧ schemas (pt_desired pt) !! s = Some st.
Proof.
  rw (bu_schemas _ _ _ composed_built); [|apply (ac_schemas _ _ (composed_accepted Hc))]. split.
  - intros (es & (pt & Hpt & Hes)%composed_schema & Hn & Hst). exists pt. split; [done|].
    apply (bu_schemas _ _ _ (part_built pt Hpt)); [apply (ac_schemas _ _ (part_accepted pt Hpt))|by exists es].
  - intros (pt & Hpt & Hst). apply (bu_schemas _ _ _ (part_built pt Hpt)) in Hst as (es & Hes & Hn & Hst);
      [|apply (ac_schemas _ _ (part_accepted pt Hpt))].
    exists es. split; [|done]. apply composed_schema. by exists pt.
Qed.
End default_owner.
End composed.

