(* ===== verification/CompositionPlan.v ===== *)
(** * Plans of a composed policy stay in scope

    Everything a plan adds or alters towards the graph of a composed policy is within the
    change surface of the bundle, so [validate_changes_against_managed_surface] stops a
    plan only for what it takes away, or for a schema no document has in its scope. *)

From S2P Require Import Prelude BTree RustStr Types Manifest ManifestFacts Model Guc Change Diff.
From S2P Require Import DiffFacts DiffSafety Interp Converge Desired Ownership.
From S2P Require Import Composition CompositionFacts CompositionGraph.

(** ** Where the additions of a plan come from *)

Definition adds (c : Change) : bool :=
  match c with
  | Change.CreateRole _ _ | Change.AlterRole _ _ | Change.SetComment _ _
  | Change.CreateSchema _ (Some _) | Change.Grant _ _ _ _ _ | Change.SetDefaultPrivilege _ _ _ _ _
  | Change.AddMember _ _ _ _ | Change.UpdateMemberOptions _ _ _ _ _ _ => true
  | Change.AlterSchemaOwner _ owner | Change.EnsureSchemaOwnerPrivileges _ owner _ => negb (is_empty owner)
  | _ => false
  end.

(** The entry of the desired graph an addition serves. *)
Definition serves (current desired : RoleGraph) (c : Change) : Prop :=
  match c with
  | Change.CreateRole name _ | Change.AlterRole name _ | Change.SetComment name _ =>
      is_Some (roles desired !! name)
  | Change.CreateSchema name owner => ∃ st, schemas desired !! name = Some st ∧ ss_owner st = owner
  | Change.AlterSchemaOwner name owner | Change.EnsureSchemaOwnerPrivileges name owner _ =>
      ∃ st, schemas desired !! name = Some st ∧ ss_owner st = Some owner
  | Change.Grant role _ t s n =>
      ∃ k, is_Some (grants desired !! k) ∧
        (target_key role t s n = k ∨ target_key role t s n = resolve_key (routine_aliases current) k)
  | Change.SetDefaultPrivilege owner scope t grantee _ =>
      is_Some (default_privileges desired !!
        {| dk_owner := owner; dk_scope := scope; dk_on_type := t; dk_grantee := grantee |})
  | Change.AddMember r m _ _ | Change.UpdateMemberOptions r m _ _ _ _ =>
      ∃ e, e ∈ memberships desired ∧ me_role e = r ∧ me_member e = m
  | _ => True
  end.

Lemma resolve_map_keys aliases m k :
  is_Some (resolve_map aliases m !! k) → ∃ k0, is_Some (m !! k0) ∧ k = resolve_key aliases k0.
Proof.
  unfold resolve_map. intros Hk.
  assert (∀ l acc, is_Some (foldl (λ acc p, entry_extend (resolve_key aliases p.1) p.2 acc) acc l !! k) →
    is_Some (acc !! k) ∨ ∃ p : GrantKey * gset Privilege, p ∈ l ∧ k = resolve_key aliases p.1) as Hgen.
  { induction l as [|p l IH]; intros acc; cbn [foldl]; [by left|].
    intros [H|(q & Hq & ->)]%IH; [|right; exists q; split; [by right|done]].
    unfold entry_extend in H. destruct (decide (k = resolve_key aliases p.1)) as [->|Hne].
    - right. exists p. split; [left|done].
    - rw lookup_insert_ne // in H. by left. }
  apply Hgen in Hk as [[? Hk]|([k0 X] & Hp & ->)]; [by rw lookup_empty in Hk|].
  apply elem_of_map_iter in Hp. exists k0. split; [by eexists|done].
Qed.

Lemma aligned_grant_keys current desired k :
  is_Some (grants (aligned current desired) !! k) →
  ∃ k0, is_Some (grants desired !! k0) ∧ (k = k0 ∨ k = resolve_key (routine_aliases current) k0).
Proof.
  unfold aligned, resolve_routine_aliases. intros Hk.
  destruct (bool_decide _); [exists k; by split; [|left]|]. destruct (negb _); [exists k; by split; [|left]|].
  cbn [grants with_grant_maps] in Hk.
  destruct (resolve_map_keys _ _ _ Hk) as (k0 & Hk0 & Heq). exists k0. by split; [|right].
Qed.

Lemma aligned_rest current desired :
  roles (aligned current desired) = roles desired ∧ schemas (aligned current desired) = schemas desired ∧
  default_privileges (aligned current desired) = default_privileges desired ∧
  memberships (aligned current desired) = memberships desired.
Proof. unfold aligned, resolve_routine_aliases. destruct (bool_decide _); [done|]. by destruct (negb _). Qed.

Section origin.
Context (current desired : RoleGraph).

Lemma elem_of_membership_map k e :
  membership_map desired !! k = Some e → e ∈ memberships desired ∧ (me_role e, me_member e) = k.
Proof.
  unfold membership_map. intros Hk%map_collect_Some. apply list_elem_of_fmap in Hk as (e' & [= -> ->] & He).
  by apply elem_of_set_iter in He.
Qed.

Lemma role_changes_serve c :
  c ∈ (diff_roles current desired).1.1 ∨ c ∈ (diff_roles current desired).1.2 → serves current desired c.
Proof.
  unfold diff_roles; cbn [fst snd]. intros [Hc|Hc]; apply elem_of_bind_1 in Hc as ([name st] & Hn & Hc);
    apply elem_of_map_iter in Hn; unfold diff_role in Hc;
    destruct (roles current !! name); cbn [fst snd] in Hc; elem_inv Hc; subst; cbn; try by eexists.
  all: case_decide; elem_inv Hc; subst; cbn; by eexists.
Qed.

Lemma schema_changes_serve c :
  c ∈ (diff_schemas current desired).1 ∨ c ∈ (diff_schemas current desired).2 → serves current desired c.
Proof.
  unfold diff_schemas; cbn [fst snd].
  intros [([name st] & Hn%elem_of_map_iter & Hc)%elem_of_bind_1|([name st] & Hn%elem_of_map_iter & Hc)%elem_of_bind_1];
    unfold diff_schema in Hc; cbn [fst snd] in Hc.
  - destruct (schemas current !! name) as [cur|].
    + destruct (bool_decide _); [|by apply not_elem_of_nil in Hc].
      destruct (ss_owner st) as [o|] eqn:Ho; [|by apply not_elem_of_nil in Hc].
      apply list_elem_of_singleton in Hc as ->. by exists st.
    + apply list_elem_of_singleton in Hc as ->. by exists st.
  - destruct (ss_owner st) as [o|] eqn:Ho; [|by apply not_elem_of_nil in Hc].
    destruct (schemas current !! name) as [cur|]; [|by apply not_elem_of_nil in Hc].
    destruct (bool_decide (ss_owner cur ≠ Some o)), (bool_decide (_ = ∅));
      try (by apply not_elem_of_nil in Hc); apply list_elem_of_singleton in Hc as ->; by exists st.
Qed.

Lemma default_changes_serve c : c ∈ (diff_default_privileges current desired).1 → serves current desired c.
Proof.
  unfold diff_default_privileges. intros Hc.
  pose proof (default_present_out current ([], ∅) (map_iter (default_privileges desired))) as Hout.
  destruct (foldl _ _ _) as [out r]; cbn [fst snd] in *. subst. cbn [app] in Hc.
  apply elem_of_bind_1 in Hc as ([k X] & Hk%elem_of_map_iter & Hc). cbn [fst snd] in Hc.
  destruct (default_privileges current !! k); elem_inv Hc; subst; unfold change_set_default; cbn; destruct k; by eexists.
Qed.

Lemma member_adds_serve c : c ∈ (diff_memberships current desired).1 → serves current desired c.
Proof.
  unfold diff_memberships; cbn [fst]. intros Hc.
  apply elem_of_bind_1 in Hc as ([[r m] e] & Hk%elem_of_map_iter & Hc).
  apply elem_of_membership_map in Hk as [He [= <- <-]]. unfold diff_membership, then_some in Hc.
  destruct (_ !! _) as [ce|]; [|cbn [fst] in Hc; elem_inv Hc; subst; by exists e].
  destruct (_ || _); [|elem_inv Hc].
  destruct (_ !! _) as [X|]; [destruct (set_iter X)|]; cbn [fst] in Hc;
    destruct_ifs Hc; elem_inv Hc; subst; by exists e.
Qed.

Lemma member_removals_serve c :
  adds c → c ∈ (diff_memberships current desired).2 → serves current desired c.
Proof.
  intros Ha (r & m & [Hc|(ce & de & g & _ & Hde & Hc)])%elem_of_membership_removal.
  - by apply elem_of_remove_all in Hc as (g & -> & _).
  - apply elem_of_option_reduction in Hc as (i & a & -> & _).
    apply elem_of_membership_map in Hde as [He [= <- <-]]. by exists de.
Qed.
End origin.

(** Every addition of a plan serves an entry of the desired graph. *)
Lemma additions_serve current desired c : adds c → c ∈ diff current desired → serves current desired c.
Proof.
  intros Ha Hc. destruct (aligned_rest current desired) as (Hr & Hs & Hd & Hm).
  assert (match c with Change.Grant _ _ _ _ _ => False | _ => True end →
    serves current (aligned current desired) c → serves current desired c) as Hback.
  { unfold serves. rw Hr Hs Hd Hm. by destruct c. }
  apply elem_of_diff in Hc.
  destruct Hc as [Hc|[Hc|[Hc|[Hc|[Hc|[Hc|[[Hc _]|[Hc|[Hc|[Hc|Hc]]]]]]]]]].
  - apply Hback; [apply emits_creates in Hc; by destruct c|apply role_changes_serve; by left].
  - apply Hback; [apply emits_alters in Hc; by destruct c|apply role_changes_serve; by right].
  - apply Hback; [apply emits_schema_changes in Hc; by destruct c|apply schema_changes_serve; by left].
  - apply Hback; [apply emits_schema_grants in Hc; by destruct c|apply schema_changes_serve; by right].
  - unfold diff_grants in Hc. rw diff_grants_state_eq /= in Hc.
    apply elem_of_bind_1 in Hc as ([k X] & Hk%elem_of_map_iter & Hc). unfold present_missing in Hc; cbn [fst snd] in Hc.
    destruct (aligned_grant_keys current desired k) as (k0 & Hk0 & Hor); [by eexists|].
    assert (∃ Y, c = change_grant k Y) as [Y ->].
    { destruct (grants current !! k); [case_bool_decide|]; elem_inv Hc; by eexists. }
    exists k0. split; [done|]. by destruct k.
  - apply Hback; [apply emits_set_defaults in Hc; by destruct c|by apply default_changes_serve].
  - apply emits_revokes in Hc. by destruct c.
  - apply Hback; [apply emits_member_removals in Hc; by destruct c|by apply member_removals_serve].
  - apply Hback; [apply emits_member_adds in Hc; by destruct c|by apply member_adds_serve].
  - apply emits_revoke_defaults in Hc. by destruct c.
  - apply emits_drops in Hc. by destruct c.
Qed.

(** ** The surface of a composed policy *)

Section composed.
Context {bundle : PolicyBundle} {parts : list Part} {c : ComposedPolicy} (Hc : composed bundle parts c).

Abbreviation surface := (cp_managed_change_surface c).
Abbreviation owner := (sp_default_owner (pb_shared bundle)).

Lemma indexed_key {K} `{Countable K} (m : gmap K string) (f : Part → list K) pt k :
  indexes m f parts → pt ∈ parts → k ∈ f pt → is_Some (m !! k).
Proof. intros [_ ->] Hpt Hk. apply owned_by_keys. by eapply elem_of_bind_2. Qed.

Lemma surface_bindings pt s :
  pt ∈ parts → facet_of SchemaBindingFacet.Bindings s ∈ part_facets pt → s ∈ mcs_binding_schemas surface.
Proof.
  intros Hpt Hs. rw (cd_surface _ _ _ Hc). cbn [mcs_binding_schemas managed_change_surface].
  rw elem_of_facet_schemas elem_of_map_keys. by eapply indexed_key; [apply (cd_facets _ _ _ Hc)|..].
Qed.

Lemma surface_owners pt s :
  pt ∈ parts → facet_of SchemaBindingFacet.Owner s ∈ part_facets pt → s ∈ mcs_owner_schemas surface.
Proof.
  intros Hpt Hs. rw (cd_surface _ _ _ Hc). cbn [mcs_owner_schemas managed_change_surface].
  rw elem_of_facet_schemas elem_of_map_keys. by eapply indexed_key; [apply (cd_facets _ _ _ Hc)|..].
Qed.

Lemma surface_role name : is_Some (roles (cp_desired c) !! name) → name ∈ mcs_roles surface.
Proof.
  intros [st (pt & Hpt & Hst)%(union_roles Hc)].
  apply (bu_roles _ _ _ (part_built Hc pt Hpt)) in Hst as (rd & Hrd & <- & _);
    [|apply (ac_roles _ _ (part_accepted Hc pt Hpt))].
  rw (cd_surface _ _ _ Hc). cbn [mcs_roles managed_change_surface]. apply elem_of_map_keys_set.
  eapply indexed_key; [apply (cd_roles _ _ _ Hc)|done|]. unfold part_roles.
  apply elem_of_app. left. by apply list_elem_of_fmap_2.
Qed.

Lemma surface_grant pt k : pt ∈ parts → k ∈ part_grants pt → k ∈ mcs_explicit_grants surface.
Proof.
  intros Hpt Hk. rw (cd_surface _ _ _ Hc). cbn [mcs_explicit_grants managed_change_surface].
  apply elem_of_map_keys_set. by eapply indexed_key; [apply (cd_grants _ _ _ Hc)|..].
Qed.

Lemma surface_membership e :
  e ∈ memberships (cp_desired c) → membership_key_of e ∈ mcs_explicit_memberships surface.
Proof.
  intros (pt & Hpt & He)%(union_memberships Hc). rw (cd_surface _ _ _ Hc).
  cbn [mcs_explicit_memberships managed_change_surface]. apply elem_of_map_keys_set.
  eapply indexed_key; [apply (cd_memberships _ _ _ Hc)|done|]. unfold part_memberships.
  apply list_elem_of_fmap_2. by apply elem_of_set_iter.
Qed.

(** A binding with profiles brings its schema into scope. *)
Lemma pair_scope pt p :
  pt ∈ parts → p ∈ expansion_pairs (document_manifest bundle (pt_fragment pt)) →
  facet_of SchemaBindingFacet.Bindings (sb_name p.1) ∈ part_facets pt.
Proof.
  intros Hpt [Hb Hn]%elem_of_expansion_pairs.
  apply (proj1 (part_binding_scope bundle pt (composed_part Hc pt Hpt) p.1 Hb)).
  by eapply declares_profiles.
Qed.

(** So does a grant on a routine of the schema. *)
Lemma routine_grant_scope pt k s :
  pt ∈ parts → is_Some (grants (pt_desired pt) !! k) →
  gk_object_type k = ObjectType.Function → gk_schema k = Some s →
  facet_of SchemaBindingFacet.Bindings s ∈ part_facets pt.
Proof.
  intros Hpt [X Hk] Ht Hs.
  apply (bu_grants _ _ _ (part_built Hc pt Hpt)) in Hk as [(ps & Hps) _].
  apply list_elem_of_fmap in Hps as (g & [= -> _ _] & Hg).
  rw (part_expansion Hc) // in Hg. cbn [em_grants expanded_of] in Hg.
  apply elem_of_app in Hg as [(p & Hp & Hg)%elem_of_bind_1|Hg].
  - pose proof (pair_scope pt p Hpt Hp) as Hscope. destruct p as [b n]. unfold generated_grants in Hg.
    destruct (_ !! n) as [profile|]; [|by apply not_elem_of_nil in Hg].
    apply list_elem_of_fmap in Hg as (pg & -> & _). cbn in Ht, Hs, Hscope. unfold profile_target in Ht, Hs.
    destruct (pot_object_type (pg_object pg)); cbn in Ht, Hs; try discriminate Ht. injection Hs as <-. exact Hscope.
  - apply (part_grant_scope bundle pt (composed_part Hc pt Hpt) g s Hg).
    unfold schema_name_for_grant. cbn in Ht, Hs. rw Ht. exact Hs.
Qed.

Lemma resolved_grant_allowed pt k aliases :
  pt ∈ parts → is_Some (grants (pt_desired pt) !! k) →
  allows_grant_change surface (resolve_key aliases k).
Proof.
  intros Hpt Hk. unfold allows_grant_change. case_bool_decide as Hex; [done|].
  destruct (decide (gk_object_type k = ObjectType.Function ∧ is_Some (gk_schema k))) as [[Ht [s Hs]]|Hno].
  - pose proof (surface_bindings pt s Hpt (routine_grant_scope pt k s Hpt Hk Ht Hs)) as Hin.
    assert (gk_object_type (resolve_key aliases k) = ObjectType.Function ∧
            gk_schema (resolve_key aliases k) = Some s) as [Ht' Hs'].
    { clear -Ht Hs. destruct k as [r t sc n]; cbn in *. subst. unfold resolve_key; cbn.
      destruct n; [destruct (aliases !! _)|]; done. }
    unfold grant_schema_name. rw Ht' Hs'. cbn. by rw bool_decide_true.
  - assert (resolve_key aliases k = k) as Hsame.
    { unfold resolve_key. destruct (gk_object_type k) eqn:Ht; try done.
      destruct (gk_schema k) eqn:Hs; [|done]. destruct Hno. split; [done|by eexists]. }
    rw Hsame in Hex. destruct Hex. eapply surface_grant; [done|]. apply elem_of_part_grants. by left.
Qed.

(** The owner of a composed schema was declared in scope. *)
Lemma schema_owner_scope name st o :
  schemas (cp_desired c) !! name = Some st → ss_owner st = Some o → name ∈ mcs_owner_schemas surface.
Proof.
  intros Hst Ho. apply (bu_schemas _ _ _ (composed_built Hc)) in Hst as (es & Hes & Hn & Hst);
    [|apply (ac_schemas _ _ (composed_accepted Hc))].
  rw (composed_expansion Hc) in Hes. cbn [em_schemas expanded_of] in Hes.
  apply list_elem_of_fmap in Hes as (b & -> & Hb%(elem_of_composed_schemas Hc)).
  rw -Hst in Ho. cbn in Hn, Ho. subst name. pose proof (parts_merged Hc (sb_name b)) as Hm. rw Hb in Hm.
  assert (∃ x, x ∈ contributions parts ∧ sb_name x.2 = sb_name b ∧ manages_owner bundle x.2) as (x & Hx & Hxn & Hxm).
  { unfold owner_or_default in Ho. unfold manages_owner. destruct (sb_owner b) as [o'|] eqn:Hbo.
    - destruct (proj1 (bm_owner _ _ _ Hm o') Hbo) as (x & Hx & Hxn & Hxo). exists x. by rw Hxo.
    - rw (composed_default_owner Hc) in Ho. destruct (bm_source _ _ _ Hm) as (x & Hx & Hxn).
      exists x. split; [done|]. split; [done|]. rw Ho. by rw orb_true_r. }
  apply elem_of_contributions in Hx as (pt & Hpt & _ & Hxb). rw -Hxn. apply (surface_owners pt); [done|].
  exact (proj2 (part_binding_scope bundle pt (composed_part Hc pt Hpt) x.2 Hxb) Hxm).
Qed.
Lemma composed_default_in_scope k :
  is_Some (default_privileges (cp_desired c) !! k) → allows_default_privilege_change surface k.
Proof.
  intros [X Hk]. apply (bu_defaults _ _ _ (composed_built Hc)) in Hk as [(ps & Hps) _].
  unfold default_assertions in Hps. apply elem_of_bind_1 in Hps as (d & Hd & Hps).
  destruct (resolved_scope d) as [scope| |] eqn:Hscope; try by apply not_elem_of_nil in Hps.
  apply elem_of_bind_1 in Hps as (g & Hg & Hps).
  destruct (dpg_role g) as [r|] eqn:Hr; [|by apply not_elem_of_nil in Hps].
  apply list_elem_of_singleton in Hps as [= -> He Hp].
  rw (composed_expansion Hc) in Hd. cbn [em_default_privileges expanded_of] in Hd.
  apply list_elem_of_fmap in Hd as (d0 & -> & Hd).
  unfold allows_default_privilege_change. case_bool_decide as Hex; [done|]. cbn [dk_scope dk_owner default_key].
  assert (∀ pt s, pt ∈ parts → scope = DefaultPrivilegeScope.Schema s →
    facet_of SchemaBindingFacet.Bindings s ∈ part_facets pt →
    match scope with
    | DefaultPrivilegeScope.Global =>
        bool_decide (default_owner_of (normalize_owner (cp_manifest c) d0) owner ∈ mcs_roles surface)
    | DefaultPrivilegeScope.Schema schema => bool_decide (schema ∈ mcs_binding_schemas surface)
    end) as Hin.
  { intros pt s Hpt -> Hs. apply bool_decide_pack. by eapply surface_bindings. }
  apply elem_of_app in Hd as [(p & Hp' & Hd)%elem_of_bind_1|Hd].
  - destruct (composed_pair Hc p Hp') as (pt & p' & Hpt & Hpp & (_ & _ & _ & Hs & _)).
    apply (Hin pt (sb_name p'.1)); [done| |by apply (pair_scope pt p' Hpt)].
    rw -Hs. destruct p as [b n]. unfold generated_defaults in Hd.
    destruct (_ !! n) as [profile|]; [|by apply not_elem_of_nil in Hd].
    destruct (prof_default_privileges profile); [by apply not_elem_of_nil in Hd|].
    apply list_elem_of_singleton in Hd as ->. cbn in Hscope. by injection Hscope as <-.
  - rw (cd_manifest _ _ _ Hc) in Hd. cbn [pm_default_privileges with_manifest_schemas merged_manifest] in Hd.
    apply elem_of_parts_bind in Hd as (pt & Hpt & Hd).
    destruct scope as [|s] eqn:Hsc.
    + exfalso. apply Hex. rw (cd_surface _ _ _ Hc).
      cbn [mcs_explicit_default_privileges managed_change_surface]. apply elem_of_map_keys_set.
      eapply indexed_key; [apply (cd_defaults _ _ _ Hc)|done|]. apply elem_of_part_defaults.
      set (k := default_key _ _ _ _).
      assert ((k, dpg_ensure g, dpg_privileges g) ∈ default_assertions owner (pt_expanded pt)) as Hass.
      { unfold default_assertions. rw (part_expansion Hc) //. cbn [em_default_privileges expanded_of].
        apply (elem_of_bind_2 _ _ (normalize_owner (document_manifest bundle (pt_fragment pt)) d0)).
        - apply list_elem_of_fmap_2, elem_of_app. by right.
        - assert (resolved_scope (normalize_owner (document_manifest bundle (pt_fragment pt)) d0) =
                  Ok DefaultPrivilegeScope.Global) as ->.
          { revert Hscope. unfold resolved_scope, normalize_owner; cbn.
            destruct (dp_schema d0), (dp_scope d0) as [[[] []]|]; done. }
          apply (elem_of_bind_2 _ _ g); [done|]. rw Hr. apply list_elem_of_singleton. f_equal. f_equal.
          unfold k, normalize_owner, owner_or_default. by rw (composed_default_owner Hc). }
      pose proof (part_built Hc pt Hpt) as Hb.
      left. rw -He in Hass. by eapply asserted_present; [apply (bu_defaults _ _ _ Hb)|].
    + apply (Hin pt s); [done..|]. apply (part_default_scope bundle pt (composed_part Hc pt Hpt) d0 s Hd).
      revert Hscope. unfold resolved_scope, normalize_owner; cbn.
      destruct (dp_schema d0), (dp_scope d0) as [[[] []]|]; done.
Qed.

Lemma served_allowed current a : adds a → serves current (cp_desired c) a → allows_change surface a.
Proof.
  intros Ha Hs. destruct a; cbn [serves allows_change] in *; try done.
  all: try (apply bool_decide_pack; by apply surface_role).
  - destruct Hs as (st & Hst & Ho). destruct owner as [o|]; [|done].
    rw (bool_decide_true (name ∈ mcs_owner_schemas surface)) //. by eapply schema_owner_scope.
  - destruct Hs as (st & Hst & Ho). cbn in Ha. rw bool_decide_true //. by eapply schema_owner_scope.
  - destruct Hs as (st & Hst & Ho). cbn in Ha. rw bool_decide_true //. by eapply schema_owner_scope.
  - destruct Hs as (k & [X (pt & Hpt & HX)%(union_grants Hc)] & Hor). fold (target_key role object_type schema name).
    destruct Hor as [->| ->].
    + unfold allows_grant_change. rw bool_decide_true //. eapply surface_grant; [done|].
      apply elem_of_part_grants. left. by eexists.
    + by eapply resolved_grant_allowed; [|eexists].
  - by apply composed_default_in_scope.
  - destruct Hs as (e & He & <- & <-). unfold allows_membership_change.
    apply surface_membership in He. unfold membership_key_of in He. rw (bool_decide_true _ He). by rw orb_true_r.
  - destruct Hs as (e & He & <- & <-). unfold allows_membership_change.
    apply surface_membership in He. unfold membership_key_of in He. rw (bool_decide_true _ He). by rw orb_true_r.
Qed.
End composed.

(** what a plan adds or alters towards a composed policy (roles and their attributes
    and comments, schemas with an owner, schema owners and their privileges, grants,
    default privileges, memberships and their options) is within the change surface of the
    bundle, whatever the current state of the database and its routine aliases. *)
Theorem composed_additions_allowed (bundle : PolicyBundle) (documents : list PolicyDocument)
    (c : ComposedPolicy) (current : RoleGraph) (change : Change) :
  compose_bundle bundle documents = Ok c →
  change ∈ diff current (cp_desired c) → adds change →
  allows_change (cp_managed_change_surface c) change = true.
Proof.
  intros (parts & _ & Hc)%compose_bundle_Ok Hin Ha. apply Is_true_true.
  eapply served_allowed; [done..|by apply additions_serve].
Qed.

