(* ===== verification/CompositionWitnesses.v ===== *)
(** * A bundle

    The properties of composition at a bundle of two documents, and three bundles that
    show where the index and the surface fall short of the composed graph. *)

From S2P Require Import Prelude BTree RustStr Types Manifest ManifestFacts Model Guc Change Diff.
From S2P Require Import DiffSafety Interp Ownership Composition CompositionFacts CompositionGraph CompositionPlan.
From S2P Require Import ManifestFacts Convergence Desired ManifestWitnesses.

Module BundleScene.

Definition bundle : PolicyBundle := {|
  pb_shared := {| sp_role_pattern := None; sp_default_owner := None; sp_auth_providers := [];
                  sp_profiles := {[ "editor" := ManifestScene.editor ]} |};
  pb_sources := [{| bs_file := "platform.yaml" |}; {| bs_file := "app.yaml" |}] |}.

Definition document (source : string) (name : option string) (scoped_roles : list string)
    (scoped_schemas : list ScopedSchema) (schemas : list SchemaBinding) (roles : list RoleDefinition)
    (grants : list Grant) (memberships : list Membership) : PolicyDocument := {|
  pd_source := source;
  pd_fragment := {|
    pf_role_pattern := None; pf_policy := {| fm_name := name |};
    pf_scope := {| fs_roles := scoped_roles; fs_schemas := scoped_schemas |};
    pf_schemas := schemas; pf_roles := roles; pf_grants := grants; pf_default_privileges := [];
    pf_memberships := memberships; pf_retirements := [] |} |}.

Definition members (role member : string) (exclusive : bool) : Membership := {|
  mb_role := role; mb_members := [{| ms_name := member; ms_inherit := None; ms_admin := None |}];
  mb_exclusive := exclusive |}.

(** The platform owns the schema and the roles. *)
Definition platform : PolicyDocument :=
  document "platform.yaml" (Some "platform") ["owner"; "app"]
    [{| scs_name := "shop"; scs_facets := [SchemaBindingFacet.Owner] |}]
    [{| sb_name := "shop"; sb_profiles := []; sb_role_pattern := None; sb_owner := Some "owner" |}]
    [ManifestScene.plain_role "owner"; ManifestScene.plain_role "app"] [] [].

(** The application binds a profile to it. *)
Definition app : PolicyDocument :=
  document "app.yaml" (Some "app") []
    [{| scs_name := "shop"; scs_facets := [SchemaBindingFacet.Bindings] |}]
    [ManifestScene.bind_schema "shop" ["editor"] None] []
    [ManifestScene.grant_on "app" Ensure.Present ObjectType.Table (Some "shop") (Some "orders") [Privilege.Select]]
    [members "shop-editor" "app" false].

Definition documents : list PolicyDocument := [platform; app].

Definition result (r : res CompositionError ComposedPolicy) : ComposedPolicy :=
  match r with
  | Ok c => c
  | _ => {| cp_manifest := ManifestScene.shop; cp_expanded := ManifestScene.expanded;
            cp_desired := role_graph_default; cp_ownership := ownership_default;
            cp_managed_scope := managed_scope ownership_default;
            cp_managed_change_surface := managed_change_surface ownership_default |}
  end.

Definition composed_policy : ComposedPolicy := result (compose_bundle bundle documents).

(** A document that lists a schema and asserts nothing about it. *)
Definition bare : PolicyDocument :=
  document "bare.yaml" None [] [] [ManifestScene.bind_schema "audit" [] None] [] [] [].

(** Two documents of one name. *)
Definition first_members : PolicyDocument :=
  document "a.yaml" (Some "team") [] [] [] [] [] [members "pg_monitor" "alice" true].
Definition second_members : PolicyDocument :=
  document "b.yaml" (Some "team") [] [] [] [] [] [members "pg_monitor" "bob" false].
Definition other_members : PolicyDocument :=
  document "b.yaml" (Some "other") [] [] [] [] [] [members "pg_monitor" "bob" false].
End BundleScene.

Import BundleScene.

Definition is_ok {E A} (r : res E A) : bool := match r with Ok _ => true | _ => false end.

Lemma result_Ok r : is_ok r = true → r = Ok (result r).
Proof. by destruct r. Qed.

Lemma bundle_composes : compose_bundle bundle documents = Ok composed_policy.
Proof. apply result_Ok. vm_compute. reflexivity. Qed.

Lemma composed_additions_allowed_witness :
  existsb adds (diff role_graph_default (cp_desired composed_policy)) = true ∧
  ∀ change, change ∈ diff role_graph_default (cp_desired composed_policy) → adds change →
    allows_change (cp_managed_change_surface composed_policy) change = true.
Proof.
  split; [vm_compute; reflexivity|]. intros change.
  exact (composed_additions_allowed bundle documents composed_policy role_graph_default change bundle_composes).
Defined.


(** The plan of the bundle validates, executes and stays in its surface. *)
Lemma validated_plan_stays_in_surface_witness :
  ∃ g, apply_changes role_graph_default (diff role_graph_default (cp_desired composed_policy)) = Some g ∧
    same_outside (cp_managed_change_surface composed_policy) role_graph_default g.
Proof.
  assert (is_some (apply_changes role_graph_default
            (diff role_graph_default (cp_desired composed_policy))) = true) as Hsome
    by (vm_compute; reflexivity).
  destruct (apply_changes role_graph_default (diff role_graph_default (cp_desired composed_policy)))
    as [g|] eqn:Hg; [|discriminate Hsome].
  exists g. split; [reflexivity|].
  refine (validated_plan_stays_in_surface _ _ _ _ _ Hg). vm_compute. reflexivity.
Defined.

(** A schema listed without a scope composes, and then no plan that creates it validates. *)
Lemma bare_schema_out_of_scope :
  let c := result (compose_bundle bundle [bare]) in
  is_ok (compose_bundle bundle [bare]) = true ∧
  diff role_graph_default (cp_desired c) = [Change.CreateSchema "audit" None] ∧
  validate_changes_against_managed_surface (diff role_graph_default (cp_desired c))
    (cp_managed_change_surface c) =
  Err (ManagedChangeError.OutOfScope ("create schema " +:+ dq "audit")).
Proof. vm_compute. done. Qed.

(** Without a default owner, the default privileges of a profile are indexed under
    [postgres] while the composed graph has them under the owner another document names. *)
Lemma split_owner_misindexed :
  let key owner := {| dk_owner := owner; dk_scope := DefaultPrivilegeScope.Schema "shop";
                      dk_on_type := ObjectType.Table; dk_grantee := Grantee.Role "shop-editor" |} in
  oi_default_privileges (cp_ownership composed_policy) !! key "postgres" = Some "app" ∧
  oi_default_privileges (cp_ownership composed_policy) !! key "owner" = None ∧
  default_privileges (cp_desired composed_policy) !! key "owner" = Some {[Privilege.Select]} ∧
  default_privileges (cp_desired composed_policy) !! key "postgres" = None.
Proof. vm_compute. done. Qed.

(** The exclusive-membership check compares names of documents: two documents of one name
    share an exclusive list, two of different names do not. *)
Lemma shared_name_splits_exclusive :
  is_ok (compose_bundle bundle [first_members; second_members]) = true ∧
  compose_bundle bundle [first_members; other_members] =
    Err (CompositionError.ExclusiveMembershipSplit "pg_monitor" "team" "other").
Proof. vm_compute. done. Qed.
