(* ===== verification/Export.v ===== *)
(** * Export of a role graph ([export.rs])

    A role graph written out as a flat manifest.  Read back, the manifest gives the graph
    again, and planning the graph towards it finds nothing to do. *)

From S2P Require Import Prelude BTree RustStr Types Guc Model Change Diff DiffFacts DiffSafety Interp Converge Convergence Manifest ManifestFacts Desired ManifestWitnesses.

(** ** The export *)

(** [if state.x != defaults.x { Some(state.x) } else { None }] *)
Definition unless_default {A} `{EqDecision A} (value default : A) : option A :=
  if bool_decide (value ≠ default) then Some value else None.

Definition role_definition_of (p : string * RoleState) : RoleDefinition :=
  let '(name, state) := p in
  let defaults := role_state_default in {|
    rd_name := name; rd_external := false; rd_preserve_undeclared_grants := false;
    rd_login := unless_default (rs_login state) (rs_login defaults);
    rd_superuser := unless_default (rs_superuser state) (rs_superuser defaults);
    rd_createdb := unless_default (rs_createdb state) (rs_createdb defaults);
    rd_createrole := unless_default (rs_createrole state) (rs_createrole defaults);
    rd_inherit := unless_default (rs_inherit state) (rs_inherit defaults);
    rd_replication := unless_default (rs_replication state) (rs_replication defaults);
    rd_bypassrls := unless_default (rs_bypassrls state) (rs_bypassrls defaults);
    rd_connection_limit := unless_default (rs_connection_limit state) (rs_connection_limit defaults);
    rd_comment := rs_comment state;
    rd_password := None;
    rd_password_valid_until := rs_password_valid_until state;
    rd_config := map_collect (map_iter (rs_config state)) |}.

Definition grant_of (p : GrantKey * GrantState) : Grant := {|
  gr_role := grantee_as_str (gk_role p.1);
  gr_privileges := set_iter p.2;
  gr_object := {| ot_object_type := gk_object_type p.1; ot_schema := gk_schema p.1; ot_name := gk_name p.1 |};
  gr_ensure := Ensure.Present |}.

Definition binding_of (p : string * SchemaState) : SchemaBinding := {|
  sb_name := p.1; sb_profiles := []; sb_role_pattern := None; sb_owner := ss_owner p.2 |}.

(** [map.entry(k).or_default().push(v)] *)
Definition entry_push {K V} `{Countable K} (m : gmap K (list V)) (k : K) (v : V) : gmap K (list V) :=
  <[k := default [] (m !! k) ++ [v]]> m.

Definition default_group (p : DefaultPrivKey * DefaultPrivState) :
    string * DefaultPrivilegeScope * DefaultPrivilegeGrant :=
  (dk_owner p.1, dk_scope p.1,
   {| dpg_role := Some (grantee_as_str (dk_grantee p.1)); dpg_privileges := set_iter p.2;
      dpg_on_type := dk_on_type p.1; dpg_ensure := Ensure.Present |}).

Definition default_of_group (p : string * DefaultPrivilegeScope * list DefaultPrivilegeGrant) :
    DefaultPrivilege :=
  let '(owner, scope, grant) := p in
  let '(schema, spec) :=
    match scope with
    | DefaultPrivilegeScope.Schema schema => (Some schema, None)
    | DefaultPrivilegeScope.Global =>
        (None, Some {| dps_scope_type := DefaultPrivilegeScopeType.Global; dps_schema := None |})
    end in
  {| dp_owner := Some owner; dp_schema := schema; dp_scope := spec; dp_grant := grant |}.

Definition member_of (e : MembershipEdge) : string * MemberSpec :=
  (me_role e,
   {| ms_name := me_member e; ms_inherit := if me_inherit e then None else Some false;
      ms_admin := if me_admin e then Some true else None |}).

Definition membership_of (p : string * list MemberSpec) : Membership := {|
  mb_role := p.1; mb_members := p.2; mb_exclusive := false |}.

Definition grouped {K V} `{Countable K} (l : list (K * V)) : gmap K (list V) :=
  foldl (λ m p, entry_push m p.1 p.2) ∅ l.

Definition role_graph_to_manifest (graph : RoleGraph) : PolicyManifest := {|
  pm_role_pattern := None; pm_default_owner := None; pm_auth_providers := []; pm_profiles := ∅;
  pm_schemas := binding_of <$> map_iter (schemas graph);
  pm_roles := role_definition_of <$> map_iter (roles graph);
  pm_grants := grant_of <$> filter (λ p, p.1 ∉ inherent_grants graph) (map_iter (grants graph));
  pm_default_privileges :=
    default_of_group <$> map_iter (grouped (default_group <$> map_iter (default_privileges graph)));
  pm_memberships := membership_of <$> map_iter (grouped (member_of <$> set_iter (memberships graph)));
  pm_retirements := [] |}.

(** ** Grouping *)

Lemma elem_of_grouped {K V} `{Countable K} (l : list (K * V)) k vs v :
  grouped l !! k = Some vs → v ∈ vs ↔ (k, v) ∈ l.
Proof.
  unfold grouped. intros Hk.
  assert (∀ m, v ∈ default [] (foldl (λ m p, entry_push m p.1 p.2) m l !! k) ↔
               v ∈ default [] (m !! k) ∨ (k, v) ∈ l) as Hgen.
  { clear Hk. induction l as [|[k' v'] l IH]; intros m; cbn [foldl fst snd].
    - split; [by left|by intros [?|?%not_elem_of_nil]].
    - rw IH elem_of_cons. unfold entry_push. destruct (decide (k' = k)) as [->|Hne].
      + rw lookup_insert_eq. cbn [default]. rw elem_of_app list_elem_of_singleton.
        split; [intros [[?| ->]|?]; auto|intros [?|[[= ->]|?]]; auto].
      + rw lookup_insert_ne //. split; [intros [?|?]; auto|intros [?|[[= -> _]|?]]; auto; done]. }
  specialize (Hgen ∅). rw Hk lookup_empty in Hgen. cbn in Hgen. rw Hgen. split; [|by right].
  by intros [?%not_elem_of_nil|?].
Qed.

Lemma grouped_key {K V} `{Countable K} (l : list (K * V)) k v :
  (k, v) ∈ l → is_Some (grouped l !! k).
Proof.
  unfold grouped. generalize (∅ : gmap K (list V)).
  assert (∀ m, (is_Some (m !! k) ∨ (k, v) ∈ l) → is_Some (foldl (λ m p, entry_push m p.1 p.2) m l !! k)) as Hgen.
  { induction l as [|[k' v'] l IH]; intros m Hor; cbn [foldl fst snd].
    - by destruct Hor as [?|?%not_elem_of_nil].
    - apply IH. unfold entry_push. destruct (decide (k' = k)) as [->|Hne].
      + left. rw lookup_insert_eq. by eexists.
      + rw lookup_insert_ne //. destruct Hor as [?|[[= <- _]|?]%elem_of_cons]; [by left|done|by right]. }
  intros m Hin. apply Hgen. by right.
Qed.

(** The groups cover the pairs. *)
Lemma elem_of_groups {K V} `{Countable K, Ord K} (l : list (K * V)) k v :
  (∃ vs, (k, vs) ∈ map_iter (grouped l) ∧ v ∈ vs) ↔ (k, v) ∈ l.
Proof.
  split.
  - intros (vs & Hk%elem_of_map_iter & Hv). by apply (elem_of_grouped l k vs v Hk).
  - intros Hin. destruct (grouped_key l k v Hin) as [vs Hvs]. exists vs.
    split; [by apply elem_of_map_iter|]. by apply (elem_of_grouped l k vs v Hvs).
Qed.

(** ** Reading the export back *)

(** A name of a role is not the keyword for everyone. *)
Definition plain_grantee (r : Grantee) : Prop := r ≠ Grantee.Role PUBLIC_ROLE.

(** What inspection gives: settings in canonical form, and [PUBLIC] only as everyone. *)
Record exportable (g : RoleGraph) : Prop := {
  ex_config : ∀ name st, roles g !! name = Some st →
    map_collect (normalize_config_entry <$> map_iter (rs_config st)) = rs_config st;
  ex_grantees : ∀ k X, grants g !! k = Some X → plain_grantee (gk_role k);
  ex_default_grantees : ∀ k X, default_privileges g !! k = Some X → plain_grantee (dk_grantee k);
}.

Lemma unless_default_read {A} `{EqDecision A} (value d : A) : default d (unless_default value d) = value.
Proof. unfold unless_default. case_bool_decide as H; [done|]. cbn. by destruct (decide (value = d)). Qed.

Lemma map_collect_iter {V} (m : gmap string V) : map_collect (map_iter m) = m.
Proof.
  apply map_eq. intros k. apply option_eq. intros v. split.
  - intros Hk%map_collect_Some. by apply elem_of_map_iter in Hk.
  - intros Hk. apply map_collect_lookup; [|by apply elem_of_map_iter].
    intros v' Hv%elem_of_map_iter. congruence.
Qed.

Lemma role_definition_read name st :
  map_collect (normalize_config_entry <$> map_iter (rs_config st)) = rs_config st →
  from_definition (role_definition_of (name, st)) = st.
Proof.
  intros Hc. unfold from_definition, role_definition_of. cbn [rd_login rd_superuser rd_createdb rd_createrole
    rd_inherit rd_replication rd_bypassrls rd_connection_limit rd_comment rd_password_valid_until rd_config].
  rw !unless_default_read map_collect_iter Hc. by destruct st.
Qed.

Lemma grantee_read r : plain_grantee r → grantee_parse (grantee_as_str r) = r.
Proof.
  intros Hr. unfold grantee_parse. destruct r as [|name]; [done|]. cbn.
  destruct (String.eqb_spec name PUBLIC_ROLE) as [->|]; [by destruct Hr|done].
Qed.

(** A map is the entries of its own assertions. *)
Lemma entries_of_map {K} `{Countable K} (m m' : gmap K (gset Privilege)) (l : list (assertion K)) :
  entries_of m Ensure.Present l →
  (∀ a, a ∈ l ↔ ∃ k X, m' !! k = Some X ∧ a = (k, Ensure.Present, set_iter X)) →
  m = m'.
Proof.
  intros Hm Hl. apply map_eq. intros k. apply option_eq. intros X. rw (Hm k X). split.
  - intros [[ps Hps] HX]. apply Hl in Hps as (k' & Y & HY & [= <- ->]). rw HY. f_equal.
    apply set_eq. intros p. rw HX. split.
    + intros Hp. exists (set_iter Y). split; [apply Hl; by exists k, Y|]. by apply elem_of_set_iter.
    + intros (ps & (k' & Z & HZ & [= <- ->])%Hl & Hp%elem_of_set_iter). congruence.
  - intros Hk. split; [exists (set_iter X); apply Hl; by exists k, X|]. intros p. split.
    + intros Hp. exists (set_iter X). split; [apply Hl; by exists k, X|]. by apply elem_of_set_iter.
    + intros (ps & (k' & Z & HZ & [= <- ->])%Hl & Hp%elem_of_set_iter). congruence.
Qed.

Lemma entries_of_absent {K} `{Countable K} (m : gmap K (gset Privilege)) (l : list (assertion K)) :
  entries_of m Ensure.Absent l → (∀ a, a ∈ l → a.1.2 = Ensure.Present) → m = ∅.
Proof.
  intros Hm Hl. apply map_empty. intros k. destruct (m !! k) as [X|] eqn:Hk; [|done]. exfalso.
  apply Hm in Hk as [(ps & Hps) _]. by apply Hl in Hps.
Qed.

Section round_trip.
Context (g : RoleGraph) (Hex : exportable g).

Abbreviation manifest := (role_graph_to_manifest g).
Abbreviation em := (expanded_of manifest).

Lemma export_pairs : expansion_pairs manifest = [].
Proof.
  unfold expansion_pairs; cbn [pm_schemas role_graph_to_manifest].
  induction (map_iter (schemas g)) as [|[s st] l IH]; [done|]. by rw fmap_cons bind_cons IH.
Qed.

Lemma export_grant_assertions a :
  a ∈ grant_assertions em ↔
  ∃ k X, filter (λ p : GrantKey * GrantState, p.1 ∉ inherent_grants g) (grants g) !! k = Some X ∧
    a = (k, Ensure.Present, set_iter X).
Proof.
  unfold grant_assertions. cbn [em_grants expanded_of]. rw export_pairs. cbn [app].
  cbn [pm_grants role_graph_to_manifest].
  assert (∀ k X, grants g !! k = Some X → grant_key_from_manifest (grant_of (k, X)) = k) as Hkey.
  { intros k X Hk%(ex_grantees _ Hex). unfold grant_key_from_manifest, grant_of; cbn.
    rw grantee_read //. by destruct k. }
  setoid_rewrite map_lookup_filter_Some. split.
  - intros (gr & -> & Hgr)%list_elem_of_fmap. apply list_elem_of_fmap in Hgr as ([k X] & -> & Hf).
    apply list_elem_of_filter in Hf as [Hn Hk%elem_of_map_iter].
    exists k, X. by rw Hkey.
  - intros (k & X & [Hk Hn] & ->). apply list_elem_of_fmap. exists (grant_of (k, X)). split; [by rw Hkey|].
    apply list_elem_of_fmap_2, list_elem_of_filter. split; [done|]. by apply elem_of_map_iter.
Qed.

Lemma export_default_assertions a :
  a ∈ default_assertions None em ↔
  ∃ k X, default_privileges g !! k = Some X ∧ a = (k, Ensure.Present, set_iter X).
Proof.
  set (l := default_group <$> map_iter (default_privileges g)).
  assert (∀ o s dg, (o, s, dg) ∈ l ↔ ∃ t r X,
    default_privileges g !! {| dk_owner := o; dk_scope := s; dk_on_type := t; dk_grantee := r |} = Some X ∧
    dg = {| dpg_role := Some (grantee_as_str r); dpg_privileges := set_iter X; dpg_on_type := t;
            dpg_ensure := Ensure.Present |}) as Hl.
  { intros o s dg. unfold l. rw list_elem_of_fmap. split.
    - intros ([[o' s' t r] X] & [= -> -> ->] & Hk%elem_of_map_iter). by exists t, r, X.
    - intros (t & r & X & Hk & ->). eexists (_, X). split; [|by apply elem_of_map_iter]. done. }
  unfold default_assertions. cbn [em_default_privileges expanded_of]. rw export_pairs. cbn [app].
  cbn [pm_default_privileges role_graph_to_manifest]. fold l. split.
  - intros (d & Hd & Ha)%elem_of_bind_1. apply list_elem_of_fmap in Hd as (d' & -> & Hd).
    apply list_elem_of_fmap in Hd as ([[o s] dgs] & -> & Hg).
    assert (resolved_scope (normalize_owner manifest (default_of_group (o, s, dgs))) = Ok s) as Hs
      by by destruct s.
    rw Hs in Ha. assert (dp_grant (normalize_owner manifest (default_of_group (o, s, dgs))) = dgs ∧
      dp_owner (normalize_owner manifest (default_of_group (o, s, dgs))) = Some o) as [Hgr Ho] by by destruct s.
    unfold default_owner_of in Ha. rw Hgr Ho in Ha. apply elem_of_bind_1 in Ha as (dg & Hdg & Ha).
    assert ((o, s, dg) ∈ l) as Hin by (apply elem_of_groups; by exists dgs).
    apply Hl in Hin as (t & r & X & Hk & ->). cbn in Ha. apply list_elem_of_singleton in Ha as ->.
    exists {| dk_owner := o; dk_scope := s; dk_on_type := t; dk_grantee := r |}, X. split; [done|].
    unfold default_key; cbn. by rw (grantee_read _ (ex_default_grantees _ Hex _ _ Hk)).
  - intros ([o s t r] & X & Hk & ->).
    set (dg := {| dpg_role := Some (grantee_as_str r); dpg_privileges := set_iter X; dpg_on_type := t;
            dpg_ensure := Ensure.Present |}).
    assert ((o, s, dg) ∈ l) as (dgs & Hg & Hdg)%elem_of_groups by (apply Hl; by exists t, r, X).
    apply (elem_of_bind_2 _ _ (normalize_owner manifest (default_of_group (o, s, dgs)))).
    { by do 2 apply list_elem_of_fmap_2. }
    assert (resolved_scope (normalize_owner manifest (default_of_group (o, s, dgs))) = Ok s) as ->
      by by destruct s.
    assert (dp_grant (normalize_owner manifest (default_of_group (o, s, dgs))) = dgs ∧
      dp_owner (normalize_owner manifest (default_of_group (o, s, dgs))) = Some o) as [-> Ho] by by destruct s.
    unfold default_owner_of. rw Ho. apply (elem_of_bind_2 _ _ dg); [done|]. cbn.
    unfold default_key; cbn. rw (grantee_read _ (ex_default_grantees _ Hex _ _ Hk)). left.
Qed.

Lemma export_memberships e :
  (∃ m spec, m ∈ em_memberships em ∧ spec ∈ mb_members m ∧ e = edge_of m spec) ↔ e ∈ memberships g.
Proof.
  cbn [em_memberships expanded_of pm_memberships role_graph_to_manifest].
  set (l := member_of <$> set_iter (memberships g)).
  assert (∀ r ms spec, edge_of (membership_of (r, ms)) spec = e ∧ (r, spec) ∈ l → e ∈ memberships g) as Hback.
  { intros r ms spec [<- Hin]. apply list_elem_of_fmap in Hin as (e' & Heq & He%elem_of_set_iter).
    unfold member_of in Heq. injection Heq as -> ->. unfold edge_of, membership_of, member_inherit, member_admin; cbn.
    destruct e' as [? ? [] []]; done. }
  split.
  - intros (m & spec & Hm & Hspec & ->). apply list_elem_of_fmap in Hm as ([r ms] & -> & Hg).
    apply (Hback r ms spec). split; [done|]. apply elem_of_groups. by exists ms.
  - intros He. assert (member_of e ∈ l) as Hin by (by apply list_elem_of_fmap_2, elem_of_set_iter).
    destruct (member_of e) as [r spec] eqn:Hme. apply elem_of_groups in Hin as (ms & Hg & Hs).
    exists (membership_of (r, ms)), spec. split; [by apply list_elem_of_fmap_2|]. split; [done|].
    unfold member_of in Hme. injection Hme as <- <-. unfold edge_of, membership_of, member_inherit, member_admin; cbn.
    destruct e as [? ? [] []]; done.
Qed.

Lemma export_roles name st :
  (∃ rd, rd ∈ em_roles em ∧ rd_name rd = name ∧ from_definition rd = st) ↔ roles g !! name = Some st.
Proof.
  cbn [em_roles expanded_of]. rw export_pairs. cbn [app]. cbn [pm_roles role_graph_to_manifest]. split.
  - intros (rd & Hrd & <- & <-). apply list_elem_of_fmap in Hrd as ([n s] & -> & Hn%elem_of_map_iter).
    rw role_definition_read; [done|by apply (ex_config _ Hex n)].
  - intros Hn. exists (role_definition_of (name, st)). split; [apply list_elem_of_fmap_2; by apply elem_of_map_iter|].
    split; [done|]. apply role_definition_read. by apply (ex_config _ Hex name).
Qed.

Lemma export_schemas name :
  (∃ es, es ∈ em_schemas em ∧ es_name es = name ∧ True) ↔ is_Some (schemas g !! name).
Proof.
  cbn [em_schemas expanded_of pm_schemas role_graph_to_manifest]. split.
  - intros (es & Hes & <- & _). apply list_elem_of_fmap in Hes as (b & -> & Hb).
    apply list_elem_of_fmap in Hb as ([n s] & -> & Hn%elem_of_map_iter). by eexists.
  - intros [st Hn]. exists (expand_schema manifest (binding_of (name, st))). split; [|done].
    do 2 apply list_elem_of_fmap_2. by apply elem_of_map_iter.
Qed.

Lemma exported_schema es :
  es ∈ em_schemas em → ∃ st, schemas g !! es_name es = Some st ∧ es_owner es = ss_owner st.
Proof.
  cbn [em_schemas expanded_of pm_schemas role_graph_to_manifest].
  intros (b & -> & Hb)%list_elem_of_fmap. apply list_elem_of_fmap in Hb as ([n s] & -> & Hn%elem_of_map_iter).
  exists s. split; [done|]. cbn. unfold owner_or_default. by destruct (ss_owner s).
Qed.

Context (d : RoleGraph) (Hacc : accepted manifest em) (Hd : from_expanded em None = Ok d).

Lemma read_back :
  roles d = roles g ∧
  (∀ s, ss_owner <$> schemas d !! s = ss_owner <$> schemas g !! s) ∧
  grants d = filter (λ p : GrantKey * GrantState, p.1 ∉ inherent_grants g) (grants g) ∧
  default_privileges d = default_privileges g ∧ memberships d = memberships g ∧
  grant_absences d = ∅ ∧ default_privilege_absences d = ∅.
Proof.
  apply from_expanded_built in Hd as Hb. split_and!.
  - apply map_eq. intros name. apply option_eq. intros st.
    rw (bu_roles _ _ _ Hb); [apply export_roles|apply (ac_roles _ _ Hacc)].
  - intros s. apply option_eq. intros o. rw !fmap_Some.
    pose proof (λ st, bu_schemas _ _ _ Hb (ac_schemas _ _ Hacc) s st) as Hs. split.
    + intros (st & (es & Hes & <- & <-)%Hs & ->). apply exported_schema in Hes as (st & Hst & Ho).
      by exists st.
    + intros (st & Hst & ->). destruct (proj2 (export_schemas s)) as (es & Hes & Hn & _); [by eexists|].
      exists (schema_state_of es). split; [apply Hs; by exists es|].
      apply exported_schema in Hes as (st' & Hst' & Ho). cbn. rw Hn in Hst'. congruence.
  - eapply entries_of_map; [apply (bu_grants _ _ _ Hb)|apply export_grant_assertions].
  - eapply entries_of_map; [apply (bu_defaults _ _ _ Hb)|apply export_default_assertions].
  - apply set_eq. intros e. rw (bu_memberships _ _ _ Hb). apply export_memberships.
  - eapply entries_of_absent; [apply (bu_grant_absences _ _ _ Hb)|].
    by intros a (k & X & _ & ->)%export_grant_assertions.
  - eapply entries_of_absent; [apply (bu_default_absences _ _ _ Hb)|].
    by intros a (k & X & _ & ->)%export_default_assertions.
Qed.
End round_trip.


(** ** The plan towards the export *)

(** The catalog names routines canonically, and owners hold what owners hold. *)
Record inspected (g : RoleGraph) : Prop := {
  in_canonical : ∀ k X, grants g !! k = Some X → resolve_key (routine_aliases g) k = k;
  in_owners : owners_complete g;
}.

Section no_plan.
Context (g d : RoleGraph) (Hin : inspected g)
  (Hr : roles d = roles g)
  (Hs : ∀ s, ss_owner <$> schemas d !! s = ss_owner <$> schemas g !! s)
  (Hg : grants d = filter (λ p : GrantKey * GrantState, p.1 ∉ inherent_grants g) (grants g))
  (Hd : default_privileges d = default_privileges g) (Hm : memberships d = memberships g)
  (Ha : grant_absences d = ∅) (Hda : default_privilege_absences d = ∅).

Lemma exported_aligned : aligned g d = d.
Proof.
  unfold aligned, resolve_routine_aliases. destruct (bool_decide _); [done|].
  destruct (existsb _ _) eqn:He; [|done]. exfalso. apply existsb_exists in He as (k & Hk & Hne%bool_decide_eq_true).
  apply Hne. apply list_elem_of_In in Hk. rw Ha in Hk.
  apply elem_of_app in Hk as [[X HX]%elem_of_map_keys|[X HX]%elem_of_map_keys]; [|by rw lookup_empty in HX].
  rw Hg in HX. apply map_lookup_filter_Some in HX as [HX _]. by eapply in_canonical.
Qed.

Lemma exported_schemas : diff_schemas g d = ([], []).
Proof.
  assert (∀ k s, schemas d !! k = Some s → diff_schema g k s = ([], [])) as Hsame.
  { intros k s Hk. pose proof (Hs k) as Hks. rw Hk in Hks.
    destruct (schemas g !! k) as [cur|] eqn:Hc; [|done]. cbn in Hks. injection Hks as Ho.
    unfold diff_schema. rw Hc -Ho. rw bool_decide_false; [|tauto].
    destruct (ss_owner s) as [o|] eqn:Hso; [|done].
    symmetry in Ho. pose proof (in_owners _ Hin _ _ _ Hc Ho) as Hsub. rw bool_decide_true; [done|]. set_solver. }
  unfold diff_schemas. f_equal; apply bind_nil_in; intros [k s] Hk%elem_of_map_iter; by rw Hsame.
Qed.

Lemma exported_revokes k : revoked g d k = ∅.
Proof.
  apply set_eq. intros p. rw elem_of_revoked. split; [|set_solver].
  intros [(_ & Hi & Hp & Hn & _)|[Hp _]].
  - destruct (grants g !! k) as [X|] eqn:HX; [|by apply not_elem_of_empty in Hp].
    assert (grants d !! k = Some X) as HY by (rw Hg; by apply map_lookup_filter_Some).
    by rw HY in Hn.
  - rw Ha lookup_empty in Hp. by apply not_elem_of_empty in Hp.
Qed.

Lemma exported_grants : diff_grants g d = ([], []).
Proof.
  unfold diff_grants. rw diff_grants_state_eq.
  assert ((diff_grants_state g d).2 = ∅) as H2.
  { apply map_eq. intros k. rw revokes_lookup lookup_empty. rw decide_True; [done|apply exported_revokes]. }
  rw diff_grants_state_eq /= in H2. rw H2 map_iter_empty; simpl. f_equal.
  apply bind_nil_in. intros [k X] Hk%elem_of_map_iter. unfold present_missing. cbn [fst snd].
  rw Hg in Hk. apply map_lookup_filter_Some in Hk as [Hk _]. rw Hk. rw bool_decide_true //. set_solver.
Qed.

Lemma no_plan : diff g d = [].
Proof.
  rw diff_segments; cbv zeta. rw exported_aligned exported_schemas exported_grants.
  rw diff_roles_matching // diff_memberships_matching // diff_defaults_matching //.
  intros k A. by rw Hda lookup_empty.
Qed.
End no_plan.

(** adopting an existing database plans nothing. The manifest exported from an
    inspected graph, when it is accepted, has a desired graph towards which the plan of
    that same database is empty. *)
Theorem export_plans_nothing (g : RoleGraph) (em : ExpandedManifest) :
  exportable g → inspected g → expand_manifest (role_graph_to_manifest g) = Ok em →
  ∃ d, from_expanded em None = Ok d ∧ diff g d = [].
Proof.
  intros Hex Hin [-> Hacc]%expand_manifest_Ok. destruct (desired_exists eq_refl Hacc) as [d Hd].
  exists d. split; [exact Hd|]. destruct (read_back g Hex d Hacc Hd) as (? & ? & ? & ? & ? & ? & ?).
  by apply no_plan.
Qed.

(** ** An exported graph

    The properties of the export at the graph of a small shop, one of whose grants an
    owner holds inherently. *)

Module ExportScene.
Definition owned_key : GrantKey := {|
  gk_role := Grantee.Role "owner"; gk_object_type := ObjectType.Table;
  gk_schema := Some "shop"; gk_name := Some "orders" |}.

Definition graph : RoleGraph := {|
  routine_aliases := {[ ("shop", "f(int)") := "f(integer)" ]};
  roles := {[ "owner" := role_state_default; "app" := role_state_default ]};
  schemas := {[ "shop" := {| ss_owner := Some "owner";
                             ss_owner_privileges := {[Privilege.Create; Privilege.Usage]} |} ]};
  grants := {[ owned_key := {[Privilege.Select; Privilege.Truncate]};
               {| gk_role := Grantee.Public; gk_object_type := ObjectType.Function;
                  gk_schema := Some "shop"; gk_name := Some "f(integer)" |} := {[Privilege.Execute]};
               {| gk_role := Grantee.Role "app"; gk_object_type := ObjectType.Table;
                  gk_schema := Some "shop"; gk_name := Some "orders" |} := {[Privilege.Select]} ]};
  default_privileges :=
    {[ {| dk_owner := "owner"; dk_scope := DefaultPrivilegeScope.Schema "shop";
          dk_on_type := ObjectType.Table; dk_grantee := Grantee.Role "app" |} := {[Privilege.Select]};
       {| dk_owner := "owner"; dk_scope := DefaultPrivilegeScope.Global;
          dk_on_type := ObjectType.Function; dk_grantee := Grantee.Public |} := {[Privilege.Execute]} ]};
  memberships := {[ {| me_role := "owner"; me_member := "app"; me_inherit := false; me_admin := true |} ]};
  grant_absences := ∅; default_privilege_absences := ∅; exclusive_membership_roles := ∅;
  inherent_grants := {[ owned_key ]}; membership_edge_grantors := ∅; membership_edge_options := ∅;
  executor_authority_edges := ∅; grant_entry_grantors := ∅ |}.
End ExportScene.

Import ExportScene.

(** A property of every entry, from its check over the entries. *)
Lemma entries_checked {K V} `{Countable K, Ord K} (m : gmap K V) (check : K * V → bool) (P : K → V → Prop) :
  (∀ k v, check (k, v) = true → P k v) → forallb check (map_iter m) = true →
  ∀ k v, m !! k = Some v → P k v.
Proof.
  intros HP Hall k v Hk. apply HP. apply (proj1 (forallb_forall _ _) Hall). apply list_elem_of_In.
  by apply elem_of_map_iter.
Qed.

Definition plain (r : Grantee) : bool := negb (bool_decide (r = Grantee.Role PUBLIC_ROLE)).
Lemma plain_spec r : plain r = true → plain_grantee r.
Proof. unfold plain, plain_grantee. intros Hr ->. by rw bool_decide_true in Hr. Qed.

Lemma graph_exportable : exportable graph.
Proof.
  split.
  - apply (entries_checked _ (λ p, bool_decide
      (map_collect (normalize_config_entry <$> map_iter (rs_config p.2)) = rs_config p.2))).
    + by intros k v H%bool_decide_eq_true.
    + vm_compute. reflexivity.
  - apply (entries_checked _ (λ p, plain (gk_role p.1))); [intros k v; apply plain_spec|].
    vm_compute. reflexivity.
  - apply (entries_checked _ (λ p, plain (dk_grantee p.1))); [intros k v; apply plain_spec|].
    vm_compute. reflexivity.
Qed.

Lemma graph_inspected : inspected graph.
Proof.
  split.
  - apply (entries_checked _ (λ p, bool_decide (resolve_key (routine_aliases graph) p.1 = p.1))).
    + by intros k v H%bool_decide_eq_true.
    + vm_compute. reflexivity.
  - intros s st o Hs Ho.
    refine (entries_checked (schemas graph) (λ p, match ss_owner p.2 with
        | Some o => bool_decide (default_schema_owner_privileges o ⊆ ss_owner_privileges p.2)
        | None => true end)
      (λ _ st, ∀ o, ss_owner st = Some o → default_schema_owner_privileges o ⊆ ss_owner_privileges st)
      _ _ s st Hs o Ho).
    + intros k v H o' Ho'. cbn [snd] in H. rw Ho' in H. by apply bool_decide_eq_true in H.
    + vm_compute. reflexivity.
Qed.

Definition accepted_export : ExpandedManifest := expanded_of (role_graph_to_manifest graph).

Definition is_accepted (m : PolicyManifest) : bool :=
  match expand_manifest m with Ok _ => true | _ => false end.

Lemma export_accepted : expand_manifest (role_graph_to_manifest graph) = Ok accepted_export.
Proof.
  assert (is_accepted (role_graph_to_manifest graph) = true) as H by (vm_compute; reflexivity).
  unfold is_accepted in H. destruct (expand_manifest (role_graph_to_manifest graph)) as [em| |] eqn:Hem; [|done..].
  apply expand_manifest_Ok in Hem as [-> _]. done.
Qed.


Lemma export_plans_nothing_witness :
  ∃ d, from_expanded accepted_export None = Ok d ∧ diff graph d = [].
Proof.
  exact (export_plans_nothing graph accepted_export graph_exportable graph_inspected export_accepted).
Defined.
