(* ===== verification/Approval.v ===== *)
(** * Approval digests ([approval.rs])

    An approval names the effects of a plan by a digest of their canonical encoding, and
    the database by two identities.  The JSON serialisation of changes and change sets and
    the hash are libraries: they are arguments of the definitions. *)

From S2P Require Import Prelude BTree RustStr Types Model Change Plan.

Definition APPROVAL_EFFECT_ENCODING_V3 : string := "pgroles.io/approval-effect/v3".

(** ** Target identity *)

Record TargetIdentity := {
  physical : option string;
  logical : option string;
}.

#[export] Instance target_identity_eq_dec : EqDecision TargetIdentity.
Proof. solve_decision. Defined.

Definition logical_only (fingerprint : string) : TargetIdentity := {|
  physical := None; logical := Some fingerprint |}.

Definition has_physical (self : TargetIdentity) : bool := bool_decide (is_Some (physical self)).

Module TargetIdentityReason.
Inductive TargetIdentityReason : Set :=
  | TargetChanged
  | TargetIdentityUnavailable
  | TargetIdentityAppeared
  | PhysicalIdentityRequired.

Definition reason_as_str (self : TargetIdentityReason) : string :=
  match self with
  | TargetChanged => "TargetChanged"
  | TargetIdentityUnavailable => "TargetIdentityUnavailable"
  | TargetIdentityAppeared => "TargetIdentityAppeared"
  | PhysicalIdentityRequired => "PhysicalIdentityRequired"
  end.
End TargetIdentityReason.
Abbreviation TargetIdentityReason := TargetIdentityReason.TargetIdentityReason.
Abbreviation reason_as_str := TargetIdentityReason.reason_as_str.

Module TargetIdentityVerdict.
Inductive TargetIdentityVerdict : Set :=
  | Proceed
  | Superseded (reason : TargetIdentityReason)
  | Blocked (reason : TargetIdentityReason).
End TargetIdentityVerdict.
Abbreviation TargetIdentityVerdict := TargetIdentityVerdict.TargetIdentityVerdict.

(** The loop body of [evaluate_target_identity]: the verdict of one half, if it decides. *)
Definition compare_identity (approved observed : option string) : option TargetIdentityVerdict :=
  match approved, observed with
  | Some a, Some o =>
      if negb (String.eqb a o)
      then Some (TargetIdentityVerdict.Superseded TargetIdentityReason.TargetChanged) else None
  | Some _, None => Some (TargetIdentityVerdict.Superseded TargetIdentityReason.TargetIdentityUnavailable)
  | None, Some _ => Some (TargetIdentityVerdict.Superseded TargetIdentityReason.TargetIdentityAppeared)
  | None, None => None
  end.

Definition evaluate_target_identity (approved observed : TargetIdentity)
    (require_physical_identity : bool) : TargetIdentityVerdict :=
  if require_physical_identity && (negb (has_physical observed) || negb (has_physical approved))
  then TargetIdentityVerdict.Blocked TargetIdentityReason.PhysicalIdentityRequired
  else
    match compare_identity (physical approved) (physical observed) with
    | Some verdict => verdict
    | None =>
        match compare_identity (logical approved) (logical observed) with
        | Some verdict => verdict
        | None => TargetIdentityVerdict.Proceed
        end
    end.

Lemma compare_identity_spec approved observed :
  match compare_identity approved observed with
  | Some verdict => approved ≠ observed ∧ ∃ reason, verdict = TargetIdentityVerdict.Superseded reason
  | None => approved = observed
  end.
Proof.
  destruct approved as [a|], observed as [o|]; cbn; [|by split; [|eexists]..|done].
  destruct (String.eqb_spec a o) as [->|Hne]; cbn; [done|]. split; [congruence|by eexists].
Qed.

(** Past the requirement, the verdict is that of the identities. *)
Lemma identity_verdict approved observed required :
  (required && (negb (has_physical observed) || negb (has_physical approved)) = false) →
  (approved = observed ∧ evaluate_target_identity approved observed required = TargetIdentityVerdict.Proceed) ∨
  (approved ≠ observed ∧ ∃ reason,
     evaluate_target_identity approved observed required = TargetIdentityVerdict.Superseded reason).
Proof.
  unfold evaluate_target_identity. intros ->.
  pose proof (compare_identity_spec (physical approved) (physical observed)) as Hp.
  destruct (compare_identity _ _) as [v|].
  { destruct Hp as [Hne [r ->]]. right. split; [congruence|by eexists]. }
  pose proof (compare_identity_spec (logical approved) (logical observed)) as Hl.
  destruct (compare_identity (logical approved) _) as [v|].
  { destruct Hl as [Hne [r ->]]. right. split; [congruence|by eexists]. }
  left. split; [|done]. destruct approved, observed; cbn in *; congruence.
Qed.

Lemma requirement_missed approved observed required :
  required && (negb (has_physical observed) || negb (has_physical approved)) = true ↔
  required = true ∧ (physical observed = None ∨ physical approved = None).
Proof.
  assert (∀ t, negb (has_physical t) = true ↔ physical t = None) as Hnone.
  { intros t. unfold has_physical. destruct (physical t); [|done]. by rw bool_decide_true. }
  by rw andb_true_iff orb_true_iff !Hnone.
Qed.

(** the gate before execution lets a plan proceed exactly when both identities of the
    database read as they did at approval and, where a physical identity is required,
    there is one; it blocks, rather than supersedes, exactly when a required one is
    missing on either side. *)
Theorem target_identity_gate (approved observed : TargetIdentity) (required : bool) :
  (evaluate_target_identity approved observed required = TargetIdentityVerdict.Proceed ↔
   approved = observed ∧ (required = true → is_Some (physical observed))) ∧
  (evaluate_target_identity approved observed required =
     TargetIdentityVerdict.Blocked TargetIdentityReason.PhysicalIdentityRequired ↔
   required = true ∧ (physical observed = None ∨ physical approved = None)).
Proof.
  rw -requirement_missed.
  destruct (required && (negb (has_physical observed) || negb (has_physical approved))) eqn:Hreq.
  - unfold evaluate_target_identity. rw Hreq. split; [|done]. split; [done|]. intros [-> Hsome].
    apply requirement_missed in Hreq as [Hr [Hn|Hn]]; destruct (Hsome Hr) as [? Hs]; congruence.
  - assert (required = true → is_Some (physical observed)) as Hsome.
    { intros Hr. destruct (physical observed) eqn:Hn; [by eexists|]. exfalso.
      assert (required && (negb (has_physical observed) || negb (has_physical approved)) = true)
        by (apply requirement_missed; auto). congruence. }
    destruct (identity_verdict _ _ _ Hreq) as [[-> ->]|[Hne [r ->]]]; split; split; try done.
    by intros [? _].
Qed.

(** ** The canonical change set *)

Module Value.
(** [serde_json::Value] *)
Inductive Value : Type :=
  | Null
  | Bool (b : bool)
  | Number (n : Z)
  | String (s : string)
  | Array (l : list Value)
  | Object (m : list (string * Value)).
End Value.
Abbreviation Value := Value.Value.

Module ApprovalDigestError.
Inductive ApprovalDigestError : Set := MissingPasswordSource (role : string).
End ApprovalDigestError.
Abbreviation ApprovalDigestError := ApprovalDigestError.ApprovalDigestError.

Record EffectDigestInputs := {
  edi_reconciliation_mode : ReconciliationMode;
  edi_target : string;
  edi_target_identity : TargetIdentity;
  edi_password_source_versions : gmap string string;
  edi_owned_roles : list string;
  edi_owned_schemas : list string;
}.

Record CanonicalChangeSet := {
  ccs_effect_encoding : string;
  ccs_reconciliation_mode : ReconciliationMode;
  ccs_target : string;
  ccs_target_physical_identity : option string;
  ccs_target_logical_fingerprint : option string;
  ccs_owned_roles : gset string;
  ccs_owned_schemas : gset string;
  ccs_effects : list Value;
}.

Definition value_key_le (to_string : Value → string) : relation Value := λ v w,
  ord_le (to_string v) (to_string w).

Section digest.
(** [serde_json::to_value] on changes, [Value::to_string], [serde_json::to_vec] on change
    sets, and SHA-256 in hexadecimal. *)
Context (to_value : Change → Value) (to_string : Value → string)
  (to_vec : CanonicalChangeSet → string) (sha256_hex : string → string).

Definition canonical_effect (change : Change) (password_source_versions : gmap string string) :
    res ApprovalDigestError Value :=
  match change with
  | Change.SetPassword name _ =>
      match password_source_versions !! name with
      | None => Err (ApprovalDigestError.MissingPasswordSource name)
      | Some source =>
          Ok (Value.Object [("SetPassword", Value.Object [("name", Value.String name);
                                                          ("password_source", Value.String source)])])
      end
  | _ => Ok (to_value change)
  end.

(** [effects.sort_by_cached_key(ToString::to_string)] *)
Definition sort_effects (effects : list Value) : list Value :=
  merge_sort (value_key_le to_string) effects.

(** The loop that pushes the effects. *)
Fixpoint canonical_effects (changes : list Change) (versions : gmap string string) :
    res ApprovalDigestError (list Value) :=
  match changes with
  | [] => Ok []
  | change :: changes =>
      effect ← canonical_effect change versions;
      effects ← canonical_effects changes versions;
      Ok (effect :: effects)
  end.

Definition canonical_change_set (changes : list Change) (inputs : EffectDigestInputs) :
    res ApprovalDigestError CanonicalChangeSet :=
  effects ← canonical_effects changes (edi_password_source_versions inputs);
  Ok {| ccs_effect_encoding := APPROVAL_EFFECT_ENCODING_V3;
        ccs_reconciliation_mode := edi_reconciliation_mode inputs;
        ccs_target := edi_target inputs;
        ccs_target_physical_identity := physical (edi_target_identity inputs);
        ccs_target_logical_fingerprint := logical (edi_target_identity inputs);
        ccs_owned_roles := list_to_set (edi_owned_roles inputs);
        ccs_owned_schemas := list_to_set (edi_owned_schemas inputs);
        ccs_effects := sort_effects effects |}.

Definition canonical_change_set_bytes (changes : list Change) (inputs : EffectDigestInputs) :
    res ApprovalDigestError string :=
  set ← canonical_change_set changes inputs; Ok (to_vec set).

Definition sha256_prefixed (bytes : string) : string := "sha256:" +:+ sha256_hex bytes.

Definition compute_change_digest (changes : list Change) (inputs : EffectDigestInputs) :
    res ApprovalDigestError string :=
  bytes ← canonical_change_set_bytes changes inputs; Ok (sha256_prefixed bytes).
End digest.

(** ** What a digest binds *)

(** What a reviewer saw of a change: a password by its role and the version of its source,
    everything else as it is. *)
Definition reviewed (versions : gmap string string) (change : Change) : Change * option string :=
  match change with
  | Change.SetPassword name _ => (Change.SetPassword name "", versions !! name)
  | change => (change, None)
  end.

Section binding.
Context (to_value : Change → Value) (to_string : Value → string)
  (to_vec : CanonicalChangeSet → string) (sha256_hex : string → string).
(** Serialisation can be read back, an enum is an object under the name of its variant,
    and the hash has no collisions. *)
Context `{!Inj (=) (=) to_value, !Inj (=) (=) to_string, !Inj (=) (=) to_vec, !Inj (=) (=) sha256_hex}
  (Htag : ∀ change v, to_value change = Value.Object [("SetPassword", v)] →
     ∃ name password, change = Change.SetPassword name password).

Abbreviation digest := (compute_change_digest to_value to_string to_vec sha256_hex).
Abbreviation effects := (canonical_effects to_value).

#[local] Instance value_key_le_total : Total (value_key_le to_string).
Proof. intros v w. apply (total ord_le). Qed.
#[local] Instance value_key_le_trans : Transitive (value_key_le to_string).
Proof. intros u v w. apply (transitivity (R := ord_le)). Qed.
#[local] Instance value_key_le_antisymm : AntiSymm (=) (value_key_le to_string).
Proof. intros v w Hv Hw. by apply (inj to_string), (anti_symm ord_le). Qed.

Lemma sort_effects_Permutation l k :
  sort_effects to_string l = sort_effects to_string k ↔ l ≡ₚ k.
Proof.
  unfold sort_effects. split.
  - intros Heq. by rw -(merge_sort_Permutation (value_key_le to_string) l) Heq merge_sort_Permutation.
  - intros Hp. eapply (StronglySorted_unique (value_key_le to_string));
      [apply (StronglySorted_merge_sort _)..|]. by rw !merge_sort_Permutation.
Qed.

(** The effect of what was reviewed. *)
Definition effect_of (r : Change * option string) : Value :=
  match r with
  | (Change.SetPassword name _, source) =>
      Value.Object [("SetPassword", Value.Object [("name", Value.String name);
                                                  ("password_source", Value.String (default "" source))])]
  | (change, _) => to_value change
  end.

(** Every password has its source. *)
Definition sources_known (versions : gmap string string) (changes : list Change) : Prop :=
  ∀ name password, Change.SetPassword name password ∈ changes → is_Some (versions !! name).

Lemma canonical_effects_Ok versions changes l :
  effects changes versions = Ok l ↔
  sources_known versions changes ∧ l = (λ c, effect_of (reviewed versions c)) <$> changes.
Proof.
  revert l. induction changes as [|c changes IH]; intros l; cbn [canonical_effects].
  - split; [intros [= <-]; split; [by intros ? ? ?%not_elem_of_nil|done]|by intros [_ ->]].
  - assert (∀ v, canonical_effect to_value c versions = Ok v ↔
      (∀ name password, c = Change.SetPassword name password → is_Some (versions !! name)) ∧
      v = effect_of (reviewed versions c)) as Hone.
    { intros v. destruct c; cbn; try (split; [intros [= <-]; split; [by intros|done]|by intros [_ ->]]).
      destruct (versions !! name) as [source|] eqn:Hn.
      - split; [intros [= <-]; split; [intros ? ? [= <- _]; rw Hn; by eexists|done]|].
        intros [_ ->]. cbn. done.
      - split; [done|]. intros [Hs _]. destruct (Hs _ _ eq_refl) as [? Hs']. congruence. }
    rw bind_Ok. setoid_rewrite Hone. split.
    + intros (v & [Hc ->] & (l' & [Hs ->]%IH & [= <-])%bind_Ok). split; [|done].
      intros name password [Heq|Hin]%elem_of_cons; [by eapply Hc|by eapply Hs].
    + intros [Hs ->]. exists (effect_of (reviewed versions c)). split.
      * split; [|done]. intros name password ->. apply (Hs name password). left.
      * apply bind_Ok. eexists. split; [apply IH; split; [|done]|done].
        intros name password Hin. apply (Hs name password). by right.
Qed.

Lemma digest_known changes inputs :
  sources_known (edi_password_source_versions inputs) changes → ∃ d, digest changes inputs = Ok d.
Proof.
  intros Hs. unfold compute_change_digest, canonical_change_set_bytes, canonical_change_set.
  rw (proj2 (canonical_effects_Ok _ _ _) (conj Hs eq_refl)). by eexists.
Qed.

(** Where the sources are known, an effect tells what was reviewed. *)
Lemma effect_of_inj v1 v2 c1 c2 :
  (∀ name password, c1 = Change.SetPassword name password → is_Some (v1 !! name)) →
  (∀ name password, c2 = Change.SetPassword name password → is_Some (v2 !! name)) →
  effect_of (reviewed v1 c1) = effect_of (reviewed v2 c2) → reviewed v1 c1 = reviewed v2 c2.
Proof.
  intros H1 H2 Heq.
  assert (∀ v c, (∀ name password, c = Change.SetPassword name password → is_Some (v !! name)) →
    (∃ name source, reviewed v c = (Change.SetPassword name "", Some source)) ∨
    ((∀ name password, c ≠ Change.SetPassword name password) ∧ reviewed v c = (c, None) ∧
     effect_of (reviewed v c) = to_value c)) as Hcases.
  { intros v c Hv. destruct c; try (right; by split_and!). left.
    destruct (Hv _ _ eq_refl) as [source Hs]. exists name, source. cbn. by rw Hs. }
  destruct (Hcases v1 c1 H1) as [(n1 & s1 & E1)|(N1 & E1 & T1)],
    (Hcases v2 c2 H2) as [(n2 & s2 & E2)|(N2 & E2 & T2)]; rw E1 E2.
  - rw E1 E2 in Heq. cbn in Heq. by injection Heq as -> ->.
  - rw T2 E1 in Heq. symmetry in Heq. apply Htag in Heq as (n & p & ->). by destruct (N2 n p).
  - rw T1 E2 in Heq. apply Htag in Heq as (n & p & ->). by destruct (N1 n p).
  - rw T1 T2 in Heq. by apply (inj to_value) in Heq as ->.
Qed.

(** Permutations of images under functions injective across the two lists. *)
Lemma fmap_Permutation_across {A B C} (f1 f2 : A → B) (h : B → C) (l k : list A) :
  (∀ x y, x ∈ l → y ∈ k → h (f1 x) = h (f2 y) → f1 x = f2 y) →
  (h ∘ f1) <$> l ≡ₚ (h ∘ f2) <$> k → f1 <$> l ≡ₚ f2 <$> k.
Proof.
  revert k. induction l as [|x l IH]; intros k Hinj Hp.
  - rw fmap_nil in Hp. apply Permutation_nil_l in Hp. symmetry in Hp. by apply fmap_nil_inv in Hp as ->.
  - rw fmap_cons in Hp. assert ((h ∘ f1) x ∈ (h ∘ f2) <$> k) as Hin by (rw -Hp; left).
    apply list_elem_of_fmap in Hin as (y & Hxy & Hy).
    apply list_elem_of_split in Hy as (k1 & k2 & ->).
    rw fmap_app fmap_cons -Permutation_middle in Hp. rw -Hxy in Hp. apply Permutation_cons_inv in Hp.
    rw fmap_app !fmap_cons -Permutation_middle. rw (Hinj x y); [|left|set_solver|exact Hxy].
    constructor. rw -fmap_app. apply IH; [|by rw fmap_app].
    intros x' y' Hx' Hy'. apply Hinj; [by right|set_solver].
Qed.

End binding.
