(* ===== verification/ApprovalWitnesses.v ===== *)
(** * The digest with concrete libraries

    Encodings with the properties the digest theorem asks of the serialisation and of the
    hash, and the theorem at two plans. *)

From S2P Require Import Prelude BTree RustStr Types Model Change Plan Approval.

(** ** Encodings *)

Section countable_changes.
#[export] Instance role_state_countable : Countable RoleState.
Proof.
  refine (inj_countable'
    (λ s, (rs_login s, rs_superuser s, rs_createdb s, rs_createrole s, rs_inherit s, rs_replication s,
           rs_bypassrls s, rs_connection_limit s, rs_comment s, rs_password_valid_until s, rs_config s))
    (λ '(l, su, cd, cr, i, r, b, n, c, v, g), {|
       rs_login := l; rs_superuser := su; rs_createdb := cd; rs_createrole := cr; rs_inherit := i;
       rs_replication := r; rs_bypassrls := b; rs_connection_limit := n; rs_comment := c;
       rs_password_valid_until := v; rs_config := g |}) _).
  by intros [].
Defined.
#[export] Instance role_attribute_countable : Countable RoleAttribute.
Proof.
  refine (inj_countable'
    (λ a, match a with
          | RoleAttribute.Login v => (0, inl v) | RoleAttribute.Superuser v => (1, inl v)
          | RoleAttribute.Createdb v => (2, inl v) | RoleAttribute.Createrole v => (3, inl v)
          | RoleAttribute.Inherit v => (4, inl v) | RoleAttribute.Replication v => (5, inl v)
          | RoleAttribute.Bypassrls v => (6, inl v)
          | RoleAttribute.ConnectionLimit n => (7, inr (inl n))
          | RoleAttribute.ValidUntil v => (8, inr (inr (inl v)))
          | RoleAttribute.SetConfig k v => (9, inr (inr (inr (k, v))))
          | RoleAttribute.ResetConfig k => (10, inr (inr (inr (k, ""))))
          end)
    (λ p : nat * (bool + (Z + (option string + string * string))), match p with
          | (0, inl v) => RoleAttribute.Login v | (1, inl v) => RoleAttribute.Superuser v
          | (2, inl v) => RoleAttribute.Createdb v | (3, inl v) => RoleAttribute.Createrole v
          | (4, inl v) => RoleAttribute.Inherit v | (5, inl v) => RoleAttribute.Replication v
          | (6, inl v) => RoleAttribute.Bypassrls v
          | (7, inr (inl n)) => RoleAttribute.ConnectionLimit n
          | (8, inr (inr (inl v))) => RoleAttribute.ValidUntil v
          | (9, inr (inr (inr (k, v)))) => RoleAttribute.SetConfig k v
          | (_, inr (inr (inr (k, _)))) => RoleAttribute.ResetConfig k
          | _ => RoleAttribute.Login true
          end) _).
  by intros [].
Defined.
#[export] Instance membership_options_countable : Countable MembershipOptions.
Proof.
  refine (inj_countable' (λ o, (mo_inherit o, mo_admin o, mo_set o))
    (λ '(i, a, s), {| mo_inherit := i; mo_admin := a; mo_set := s |}) _).
  by intros [].
Defined.
#[export] Instance option_binding_countable : Countable MembershipOptionBinding.
Proof.
  refine (inj_countable'
    (λ b, (mob_executor b,
           match mob_set_effect b with MembershipSetEffect.Preserve => true | _ => false end,
           match mob_expected b with MembershipExpectedState.Present o => Some o | _ => None end,
           mob_expected_edges b))
    (λ '(e, s, x, m), {|
       mob_executor := e;
       mob_set_effect := if s : bool then MembershipSetEffect.Preserve else MembershipSetEffect.CreateFalse;
       mob_expected := match x with
                       | Some o => MembershipExpectedState.Present o
                       | None => MembershipExpectedState.Absent end;
       mob_expected_edges := m |}) _).
  by intros [? [] [] ?].
Defined.
End countable_changes.

(** Every field any change has, under the number of its variant. *)
Definition change_fields : Type :=
  nat * string * string * string * option string * option string * option string * RoleState *
  list RoleAttribute * gset Privilege * Grantee * ObjectType * DefaultPrivilegeScope * bool * bool *
  option bool * option bool * option MembershipOptionBinding.

Definition change_to_fields (c : Change) : change_fields :=
  match c with
  | Change.CreateRole s1 st =>
      (0, s1, "", "", None, None, None, st, [], ∅, Grantee.Public, ObjectType.Table, DefaultPrivilegeScope.Global, false, false, None, None, None)
  | Change.CreateSchema s1 o1 =>
      (1, s1, "", "", o1, None, None, role_state_default, [], ∅, Grantee.Public, ObjectType.Table, DefaultPrivilegeScope.Global, false, false, None, None, None)
  | Change.AlterSchemaOwner s1 s2 =>
      (2, s1, s2, "", None, None, None, role_state_default, [], ∅, Grantee.Public, ObjectType.Table, DefaultPrivilegeScope.Global, false, false, None, None, None)
  | Change.EnsureSchemaOwnerPrivileges s1 s2 ps =>
      (3, s1, s2, "", None, None, None, role_state_default, [], ps, Grantee.Public, ObjectType.Table, DefaultPrivilegeScope.Global, false, false, None, None, None)
  | Change.AlterRole s1 ats =>
      (4, s1, "", "", None, None, None, role_state_default, ats, ∅, Grantee.Public, ObjectType.Table, DefaultPrivilegeScope.Global, false, false, None, None, None)
  | Change.SetComment s1 o1 =>
      (5, s1, "", "", o1, None, None, role_state_default, [], ∅, Grantee.Public, ObjectType.Table, DefaultPrivilegeScope.Global, false, false, None, None, None)
  | Change.Grant gr ps ot o1 o2 =>
      (6, "", "", "", o1, o2, None, role_state_default, [], ps, gr, ot, DefaultPrivilegeScope.Global, false, false, None, None, None)
  | Change.Revoke gr ps ot o1 o2 o3 =>
      (7, "", "", "", o1, o2, o3, role_state_default, [], ps, gr, ot, DefaultPrivilegeScope.Global, false, false, None, None, None)
  | Change.SetDefaultPrivilege s1 sc ot gr ps =>
      (8, s1, "", "", None, None, None, role_state_default, [], ps, gr, ot, sc, false, false, None, None, None)
  | Change.RevokeDefaultPrivilege s1 sc ot gr ps =>
      (9, s1, "", "", None, None, None, role_state_default, [], ps, gr, ot, sc, false, false, None, None, None)
  | Change.AddMember s1 s2 b1 b2 =>
      (10, s1, s2, "", None, None, None, role_state_default, [], ∅, Grantee.Public, ObjectType.Table, DefaultPrivilegeScope.Global, b1, b2, None, None, None)
  | Change.UpdateMemberOptions s1 s2 s3 x1 x2 bd =>
      (11, s1, s2, s3, None, None, None, role_state_default, [], ∅, Grantee.Public, ObjectType.Table, DefaultPrivilegeScope.Global, false, false, x1, x2, bd)
  | Change.RemoveMember s1 s2 o1 =>
      (12, s1, s2, "", o1, None, None, role_state_default, [], ∅, Grantee.Public, ObjectType.Table, DefaultPrivilegeScope.Global, false, false, None, None, None)
  | Change.ReassignOwned s1 s2 =>
      (13, s1, s2, "", None, None, None, role_state_default, [], ∅, Grantee.Public, ObjectType.Table, DefaultPrivilegeScope.Global, false, false, None, None, None)
  | Change.DropOwned s1 =>
      (14, s1, "", "", None, None, None, role_state_default, [], ∅, Grantee.Public, ObjectType.Table, DefaultPrivilegeScope.Global, false, false, None, None, None)
  | Change.TerminateSessions s1 =>
      (15, s1, "", "", None, None, None, role_state_default, [], ∅, Grantee.Public, ObjectType.Table, DefaultPrivilegeScope.Global, false, false, None, None, None)
  | Change.SetPassword s1 s2 =>
      (16, s1, s2, "", None, None, None, role_state_default, [], ∅, Grantee.Public, ObjectType.Table, DefaultPrivilegeScope.Global, false, false, None, None, None)
  | Change.DropRole s1 =>
      (17, s1, "", "", None, None, None, role_state_default, [], ∅, Grantee.Public, ObjectType.Table, DefaultPrivilegeScope.Global, false, false, None, None, None)
  end.

Definition change_of_fields (f : change_fields) : Change :=
  let '(n, s1, s2, s3, o1, o2, o3, st, ats, ps, gr, ot, sc, b1, b2, x1, x2, bd) := f in
  match n with
  | 0 => Change.CreateRole s1 st
  | 1 => Change.CreateSchema s1 o1
  | 2 => Change.AlterSchemaOwner s1 s2
  | 3 => Change.EnsureSchemaOwnerPrivileges s1 s2 ps
  | 4 => Change.AlterRole s1 ats
  | 5 => Change.SetComment s1 o1
  | 6 => Change.Grant gr ps ot o1 o2
  | 7 => Change.Revoke gr ps ot o1 o2 o3
  | 8 => Change.SetDefaultPrivilege s1 sc ot gr ps
  | 9 => Change.RevokeDefaultPrivilege s1 sc ot gr ps
  | 10 => Change.AddMember s1 s2 b1 b2
  | 11 => Change.UpdateMemberOptions s1 s2 s3 x1 x2 bd
  | 12 => Change.RemoveMember s1 s2 o1
  | 13 => Change.ReassignOwned s1 s2
  | 14 => Change.DropOwned s1
  | 15 => Change.TerminateSessions s1
  | 16 => Change.SetPassword s1 s2
  | _ => Change.DropRole s1
  end.

#[export] Instance change_countable : Countable Change.
Proof. refine (inj_countable' change_to_fields change_of_fields _). by intros []. Defined.

#[export] Instance mode_countable : Countable ReconciliationMode.
Proof.
  refine (inj_countable'
    (λ m, match m with
          | ReconciliationMode.Authoritative => 0 | ReconciliationMode.Additive => 1 | _ => 2 end)
    (λ n, match n with
          | 0 => ReconciliationMode.Authoritative | 1 => ReconciliationMode.Additive
          | _ => ReconciliationMode.Adopt end) _).
  by intros [].
Defined.

(** ** Values *)

Fixpoint value_tree (v : Value) : gen_tree (bool + Z + string) :=
  match v with
  | Value.Null => GenNode 0 []
  | Value.Bool b => GenLeaf (inl (inl b))
  | Value.Number n => GenLeaf (inl (inr n))
  | Value.String s => GenLeaf (inr s)
  | Value.Array l => GenNode 1 (map value_tree l)
  | Value.Object m => GenNode 2 (map (λ p, GenNode 0 [GenLeaf (inr p.1); value_tree p.2]) m)
  end.

Fixpoint tree_value (t : gen_tree (bool + Z + string)) : Value :=
  match t with
  | GenLeaf (inl (inl b)) => Value.Bool b
  | GenLeaf (inl (inr n)) => Value.Number n
  | GenLeaf (inr s) => Value.String s
  | GenNode 1 l => Value.Array (map tree_value l)
  | GenNode 2 l =>
      Value.Object (map (λ t, match t with
                              | GenNode _ [GenLeaf (inr k); t] => (k, tree_value t)
                              | _ => ("", Value.Null)
                              end) l)
  | GenNode _ _ => Value.Null
  end.

Fixpoint tree_value_tree (v : Value) : tree_value (value_tree v) = v.
Proof.
  destruct v as [| | | |l|m]; cbn; [done..| |]; f_equal.
  - induction l as [|v l IH]; [done|]. cbn. by rw tree_value_tree IH.
  - induction m as [|[k v] m IH]; [done|]. cbn. by rw tree_value_tree IH.
Qed.

#[export] Instance value_eq_dec : EqDecision Value.
Proof.
  refine (λ v w, cast_if (decide (value_tree v = value_tree w))).
  - abstract (by rewrite -(tree_value_tree v) e tree_value_tree).
  - abstract congruence.
Defined.
#[export] Instance value_countable : Countable Value.
Proof. exact (inj_countable' value_tree tree_value tree_value_tree). Defined.

#[export] Instance change_set_eq_dec : EqDecision CanonicalChangeSet.
Proof. solve_decision. Defined.
#[export] Instance change_set_countable : Countable CanonicalChangeSet.
Proof.
  refine (inj_countable'
    (λ s, (ccs_effect_encoding s, ccs_reconciliation_mode s, ccs_target s, ccs_target_physical_identity s,
           ccs_target_logical_fingerprint s, ccs_owned_roles s, ccs_owned_schemas s, ccs_effects s))
    (λ '(e, m, t, p, l, r, s, f), {|
       ccs_effect_encoding := e; ccs_reconciliation_mode := m; ccs_target := t;
       ccs_target_physical_identity := p; ccs_target_logical_fingerprint := l; ccs_owned_roles := r;
       ccs_owned_schemas := s; ccs_effects := f |}) _).
  by intros [].
Defined.

Module DigestScene.
(** The variant of a change, as an external tag. *)
Definition variant (c : Change) : string :=
  match c with
  | Change.CreateRole _ _ => "CreateRole"
  | Change.CreateSchema _ _ => "CreateSchema"
  | Change.AlterSchemaOwner _ _ => "AlterSchemaOwner"
  | Change.EnsureSchemaOwnerPrivileges _ _ _ => "EnsureSchemaOwnerPrivileges"
  | Change.AlterRole _ _ => "AlterRole"
  | Change.SetComment _ _ => "SetComment"
  | Change.Grant _ _ _ _ _ => "Grant"
  | Change.Revoke _ _ _ _ _ _ => "Revoke"
  | Change.SetDefaultPrivilege _ _ _ _ _ => "SetDefaultPrivilege"
  | Change.RevokeDefaultPrivilege _ _ _ _ _ => "RevokeDefaultPrivilege"
  | Change.AddMember _ _ _ _ => "AddMember"
  | Change.UpdateMemberOptions _ _ _ _ _ _ => "UpdateMemberOptions"
  | Change.RemoveMember _ _ _ => "RemoveMember"
  | Change.ReassignOwned _ _ => "ReassignOwned"
  | Change.DropOwned _ => "DropOwned"
  | Change.TerminateSessions _ => "TerminateSessions"
  | Change.SetPassword _ _ => "SetPassword"
  | Change.DropRole _ => "DropRole"
  end.

Definition to_value (c : Change) : Value := Value.Object [(variant c, Value.Number (Zpos (encode c)))].
Definition text_of {A} `{Countable A} (x : A) : string := pretty (Npos (encode x)).
Definition to_string (v : Value) : string := text_of v.
Definition to_vec (s : CanonicalChangeSet) : string := text_of s.
Definition hash (s : string) : string := s.

Definition inputs (versions : gmap string string) : EffectDigestInputs := {|
  edi_reconciliation_mode := ReconciliationMode.Authoritative; edi_target := "db/secret";
  edi_target_identity := logical_only "host:5432/app"; edi_password_source_versions := versions;
  edi_owned_roles := ["app"; "owner"]; edi_owned_schemas := [] |}.

(** One plan twice: reordered, and with another password of the same source. *)
Definition plan : list Change := [Change.SetPassword "app" "secret"; Change.DropRole "old"].
Definition replan : list Change := [Change.DropRole "old"; Change.SetPassword "app" "another"].
Definition versions : gmap string string := {[ "app" := "secret:key:7" ]}.
Abbreviation digest changes :=
  (compute_change_digest to_value to_string to_vec hash changes (inputs versions)).
End DigestScene.

#[export] Instance scene_to_value_inj : Inj (=) (=) DigestScene.to_value.
Proof. intros c d [= _ He]. by apply (inj encode). Qed.
#[export] Instance text_of_inj {A} `{Countable A} : Inj (=) (=) (DigestScene.text_of (A := A)).
Proof. intros x y He. unfold DigestScene.text_of in He. apply (inj pretty) in He. injection He as He. by apply (inj encode). Qed.
#[export] Instance scene_to_string_inj : Inj (=) (=) DigestScene.to_string.
Proof. apply text_of_inj. Qed.
#[export] Instance scene_to_vec_inj : Inj (=) (=) DigestScene.to_vec.
Proof. apply text_of_inj. Qed.
#[export] Instance scene_hash_inj : Inj (=) (=) DigestScene.hash.
Proof. by intros s t. Qed.

Lemma scene_tag change v :
  DigestScene.to_value change = Value.Object [("SetPassword", v)] →
  ∃ name password, change = Change.SetPassword name password.
Proof. intros [= Ht _]. destruct change; try discriminate Ht. eauto. Qed.

Lemma scene_sources :
  sources_known DigestScene.versions DigestScene.plan ∧ sources_known DigestScene.versions DigestScene.replan.
Proof.
  split; intros name password Hin; unfold DigestScene.plan, DigestScene.replan in Hin; elem_inv Hin;
    try discriminate Hin; injection Hin as -> _; by eexists.
Qed.

