(* ===== verification/PlanStatus.v ===== *)
(** * Plan objects and their status ([crd.rs], [plan.rs])

    The [PostgresPolicyPlan] object, the decisions its conditions record, the validation
    rules its definition gives the API server, and every status write of the operator.
    Timestamps written by the operator are an argument [now] of the writes: the clock is
    not code of the program.  A write is the status the operator sends; a phase-only write
    leaves the other fields as they are. *)

From S2P Require Import Prelude BTree RustStr Types Model Change Plan Sql Approval.

(** ** The object *)

Module PlanPhase.
Inductive PlanPhase : Set :=
  Pending | Approved | Applying | Applied | Failed | Superseded | Rejected.

#[export] Instance phase_eq_dec : EqDecision PlanPhase.
Proof. solve_decision. Defined.
End PlanPhase.
Abbreviation PlanPhase := PlanPhase.PlanPhase.
Export (hints) PlanPhase.

Record PolicyCondition := {
  condition_type : string;
  condition_status : string;
  condition_reason : option string;
  condition_message : option string;
  last_transition_time : option string;
}.

Record DecisionActor := {
  username : string;
  actor_uid : option string;
  actor_groups : list string;
}.

#[export] Instance decision_actor_eq_dec : EqDecision DecisionActor.
Proof. solve_decision. Defined.

Record ChangeSummary := {
  roles_created : Z; roles_altered : Z; schemas_created : Z; schema_owners_altered : Z;
  roles_dropped : Z; sessions_terminated : Z; grants_added : Z; grants_revoked : Z;
  default_privileges_set : Z; default_privileges_revoked : Z; members_added : Z;
  members_options_changed : Z; members_removed : Z; passwords_set : Z; total : Z;
}.

Inductive SqlCompression : Set := Gzip.

Record SqlRef := {
  ref_name : string;
  ref_key : string;
  ref_compression : option SqlCompression;
}.

Record PlanStatus := {
  phase : PlanPhase;
  conditions : list PolicyCondition;
  decided_by : option DecisionActor;
  change_summary : option ChangeSummary;
  sql_ref : option SqlRef;
  sql_inline : option string;
  sql_truncated : bool;
  computed_at : option string;
  applied_at : option string;
  last_error : option string;
  sql_hash : option string;
  change_digest : option string;
  password_source_digest : option string;
  change_digest_encoding : option string;
  target_physical_identity : option string;
  target_logical_fingerprint : option string;
  physical_identity_available : option bool;
  revalidated_generation : option Z;
  revalidated_at : option string;
  applying_since : option string;
  failed_at : option string;
  sql_statements : option Z;
  redacted_sql_hash : option string;
  sql_original_bytes : option Z;
  sql_stored_bytes : option Z;
}.

Definition default_status : PlanStatus := {|
  phase := PlanPhase.Pending; conditions := []; decided_by := None; change_summary := None;
  sql_ref := None; sql_inline := None; sql_truncated := false; computed_at := None;
  applied_at := None; last_error := None; sql_hash := None; change_digest := None;
  password_source_digest := None; change_digest_encoding := None;
  target_physical_identity := None; target_logical_fingerprint := None;
  physical_identity_available := None; revalidated_generation := None; revalidated_at := None;
  applying_since := None; failed_at := None; sql_statements := None;
  redacted_sql_hash := None; sql_original_bytes := None; sql_stored_bytes := None |}.

Module ScopedPlanOperation.
Inductive ScopedPlanOperation : Set := Activate | Revoke.
End ScopedPlanOperation.
Abbreviation ScopedPlanOperation := ScopedPlanOperation.ScopedPlanOperation.

Record PlanScope := {
  scope_kind : string;
  operation : ScopedPlanOperation;
  bundle_hash : string;
}.

Record PlanOrigin := {
  origin_kind : string;
  origin_name : string;
  origin_uid : string;
  content_digest : option string;
  content_digest_encoding : option string;
  policy_uid : option string;
  base_content_digest : option string;
}.

Module CrdReconciliationMode.
Inductive CrdReconciliationMode : Set := Authoritative | Additive | Adopt.
End CrdReconciliationMode.
Abbreviation CrdReconciliationMode := CrdReconciliationMode.CrdReconciliationMode.

Record PlanSpec := {
  policy_ref : string;
  policy_generation : Z;
  reconciliation_mode : CrdReconciliationMode;
  owned_roles : list string;
  owned_schemas : list string;
  managed_database_identity : string;
  origin : option PlanOrigin;
  scope : option PlanScope;
}.

#[export] Instance sql_compression_eq_dec : EqDecision SqlCompression.
Proof. solve_decision. Defined.
#[export] Instance operation_eq_dec : EqDecision ScopedPlanOperation.
Proof. solve_decision. Defined.
#[export] Instance scope_eq_dec : EqDecision PlanScope.
Proof. solve_decision. Defined.
#[export] Instance origin_eq_dec : EqDecision PlanOrigin.
Proof. solve_decision. Defined.
#[export] Instance crd_mode_eq_dec : EqDecision CrdReconciliationMode.
Proof. solve_decision. Defined.
#[export] Instance plan_spec_eq_dec : EqDecision PlanSpec.
Proof. solve_decision. Defined.

Record OwnerReference := {
  owner_kind : string;
  owner_uid : string;
  controller : option bool;
}.

(** A plan object: the metadata the operator reads, the spec and the status.  The creation
    time is in nanoseconds since the epoch. *)
Record PolicyPlan := {
  plan_name : string;
  creation_timestamp : option Z;
  labels : option (gmap string string);
  owner_references : list OwnerReference;
  spec : PlanSpec;
  status : option PlanStatus;
}.

(** [Timestamp::as_second] *)
Definition as_second (t : Z) : Z := Z.quot t 1000000000.

Definition with_status (p : PolicyPlan) (s : option PlanStatus) : PolicyPlan := {|
  plan_name := plan_name p; creation_timestamp := creation_timestamp p; labels := labels p;
  owner_references := owner_references p; spec := spec p; status := s |}.

Definition LABEL_KEEP : string := "pgroles.io/keep".

Definition keep_labelled (ls : option (gmap string string)) : bool :=
  match ls with
  | Some ls => bool_decide (ls !! LABEL_KEEP = Some "true")
  | None => false
  end.
Definition is_retention_exempt (resource : PolicyPlan) : bool := keep_labelled (labels resource).

(** [is_owned_by_uid] *)
Definition controlled_by (owners : list OwnerReference) (uid : string) : bool :=
  existsb (λ o, (String.eqb (owner_uid o) uid) && default false (controller o)) owners.
Definition is_owned_by_uid (resource : PolicyPlan) (uid : string) : bool :=
  controlled_by (owner_references resource) uid.

(** [PlanOwner::owns]: [uid] is the owner's, which may have none. *)
Definition owns (uid : option string) (resource : PolicyPlan) : bool :=
  match uid with
  | Some uid => is_owned_by_uid resource uid
  | None => false
  end.

(** ** Decisions *)

Definition holds (condition : string) (c : PolicyCondition) : bool :=
  String.eqb (condition_type c) condition && String.eqb (condition_status c) "True".

Definition is_denied (s : PlanStatus) : bool := existsb (holds "Denied") (conditions s).

Definition is_decision (c : PolicyCondition) : bool :=
  (String.eqb (condition_type c) "Approved" || String.eqb (condition_type c) "Denied") &&
  String.eqb (condition_status c) "True".

Definition has_terminal_decision (s : PlanStatus) : bool := existsb is_decision (conditions s).

Module PlanApprovalState.
Inductive PlanApprovalState : Set := Pending | Approved | Rejected.
End PlanApprovalState.
Abbreviation PlanApprovalState := PlanApprovalState.PlanApprovalState.

(** [check_plan_approval], on the plan's status *)
Definition check_plan_approval (plan_status : option PlanStatus) : PlanApprovalState :=
  match plan_status with
  | None => PlanApprovalState.Pending
  | Some s =>
      let decided condition := existsb (holds condition) (conditions s) in
      if decided "Denied" then PlanApprovalState.Rejected
      else if decided "Approved" then PlanApprovalState.Approved
      else PlanApprovalState.Pending
  end.

Definition plan_matches_digest (s : PlanStatus) (digest : string) : bool :=
  bool_decide (change_digest_encoding s = Some APPROVAL_EFFECT_ENCODING_V3) &&
  bool_decide (change_digest s = Some digest).

Definition plan_target_identity (s : PlanStatus) : TargetIdentity := {|
  physical := target_physical_identity s; logical := target_logical_fingerprint s |}.

Definition needs_revalidation_record (s : PlanStatus) (generation : option Z) : bool :=
  bool_decide (revalidated_generation s ≠ generation).

Definition plan_base_pin (plan : PolicyPlan) : option string :=
  origin (spec plan) ≫= base_content_digest.

(** ** Writing conditions *)

Definition set_plan_condition (now : string) (cs : list PolicyCondition)
    (type_ status_ reason message : string) : list PolicyCondition :=
  let transition_time :=
    match list_find (λ c, condition_type c = type_) cs with
    | Some (_, existing) =>
        if String.eqb (condition_status existing) status_
        then last_transition_time existing else Some now
    | None => Some now
    end in
  filter (λ c, condition_type c ≠ type_) cs ++
  [{| condition_type := type_; condition_status := status_; condition_reason := Some reason;
      condition_message := Some message; last_transition_time := transition_time |}].

(** The lifecycle fields of a status replaced, the others kept. *)
Definition with_lifecycle (s : PlanStatus) (ph : PlanPhase) (cs : list PolicyCondition)
    (actor : option DecisionActor) (applied error since failed : option string) : PlanStatus := {|
  phase := ph; conditions := cs; decided_by := actor; change_summary := change_summary s;
  sql_ref := sql_ref s; sql_inline := sql_inline s; sql_truncated := sql_truncated s;
  computed_at := computed_at s; applied_at := applied; last_error := error;
  sql_hash := sql_hash s; change_digest := change_digest s;
  password_source_digest := password_source_digest s;
  change_digest_encoding := change_digest_encoding s;
  target_physical_identity := target_physical_identity s;
  target_logical_fingerprint := target_logical_fingerprint s;
  physical_identity_available := physical_identity_available s;
  revalidated_generation := revalidated_generation s; revalidated_at := revalidated_at s;
  applying_since := since; failed_at := failed; sql_statements := sql_statements s;
  redacted_sql_hash := redacted_sql_hash s; sql_original_bytes := sql_original_bytes s;
  sql_stored_bytes := sql_stored_bytes s |}.

Definition set_phase (s : PlanStatus) (ph : PlanPhase) : PlanStatus :=
  with_lifecycle s ph (conditions s) (decided_by s) (applied_at s) (last_error s)
    (applying_since s) (failed_at s).

Definition set_conditions (s : PlanStatus) (cs : list PolicyCondition) : PlanStatus :=
  with_lifecycle s (phase s) cs (decided_by s) (applied_at s) (last_error s)
    (applying_since s) (failed_at s).

(** ** Why a plan is retired *)

Module SupersedeCause.
Inductive SupersedeCause : Set :=
  | EffectsChanged
  | PasswordSourceChanged
  | EffectsCleared
  | ReplacedByNewerPlan
  | DuplicateOfActionablePlan
  | TargetChanged (reason : TargetIdentityReason)
  | PolicyStoppedPlanning
  | SupersededByPromotion
  | BaseContentChanged.

#[export] Instance identity_reason_eq_dec : EqDecision TargetIdentityReason.
Proof. solve_decision. Defined.
#[export] Instance cause_eq_dec : EqDecision SupersedeCause.
Proof. solve_decision. Defined.
End SupersedeCause.
Abbreviation SupersedeCause := SupersedeCause.SupersedeCause.
Export (hints) SupersedeCause.

Definition cause_reason (self : SupersedeCause) : string :=
  match self with
  | SupersedeCause.TargetChanged reason => reason_as_str reason
  | SupersedeCause.PasswordSourceChanged => "PasswordSourceChanged"
  | SupersedeCause.SupersededByPromotion => "SupersededByPromotion"
  | SupersedeCause.BaseContentChanged => "SupersededByBaseChange"
  | _ => "Superseded"
  end.

(** [TargetIdentityReason::message] *)
Definition identity_message (self : TargetIdentityReason) : string :=
  match self with
  | TargetIdentityReason.TargetChanged =>
      "the database this plan was approved against is not the database it would now execute against"
  | TargetIdentityReason.TargetIdentityUnavailable =>
      "an identity bound at approval time can no longer be read from the target"
  | TargetIdentityReason.TargetIdentityAppeared =>
      "an identity that was unavailable at approval time is now readable, so the approval was never bound to it"
  | TargetIdentityReason.PhysicalIdentityRequired =>
      "requirePhysicalIdentity is set but pg_control_system().system_identifier could not be read from the target"
  end.

Definition cause_message (self : SupersedeCause) : string :=
  match self with
  | SupersedeCause.PasswordSourceChanged =>
      "password source versions changed after planning; review and approve the replacement plan"
  | SupersedeCause.EffectsChanged =>
      "the policy's effects changed since this plan was computed, so it no longer describes what would happen"
  | SupersedeCause.EffectsCleared =>
      "the changes this plan described are no longer pending, so there is nothing left to execute"
  | SupersedeCause.ReplacedByNewerPlan =>
      "a newer plan holds the current effects and replaces this one"
  | SupersedeCause.DuplicateOfActionablePlan =>
      "another actionable plan holds identical effects and is the one this policy acts on, so this duplicate will never execute"
  | SupersedeCause.TargetChanged reason => identity_message reason
  | SupersedeCause.PolicyStoppedPlanning =>
      "the policy no longer references this plan, so it will never be executed"
  | SupersedeCause.SupersededByPromotion =>
      "another candidate's content was promoted and executed, so this plan describes a change against a base that no longer exists"
  | SupersedeCause.BaseContentChanged =>
      "the policy's content changed after this candidate plan was computed against it; a fresh plan pinned to the current base replaces it and needs its own review"
  end.

(** ** Status writes *)

Definition AUTO_APPROVAL_ACTOR : string := "system:pgroles-operator(auto-approval)".

Definition superseded_status (now : string) (s : PlanStatus) (cause : SupersedeCause) : PlanStatus :=
  let next := set_phase s PlanPhase.Superseded in
  let next := set_conditions next
    (set_plan_condition now (conditions next) "Superseded" "True"
       (cause_reason cause) (cause_message cause)) in
  if has_terminal_decision s then next
  else set_conditions next
    (set_plan_condition now (conditions next) "Approved" "False"
       (cause_reason cause) (cause_message cause)).

Definition mark_plan_superseded (now : string) (plan_status : option PlanStatus)
    (cause : SupersedeCause) : PlanStatus :=
  superseded_status now (default default_status plan_status) cause.

(** The failures of the modelled operations; the source has further ones, of calls that are
    not modelled. *)
Module ReconcileError.
Inductive ReconcileError : Set :=
  | ApprovalDigest (e : ApprovalDigestError)
  | ExecutorAuthority (message : string)
  | PlanDenied (name : string)
  | PlanRetryDeferred (name recorded : string)
  | NonConvergentPlan (name : string)
  | PlanSqlStorage (message : string)
  | PlanNameCollision (name : string)
  | SqlExec (message : string)
  | SqlRender (e : SqlRenderError)
  | ManifestExpansion (e : ManifestError)
  | InvalidSpec (message : string)
  | LockContention (database reason : string)
  | Kube (message : string).
End ReconcileError.
Abbreviation ReconcileError := ReconcileError.ReconcileError.

Definition mark_plan_approved (now : string) (plan : PolicyPlan)
    (reason message : string) : res ReconcileError PlanStatus :=
  let existing := default default_status (status plan) in
  if is_denied existing then Err (ReconcileError.PlanDenied (plan_name plan))
  else if has_terminal_decision existing then Ok (set_phase existing PlanPhase.Approved)
  else
    let actor :=
      match decided_by existing with
      | None => Some {| username := AUTO_APPROVAL_ACTOR; actor_uid := None; actor_groups := [] |}
      | Some actor => Some actor
      end in
    Ok (with_lifecycle existing PlanPhase.Approved
          (set_plan_condition now (conditions existing) "Approved" "True" reason message)
          actor (applied_at existing) (last_error existing) (applying_since existing)
          (failed_at existing)).

Definition mark_plan_rejected_with (s : PlanStatus) : PlanStatus := set_phase s PlanPhase.Rejected.

(** [mark_plan_failed], and the failure branch of [execute_plan] *)
Definition failed_status (now : string) (plan_status : option PlanStatus) (error_message : string)
    : PlanStatus :=
  let s := default default_status plan_status in
  with_lifecycle s PlanPhase.Failed (conditions s) (decided_by s) (applied_at s)
    (Some error_message) (applying_since s) (Some now).

(** The success branch of [execute_plan]. *)
Definition applied_status (now : string) (plan_status : option PlanStatus) : PlanStatus :=
  let s := default default_status plan_status in
  with_lifecycle s PlanPhase.Applied
    (set_plan_condition now (conditions s) "Approved" "True" "Approved" "Plan approved and executed")
    (decided_by s) (Some now) None (applying_since s) (failed_at s).

Definition record_plan_revalidation (now : string) (generation : option Z) (s : PlanStatus)
    : PlanStatus := {|
  phase := phase s; conditions := conditions s; decided_by := decided_by s;
  change_summary := change_summary s; sql_ref := sql_ref s; sql_inline := sql_inline s;
  sql_truncated := sql_truncated s; computed_at := computed_at s; applied_at := applied_at s;
  last_error := last_error s; sql_hash := sql_hash s; change_digest := change_digest s;
  password_source_digest := password_source_digest s;
  change_digest_encoding := change_digest_encoding s;
  target_physical_identity := target_physical_identity s;
  target_logical_fingerprint := target_logical_fingerprint s;
  physical_identity_available := physical_identity_available s;
  revalidated_generation := generation; revalidated_at := Some now;
  applying_since := applying_since s; failed_at := failed_at s;
  sql_statements := sql_statements s; redacted_sql_hash := redacted_sql_hash s;
  sql_original_bytes := sql_original_bytes s; sql_stored_bytes := sql_stored_bytes s |}.

(** *** The phase write

    [update_plan_phase] sends a JSON object of its own: its keys are matched against the
    field names of the status, which are in camel case, and a key that names no field is
    dropped. *)

Definition phase_text (ph : PlanPhase) : string :=
  match ph with
  | PlanPhase.Pending => "Pending"
  | PlanPhase.Approved => "Approved"
  | PlanPhase.Applying => "Applying"
  | PlanPhase.Applied => "Applied"
  | PlanPhase.Failed => "Failed"
  | PlanPhase.Superseded => "Superseded"
  | PlanPhase.Rejected => "Rejected"
  end.

Definition phase_of_text (s : string) : option PlanPhase :=
  list_find (λ ph, phase_text ph = s)
    [PlanPhase.Pending; PlanPhase.Approved; PlanPhase.Applying; PlanPhase.Applied;
     PlanPhase.Failed; PlanPhase.Superseded; PlanPhase.Rejected] ≫= λ '(_, ph), Some ph.

(** The text fields a phase write can reach, by the name they are stored under. *)
Definition write_field (s : PlanStatus) (field : string * string) : PlanStatus :=
  let '(key, value) := field in
  if String.eqb key "phase" then
    match phase_of_text value with Some ph => set_phase s ph | None => s end
  else if String.eqb key "applyingSince" then
    with_lifecycle s (phase s) (conditions s) (decided_by s) (applied_at s) (last_error s)
      (Some value) (failed_at s)
  else s.

Definition phase_patch (now : string) (ph : PlanPhase) : list (string * string) :=
  [("phase", phase_text ph)] ++
  (if decide (ph = PlanPhase.Applying) then [("applying_since", now)] else []).

Definition update_plan_phase (now : string) (s : PlanStatus) (ph : PlanPhase) : PlanStatus :=
  foldl write_field s (phase_patch now ph).

(** The recovery of a plan stuck in [Applying] ([reconcile], step 5b), with the elapsed
    seconds since [applying_since] when it is readable. *)
Definition STUCK_THRESHOLD_SECS : Z := 5 * 60.

Definition recover_stuck_plan (parse_ts : string → option Z) (now_ts : Z) (now : string)
    (s : PlanStatus) : PlanStatus :=
  match applying_since s ≫= parse_ts with
  | Some since =>
      if (STUCK_THRESHOLD_SECS <? Z.max 0 (now_ts - since))%Z
      then failed_status now (Some s) "execution interrupted: operator restarted during apply"
      else s
  | None => s
  end.

(** ** Validation by the API server

    The rules the status type carries.  [valid] are those on a status alone, [transition]
    those that compare it with the one it replaces. *)

Definition decision_types (s : PlanStatus) : list string :=
  condition_type <$> filter (λ c, is_decision c) (conditions s).

Definition valid_status (s : PlanStatus) : bool :=
  negb (existsb (holds "Approved") (conditions s) && existsb (holds "Denied") (conditions s)) &&
  bool_decide (has_terminal_decision s = bool_decide (is_Some (decided_by s))).

Definition write_once {A} `{EqDecision A} (old new : option A) : bool :=
  match old with
  | None => true
  | Some _ => bool_decide (new = old)
  end.

Definition transition_status (old new : PlanStatus) : bool :=
  (bool_decide (decision_types old = decision_types new) ||
   bool_decide (decision_types old = [])) &&
  write_once (decided_by old) (decided_by new) &&
  write_once (change_digest old) (change_digest new) &&
  write_once (change_digest_encoding old) (change_digest_encoding new) &&
  write_once (target_physical_identity old) (target_physical_identity new) &&
  write_once (target_logical_fingerprint old) (target_logical_fingerprint new) &&
  write_once (physical_identity_available old) (physical_identity_available new).

Definition admitted (old new : PlanStatus) : bool := valid_status new && transition_status old new.
