(* ===== verification/PlanWrites.v ===== *)
(** * The status writes of the operator

    What a write does to the decisions of a plan, which writes the operator makes, and that
    the API server admits each of them. *)

From S2P Require Import Prelude BTree RustStr Types Model Change Plan Approval PlanStatus.

(** ** Decisions of a list of conditions *)

Definition types_of (cs : list PolicyCondition) : list string :=
  condition_type <$> filter (λ c, is_decision c) cs.

Lemma types_of_status s : decision_types s = types_of (conditions s).
Proof. done. Qed.

Lemma types_of_app cs ds : types_of (cs ++ ds) = types_of cs ++ types_of ds.
Proof. unfold types_of. by rw filter_app fmap_app. Qed.

Lemma types_of_cons c cs :
  types_of (c :: cs) = (if is_decision c then [condition_type c] else []) ++ types_of cs.
Proof.
  unfold types_of. rw filter_cons. by destruct (is_decision c).
Qed.

(** A condition holds exactly when it is one of the decisions. *)
Lemma holds_types cs condition :
  condition = "Approved" ∨ condition = "Denied" →
  existsb (holds condition) cs = bool_decide (condition ∈ types_of cs).
Proof.
  intros Hc. induction cs as [|c cs IH]; [done|].
  rw types_of_cons. cbn. rw IH. unfold holds, is_decision.
  destruct (String.eqb_spec (condition_status c) "True"); cycle 1.
  { by rw !andb_false_r. }
  rw !andb_true_r. destruct (String.eqb_spec (condition_type c) condition) as [Hct|Hct]; cbn.
  - symmetry. apply bool_decide_eq_true. destruct Hc as [-> | ->]; rw Hct; cbn; left.
  - destruct (_ || _); cbn; [|done]. apply bool_decide_ext. rw elem_of_cons. naive_solver.
Qed.

Lemma is_denied_types s : is_denied s = bool_decide ("Denied" ∈ decision_types s).
Proof. apply holds_types. by right. Qed.

Lemma terminal_types s :
  has_terminal_decision s = bool_decide (decision_types s ≠ []).
Proof.
  rw types_of_status. unfold has_terminal_decision. induction (conditions s) as [|c cs IH]; [done|].
  rw types_of_cons. cbn. rw IH. by destruct (is_decision c).
Qed.

Lemma types_of_decisions cs t : t ∈ types_of cs → t = "Approved" ∨ t = "Denied".
Proof.
  unfold types_of. intros (c & -> & Hc)%list_elem_of_fmap. apply list_elem_of_filter in Hc as [Hc _].
  unfold is_decision in Hc. destruct (String.eqb_spec (condition_type c) "Approved"); [by left|].
  destruct (String.eqb_spec (condition_type c) "Denied"); [by right|done].
Qed.

(** ** One condition written *)

Lemma set_condition_types now cs t v r m :
  types_of (set_plan_condition now cs t v r m) =
    types_of (filter (λ c, condition_type c ≠ t) cs) ++
    types_of [{| condition_type := t; condition_status := v; condition_reason := Some r;
                 condition_message := Some m; last_transition_time := None |}].
Proof. unfold set_plan_condition. rw types_of_app. f_equal. by rw !types_of_cons. Qed.

Lemma types_of_filter t cs :
  types_of (filter (λ c, condition_type c ≠ t) cs) = filter (λ x, x ≠ t) (types_of cs).
Proof.
  induction cs as [|c cs IH]; [done|]. rw filter_cons types_of_cons filter_app.
  case_decide as Ht.
  - rw types_of_cons IH. destruct (is_decision c); cbn; [|done]. by case_decide.
  - rw IH. destruct (is_decision c); cbn; [|done]. by case_decide.
Qed.

Lemma set_other_types now cs t v r m :
  t ≠ "Approved" → t ≠ "Denied" →
  types_of (set_plan_condition now cs t v r m) = types_of cs.
Proof.
  intros Ha Hd. rw set_condition_types types_of_filter types_of_cons.
  assert (is_decision {| condition_type := t; condition_status := v; condition_reason := Some r;
    condition_message := Some m; last_transition_time := None |} = false) as ->.
  { unfold is_decision. cbn. destruct (String.eqb_spec t "Approved"); [done|].
    by destruct (String.eqb_spec t "Denied"). }
  cbn. rw app_nil_r. apply list_filter_all. intros x Hx%types_of_decisions. naive_solver.
Qed.

Lemma set_approved_types now cs v r m :
  types_of (set_plan_condition now cs "Approved" v r m) =
    filter (λ x, x ≠ "Approved") (types_of cs) ++ (if String.eqb v "True" then ["Approved"] else []).
Proof.
  rw set_condition_types types_of_filter. f_equal. rw types_of_cons. unfold is_decision. cbn.
  by destruct (String.eqb v "True").
Qed.

(** ** One entry for each type *)

Definition one_entry_each (cs : list PolicyCondition) : Prop := NoDup (condition_type <$> cs).

Lemma set_condition_one_entry now cs t v r m :
  one_entry_each cs → one_entry_each (set_plan_condition now cs t v r m).
Proof.
  unfold one_entry_each, set_plan_condition. intros Hcs. rw fmap_app. apply NoDup_app.
  split_and!; [| |apply NoDup_singleton].
  - apply (sublist_NoDup _ (condition_type <$> cs)); [done|].
    apply fmap_sublist, sublist_filter.
  - intros x (c & -> & [Hc _]%list_elem_of_filter)%list_elem_of_fmap.
    by intros ?%list_elem_of_singleton.
Qed.

Lemma one_entry_types cs : one_entry_each cs → NoDup (types_of cs).
Proof.
  unfold one_entry_each, types_of. intros Hcs.
  apply (sublist_NoDup _ (condition_type <$> cs)); [done|].
  apply fmap_sublist, sublist_filter.
Qed.

(** ** Well-formed statuses *)

Record well_formed (s : PlanStatus) : Prop := {
  entries_distinct : one_entry_each (conditions s);
  status_valid : valid_status s = true;
}.

(** The validation rules, read on the decisions. *)
Lemma valid_status_spec s :
  valid_status s = true ↔
  ¬ ("Approved" ∈ decision_types s ∧ "Denied" ∈ decision_types s) ∧
  (decision_types s ≠ [] ↔ is_Some (decided_by s)).
Proof.
  unfold valid_status. rw (holds_types _ "Approved"); [|by left]. rw (holds_types _ "Denied"); [|by right].
  rw -types_of_status terminal_types andb_true_iff negb_true_iff bool_decide_eq_true.
  rw andb_false_iff !bool_decide_eq_false. split.
  - intros [Hx Hd]. split; [tauto|]. by rw -(bool_decide_eq_true (is_Some _)) -Hd bool_decide_eq_true.
  - intros [Hx Hd]. split; [|by apply bool_decide_ext].
    destruct (decide ("Approved" ∈ decision_types s)); [|by left]. right. tauto.
Qed.

Lemma decisions_shape s :
  well_formed s →
  decision_types s = [] ∨ decision_types s = ["Approved"] ∨ decision_types s = ["Denied"].
Proof.
  intros [Hone [Hx _]%valid_status_spec]. apply one_entry_types in Hone. rw -types_of_status in Hone.
  pose proof (types_of_decisions (conditions s)) as Ht. rw -types_of_status in Ht.
  destruct (decision_types s) as [|t [|u ts]]; [by left|..].
  - right. destruct (Ht t) as [-> | ->]; [left|by left|by right].
  - exfalso. apply NoDup_cons in Hone as [Htu _].
    assert (t ≠ u) by (intros ->; apply Htu; left).
    destruct (Ht t) as [-> | ->]; [left|..]; (destruct (Ht u) as [-> | ->]; [right; left|..]); try done;
      apply Hx; split; repeat (left || right).
Qed.

(** A write that keeps the decisions and what approvals are bound to. *)
Definition binding_fields (s : PlanStatus) :=
  (change_digest s, change_digest_encoding s, target_physical_identity s,
   target_logical_fingerprint s, physical_identity_available s).

Lemma write_once_refl {A} `{EqDecision A} (o : option A) : write_once o o = true.
Proof. destruct o; [by apply bool_decide_eq_true|done]. Qed.

Lemma write_once_None {A} `{EqDecision A} (o : option A) : write_once None o = true.
Proof. done. Qed.

Lemma transition_intro old new :
  decision_types old = decision_types new ∨ decision_types old = [] →
  write_once (decided_by old) (decided_by new) = true →
  binding_fields new = binding_fields old →
  transition_status old new = true.
Proof.
  unfold transition_status, binding_fields. intros Ht -> [= -> -> -> -> ->].
  rw !write_once_refl !andb_true_r. apply orb_true_iff. rw !bool_decide_eq_true. tauto.
Qed.

(** The operator keeps the binding fields: what is left to show of a write. *)
Lemma write_admitted old new :
  well_formed old →
  binding_fields new = binding_fields old →
  one_entry_each (conditions new) →
  (decision_types new = decision_types old ∧ decided_by new = decided_by old) ∨
  (decision_types old = [] ∧ decision_types new = ["Approved"] ∧ is_Some (decided_by new) ∧
   decided_by old = None) →
  admitted old new = true ∧ well_formed new.
Proof.
  intros [_ Hv] Hb Hone Hd.
  assert (valid_status new = true) as Hnew.
  { apply valid_status_spec. destruct Hd as [[-> ->]|(_ & -> & Hs & _)]; [by apply valid_status_spec|].
    split; [|done]. intros [_ H]. by apply list_elem_of_singleton in H. }
  split; [|by split]. unfold admitted. rw Hnew. apply transition_intro; [..|done].
  - destruct Hd as [[-> _]|(-> & _)]; [by left|by right].
  - destruct Hd as [[_ ->]|(_ & _ & _ & ->)]; [apply write_once_refl|done].
Qed.

Lemma undecided_actor s : well_formed s → decision_types s = [] → decided_by s = None.
Proof.
  intros [_ [_ Hd]%valid_status_spec] Hn. destruct (decided_by s) eqn:Ha; [|done].
  exfalso. apply Hd; [by eexists|done].
Qed.

(** ** Each write *)

Lemma check_approved s :
  check_plan_approval (Some s) = PlanApprovalState.Approved ↔
  "Approved" ∈ decision_types s ∧ "Denied" ∉ decision_types s.
Proof.
  unfold check_plan_approval. rw (holds_types _ "Approved"); [|by left].
  rw (holds_types _ "Denied"); [|by right]. rw -types_of_status.
  destruct (decide ("Denied" ∈ decision_types s)) as [Hd|Hd].
  - rw (bool_decide_true _ Hd). split; [done|tauto].
  - rw (bool_decide_false _ Hd). destruct (decide ("Approved" ∈ decision_types s)) as [Ha|Ha].
    + by rw (bool_decide_true _ Ha).
    + rw (bool_decide_false _ Ha). split; [done|tauto].
Qed.

Lemma approved_types s :
  well_formed s → check_plan_approval (Some s) = PlanApprovalState.Approved →
  decision_types s = ["Approved"].
Proof.
  intros Hwf [Ha Hd]%check_approved. destruct (decisions_shape s Hwf) as [H|[H|H]]; [|done|];
    rw H in Ha Hd; [by apply not_elem_of_nil in Ha|]. exfalso. apply Hd. left.
Qed.

Lemma superseded_status_spec now s cause :
  well_formed s →
  phase (superseded_status now s cause) = PlanPhase.Superseded ∧
  decision_types (superseded_status now s cause) = decision_types s ∧
  decided_by (superseded_status now s cause) = decided_by s ∧
  binding_fields (superseded_status now s cause) = binding_fields s ∧
  one_entry_each (conditions (superseded_status now s cause)).
Proof.
  intros [Hone _]. unfold superseded_status. rw terminal_types.
  destruct (bool_decide_reflect (decision_types s ≠ [])) as [Ht|Ht].
  - split_and!; [done| |done..|by apply set_condition_one_entry].
    rw !types_of_status. by apply set_other_types.
  - split_and!; [done| |done..|by do 2 apply set_condition_one_entry].
    rw !types_of_status. cbn [conditions set_conditions with_lifecycle].
    rw set_approved_types set_other_types; [|done..].
    change (conditions (set_phase s PlanPhase.Superseded)) with (conditions s).
    rw -types_of_status. destruct (decision_types s); [done|]. exfalso. by apply Ht.
Qed.

(** The result of [mark_plan_approved] on a plan that carries no denial. *)
Lemma mark_plan_approved_spec now plan s r m s' :
  status plan = Some s → well_formed s → mark_plan_approved now plan r m = Ok s' →
  phase s' = PlanPhase.Approved ∧ decision_types s' = ["Approved"] ∧ is_Some (decided_by s') ∧
  binding_fields s' = binding_fields s ∧ one_entry_each (conditions s') ∧
  "Denied" ∉ decision_types s ∧
  (decision_types s = ["Approved"] → decided_by s' = decided_by s ∧ conditions s' = conditions s).
Proof.
  intros Hplan Hwf. unfold mark_plan_approved. rw Hplan. cbn [default from_option id]. rw is_denied_types terminal_types.
  destruct (bool_decide_reflect ("Denied" ∈ decision_types s)) as [|Hd]; [done|].
  destruct (bool_decide_reflect (decision_types s ≠ [])) as [Ht|Ht].
  - intros [= <-]. destruct (decisions_shape s Hwf) as [H|[H|H]]; [done| |].
    + split_and!; try done; [|by destruct Hwf].
      destruct Hwf as [_ [_ Hs]%valid_status_spec]. by apply Hs.
    + exfalso. apply Hd. rw H. left.
  - intros [= <-]. destruct (decision_types s) eqn:Hs; [|exfalso; by apply Ht].
    split_and!; try done.
    + rw types_of_status. cbn [conditions with_lifecycle]. by rw set_approved_types -types_of_status Hs.
    + cbn. by destruct (decided_by s).
    + cbn. apply set_condition_one_entry. by destruct Hwf.
Qed.

(** The phase write keeps everything else: the time it means to record reaches no field. *)
Lemma update_plan_phase_set now s ph : update_plan_phase now s ph = set_phase s ph.
Proof. destruct ph; reflexivity. Qed.

Lemma applied_status_spec now s :
  decision_types s = ["Approved"] → one_entry_each (conditions s) →
  phase (applied_status now (Some s)) = PlanPhase.Applied ∧
  decision_types (applied_status now (Some s)) = ["Approved"] ∧
  one_entry_each (conditions (applied_status now (Some s))).
Proof.
  intros Hs Hone. split_and!; [done| |by apply set_condition_one_entry].
  rw types_of_status. cbn [conditions applied_status with_lifecycle default from_option id].
  by rw set_approved_types -types_of_status Hs.
Qed.

Lemma recover_cases parse_ts now_ts now s :
  recover_stuck_plan parse_ts now_ts now s = s ∨
  ∃ error, recover_stuck_plan parse_ts now_ts now s = failed_status now (Some s) error.
Proof.
  unfold recover_stuck_plan. destruct (applying_since s ≫= parse_ts); [|by left].
  case_match; [right; by eexists|by left].
Qed.

(** ** The writes of the operator

    An execution starts and ends on a plan that reads as approved. *)
Inductive operator_write : PlanStatus → PlanStatus → Prop :=
  | Supersede now cause s : operator_write s (superseded_status now s cause)
  | Approve now plan reason message s s' :
      status plan = Some s → mark_plan_approved now plan reason message = Ok s' →
      operator_write s s'
  | Reject s : is_denied s = true → operator_write s (mark_plan_rejected_with s)
  | Fail_ now message s : operator_write s (failed_status now (Some s) message)
  | StartApplying now s :
      check_plan_approval (Some s) = PlanApprovalState.Approved →
      operator_write s (update_plan_phase now s PlanPhase.Applying)
  | Complete now s :
      check_plan_approval (Some s) = PlanApprovalState.Approved →
      operator_write s (applied_status now (Some s))
  | Revalidate now generation s : operator_write s (record_plan_revalidation now generation s)
  | Recover parse_ts now_ts now s : operator_write s (recover_stuck_plan parse_ts now_ts now s).

#[export] Hint Constructors operator_write : core.

Lemma operator_write_admitted s s' :
  well_formed s → operator_write s s' → admitted s s' = true ∧ well_formed s'.
Proof.
  intros Hwf Hw. pose proof (entries_distinct s Hwf) as Hone. destruct Hw.
  - destruct (superseded_status_spec now s cause Hwf) as (_ & Ht & Ha & Hb & Ho).
    apply write_admitted; auto.
  - destruct (mark_plan_approved_spec _ _ _ _ _ _ H Hwf H0) as (_ & Ht & Ha & Hb & Ho & Hd & Hk).
    apply write_admitted; try done. destruct (decisions_shape s Hwf) as [Hs|[Hs|Hs]].
    + right. split_and!; try done. by apply undecided_actor.
    + left. split; [congruence|by apply Hk].
    + exfalso. apply Hd. rw Hs. left.
  - apply write_admitted; auto.
  - apply write_admitted; auto.
  - rw update_plan_phase_set. apply write_admitted; auto.
  - pose proof (approved_types _ Hwf H) as Hs.
    destruct (applied_status_spec now s Hs Hone) as (_ & Ht & Ho).
    apply write_admitted; try done. left. by rw Ht.
  - apply write_admitted; auto.
  - destruct (recover_cases parse_ts now_ts now s) as [-> | [e ->]]; apply write_admitted; auto.
Qed.

(** ** Runs of a plan

    A run interleaves the writes of the operator with those of anyone else who may write
    the status: these the API server admits, and they keep one entry for each condition
    type and the phase. *)
Inductive plan_step : PlanStatus → PlanStatus → Prop :=
  | Operator s s' : operator_write s s' → plan_step s s'
  | Reviewer s s' :
      admitted s s' = true → one_entry_each (conditions s') → phase s' = phase s →
      applying_since s' = applying_since s → plan_step s s'.

Lemma plan_step_admitted s s' :
  well_formed s → plan_step s s' → admitted s s' = true ∧ well_formed s'.
Proof.
  intros Hwf Hstep. destruct Hstep as [s s' Hw|s s' Ha Hone _ _].
  - by apply operator_write_admitted.
  - split; [done|]. split; [done|]. by apply andb_true_iff in Ha as [? _].
Qed.

Lemma transition_elim s s' :
  admitted s s' = true →
  (decision_types s ≠ [] → decision_types s' = decision_types s) ∧
  (∀ a, decided_by s = Some a → decided_by s' = Some a) ∧
  (∀ d, change_digest s = Some d → change_digest s' = Some d) ∧
  (∀ d, change_digest_encoding s = Some d → change_digest_encoding s' = Some d) ∧
  (∀ d, target_physical_identity s = Some d → target_physical_identity s' = Some d) ∧
  (∀ d, target_logical_fingerprint s = Some d → target_logical_fingerprint s' = Some d).
Proof.
  assert (∀ A (D : EqDecision A) (o n : option A) x, write_once o n = true → o = Some x → n = Some x) as Hw.
  { intros A D o n x Ho ->. by apply bool_decide_eq_true in Ho. }
  unfold admitted, transition_status. rw !andb_true_iff orb_true_iff !bool_decide_eq_true.
  intros (_ & ((((([Ht|Ht] & ?) & ?) & ?) & ?) & ?) & _); split_and!; eauto; done.
Qed.

Lemma run_well_formed s s' : well_formed s → rtc plan_step s s' → well_formed s'.
Proof. intros Hwf Hrun. induction Hrun; [done|]. apply IHHrun. by eapply plan_step_admitted. Qed.

(** Phases reached only through execution or its approval. *)
Definition executing (ph : PlanPhase) : bool :=
  match ph with
  | PlanPhase.Approved | PlanPhase.Applying | PlanPhase.Applied => true
  | _ => false
  end.

Lemma denied_not_executing s s' :
  "Denied" ∈ decision_types s → executing (phase s) = false → well_formed s →
  plan_step s s' → executing (phase s') = false.
Proof.
  intros Hd Hph Hwf Hstep. destruct Hstep as [s s' Hw|s s' _ _ Hsame _]; [|by rw Hsame].
  assert (check_plan_approval (Some s) ≠ PlanApprovalState.Approved) as Hna.
  { by intros [_ ?]%check_approved. }
  destruct Hw as [now cause s| ? plan ? ? s s' Hp H | | | | | |parse_ts now_ts now s]; try done.
  - by destruct (superseded_status_spec now s cause Hwf) as [-> _].
  - apply (mark_plan_approved_spec _ _ _ _ _ _ Hp Hwf) in H. tauto.
  - destruct (recover_cases parse_ts now_ts now s) as [-> | [e ->]]; done.
Qed.

(** C10: a decision is final.  Whatever the operator and the reviewers do next, a recorded
    decision and its author stay as they are, and so do the digest, its encoding and the
    identities of the database it is bound to; a denied plan that was not executing is
    never approved, applied or reported as applied. *)
Theorem decisions_are_final (s s' : PlanStatus) :
  well_formed s → rtc plan_step s s' →
  (has_terminal_decision s = true →
     decision_types s' = decision_types s ∧ decided_by s' = decided_by s) ∧
  (∀ d, change_digest s = Some d → change_digest s' = Some d) ∧
  (∀ e, change_digest_encoding s = Some e → change_digest_encoding s' = Some e) ∧
  (∀ i, target_physical_identity s = Some i → target_physical_identity s' = Some i) ∧
  (∀ i, target_logical_fingerprint s = Some i → target_logical_fingerprint s' = Some i) ∧
  (is_denied s = true → executing (phase s) = false → executing (phase s') = false).
Proof.
  rw is_denied_types terminal_types !bool_decide_eq_true.
  intros Hwf Hrun. induction Hrun as [s|s s1 s' Hstep Hrun IH]; [done|].
  destruct (plan_step_admitted _ _ Hwf Hstep) as [Ha Hwf1].
  destruct (transition_elim _ _ Ha) as (Ht & Hb & H1 & H2 & H3 & H4).
  destruct (IH Hwf1) as (IHt & I1 & I2 & I3 & I4 & I5). split_and!; eauto.
  - intros Hne. destruct (IHt ltac:(by rw Ht)) as [-> ->]. split; [by apply Ht|].
    destruct (decided_by s) as [a|] eqn:Hd; [by apply Hb|].
    exfalso. destruct Hwf as [_ [_ Hv]%valid_status_spec]. rw Hd in Hv.
    by destruct (proj1 Hv Hne).
  - intros Hd Hph. assert (decision_types s1 = decision_types s) as Heq.
    { apply Ht. intros Hn. rw Hn in Hd. by apply not_elem_of_nil in Hd. }
    apply I5; [by rw Heq|]. by eapply denied_not_executing.
Qed.

Lemma step_keeps_since s s' : plan_step s s' → applying_since s' = applying_since s.
Proof.
  intros Hstep. destruct Hstep as [s s' Hw|s s' _ _ _ Hsame]; [|done].
  destruct Hw as [now cause s| ? plan ? ? s s' Hp H | | | | | |parse_ts now_ts now s]; try done.
  - unfold superseded_status. by destruct (has_terminal_decision s).
  - unfold mark_plan_approved in H. rw Hp in H. cbn in H.
    destruct (is_denied s); [done|]. by destruct (has_terminal_decision s); injection H as <-.
  - destruct (recover_cases parse_ts now_ts now s) as [-> | [e ->]]; done.
Qed.

(** the time a plan entered [Applying] is never recorded, because the phase write names
    it by a key that is no field of the status.  So in every run of a plan created without
    it the recovery of plans stuck in [Applying] leaves the status alone, however long ago
    the plan entered that phase. *)
Theorem stuck_plan_is_not_recovered (s0 s : PlanStatus) (parse_ts : string → option Z)
    (now_ts : Z) (now : string) :
  applying_since s0 = None → rtc plan_step s0 s →
  recover_stuck_plan parse_ts now_ts now s = s.
Proof.
  intros Hs Hrun. assert (applying_since s = None) as Hn.
  { induction Hrun as [|? ? ? Hstep]; [done|]. apply IHHrun. by rw (step_keeps_since _ _ Hstep). }
  unfold recover_stuck_plan. by rw Hn.
Qed.
