(* ===== verification/PlanSql.v ===== *)
(** * The stored preview of a plan's statements ([plan.rs])

    A redacted rendering of the statements is kept with the plan: inline when it is short,
    compressed in an object of its own when that fits, cut otherwise.  The compression and
    the hash are libraries: they are arguments of the definitions. *)

From S2P Require Import Prelude BTree RustStr Types Model Change Plan Approval PlanStatus.

Definition MAX_INLINE_SQL_BYTES : nat := 16 * 1024.
Definition SQL_CONFIGMAP_GZIP_KEY : string := "plan.sql.gz".
Definition MAX_CONFIGMAP_SQL_BYTES : nat := 900 * 1024.

Module PlanSqlArtifact.
Inductive PlanSqlArtifact : Set :=
  | Inline (sql : string)
  | CompressedConfigMap (configmap_name key compressed_sql : string)
  | TruncatedInline (sql : string).
End PlanSqlArtifact.
Abbreviation PlanSqlArtifact := PlanSqlArtifact.PlanSqlArtifact.

Record PreparedPlanSql := {
  artifact : PlanSqlArtifact;
  prepared_hash : string;
  original_bytes : nat;
  stored_bytes : nat;
}.

(** [sql_ref], [sql_inline] and [is_truncated] of a prepared preview. *)
Definition prepared_sql_ref (self : PreparedPlanSql) : option SqlRef :=
  match artifact self with
  | PlanSqlArtifact.CompressedConfigMap configmap_name key _ =>
      Some {| ref_name := configmap_name; ref_key := key; ref_compression := Some Gzip |}
  | PlanSqlArtifact.Inline _ | PlanSqlArtifact.TruncatedInline _ => None
  end.

Definition prepared_sql_inline (self : PreparedPlanSql) : option string :=
  match artifact self with
  | PlanSqlArtifact.Inline sql | PlanSqlArtifact.TruncatedInline sql => Some sql
  | PlanSqlArtifact.CompressedConfigMap _ _ _ => None
  end.

Definition is_truncated (self : PreparedPlanSql) : bool :=
  match artifact self with
  | PlanSqlArtifact.TruncatedInline _ => true
  | _ => false
  end.

(** The loop of [truncate_utf8]: the last boundary at or below [end_]. *)
Fixpoint boundary_below (text : string) (end_ : nat) : nat :=
  match end_ with
  | O => O
  | S n => if is_char_boundary text (S n) then S n else boundary_below text n
  end.

Definition truncate_utf8 {E} (text : string) (max_bytes : nat) (marker : string) : res E string :=
  if String.length text <=? max_bytes then Ok text
  else
    let target_len := max_bytes - String.length marker in
    let end_ := boundary_below text (Nat.min target_len (String.length text)) in
    truncated ← slice text 0 end_;
    Ok (truncated +:+ marker).

Definition TRUNCATION_MARKER : string :=
  NL +:+ "-- truncated: compressed SQL preview exceeded Kubernetes ConfigMap limits --".

Section prepare.
Context (gzip_bytes : string → res ReconcileError string) (compute_sql_hash : string → string).

Definition prepare_plan_sql (name redacted_sql : string) : res ReconcileError PreparedPlanSql :=
  let original := String.length redacted_sql in
  let hash := compute_sql_hash redacted_sql in
  if original <=? MAX_INLINE_SQL_BYTES
  then Ok {| artifact := PlanSqlArtifact.Inline redacted_sql; prepared_hash := hash;
             original_bytes := original; stored_bytes := original |}
  else
    compressed_sql ← gzip_bytes redacted_sql;
    if String.length compressed_sql <=? MAX_CONFIGMAP_SQL_BYTES
    then Ok {| artifact := PlanSqlArtifact.CompressedConfigMap (name +:+ "-sql")
                             SQL_CONFIGMAP_GZIP_KEY compressed_sql;
               prepared_hash := hash; original_bytes := original;
               stored_bytes := String.length compressed_sql |}
    else
      truncated ← truncate_utf8 redacted_sql MAX_INLINE_SQL_BYTES TRUNCATION_MARKER;
      Ok {| artifact := PlanSqlArtifact.TruncatedInline truncated; prepared_hash := hash;
            original_bytes := original; stored_bytes := String.length truncated |}.

(** ** Laws *)

Lemma boundary_below_le text n : boundary_below text n ≤ n.
Proof. induction n; cbn; [done|]. case_match; lia. Qed.

Lemma boundary_0 text : is_char_boundary text 0 = true.
Proof.
  destruct text; cbn; unfold is_char_boundary; cbn; [done|].
  rw orb_true_iff. right. by apply bool_decide_eq_true.
Qed.

Lemma boundary_below_boundary text n : is_char_boundary text (boundary_below text n) = true.
Proof. induction n; cbn; [apply boundary_0|]. by case_match. Qed.

Lemma substring_take text n : n ≤ String.length text →
  ∃ rest, text = String.substring 0 n text +:+ rest ∧ String.length (String.substring 0 n text) = n.
Proof.
  revert n. induction text as [|a text IH]; intros [|n] Hn; cbn in *; try lia.
  - by exists "".
  - by exists (String a text).
  - destruct (IH n ltac:(lia)) as (rest & Heq & Hlen). exists rest. rw Hlen. split; [|done].
    by rw str_app_cons -Heq.
Qed.

Lemma truncate_utf8_spec {E} text max_bytes marker :
  String.length marker ≤ max_bytes < String.length text →
  ∃ kept rest, truncate_utf8 (E := E) text max_bytes marker = Ok (kept +:+ marker) ∧
    text = kept +:+ rest ∧ is_char_boundary text (String.length kept) = true ∧
    String.length (kept +:+ marker) ≤ max_bytes.
Proof.
  intros [Hm Ht]. unfold truncate_utf8.
  rw (proj2 (Nat.leb_gt _ _)); [|done].
  set (e := boundary_below text _).
  assert (e ≤ max_bytes - String.length marker ∧ e ≤ String.length text) as [He1 He2].
  { pose proof (boundary_below_le text (Nat.min (max_bytes - String.length marker) (String.length text))).
    unfold e. lia. }
  destruct (substring_take text e He2) as (rest & Heq & Hlen).
  exists (String.substring 0 e text), rest.
  unfold slice. rw boundary_0. rw (boundary_below_boundary text _ : is_char_boundary text e = true).
  rw Nat.sub_0_r. rw (bool_decide_true (0 ≤ e)); [|lia]. cbn.
  rw str_length_app Hlen. split_and!; [done..| |lia]. apply boundary_below_boundary.
Qed.

(** whatever the size of the statements, preparing them keeps the plan's status within
    [MAX_INLINE_SQL_BYTES] of text and the object beside it within
    [MAX_CONFIGMAP_SQL_BYTES]; a plan is reported truncated exactly when it holds less than
    the whole text, and then what it holds is a prefix ending at a character boundary
    followed by a marker.  The preparation fails only when the compression does. *)
Theorem stored_preview_is_bounded (name redacted_sql : string) :
  match prepare_plan_sql name redacted_sql with
  | Ok p =>
      stored_bytes p ≤ match prepared_sql_ref p with
                       | None => MAX_INLINE_SQL_BYTES
                       | Some _ => MAX_CONFIGMAP_SQL_BYTES
                       end ∧
      original_bytes p = String.length redacted_sql ∧
      (∀ text, prepared_sql_inline p = Some text → String.length text = stored_bytes p) ∧
      (is_truncated p = false →
         prepared_sql_inline p = Some redacted_sql ∨
         ∃ r data, prepared_sql_ref p = Some r ∧ gzip_bytes redacted_sql = Ok data ∧
           String.length data = stored_bytes p) ∧
      (is_truncated p = true →
         ∃ kept rest, prepared_sql_inline p = Some (kept +:+ TRUNCATION_MARKER) ∧
           redacted_sql = kept +:+ rest ∧ is_char_boundary redacted_sql (String.length kept) = true ∧
           MAX_INLINE_SQL_BYTES < original_bytes p)
  | Err e => gzip_bytes redacted_sql = Err e
  | Panic => gzip_bytes redacted_sql = Panic
  end.
Proof.
  unfold prepare_plan_sql. destruct (Nat.leb_spec (String.length redacted_sql) MAX_INLINE_SQL_BYTES) as [Hle|Hgt].
  { cbn -[MAX_INLINE_SQL_BYTES]. split_and!; try done; [|by left]. by intros ? [= <-]. }
  destruct (gzip_bytes redacted_sql) as [data|e|] eqn:Hgz; cbn -[MAX_INLINE_SQL_BYTES MAX_CONFIGMAP_SQL_BYTES TRUNCATION_MARKER]; try done.
  destruct (Nat.leb_spec (String.length data) MAX_CONFIGMAP_SQL_BYTES) as [Hfit|Hbig].
  { cbn -[MAX_INLINE_SQL_BYTES MAX_CONFIGMAP_SQL_BYTES]. split_and!; try done. right. eauto. }
  destruct (truncate_utf8_spec (E := ReconcileError) redacted_sql MAX_INLINE_SQL_BYTES TRUNCATION_MARKER)
    as (kept & rest & Ht & Heq & Hb & Hlen).
  { split; [|done]. apply Nat.leb_le. by vm_compute. }
  rw Ht. cbn -[MAX_INLINE_SQL_BYTES MAX_CONFIGMAP_SQL_BYTES TRUNCATION_MARKER].
  split_and!; try done; [by intros ? [= <-]|]. intros _. by exists kept, rest.
Qed.
End prepare.
