(* ===== verification/PlanCreation.v ===== *)
(** * Creating, reusing and retiring plans ([plan.rs])

    [create_or_update_plan] over the plans of a namespace.  The clock, the digest of the
    password sources and the reading of timestamps are arguments; the API server stores
    what it is sent and refuses a second object of the same name, and its other failures
    end the call with no further write. *)

From S2P Require Import Prelude BTree RustStr Types Model Change Plan Approval PlanStatus PlanWrites PlanSql.

#[export] Program Instance ord_Z : Ord Z := {| ord_le := Z.le |}.

(** [Iterator::max_by]: the last of the greatest elements. *)
Definition max_by {A} (le : A → A → bool) (l : list A) : option A :=
  foldl (λ best x,
    match best with
    | None => Some x
    | Some b => if le b x then Some x else Some b
    end) None l.

Definition FAILED_PLAN_DEDUP_WINDOW_SECS : Z := 120.
Definition APPLIED_PLAN_NONCONVERGENT_WINDOW_SECS : Z := 120.

Module PlanReuse.
Inductive PlanReuse : Set := PendingOnly | AutoApproval.
#[export] Instance reuse_eq_dec : EqDecision PlanReuse.
Proof. solve_decision. Defined.
End PlanReuse.
Abbreviation PlanReuse := PlanReuse.PlanReuse.
Export (hints) PlanReuse.

Module PlanCreationResult.
Inductive PlanCreationResult : Set :=
  | Created (name : string)
  | Deduplicated (name : string)
  | DeduplicatedFailed (name : string)
  | DeduplicatedNonConvergent (name : string).
End PlanCreationResult.
Abbreviation PlanCreationResult := PlanCreationResult.PlanCreationResult.

(** ** Which plans a reconcile may keep *)

Definition is_phase (ph : PlanPhase) (s : PlanStatus) : bool := bool_decide (phase s = ph).

Definition is_actionable (s : PlanStatus) : bool :=
  is_phase PlanPhase.Pending s || is_phase PlanPhase.Approved s.

Definition supersedes_after_create (s : PlanStatus) (new_digest : string) : bool :=
  match phase s with
  | PlanPhase.Pending => true
  | PlanPhase.Approved => negb (plan_matches_digest s new_digest)
  | _ => false
  end.

(** The candidates of [reusable_plan]. *)
Definition may_reuse (digest : string) (expected_base : option string) (reuse : PlanReuse)
    (plan : PolicyPlan) : bool :=
  match status plan with
  | None => false
  | Some s =>
      match reuse with
      | PlanReuse.PendingOnly => is_phase PlanPhase.Pending s
      | PlanReuse.AutoApproval => is_actionable s
      end && negb (is_denied s) && plan_matches_digest s digest
  end &&
  match expected_base with
  | None => true
  | Some base => bool_decide (plan_base_pin plan = Some base)
  end.

Definition reuse_rank (plan : PolicyPlan) : bool * (option Z * string) :=
  (match status plan with Some s => is_phase PlanPhase.Approved s | None => false end,
   (creation_timestamp plan, plan_name plan)).

Definition reusable_plan (plans : list PolicyPlan) (digest : string)
    (expected_base : option string) (reuse : PlanReuse) : option PolicyPlan :=
  max_by (λ a b, bool_decide (ord_le (reuse_rank a) (reuse_rank b)))
    (filter (λ p, may_reuse digest expected_base reuse p) plans).

Section creation.
(** [jiff]'s reading of a timestamp, in seconds, and the digest of a version map. *)
Context (parse_rfc3339_epoch_secs : string → option Z).
Context (password_source_digest_of : gmap string string → string).

Definition password_source_changed (s : PlanStatus) (versions : gmap string string) : bool :=
  match password_source_digest s with
  | Some old => negb (String.eqb old (password_source_digest_of versions))
  | None => false
  end.

Definition supersede_cause (plan : PolicyPlan) (s : PlanStatus) (kept_plan_name new_digest : string)
    (expected_base : option string) (versions : gmap string string) (reuse : PlanReuse)
    : option SupersedeCause :=
  if String.eqb (plan_name plan) kept_plan_name then None
  else if is_actionable s &&
      match expected_base with
      | Some base => bool_decide (plan_base_pin plan ≠ Some base)
      | None => false
      end
  then Some SupersedeCause.BaseContentChanged
  else if bool_decide (reuse = PlanReuse.AutoApproval) && is_actionable s &&
      plan_matches_digest s new_digest
  then Some SupersedeCause.DuplicateOfActionablePlan
  else if negb (supersedes_after_create s new_digest) then None
  else Some (if password_source_changed s versions then SupersedeCause.PasswordSourceChanged
             else SupersedeCause.ReplacedByNewerPlan).

(** One step of [supersede_stale_plans]: the status it writes on [plan], if it writes. *)
Definition retire (now kept_plan_name new_digest : string) (expected_base : option string)
    (versions : gmap string string) (reuse : PlanReuse) (plan : PolicyPlan) : option PlanStatus :=
  match status plan with
  | None => None
  | Some s =>
      if bool_decide (reuse = PlanReuse.AutoApproval) && is_phase PlanPhase.Pending s && is_denied s
      then Some (mark_plan_rejected_with s)
      else superseded_status now s <$>
             supersede_cause plan s kept_plan_name new_digest expected_base versions reuse
  end.

(** A status patch on the plan of that name. *)
Definition patch_status (plans : list PolicyPlan) (name : string) (s : PlanStatus)
    : list PolicyPlan :=
  (λ p, if String.eqb (plan_name p) name then with_status p (Some s) else p) <$> plans.

(** The sweep reads the plans listed before it and patches the stored ones. *)
Definition supersede_stale_plans (now : string) (existing plans : list PolicyPlan)
    (kept_plan_name new_digest : string) (expected_base : option string)
    (versions : gmap string string) (reuse : PlanReuse) : list PolicyPlan :=
  foldl (λ plans plan,
    match retire now kept_plan_name new_digest expected_base versions reuse plan with
    | Some s => patch_status plans (plan_name plan) s
    | None => plans
    end) plans existing.

(** ** Back-off windows *)

Definition timestamp_or_zero (t : option string) : Z := default 0%Z (t ≫= parse_rfc3339_epoch_secs).

Definition applied_recently_without_converging (plan_status : option PlanStatus) (now_ts : Z) : bool :=
  match plan_status with
  | None => false
  | Some s =>
      if negb (is_phase PlanPhase.Applied s) then false
      else
        let applied_ts := timestamp_or_zero (applied_at s) in
        ((0 <? applied_ts) && (applied_ts <=? now_ts) &&
         (now_ts - applied_ts <? APPLIED_PLAN_NONCONVERGENT_WINDOW_SECS))%Z
  end.

Definition retry_deferred_until_window_expires (plan_status : option PlanStatus) (now_ts : Z) : bool :=
  match plan_status with
  | None => false
  | Some s =>
      let failed_ts := timestamp_or_zero (failed_at s) in
      if negb ((0 <? failed_ts) && (failed_ts <=? now_ts) &&
               (now_ts - failed_ts <? FAILED_PLAN_DEDUP_WINDOW_SECS))%Z
      then false
      else (timestamp_or_zero (applied_at s) <=? failed_ts)%Z
  end.

(** Steps 5b and 5c of [create_or_update_plan]: the tests on one existing plan. *)
Definition failed_recently (digest : string) (now_ts : Z) (plan : PolicyPlan) : bool :=
  match status plan with
  | None => false
  | Some s =>
      is_phase PlanPhase.Failed s && plan_matches_digest s digest &&
      let failed_ts := timestamp_or_zero (failed_at s) in
      ((0 <? failed_ts) && (now_ts - failed_ts <? FAILED_PLAN_DEDUP_WINDOW_SECS))%Z
  end.

Definition not_converging (digest : string) (now_ts : Z) (plan : PolicyPlan) : bool :=
  match status plan with
  | None => false
  | Some s => plan_matches_digest s digest &&
      applied_recently_without_converging (status plan) now_ts
  end.

(** ** Creation *)

(** What [create_or_update_plan] computes before it looks at the stored plans: the owner,
    the name the plan would have, its spec and labels, the digest and the stored preview. *)
Record PlanInputs := {
  in_owner_kind : string;
  in_owner_uid : option string;
  in_generation : Z;
  in_plan_name : string;
  in_created_at : Z;
  in_labels : gmap string string;
  in_spec : PlanSpec;
  in_digest : string;
  in_expected_base : option string;
  in_target_identity : TargetIdentity;
  in_summary : ChangeSummary;
  in_versions : gmap string string;
  in_sql_hash : string;
  in_sql_statements : Z;
  in_prepared : PreparedPlanSql;
}.

(** The base a candidate's plan must be pinned to: none once the policy carries the
    candidate's own content. *)
Definition expected_base_of (binding : option (string * string)) : option string :=
  match binding with
  | Some (content_digest, base_content_digest) =>
      if String.eqb base_content_digest content_digest then None else Some base_content_digest
  | None => None
  end.

Definition owner_reference (kind : string) (uid : option string) : OwnerReference := {|
  owner_kind := kind; owner_uid := default "" uid; controller := Some true |}.

Definition computed_message (i : PlanInputs) : string :=
  "Plan computed with " +:+ pretty (total (in_summary i)) +:+ " change(s)" +:+
  (if is_truncated (in_prepared i)
   then "; SQL preview truncated because compressed SQL exceeded Kubernetes ConfigMap limits"
   else "").

(** Step 11: the status of a plan that has just been created. *)
Definition created_status (now : string) (i : PlanInputs) : PlanStatus := {|
  phase := PlanPhase.Pending;
  conditions :=
    [{| condition_type := "Computed"; condition_status := "True";
        condition_reason := Some "PlanComputed"; condition_message := Some (computed_message i);
        last_transition_time := Some now |};
     {| condition_type := "Approved"; condition_status := "False";
        condition_reason := Some "PendingApproval";
        condition_message := Some "Plan awaiting approval"; last_transition_time := Some now |}];
  decided_by := None;
  change_summary := Some (in_summary i);
  sql_ref := prepared_sql_ref (in_prepared i);
  sql_inline := prepared_sql_inline (in_prepared i);
  sql_truncated := is_truncated (in_prepared i);
  computed_at := Some now; applied_at := None; last_error := None;
  sql_hash := Some (in_sql_hash i);
  change_digest := Some (in_digest i);
  password_source_digest := Some (password_source_digest_of (in_versions i));
  change_digest_encoding := Some APPROVAL_EFFECT_ENCODING_V3;
  target_physical_identity := physical (in_target_identity i);
  target_logical_fingerprint := logical (in_target_identity i);
  physical_identity_available := Some (has_physical (in_target_identity i));
  revalidated_generation := Some (in_generation i);
  revalidated_at := Some now;
  applying_since := None; failed_at := None;
  sql_statements := Some (in_sql_statements i);
  redacted_sql_hash := Some (prepared_hash (in_prepared i));
  sql_original_bytes := Some (Z.of_nat (original_bytes (in_prepared i)));
  sql_stored_bytes := Some (Z.of_nat (stored_bytes (in_prepared i))) |}.

Definition should_patch_existing_plan_status (plan : PolicyPlan) : bool :=
  match status plan with
  | None => true
  | Some s =>
      is_phase PlanPhase.Pending s && bool_decide (change_digest s = None) &&
      bool_decide (computed_at s = None) && bool_decide (sql_hash s = None) &&
      negb (has_terminal_decision s)
  end.

Definition can_resume_plan_creation (existing : PolicyPlan) (intended_spec : PlanSpec) : bool :=
  bool_decide (spec existing = intended_spec) && should_patch_existing_plan_status existing.

Definition new_plan (i : PlanInputs) : PolicyPlan := {|
  plan_name := in_plan_name i; creation_timestamp := Some (in_created_at i);
  labels := Some (in_labels i); owner_references := [owner_reference (in_owner_kind i) (in_owner_uid i)];
  spec := in_spec i; status := None |}.

Definition named (name : string) (p : PolicyPlan) : bool := String.eqb (plan_name p) name.

(** Steps 9 and 10: create the object, or take over the one of an interrupted creation. *)
Definition create_plan (i : PlanInputs) (plans : list PolicyPlan) : res ReconcileError (list PolicyPlan) :=
  match find (named (in_plan_name i)) plans with
  | None => Ok (plans ++ [new_plan i])
  | Some existing =>
      if negb (owns (in_owner_uid i) existing)
      then Err (ReconcileError.PlanSqlStorage
                  ("plan " +:+ in_plan_name i +:+ " already exists and is owned by another object"))
      else if negb (can_resume_plan_creation existing (in_spec i))
      then Err (ReconcileError.PlanNameCollision (plan_name existing))
      else Ok plans
  end.

(** [create_or_update_plan]: [plans] are those of the namespace that carry the owner's
    label. *)
Definition create_or_update_plan (now : string) (now_ts : Z) (i : PlanInputs) (reuse : PlanReuse)
    (detect_nonconvergent_apply : bool) (plans : list PolicyPlan)
    : res ReconcileError (PlanCreationResult * list PolicyPlan) :=
  let existing := filter (λ p, owns (in_owner_uid i) p) plans in
  let sweep plans kept :=
    supersede_stale_plans now existing plans kept (in_digest i) (in_expected_base i)
      (in_versions i) reuse in
  match reusable_plan existing (in_digest i) (in_expected_base i) reuse with
  | Some plan =>
      Ok (PlanCreationResult.Deduplicated (plan_name plan), sweep plans (plan_name plan))
  | None =>
      match find (failed_recently (in_digest i) now_ts) existing with
      | Some plan => Ok (PlanCreationResult.DeduplicatedFailed (plan_name plan), plans)
      | None =>
          match
            if detect_nonconvergent_apply
            then find (not_converging (in_digest i) now_ts) existing else None
          with
          | Some plan => Ok (PlanCreationResult.DeduplicatedNonConvergent (plan_name plan), plans)
          | None =>
              plans ← create_plan i plans;
              let plans := patch_status plans (in_plan_name i) (created_status now i) in
              Ok (PlanCreationResult.Created (in_plan_name i), sweep plans (in_plan_name i))
          end
      end
  end.
End creation.
