(* ===== verification/PlanCreationFacts.v ===== *)
(** * What creating a plan leaves behind

    The sweep after a creation, plan by plan; which plan a reconcile ends up with and which
    others stay actionable beside it; how long a back-off lasts. *)

From S2P Require Import Prelude BTree RustStr Types Model Change Plan Approval PlanStatus PlanWrites PlanSql PlanCreation.

Lemma is_phase_true ph s : is_phase ph s = true ↔ phase s = ph.
Proof. apply bool_decide_eq_true. Qed.

Lemma actionable_phase s :
  is_actionable s = true ↔ phase s = PlanPhase.Pending ∨ phase s = PlanPhase.Approved.
Proof. unfold is_actionable. by rw orb_true_iff !is_phase_true. Qed.

(** ** The greatest element *)

Lemma max_by_elem {A} (le : A → A → bool) (l : list A) x : max_by le l = Some x → x ∈ l.
Proof.
  unfold max_by.
  assert (∀ best, foldl (λ best x, match best with
    | None => Some x | Some b => if le b x then Some x else Some b end) best l = Some x →
    x ∈ l ∨ best = Some x) as H.
  { induction l as [|y l IH]; intros best Hf; [by right|]. cbn in Hf.
    destruct (IH _ Hf) as [Hx|Hy]; [left; by right|]. destruct best as [b|].
    - destruct (le b y); [left; injection Hy as ->; left|by right].
    - left. injection Hy as ->. left. }
  intros Hf. by destruct (H _ Hf) as [|].
Qed.

Lemma max_by_None {A} (le : A → A → bool) (l : list A) : max_by le l = None → l = [].
Proof.
  unfold max_by. destruct l as [|y l]; [done|]. cbn.
  assert (∀ b, is_Some (foldl (λ best x, match best with
    | None => Some x | Some b => if le b x then Some x else Some b end) (Some b) l)) as H.
  { induction l as [|z l IH]; intros b; [by eexists|]. cbn. destruct (le b z); apply IH. }
  intros Hn. destruct (H y) as [? Hs]. congruence.
Qed.

(** ** Stored plans *)

Lemma patch_status_names plans name s :
  plan_name <$> patch_status plans name s = plan_name <$> plans.
Proof.
  unfold patch_status. rw -list_fmap_compose. apply list_fmap_ext. intros _ p _. cbn.
  by destruct (String.eqb (plan_name p) name).
Qed.

Lemma find_named_elem name plans p :
  find (named name) plans = Some p → p ∈ plans ∧ plan_name p = name.
Proof. intros [Hin Hn]%find_some. split; [by apply list_elem_of_In|by apply String.eqb_eq]. Qed.

Lemma find_named_None name plans :
  find (named name) plans = None → name ∉ (plan_name <$> plans).
Proof.
  intros Hn (p & -> & Hp)%list_elem_of_fmap. apply list_elem_of_In in Hp.
  pose proof (find_none _ _ Hn p Hp) as Hf. unfold named in Hf. by rw String.eqb_refl in Hf.
Qed.

Lemma find_named_unique plans p :
  NoDup (plan_name <$> plans) → p ∈ plans → find (named (plan_name p)) plans = Some p.
Proof.
  induction plans as [|q plans IH]; [by intros _ ?%not_elem_of_nil|]. cbn.
  intros [Hq Hnd]%NoDup_cons [-> |Hp]%elem_of_cons.
  - unfold named. by rw String.eqb_refl.
  - unfold named. destruct (String.eqb_spec (plan_name q) (plan_name p)) as [Heq|]; [|by apply IH].
    exfalso. apply Hq. rw Heq. by apply list_elem_of_fmap_2.
Qed.

Lemma plan_name_unique plans p q :
  NoDup (plan_name <$> plans) → p ∈ plans → q ∈ plans → plan_name p = plan_name q → p = q.
Proof.
  intros Hnd Hp Hq Hn. pose proof (find_named_unique plans p Hnd Hp) as Hf.
  rw Hn (find_named_unique plans q Hnd Hq) in Hf. congruence.
Qed.

Section sweep.
Context (parse_rfc3339_epoch_secs : string → option Z).
Context (password_source_digest_of : gmap string string → string).
Context (now kept digest : string) (base : option string) (versions : gmap string string)
  (reuse : PlanReuse).

Abbreviation retire := (retire password_source_digest_of now kept digest base versions reuse).

(** What the sweep over [existing] makes of one stored plan. *)
Definition swept (existing : list PolicyPlan) (p : PolicyPlan) : PolicyPlan :=
  match find (named (plan_name p)) existing ≫= retire with
  | Some s => with_status p (Some s)
  | None => p
  end.

Lemma sweep_plan_by_plan existing plans :
  NoDup (plan_name <$> existing) →
  supersede_stale_plans password_source_digest_of now existing plans kept digest base versions reuse =
  swept existing <$> plans.
Proof.
  unfold supersede_stale_plans. revert plans.
  induction existing as [|q existing IH]; intros plans.
  { intros _. cbn. symmetry. rw -{2}(list_fmap_id plans). by apply list_fmap_ext. }
  cbn. intros [Hq Hnd]%NoDup_cons. rw IH; [|done].
  assert (∀ p, plan_name p = plan_name q → find (named (plan_name p)) existing = None) as Hnone.
  { intros p Hp. destruct (find _ existing) as [r|] eqn:Hf; [|done]. exfalso.
    apply find_named_elem in Hf as [Hr Hn]. apply Hq. rw -Hp -Hn. by apply list_elem_of_fmap_2. }
  destruct (retire q) as [s|] eqn:Hr.
  - unfold patch_status. rw -list_fmap_compose. apply list_fmap_ext. intros _ p _. cbn.
    unfold swept. cbn. unfold named at 2. rw (String.eqb_sym (plan_name q)).
    destruct (String.eqb_spec (plan_name p) (plan_name q)) as [Hp|Hp].
    + cbn. rw Hr. change (plan_name (with_status p (Some s))) with (plan_name p). by rw (Hnone p Hp).
    + done.
  - apply list_fmap_ext. intros _ p _. unfold swept. cbn. unfold named at 2.
    destruct (String.eqb_spec (plan_name q) (plan_name p)) as [Hp|Hp]; [|done].
    cbn. by rw Hr (Hnone p).
Qed.

(** A plan the sweep writes is no longer actionable. *)
Lemma retired_not_actionable p s : retire p = Some s → is_actionable s = false.
Proof.
  unfold PlanCreation.retire. destruct (status p) as [old|]; [|done].
  destruct (_ && _ && _); [by intros [= <-]|].
  destruct (supersede_cause _ _ _ _ _ _ _ _) as [cause|]; [|done]. intros [= <-].
  unfold superseded_status. by destruct (has_terminal_decision old).
Qed.

(** A plan the sweep leaves actionable, other than the kept one. *)
Lemma unretired_actionable p s :
  retire p = None → status p = Some s → plan_name p ≠ kept → is_actionable s = true →
  reuse = PlanReuse.PendingOnly ∧ phase s = PlanPhase.Approved ∧
  plan_matches_digest s digest = true ∧ (∀ b, base = Some b → plan_base_pin p = Some b).
Proof.
  unfold PlanCreation.retire. intros Hr Hs Hn Ha. rw Hs in Hr.
  destruct (_ && is_denied s); [done|].
  unfold supersede_cause in Hr. destruct (String.eqb_spec (plan_name p) kept); [done|].
  rw Ha !andb_true_r in Hr. cbn in Hr.
  assert (∀ b, base = Some b → plan_base_pin p = Some b) as Hb.
  { intros b Hb. rw Hb in Hr. destruct (decide (plan_base_pin p = Some b)) as [|Hne]; [done|].
    by rw (bool_decide_true _ Hne) in Hr. }
  destruct (match base with Some _ => _ | None => false end); [done|].
  destruct (bool_decide _ && _) eqn:Hdup; [done|].
  destruct (negb (supersedes_after_create s digest)) eqn:Hsup; [|by destruct (password_source_changed _ _ _)].
  apply negb_true_iff in Hsup. unfold supersedes_after_create in Hsup.
  apply actionable_phase in Ha as [Hp|Hp]; rw Hp in Hsup; [done|].
  apply negb_false_iff in Hsup. split_and!; try done.
  rw Hsup andb_true_r in Hdup. destruct reuse; [done|]. by rw bool_decide_true in Hdup.
Qed.

Lemma swept_name existing p : plan_name (swept existing p) = plan_name p.
Proof. unfold swept. by destruct (_ ≫= _). Qed.

Lemma swept_owner existing p : owner_references (swept existing p) = owner_references p.
Proof. unfold swept. by destruct (_ ≫= _). Qed.

Lemma swept_kept existing p :
  (∀ q s, q ∈ existing → plan_name q = kept → status q = Some s → is_denied s = false) →
  plan_name p = kept → swept existing p = p.
Proof.
  intros Hok Hp. unfold swept. destruct (find _ existing) as [q|] eqn:Hf; [|done].
  apply find_named_elem in Hf as [Hin Hq]. rw Hp in Hq. cbn. unfold PlanCreation.retire.
  destruct (status q) as [s|] eqn:Hs; [|done]. rw (Hok q s Hin Hq Hs) andb_false_r.
  unfold supersede_cause. by rw Hq String.eqb_refl.
Qed.

(** The stored plans after the sweep, when [existing] are the owner's among [stored] and
    [plans] differs from [stored] at the kept plan only. *)
Lemma sweep_leaves uid stored plans p s :
  NoDup (plan_name <$> stored) →
  (∀ q, q ∈ plans → plan_name q ≠ kept → q ∈ stored) →
  p ∈ supersede_stale_plans password_source_digest_of now (filter (λ p, owns uid p) stored) plans
        kept digest base versions reuse →
  owns uid p = true → status p = Some s → is_actionable s = true → plan_name p ≠ kept →
  reuse = PlanReuse.PendingOnly ∧ phase s = PlanPhase.Approved ∧
  plan_matches_digest s digest = true ∧ (∀ b, base = Some b → plan_base_pin p = Some b).
Proof.
  intros Hnd Hsub Hp Ho Hs Ha Hn.
  assert (NoDup (plan_name <$> filter (λ p, owns uid p) stored)) as Hnd'.
  { eapply sublist_NoDup; [done|]. apply fmap_sublist, sublist_filter. }
  rw sweep_plan_by_plan in Hp; [|done]. apply list_elem_of_fmap in Hp as (q & -> & Hq).
  rw swept_name in Hn. specialize (Hsub q Hq Hn).
  assert (find (named (plan_name q)) (filter (λ p, owns uid p) stored) = Some q) as Hf.
  { apply find_named_unique; [done|]. apply list_elem_of_filter. split; [|done].
    unfold owns, is_owned_by_uid in *. rw swept_owner in Ho. by rw Ho. }
  unfold swept in Hs, Ha |- *. rw Hf in Hs |- *. cbn in *.
  destruct (retire q) as [s'|] eqn:Hr; [|by apply unretired_actionable].
  injection Hs as ->. apply retired_not_actionable in Hr. congruence.
Qed.

(** Plans of other owners are left alone. *)
Lemma sweep_keeps_others uid stored plans p :
  NoDup (plan_name <$> stored) →
  p ∈ stored → owns uid p = false → p ∈ plans →
  p ∈ supersede_stale_plans password_source_digest_of now (filter (λ p, owns uid p) stored) plans
        kept digest base versions reuse.
Proof.
  intros Hnd Hst Ho Hp. rw sweep_plan_by_plan; cycle 1.
  { eapply sublist_NoDup; [done|]. apply fmap_sublist, sublist_filter. }
  apply list_elem_of_fmap. exists p. split; [|done]. unfold swept.
  destruct (find _ _) as [q|] eqn:Hf; [|done]. exfalso.
  apply find_named_elem in Hf as [[Hq Hs]%list_elem_of_filter Hn].
  rw (plan_name_unique _ _ _ Hnd Hs Hst Hn) in Hq. by rw Ho in Hq.
Qed.

Lemma sweep_keeps_kept uid stored plans p :
  NoDup (plan_name <$> stored) →
  (∀ q s, q ∈ stored → owns uid q = true → plan_name q = kept → status q = Some s → is_denied s = false) →
  plan_name p = kept → p ∈ plans →
  p ∈ supersede_stale_plans password_source_digest_of now (filter (λ p, owns uid p) stored) plans
        kept digest base versions reuse.
Proof.
  intros Hnd Hok Hn Hp. rw sweep_plan_by_plan; cycle 1.
  { eapply sublist_NoDup; [done|]. apply fmap_sublist, sublist_filter. }
  apply list_elem_of_fmap. exists p. split; [|done]. symmetry. apply swept_kept; [|done].
  intros q s [Ho Hq]%list_elem_of_filter. by apply Hok; [|apply Is_true_eq_true].
Qed.
End sweep.

Section creation.
Context (parse_rfc3339_epoch_secs : string → option Z).
Context (password_source_digest_of : gmap string string → string).

Abbreviation create_or_update_plan :=
  (create_or_update_plan parse_rfc3339_epoch_secs password_source_digest_of).

(** The plan a reconcile is left with: stored, the owner's, actionable, carrying the
    computed effects, and not denied. *)
Definition current_plan (i : PlanInputs) (reuse : PlanReuse) (plans : list PolicyPlan) (name : string)
    : Prop :=
  ∃ p s, p ∈ plans ∧ plan_name p = name ∧ owns (in_owner_uid i) p = true ∧ status p = Some s ∧
    (phase s = PlanPhase.Pending ∨ reuse = PlanReuse.AutoApproval ∧ phase s = PlanPhase.Approved) ∧
    is_denied s = false ∧ plan_matches_digest s (in_digest i) = true.

Lemma may_reuse_spec digest base reuse p :
  may_reuse digest base reuse p = true →
  ∃ s, status p = Some s ∧
    (phase s = PlanPhase.Pending ∨ reuse = PlanReuse.AutoApproval ∧ phase s = PlanPhase.Approved) ∧
    is_denied s = false ∧ plan_matches_digest s digest = true.
Proof.
  unfold may_reuse. intros [H _]%andb_true_iff. destruct (status p) as [s|]; [|done].
  apply andb_true_iff in H as [[Hp Hd]%andb_true_iff Hm]. exists s. split_and!; [done| |by apply negb_true_iff|done].
  destruct reuse; [left; by apply is_phase_true|].
  apply actionable_phase in Hp as [|]; [by left|by right].
Qed.

Lemma created_matches now i : plan_matches_digest (created_status password_source_digest_of now i) (in_digest i) = true.
Proof. unfold plan_matches_digest. cbn. by rw !bool_decide_true. Qed.

Lemma create_plan_spec i plans plans' :
  NoDup (plan_name <$> plans) → create_plan i plans = Ok plans' →
  (∀ q, q ∈ plans' → plan_name q ≠ in_plan_name i → q ∈ plans) ∧
  (∀ q, q ∈ plans → q ∈ plans') ∧
  (∃ p, p ∈ plans' ∧ plan_name p = in_plan_name i ∧ (p = new_plan i ∨ owns (in_owner_uid i) p = true)) ∧
  (∀ q, q ∈ plans → plan_name q = in_plan_name i →
     owns (in_owner_uid i) q = true ∧ ∀ s, status q = Some s → is_denied s = false).
Proof.
  intros Hnd. unfold create_plan. destruct (find _ plans) as [e|] eqn:Hf.
  - apply find_named_elem in Hf as [He Hn].
    destruct (owns (in_owner_uid i) e) eqn:Ho; [|done].
    destruct (can_resume_plan_creation e (in_spec i)) eqn:Hc; [|done]. intros [= <-].
    split_and!; try done; [exists e; auto|]. intros q Hq Hnq.
    assert (q = e) as -> by (apply (plan_name_unique plans); [done..|congruence]).
    split; [done|]. intros s Hs. apply andb_true_iff in Hc as [_ Hc].
    unfold should_patch_existing_plan_status in Hc. rw Hs in Hc.
    apply andb_true_iff in Hc as [_ Ht]. apply negb_true_iff in Ht.
    rw terminal_types in Ht. rw is_denied_types.
    apply bool_decide_eq_false in Ht. apply bool_decide_eq_false. intros Hd. apply Ht. intros Hn'.
    rw Hn' in Hd. by apply not_elem_of_nil in Hd.
  - intros [= <-]. pose proof (find_named_None _ _ Hf) as Hnone. split_and!.
    + intros q [Hq|Hq%list_elem_of_singleton]%elem_of_app Hn; [done|]. by rw Hq in Hn.
    + intros q Hq. apply elem_of_app. by left.
    + exists (new_plan i). split_and!; [|done|by left]. apply elem_of_app. right. left.
    + intros q Hq Hn. exfalso. apply Hnone. rw -Hn. by apply list_elem_of_fmap_2.
Qed.

Lemma reused_leaves now i reuse plans k :
  NoDup (plan_name <$> plans) →
  reusable_plan (filter (λ p, owns (in_owner_uid i) p) plans) (in_digest i) (in_expected_base i)
    reuse = Some k →
  current_plan i reuse (supersede_stale_plans password_source_digest_of now
    (filter (λ p, owns (in_owner_uid i) p) plans) plans (plan_name k) (in_digest i)
    (in_expected_base i) (in_versions i) reuse) (plan_name k).
Proof.
  intros Hnd Hk. apply max_by_elem in Hk.
  apply list_elem_of_filter in Hk as [Hm [Ho Hin]%list_elem_of_filter].
  apply Is_true_eq_true in Hm, Ho. destruct (may_reuse_spec _ _ _ _ Hm) as (s & Hs & Hph & Hd & Hdig).
  exists k, s. split_and!; try done. apply sweep_keeps_kept; try done.
  intros q sq Hq _ Hn Hsq. rw (plan_name_unique _ _ _ Hnd Hq Hin Hn) Hs in Hsq. by injection Hsq as <-.
Qed.

(** The plan a back-off answers with. *)
Lemma backoff_plan i digest plans k test :
  find test (filter (λ p, owns (in_owner_uid i) p) plans) = Some k →
  (∀ p, test p = true → ∃ s, status p = Some s ∧ plan_matches_digest s digest = true ∧
     (phase s = PlanPhase.Failed ∨ phase s = PlanPhase.Applied)) →
  ∃ p s, p ∈ plans ∧ plan_name p = plan_name k ∧ owns (in_owner_uid i) p = true ∧ status p = Some s ∧
    plan_matches_digest s digest = true ∧ is_actionable s = false.
Proof.
  intros [Hin Ht]%find_some Htest. apply list_elem_of_In in Hin.
  apply list_elem_of_filter in Hin as [Ho Hin]. apply Is_true_eq_true in Ho.
  destruct (Htest k Ht) as (s & Hs & Hd & Hph). exists k, s. split_and!; try done.
  unfold is_actionable, is_phase. by destruct Hph as [-> | ->].
Qed.

Lemma failed_recently_spec digest now_ts p :
  failed_recently parse_rfc3339_epoch_secs digest now_ts p = true →
  ∃ s, status p = Some s ∧ plan_matches_digest s digest = true ∧
    (phase s = PlanPhase.Failed ∨ phase s = PlanPhase.Applied).
Proof.
  unfold failed_recently. destruct (status p) as [s|]; [|done].
  intros [[Hph%is_phase_true Hdig]%andb_true_iff _]%andb_true_iff. exists s. auto.
Qed.

Lemma not_converging_spec digest now_ts p :
  not_converging parse_rfc3339_epoch_secs digest now_ts p = true →
  ∃ s, status p = Some s ∧ plan_matches_digest s digest = true ∧
    (phase s = PlanPhase.Failed ∨ phase s = PlanPhase.Applied).
Proof.
  unfold not_converging. destruct (status p) as [s|]; [|done].
  intros [Hdig Hrec]%andb_true_iff. cbn in Hrec.
  destruct (is_phase PlanPhase.Applied s) eqn:Hph; [|done]. apply is_phase_true in Hph. exists s. auto.
Qed.

Lemma created_leaves now i reuse plans plans1 uid :
  NoDup (plan_name <$> plans) → in_owner_uid i = Some uid → create_plan i plans = Ok plans1 →
  current_plan i reuse (supersede_stale_plans password_source_digest_of now
    (filter (λ p, owns (in_owner_uid i) p) plans)
    (patch_status plans1 (in_plan_name i) (created_status password_source_digest_of now i))
    (in_plan_name i) (in_digest i) (in_expected_base i) (in_versions i) reuse) (in_plan_name i).
Proof.
  intros Hnd Huid Hc.
  destruct (create_plan_spec _ _ _ Hnd Hc) as (_ & _ & (p0 & Hp0 & Hn0 & Ho0) & Hexist).
  exists (with_status p0 (Some (created_status password_source_digest_of now i))), (created_status password_source_digest_of now i).
  split_and!; try done.
  - apply sweep_keeps_kept; try done.
    + intros q s Hq _ Hn. by apply (proj2 (Hexist q Hq Hn)).
    + apply list_elem_of_fmap. exists p0. by rw Hn0 String.eqb_refl.
  - destruct Ho0 as [-> |]; [|done]. unfold owns. rw Huid. cbn. by rw Huid String.eqb_refl.
  - by left.
  - apply created_matches.
Qed.

Lemma patched_elem plans name s q :
  plan_name q ≠ name → q ∈ patch_status plans name s ↔ q ∈ plans.
Proof.
  intros Hn. unfold patch_status. rw list_elem_of_fmap. split.
  - intros (p & -> & Hp). by destruct (String.eqb_spec (plan_name p) name).
  - intros Hq. exists q. by destruct (String.eqb_spec (plan_name q) name).
Qed.

Lemma creation_leaves (now : string) (now_ts : Z) (i : PlanInputs) (reuse : PlanReuse)
    (detect : bool) (plans plans' : list PolicyPlan) (r : PlanCreationResult) (uid : string) :
  NoDup (plan_name <$> plans) → in_owner_uid i = Some uid →
  create_or_update_plan now now_ts i reuse detect plans = Ok (r, plans') →
  match r with
  | PlanCreationResult.Created n | PlanCreationResult.Deduplicated n =>
      current_plan i reuse plans' n ∧
      (∀ p s, p ∈ plans' → owns (in_owner_uid i) p = true → status p = Some s →
         is_actionable s = true → plan_name p ≠ n →
         reuse = PlanReuse.PendingOnly ∧ phase s = PlanPhase.Approved ∧
         plan_matches_digest s (in_digest i) = true ∧
         (∀ b, in_expected_base i = Some b → plan_base_pin p = Some b))
  | PlanCreationResult.DeduplicatedFailed n | PlanCreationResult.DeduplicatedNonConvergent n =>
      plans' = plans ∧
      ∃ p s, p ∈ plans ∧ plan_name p = n ∧ owns (in_owner_uid i) p = true ∧ status p = Some s ∧
        plan_matches_digest s (in_digest i) = true ∧ is_actionable s = false
  end ∧
  (∀ p, p ∈ plans → owns (in_owner_uid i) p = false → p ∈ plans').
Proof.
  intros Hnd Huid. unfold PlanCreation.create_or_update_plan.
  destruct (reusable_plan _ _ _ _) as [k|] eqn:Hk.
  { intros [= <- <-]. split_and!.
    - by apply reused_leaves.
    - intros p sp Hp Hop Hsp Ha Hn. by eapply sweep_leaves.
    - intros p Hp Hop. by apply sweep_keeps_others. }
  destruct (find (failed_recently _ _ _) _) as [k|] eqn:Hfail.
  { intros [= <- <-]. split; [split; [done|]|done].
    eapply backoff_plan; [done|apply failed_recently_spec]. }
  destruct (if detect then _ else _) as [k|] eqn:Hconv.
  { intros [= <- <-]. destruct detect; [|done]. split; [split; [done|]|done].
    eapply backoff_plan; [done|apply not_converging_spec]. }
  destruct (create_plan i plans) as [plans1|?|] eqn:Hc; [|done..]. cbn. intros [= <- <-].
  destruct (create_plan_spec _ _ _ Hnd Hc) as (Hsub & Hsup & _ & Hexist). split_and!.
  - by eapply created_leaves.
  - intros p s Hp Hop Hs Ha Hn. eapply sweep_leaves; [exact Hnd| |exact Hp|done..].
    intros q Hq Hnq. apply Hsub; [|done]. by apply patched_elem in Hq.
  - intros p Hp Hop. assert (plan_name p ≠ in_plan_name i) as Hne.
    { intros Hn. destruct (Hexist p Hp Hn) as [Ho _]. congruence. }
    apply sweep_keeps_others; [done..|]. by apply patched_elem, Hsup.
Qed.

(** ** The namespace after a creation *)

Lemma creation_names now now_ts i reuse detect plans r plans' :
  NoDup (plan_name <$> plans) →
  create_or_update_plan now now_ts i reuse detect plans = Ok (r, plans') →
  NoDup (plan_name <$> plans').
Proof.
  intros Hnd. unfold PlanCreation.create_or_update_plan.
  assert (∀ stored kept base versions digest ps, NoDup (plan_name <$> ps) →
    NoDup (plan_name <$> supersede_stale_plans password_source_digest_of now
      (filter (λ p, owns (in_owner_uid i) p) stored) ps kept digest base versions reuse)) as Hsw.
  { intros stored kept base versions digest ps. unfold supersede_stale_plans.
    generalize (filter (λ p, owns (in_owner_uid i) p) stored). intros l. revert ps.
    induction l as [|q l IH]; intros ps Hps; [done|]. cbn. apply IH.
    destruct (retire _ _ _ _ _ _ _ _); [by rw patch_status_names|done]. }
  destruct (reusable_plan _ _ _ _) as [k|]; [intros [= _ <-]; by apply Hsw|].
  destruct (find _ _) as [k|]; [by intros [= _ <-]|].
  destruct (if detect then _ else _) as [k|]; [by intros [= _ <-]|].
  destruct (create_plan i plans) as [ps|?|] eqn:Hc; [|done..]. cbn. intros [= _ <-].
  apply Hsw. rw patch_status_names. unfold create_plan in Hc.
  destruct (find (named _) plans) as [e|] eqn:Hf.
  - destruct (negb _); [done|]. destruct (negb _); [done|]. by injection Hc as <-.
  - injection Hc as <-. rw fmap_app. apply NoDup_app. split_and!; [done| |apply NoDup_singleton].
    intros x Hx ->%list_elem_of_singleton. by apply find_named_None in Hf.
Qed.

(** C15: after a plan is created or reused, it is the only plan of its owner that still
    awaits a decision: it is stored, pending (or, under automatic approval, already
    approved), not denied, and holds the digest of the effects just computed.  A plan left
    actionable beside it is an approval of exactly these effects, on the expected base, that
    a manual path keeps; under automatic approval there is none.  A back-off changes no
    stored plan.  The plans of other owners are never touched. *)
Theorem one_plan_awaits_decision (now : string) (now_ts : Z) (i : PlanInputs) (reuse : PlanReuse)
    (detect : bool) (plans plans' : list PolicyPlan) (r : PlanCreationResult) (uid : string) :
  NoDup (plan_name <$> plans) → in_owner_uid i = Some uid →
  create_or_update_plan now now_ts i reuse detect plans = Ok (r, plans') →
  match r with
  | PlanCreationResult.Created n | PlanCreationResult.Deduplicated n =>
      current_plan i reuse plans' n ∧
      (∀ p s, p ∈ plans' → owns (in_owner_uid i) p = true → status p = Some s →
         is_actionable s = true → plan_name p ≠ n →
         reuse = PlanReuse.PendingOnly ∧ phase s = PlanPhase.Approved ∧
         plan_matches_digest s (in_digest i) = true ∧
         (∀ b, in_expected_base i = Some b → plan_base_pin p = Some b))
  | PlanCreationResult.DeduplicatedFailed n | PlanCreationResult.DeduplicatedNonConvergent n =>
      plans' = plans ∧
      ∃ p s, p ∈ plans ∧ plan_name p = n ∧ owns (in_owner_uid i) p = true ∧ status p = Some s ∧
        plan_matches_digest s (in_digest i) = true ∧ is_actionable s = false
  end ∧
  (∀ p, p ∈ plans → owns (in_owner_uid i) p = false → p ∈ plans').
Proof. apply creation_leaves. Qed.
End creation.

(** ** How long a back-off lasts *)

(** the gate before a retry and the one against a plan that does not converge close for
    the 120 seconds that follow the recorded failure or application, and never for a time
    stamp that lies ahead of the clock.  The test made when a plan is created has no such
    guard: a matching plan whose recorded failure lies ahead of the clock holds back every
    new plan until 120 seconds after that time. *)
Theorem backoff_windows (parse_ts : string → option Z) (digest : string) (now_ts : Z)
    (plan : PolicyPlan) (s : PlanStatus) :
  let failed_ts := timestamp_or_zero parse_ts (failed_at s) in
  let applied_ts := timestamp_or_zero parse_ts (applied_at s) in
  (retry_deferred_until_window_expires parse_ts (Some s) now_ts = true ↔
     (0 < failed_ts ≤ now_ts ∧ now_ts < failed_ts + 120 ∧ applied_ts ≤ failed_ts)%Z) ∧
  (applied_recently_without_converging parse_ts (Some s) now_ts = true ↔
     phase s = PlanPhase.Applied ∧ (0 < applied_ts ≤ now_ts ∧ now_ts < applied_ts + 120)%Z) ∧
  (failed_recently parse_ts digest now_ts (with_status plan (Some s)) = true ↔
     phase s = PlanPhase.Failed ∧ plan_matches_digest s digest = true ∧
     (0 < failed_ts ∧ now_ts < failed_ts + 120)%Z).
Proof.
  intros failed_ts applied_ts. split_and!.
  - unfold retry_deferred_until_window_expires, FAILED_PLAN_DEDUP_WINDOW_SECS.
    fold failed_ts applied_ts. destruct (negb _) eqn:Hn.
    + split; [done|]. intros H. apply negb_true_iff in Hn. rw !andb_false_iff in Hn. lia.
    + apply negb_false_iff in Hn. rw !andb_true_iff in Hn. lia.
  - unfold applied_recently_without_converging, APPLIED_PLAN_NONCONVERGENT_WINDOW_SECS.
    fold applied_ts. rw -is_phase_true. destruct (is_phase PlanPhase.Applied s); cbn.
    + rw !andb_true_iff. lia.
    + split; [done|]. by intros [].
  - unfold failed_recently, FAILED_PLAN_DEDUP_WINDOW_SECS. cbn. fold failed_ts.
    rw !andb_true_iff is_phase_true. intuition lia.
Qed.
