(* ===== verification/PlanExecution.v ===== *)
(** * From a decision to execution ([plan.rs], [reconciler.rs])

    What a reconcile does with the plan it finds: under manual approval, the decision on the
    plan against the effects the policy would produce now; under automatic approval, the
    plan created or reused for them.  The outcome of the database transaction and of the
    creation of generated secrets are arguments. *)

From S2P Require Import Prelude BTree RustStr Types Model Change Plan Approval PlanStatus PlanWrites PlanSql PlanCreation.

Module PendingPlanDecision.
Inductive PendingPlanDecision : Set := Retain | Replace | Clear.
End PendingPlanDecision.
Abbreviation PendingPlanDecision := PendingPlanDecision.PendingPlanDecision.

Definition decide_pending_plan (plan_status : option PlanStatus) (fresh_digest : string)
    (has_changes : bool) : PendingPlanDecision :=
  if negb has_changes then PendingPlanDecision.Clear
  else if match plan_status with Some s => plan_matches_digest s fresh_digest | None => false end
  then PendingPlanDecision.Retain
  else PendingPlanDecision.Replace.

Module ApprovedPlanDecision.
Inductive ApprovedPlanDecision : Set := Execute | Replace | Clear.
#[export] Instance decision_eq_dec : EqDecision ApprovedPlanDecision.
Proof. solve_decision. Defined.
End ApprovedPlanDecision.
Abbreviation ApprovedPlanDecision := ApprovedPlanDecision.ApprovedPlanDecision.
Export (hints) ApprovedPlanDecision.

Definition decide_approved_plan (plan_status : option PlanStatus) (fresh_digest : string)
    (has_changes : bool) : ApprovedPlanDecision :=
  if match plan_status with Some s => plan_matches_digest s fresh_digest | None => false end
  then ApprovedPlanDecision.Execute
  else if has_changes then ApprovedPlanDecision.Replace
  else ApprovedPlanDecision.Clear.

(** What a reconcile knows when it reaches its plan. *)
Record Reconcile := {
  fresh_digest : string;
  has_changes : bool;
  observed_identity : TargetIdentity;
  requires_physical_identity : bool;
  source_versions : gmap string string;
  generation : option Z;
  authority_block : option string;
  secrets_error : option (ReconcileError * string);
  transaction : string + nat;
  clock : string;
  clock_secs : Z;
}.

(** How it ends. *)
Inductive Outcome : Set :=
  | ExecutedPlan
  | Cleared (cause : SupersedeCause)
  | Replanned (cause : SupersedeCause)
  | RejectedByReviewer
  | AwaitingDecision
  | Stopped (e : ReconcileError)
  | Panicked.

(** The status writes of a reconcile on its plan, in order, whether the transaction was
    started, and how the reconcile ends. *)
Record Handled := {
  writes : list PlanStatus;
  transaction_started : bool;
  outcome : Outcome;
}.

Definition stopped (w : list PlanStatus) (e : ReconcileError) : Handled := {|
  writes := w; transaction_started := false; outcome := Stopped e |}.

Section execution.
Context (parse_rfc3339_epoch_secs : string → option Z).
Context (password_source_digest_of : gmap string string → string).

Definition execute_plan (r : Reconcile) (plan : PolicyPlan) : Handled :=
  if retry_deferred_until_window_expires parse_rfc3339_epoch_secs (status plan) (clock_secs r)
  then stopped []
    (ReconcileError.PlanRetryDeferred (plan_name plan)
       (default "no error recorded" (status plan ≫= last_error)))
  else
    let applying := update_plan_phase (clock r) (default default_status (status plan)) PlanPhase.Applying in
    match transaction r with
    | inr _ =>
        {| writes := [applying; applied_status (clock r) (status plan)];
           transaction_started := true; outcome := ExecutedPlan |}
    | inl message =>
        {| writes := [applying; failed_status (clock r) (status plan) message];
           transaction_started := true; outcome := Stopped (ReconcileError.SqlExec message) |}
    end.

(** Record the approval, stop for missing authority, create the secrets, execute. *)
Definition after_approval (r : Reconcile) (plan : PolicyPlan) : Handled :=
  match secrets_error r with
  | Some (e, message) => stopped [failed_status (clock r) (status plan) message] e
  | None => execute_plan r plan
  end.

Definition prepend (w : list PlanStatus) (h : Handled) : Handled := {|
  writes := w ++ writes h; transaction_started := transaction_started h; outcome := outcome h |}.

(** The decision on an approved plan, after the target identity has been asked. *)
Definition approved_decision (r : Reconcile) (plan : PolicyPlan) :
    TargetIdentityVerdict * ApprovedPlanDecision :=
  let approved_identity :=
    default {| physical := None; logical := None |} (plan_target_identity <$> status plan) in
  let verdict := evaluate_target_identity approved_identity (observed_identity r)
                   (requires_physical_identity r) in
  let decision := decide_approved_plan (status plan) (fresh_digest r) (has_changes r) in
  match verdict with
  | TargetIdentityVerdict.Proceed => (verdict, decision)
  | _ => (verdict, if decide (decision = ApprovedPlanDecision.Execute)
                   then ApprovedPlanDecision.Replace else decision)
  end.

Definition approved_cause (r : Reconcile) (plan : PolicyPlan) (verdict : TargetIdentityVerdict)
    (decision : ApprovedPlanDecision) : SupersedeCause :=
  match verdict with
  | TargetIdentityVerdict.Superseded reason | TargetIdentityVerdict.Blocked reason =>
      SupersedeCause.TargetChanged reason
  | TargetIdentityVerdict.Proceed =>
      if decide (decision = ApprovedPlanDecision.Clear) then SupersedeCause.EffectsCleared
      else if match status plan with
              | Some s => password_source_changed password_source_digest_of s (source_versions r)
              | None => false
              end
      then SupersedeCause.PasswordSourceChanged
      else SupersedeCause.EffectsChanged
  end.

(** [ApprovalMode::Manual], with a plan to act on. *)
Definition reconcile_manual (r : Reconcile) (plan : PolicyPlan) : Handled :=
  match check_plan_approval (status plan) with
  | PlanApprovalState.Approved =>
      let '(verdict, decision) := approved_decision r plan in
      let cause := approved_cause r plan verdict decision in
      match decision with
      | ApprovedPlanDecision.Clear =>
          {| writes := [mark_plan_superseded (clock r) (status plan) cause];
             transaction_started := false; outcome := Cleared cause |}
      | ApprovedPlanDecision.Replace =>
          {| writes := []; transaction_started := false; outcome := Replanned cause |}
      | ApprovedPlanDecision.Execute =>
          match mark_plan_approved (clock r) plan "ManuallyApproved" "Plan approved by a reviewer" with
          | Err e => stopped [] e
          | Panic => {| writes := []; transaction_started := false; outcome := Panicked |}
          | Ok s =>
              match authority_block r with
              | Some message => stopped [s] (ReconcileError.ExecutorAuthority message)
              | None => prepend [s] (after_approval r (with_status plan (Some s)))
              end
          end
      end
  | PlanApprovalState.Rejected =>
      {| writes := [mark_plan_rejected_with (default default_status (status plan))];
         transaction_started := false; outcome := RejectedByReviewer |}
  | PlanApprovalState.Pending =>
      match decide_pending_plan (status plan) (fresh_digest r) (has_changes r) with
      | PendingPlanDecision.Clear =>
          {| writes := [mark_plan_superseded (clock r) (status plan) SupersedeCause.EffectsCleared];
             transaction_started := false; outcome := Cleared SupersedeCause.EffectsCleared |}
      | PendingPlanDecision.Replace =>
          {| writes := []; transaction_started := false;
             outcome := Replanned SupersedeCause.EffectsChanged |}
      | PendingPlanDecision.Retain =>
          {| writes := match status plan with
                       | Some s =>
                           if needs_revalidation_record s (generation r)
                           then [record_plan_revalidation (clock r) (generation r) s] else []
                       | None => []
                       end;
             transaction_started := false; outcome := AwaitingDecision |}
      end
  end.

(** [ApprovalMode::Auto], with the plan that was created or reused. *)
Definition execute_auto (r : Reconcile) (plan : PolicyPlan) : Handled :=
  match authority_block r with
  | Some message => stopped [] (ReconcileError.ExecutorAuthority message)
  | None =>
      match mark_plan_approved (clock r) plan "AutoApproved"
              "Plan auto-approved by policy approval mode" with
      | Err e => stopped [] e
      | Panic => {| writes := []; transaction_started := false; outcome := Panicked |}
      | Ok s => prepend [s] (after_approval r (with_status plan (Some s)))
      end
  end.

(** Fetch the plan, approve it and execute it. *)
Definition auto_apply (r : Reconcile) (name : string) (plans : list PolicyPlan)
    : res ReconcileError (Handled * list PolicyPlan) :=
  match find (named name) plans with
  | None => Err (ReconcileError.Kube "not found")
  | Some plan =>
      let handled := execute_auto r plan in
      Ok (handled,
          match last (writes handled) with
          | Some s => patch_status plans name s
          | None => plans
          end)
  end.

Definition reconcile_auto (r : Reconcile) (i : PlanInputs) (plans : list PolicyPlan)
    : res ReconcileError (Handled * list PolicyPlan) :=
  created ← create_or_update_plan parse_rfc3339_epoch_secs password_source_digest_of
    (clock r) (clock_secs r) i PlanReuse.AutoApproval true plans;
  let '(result, plans) := created in
  match result with
  | PlanCreationResult.DeduplicatedFailed name =>
      let recorded :=
        default "no error recorded" ((find (named name) plans ≫= status) ≫= last_error) in
      Err (ReconcileError.PlanRetryDeferred name recorded)
  | PlanCreationResult.DeduplicatedNonConvergent name => Err (ReconcileError.NonConvergentPlan name)
  | PlanCreationResult.Created name | PlanCreationResult.Deduplicated name => auto_apply r name plans
  end.
End execution.
