(* ===== verification/PlanExecutionFacts.v ===== *)
(** * What a reconcile may execute

    When the transaction is started, and what is written about it. *)

From S2P Require Import Prelude BTree RustStr Types Model Change Plan Approval PlanStatus PlanWrites PlanSql PlanCreation PlanCreationFacts PlanExecution.

Lemma verdict_proceeds approved observed required :
  evaluate_target_identity approved observed required = TargetIdentityVerdict.Proceed ↔
  approved = observed ∧ (required = true → is_Some (physical observed)).
Proof.
  destruct (required && (negb (has_physical observed) || negb (has_physical approved))) eqn:Hreq.
  - unfold evaluate_target_identity. rw Hreq. split; [done|]. intros [-> Hs].
    apply requirement_missed in Hreq as [Hr [Hn|Hn]]; destruct (Hs Hr); congruence.
  - assert (required = true → is_Some (physical observed)) as Hs.
    { intros Hr. destruct (physical observed) eqn:Hn; [by eexists|]. exfalso.
      assert (required && (negb (has_physical observed) || negb (has_physical approved)) = true)
        by (apply requirement_missed; auto). congruence. }
    destruct (identity_verdict _ _ _ Hreq) as [[-> ->]|[Hne [r ->]]]; split; try done. by intros [? _].
Qed.

Section facts.
Context (parse_rfc3339_epoch_secs : string → option Z).
Context (password_source_digest_of : gmap string string → string).

Abbreviation execute_plan := (execute_plan parse_rfc3339_epoch_secs).
Abbreviation after_approval := (after_approval parse_rfc3339_epoch_secs).
Abbreviation reconcile_manual := (reconcile_manual parse_rfc3339_epoch_secs password_source_digest_of).
Abbreviation execute_auto := (execute_auto parse_rfc3339_epoch_secs).

(** ** When the transaction is started *)

Definition retry_allowed (r : Reconcile) (s : PlanStatus) : Prop :=
  retry_deferred_until_window_expires parse_rfc3339_epoch_secs (Some s) (clock_secs r) = false.

Lemma execute_plan_started r plan :
  transaction_started (execute_plan r plan) = true ↔
  retry_deferred_until_window_expires parse_rfc3339_epoch_secs (status plan) (clock_secs r) = false.
Proof.
  unfold PlanExecution.execute_plan. destruct (retry_deferred_until_window_expires _ _ _); [done|].
  by destruct (transaction r).
Qed.

Lemma after_approval_started r plan s :
  status plan = Some s →
  transaction_started (after_approval r plan) = true ↔ secrets_error r = None ∧ retry_allowed r s.
Proof.
  intros Hs. unfold PlanExecution.after_approval, retry_allowed.
  destruct (secrets_error r) as [[e m]|]; cbn; [naive_solver|].
  rw execute_plan_started Hs. tauto.
Qed.

(** An approval keeps the times of the failures and applications before it. *)
Lemma approval_keeps_times now plan reason message s s' :
  status plan = Some s → mark_plan_approved now plan reason message = Ok s' →
  failed_at s' = failed_at s ∧ applied_at s' = applied_at s.
Proof.
  intros Hs. unfold mark_plan_approved. rw Hs. cbn [default from_option id].
  destruct (is_denied s); [done|]. by destruct (has_terminal_decision s); intros [= <-].
Qed.

Lemma retry_same_times r s s' :
  failed_at s' = failed_at s ∧ applied_at s' = applied_at s → retry_allowed r s' ↔ retry_allowed r s.
Proof. unfold retry_allowed, retry_deferred_until_window_expires. by intros [-> ->]. Qed.

Lemma approved_decision_execute r plan s :
  status plan = Some s →
  (approved_decision r plan).2 = ApprovedPlanDecision.Execute ↔
  plan_matches_digest s (fresh_digest r) = true ∧ plan_target_identity s = observed_identity r ∧
  (requires_physical_identity r = true → is_Some (physical (observed_identity r))).
Proof.
  intros Hs. unfold approved_decision. rw Hs. cbn [default from_option fmap option_fmap option_map id].
  pose proof (verdict_proceeds (plan_target_identity s) (observed_identity r)
    (requires_physical_identity r)) as Hv.
  unfold decide_approved_plan. destruct (evaluate_target_identity _ _ _); cbn.
  - destruct (plan_matches_digest s (fresh_digest r)); [tauto|].
    split; [by destruct (has_changes r)|by intros []].
  - split; [|by intros [_ H%Hv]]. by destruct (plan_matches_digest _ _), (has_changes r).
  - split; [|by intros [_ H%Hv]]. by destruct (plan_matches_digest _ _), (has_changes r).
Qed.

Lemma mark_approved_undenied now plan s reason message :
  status plan = Some s → is_denied s = false →
  ∃ s', mark_plan_approved now plan reason message = Ok s'.
Proof.
  intros Hs Hd. unfold mark_plan_approved. rw Hs. cbn [default from_option id]. rw Hd.
  destruct (has_terminal_decision s); by eexists.
Qed.

Lemma manual_started (r : Reconcile) (plan : PolicyPlan) (s : PlanStatus) :
  status plan = Some s →
  transaction_started (reconcile_manual r plan) = true ↔
  ("Approved" ∈ decision_types s ∧ "Denied" ∉ decision_types s) ∧
  (plan_matches_digest s (fresh_digest r) = true ∧ plan_target_identity s = observed_identity r ∧
   (requires_physical_identity r = true → is_Some (physical (observed_identity r)))) ∧
  authority_block r = None ∧ secrets_error r = None ∧ retry_allowed r s.
Proof.
  intros Hs. rw -check_approved -(approved_decision_execute r plan s Hs).
  unfold PlanExecution.reconcile_manual. rw Hs.
  destruct (check_plan_approval (Some s)) eqn:Hc; cbn.
  - split; [|by intros []]. by destruct (decide_pending_plan _ _ _).
  - destruct (approved_decision r plan) as [verdict decision]; cbn.
    destruct decision; cbn; [|split; [done|naive_solver]..].
    apply check_approved in Hc as [_ Hd].
    destruct (mark_approved_undenied (clock r) plan s "ManuallyApproved"
      "Plan approved by a reviewer" Hs) as [s' Hm].
    { rw is_denied_types. by apply bool_decide_eq_false. }
    rw Hm. destruct (authority_block r); cbn; [naive_solver|].
    rw (after_approval_started r _ s'); [|done].
    rw (retry_same_times r s s'); [|by eapply approval_keeps_times]. tauto.
  - split; [done|]. by intros [].
Qed.

(** C5: under manual approval the transaction is started exactly when the plan carries an
    approval and no denial, its recorded digest is, under the current encoding, that of the
    effects the policy would produce now, the identities of the database are those of the
    approval (with the physical one readable where it is required), nothing blocks the
    executor, the generated secrets were created, and no failure is being backed off. *)
Theorem manual_execution_is_authorised (r : Reconcile) (plan : PolicyPlan) (s : PlanStatus) :
  status plan = Some s →
  transaction_started (reconcile_manual r plan) = true ↔
  ("Approved" ∈ decision_types s ∧ "Denied" ∉ decision_types s) ∧
  (plan_matches_digest s (fresh_digest r) = true ∧ plan_target_identity s = observed_identity r ∧
   (requires_physical_identity r = true → is_Some (physical (observed_identity r)))) ∧
  authority_block r = None ∧ secrets_error r = None ∧ retry_allowed r s.
Proof. apply manual_started. Qed.

(** ** What is written *)

(** Each status sent, after the one before it, passes validation. *)
Fixpoint admitted_chain (s : PlanStatus) (ws : list PlanStatus) : bool :=
  match ws with
  | [] => true
  | w :: ws => admitted s w && admitted_chain w ws
  end.

Fixpoint operator_chain (s : PlanStatus) (ws : list PlanStatus) : Prop :=
  match ws with
  | [] => True
  | w :: ws => operator_write s w ∧ operator_chain w ws
  end.

Lemma operator_chain_admitted s ws :
  well_formed s → operator_chain s ws → admitted_chain s ws = true ∧ well_formed (default s (last ws)).
Proof.
  revert s. induction ws as [|w ws IH]; intros s Hwf; [done|]. cbn [operator_chain admitted_chain].
  intros [Hw Hc]. destruct (operator_write_admitted _ _ Hwf Hw) as [-> Hwf'].
  destruct (IH w Hwf' Hc) as [-> Hl]. split; [done|].
  rw last_cons. by destruct (last ws).
Qed.

Lemma execute_plan_chain r plan s :
  status plan = Some s → check_plan_approval (Some s) = PlanApprovalState.Approved →
  operator_chain s (writes (execute_plan r plan)).
Proof.
  intros Hs Hc. unfold PlanExecution.execute_plan. rw Hs. cbn [default from_option id].
  destruct (retry_deferred_until_window_expires _ _ _); [done|].
  set (applying := update_plan_phase (clock r) s PlanPhase.Applying).
  assert (applied_status (clock r) (Some s) = applied_status (clock r) (Some applying) ∧
    ∀ m, failed_status (clock r) (Some s) m = failed_status (clock r) (Some applying) m) as [Ha Hf].
  { unfold applying. by rw update_plan_phase_set. }
  destruct (transaction r) as [m|n]; cbn [writes operator_chain]; split_and!; try done; try by apply StartApplying.
  - rw Hf. constructor.
  - rw Ha. apply Complete. unfold applying. by rw update_plan_phase_set.
Qed.

Lemma after_approval_chain r plan s :
  status plan = Some s → check_plan_approval (Some s) = PlanApprovalState.Approved →
  operator_chain s (writes (after_approval r plan)).
Proof.
  intros Hs Hc. unfold PlanExecution.after_approval. destruct (secrets_error r) as [[e m]|].
  - rw Hs. cbn. split; [constructor|done].
  - by apply execute_plan_chain.
Qed.

Lemma mark_approved_reads_approved now plan s reason message s' :
  status plan = Some s → well_formed s → mark_plan_approved now plan reason message = Ok s' →
  check_plan_approval (Some s') = PlanApprovalState.Approved.
Proof.
  intros Hs Hwf Hm. destruct (mark_plan_approved_spec _ _ _ _ _ _ Hs Hwf Hm) as (_ & Ht & _).
  apply check_approved. rw Ht. split; [left|]. by intros ?%list_elem_of_singleton.
Qed.

Lemma reconcile_manual_chain r plan s :
  status plan = Some s → well_formed s → operator_chain s (writes (reconcile_manual r plan)).
Proof.
  intros Hs Hwf. unfold PlanExecution.reconcile_manual. rw Hs.
  destruct (check_plan_approval (Some s)) eqn:Hc.
  - destruct (decide_pending_plan _ _ _); cbn; [|done|].
    + destruct (needs_revalidation_record _ _); cbn; auto.
    + split; [|done]. apply Supersede.
  - destruct (approved_decision r plan) as [verdict decision]. destruct decision; cbn; [|done|].
    + destruct (mark_plan_approved _ _ _ _) as [s'|e|] eqn:Hm; [|done..].
      assert (operator_write s s') as Hw by by eapply Approve.
      destruct (authority_block r); cbn; split; try done.
      eapply after_approval_chain; [done|]. by eapply mark_approved_reads_approved.
    + split; [|done]. apply Supersede.
  - cbn. split; [|done]. apply Reject. apply not_false_iff_true. intros Hd.
    cbn in Hc. unfold is_denied in Hd. rw Hd in Hc.
    by destruct (existsb (holds "Approved") _).
Qed.

Lemma execute_auto_chain r plan s :
  status plan = Some s → well_formed s → operator_chain s (writes (execute_auto r plan)).
Proof.
  intros Hs Hwf. unfold PlanExecution.execute_auto. destruct (authority_block r); [done|].
  destruct (mark_plan_approved _ _ _ _) as [s'|e|] eqn:Hm; [|done..]. cbn. split; [by eapply Approve|].
  eapply after_approval_chain; [done|]. by eapply mark_approved_reads_approved.
Qed.

Lemma retire_chain now kept digest base versions reuse plan s s' :
  status plan = Some s →
  retire password_source_digest_of now kept digest base versions reuse plan = Some s' →
  operator_write s s'.
Proof.
  intros Hs. unfold retire. rw Hs. destruct (_ && is_denied s) eqn:Hd.
  - intros [= <-]. apply andb_true_iff in Hd as [_ Hd]. by apply Reject.
  - destruct (supersede_cause _ _ _ _ _ _ _ _) as [cause|]; [|done]. intros [= <-]. apply Supersede.
Qed.

(** C24: every status the operator sends for a plan passes the validation of the API server
    against the status it replaces: the writes of a reconcile under manual and under
    automatic approval, in their order, and those of the sweep that retires stale plans.
    The status stays well formed: at most one decision, recorded with who took it. *)
Theorem operator_writes_are_admitted (r : Reconcile) (plan : PolicyPlan) (s : PlanStatus)
    (kept digest : string) (base : option string) (versions : gmap string string) (reuse : PlanReuse) :
  status plan = Some s → well_formed s →
  (let ws := writes (reconcile_manual r plan) in
   admitted_chain s ws = true ∧ well_formed (default s (last ws))) ∧
  (let ws := writes (execute_auto r plan) in
   admitted_chain s ws = true ∧ well_formed (default s (last ws))) ∧
  (∀ s', retire password_source_digest_of (clock r) kept digest base versions reuse plan = Some s' →
     admitted s s' = true ∧ well_formed s').
Proof.
  intros Hs Hwf. split_and!; cbn zeta.
  - apply operator_chain_admitted; [done|]. by apply reconcile_manual_chain.
  - apply operator_chain_admitted; [done|]. by apply execute_auto_chain.
  - intros s' Hr. apply operator_write_admitted; [done|]. by eapply retire_chain.
Qed.

(** ** Automatic approval *)

Definition well_formed_plans (plans : list PolicyPlan) : Prop :=
  ∀ p s, p ∈ plans → status p = Some s → well_formed s.

Lemma created_well_formed now i : well_formed (created_status password_source_digest_of now i).
Proof.
  split; [|done]. unfold one_entry_each. cbn. apply NoDup_cons. split; [|apply NoDup_singleton].
  by intros ?%list_elem_of_singleton.
Qed.

Lemma patch_well_formed plans name s :
  well_formed_plans plans → well_formed s → well_formed_plans (patch_status plans name s).
Proof.
  intros Hwf Hs p s' (q & -> & Hq)%list_elem_of_fmap. destruct (String.eqb _ _); [by intros [= <-]|by apply Hwf].
Qed.

Lemma sweep_well_formed now existing plans kept digest base versions reuse :
  well_formed_plans existing → well_formed_plans plans →
  well_formed_plans (supersede_stale_plans password_source_digest_of now existing plans kept digest
    base versions reuse).
Proof.
  unfold supersede_stale_plans. revert plans. induction existing as [|q existing IH]; intros plans He Hp; [done|].
  cbn. apply IH; [intros p s Hin; apply He; by right|].
  destruct (retire _ _ _ _ _ _ _ q) as [s|] eqn:Hr; [|done].
  apply patch_well_formed; [done|]. destruct (status q) as [old|] eqn:Hq.
  - eapply operator_write_admitted; [|by eapply retire_chain]. eapply He; [left|done].
  - unfold retire in Hr. by rw Hq in Hr.
Qed.

Lemma creation_well_formed now now_ts i reuse detect plans r plans' :
  well_formed_plans plans →
  create_or_update_plan parse_rfc3339_epoch_secs password_source_digest_of now now_ts i reuse detect
    plans = Ok (r, plans') →
  well_formed_plans plans'.
Proof.
  intros Hwf. unfold create_or_update_plan.
  assert (well_formed_plans (filter (λ p, owns (in_owner_uid i) p) plans)) as Hex.
  { intros p s [_ Hp]%list_elem_of_filter. by apply Hwf. }
  destruct (reusable_plan _ _ _ _) as [k|]; [intros [= _ <-]; by apply sweep_well_formed|].
  destruct (find _ _) as [k|]; [by intros [= _ <-]|].
  destruct (if detect then _ else _) as [k|]; [by intros [= _ <-]|].
  destruct (create_plan i plans) as [ps|?|] eqn:Hc; [|done..]. cbn. intros [= _ <-].
  apply sweep_well_formed; [done|]. apply patch_well_formed; [|apply created_well_formed].
  unfold create_plan in Hc. destruct (find (named _) plans) as [e|].
  - destruct (negb _); [done|]. destruct (negb _); [done|]. by injection Hc as <-.
  - injection Hc as <-. intros p s [Hp| ->%list_elem_of_singleton]%elem_of_app; [by apply Hwf|done].
Qed.

(** The last status an execution writes. *)
Lemma execute_auto_last r plan s :
  status plan = Some s → well_formed s → transaction_started (execute_auto r plan) = true →
  authority_block r = None ∧ is_denied s = false ∧
  ∃ s', last (writes (execute_auto r plan)) = Some s' ∧ decision_types s' = ["Approved"] ∧
    is_Some (decided_by s') ∧ binding_fields s' = binding_fields s ∧
    phase s' = (match transaction r with inr _ => PlanPhase.Applied | inl _ => PlanPhase.Failed end).
Proof.
  intros Hs Hwf. unfold PlanExecution.execute_auto. destruct (authority_block r); [done|].
  destruct (mark_plan_approved _ _ _ _) as [s1|e|] eqn:Hm; [|done..]. cbn.
  destruct (mark_plan_approved_spec _ _ _ _ _ _ Hs Hwf Hm) as (_ & Ht & Ha & Hb & Ho & Hd & _).
  unfold PlanExecution.after_approval. destruct (secrets_error r) as [[e m]|]; [done|].
  unfold PlanExecution.execute_plan. destruct (retry_deferred_until_window_expires _ _ _); [done|].
  intros _. split_and!; [done| |]. { rw is_denied_types. by apply bool_decide_eq_false. }
  destruct (applied_status_spec (clock r) s1 Ht Ho) as (Hp' & Ht' & _).
  destruct (transaction r) as [m|n]; cbn [writes]; eexists; split_and!; try done.
Qed.

(** A transaction started on behalf of the plans of [uid], and how it was recorded. *)
Definition recorded_execution (r : Reconcile) (digest : string) (uid : option string)
    (plans : list PolicyPlan) : Prop :=
  authority_block r = None ∧
  (∃ p s, p ∈ plans ∧ owns uid p = true ∧ status p = Some s ∧
     plan_matches_digest s digest = true ∧ decision_types s = ["Approved"] ∧ is_Some (decided_by s) ∧
     phase s = (match transaction r with inr _ => PlanPhase.Applied | inl _ => PlanPhase.Failed end)) ∧
  (∀ p s, p ∈ plans → owns uid p = true → status p = Some s → is_actionable s = false).

Lemma auto_apply_records r i plans plans' name h :
  NoDup (plan_name <$> plans) → well_formed_plans plans →
  current_plan i PlanReuse.AutoApproval plans name →
  (∀ p s, p ∈ plans → owns (in_owner_uid i) p = true → status p = Some s →
     is_actionable s = true → plan_name p ≠ name → False) →
  auto_apply parse_rfc3339_epoch_secs r name plans = Ok (h, plans') → transaction_started h = true →
  recorded_execution r (in_digest i) (in_owner_uid i) plans'.
Proof.
  intros Hnd Hwf (p & s & Hp & <- & Hown & Hs & _ & _ & Hdig) Hothers. unfold auto_apply.
  rw (find_named_unique _ _ Hnd Hp). intros [= <- <-] Hst.
  destruct (execute_auto_last r p s Hs (Hwf _ _ Hp Hs) Hst) as (Hauth & _ & s' & Hl & Ht & Hd & Hb & Hph).
  rw Hl. split_and!; [done| |].
  - exists (with_status p (Some s')), s'. split_and!; try done.
    + apply list_elem_of_fmap. exists p. by rw String.eqb_refl.
    + unfold plan_matches_digest in *. unfold binding_fields in Hb. by injection Hb as -> -> _ _ _.
  - intros q sq (q' & -> & Hq')%list_elem_of_fmap. destruct (String.eqb_spec (plan_name q') (plan_name p)).
    + intros _ [= <-]. unfold is_actionable, is_phase. rw Hph. by destruct (transaction r).
    + intros Ho Hsq. apply not_true_iff_false. intros Ha. by eapply Hothers.
Qed.

(** C34: under automatic approval the transaction is started only for effects that a stored
    plan of the policy holds: the plan carries the digest just computed and no denial, the
    executor lacks no authority, and when the reconcile ends the plan is recorded applied or
    failed as the transaction went, approved by a named actor, with no plan of the policy
    left awaiting a decision. *)
Theorem automatic_execution_is_recorded (r : Reconcile) (i : PlanInputs) (uid : string)
    (plans plans' : list PolicyPlan) (h : Handled) :
  NoDup (plan_name <$> plans) → well_formed_plans plans → in_owner_uid i = Some uid →
  reconcile_auto parse_rfc3339_epoch_secs password_source_digest_of r i plans = Ok (h, plans') →
  transaction_started h = true →
  recorded_execution r (in_digest i) (in_owner_uid i) plans'.
Proof.
  intros Hnd Hwf Huid. unfold reconcile_auto.
  destruct (create_or_update_plan _ _ _ _ _ _ _ _) as [[result plans1]|?|] eqn:Hc; [|done..]. cbn.
  destruct (creation_leaves _ _ _ _ _ _ _ _ _ _ _ Hnd Huid Hc) as [Hres _].
  pose proof (creation_well_formed _ _ _ _ _ _ _ _ Hwf Hc) as Hwf1.
  apply creation_names in Hc as Hnd1; [|done].
  destruct result as [name|name|name|name]; try done; destruct Hres as [Hcur Hothers];
    apply (auto_apply_records _ _ _ _ name _ Hnd1 Hwf1 Hcur);
    intros p s Hp Ho Hs Ha Hn; by destruct (Hothers p s Hp Ho Hs Ha Hn).
Qed.
End facts.
