(* ===== verification/Durations.v ===== *)
(** * Durations ([ephemeral.rs])

    The [s]/[m]/[h] syntax of the operator's durations, shared by the retention bounds and
    the ephemeral access ceilings.  The failures carry no text here. *)

From Stdlib Require Import Ascii.
From S2P Require Import Prelude BTree RustStr.

Module DurationError.
Inductive DurationError : Set :=
  Empty | InvalidNumber | InvalidUnit (c : string) | TooLarge | NoUnit | Zero.
End DurationError.
Abbreviation DurationError := DurationError.DurationError.

Definition U64_MAX : N := 2 ^ 64 - 1.

Definition checked_mul (a b : N) : option N := if (a * b <=? U64_MAX)%N then Some (a * b)%N else None.
Definition checked_add (a b : N) : option N := if (a + b <=? U64_MAX)%N then Some (a + b)%N else None.

(** [str::trim], on the characters. *)
Fixpoint drop_while {A} (p : A → bool) (l : list A) : list A :=
  match l with
  | [] => []
  | x :: l' => if p x then drop_while p l' else l
  end.
Definition trim_chars (cs : list string) : list string :=
  reverse (drop_while is_whitespace (reverse (drop_while is_whitespace cs))).

Definition unit_seconds (c : string) : option N :=
  if String.eqb c "h" then Some 3600%N
  else if String.eqb c "m" then Some 60%N
  else if String.eqb c "s" then Some 1%N
  else None.

Fixpoint duration_loop (total : N) (number : string) (cs : list string) : res DurationError N :=
  match cs with
  | [] =>
      if negb (String.eqb number "") then Err DurationError.NoUnit
      else if (total =? 0)%N then Err DurationError.Zero
      else Ok total
  | c :: cs =>
      if is_ascii_digit c then duration_loop total (number +:+ c) cs
      else
        match parse_unsigned U64_MAX number with
        | None => Err DurationError.InvalidNumber
        | Some amount =>
            match unit_seconds c with
            | None => Err (DurationError.InvalidUnit c)
            | Some multiplier =>
                match checked_mul amount multiplier with
                | None => Err DurationError.TooLarge
                | Some seconds =>
                    match checked_add total seconds with
                    | None => Err DurationError.TooLarge
                    | Some total => duration_loop total "" cs
                    end
                end
            end
        end
  end.

(** [parse_duration], in seconds *)
Definition parse_duration (value : string) : res DurationError N :=
  match trim_chars (chars value) with
  | [] => Err DurationError.Empty
  | cs => duration_loop 0 "" cs
  end.

(** [format_duration] *)
Definition format_duration (seconds : N) : string := pretty seconds +:+ "s".

(** ** Digits *)

Fixpoint all_digits (s : string) : bool :=
  match s with "" => true | String a s => in_range 48 57 a && all_digits s end.

Lemma digit_char_facts x :
  (x < 10)%N → in_range 48 57 (pretty_N_char x) = true ∧ byte_of (pretty_N_char x) = (48 + x)%N.
Proof.
  intros Hx. assert (x = 0 ∨ x = 1 ∨ x = 2 ∨ x = 3 ∨ x = 4 ∨ x = 5 ∨ x = 6 ∨ x = 7 ∨ x = 8 ∨ x = 9)%N as H by lia.
  by destruct H as [->|[->|[->|[->|[->|[->|[->|[->|[->| ->]]]]]]]]].
Qed.

Lemma pretty_go_digits x s : all_digits s = true → all_digits (pretty_N_go x s) = true.
Proof.
  revert s. induction (N.lt_wf_0 x) as [x _ IH]=> s Hs.
  destruct (decide (0 < x)%N) as [Hx|Hx]; cycle 1.
  { assert (x = 0)%N as -> by lia. by rw pretty_N_go_0. }
  rw pretty_N_go_step; [|done]. apply IH; [apply N.div_lt; lia|]. cbn.
  destruct (digit_char_facts (x mod 10)) as [-> _]; [by apply N.mod_lt|done].
Qed.

Lemma pretty_digits (n : N) : all_digits (pretty n) = true ∧ pretty n ≠ "".
Proof.
  unfold pretty, pretty_N. destruct (decide (n = 0)%N) as [|Hn]; [done|].
  split; [by apply pretty_go_digits|].
  assert (∀ x s, s ≠ "" → pretty_N_go x s ≠ "") as H.
  { intros x. induction (N.lt_wf_0 x) as [x _ IH]=> s Hs. destruct (decide (0 < x)%N) as [Hx|Hx]; cycle 1.
    { assert (x = 0)%N as -> by lia. by rw pretty_N_go_0. }
    rw pretty_N_go_step; [|done]. apply IH; [apply N.div_lt; lia|done]. }
  rw pretty_N_go_step; [|lia]. by apply H.
Qed.

Lemma parse_digits_go x s :
  ∃ k, ∀ acc, parse_digits acc (pretty_N_go x s) = parse_digits (acc * 10 ^ k + x) s.
Proof.
  revert s. induction (N.lt_wf_0 x) as [x _ IH]=> s. destruct (decide (0 < x)%N) as [Hx|Hx]; cycle 1.
  { exists 0%N. intros acc. assert (x = 0)%N as -> by lia. rw pretty_N_go_0. f_equal. lia. }
  destruct (IH (x / 10)%N ltac:(apply N.div_lt; lia) (String (pretty_N_char (x mod 10)) s)) as [k Hk].
  exists (k + 1)%N. intros acc. rw pretty_N_go_step; [|done]. rw Hk. cbn.
  destruct (digit_char_facts (x mod 10)) as [-> ->]; [by apply N.mod_lt|]. f_equal.
  rw N.pow_add_r N.pow_1_r. pose proof (N.div_mod' x 10) as Hx10.
  generalize dependent (x / 10)%N. generalize dependent (x mod 10)%N. generalize (10 ^ k)%N. nia.
Qed.

Lemma parse_pretty max (n : N) : (n ≤ max)%N → parse_unsigned max (pretty n) = Some n.
Proof.
  intros Hn. destruct (pretty_digits n) as [Hd Hne].
  assert (parse_digits 0 (pretty n) = Some n) as Hp.
  { unfold pretty, pretty_N. destruct (decide (n = 0)%N) as [->|Hn0]; [done|].
    destruct (parse_digits_go n "") as [k Hk]. rw Hk. by cbn. }
  unfold parse_unsigned. destruct (pretty n) as [|a s] eqn:Hs; [done|]. cbn in Hd.
  apply andb_true_iff in Hd as [Ha _]. unfold in_range in Ha. apply andb_true_iff in Ha as [Ha _].
  apply N.leb_le in Ha. destruct (N.eqb_spec (byte_of a) 43) as [He|_]; [unfold byte_of in *; lia|].
  cbn [String.eqb]. rw Hp. cbn. by rw (proj2 (N.leb_le _ _)).
Qed.

Lemma chars_digits d t :
  all_digits d = true → head_cont t = false →
  chars (d +:+ t) = chars d ++ chars t ∧ Forall (λ c, is_ascii_digit c = true) (chars d) ∧
  concat_all (chars d) = d ∧ head_cont (d +:+ t) = false.
Proof.
  intros Hd Ht. rw concat_chars. induction d as [|a d IH]; [done|]. cbn in Hd.
  apply andb_true_iff in Hd as [Ha Hd]. destruct (IH Hd) as (Hc & Hf & _ & Hh).
  assert (is_cont a = false) as Hac.
  { unfold is_cont, in_range in *. apply andb_true_iff in Ha as [_ Ha]. apply N.leb_le in Ha.
    apply andb_false_iff. left. apply N.leb_gt. lia. }
  assert (head_cont d = false) as Hhd.
  { destruct d as [|b d]; [done|]. by rw str_app_cons in Hh. }
  rw str_app_cons !chars_cons Hh Hhd Hc. split_and!; try done. by constructor.
Qed.

Lemma loop_digits total number d cs :
  Forall (λ c, is_ascii_digit c = true) d →
  duration_loop total number (d ++ cs) = duration_loop total (number +:+ concat_all d) cs.
Proof.
  intros Hd. revert number. induction Hd as [|c d Hc Hd IH]; intros number; cbn.
  - by rw str_app_nil_r.
  - rw Hc IH. by rw str_app_assoc.
Qed.

(** One component: a number and its unit. *)
Lemma loop_component total (n : N) u multiplier t :
  unit_seconds (String u "") = Some multiplier → is_ascii_digit (String u "") = false →
  is_cont u = false → head_cont t = false → (n ≤ U64_MAX)%N →
  duration_loop total "" (chars (pretty n +:+ String u t)) =
    match checked_mul n multiplier ≫= checked_add total with
    | None => Err DurationError.TooLarge
    | Some total => duration_loop total "" (chars t)
    end.
Proof.
  intros Hu Hnd Hcont Ht Hn.
  destruct (chars_digits (pretty n) (String u t) (proj1 (pretty_digits n))) as (-> & Hf & Hc & _); [done|].
  rw loop_digits; [|done]. rw Hc str_app_nil_l chars_cons Ht. cbn [duration_loop]. rw Hnd parse_pretty; [|done].
  rw Hu. destruct (checked_mul n multiplier) as [s|]; [|done]. cbn. by destruct (checked_add total s).
Qed.

Lemma head_cont_pretty (n : N) t : head_cont (pretty n +:+ t) = false.
Proof.
  destruct (pretty_digits n) as [Hd Hne]. destruct (pretty n) as [|a s]; [done|]. cbn in *.
  apply andb_true_iff in Hd as [Ha _]. unfold in_range, is_cont in *. apply andb_true_iff in Ha as [_ Ha].
  apply andb_false_iff. left. apply N.leb_gt. apply N.leb_le in Ha. lia.
Qed.

(** Nothing to trim. *)
Lemma digit_not_whitespace c : is_ascii_digit c = true → is_whitespace c = false.
Proof.
  intros Hc. apply bool_decide_eq_false. intros Hw.
  assert (forallb (λ w, negb (is_ascii_digit w)) whitespace_chars = true) as H by by vm_compute.
  apply forallb_forall with (x := c) in H; [|by apply list_elem_of_In]. by rw Hc in H.
Qed.

Lemma trim_bounded c cs d :
  is_whitespace c = false → is_whitespace d = false →
  trim_chars (c :: cs ++ [d]) = c :: cs ++ [d].
Proof.
  intros Hc Hd. unfold trim_chars. cbn [drop_while]. rw Hc.
  change (c :: cs ++ [d]) with ((c :: cs) ++ [d]). rw reverse_app. cbn [drop_while app reverse].
  rw (reverse_singleton d). cbn [app drop_while]. rw Hd.
  change (d :: reverse (c :: cs)) with ([d] ++ reverse (c :: cs)).
  by rw reverse_app reverse_involutive.
Qed.

(** A text that starts with a number and ends with seconds. *)
Lemma parse_no_trim (n : N) t :
  head_cont t = false → chars t ≠ [] → last (chars t) = Some "s" →
  parse_duration (pretty n +:+ t) = duration_loop 0 "" (chars (pretty n +:+ t)).
Proof.
  intros Ht Hne Hl. unfold parse_duration.
  destruct (chars_digits (pretty n) t (proj1 (pretty_digits n)) Ht) as (-> & Hf & Hc & _).
  destruct (chars (pretty n)) as [|c cs] eqn:Hcs.
  { exfalso. apply (proj2 (pretty_digits n)). by rw -Hc. }
  apply Forall_cons in Hf as [Hdig _]. apply last_Some in Hl as [l ->].
  cbn [app]. rw app_assoc trim_bounded; [done|by apply digit_not_whitespace|by vm_compute].
Qed.

(** The text of hours, minutes and seconds. *)
Definition print_hms (h m s : N) : string :=
  pretty h +:+ String "h"%char (pretty m +:+ String "m"%char (pretty s +:+ String "s"%char "")).

Lemma loop_bounds total number cs d :
  (total ≤ U64_MAX)%N → duration_loop total number cs = Ok d → (0 < d ≤ U64_MAX)%N.
Proof.
  revert total number. induction cs as [|c cs IH]; intros total number Ht; cbn.
  - destruct (negb _); [done|]. destruct (N.eqb_spec total 0); [done|]. intros [= <-]. lia.
  - destruct (is_ascii_digit c); [by apply IH|]. destruct (parse_unsigned _ _); [|done].
    destruct (unit_seconds c); [|done]. destruct (checked_mul _ _) as [x|]; [|done].
    unfold checked_add. destruct (N.leb_spec (total + x) U64_MAX); [|done]. by apply IH.
Qed.

Lemma add_component total n multiplier :
  checked_mul n multiplier ≫= checked_add total =
  if decide (total + n * multiplier ≤ U64_MAX)%N then Some (total + n * multiplier)%N else None.
Proof.
  unfold checked_mul, checked_add. destruct (N.leb_spec (n * multiplier) U64_MAX); cbn; cycle 1.
  - case_decide; [lia|done].
  - destruct (N.leb_spec (total + n * multiplier) U64_MAX); case_decide; lia || done.
Qed.

Lemma last_chars_unit (n : N) t x : head_cont t = false → last (chars t) = Some x →
  last (chars (pretty n +:+ t)) = Some x.
Proof.
  intros Ht Hl. destruct (chars_digits (pretty n) t (proj1 (pretty_digits n)) Ht) as (-> & _).
  by rw last_app Hl.
Qed.

Lemma last_chars_cons a t x : head_cont t = false → last (chars t) = Some x →
  last (chars (String a t)) = Some x.
Proof. intros Ht Hl. by rw chars_cons Ht last_cons Hl. Qed.

#[local] Hint Resolve head_cont_pretty last_chars_unit last_chars_cons : pgroles.

Lemma parse_format_duration d : (0 < d ≤ U64_MAX)%N → parse_duration (format_duration d) = Ok d.
Proof.
  intros Hd. unfold format_duration. rw parse_no_trim; [|done..].
  rw (loop_component 0 d "s"%char 1); [|done..|lia]. rw add_component N.add_0_l N.mul_1_r.
  rw decide_True; [|lia]. cbn. by destruct (N.eqb_spec d 0); [lia|].
Qed.

Lemma parse_duration_bounds value d : parse_duration value = Ok d → (0 < d ≤ U64_MAX)%N.
Proof. unfold parse_duration. destruct (trim_chars _); [done|]. by apply loop_bounds. Qed.

(** durations round-trip: a number of seconds printed by [format_duration] reads back, and
    a text of hours, minutes and seconds reads as their total; the total is rejected when it
    is zero or passes 64 bits, never wrapped.  Every accepted duration is positive and fits
    64 bits. *)
Theorem durations_round_trip :
  (∀ d, (0 < d ≤ U64_MAX)%N → parse_duration (format_duration d) = Ok d) ∧
  (∀ h m s, (h ≤ U64_MAX)%N → (m ≤ U64_MAX)%N → (s ≤ U64_MAX)%N →
     let total := (h * 3600 + m * 60 + s)%N in
     parse_duration (print_hms h m s) =
       if decide (total = 0)%N then Err DurationError.Zero
       else if decide (total ≤ U64_MAX)%N then Ok total else Err DurationError.TooLarge) ∧
  (∀ value d, parse_duration value = Ok d → (0 < d ≤ U64_MAX)%N).
Proof.
  split_and!.
  - apply parse_format_duration.
  - intros h m s Hh Hm Hs total. unfold print_hms.
    rw parse_no_trim; [|done|apply chars_nonempty|eauto 10 with pgroles].
    rw (loop_component 0 h "h"%char 3600); [|done..|apply head_cont_pretty|done].
    rw add_component. case_decide as H1; cycle 1.
    { rw decide_False; [|lia]. rw decide_False; [done|lia]. }
    rw (loop_component _ m "m"%char 60); [|done..|apply head_cont_pretty|done].
    rw add_component. case_decide as H2; cycle 1.
    { rw decide_False; [|lia]. rw decide_False; [done|lia]. }
    rw (loop_component _ s "s"%char 1); [|done..].
    rw add_component N.add_0_l N.mul_1_r. fold total. case_decide as H3; cycle 1.
    { rw decide_False; [done|unfold U64_MAX in *; lia]. }
    cbn. destruct (N.eqb_spec total 0); by case_decide.
  - apply parse_duration_bounds.
Qed.
