(* ===== verification/PlanRetention.v ===== *)
(** * Retention of terminal plans ([plan.rs])

    The bounds read from the environment and the plans they evict. *)

From S2P Require Import Prelude BTree RustStr Types Model Change Plan Approval PlanStatus PlanWrites PlanSql PlanCreation Durations.

(** ** The bounds *)

Record PlanRetention := {
  applied : N;
  applied_ceiling : N;
  applied_min_age_secs : Z;
  decided : N;
  superseded : N;
}.

Definition default_retention : PlanRetention := {|
  applied := 25; applied_ceiling := 200; applied_min_age_secs := 30 * 24 * 60 * 60;
  decided := 10; superseded := 3 |}.

Definition ENV_APPLIED : string := "PLAN_RETENTION_APPLIED".
Definition ENV_APPLIED_CEILING : string := "PLAN_RETENTION_APPLIED_CEILING".
Definition ENV_APPLIED_MIN_AGE : string := "PLAN_RETENTION_APPLIED_MIN_AGE".
Definition ENV_DECIDED : string := "PLAN_RETENTION_DECIDED".
Definition ENV_SUPERSEDED : string := "PLAN_RETENTION_SUPERSEDED".

(** The detail of an invalid duration: what [parse_duration] said, or that the seconds pass
    the signed range. *)
Module PlanRetentionConfigError.
Inductive PlanRetentionConfigError : Set :=
  | InvalidCount (variable value : string)
  | InvalidDuration (variable value : string) (detail : option DurationError)
  | CeilingBelowCount (ceiling count : N)
  | NotUnicode (variable : string).
End PlanRetentionConfigError.
Abbreviation PlanRetentionConfigError := PlanRetentionConfigError.PlanRetentionConfigError.

(** [std::env::var] *)
Inductive env_value : Set := NotPresent | Malformed | Present (value : string).

Definition env_read (variable : string) (read : env_value)
    : res PlanRetentionConfigError (option string) :=
  match read with
  | Present value => Ok (Some value)
  | NotPresent => Ok None
  | Malformed => Err (PlanRetentionConfigError.NotUnicode variable)
  end.

Definition I64_MAX : Z := 2 ^ 63 - 1.
Definition I64_MIN : Z := - 2 ^ 63.

Definition trim (s : string) : string := concat_all (trim_chars (chars s)).

Section from_env.
Context (lookup : string → option string).

Definition count_bound (variable : string) (dflt : N) : res PlanRetentionConfigError N :=
  match lookup variable with
  | None => Ok dflt
  | Some value =>
      match parse_unsigned U64_MAX (trim value) with
      | Some n => Ok n
      | None => Err (PlanRetentionConfigError.InvalidCount variable value)
      end
  end.

Definition age_bound (variable : string) (dflt : Z) : res PlanRetentionConfigError Z :=
  match lookup variable with
  | None => Ok dflt
  | Some value =>
      match parse_duration value with
      | Ok seconds =>
          if (Z.of_N seconds <=? I64_MAX)%Z then Ok (Z.of_N seconds)
          else Err (PlanRetentionConfigError.InvalidDuration variable value None)
      | Err e => Err (PlanRetentionConfigError.InvalidDuration variable value (Some e))
      | Panic => Panic
      end
  end.

Definition from_lookup : res PlanRetentionConfigError PlanRetention :=
  let defaults := default_retention in
  applied_ ← count_bound ENV_APPLIED (applied defaults);
  ceiling ← count_bound ENV_APPLIED_CEILING (applied_ceiling defaults);
  min_age ← age_bound ENV_APPLIED_MIN_AGE (applied_min_age_secs defaults);
  decided_ ← count_bound ENV_DECIDED (decided defaults);
  superseded_ ← count_bound ENV_SUPERSEDED (superseded defaults);
  if (ceiling <? applied_)%N
  then Err (PlanRetentionConfigError.CeilingBelowCount ceiling applied_)
  else Ok {| applied := applied_; applied_ceiling := ceiling; applied_min_age_secs := min_age;
             decided := decided_; superseded := superseded_ |}.
End from_env.

(** [from_env]: read the five variables, the first malformed one is the error. *)
Definition from_env (env : string → env_value) : res PlanRetentionConfigError PlanRetention :=
  resolved ← fold_res (λ resolved variable,
      value ← env_read variable (env variable);
      Ok (match value with Some v => <[variable := v]> resolved | None => resolved end))
    (∅ : gmap string string)
    [ENV_APPLIED; ENV_APPLIED_CEILING; ENV_APPLIED_MIN_AGE; ENV_DECIDED; ENV_SUPERSEDED];
  from_lookup (λ variable, resolved !! variable).

(** ** Eviction *)

(** [i64::saturating_sub] *)
Definition saturating_sub (a b : Z) : Z := Z.max I64_MIN (Z.min I64_MAX (a - b)).

(** [sort_by]: stable, so plans of the same key stay in the order they were listed. *)
Definition option_Z_le : relation (option Z) := ord_le.
Definition oldest_key_le (key : PolicyPlan → option Z) : relation PolicyPlan :=
  λ p q, option_Z_le (key p) (key q).

#[export] Instance oldest_key_dec key : RelDecision (oldest_key_le key).
Proof. intros p q. unfold oldest_key_le, option_Z_le. apply _. Defined.

Definition sort_oldest_first (plans : list PolicyPlan) : list PolicyPlan :=
  merge_sort (oldest_key_le creation_timestamp) plans.

Definition oldest_beyond (plans : list PolicyPlan) (keep : N) : list PolicyPlan :=
  if (N.of_nat (length plans) <=? keep)%N then []
  else take (length plans - N.to_nat keep) (sort_oldest_first plans).

Section evict.
Context (parse_rfc3339_epoch_secs : string → option Z).

Definition applied_epoch_secs (plan : PolicyPlan) : option Z :=
  match (status plan ≫= applied_at) ≫= parse_rfc3339_epoch_secs with
  | Some t => Some t
  | None => as_second <$> creation_timestamp plan
  end.

Definition applied_age_secs (plan : PolicyPlan) (now_ts : Z) : Z :=
  match applied_epoch_secs plan with
  | Some t => saturating_sub now_ts t
  | None => 0
  end.

(** The walk of [applied_plans_to_evict], oldest first, with the number of plans left. *)
Fixpoint applied_walk (retention : PlanRetention) (now_ts : Z) (remaining : nat)
    (plans : list PolicyPlan) : list PolicyPlan :=
  match plans with
  | [] => []
  | plan :: plans =>
      if (N.of_nat remaining <=? applied retention)%N then []
      else
        let inside_floor := (applied_age_secs plan now_ts <? applied_min_age_secs retention)%Z in
        if inside_floor && (N.of_nat remaining <=? applied_ceiling retention)%N
        then applied_walk retention now_ts remaining plans
        else plan :: applied_walk retention now_ts (remaining - 1) plans
  end.

Definition applied_plans_to_evict (plans : list PolicyPlan) (retention : PlanRetention)
    (now_ts : Z) : list PolicyPlan :=
  applied_walk retention now_ts (length plans) (merge_sort (oldest_key_le applied_epoch_secs) plans).

(** The list a plan is put on, if any: the other plans are still live. *)
Inductive retention_class : Set := AppliedPlans | DecidedPlans | SupersededPlans.

#[export] Instance retention_class_eq_dec : EqDecision retention_class.
Proof. solve_decision. Defined.

Definition class_of (plan : PolicyPlan) : option retention_class :=
  match phase <$> status plan with
  | Some PlanPhase.Applied => Some AppliedPlans
  | Some PlanPhase.Failed | Some PlanPhase.Rejected => Some DecidedPlans
  | Some PlanPhase.Superseded => Some SupersededPlans
  | Some PlanPhase.Pending | Some PlanPhase.Approved | Some PlanPhase.Applying | None => None
  end.

Definition class (c : retention_class) (plans : list PolicyPlan) : list PolicyPlan :=
  filter (λ p, class_of p = Some c) plans.

Definition plans_to_evict (plans : list PolicyPlan) (retention : PlanRetention) (now_ts : Z)
    : list PolicyPlan :=
  let considered := filter (λ p, negb (is_retention_exempt p)) plans in
  oldest_beyond (class DecidedPlans considered) (decided retention) ++
  oldest_beyond (class SupersededPlans considered) (superseded retention) ++
  applied_plans_to_evict (class AppliedPlans considered) retention now_ts.
End evict.

Definition ORPHAN_GRACE_SECS : Z := 60.

Definition is_stale_object (resource : PolicyPlan) (now_ts : Z) : bool :=
  match creation_timestamp resource with
  | Some t => (ORPHAN_GRACE_SECS <? saturating_sub now_ts (as_second t))%Z
  | None => false
  end.

Definition is_stale_statusless_plan (plan : PolicyPlan) (now_ts : Z) : bool :=
  bool_decide (status plan = None) && is_stale_object plan now_ts.

(** [cleanup_old_plans], on the plans: those it deletes, by name. *)
Definition cleanup_old_plans (parse_rfc3339_epoch_secs : string → option Z) (uid : option string)
    (retention : PlanRetention) (now_ts : Z) (plans : list PolicyPlan) : list PolicyPlan :=
  let existing := filter (λ p, owns uid p) plans in
  let deleted := filter (λ p, is_stale_statusless_plan p now_ts) existing ++
                 plans_to_evict parse_rfc3339_epoch_secs existing retention now_ts in
  filter (λ p, plan_name p ∉ (plan_name <$> deleted)) plans.

(** ** What retention keeps

    The bounds an environment gives, and the plans that stay under them. *)

(** ** The bounds *)

Lemma count_bound_range lookup variable dflt n :
  (dflt ≤ U64_MAX)%N → count_bound lookup variable dflt = Ok n → (n ≤ U64_MAX)%N.
Proof.
  unfold count_bound. intros Hd. destruct (lookup variable) as [v|]; [|by intros [= <-]].
  destruct (parse_unsigned U64_MAX (trim v)) as [k|] eqn:Hp; [|done]. intros [= <-].
  unfold parse_unsigned in Hp. destruct (String.eqb _ _); [done|].
  destruct (parse_digits 0 _) as [m|]; [|done]. cbn in Hp.
  destruct (N.leb_spec m U64_MAX); [by injection Hp as <-|done].
Qed.

Lemma age_bound_range lookup variable dflt n :
  (0 < dflt ≤ I64_MAX)%Z → age_bound lookup variable dflt = Ok n → (0 < n ≤ I64_MAX)%Z.
Proof.
  unfold age_bound. intros Hd. destruct (lookup variable) as [v|]; [|by intros [= <-]].
  destruct (parse_duration v) as [k| |] eqn:Hp; [|done..].
  destruct (Z.leb_spec (Z.of_N k) I64_MAX); [|done]. intros [= <-].
  unfold parse_duration in Hp. destruct (trim_chars (chars v)); [done|].
  apply loop_bounds in Hp; [lia|done].
Qed.

(** The bounds of a validated environment. *)
Definition valid_bounds (r : PlanRetention) : Prop :=
  (applied r ≤ applied_ceiling r ≤ U64_MAX)%N ∧ (0 < applied_min_age_secs r ≤ I64_MAX)%Z ∧
  (decided r ≤ U64_MAX)%N ∧ (superseded r ≤ U64_MAX)%N.

Lemma from_lookup_valid lookup r : from_lookup lookup = Ok r → valid_bounds r.
Proof.
  unfold from_lookup. intros (a & Ha & (c & Hc & (m & Hm & (d & Hd & (s & Hs & H)%bind_Ok)%bind_Ok)%bind_Ok)%bind_Ok)%bind_Ok.
  destruct (N.ltb_spec c a); [done|]. injection H as <-. unfold valid_bounds. cbn.
  split_and!; [done|..].
  - by eapply count_bound_range; [|exact Hc].
  - apply (age_bound_range _ _ _ _) in Hm; [lia|by vm_compute].
  - apply (age_bound_range _ _ _ _) in Hm; [lia|by vm_compute].
  - by eapply count_bound_range; [|exact Hd].
  - by eapply count_bound_range; [|exact Hs].
Qed.

(** ** Sorting by age *)

Section sorting.
Context (key : PolicyPlan → option Z).

#[local] Instance oldest_key_trans : Transitive (oldest_key_le key).
Proof. intros p q r. apply (transitivity (R := ord_le)). Qed.
#[local] Instance oldest_key_total : Total (oldest_key_le key).
Proof. intros p q. apply (base.total ord_le). Qed.

Lemma sorted_by_key l : StronglySorted (oldest_key_le key) (merge_sort (oldest_key_le key) l).
Proof. apply (StronglySorted_merge_sort _). Qed.
End sorting.

Lemma StronglySorted_app_le {A} (R : relation A) l k x y :
  StronglySorted R (l ++ k) → x ∈ l → y ∈ k → R x y.
Proof.
  induction l as [|a l IH]; [by intros _ ?%not_elem_of_nil|]. cbn. intros Hs.
  apply StronglySorted_inv in Hs as [Hs Hf].
  intros [-> |Hx]%elem_of_cons Hy; [|by apply IH]. rw Forall_forall in Hf. apply Hf, elem_of_app. by right.
Qed.

(** The count bound: what is kept, and that it is the newest. *)
Lemma oldest_beyond_spec plans keep :
  ∃ kept, plans ≡ₚ oldest_beyond plans keep ++ kept ∧ (N.of_nat (length kept) ≤ keep)%N ∧
    (∀ p q, p ∈ oldest_beyond plans keep → q ∈ kept →
       option_Z_le (creation_timestamp p) (creation_timestamp q)).
Proof.
  unfold oldest_beyond. destruct (N.leb_spec (N.of_nat (length plans)) keep) as [Hle|Hgt].
  { exists plans. split_and!; [done..|]. by intros p q ?%not_elem_of_nil. }
  set (n := length plans - N.to_nat keep). set (sorted := sort_oldest_first plans).
  assert (sorted ≡ₚ plans) as Hperm by apply merge_sort_Permutation.
  exists (drop n sorted). split_and!.
  - by rw take_drop Hperm.
  - rw length_drop (Permutation_length Hperm). lia.
  - intros p q Hp Hq. eapply (StronglySorted_app_le (oldest_key_le creation_timestamp)); [|done..].
    rw take_drop. apply sorted_by_key.
Qed.

Section applied.
Context (parse_rfc3339_epoch_secs : string → option Z) (r : PlanRetention) (now_ts : Z).

Abbreviation epoch := (applied_epoch_secs parse_rfc3339_epoch_secs).
Abbreviation age p := (applied_age_secs parse_rfc3339_epoch_secs p now_ts).
Abbreviation walk := (applied_walk parse_rfc3339_epoch_secs r now_ts).

Lemma age_antitone p q s t :
  epoch p = Some s → epoch q = Some t → (s ≤ t)%Z → (age q ≤ age p)%Z.
Proof. unfold applied_age_secs. intros -> -> Hst. unfold saturating_sub. lia. Qed.

(** Under the ceiling only plans past the floor are evicted. *)
Lemma walk_past_floor n l p :
  (N.of_nat n ≤ applied_ceiling r)%N → p ∈ walk n l → (applied_min_age_secs r ≤ age p)%Z.
Proof.
  revert n. induction l as [|x l IH]; intros n Hn; cbn; [by intros ?%not_elem_of_nil|].
  destruct (_ <=? applied r)%N; [by intros ?%not_elem_of_nil|].
  rw (proj2 (N.leb_le (N.of_nat n) _) Hn) andb_true_r.
  destruct (Z.ltb_spec (age x) (applied_min_age_secs r)); [by apply IH|].
  intros [-> |Hp]%elem_of_cons; [done|]. eapply IH; [|done]. lia.
Qed.

Lemma walk_elem n l p : p ∈ walk n l → p ∈ l.
Proof.
  revert n. induction l as [|x l IH]; intros n; cbn; [done|].
  destruct (_ <=? applied r)%N; [by intros ?%not_elem_of_nil|].
  destruct (_ && _); [intros Hp; right; by eapply IH|].
  intros [-> |Hp]%elem_of_cons; [left|right; by eapply IH].
Qed.

(** The walk over a sorted list: it leaves at most the ceiling, and evicts the oldest of
    the plans whose time is known. *)
Lemma walk_spec n l :
  (applied r ≤ applied_ceiling r)%N → length l ≤ n → StronglySorted (oldest_key_le epoch) l →
  ∃ kept, l ≡ₚ walk n l ++ kept ∧
    (N.of_nat (n - length (walk n l)) ≤ N.max (applied_ceiling r) (N.of_nat (n - length l)))%N ∧
    (∀ p q s t, p ∈ walk n l → q ∈ kept → epoch p = Some s → epoch q = Some t → (s ≤ t)%Z).
Proof.
  intros Hac. revert n. induction l as [|x l IH]; intros n Hlen Hs.
  { exists []. split_and!; [done|cbn; lia|]. by intros p q s t ?%not_elem_of_nil. }
  cbn in Hlen |- *. apply StronglySorted_inv in Hs as [Hs Hx]. rw Forall_forall in Hx.
  destruct (N.leb_spec (N.of_nat n) (applied r)) as [Hstop|Hgo].
  { exists (x :: l). split_and!; [done|cbn; lia|]. by intros p q s t ?%not_elem_of_nil. }
  destruct ((age x <? applied_min_age_secs r)%Z && (N.of_nat n <=? applied_ceiling r)%N) eqn:Hskip.
  - apply andb_true_iff in Hskip as [Hfl%Z.ltb_lt Hceil%N.leb_le].
    destruct (IH n ltac:(lia) Hs) as (kept & Hperm & Hcount & Hold).
    exists (x :: kept). split_and!.
    + by rw -Permutation_middle -Hperm.
    + pose proof (Permutation_length Hperm) as Hl. rw length_app in Hl. lia.
    + intros p q s t Hp [-> |Hq]%elem_of_cons Hps Hqt; [|by eapply Hold].
      exfalso. apply walk_past_floor in Hp as Hage; [|done]. apply walk_elem in Hp.
      specialize (Hx p Hp). unfold oldest_key_le, option_Z_le in Hx. rw Hps Hqt in Hx. cbn in Hx.
      pose proof (age_antitone x p t s Hqt Hps Hx). lia.
  - destruct (IH (n - 1) ltac:(lia) Hs) as (kept & Hperm & Hcount & Hold).
    exists kept. split_and!.
    + cbn. by rw -Hperm.
    + cbn. lia.
    + intros p q s t [-> |Hp]%elem_of_cons Hq Hps Hqt; [|by eapply Hold].
      assert (q ∈ l) as Hql by (rw Hperm; apply elem_of_app; by right).
      specialize (Hx q Hql). unfold oldest_key_le, option_Z_le in Hx. by rw Hps Hqt in Hx.
Qed.

Lemma applied_plans_spec plans :
  (applied r ≤ applied_ceiling r)%N →
  let evicted := applied_plans_to_evict parse_rfc3339_epoch_secs plans r now_ts in
  ∃ kept, plans ≡ₚ evicted ++ kept ∧ (N.of_nat (length kept) ≤ applied_ceiling r)%N ∧
    (∀ p q s t, p ∈ evicted → q ∈ kept → epoch p = Some s → epoch q = Some t → (s ≤ t)%Z) ∧
    (∀ p, p ∈ evicted → (age p < applied_min_age_secs r)%Z →
       (applied_ceiling r < N.of_nat (length plans))%N).
Proof.
  intros Hac evicted. set (sorted := merge_sort (oldest_key_le epoch) plans).
  assert (sorted ≡ₚ plans) as Hperm by apply merge_sort_Permutation.
  destruct (walk_spec (length plans) sorted Hac) as (kept & Hk & Hcount & Hold).
  { by rw (Permutation_length Hperm). } { apply sorted_by_key. }
  fold evicted in Hk, Hcount, Hold. exists kept. split_and!; try done.
  - by rw -Hk Hperm.
  - pose proof (Permutation_length Hk) as Hl. rw length_app (Permutation_length Hperm) in Hl.
    rw (Permutation_length Hperm) in Hcount. lia.
  - intros p Hp Hage. destruct (N.le_gt_cases (N.of_nat (length plans)) (applied_ceiling r)); [|done].
    apply walk_past_floor in Hp; [lia|done].
Qed.
End applied.

(** ** The whole pass *)

Definition count (c : retention_class) (l : list PolicyPlan) : N := N.of_nat (length (class c l)).

Lemma elem_of_class c l p : p ∈ class c l ↔ class_of p = Some c ∧ p ∈ l.
Proof. unfold class. by rw list_elem_of_filter. Qed.

Lemma class_app c l k : class c (l ++ k) = class c l ++ class c k.
Proof. apply filter_app. Qed.

Lemma classes_Permutation l :
  l ≡ₚ class DecidedPlans l ++ class SupersededPlans l ++ class AppliedPlans l ++
       filter (λ p, class_of p = None) l.
Proof.
  induction l as [|p l IH]; [done|]. unfold class in *. rw !filter_cons.
  destruct (class_of p) as [[]|]; cbn; rw {1}IH; solve_Permutation.
Qed.

(** A list of plans of one kind, seen from any kind. *)
Lemma class_of_kind (k : option retention_class) c l :
  (∀ p, p ∈ l → class_of p = k) → class c l = if decide (k = Some c) then l else [].
Proof.
  intros Hl. unfold class. case_decide as Hk.
  - apply list_filter_all. intros p Hp. by rw (Hl p Hp).
  - apply list_filter_none. intros p Hp. by rw (Hl p Hp).
Qed.

(** Parts of the kinds put together are told apart again. *)
Lemma class_parts c d s a l :
  (∀ p, p ∈ d → class_of p = Some DecidedPlans) → (∀ p, p ∈ s → class_of p = Some SupersededPlans) →
  (∀ p, p ∈ a → class_of p = Some AppliedPlans) → (∀ p, p ∈ l → class_of p = None) →
  class c (d ++ s ++ a ++ l) = match c with DecidedPlans => d | SupersededPlans => s | AppliedPlans => a end.
Proof.
  intros Hd Hs Ha Hl. rw !class_app (class_of_kind _ _ _ Hd) (class_of_kind _ _ _ Hs)
    (class_of_kind _ _ _ Ha) (class_of_kind _ _ _ Hl).
  destruct c; cbn; by rw ?app_nil_r.
Qed.

Section pass.
Context (parse_rfc3339_epoch_secs : string → option Z).

Abbreviation epoch := (applied_epoch_secs parse_rfc3339_epoch_secs).

(** Of two plans of a kind whose times are known, the evicted one is not the newer. *)
Definition keeps_newest (key : PolicyPlan → option Z) (c : retention_class) (e k : list PolicyPlan)
    : Prop :=
  ∀ p q s t, p ∈ class c e → q ∈ class c k → key p = Some s → key q = Some t → (s ≤ t)%Z.

(** under the bounds of an accepted environment, a pass of retention evicts only terminal
    plans that are not exempt, and of these keeps at most the ceiling of applied plans, the
    bound of failed and rejected ones and the bound of superseded ones; of two plans of one
    kind it never keeps the older and evicts the newer; and it evicts an applied plan younger
    than the floor only when there are more applied plans than the ceiling. *)
Theorem retention_keeps_bounds (lookup : string → option string) (r : PlanRetention)
    (plans : list PolicyPlan) (now_ts : Z) :
  from_lookup lookup = Ok r →
  let considered := filter (λ p, negb (is_retention_exempt p)) plans in
  let evicted := plans_to_evict parse_rfc3339_epoch_secs plans r now_ts in
  (∀ p, p ∈ evicted → is_Some (class_of p)) ∧
  ∃ kept, considered ≡ₚ evicted ++ kept ∧
    (count AppliedPlans kept ≤ applied_ceiling r)%N ∧
    (count DecidedPlans kept ≤ decided r)%N ∧ (count SupersededPlans kept ≤ superseded r)%N ∧
    keeps_newest creation_timestamp DecidedPlans evicted kept ∧
    keeps_newest creation_timestamp SupersededPlans evicted kept ∧
    keeps_newest epoch AppliedPlans evicted kept ∧
    (∀ p, p ∈ class AppliedPlans evicted →
       (applied_age_secs parse_rfc3339_epoch_secs p now_ts < applied_min_age_secs r)%Z →
       (applied_ceiling r < count AppliedPlans considered)%N).
Proof.
  intros [[Hac _] _]%from_lookup_valid considered evicted.
  destruct (oldest_beyond_spec (class DecidedPlans considered) (decided r)) as (kd & Hd & Hdc & Hdo).
  destruct (oldest_beyond_spec (class SupersededPlans considered) (superseded r)) as (ks & Hs & Hsc & Hso).
  destruct (applied_plans_spec parse_rfc3339_epoch_secs r now_ts (class AppliedPlans considered) Hac)
    as (ka & Ha & Hacount & Hao & Hfloor).
  assert (∀ c e k, class c considered ≡ₚ e ++ k →
    (∀ p, p ∈ e → class_of p = Some c) ∧ ∀ p, p ∈ k → class_of p = Some c) as Hkind.
  { intros c e k Hp. split; intros p Hin;
      (assert (p ∈ class c considered) as [? _]%elem_of_class; [|done]); rw Hp; apply elem_of_app; auto. }
  destruct (Hkind _ _ _ Hd) as [Hd1 Hd2]. destruct (Hkind _ _ _ Hs) as [Hs1 Hs2].
  destruct (Hkind _ _ _ Ha) as [Ha1 Ha2].
  set (live := filter (λ p, class_of p = None) considered).
  assert (∀ p, p ∈ live → class_of p = None) as Hl by by intros p [? _]%list_elem_of_filter.
  assert (∀ p : PolicyPlan, p ∈ [] → class_of p = None) as H0 by by intros p ?%not_elem_of_nil.
  pose proof (λ c, class_parts c _ _ _ _ Hd1 Hs1 Ha1 H0) as Hev. rw app_nil_r in Hev.
  pose proof (λ c, class_parts c _ _ _ _ Hd2 Hs2 Ha2 Hl) as Hk.
  split.
  - intros p [Hp|[Hp|Hp]%elem_of_app]%elem_of_app; [rw (Hd1 p Hp)|rw (Hs1 p Hp)|rw (Ha1 p Hp)]; done.
  - exists (kd ++ ks ++ ka ++ live). unfold count, keeps_newest. split_and!.
    + rw {1}(classes_Permutation considered) Hd Hs Ha. fold live. unfold evicted, plans_to_evict.
      fold considered. solve_Permutation.
    + by rw Hk.
    + by rw Hk.
    + by rw Hk.
    + intros p q s t. rw Hk (Hev _). intros Hp Hq Hps Hqt. specialize (Hdo p q Hp Hq).
      unfold option_Z_le in Hdo. by rw Hps Hqt in Hdo.
    + intros p q s t. rw Hk (Hev _). intros Hp Hq Hps Hqt. specialize (Hso p q Hp Hq).
      unfold option_Z_le in Hso. by rw Hps Hqt in Hso.
    + intros p q s t. rw Hk (Hev _). apply Hao.
    + intros p. rw (Hev _). apply Hfloor.
Qed.
End pass.
