(* ===== verification/Clock.v ===== *)
(** * The operator's clock ([crd.rs], [reconciler.rs])

    [now_rfc3339] prints the seconds since the epoch as a calendar time,
    [parse_rfc3339_to_epoch_secs] reads one back.  Unsigned arithmetic wraps at 64 bits where
    it can leave the range: in the reader only. *)

From Stdlib Require Import Ascii.
From S2P Require Import Prelude BTree RustStr Types Manifest Timestamp Durations.

Ltac Zify.zify_post_hook ::= Z.to_euclidean_division_equations.

(** ** Printing *)

Local Open Scope Z_scope.

Definition days_to_date (days_since_epoch : Z) : Z * Z * Z :=
  let z := days_since_epoch + 719468 in
  let era := z / 146097 in
  let doe := z - era * 146097 in
  let yoe := (doe - doe / 1460 + doe / 36524 - doe / 146096) / 365 in
  let y := yoe + era * 400 in
  let doy := doe - (365 * yoe + yoe / 4 - yoe / 100) in
  let mp := (5 * doy + 2) / 153 in
  let d := doy - (153 * mp + 2) / 5 + 1 in
  let m := if mp <? 10 then mp + 3 else mp - 9 in
  let y := if m <=? 2 then y + 1 else y in
  (y, m, d).

(** [{:0w}] of an unsigned number *)
Fixpoint zeros (n : nat) : string :=
  match n with O => "" | S n => String "0"%char (zeros n) end.
Definition zero_padded (width : nat) (n : Z) : string :=
  let s := pretty (Z.to_N n) in zeros (width - String.length s) +:+ s.

(** [now_rfc3339], of the seconds the system clock gives *)
Definition now_rfc3339 (secs : Z) : string :=
  let days := secs / 86400 in
  let remaining := secs mod 86400 in
  let hours := remaining / 3600 in
  let minutes := (remaining mod 3600) / 60 in
  let seconds := remaining mod 60 in
  let '(year, month, day) := days_to_date days in
  zero_padded 4 year +:+ "-" +:+ zero_padded 2 month +:+ "-" +:+ zero_padded 2 day +:+ "T" +:+
  zero_padded 2 hours +:+ ":" +:+ zero_padded 2 minutes +:+ ":" +:+ zero_padded 2 seconds +:+ "Z".

(** [format_timestamp_compact] ([plan.rs]) *)
Definition format_timestamp_compact (secs : Z) : string :=
  let '(year, month, day) := days_to_date (secs / 86400) in
  let remaining := secs mod 86400 in
  let hours := remaining / 3600 in
  let minutes := (remaining mod 3600) / 60 in
  let seconds := remaining mod 60 in
  zero_padded 4 year +:+ zero_padded 2 month +:+ zero_padded 2 day +:+ "-" +:+
  zero_padded 2 hours +:+ zero_padded 2 minutes +:+ zero_padded 2 seconds.

(** ** Reading *)

Definition u64 (x : Z) : Z := x mod 2 ^ 64.

(** [str::get(i..j)] *)
Definition get (s : string) (i j : nat) : option string :=
  match slice (E := unit) s i j with Ok t => Some t | _ => None end.

Definition field (s : string) (i j : nat) : option Z :=
  t ← get s i j; Z.of_N <$> parse_unsigned U64_MAX t.

Definition ends_with_Z (s : string) : bool :=
  String.eqb (String.substring (String.length s - 1) 1 s) "Z".

Definition days_from_civil (year month day : Z) : Z :=
  let '(y, m) := if month <=? 2 then (u64 (year - 1), month + 9) else (year, month - 3) in
  let era := y / 400 in
  let yoe := y - era * 400 in
  let doy := u64 ((153 * m + 2) / 5 + day - 1) in
  let doe := u64 (yoe * 365 + yoe / 4 - yoe / 100 + doy) in
  u64 (era * 146097 + doe - 719468).

Definition parse_rfc3339_to_epoch_secs (timestamp : string) : option Z :=
  if (String.length timestamp <? 20)%nat || negb (ends_with_Z timestamp) then None
  else
    year ← field timestamp 0 4;
    month ← field timestamp 5 7;
    day ← field timestamp 8 10;
    hours ← field timestamp 11 13;
    minutes ← field timestamp 14 16;
    seconds ← field timestamp 17 19;
    Some (u64 (days_from_civil year month day * 86400 + hours * 3600 + minutes * 60 + seconds)).

(** ** The calendar *)

(** The day before which the printed year has four digits: 10000-01-01. *)
Definition DAY_LIMIT : Z := 2932897.

(** The parts the printer computes: era, year of the era, day of the year that starts in
    March, and month counted from March. *)
Lemma civil_parts days :
  0 <= days < DAY_LIMIT →
  ∃ era yoe doy mp,
    4 <= era <= 24 ∧ 0 <= yoe <= 399 ∧ 0 <= doy <= 365 ∧ mp = (5 * doy + 2) / 153 ∧
    days + 719468 = era * 146097 + (365 * yoe + yoe / 4 - yoe / 100 + doy) ∧
    days_to_date days =
      let m := if mp <? 10 then mp + 3 else mp - 9 in
      (if m <=? 2 then yoe + era * 400 + 1 else yoe + era * 400, m, doy - (153 * mp + 2) / 5 + 1).
Proof.
  intros Hd. unfold DAY_LIMIT in Hd.
  set (z := days + 719468). set (era := z / 146097). set (doe := z - era * 146097).
  set (yoe := (doe - doe / 1460 + doe / 36524 - doe / 146096) / 365).
  set (doy := doe - (365 * yoe + yoe / 4 - yoe / 100)).
  assert (0 <= doe <= 146096 ∧ 4 <= era <= 24) as [Hdoe Hera] by (unfold doe, era, z; lia).
  exists era, yoe, doy, ((5 * doy + 2) / 153). split_and!; try done; unfold doy, yoe; lia.
Qed.

Ltac month_cases mp :=
  destruct (Z.ltb_spec mp 10);
  [destruct (Z.leb_spec (mp + 3) 2)|destruct (Z.leb_spec (mp - 9) 2)].

Lemma days_to_date_range days :
  0 <= days < DAY_LIMIT →
  let '(y, m, d) := days_to_date days in 1970 <= y <= 9999 ∧ 1 <= m <= 12 ∧ 1 <= d <= 31.
Proof.
  intros Hd. destruct (civil_parts days Hd) as (era & yoe & doy & mp & He & Hy & Hdoy & Hmp & Hz & ->).
  unfold DAY_LIMIT in Hd. cbn zeta. month_cases mp; lia.
Qed.

(** The reader's day count inverts the printed date. *)
Lemma days_round_trip days :
  0 <= days < DAY_LIMIT →
  let '(y, m, d) := days_to_date days in days_from_civil y m d = days.
Proof.
  intros Hd. destruct (civil_parts days Hd) as (era & yoe & doy & mp & He & Hy & Hdoy & Hmp & Hz & ->).
  unfold DAY_LIMIT in Hd. cbn zeta. unfold days_from_civil.
  assert (∀ x, 0 <= x < 2 ^ 64 → u64 x = x) as Hu by (intros; by apply Z.mod_small).
  match goal with |- context [if ?c then (u64 ?a, ?b) else ?e] =>
    assert ((if c then (u64 a, b) else e) = (yoe + era * 400, mp)) as -> end.
  { month_cases mp; f_equal; try rw Hu; lia. }
  assert ((yoe + era * 400) / 400 = era) as -> by lia.
  replace (yoe + era * 400 - era * 400) with yoe by lia.
  rw (Hu ((153 * mp + 2) / 5 + (doy - (153 * mp + 2) / 5 + 1) - 1)); [|lia].
  replace ((153 * mp + 2) / 5 + (doy - (153 * mp + 2) / 5 + 1) - 1) with doy by lia.
  rw (Hu (yoe * 365 + yoe / 4 - yoe / 100 + doy)); [|lia]. rw Hu; lia.
Qed.

(** ** Printed numbers *)

Lemma pretty_char_digit (x : N) : (pretty_N_char (x mod 10) = digit x)%N.
Proof.
  unfold digit. pose proof (N.mod_lt x 10 ltac:(done)). generalize dependent (x mod 10)%N. intros r Hr.
  assert (r = 0 ∨ r = 1 ∨ r = 2 ∨ r = 3 ∨ r = 4 ∨ r = 5 ∨ r = 6 ∨ r = 7 ∨ r = 8 ∨ r = 9)%N as H by lia.
  by destruct H as [->|[->|[->|[->|[->|[->|[->|[->|[->| ->]]]]]]]]].
Qed.

Lemma go_digit (x : N) s : (0 < x)%N → pretty_N_go x s = pretty_N_go (x / 10) (String (digit x) s).
Proof. intros Hx. rw pretty_N_go_step; [|done]. by rw pretty_char_digit. Qed.

(** The text of a positive number, digit by digit from the right. *)
Lemma pretty_go (x : N) : (0 < x)%N → pretty x = pretty_N_go (x / 10) (String (digit x) "").
Proof.
  intros Hx. unfold pretty, pretty_N. destruct (decide (x = 0)%N); [lia|]. by apply go_digit.
Qed.

Lemma digit_0 (x : N) : (x mod 10 = 0)%N → digit x = "0"%char.
Proof. unfold digit. by intros ->. Qed.

Lemma digit_mod (x y : N) : (x mod 10 = y mod 10)%N → digit x = digit y.
Proof. unfold digit. by intros ->. Qed.

Ltac number_by_magnitude :=
  repeat match goal with
  | |- context [pretty_N_go ?y ?s] =>
      first [ replace y with 0%N by lia; rw (pretty_N_go_0 s) | rw (go_digit y s); [|lia] ]
  end.

Lemma zero_padded_2 (n : N) : (n < 100)%N → zero_padded 2 (Z.of_N n) = pad2 n.
Proof.
  intros Hn. unfold zero_padded. rw N2Z.id. unfold pad2.
  destruct (decide (n = 0)%N) as [->|H0]; [done|].
  rw pretty_go; [|lia]. destruct (decide (n < 10)%N).
  - by number_by_magnitude.
  - by number_by_magnitude.
Qed.

Lemma zero_padded_4 (n : N) : (1000 ≤ n < 10000)%N → zero_padded 4 (Z.of_N n) = pad4 n.
Proof.
  intros Hn. unfold zero_padded. rw N2Z.id. unfold pad4, pad2. rw pretty_go; [|lia].
  number_by_magnitude. rw (digit_mod (n / 10 / 10 / 10) (n / 100 / 10)); [|lia].
  rw (digit_mod (n / 10 / 10) (n / 100)); [|lia]. rw (digit_mod (n / 10) (n mod 100 / 10)); [|lia].
  by rw (digit_mod n (n mod 100)); [|lia].
Qed.

(** The seconds before 10000-01-01T00:00:00Z. *)
Definition SECOND_LIMIT : Z := DAY_LIMIT * 86400.

Lemma now_is_printed secs :
  0 <= secs < SECOND_LIMIT →
  let '(y, m, d) := days_to_date (secs / 86400) in
  let remaining := secs mod 86400 in
  let h := remaining / 3600 in let mi := (remaining mod 3600) / 60 in let s := remaining mod 60 in
  now_rfc3339 secs =
    print_timestamp (Z.to_N y) (Z.to_N m) (Z.to_N d) (Z.to_N h) (Z.to_N mi) (Z.to_N s) ∧
  in_bounds (Z.to_N y) (Z.to_N m) (Z.to_N d) (Z.to_N h) (Z.to_N mi) (Z.to_N s).
Proof.
  intros Hs. unfold SECOND_LIMIT, DAY_LIMIT in Hs.
  assert (0 <= secs / 86400 < DAY_LIMIT) as Hdays by (unfold DAY_LIMIT; lia).
  pose proof (days_to_date_range _ Hdays) as Hr. unfold now_rfc3339.
  destruct (days_to_date (secs / 86400)) as [[y m] d]. cbn zeta.
  set (h := secs mod 86400 / 3600). set (mi := secs mod 86400 mod 3600 / 60).
  set (s := secs mod 86400 mod 60).
  assert (0 <= h <= 23 ∧ 0 <= mi <= 59 ∧ 0 <= s <= 59) as Ht by (unfold h, mi, s; lia).
  clearbody h mi s. split.
  - unfold print_timestamp. rw -{1}(Z2N.id y); [|lia]. rw zero_padded_4; [|lia].
    assert (∀ x, 0 <= x < 100 → zero_padded 2 x = pad2 (Z.to_N x)) as H2.
    { intros x Hx. rw -{1}(Z2N.id x); [|lia]. apply zero_padded_2. lia. }
    by rw !H2; [|lia..].
  - unfold in_bounds. rw !andb_True !Is_true_true !N.leb_le. lia.
Qed.

(** ** Reading what was printed *)

Lemma parse_unsigned_mono a b s n :
  (a ≤ b)%N → parse_unsigned a s = Some n → parse_unsigned b s = Some n.
Proof.
  intros Hab. unfold parse_unsigned. destruct (String.eqb _ _); [done|].
  destruct (parse_digits _ _) as [k|]; [|done]. cbn.
  destruct (N.leb_spec k a); [|done]. intros [= <-]. by rw (proj2 (N.leb_le k b)); [|lia].
Qed.

Lemma field_ascii v i j a n :
  is_ascii v → (i ≤ j)%nat → (j ≤ String.length v)%nat → (a ≤ U64_MAX)%N →
  parse_unsigned a (String.substring i (j - i) v) = Some n → field v i j = Some (Z.of_N n).
Proof.
  intros Ha Hij Hj Hmax Hp. unfold field, get, slice.
  rw bool_decide_true; [|done]. rw !boundary_ascii; [|first [done|lia]..]. cbn.
  by rw (parse_unsigned_mono _ _ _ _ Hmax Hp).
Qed.

(** A value of the checked shape is read field by field. *)
Lemma shape_is_read v y m d h mi s :
  is_ascii v → timestamp_shape v y m d h mi s →
  parse_rfc3339_to_epoch_secs v =
    Some (u64 (days_from_civil (Z.of_N y) (Z.of_N m) (Z.of_N d) * 86400 + Z.of_N h * 3600 +
               Z.of_N mi * 60 + Z.of_N s)).
Proof.
  intros Ha [Hlen _ Hz (Hy & Hm & Hd) (Hh & Hmi & Hs) _].
  assert (∀ i j a n, (i ≤ j ≤ 20)%nat → (a ≤ 65535)%N →
    parse_unsigned a (String.substring i (j - i) v) = Some n → field v i j = Some (Z.of_N n)) as Hf.
  { intros i j a n Hij Hmax. apply (field_ascii v i j a n); [done|lia| |unfold U64_MAX; lia].
    rw Hlen. lia. }
  unfold parse_rfc3339_to_epoch_secs, ends_with_Z. rw Hlen Hz.
  rw (Hf 0%nat 4%nat 65535%N y) //; [|lia]. rw (Hf 5%nat 7%nat 255%N m) //; [|lia].
  rw (Hf 8%nat 10%nat 255%N d) //; [|lia]. rw (Hf 11%nat 13%nat 255%N h) //; [|lia].
  rw (Hf 14%nat 16%nat 255%N mi) //; [|lia]. by rw (Hf 17%nat 19%nat 255%N s) //; lia.
Qed.

(** the clock round-trips: until the year 10000 the time the operator prints is accepted by
    the manifest's timestamp check and is read back as the same number of seconds, so the
    age of anything stamped by the operator is measured exactly. *)
Theorem clock_round_trip (secs : Z) :
  0 <= secs < SECOND_LIMIT →
  is_valid_iso8601_timestamp (now_rfc3339 secs) = Ok true ∧
  parse_rfc3339_to_epoch_secs (now_rfc3339 secs) = Some secs.
Proof.
  intros Hs. pose proof (now_is_printed secs Hs) as Hp.
  assert (0 <= secs / 86400 < DAY_LIMIT) as Hdays by (unfold SECOND_LIMIT, DAY_LIMIT in *; lia).
  pose proof (days_round_trip _ Hdays) as Hround. pose proof (days_to_date_range _ Hdays) as Hrange.
  destruct (days_to_date (secs / 86400)) as [[y m] d]. cbn zeta in Hp. destruct Hp as [-> Hb].
  pose proof (print_ascii (Z.to_N y) (Z.to_N m) (Z.to_N d)) as Ha.
  match goal with |- context [print_timestamp _ _ _ ?h ?mi ?s] => specialize (Ha h mi s) end.
  apply print_shape in Hb as Hshape. split; [by eapply shape_accepted|].
  rw (shape_is_read _ _ _ _ _ _ _ Ha Hshape). f_equal. rw !Z2N.id; [|lia..].
  rw Hround. unfold SECOND_LIMIT, DAY_LIMIT in *. unfold u64. rw Z.mod_small; lia.
Qed.
