(* ===== verification/K8sNames.v ===== *)
(** * Kubernetes identifiers ([k8s_names.rs], [plan.rs])

    Label values, resource names and the names given to plans.  Byte tests are on [ascii],
    character tests on the one-character strings of [chars]. *)

From Stdlib Require Import Ascii.
From S2P Require Import Prelude BTree RustStr Types Model Change Plan Timestamp Approval PlanStatus PlanSql Durations Clock.

Definition MAX_LABEL_VALUE_LENGTH : nat := 63.
Definition MAX_RESOURCE_NAME_LENGTH : nat := 253.

Definition byte_alphanumeric (b : ascii) : bool :=
  in_range 97 122 b || in_range 65 90 b || in_range 48 57 b.
Definition is_lower_alnum (b : ascii) : bool := in_range 97 122 b || in_range 48 57 b.
Definition is_char (a b : ascii) : bool := Ascii.eqb b a.

Fixpoint all_bytes (p : ascii → bool) (s : string) : bool :=
  match s with "" => true | String a s => p a && all_bytes p s end.

(** [bytes[i]] satisfies [p]; an index out of range panics in the source and is never used. *)
Definition byte_satisfies (p : ascii → bool) (s : string) (i : nat) : bool :=
  match byte_at s i with Some b => p b | None => false end.

Definition is_valid_label_value (value : string) : bool :=
  if String.eqb value "" then true
  else if MAX_LABEL_VALUE_LENGTH <? String.length value then false
  else if negb (byte_satisfies byte_alphanumeric value 0) ||
          negb (byte_satisfies byte_alphanumeric value (String.length value - 1))
  then false
  else all_bytes (λ b, byte_alphanumeric b || is_char "." b || is_char "-" b || is_char "_" b) value.

Definition is_dns1123_label (value : string) : bool :=
  if String.eqb value "" then false
  else if negb (byte_satisfies is_lower_alnum value 0) ||
          negb (byte_satisfies is_lower_alnum value (String.length value - 1))
  then false
  else all_bytes (λ b, is_lower_alnum b || is_char "-" b) value.

Definition is_valid_resource_name (value : string) : bool :=
  if String.eqb value "" || (MAX_RESOURCE_NAME_LENGTH <? String.length value) then false
  else forallb is_dns1123_label (split_on "." value).

(** [str::trim_end_matches] *)
Definition trim_end_matches (p : string → bool) (s : string) : string :=
  concat_all (reverse (drop_while p (reverse (chars s)))).

Definition is_separator (c : string) : bool := String.eqb c "." || String.eqb c "-".

Definition truncate_name_prefix {E} (prefix : string) (max_bytes : nat) : res E string :=
  let cut := if String.length prefix <=? max_bytes then String.length prefix
             else boundary_below prefix max_bytes in
  kept ← slice prefix 0 cut;
  Ok (trim_end_matches is_separator kept).

(** One character of [sanitize_dns_label_segment]. *)
Definition dns_step (acc : string * bool) (ch : string) : string * bool :=
  let '(result, last_was_dash) := acc in
  let normalized := to_ascii_lowercase ch in
  if is_ascii_lowercase normalized || is_ascii_digit normalized
  then (result +:+ normalized, false)
  else if negb last_was_dash && negb (String.eqb result "") then (result +:+ "-", true)
  else (result, last_was_dash).

Definition sanitize_dns_label_segment (input fallback : string) : string :=
  let result := (foldl dns_step ("", false) (chars input)).1 in
  let trimmed := concat_all (drop_while (String.eqb "-")
                   (chars (trim_end_matches (String.eqb "-") result))) in
  if String.eqb trimmed "" then fallback else trimmed.

(** [LabelValue::sanitize] *)
Definition label_char (c : string) : string :=
  if is_ascii_alphanumeric c || String.eqb c "." || String.eqb c "-" || String.eqb c "_"
  then c else "_".

Definition sanitize (value : string) : string :=
  let sanitized :=
    concat_all (take MAX_LABEL_VALUE_LENGTH
      (label_char <$> drop_while (λ c, negb (is_ascii_alphanumeric c)) (chars value))) in
  trim_end_matches (λ c, negb (is_ascii_alphanumeric c)) sanitized.

Record InvalidIdentifier := { identifier_kind : string; identifier_value : string }.

(** [LabelValue::try_new], [ResourceName::try_new] *)
Definition label_value_try_new (value : string) : res InvalidIdentifier string :=
  if is_valid_label_value value then Ok value
  else Err {| identifier_kind := "label value"; identifier_value := value |}.
Definition resource_name_try_new (value : string) : res InvalidIdentifier string :=
  if is_valid_resource_name value then Ok value
  else Err {| identifier_kind := "resource name"; identifier_value := value |}.

(** [generate_plan_name] ([plan.rs]), at the seconds of the clock *)
Definition generate_plan_name {E} (secs : Z) (policy_name sql_hash : string) : res E string :=
  let timestamp := format_timestamp_compact secs in
  suffix ← slice sql_hash 0 (Nat.min 12 (String.length sql_hash));
  let max_name_len := MAX_RESOURCE_NAME_LENGTH - 4 in
  let max_prefix_len := max_name_len - String.length "-plan-" - String.length timestamp -
                        String.length "-" - String.length suffix in
  prefix ← truncate_name_prefix policy_name max_prefix_len;
  Ok (prefix +:+ "-plan-" +:+ timestamp +:+ "-" +:+ suffix).

(** [configmap_plan_name] ([plan.rs]) *)
Definition strip_suffix (suffix s : string) : option string :=
  let n := String.length s - String.length suffix in
  if (String.length suffix <=? String.length s) &&
     String.eqb (String.substring n (String.length suffix) s) suffix
  then Some (String.substring 0 n s) else None.
Definition configmap_plan_name (configmap_name : string) : string :=
  default configmap_name (strip_suffix "-sql" configmap_name).

(** ** Generated identifiers are valid

    Label values are always valid, and left alone when they were; plan names made from a
    valid policy name are valid and leave room for the suffix of the stored preview. *)

(** ** Strings as bytes *)

Definition str (bs : list ascii) : string := String.string_of_list_ascii bs.

Lemma str_of_string s : s = str (String.list_ascii_of_string s).
Proof. symmetry. apply String.string_of_list_ascii_of_string. Qed.

Lemma str_cons b bs : str (b :: bs) = String b (str bs).
Proof. done. Qed.

Lemma str_length bs : String.length (str bs) = length bs.
Proof. induction bs as [|b bs IH]; [done|]. cbn. by rw IH. Qed.

Lemma str_app bs cs : str (bs ++ cs) = str bs +:+ str cs.
Proof. induction bs as [|b bs IH]; [done|]. cbn [app]. by rw !str_cons str_app_cons IH. Qed.

Lemma str_byte_at bs i : byte_at (str bs) i = bs !! i.
Proof. revert i. induction bs as [|b bs IH]; intros [|i]; try done. apply IH. Qed.

Lemma str_all_bytes p bs : all_bytes p (str bs) = forallb p bs.
Proof. induction bs as [|b bs IH]; [done|]. cbn. by rw IH. Qed.

Lemma byte_satisfies_last p bs : byte_satisfies p (str bs) (String.length (str bs) - 1) = true ↔
  ∃ b, last bs = Some b ∧ p b = true.
Proof.
  unfold byte_satisfies. rw str_byte_at str_length Nat.sub_1_r -last_lookup.
  destruct (last bs) as [b|]; [|split; [done|by intros (?&?&?)]]. naive_solver.
Qed.

Definition ascii_byte (a : ascii) : bool := (byte_of a <? 128)%N.

(** ASCII strings have one character for each byte. *)
Lemma chars_ascii bs : forallb ascii_byte bs = true → chars (str bs) = (λ b, String b "") <$> bs.
Proof.
  induction bs as [|b bs IH]; [done|]. cbn [forallb]. intros [Hb Hbs]%andb_true_iff.
  change (str (b :: bs)) with (String b (str bs)). rw chars_cons (IH Hbs).
  assert (head_cont (str bs) = false) as ->; [|done].
  destruct bs as [|c cs]; [done|]. cbn in *. apply andb_true_iff in Hbs as [Hc _].
  unfold ascii_byte in Hc. apply N.ltb_lt in Hc. unfold is_cont, in_range. apply andb_false_iff. left.
  apply N.leb_gt. lia.
Qed.

Lemma concat_singles bs : concat_all ((λ b, String b "") <$> bs) = str bs.
Proof. induction bs as [|b bs IH]; [done|]. cbn. f_equal. exact IH. Qed.

(** ** Trimming *)

Lemma drop_while_spec {A} (p : A → bool) (l : list A) :
  ∃ dropped, l = dropped ++ drop_while p l ∧ Forall (λ x, p x = true) dropped ∧
    (∀ x k, drop_while p l = x :: k → p x = false).
Proof.
  induction l as [|x l (d & Heq & Hd & Hx)]; cbn.
  - by exists [].
  - destruct (p x) eqn:Hp.
    + exists (x :: d). split_and!; [cbn; by rw {1}Heq|by constructor|done].
    + exists []. split_and!; [done..|]. by intros ? ? [= <- <-].
Qed.

Lemma drop_while_id {A} (p : A → bool) (l : list A) x :
  head l = Some x → p x = false → drop_while p l = l.
Proof. destruct l as [|y l]; [done|]. cbn. by intros [= ->] ->. Qed.

Definition trim_end {A} (p : A → bool) (l : list A) : list A := reverse (drop_while p (reverse l)).

Lemma trim_end_spec {A} (p : A → bool) (l : list A) :
  ∃ cut, l = trim_end p l ++ cut ∧ Forall (λ x, p x = true) cut ∧
    (∀ x, last (trim_end p l) = Some x → p x = false) ∧
    (∀ x, head l = Some x → p x = false → trim_end p l ≠ []).
Proof.
  unfold trim_end. destruct (drop_while_spec p (reverse l)) as (d & Heq & Hd & Hx).
  assert (l = reverse (drop_while p (reverse l)) ++ reverse d) as Hl.
  { rw -reverse_app -Heq. by rw reverse_involutive. }
  exists (reverse d). split_and!; [done| | |].
  - by apply Forall_reverse.
  - intros x Hlast. destruct (drop_while p (reverse l)) as [|y k] eqn:Hk; [done|].
    rw reverse_cons last_snoc in Hlast. injection Hlast as <-. by eapply Hx.
  - intros x Hh Hp Hn. rw Hn in Hl. cbn in Hl. rw Hl in Hh.
    assert (x ∈ reverse d) as Hin by (destruct (reverse d); [done|]; injection Hh as ->; left).
    rw elem_of_reverse in Hin. rw Forall_forall in Hd. by rw (Hd x Hin) in Hp.
Qed.

Lemma trim_end_id {A} (p : A → bool) (l : list A) x :
  last l = Some x → p x = false → trim_end p l = l.
Proof.
  intros [k ->]%last_Some Hp. unfold trim_end. rw reverse_snoc. cbn [drop_while]. rw Hp.
  by rw reverse_cons reverse_involutive.
Qed.

Lemma trim_end_fmap {A B} (f : A → B) p l : trim_end p (f <$> l) = f <$> trim_end (λ x, p (f x)) l.
Proof.
  unfold trim_end. rw -!fmap_reverse. generalize (reverse l). intros k.
  assert (drop_while p (f <$> k) = f <$> drop_while (λ x, p (f x)) k) as ->; [|by rw fmap_reverse].
  induction k as [|x k IH]; [done|]. cbn. by destruct (p (f x)).
Qed.

Lemma trim_end_matches_ascii p bs :
  forallb ascii_byte bs = true →
  trim_end_matches p (str bs) = str (trim_end (λ b, p (String b "")) bs).
Proof.
  intros Hbs. unfold trim_end_matches. rw chars_ascii; [|done].
  change (reverse (drop_while p (reverse ?l))) with (trim_end p l).
  by rw trim_end_fmap concat_singles.
Qed.

(** ** Label values *)

Definition label_byte (b : ascii) : bool :=
  byte_alphanumeric b || is_char "." b || is_char "-" b || is_char "_" b.

Lemma label_byte_ascii b : label_byte b = true → ascii_byte b = true.
Proof.
  unfold label_byte, is_char, byte_alphanumeric, in_range, ascii_byte.
  rw !orb_true_iff !andb_true_iff !N.leb_le !Ascii.eqb_eq N.ltb_lt.
  intros [[[[[H|H]|H]| ->]| ->]| ->]; try done; lia.
Qed.

Lemma label_bytes_ascii bs : forallb label_byte bs = true → forallb ascii_byte bs = true.
Proof.
  intros H. apply forallb_forall. intros b Hb. apply label_byte_ascii.
  by apply (proj1 (forallb_forall _ _) H).
Qed.

Lemma alphanumeric_char b : is_ascii_alphanumeric (String b "") = byte_alphanumeric b.
Proof. done. Qed.

(** A character that is alphanumeric is one byte. *)
Lemma alphanumeric_single c : is_ascii_alphanumeric c = true → ∃ b, c = String b "".
Proof. destruct c as [|b [|d s]]; [done|by exists b|done]. Qed.

Lemma label_char_single c :
  ∃ b, label_char c = String b "" ∧ label_byte b = true ∧
    (is_ascii_alphanumeric c = true → label_char c = c).
Proof.
  unfold label_char. destruct (is_ascii_alphanumeric c) eqn:Ha.
  - cbn. destruct (alphanumeric_single c Ha) as [b ->]. exists b. split_and!; [done| |done].
    unfold label_byte. by rw -alphanumeric_char Ha.
  - cbn. destruct (_ || _) eqn:Hc; [|exists "_"%char; by split_and!].
    rw !orb_true_iff !String.eqb_eq in Hc. destruct Hc as [[-> | ->]| ->]; by eexists.
Qed.

(** What [is_valid_label_value] accepts, on the bytes. *)
Lemma valid_label_spec bs :
  is_valid_label_value (str bs) = true ↔
  bs = [] ∨
  (length bs ≤ 63 ∧ (∃ b, head bs = Some b ∧ byte_alphanumeric b = true) ∧
   (∃ b, last bs = Some b ∧ byte_alphanumeric b = true) ∧ forallb label_byte bs = true).
Proof.
  unfold is_valid_label_value. destruct bs as [|b bs]; [split; [by left|done]|].
  cbn [String.eqb str]. rw str_cons. cbn [String.eqb]. rw -str_cons.
  rw str_all_bytes. fold label_byte.
  pose proof (byte_satisfies_last byte_alphanumeric (b :: bs)) as Hlast.
  destruct (Nat.ltb_spec MAX_LABEL_VALUE_LENGTH (String.length (str (b :: bs)))) as [Hlen|Hlen].
  - split; [done|]. rw str_length in Hlen. unfold MAX_LABEL_VALUE_LENGTH in Hlen. intros [|[? _]]; [done|lia].
  - rw str_length in Hlen. unfold MAX_LABEL_VALUE_LENGTH in Hlen.
    change (byte_satisfies byte_alphanumeric (str (b :: bs)) 0) with (byte_alphanumeric b).
    destruct (byte_alphanumeric b) eqn:Hb; cbn [negb orb]; cycle 1.
    { split; [done|]. intros [|(_ & (? & [= <-] & ?) & _)]; congruence. }
    destruct (byte_satisfies byte_alphanumeric (str (b :: bs)) (String.length (str (b :: bs)) - 1)); cbn [negb].
    + split; [|by intros [|(_ & _ & _ & ?)]]. intros Hall. right. split_and!; [done|by exists b|by apply Hlast|done].
    + split; [done|]. intros [|(_ & _ & Hl & _)]; [done|]. by apply Hlast in Hl.
Qed.

(** The characters kept by [sanitize], as bytes: they start with an alphanumeric one. *)
Lemma label_chars_bytes cs :
  ∃ bs, label_char <$> cs = (λ b, String b "") <$> bs ∧ length bs = length cs ∧
    forallb label_byte bs = true ∧
    (∀ c, head cs = Some c → is_ascii_alphanumeric c = true →
       ∃ b, head bs = Some b ∧ byte_alphanumeric b = true).
Proof.
  induction cs as [|c cs (bs & Heq & Hlen & Hall & _)]; [by exists []|].
  destruct (label_char_single c) as (b & Hb & Hlab & Hid). exists (b :: bs). split_and!.
  - cbn. by rw Hb Heq.
  - cbn. by rw Hlen.
  - cbn. by rw Hlab.
  - intros c' [= <-] Ha. exists b. split; [done|]. rw -alphanumeric_char -Hb. by rw (Hid Ha).
Qed.

Lemma forallb_take {A} (p : A → bool) n l : forallb p l = true → forallb p (take n l) = true.
Proof.
  revert n. induction l as [|x l IH]; intros [|n]; try done. cbn.
  intros [-> Hl]%andb_true_iff. by apply IH.
Qed.

Lemma head_take {A} n (l : list A) : 0 < n → head (take n l) = head l.
Proof. intros Hn. destruct l, n; try done; lia. Qed.

Lemma forallb_trim_end {A} (p q : A → bool) l : forallb p l = true → forallb p (trim_end q l) = true.
Proof.
  destruct (trim_end_spec q l) as (cut & Heq & _). rw {1}Heq forallb_app. by intros [? _]%andb_true_iff.
Qed.

Lemma head_trim_end {A} (p : A → bool) (l : list A) x :
  head l = Some x → trim_end p l ≠ [] → head (trim_end p l) = Some x.
Proof.
  destruct (trim_end_spec p l) as (cut & Heq & _). intros Hh Hne. rw Heq in Hh.
  by destruct (trim_end p l).
Qed.

Lemma trim_end_length {A} (p : A → bool) (l : list A) : length (trim_end p l) ≤ length l.
Proof. destruct (trim_end_spec p l) as (cut & Heq & _). rw {2}Heq length_app. lia. Qed.

Lemma sanitize_bytes value :
  ∃ bs, sanitize value = str (trim_end (λ b, negb (byte_alphanumeric b)) (take 63 bs)) ∧
    forallb label_byte bs = true ∧
    (bs = [] ∨ ∃ b, head bs = Some b ∧ byte_alphanumeric b = true) ∧
    label_char <$> drop_while (λ c, negb (is_ascii_alphanumeric c)) (chars value) =
      (λ b, String b "") <$> bs.
Proof.
  unfold sanitize. set (cs := drop_while _ (chars value)).
  destruct (label_chars_bytes cs) as (bs & Heq & Hlen & Hall & Hhead). exists bs. split_and!; [|done| |done].
  - rw Heq -fmap_take concat_singles. rw trim_end_matches_ascii; [|by apply label_bytes_ascii, forallb_take].
    done.
  - destruct (drop_while_spec (λ c, negb (is_ascii_alphanumeric c)) (chars value)) as (d & _ & _ & Hx).
    fold cs in Hx. destruct cs as [|c k]; [left; by destruct bs|]. right.
    apply (Hhead c); [done|]. specialize (Hx c k eq_refl). by apply negb_false_iff in Hx.
Qed.

Lemma sanitize_valid v : is_valid_label_value (sanitize v) = true.
Proof.
  destruct (sanitize_bytes v) as (bs & -> & Hall & Hhead & _). apply valid_label_spec.
  set (p := λ b, negb (byte_alphanumeric b)).
  destruct (trim_end_spec p (take 63 bs)) as (cut & _ & _ & Hlast & Hne).
  destruct Hhead as [-> |(b & Hb & Hba)]; [by left|]. right.
  rw -(head_take 63 bs) in Hb; [|lia].
  assert (trim_end p (take 63 bs) ≠ []) as Hn by (apply (Hne b); [done|]; unfold p; by rw Hba).
  split_and!.
  - etrans; [apply trim_end_length|]. rw length_take. lia.
  - exists b. split; [by apply head_trim_end|done].
  - destruct (last (trim_end p (take 63 bs))) as [x|] eqn:Hl; [|by apply last_None in Hl].
    exists x. split; [done|]. specialize (Hlast x eq_refl). by apply negb_false_iff in Hlast.
  - by apply forallb_trim_end, forallb_take.
Qed.

Lemma label_char_id b : label_byte b = true → label_char (String b "") = String b "".
Proof.
  unfold label_char, label_byte, is_char. rw alphanumeric_char.
  destruct (byte_alphanumeric b); [done|]. cbn [orb].
  destruct (Ascii.eqb_spec b "."); [by subst|]. destruct (Ascii.eqb_spec b "-"); [by subst|].
  destruct (Ascii.eqb_spec b "_"); [by subst|done].
Qed.

Lemma singles_inj (bs cs : list ascii) : ((λ b, String b "") <$> bs) = ((λ b, String b "") <$> cs) → bs = cs.
Proof.
  revert cs. induction bs as [|b bs IH]; intros [|c cs]; try done. cbn.
  intros [= -> H]. f_equal. by apply IH.
Qed.

Lemma sanitize_id v : is_valid_label_value v = true → sanitize v = v.
Proof.
  rw {1 3}(str_of_string v). rw valid_label_spec. intros Hv.
  destruct (sanitize_bytes v) as (bs & -> & _ & _ & Heq). rw (str_of_string v) in Heq.
  revert Hv Heq. generalize (String.list_ascii_of_string v). intros vs [-> |Hv] Heq.
  { cbn in Heq. by destruct bs. }
  destruct Hv as (Hlen & (h & Hh & Hha) & (l & Hl & Hla) & Hall).
  rw chars_ascii in Heq; [|by apply label_bytes_ascii].
  rw (drop_while_id _ _ (String h "")) in Heq; [|by destruct vs; [|injection Hh as ->]|by rw alphanumeric_char Hha].
  assert (label_char <$> ((λ b, String b "") <$> vs) = (λ b, String b "") <$> vs) as Hlc.
  { rw -list_fmap_compose. apply list_fmap_ext. intros i b Hb. cbn. apply label_char_id.
    apply (proj1 (forallb_forall _ _) Hall). apply list_elem_of_In. by eapply list_elem_of_lookup_2. }
  rw Hlc in Heq. apply singles_inj in Heq as <-. rw take_ge; [|done].
  f_equal. apply (trim_end_id _ _ l); [done|]. by rw Hla.
Qed.

(** every label value the operator derives is one the API server accepts, whatever it is
    derived from, and a value that was acceptable is left as it is: so deriving twice
    changes nothing, and a selector built from a name selects what was labelled with it. *)
Theorem label_values_are_valid (value : string) :
  is_valid_label_value (sanitize value) = true ∧
  (is_valid_label_value value = true → sanitize value = value) ∧
  sanitize (sanitize value) = sanitize value.
Proof. split_and!; [apply sanitize_valid|apply sanitize_id|apply sanitize_id, sanitize_valid]. Qed.

(** ** Resource names

    A scanner of names: at the start of a label, after an alphanumeric byte, after a dash. *)

Module Scan.
Inductive Scan : Set := Start | Alnum | Dash.
End Scan.
Abbreviation Scan := Scan.Scan.

Definition scan_step (st : Scan) (a : ascii) : option Scan :=
  if is_lower_alnum a then Some Scan.Alnum
  else if Ascii.eqb a "-" then match st with Scan.Start => None | _ => Some Scan.Dash end
  else if Ascii.eqb a "." then match st with Scan.Alnum => Some Scan.Start | _ => None end
  else None.

Fixpoint scan (st : Scan) (s : string) : option Scan :=
  match s with
  | "" => Some st
  | String a s => scan_step st a ≫= λ st, scan st s
  end.

Lemma label_scan_app st s t : scan st (s +:+ t) = scan st s ≫= λ st, scan st t.
Proof.
  revert st. induction s as [|a s IH]; intros st; [done|]. rw str_app_cons. cbn.
  destruct (scan_step st a); [apply IH|done].
Qed.

Lemma scan_then st s t st' : scan st s = Some st' → scan st (s +:+ t) = scan st' t.
Proof. rw label_scan_app. by intros ->. Qed.

(** The scanner within a label: a dot stops it. *)
Definition label_step (st : Scan) (a : ascii) : option Scan :=
  if Ascii.eqb a "." then None else scan_step st a.
Fixpoint label_scan (st : Scan) (s : string) : option Scan :=
  match s with
  | "" => Some st
  | String a s => label_step st a ≫= λ st, label_scan st s
  end.
Definition ends_alnum (o : option Scan) : bool :=
  match o with Some Scan.Alnum => true | _ => false end.

Lemma scan_step_dot st : scan_step st "." = match st with Scan.Alnum => Some Scan.Start | _ => None end.
Proof. by destruct st. Qed.

Lemma split_on_nonempty a s : split_on a s ≠ [].
Proof. destruct s as [|b s]; [done|]. cbn. destruct (Ascii.eqb a b); [done|]. by destruct (split_on a s). Qed.

(** A string cut at its dots, the first piece continuing a label. *)
Lemma scan_split st s :
  ends_alnum (scan st s) =
  match split_on "." s with
  | l :: ls => ends_alnum (label_scan st l) && forallb (λ l, ends_alnum (label_scan Scan.Start l)) ls
  | [] => false
  end.
Proof.
  revert st. induction s as [|a s IH]; intros st; [by destruct st|]. cbn [scan split_on].
  destruct (Ascii.eqb_spec a ".") as [->|Ha].
  - cbn. rw scan_step_dot. specialize (split_on_nonempty "." s) as Hne.
    destruct st; cbn; [done| |done]. rw IH. by destruct (split_on "." s).
  - assert (label_step st a = scan_step st a) as Hstep.
    { unfold label_step. by destruct (Ascii.eqb_spec a "."). }
    destruct (Ascii.eqb_spec "." a); [congruence|].
    specialize (split_on_nonempty "." s) as Hne.
    destruct (split_on "." s) as [|l ls]; [done|]. cbn. rw Hstep.
    destruct (scan_step st a) as [st'|]; [apply IH|done].
Qed.

(** The source's test of a label is the scanner's. *)
Lemma label_scan_spec st bs :
  ends_alnum (label_scan st (str bs)) =
  match bs with
  | [] => ends_alnum (Some st)
  | b :: _ =>
      (match st with Scan.Start => is_lower_alnum b | _ => true end) &&
      byte_satisfies is_lower_alnum (str bs) (String.length (str bs) - 1) &&
      forallb (λ b, is_lower_alnum b || is_char "-" b) bs
  end.
Proof.
  revert st. induction bs as [|b bs IH]; intros st; [by destruct st|].
  rw str_cons. cbn [label_scan]. rw -str_cons.
  assert (byte_satisfies is_lower_alnum (str (b :: bs)) (String.length (str (b :: bs)) - 1) =
    match bs with [] => is_lower_alnum b
    | _ => byte_satisfies is_lower_alnum (str bs) (String.length (str bs) - 1) end) as ->.
  { unfold byte_satisfies. rw !str_byte_at !str_length. destruct bs as [|c bs]; [done|]. cbn. by rw Nat.sub_0_r. }
  unfold label_step, scan_step, is_char. cbn [forallb].
  destruct (Ascii.eqb_spec b ".") as [->|Hdot].
  { cbn. destruct st; [done|by rw andb_false_r..]. }
  destruct (is_lower_alnum b) eqn:Hb; cbn [mbind option_bind orb andb].
  - rw IH. destruct bs as [|c bs]; [by destruct st|]. cbn [andb]. by destruct st.
  - destruct (Ascii.eqb_spec b "-") as [->|Hdash]; cbn [andb]; [|rw andb_false_r; by destruct st].
    destruct st; cbn [mbind option_bind]; [done| |]; (rw IH; by destruct bs).
Qed.

Lemma dns1123_label_scan value :
  is_dns1123_label value = ends_alnum (label_scan Scan.Start value).
Proof.
  rw (str_of_string value). generalize (String.list_ascii_of_string value). intros bs.
  rw label_scan_spec. unfold is_dns1123_label. destruct bs as [|b bs]; [done|].
  rw str_all_bytes. change (String.eqb (str (b :: bs)) "") with false.
  change (byte_satisfies is_lower_alnum (str (b :: bs)) 0) with (is_lower_alnum b).
  destruct (is_lower_alnum b); [|done]. by destruct (byte_satisfies _ _ _).
Qed.

Lemma valid_name_scan value :
  is_valid_resource_name value = true ↔
  ends_alnum (scan Scan.Start value) = true ∧ String.length value ≤ 253.
Proof.
  unfold is_valid_resource_name. rw scan_split.
  assert (∀ ls, forallb is_dns1123_label ls = forallb (λ l, ends_alnum (label_scan Scan.Start l)) ls) as Hls.
  { intros ls. induction ls as [|l ls IH]; [done|]. cbn. by rw dns1123_label_scan IH. }
  rw Hls. destruct (String.eqb_spec value "") as [->|Hne]; [cbn; split; [done|by intros []]|]. cbn [orb].
  destruct (Nat.ltb_spec MAX_RESOURCE_NAME_LENGTH (String.length value)) as [Hlen|Hlen]; unfold MAX_RESOURCE_NAME_LENGTH in Hlen.
  - split; [done|]. intros [_ ?]. lia.
  - pose proof (split_on_nonempty "." value). destruct (split_on "." value) as [|l ls]; [done|].
    cbn [forallb]. split; [done|by intros []].
Qed.

(** ** Plan names *)

Lemma scan_alnum st s : all_bytes is_lower_alnum s = true → s ≠ "" → scan st s = Some Scan.Alnum.
Proof.
  revert st. induction s as [|a s IH]; intros st; [done|]. cbn. intros [Ha Hs]%andb_true_iff _.
  unfold scan_step. rw Ha. cbn. destruct s as [|b s]; [done|]. by apply IH.
Qed.

Lemma digit_alnum n : is_lower_alnum (digit n) = true.
Proof.
  unfold digit. pose proof (N.mod_lt n 10 ltac:(done)). generalize dependent (n mod 10)%N. intros r Hr.
  assert (r = 0 ∨ r = 1 ∨ r = 2 ∨ r = 3 ∨ r = 4 ∨ r = 5 ∨ r = 6 ∨ r = 7 ∨ r = 8 ∨ r = 9)%N as H by lia.
  by destruct H as [->|[->|[->|[->|[->|[->|[->|[->|[->| ->]]]]]]]]].
Qed.

Lemma scan_digits st n : scan st (pad2 n) = Some Scan.Alnum ∧ scan st (pad4 n) = Some Scan.Alnum.
Proof.
  split; apply scan_alnum; unfold pad4, pad2; rw ?str_app_cons ?str_app_nil_l;
    cbn [all_bytes]; by rw ?digit_alnum.
Qed.

(** The compact time: two groups of digits, fifteen bytes. *)
Lemma compact_printed secs :
  (0 ≤ secs < SECOND_LIMIT)%Z →
  ∃ y m d h mi s : N, format_timestamp_compact secs =
    pad4 y +:+ pad2 m +:+ pad2 d +:+ "-" +:+ pad2 h +:+ pad2 mi +:+ pad2 s.
Proof.
  intros Hs. unfold SECOND_LIMIT, DAY_LIMIT in Hs.
  assert (0 ≤ secs / 86400 < DAY_LIMIT)%Z as Hdays by (unfold DAY_LIMIT; lia).
  pose proof (days_to_date_range _ Hdays) as Hr. unfold format_timestamp_compact.
  destruct (days_to_date (secs / 86400)) as [[y m] d]. cbn zeta.
  set (h := (secs mod 86400 / 3600)%Z). set (mi := (secs mod 86400 mod 3600 / 60)%Z).
  set (s := (secs mod 86400 mod 60)%Z).
  assert (0 ≤ h ≤ 23 ∧ 0 ≤ mi ≤ 59 ∧ 0 ≤ s ≤ 59)%Z as Ht by (unfold h, mi, s; lia).
  assert (∀ x, (0 ≤ x < 100)%Z → zero_padded 2 x = pad2 (Z.to_N x)) as H2.
  { intros x Hx. rw -{1}(Z2N.id x); [|lia]. apply zero_padded_2. lia. }
  exists (Z.to_N y), (Z.to_N m), (Z.to_N d), (Z.to_N h), (Z.to_N mi), (Z.to_N s).
  rw -{1}(Z2N.id y); [|lia]. rw zero_padded_4; [|lia]. by rw !H2; [|lia..].
Qed.

(** What follows the prefix keeps the name valid. *)
Lemma suffix_scan secs suffix :
  (0 ≤ secs < SECOND_LIMIT)%Z → all_bytes is_lower_alnum suffix = true → suffix ≠ "" →
  scan Scan.Alnum ("-plan-" +:+ format_timestamp_compact secs +:+ "-" +:+ suffix) = Some Scan.Alnum ∧
  String.length (format_timestamp_compact secs) = 15.
Proof.
  intros (y & m & d & h & mi & s & ->)%compact_printed Hs Hne. split; [|done].
  rw (scan_then Scan.Alnum "-plan-" _ Scan.Dash); [|done]. rw -!str_app_assoc.
  rw (scan_then _ _ _ _ (proj2 (scan_digits Scan.Dash y))).
  do 2 rw (scan_then _ _ _ _ (proj1 (scan_digits Scan.Alnum _))).
  rw (scan_then Scan.Alnum "-" _ Scan.Dash); [|done].
  rw (scan_then _ _ _ _ (proj1 (scan_digits Scan.Dash h))).
  do 2 rw (scan_then _ _ _ _ (proj1 (scan_digits Scan.Alnum _))).
  rw (scan_then Scan.Alnum "-" _ Scan.Dash); [|done]. by apply scan_alnum.
Qed.

(** Accepted bytes are ASCII. *)
Lemma scan_ascii st s st' : scan st s = Some st' → is_ascii s.
Proof.
  revert st. induction s as [|a s IH]; intros st; [by intros _ [|i] ? ?|]. cbn.
  destruct (scan_step st a) as [st1|] eqn:Ha; [|done]. cbn. intros Hs [|i] b; cbn.
  - intros [= <-]. unfold scan_step, is_lower_alnum in Ha. unfold is_cont.
    destruct (in_range 128 191 a) eqn:Hc; [|done]. exfalso. unfold in_range in *.
    rw !andb_true_iff !N.leb_le in Hc.
    destruct (Ascii.eqb_spec a "-") as [->|]; [by destruct Hc as [Hc _]|].
    destruct (Ascii.eqb_spec a ".") as [->|]; [by destruct Hc as [Hc _]|].
    destruct (_ || _) eqn:Hr; [|done]. rw orb_true_iff !andb_true_iff !N.leb_le in Hr. lia.
  - by eapply IH.
Qed.

Lemma scan_bytes_ascii st bs st' : scan st (str bs) = Some st' → forallb ascii_byte bs = true.
Proof.
  revert st. induction bs as [|b bs IH]; intros st; [done|]. rw str_cons. cbn.
  destruct (scan_step st b) as [st1|] eqn:Hb; [|done]. cbn. intros Hs. rw (IH _ Hs) andb_true_r.
  unfold scan_step, is_lower_alnum, in_range in Hb. unfold ascii_byte.
  destruct (Ascii.eqb_spec b "-") as [->|]; [done|]. destruct (Ascii.eqb_spec b ".") as [->|]; [done|].
  destruct (_ || _) eqn:Hr; [|done]. rw orb_true_iff !andb_true_iff !N.leb_le in Hr. apply N.ltb_lt. lia.
Qed.

Lemma separator_byte b : is_separator (String b "") = is_char "." b || is_char "-" b.
Proof. unfold is_separator, is_char. cbn. by destruct (Ascii.eqb b "."), (Ascii.eqb b "-"). Qed.

Lemma scan_step_alnum st b st' :
  scan_step st b = Some st' → is_separator (String b "") = false → st' = Scan.Alnum.
Proof.
  rw separator_byte. unfold scan_step, is_char. intros Hs [Hdot Hdash]%orb_false_iff.
  rw Hdot Hdash in Hs. destruct (is_lower_alnum b); congruence.
Qed.

Lemma start_byte b s st :
  scan Scan.Start (String b s) = Some st → is_separator (String b "") = false.
Proof.
  rw separator_byte. cbn [scan]. unfold scan_step, is_char.
  destruct (Ascii.eqb_spec b ".") as [->|]; [done|]. by destruct (Ascii.eqb_spec b "-") as [->|].
Qed.

(** Trimming the separators of a scanned prefix leaves an alphanumeric end. *)
Lemma trimmed_name kept st :
  scan Scan.Start kept = Some st → kept ≠ "" →
  String.length (trim_end_matches is_separator kept) ≤ String.length kept ∧
  scan Scan.Start (trim_end_matches is_separator kept) = Some Scan.Alnum.
Proof.
  rw (str_of_string kept). generalize (String.list_ascii_of_string kept). intros bs Hs Hne.
  rw trim_end_matches_ascii; [|by eapply scan_bytes_ascii]. rw !str_length.
  set (p := λ b, is_separator (String b "")). split; [apply trim_end_length|].
  destruct (trim_end_spec p bs) as (cut & Heq & _ & Hlast & Hhead).
  destruct bs as [|b bs]; [done|].
  assert (trim_end p (b :: bs) ≠ []) as Hn by (apply (Hhead b); [done|]; by eapply start_byte).
  rw Heq str_app label_scan_app in Hs. destruct (scan Scan.Start (str (trim_end p (b :: bs)))) as [st1|] eqn:Hs1; [|done].
  destruct (last (trim_end p (b :: bs))) as [x|] eqn:Hl; [|by apply last_None in Hl].
  specialize (Hlast x eq_refl). apply last_Some in Hl as [k Hk].
  rw Hk str_app label_scan_app in Hs1. destruct (scan Scan.Start (str k)) as [st2|]; [|done]. cbn in Hs1.
  destruct (scan_step st2 x) as [st3|] eqn:H3; [|done]. cbn in Hs1. injection Hs1 as <-.
  f_equal. by eapply scan_step_alnum.
Qed.

(** Cutting and trimming a valid name leaves one that can be continued. *)
Lemma truncated_prefix {E} name max_bytes :
  ends_alnum (scan Scan.Start name) = true → 0 < max_bytes →
  ∃ p, truncate_name_prefix (E := E) name max_bytes = Ok p ∧ String.length p ≤ max_bytes ∧
    scan Scan.Start p = Some Scan.Alnum.
Proof.
  intros Hname Hmax. destruct (scan Scan.Start name) as [st|] eqn:Hscan; [|done].
  pose proof (scan_ascii _ _ _ Hscan) as Hascii. unfold truncate_name_prefix.
  set (cut := if _ <=? _ then _ else _).
  assert (0 < cut ∧ cut ≤ max_bytes ∧ cut ≤ String.length name) as (Hc0 & Hcm & Hcl).
  { unfold cut. destruct (Nat.leb_spec (String.length name) max_bytes).
    - split_and!; [|done..]. destruct name; [by injection Hscan as <-|cbn; lia].
    - assert (boundary_below name max_bytes = max_bytes) as ->; [|lia].
      destruct max_bytes as [|n]; [done|]. cbn [boundary_below]. by rw boundary_ascii; [|done|lia]. }
  assert (slice (E := E) name 0 cut = Ok (String.substring 0 cut name)) as ->.
  { unfold slice. rw bool_decide_true; [|lia]. rw !boundary_ascii; [|first [done|lia]..]. by rw Nat.sub_0_r. }
  cbn [mbind res_bind]. destruct (substring_take name cut Hcl) as (rest & Heq & Hlen).
  eexists. split; [done|]. revert Heq Hlen. generalize (String.substring 0 cut name). intros kept Heq Hlen.
  rw Heq label_scan_app in Hscan. destruct (scan Scan.Start kept) as [st1|] eqn:Hkept; [|done].
  destruct (trimmed_name kept st1 Hkept) as [H1 H2]; [by destruct kept; [cbn in Hlen; lia|]|]. split; [lia|done].
Qed.

Lemma substring_whole t : String.substring 0 (String.length t) t = t.
Proof. induction t as [|a t IH]; [done|]. cbn. by rw IH. Qed.

Lemma substring_app_r s t : String.substring (String.length s) (String.length t) (s +:+ t) = t.
Proof. induction s as [|a s IH]; [apply substring_whole|]. exact IH. Qed.

Lemma substring_app_l s t : String.substring 0 (String.length s) (s +:+ t) = s.
Proof. induction s as [|a s IH]; [by destruct t|]. rw str_app_cons. cbn. by rw IH. Qed.

Lemma strip_suffix_app s t : strip_suffix t (s +:+ t) = Some s.
Proof.
  unfold strip_suffix. rw str_length_app Nat.add_sub substring_app_r substring_app_l String.eqb_refl.
  by rw (proj2 (Nat.leb_le _ _)); [|lia].
Qed.

Lemma all_bytes_app p s t : all_bytes p (s +:+ t) = all_bytes p s && all_bytes p t.
Proof. induction s as [|a s IH]; [done|]. rw str_app_cons. cbn. by rw IH andb_assoc. Qed.

(** The first bytes of a hash. *)
Lemma hash_prefix {E} h n :
  all_bytes is_lower_alnum h = true → 0 < n ≤ String.length h →
  ∃ suffix, slice (E := E) h 0 n = Ok suffix ∧ all_bytes is_lower_alnum suffix = true ∧
    String.length suffix = n.
Proof.
  intros Hall [Hn Hle]. assert (is_ascii h) as Ha.
  { apply (scan_ascii Scan.Start h Scan.Alnum), scan_alnum; [done|]. by destruct h; [cbn in Hle; lia|]. }
  destruct (substring_take h n Hle) as (rest & Heq & Hlen). exists (String.substring 0 n h). split_and!; [| |done].
  - unfold slice. rw bool_decide_true; [|lia]. rw !boundary_ascii; [|first [done|lia]..]. by rw Nat.sub_0_r.
  - rw Heq all_bytes_app in Hall. by apply andb_true_iff in Hall as [? _].
Qed.

(** a plan's name is valid: from a policy name the API server accepted and a hash in
    hexadecimal, the generated name is a resource name of at most 249 bytes, and so is, within
    the limit, the name of the object that stores its preview, from which the plan's name is
    read back. *)
Theorem plan_names_are_valid (secs : Z) (policy_name sql_hash : string) :
  is_valid_resource_name policy_name = true →
  all_bytes is_lower_alnum sql_hash = true → 12 ≤ String.length sql_hash →
  (0 ≤ secs < SECOND_LIMIT)%Z →
  ∃ name, generate_plan_name (E := ReconcileError) secs policy_name sql_hash = Ok name ∧
    is_valid_resource_name name = true ∧ String.length name ≤ 249 ∧
    is_valid_resource_name (name +:+ "-sql") = true ∧
    configmap_plan_name (name +:+ "-sql") = name.
Proof.
  intros [Hscan Hlen]%valid_name_scan Hhex Hh Hsecs. unfold generate_plan_name.
  destruct (hash_prefix (E := ReconcileError) sql_hash 12 Hhex ltac:(lia)) as (suffix & Hsl & Hsuf & Hsl12).
  rw Nat.min_l; [|done]. rw Hsl. cbn [mbind res_bind].
  destruct (suffix_scan secs suffix Hsecs Hsuf) as [Hss Hts]; [by destruct suffix|].
  assert (MAX_RESOURCE_NAME_LENGTH - 4 - String.length "-plan-" -
    String.length (format_timestamp_compact secs) - String.length "-" - String.length suffix = 215) as ->.
  { rw Hts Hsl12. done. }
  destruct (truncated_prefix (E := ReconcileError) policy_name 215 Hscan ltac:(lia)) as (p & -> & Hp & Hps).
  cbn [mbind res_bind]. eexists. split; [done|].
  set (name := p +:+ "-plan-" +:+ format_timestamp_compact secs +:+ "-" +:+ suffix).
  assert (scan Scan.Start name = Some Scan.Alnum) as Hn by (unfold name; by rw (scan_then _ _ _ _ Hps)).
  assert (String.length name ≤ 249) as Hnl.
  { unfold name. revert Hts. clear -Hsl12 Hp. generalize (format_timestamp_compact secs). intros ts Hts.
    rw !str_length_app Hts Hsl12. cbn. lia. }
  split_and!; [|done| |].
  - apply valid_name_scan. rw Hn. split; [done|lia].
  - apply valid_name_scan. rw (scan_then _ _ _ _ Hn). split; [done|]. rw str_length_app. cbn. lia.
  - unfold configmap_plan_name. by rw strip_suffix_app.
Qed.
