(* ===== verification/PlanWitnesses.v ===== *)
(** * Concrete plans

    The theorems on the life of plans applied to a policy with stored plans. *)

From S2P Require Import Prelude BTree RustStr Types Manifest Model Change Plan Approval PlanStatus PlanWrites PlanSql PlanCreation PlanCreationFacts PlanExecution PlanExecutionFacts Durations Timestamp Clock PlanRetention K8sNames.

Module PlanScene.

Definition parse_ts : string → option Z := parse_rfc3339_to_epoch_secs.
Definition source_digest (versions : gmap string string) : string := "sources".
Definition now : string := "2026-03-31T12:00:00Z".
Definition now_secs : Z := 1774958400.
Definition identity : TargetIdentity := {| physical := Some "7301"; logical := Some "db:5432/app" |}.

Definition summary : ChangeSummary := {|
  roles_created := 1; roles_altered := 0; schemas_created := 0; schema_owners_altered := 0;
  roles_dropped := 0; sessions_terminated := 0; grants_added := 0; grants_revoked := 0;
  default_privileges_set := 0; default_privileges_revoked := 0; members_added := 0;
  members_options_changed := 0; members_removed := 0; passwords_set := 0; total := 1 |}.

Definition plan_spec : PlanSpec := {|
  policy_ref := "app"; policy_generation := 3; reconciliation_mode := CrdReconciliationMode.Authoritative;
  owned_roles := ["app"]; owned_schemas := []; managed_database_identity := "default/db";
  origin := None; scope := None |}.

Definition sql : string := "CREATE ROLE app;".
Definition prepared : PreparedPlanSql := {|
  artifact := PlanSqlArtifact.Inline sql; prepared_hash := "h"; original_bytes := 16; stored_bytes := 16 |}.

Definition inputs (digest : string) : PlanInputs := {|
  in_owner_kind := "PostgresPolicy"; in_owner_uid := Some "uid-1"; in_generation := 3; in_plan_name := "app-plan-2"; in_created_at := 2;
  in_labels := ∅; in_spec := plan_spec; in_digest := digest; in_expected_base := None;
  in_target_identity := identity; in_summary := summary; in_versions := ∅; in_sql_hash := "abc";
  in_sql_statements := 1; in_prepared := prepared |}.

Definition pending : PlanStatus := created_status source_digest now (inputs "d1").

Definition alice : DecisionActor := {| username := "alice"; actor_uid := None; actor_groups := [] |}.

(** The status after a reviewer's approval: the condition and its author in one write. *)
Definition approved_by_alice : PlanStatus :=
  with_lifecycle pending PlanPhase.Pending
    (set_plan_condition now (conditions pending) "Approved" "True" "Reviewed" "looks right")
    (Some alice) None None None None.

Definition plan_of (name : string) (s : PlanStatus) : PolicyPlan := {|
  plan_name := name; creation_timestamp := Some 1%Z; labels := None;
  owner_references := [{| owner_kind := "PostgresPolicy"; owner_uid := "uid-1"; controller := Some true |}];
  spec := plan_spec; status := Some s |}.

Definition stored : list PolicyPlan :=
  [plan_of "app-plan-0" pending;
   {| plan_name := "other-plan-0"; creation_timestamp := Some 1%Z; labels := None;
      owner_references := [{| owner_kind := "PostgresPolicy"; owner_uid := "uid-2"; controller := Some true |}];
      spec := plan_spec; status := Some pending |}].

Definition reconcile_inputs (digest : string) : Reconcile := {|
  fresh_digest := digest; has_changes := true; observed_identity := identity;
  requires_physical_identity := true; source_versions := ∅; generation := Some 3%Z;
  authority_block := None; secrets_error := None; transaction := inr 1; clock := now;
  clock_secs := now_secs |}.

Lemma pending_well_formed : well_formed pending.
Proof. apply created_well_formed. Qed.

Lemma approved_well_formed : well_formed approved_by_alice.
Proof.
  split; [|reflexivity]. apply set_condition_one_entry. apply created_well_formed.
Qed.

Lemma stored_distinct : NoDup (plan_name <$> stored).
Proof. apply (bool_decide_unpack _). by vm_compute. Qed.

Lemma stored_well_formed : well_formed_plans stored.
Proof.
  intros p s Hp. repeat (apply elem_of_cons in Hp as [-> |Hp]; [intros [= <-]; apply pending_well_formed|]).
  by apply not_elem_of_nil in Hp.
Qed.

(** A reviewer approves, the operator applies. *)
Definition approved_run : rtc plan_step pending approved_by_alice.
Proof. apply rtc_once, Reviewer; [reflexivity| |reflexivity|reflexivity]. apply approved_well_formed. Defined.

Definition applying : PlanStatus := update_plan_phase now approved_by_alice PlanPhase.Applying.

Definition applying_run : rtc plan_step pending applying.
Proof. eapply rtc_r; [apply approved_run|]. apply Operator, StartApplying. reflexivity. Defined.

Definition applied_run : rtc plan_step approved_by_alice (applied_status now (Some applying)).
Proof.
  eapply rtc_l; [apply Operator, (StartApplying now); reflexivity|].
  apply rtc_once, Operator, Complete. reflexivity.
Defined.

End PlanScene.

Import PlanScene.

Lemma decisions_are_final_witness :
  has_terminal_decision approved_by_alice = true ∧
  decision_types (applied_status now (Some applying)) = decision_types approved_by_alice ∧
  decided_by (applied_status now (Some applying)) = decided_by approved_by_alice.
Proof.
  destruct (decisions_are_final approved_by_alice (applied_status now (Some applying))
    approved_well_formed applied_run) as [H _].
  split; [reflexivity|]. apply H. reflexivity.
Defined.

Lemma stuck_plan_is_not_recovered_witness :
  phase applying = PlanPhase.Applying ∧
  recover_stuck_plan parse_ts (now_secs + 1000000) now applying = applying.
Proof.
  split; [reflexivity|].
  apply (stuck_plan_is_not_recovered pending applying); [reflexivity|apply applying_run].
Defined.

(** The stale plan is retired, the new one awaits a decision, the other owner's is kept. *)
Lemma one_plan_awaits_decision_witness :
  ∃ plans', create_or_update_plan parse_ts source_digest now now_secs (inputs "d2")
              PlanReuse.PendingOnly false stored =
            Ok (PlanCreationResult.Created "app-plan-2", plans') ∧
    current_plan (inputs "d2") PlanReuse.PendingOnly plans' "app-plan-2".
Proof.
  eexists. split; [reflexivity|].
  apply (one_plan_awaits_decision parse_ts source_digest now now_secs (inputs "d2")
    PlanReuse.PendingOnly false stored _ (PlanCreationResult.Created "app-plan-2") "uid-1");
    [apply stored_distinct|reflexivity|reflexivity].
Defined.

Lemma manual_execution_is_authorised_witness :
  transaction_started (reconcile_manual parse_ts source_digest (reconcile_inputs "d1")
    (plan_of "app-plan-0" approved_by_alice)) = true.
Proof.
  apply (manual_execution_is_authorised parse_ts source_digest (reconcile_inputs "d1")
    (plan_of "app-plan-0" approved_by_alice) approved_by_alice); [reflexivity|].
  split_and!; try reflexivity; [left| |by eexists].
  by intros ?%list_elem_of_singleton.
Defined.

Lemma operator_writes_are_admitted_witness :
  length (writes (reconcile_manual parse_ts source_digest (reconcile_inputs "d1")
    (plan_of "app-plan-0" approved_by_alice))) = 3 ∧
  admitted_chain approved_by_alice (writes (reconcile_manual parse_ts source_digest
    (reconcile_inputs "d1") (plan_of "app-plan-0" approved_by_alice))) = true.
Proof.
  split; [reflexivity|].
  apply (operator_writes_are_admitted parse_ts source_digest (reconcile_inputs "d1")
    (plan_of "app-plan-0" approved_by_alice) approved_by_alice "app-plan-2" "d2" None ∅
    PlanReuse.PendingOnly); [reflexivity|apply approved_well_formed].
Defined.

Lemma automatic_execution_is_recorded_witness :
  ∃ h plans', reconcile_auto parse_ts source_digest (reconcile_inputs "d1") (inputs "d1") stored =
      Ok (h, plans') ∧
    recorded_execution (reconcile_inputs "d1") "d1" (Some "uid-1") plans'.
Proof.
  eexists _, _. split; [reflexivity|].
  eapply (automatic_execution_is_recorded parse_ts source_digest (reconcile_inputs "d1") (inputs "d1")
    "uid-1" stored); [apply stored_distinct|apply stored_well_formed|reflexivity|reflexivity|reflexivity].
Defined.

Lemma retention_keeps_bounds_witness :
  from_lookup (λ _, None) = Ok default_retention ∧
  ∀ p, p ∈ plans_to_evict parse_ts stored default_retention now_secs → is_Some (class_of p).
Proof.
  split; [reflexivity|].
  apply (retention_keeps_bounds parse_ts (λ _, None) default_retention stored now_secs). reflexivity.
Defined.

Lemma clock_round_trip_witness :
  parse_rfc3339_to_epoch_secs (now_rfc3339 1704112245) = Some 1704112245%Z.
Proof. apply (clock_round_trip 1704112245). split; [done|reflexivity]. Defined.

Lemma plan_names_are_valid_witness :
  ∃ name, generate_plan_name (E := ReconcileError) 1704112245 "team-a.app" "0123456789abcdef" = Ok name ∧
    is_valid_resource_name name = true.
Proof.
  destruct (plan_names_are_valid 1704112245 "team-a.app" "0123456789abcdef") as (name & H1 & H2 & _);
    [reflexivity|reflexivity|cbn; lia|split; [done|reflexivity]|].
  exact (ex_intro _ name (conj H1 H2)).
Defined.
