(* ===== verification/ContentDigest.v ===== *)
(** * The content digest of a candidate ([candidate.rs] of the core)

    The canonical form of a JSON value and the digest over it.  The conversion of content
    to a value, its serialisation to bytes and the hash are libraries: they are arguments. *)

From S2P Require Import Prelude BTree RustStr Types Model Change Plan Approval.

Definition CANDIDATE_CONTENT_ENCODING_V1 : string := "pgroles.io/candidate-content/v1".

Definition content_is_empty (value : Value) : bool :=
  match value with
  | Value.Null => true
  | Value.Object map => bool_decide (map = [])
  | Value.Array items => bool_decide (items = [])
  | _ => false
  end.

(** The loop body of [canonicalize] on objects, the entry already canonical. *)
Definition keep_entry (sorted : gmap string Value) (p : string * Value) : gmap string Value :=
  if content_is_empty p.2 then sorted else <[p.1 := p.2]> sorted.

Fixpoint canonicalize (value : Value) : Value :=
  match value with
  | Value.Object map =>
      Value.Object (map_iter (foldl keep_entry ∅ ((λ p, (p.1, canonicalize p.2)) <$> map)))
  | Value.Array items => Value.Array (canonicalize <$> items)
  | other => other
  end.

Definition content_envelope (value : Value) : gmap string Value :=
  <["content" := canonicalize value]>
    (<["encoding" := Value.String CANDIDATE_CONTENT_ENCODING_V1]> ∅).

Section digest.
Context {T : Type} (to_value : T → Value) (sha256_hex : string → string)
  (to_vec : Value → string).

Definition canonical_content_bytes (content : T) : string :=
  to_vec (Value.Object (map_iter (content_envelope (to_value content)))).

Definition compute_content_digest (content : T) : string :=
  "sha256:" +:+ sha256_hex (canonical_content_bytes content).
End digest.

(** ** Induction on values *)

Section induction.
Context (P : Value → Prop)
  (Hnull : P Value.Null) (Hbool : ∀ b, P (Value.Bool b)) (Hnumber : ∀ n, P (Value.Number n))
  (Hstring : ∀ s, P (Value.String s)) (Harray : ∀ l, Forall P l → P (Value.Array l))
  (Hobject : ∀ m, Forall (λ p, P p.2) m → P (Value.Object m)).

Fixpoint value_induction (v : Value) : P v :=
  match v with
  | Value.Null => Hnull
  | Value.Bool b => Hbool b
  | Value.Number n => Hnumber n
  | Value.String s => Hstring s
  | Value.Array l =>
      Harray l ((fix go l : Forall P l :=
        match l with [] => Forall_nil_2 _ | v :: l => Forall_cons_2 _ v l (value_induction v) (go l) end) l)
  | Value.Object m =>
      Hobject m ((fix go m : Forall (λ p, P p.2) m :=
        match m with
        | [] => Forall_nil_2 _
        | p :: m => Forall_cons_2 _ p m (value_induction p.2) (go m)
        end) m)
  end.
End induction.

(** ** The canonical form of an object *)

(** An object has each of its keys once. *)
Inductive well_keyed : Value → Prop :=
  | keyed_leaf v :
      (match v with Value.Array _ | Value.Object _ => False | _ => True end) → well_keyed v
  | keyed_array l : Forall well_keyed l → well_keyed (Value.Array l)
  | keyed_object m :
      NoDup m.*1 → Forall (λ p, well_keyed p.2) m → well_keyed (Value.Object m).

Definition canonical_entries (m : list (string * Value)) : gmap string Value :=
  foldl keep_entry ∅ ((λ p, (p.1, canonicalize p.2)) <$> m).

Lemma foldl_keep_entry (l : list (string * Value)) (acc : gmap string Value) k :
  NoDup l.*1 →
  foldl keep_entry acc l !! k =
    match list_to_map (M := gmap string Value) l !! k with
    | Some v => if content_is_empty v then acc !! k else Some v
    | None => acc !! k
    end.
Proof.
  revert acc. induction l as [|[k' v] l IH]; intros acc Hnd; [by rw /= lookup_empty|].
  cbn [fmap list_fmap fst] in Hnd. apply NoDup_cons in Hnd as [Hk Hnd]. cbn [foldl]. rw IH; [|done].
  rw /keep_entry /=. destruct (decide (k = k')) as [-> |Hne].
  - assert (list_to_map (M := gmap string Value) l !! k' = None) as -> by by apply not_elem_of_list_to_map.
    rw lookup_insert_eq. destruct (content_is_empty v); [done|]. by rw lookup_insert_eq.
  - rw lookup_insert_ne; [|done].
    assert ((if content_is_empty v then acc else <[k':=v]> acc) !! k = acc !! k) as ->; [|done].
    destruct (content_is_empty v); [done|]. by rw lookup_insert_ne.
Qed.

Lemma canonical_keys (m : list (string * Value)) :
  ((λ p, (p.1, canonicalize p.2)) <$> m).*1 = m.*1.
Proof. by rw -list_fmap_compose. Qed.

Lemma canonical_entries_lookup m k v :
  NoDup m.*1 →
  canonical_entries m !! k = Some v ↔
  content_is_empty v = false ∧ ∃ w, (k, w) ∈ m ∧ v = canonicalize w.
Proof.
  intros Hnd. unfold canonical_entries. rw foldl_keep_entry; [|by rw canonical_keys].
  rw lookup_empty.
  assert (∀ u, list_to_map (M := gmap string Value) ((λ p, (p.1, canonicalize p.2)) <$> m) !! k = Some u ↔
    ∃ w, (k, w) ∈ m ∧ u = canonicalize w) as Hin.
  { intros u. rw -elem_of_list_to_map; [|by rw canonical_keys]. rw list_elem_of_fmap.
    split; [intros ([k' w] & [= -> ->] & ?); eauto|intros (w & ? & ->); by exists (k, w)]. }
  destruct (list_to_map _ !! k) as [u|] eqn:Hu.
  - destruct (proj1 (Hin u) eq_refl) as (w & Hw & ->). destruct (content_is_empty (canonicalize w)) eqn:He.
    + split; [done|]. intros [Hv Hw']. apply Hin in Hw' as [= <-]. congruence.
    + split; [intros [= <-]; eauto|]. intros [_ Hw']. by apply Hin in Hw' as [= <-].
  - split; [done|]. intros [_ Hw]. by apply Hin in Hw.
Qed.

Lemma canonical_entries_empty m k v : NoDup m.*1 → canonical_entries m !! k = Some v → content_is_empty v = false.
Proof. intros Hnd Hk. by apply canonical_entries_lookup in Hk as [? _]. Qed.

Lemma canonicalize_empty v : content_is_empty v = true → content_is_empty (canonicalize v) = true.
Proof. destruct v as [| | | |[|]|[|]]; cbn; try done; by case_bool_decide. Qed.

(** ** Writing the same content in another way

    What hand-written manifests and the API server differ in: the order of the keys of an
    object, and entries that hold nothing. *)

Inductive rewrites : Value → Value → Prop :=
  | rewrites_order m m' : m ≡ₚ m' → rewrites (Value.Object m) (Value.Object m')
  | rewrites_drop l k v r :
      content_is_empty v = true → rewrites (Value.Object (l ++ (k, v) :: r)) (Value.Object (l ++ r))
  | rewrites_entry l k v v' r :
      rewrites v v' →
      rewrites (Value.Object (l ++ (k, v) :: r)) (Value.Object (l ++ (k, v') :: r))
  | rewrites_item l v v' r :
      rewrites v v' → rewrites (Value.Array (l ++ v :: r)) (Value.Array (l ++ v' :: r)).

Definition keyed_rewrites (v w : Value) : Prop := well_keyed v ∧ well_keyed w ∧ rewrites v w.

(** The least equivalence that contains the rewrites. *)
Definition same_content : relation Value := rtsc keyed_rewrites.

(** *** Rewrites keep the canonical form *)

Lemma keyed_object_inv m :
  well_keyed (Value.Object m) → NoDup m.*1 ∧ ∀ k v, (k, v) ∈ m → well_keyed v.
Proof.
  inversion 1 as [? Hf| |? Hnd Hm]; subst; [done|]. split; [done|]. intros k v Hin.
  by apply (proj1 (Forall_forall _ _) Hm) in Hin.
Qed.

Lemma keyed_array_inv l : well_keyed (Value.Array l) → Forall well_keyed l.
Proof. by inversion 1. Qed.

Lemma canonical_entries_eq m m' :
  NoDup m.*1 → NoDup m'.*1 →
  (∀ k v, content_is_empty v = false →
     (∃ w, (k, w) ∈ m ∧ v = canonicalize w) ↔ (∃ w, (k, w) ∈ m' ∧ v = canonicalize w)) →
  canonicalize (Value.Object m) = canonicalize (Value.Object m').
Proof.
  intros Hnd Hnd' Hin. cbn [canonicalize]. do 2 f_equal.
  change (canonical_entries m = canonical_entries m'). apply map_eq. intros k.
  apply option_eq. intros v. rw !canonical_entries_lookup //. naive_solver.
Qed.

Lemma rewrites_canonicalize v w :
  well_keyed v → well_keyed w → rewrites v w → canonicalize v = canonicalize w.
Proof.
  intros Hv Hw Hr. revert Hv Hw. induction Hr as [m m' Hp|l k v r He|l k v v' r Hr IH|l v v' r Hr IH];
    intros Hv Hw.
  - apply keyed_object_inv in Hv as [Hnd _], Hw as [Hnd' _]. apply canonical_entries_eq; [done..|].
    intros k v _. by setoid_rewrite Hp.
  - apply keyed_object_inv in Hv as [Hnd _], Hw as [Hnd' _]. apply canonical_entries_eq; [done..|].
    intros k' u Hu. split; intros (w & Hin & ->).
    + exists w. split; [|done]. apply elem_of_app in Hin as [Hin|[[= -> ->]|Hin]%elem_of_cons]; [set_solver| |set_solver].
      apply canonicalize_empty in He. congruence.
    + exists w. set_solver.
  - assert (canonicalize v = canonicalize v') as Heq.
    { apply keyed_object_inv in Hv as [_ Hv], Hw as [_ Hw]. apply IH; [apply (Hv k)|apply (Hw k)]; set_solver. }
    apply keyed_object_inv in Hv as [Hnd _], Hw as [Hnd' _]. apply canonical_entries_eq; [done..|].
    intros k' u _. split; intros (w & Hin & ->);
      apply elem_of_app in Hin as [Hin|[[= -> ->]|Hin]%elem_of_cons].
    1,3,4,6: exists w; set_solver.
    + exists v'. set_solver.
    + exists v. set_solver.
  - apply keyed_array_inv in Hv, Hw. apply Forall_app in Hv as [_ [Hv _]%Forall_cons], Hw as [_ [Hw _]%Forall_cons].
    cbn [canonicalize]. by rw !fmap_app !fmap_cons (IH Hv Hw).
Qed.

Lemma same_content_canonicalize v w : same_content v w → canonicalize v = canonicalize w.
Proof.
  induction 1 as [|u v w [(?&?&?)|(?&?&?)] _ IH]; [done|..]; rw -IH; [|symmetry]; by apply rewrites_canonicalize.
Qed.

(** *** Every value rewrites to its canonical form *)

#[export] Instance same_content_equivalence : Equivalence same_content.
Proof. apply rtsc_equivalence. Qed.

Lemma same_content_once v w : well_keyed v → well_keyed w → rewrites v w → same_content v w.
Proof. intros. apply rtc_once. by left. Qed.

(** Well-keyed values stay so under a context. *)
Lemma keyed_replace_entry l k v v' r :
  well_keyed (Value.Object (l ++ (k, v) :: r)) → well_keyed v' →
  well_keyed (Value.Object (l ++ (k, v') :: r)).
Proof.
  intros H Hv'. inversion H as [? Hf| |? Hnd Hm]; subst; [done|]. apply keyed_object.
  - rw fmap_app fmap_cons in Hnd. by rw fmap_app fmap_cons.
  - apply Forall_app in Hm as [? [_ ?]%Forall_cons]. apply Forall_app. split; [done|]. by constructor.
Qed.

Lemma keyed_replace_item l v v' r :
  well_keyed (Value.Array (l ++ v :: r)) → well_keyed v' → well_keyed (Value.Array (l ++ v' :: r)).
Proof.
  intros H Hv'. apply keyed_array_inv, Forall_app in H as [? [_ ?]%Forall_cons].
  apply keyed_array, Forall_app. split; [done|]. by constructor.
Qed.

Lemma same_content_keyed v w : same_content v w → well_keyed v → well_keyed w.
Proof. induction 1 as [|u v w [(?&?&?)|(?&?&?)] _ IH]; [done|..]; intros _; by apply IH. Qed.

(** A context carries steps to steps. *)
Lemma same_content_context (C : Value → Value) v w :
  (∀ u u', well_keyed u → well_keyed u' → well_keyed (C u) → well_keyed (C u')) →
  (∀ u u', rewrites u u' → rewrites (C u) (C u')) →
  well_keyed (C v) → same_content v w → same_content (C v) (C w).
Proof.
  intros Hk Hr Hv. induction 1 as [|u v w Huv _ IH]; [done|].
  assert (well_keyed (C v)) as Hv'.
  { destruct Huv as [(?&?&?)|(?&?&?)]; by apply (Hk u v). }
  transitivity (C v); [|by apply IH]. destruct Huv as [(?&?&Hs)|(?&?&Hs)];
    [|symmetry]; apply same_content_once; auto.
Qed.

Lemma same_entry l k v v' r :
  well_keyed (Value.Object (l ++ (k, v) :: r)) → same_content v v' →
  same_content (Value.Object (l ++ (k, v) :: r)) (Value.Object (l ++ (k, v') :: r)).
Proof.
  intros Hk Hs. apply (same_content_context (λ v, Value.Object (l ++ (k, v) :: r))); [|by constructor|done|done].
  intros u u' _ Hu' Hc. by eapply keyed_replace_entry.
Qed.

Lemma same_item l v v' r :
  well_keyed (Value.Array (l ++ v :: r)) → same_content v v' →
  same_content (Value.Array (l ++ v :: r)) (Value.Array (l ++ v' :: r)).
Proof.
  intros Hk Hs. apply (same_content_context (λ v, Value.Array (l ++ v :: r))); [|by constructor|done|done].
  intros u u' _ Hu' Hc. by eapply keyed_replace_item.
Qed.

Lemma same_items l m :
  Forall (λ v, well_keyed v → same_content v (canonicalize v)) m →
  well_keyed (Value.Array (l ++ m)) →
  same_content (Value.Array (l ++ m)) (Value.Array (l ++ (canonicalize <$> m))).
Proof.
  revert l. induction m as [|v m IH]; intros l Hall Hk; [done|]. apply Forall_cons in Hall as [Hv Hall].
  assert (same_content v (canonicalize v)) as Hs.
  { apply Hv. apply keyed_array_inv, Forall_app in Hk as [_ [? _]%Forall_cons]. done. }
  etrans; [by apply same_item|]. pose proof (same_item l v (canonicalize v) m Hk Hs) as Hk'.
  apply same_content_keyed in Hk'; [|done]. rw (cons_middle _ l) app_assoc in Hk'. rw (cons_middle _ l) app_assoc.
  etrans; [by apply IH|]. by rw -app_assoc.
Qed.

Lemma same_entries l m :
  Forall (λ p, well_keyed p.2 → same_content p.2 (canonicalize p.2)) m →
  well_keyed (Value.Object (l ++ m)) →
  same_content (Value.Object (l ++ m)) (Value.Object (l ++ ((λ p, (p.1, canonicalize p.2)) <$> m))).
Proof.
  revert l. induction m as [|[k v] m IH]; intros l Hall Hk; [done|]. apply Forall_cons in Hall as [Hv Hall].
  assert (same_content v (canonicalize v)) as Hs.
  { apply Hv. apply keyed_object_inv in Hk as [_ Hk]. apply (Hk k). set_solver. }
  etrans; [by apply same_entry|]. pose proof (same_entry l k v (canonicalize v) m Hk Hs) as Hk'.
  apply same_content_keyed in Hk'; [|done]. rw (cons_middle _ l) app_assoc in Hk'. rw (cons_middle _ l) app_assoc.
  etrans; [by apply IH|]. by rw -app_assoc.
Qed.

Lemma sublist_elem {A} (l k : list A) x : sublist l k → x ∈ l → x ∈ k.
Proof. intros Hs Hx. apply sublist_submseteq in Hs. by apply (elem_of_submseteq l k x). Qed.

Lemma keyed_sublist m m' : sublist m' m → well_keyed (Value.Object m) → well_keyed (Value.Object m').
Proof.
  intros Hs H. inversion H as [? Hf| |? Hnd Hm]; subst; [done|]. apply keyed_object.
  - apply (sublist_NoDup _ m.*1); [done|]. clear -Hs. induction Hs; cbn; by constructor.
  - apply Forall_forall. intros p Hp. apply (proj1 (Forall_forall _ _) Hm). by apply (sublist_elem m' m).
Qed.

Lemma same_without_empty l m :
  well_keyed (Value.Object (l ++ m)) →
  same_content (Value.Object (l ++ m)) (Value.Object (l ++ filter (λ p, content_is_empty p.2 = false) m)).
Proof.
  revert l. induction m as [|[k v] m IH]; intros l Hk; [done|]. rw filter_cons /=. case_decide as He.
  - rw !(cons_middle _ l) !app_assoc. apply IH. by rw -app_assoc.
  - apply not_false_is_true in He.
    assert (well_keyed (Value.Object (l ++ m))) as Hk'.
    { eapply keyed_sublist; [|exact Hk]. apply sublist_app; [done|]. by constructor. }
    etrans; [|by apply IH]. apply same_content_once; [done..|]. by constructor.
Qed.

Lemma filter_canonical_entries m :
  NoDup m.*1 →
  filter (λ p, content_is_empty p.2 = false) ((λ p, (p.1, canonicalize p.2)) <$> m) ≡ₚ
  map_iter (canonical_entries m).
Proof.
  intros Hnd. apply NoDup_Permutation.
  - apply NoDup_filter, (NoDup_fmap_1 fst). by rw canonical_keys.
  - apply NoDup_map_iter.
  - intros [k v]. rw elem_of_map_iter canonical_entries_lookup // list_elem_of_filter list_elem_of_fmap /=.
    split; [intros (? & [k' w] & [= -> ->] & ?); eauto|].
    intros (? & w & ? & ->). split; [done|]. by exists (k, w).
Qed.

Lemma canonicalize_same v : well_keyed v → same_content v (canonicalize v).
Proof.
  induction v as [|b|n|s|l IH|m IH] using value_induction; intros Hk; [done..| |].
  - by apply (same_items []).
  - etrans; [by apply (same_entries [])|]. cbn [app].
    pose proof (same_entries [] m IH Hk) as Hk1. apply same_content_keyed in Hk1; [|done].
    etrans; [by apply (same_without_empty [])|]. cbn [app].
    pose proof (same_without_empty [] _ Hk1) as Hk2. apply same_content_keyed in Hk2; [|done]. cbn [app] in Hk2.
    apply keyed_object_inv in Hk as [Hnd _]. pose proof (filter_canonical_entries m Hnd) as Hp.
    cbn [canonicalize]. change (foldl _ ∅ _) with (canonical_entries m).
    apply same_content_once; [done| |by constructor].
    apply keyed_object_inv in Hk2 as [Hnd2 Hk2]. apply keyed_object; [by rw -Hp|].
    rw -Hp. apply Forall_forall. intros [k v] Hin. by apply (Hk2 k).
Qed.

Lemma object_map_inj (m m' : gmap string Value) :
  Value.Object (map_iter m) = Value.Object (map_iter m') → m = m'.
Proof.
  intros [= Heq]. apply map_eq. intros k. apply option_eq. intros v. by rw -!elem_of_map_iter Heq.
Qed.

Lemma content_envelope_inj v w : content_envelope v = content_envelope w → canonicalize v = canonicalize w.
Proof.
  intros Heq%(f_equal (lookup "content")). unfold content_envelope in Heq. rw !lookup_insert_eq in Heq.
  by injection Heq.
Qed.

Section binding.
Context {T : Type} (to_value : T → Value) (sha256_hex : string → string) (to_vec : Value → string).
(** Serialisation can be read back and the hash has no collisions. *)
Context `{!Inj (=) (=) to_vec, !Inj (=) (=) sha256_hex}.

(** C16: the content digest binds what content says, not how it is written. Two contents
    have the same digest exactly when one becomes the other by reordering the keys of
    objects and by adding or removing entries that hold [null], an empty list or an empty
    object, at any depth; the elements of lists keep their places. *)
Theorem content_digest_binds (c1 c2 : T) :
  well_keyed (to_value c1) → well_keyed (to_value c2) →
  compute_content_digest to_value sha256_hex to_vec c1 = compute_content_digest to_value sha256_hex to_vec c2
  ↔ same_content (to_value c1) (to_value c2).
Proof.
  intros H1 H2. unfold compute_content_digest, canonical_content_bytes. split.
  - intros Heq%(inj (String.app "sha256:"))%(inj sha256_hex)%(inj to_vec)%object_map_inj%content_envelope_inj.
    etrans; [by apply canonicalize_same|]. rw Heq. symmetry. by apply canonicalize_same.
  - intros Hs%same_content_canonicalize. rw /content_envelope Hs //.
Qed.
End binding.
