(* ===== verification/CandidateStatus.v ===== *)
(** * Candidate objects and their status ([crd.rs], [candidate.rs] of the operator)

    The [PostgresPolicyCandidate] object, the conditions of its status, every mutation the
    operator makes of it, and the guarded write that applies one.  The digest of the
    content is an argument of the object: see [ContentDigest].  Timestamps are an argument
    [now] of the writes. *)

From S2P Require Import Prelude BTree RustStr Types Model Change Plan Approval PlanStatus PlanWrites.

(** ** The object *)

Module CandidatePhase.
Inductive CandidatePhase : Set := Pending | Planned | Promoted | Superseded | Stale.

#[export] Instance candidate_phase_eq_dec : EqDecision CandidatePhase.
Proof. solve_decision. Defined.

Definition is_terminal (self : CandidatePhase) : bool :=
  match self with Promoted | Superseded => true | _ => false end.
End CandidatePhase.
Abbreviation CandidatePhase := CandidatePhase.CandidatePhase.
Abbreviation is_terminal := CandidatePhase.is_terminal.
Export (hints) CandidatePhase.

Module ExecutionEligibility.
Inductive ExecutionEligibility : Set := NoKnownBlockers | Blocked.
#[export] Instance eligibility_eq_dec : EqDecision ExecutionEligibility.
Proof. solve_decision. Defined.
End ExecutionEligibility.
Abbreviation ExecutionEligibility := ExecutionEligibility.ExecutionEligibility.
Export (hints) ExecutionEligibility.

Module ExecutionGuard.
Inductive ExecutionGuard : Set := ExecutorAuthority | SchemaOwnerTransfer | RoleDropSafety.
#[export] Instance guard_eq_dec : EqDecision ExecutionGuard.
Proof. solve_decision. Defined.
End ExecutionGuard.
Abbreviation ExecutionGuard := ExecutionGuard.ExecutionGuard.
Export (hints) ExecutionGuard.

Record ExecutionBlocker := {
  guard : ExecutionGuard;
  blocker_code : string;
  blocker_message : string;
}.

Module ParentEvaluationState.
Inductive ParentEvaluationState : Set := Converged | ExecutionBlocked.
#[export] Instance parent_state_eq_dec : EqDecision ParentEvaluationState.
Proof. solve_decision. Defined.
End ParentEvaluationState.
Abbreviation ParentEvaluationState := ParentEvaluationState.ParentEvaluationState.
Export (hints) ParentEvaluationState.

Record CandidateExecutionPreflight := {
  eligibility : ExecutionEligibility;
  issues : list ExecutionBlocker;
  evaluated_at : string;
  parent_generation : option Z;
  parent_state : ParentEvaluationState;
}.

#[export] Instance blocker_eq_dec : EqDecision ExecutionBlocker.
Proof. solve_decision. Defined.
#[export] Instance preflight_eq_dec : EqDecision CandidateExecutionPreflight.
Proof. solve_decision. Defined.

Record CandidateStatus := {
  cs_phase : CandidatePhase;
  cs_content_digest : option string;
  cs_plan_ref : option string;
  cs_execution_preflight : option CandidateExecutionPreflight;
  cs_conditions : list PolicyCondition;
  cs_observed_generation : option Z;
}.

Definition default_candidate_status : CandidateStatus := {|
  cs_phase := CandidatePhase.Pending; cs_content_digest := None; cs_plan_ref := None;
  cs_execution_preflight := None; cs_conditions := []; cs_observed_generation := None |}.

(** The metadata the operator reads, the fields of the spec it consults, the digest of the
    proposed content, and the status. *)
Record Candidate := {
  cand_name : string;
  cand_uid : option string;
  resource_version : option string;
  cand_generation : option Z;
  cand_creation_timestamp : option Z;
  cand_labels : option (gmap string string);
  cand_owner_references : list OwnerReference;
  cand_policy_ref : string;
  cand_replaces : option string;
  content_digest : string;
  cand_status : option CandidateStatus;
}.

Definition candidate_phase (candidate : Candidate) : CandidatePhase :=
  default CandidatePhase.Pending (cs_phase <$> cand_status candidate).

(** ** Conditions *)

Definition condition_with (now type_ : string) (status : bool) (reason message : string)
    : PolicyCondition := {|
  condition_type := type_; condition_status := if status then "True" else "False";
  condition_reason := Some reason; condition_message := Some message;
  last_transition_time := Some now |}.

Definition ready_condition (now : string) := condition_with now "Ready".
Definition promoted_condition (now : string) := condition_with now "Promoted".
Definition superseded_condition (now reason message : string) :=
  condition_with now "Superseded" true reason message.

Definition set_condition_in (cs : list PolicyCondition) (new : PolicyCondition)
    : list PolicyCondition :=
  let others := filter (λ c, condition_type c ≠ condition_type new) cs in
  match list_find (λ c, condition_type c = condition_type new) cs with
  | Some (_, existing) =>
      if String.eqb (condition_status existing) (condition_status new)
      then others ++
        [{| condition_type := condition_type new; condition_status := condition_status new;
            condition_reason := condition_reason new; condition_message := condition_message new;
            last_transition_time := last_transition_time existing |}]
      else others ++ [new]
  | None => others ++ [new]
  end.

Definition with_condition (s : CandidateStatus) (c : PolicyCondition) : CandidateStatus := {|
  cs_phase := cs_phase s; cs_content_digest := cs_content_digest s;
  cs_plan_ref := cs_plan_ref s; cs_execution_preflight := cs_execution_preflight s;
  cs_conditions := set_condition_in (cs_conditions s) c;
  cs_observed_generation := cs_observed_generation s |}.

Definition with_outcome (s : CandidateStatus) (ph : CandidatePhase) (plan : option string)
    (preflight : option CandidateExecutionPreflight) : CandidateStatus := {|
  cs_phase := ph; cs_content_digest := cs_content_digest s; cs_plan_ref := plan;
  cs_execution_preflight := preflight; cs_conditions := cs_conditions s;
  cs_observed_generation := cs_observed_generation s |}.

(** ** The mutations *)

Module BlockCause.
Inductive BlockCause : Set := AwaitingDecision | Unstable | CandidateUnavailable.

Definition block_message (self : BlockCause) : string :=
  match self with
  | AwaitingDecision =>
      "the active policy has changes of its own awaiting a decision, so this candidate would be planned against a state the database is not in yet"
  | Unstable =>
      "the active policy is not converging, so there is no post-enforcement state to plan this candidate against"
  | CandidateUnavailable =>
      "this candidate could not be evaluated this pass, so its previous result is withdrawn; it is re-planned on the next reconcile"
  end.

Definition block_reason (self : BlockCause) : string :=
  match self with
  | AwaitingDecision | Unstable => "BlockedByActivePolicy"
  | CandidateUnavailable => "PlanningFailed"
  end.
End BlockCause.
Abbreviation BlockCause := BlockCause.BlockCause.

Record Evaluation := {
  ev_evaluated_at : string;
  ev_parent_generation : option Z;
  ev_parent_state : ParentEvaluationState;
}.

Definition preflight (self : Evaluation) (e : ExecutionEligibility) (l : list ExecutionBlocker)
    : CandidateExecutionPreflight := {|
  eligibility := e; issues := l; evaluated_at := ev_evaluated_at self;
  parent_generation := ev_parent_generation self; parent_state := ev_parent_state self |}.

Definition parent_note (self : Evaluation) : string :=
  match ev_parent_state self with
  | ParentEvaluationState.Converged => ""
  | ParentEvaluationState.ExecutionBlocked =>
      "; the active policy's own plan was refused before it executed, so this preview is computed against the unchanged database and promoting it replaces the blocked content"
  end.

Module CandidateOutcome.
Inductive CandidateOutcome : Set :=
  | Planned (plan_name : string) (changes : Z)
  | ExecutionBlocked (plan_name : string) (changes : Z) (message : string)
      (issues : list ExecutionBlocker)
  | NoEffects
  | OverlayOverlap (plan_name : string) (changes : Z) (overlapping : list string).
End CandidateOutcome.
Abbreviation CandidateOutcome := CandidateOutcome.CandidateOutcome.

Definition comma_joined (l : list string) : string :=
  match l with
  | [] => ""
  | s :: l => foldl (λ acc t, acc +:+ ", " +:+ t) s l
  end.

(** The closures handed to [write_status], which clears the preflight first. *)
Definition record_outcome (now : string) (outcome : CandidateOutcome) (evaluation : Evaluation)
    (s : CandidateStatus) : CandidateStatus :=
  let note := parent_note evaluation in
  match outcome with
  | CandidateOutcome.Planned plan changes =>
      with_condition
        (with_outcome s CandidatePhase.Planned (Some plan)
           (Some (preflight evaluation ExecutionEligibility.NoKnownBlockers [])))
        (ready_condition now true "Planned"
           ("Plan " +:+ plan +:+ " holds " +:+ pretty changes +:+
            " change(s) for review; execution preflight found no known blockers under the current parent settings (apply rechecks before execution)" +:+
            note))
  | CandidateOutcome.ExecutionBlocked plan changes message l =>
      with_condition
        (with_outcome s CandidatePhase.Planned (Some plan)
           (Some (preflight evaluation ExecutionEligibility.Blocked l)))
        (ready_condition now false "ExecutionBlocked"
           ("Plan " +:+ plan +:+ " holds " +:+ pretty changes +:+
            " change(s) for review; execution is blocked" +:+ note +:+ ":" +:+ NL +:+ message))
  | CandidateOutcome.NoEffects =>
      with_condition (with_outcome s CandidatePhase.Planned None None)
        (ready_condition now true "NoEffects"
           ("this candidate's content is already the database's state; nothing to review" +:+ note))
  | CandidateOutcome.OverlayOverlap plan changes overlapping =>
      with_condition
        (with_outcome s CandidatePhase.Planned (Some plan)
           (Some (preflight evaluation ExecutionEligibility.NoKnownBlockers [])))
        (ready_condition now false "OverlayOverlap"
           ("an active ephemeral grant touches " +:+ pretty (Z.of_nat (length overlapping)) +:+
            " of this candidate's effects (" +:+ comma_joined overlapping +:+ "); plan " +:+ plan +:+
            " holds " +:+ pretty changes +:+ " change(s) and requires fresh review"))
  end.

Definition DEFAULT_MAX_OPEN_CANDIDATES : nat := 32.

Definition mark_over_budget (now : string) (s : CandidateStatus) : CandidateStatus :=
  with_condition s (ready_condition now false "CandidateBudgetExceeded"
    ("this policy already has " +:+ pretty (N.of_nat DEFAULT_MAX_OPEN_CANDIDATES) +:+
     " open candidates being planned; this one is planned once older proposals are decided or expire")).

Definition set_blocked_condition (now : string) (cause : BlockCause) (s : CandidateStatus)
    : CandidateStatus :=
  with_condition s
    (ready_condition now false (BlockCause.block_reason cause) (BlockCause.block_message cause)).

(** The arm of [reconcile_candidates] for a failed planning. *)
Definition planning_failed (now message : string) (s : CandidateStatus) : CandidateStatus :=
  with_condition s (ready_condition now false "PlanningFailed" message).

Definition mark_superseded (now reason message : string) (s : CandidateStatus) : CandidateStatus :=
  with_condition
    (with_condition (with_outcome s CandidatePhase.Superseded (cs_plan_ref s) (cs_execution_preflight s))
       (superseded_condition now reason message))
    (ready_condition now false reason message).

Definition mark_promoted (now message : string) (s : CandidateStatus) : CandidateStatus :=
  with_condition
    (with_condition (with_outcome s CandidatePhase.Promoted (cs_plan_ref s) None)
       (promoted_condition now true "Promoted" message))
    (ready_condition now true "Promoted" message).

(** [set_candidate_condition] of [promotion.rs], as [report] calls it. *)
Definition report_promotion (now reason message : string) (s : CandidateStatus) : CandidateStatus :=
  with_condition s (promoted_condition now false reason message).

(** [adopt_candidate], its status write. *)
Definition stamp_identity (digest : string) (generation : option Z) (s : CandidateStatus)
    : CandidateStatus := {|
  cs_phase := cs_phase s; cs_content_digest := Some digest; cs_plan_ref := cs_plan_ref s;
  cs_execution_preflight := cs_execution_preflight s; cs_conditions := cs_conditions s;
  cs_observed_generation := generation |}.
