(* ===== verification/CandidateWrites.v ===== *)
(** * Writing a candidate's status ([candidate.rs] of the operator)

    The guarded write against an API server that other writers use at the same time, what
    it can land on, and the invariant of the statuses it leaves behind. *)

From S2P Require Import Prelude BTree RustStr Types Model Change Plan Approval PlanStatus PlanWrites CandidateStatus.

(** ** The guarded write *)

Definition with_candidate_status (c : Candidate) (s : CandidateStatus) (version : option string)
    : Candidate := {|
  cand_name := cand_name c; cand_uid := cand_uid c; resource_version := version;
  cand_generation := cand_generation c; cand_creation_timestamp := cand_creation_timestamp c;
  cand_labels := cand_labels c; cand_owner_references := cand_owner_references c;
  cand_policy_ref := cand_policy_ref c; cand_replaces := cand_replaces c;
  content_digest := content_digest c; cand_status := Some s |}.

(** The write clears the preflight of the status it mutates. *)
Definition clear_preflight (s : CandidateStatus) : CandidateStatus :=
  with_outcome s (cs_phase s) (cs_plan_ref s) None.

Definition mutated (mutate : CandidateStatus → CandidateStatus) (c : Candidate) : CandidateStatus :=
  mutate (clear_preflight (default default_candidate_status (cand_status c))).

(** What the call returns. *)
Inductive WriteResult : Set :=
  | Landed
  | Abandoned
  | Failed (e : ReconcileError).

(** Its result, the snapshot it leaves to its caller, the object on the server, and the
    writes that landed: the object written over and the status it got. *)
Record WriteRun := {
  wr_result : WriteResult;
  wr_snapshot : Candidate;
  wr_live : option Candidate;
  wr_landed : list (Candidate * CandidateStatus);
}.

Section server.
(** What the other writers make of the object before each call of this one, whether the
    server accepts a status, and the version it gives to an object it stores. *)
Context (others : nat → option Candidate → option Candidate)
  (accepts : CandidateStatus → bool) (next_version : Candidate → string).

(** The tests of [candidate_status_cas_patch] against the live object. *)
Definition cas_matches (candidate live : Candidate) : bool :=
  bool_decide (cand_uid live = cand_uid candidate) &&
  bool_decide (resource_version live = resource_version candidate).

Fixpoint write_attempts (attempts call : nat) (original_uid : option string) (candidate : Candidate)
    (mutate : CandidateStatus → CandidateStatus) (still_wanted : Candidate → bool)
    (live : option Candidate) : WriteRun :=
  let ended result snapshot live :=
    {| wr_result := result; wr_snapshot := snapshot; wr_live := live; wr_landed := [] |} in
  match attempts with
  | O =>
      ended (Failed (ReconcileError.InvalidSpec ("candidate " +:+ cand_name candidate +:+
        " status changed 3 times while being written; retrying from fresh state"))) candidate live
  | S attempts =>
      let status := mutated mutate candidate in
      if negb (bool_decide (is_Some (cand_uid candidate)))
      then ended (Failed (ReconcileError.InvalidSpec "persisted candidate UID required for status update")) candidate live
      else if negb (bool_decide (is_Some (resource_version candidate)))
      then ended (Failed (ReconcileError.InvalidSpec "persisted candidate resourceVersion required for status update"))
             candidate live
      else
        let live := others call live in
        match live with
        | None => ended (Failed (ReconcileError.Kube "not found")) candidate live
        | Some o =>
            if cas_matches candidate o && accepts status then
              let written := with_candidate_status o status (Some (next_version o)) in
              {| wr_result := Landed; wr_snapshot := written; wr_live := Some written;
                 wr_landed := [(o, status)] |}
            else
              let live := others (S call) live in
              match live with
              | None => ended Abandoned candidate live
              | Some fresh =>
                  if cas_matches candidate fresh
                  then ended (Failed (ReconcileError.Kube "invalid")) candidate live
                  else if negb (bool_decide (cand_uid fresh = original_uid)) || negb (still_wanted fresh)
                  then ended Abandoned fresh live
                  else write_attempts attempts (S (S call)) original_uid fresh mutate still_wanted live
              end
        end
  end.

Definition write_candidate_status (candidate : Candidate)
    (mutate : CandidateStatus → CandidateStatus) (still_wanted : Candidate → bool)
    (live : option Candidate) : WriteRun :=
  write_attempts 3 0 (cand_uid candidate) candidate mutate still_wanted live.

Definition write_status (candidate : Candidate) (mutate : CandidateStatus → CandidateStatus)
    (live : option Candidate) : WriteRun :=
  let snapshot_terminal := is_terminal (candidate_phase candidate) in
  write_candidate_status candidate mutate
    (λ fresh, snapshot_terminal || negb (is_terminal (candidate_phase fresh))) live.

(** *** What a write lands on

    A uid and a version name one state of an object, for every object the server holds. *)
Context (state_at : option string → option string → Candidate).
Definition identified (c : Candidate) : Prop := c = state_at (cand_uid c) (resource_version c).
Context (Hothers : ∀ n live o, (∀ o, live = Some o → identified o) → others n live = Some o → identified o).

Lemma cas_matches_same candidate o :
  identified candidate → identified o → cas_matches candidate o = true → o = candidate.
Proof.
  intros Hc Ho [Hu%bool_decide_eq_true Hv%bool_decide_eq_true]%andb_true_iff. by rw Ho Hc Hu Hv.
Qed.

Lemma write_attempts_landed attempts call candidate mutate still_wanted live o s :
  identified candidate → (∀ o, live = Some o → identified o) →
  (o, s) ∈ wr_landed (write_attempts attempts call (cand_uid candidate) candidate mutate still_wanted live) →
  s = mutated mutate o ∧ cand_uid o = cand_uid candidate ∧ (o = candidate ∨ still_wanted o = true).
Proof.
  revert call candidate live. induction attempts as [|attempts IH]; intros call candidate live Hc Hlive; cbn;
    [by intros ?%not_elem_of_nil|].
  destruct (negb _); [by intros ?%not_elem_of_nil|]. destruct (negb _); [by intros ?%not_elem_of_nil|].
  destruct (others call live) as [l|] eqn:Hl; [|by intros ?%not_elem_of_nil].
  assert (identified l) as Hil by by eapply Hothers.
  destruct (_ && _) eqn:Hcas.
  - apply andb_true_iff in Hcas as [Hcas _]. apply cas_matches_same in Hcas; [|done..]. subst l.
    cbn. intros [[= -> ->]|[]%not_elem_of_nil]%elem_of_cons. auto.
  - destruct (others (S call) (Some l)) as [fresh|] eqn:Hf; [|by intros ?%not_elem_of_nil].
    assert (identified fresh) as Hif.
    { eapply Hothers, Hf. by intros ? [= <-]. }
    destruct (cas_matches candidate fresh); [by intros ?%not_elem_of_nil|].
    destruct (_ || _) eqn:Hwant; [by intros ?%not_elem_of_nil|].
    apply orb_false_iff in Hwant as [Huid%negb_false_iff%bool_decide_eq_true Hw%negb_false_iff].
    rw -Huid. intros Hin. apply IH in Hin as (-> & Hu & Ho); [|done|by intros ? [= <-]].
    split; [done|]. split; [congruence|]. right. by destruct Ho as [-> |].
Qed.

Lemma write_attempts_once attempts call uid candidate mutate still_wanted live :
  length (wr_landed (write_attempts attempts call uid candidate mutate still_wanted live)) ≤ 1 ∧
  (wr_result (write_attempts attempts call uid candidate mutate still_wanted live) = Landed ↔
   wr_landed (write_attempts attempts call uid candidate mutate still_wanted live) ≠ []).
Proof.
  revert call candidate live. induction attempts as [|attempts IH]; intros call candidate live; cbn; [by split; [lia|]|].
  destruct (negb _); [by split; [cbn; lia|]|]. destruct (negb _); [by split; [cbn; lia|]|].
  destruct (others call live) as [l|]; [|by split; [cbn; lia|]].
  destruct (_ && _); [by split; [cbn; lia|]|].
  destruct (others (S call) (Some l)) as [fresh|]; [|by split; [cbn; lia|]].
  destruct (cas_matches candidate fresh); [by split; [cbn; lia|]|].
  destruct (_ || _); [by split; [cbn; lia|]|]. apply IH.
Qed.

Lemma write_status_landed candidate mutate live o s :
  identified candidate → (∀ o, live = Some o → identified o) →
  (o, s) ∈ wr_landed (write_status candidate mutate live) →
  s = mutated mutate o ∧ cand_uid o = cand_uid candidate ∧
  (is_terminal (candidate_phase candidate) = false → is_terminal (candidate_phase o) = false).
Proof.
  intros Hc Hlive Hin. apply write_attempts_landed in Hin as (-> & Hu & Ho); [|done..].
  split; [done|]. split; [done|]. intros Hn. destruct Ho as [-> |Ho]; [done|].
  rw Hn in Ho. by apply negb_true_iff in Ho.
Qed.
End server.

(** ** The life of a status *)

(** The mutations the operator makes of an open candidate. *)
Inductive operator_mutation : (CandidateStatus → CandidateStatus) → Prop :=
  | mutate_outcome now outcome evaluation : operator_mutation (record_outcome now outcome evaluation)
  | mutate_over_budget now : operator_mutation (mark_over_budget now)
  | mutate_blocked now cause : operator_mutation (set_blocked_condition now cause)
  | mutate_failed now message : operator_mutation (planning_failed now message)
  | mutate_superseded now reason message : operator_mutation (mark_superseded now reason message)
  | mutate_promoted now message : operator_mutation (mark_promoted now message)
  | mutate_report now reason message : operator_mutation (report_promotion now reason message).

(** One write.  Only the identity of the candidate is also stamped on a terminal one. *)
Inductive candidate_step : CandidateStatus → CandidateStatus → Prop :=
  | step_mutation f s :
      operator_mutation f → is_terminal (cs_phase s) = false → candidate_step s (f (clear_preflight s))
  | step_stamp digest generation s :
      candidate_step s (stamp_identity digest generation (clear_preflight s)).

(** The reason of a condition that holds. *)
Definition holds_with (cs : list PolicyCondition) (type_ reason : string) : Prop :=
  ∃ c, c ∈ cs ∧ condition_type c = type_ ∧ condition_reason c = Some reason.
Definition condition_true (cs : list PolicyCondition) (type_ : string) : Prop :=
  ∃ c, c ∈ cs ∧ condition_type c = type_ ∧ condition_status c = "True".

Record candidate_invariant (s : CandidateStatus) : Prop := {
  inv_conditions : NoDup (condition_type <$> cs_conditions s);
  inv_preflight p : cs_execution_preflight s = Some p →
    cs_phase s = CandidatePhase.Planned ∧ is_Some (cs_plan_ref s) ∧
    (eligibility p = ExecutionEligibility.Blocked ↔ holds_with (cs_conditions s) "Ready" "ExecutionBlocked");
  inv_promoted : cs_phase s = CandidatePhase.Promoted ↔ condition_true (cs_conditions s) "Promoted";
  inv_superseded : cs_phase s = CandidatePhase.Superseded ↔ condition_true (cs_conditions s) "Superseded";
}.

(** *** Conditions of a written list *)

Lemma set_condition_in_last cs new :
  ∃ t, set_condition_in cs new =
    filter (λ c, condition_type c ≠ condition_type new) cs ++
    [{| condition_type := condition_type new; condition_status := condition_status new;
        condition_reason := condition_reason new; condition_message := condition_message new;
        last_transition_time := t |}].
Proof.
  unfold set_condition_in. destruct (list_find _ cs) as [[i c]|]; [destruct (String.eqb _ _)|];
    [by eexists|exists (last_transition_time new)..]; by destruct new.
Qed.

Lemma set_condition_in_nodup cs new :
  NoDup (condition_type <$> cs) → NoDup (condition_type <$> set_condition_in cs new).
Proof.
  intros Hnd. destruct (set_condition_in_last cs new) as [t ->]. rw fmap_app NoDup_app. split_and!.
  - clear -Hnd. induction cs as [|c cs IH]; [constructor|]. apply NoDup_cons in Hnd as [Hc Hnd].
    rw filter_cons. case_decide; [|by apply IH]. rw fmap_cons. apply NoDup_cons. split; [|by apply IH].
    intros (c' & Heq & [_ Hin]%list_elem_of_filter)%list_elem_of_fmap. apply Hc. rw Heq. by apply list_elem_of_fmap_2.
  - intros x (c & Heq & [Hc _]%list_elem_of_filter)%list_elem_of_fmap [Hx|[]%not_elem_of_nil]%elem_of_cons.
    cbn in Hx. congruence.
  - apply NoDup_singleton.
Qed.

Lemma elem_of_set_condition cs new c :
  c ∈ set_condition_in cs new →
  (condition_type c ≠ condition_type new ∧ c ∈ cs) ∨
  (condition_type c = condition_type new ∧ condition_status c = condition_status new ∧
   condition_reason c = condition_reason new).
Proof.
  destruct (set_condition_in_last cs new) as [t ->].
  intros [[? ?]%list_elem_of_filter|[-> |[]%not_elem_of_nil]%elem_of_cons]%elem_of_app; auto.
Qed.

Lemma set_condition_keeps cs new c :
  c ∈ cs → condition_type c ≠ condition_type new → c ∈ set_condition_in cs new.
Proof.
  intros Hc Hne. destruct (set_condition_in_last cs new) as [t ->]. apply elem_of_app. left.
  by apply list_elem_of_filter.
Qed.

Lemma set_condition_true cs new type_ :
  condition_true (set_condition_in cs new) type_ ↔
  if decide (condition_type new = type_) then condition_status new = "True" else condition_true cs type_.
Proof.
  case_decide as Hty; split.
  - intros (c & Hc & Ht & Hs). apply elem_of_set_condition in Hc as [[? _]|(? & <- & _)]; [congruence|done].
  - intros Hs. destruct (set_condition_in_last cs new) as [t ->].
    eexists. split; [apply elem_of_app; right; by left|]. done.
  - intros (c & Hc & Ht & Hs). apply elem_of_set_condition in Hc as [[_ ?]|(? & _)]; [by exists c|congruence].
  - intros (c & Hc & Ht & Hs). exists c. split; [|done]. apply set_condition_keeps; [done|congruence].
Qed.

Lemma set_condition_holds cs new type_ reason :
  holds_with (set_condition_in cs new) type_ reason ↔
  if decide (condition_type new = type_) then condition_reason new = Some reason
  else holds_with cs type_ reason.
Proof.
  case_decide as Hty; split.
  - intros (c & Hc & Ht & Hs). apply elem_of_set_condition in Hc as [[? _]|(? & _ & <-)]; [congruence|done].
  - intros Hs. destruct (set_condition_in_last cs new) as [t ->].
    eexists. split; [apply elem_of_app; right; by left|]. done.
  - intros (c & Hc & Ht & Hs). apply elem_of_set_condition in Hc as [[_ ?]|(? & _)]; [by exists c|congruence].
  - intros (c & Hc & Ht & Hs). exists c. split; [|done]. apply set_condition_keeps; [done|congruence].
Qed.

(** *** The invariant *)

Lemma initial_invariant : candidate_invariant default_candidate_status.
Proof.
  split; [constructor|done|split; [done|by intros (?&?%not_elem_of_nil&_)]..].
Qed.

(** An open status, whose phase and preflight a mutation is about to set. *)
Record open_conditions (cs : list PolicyCondition) : Prop := {
  open_nodup : NoDup (condition_type <$> cs);
  open_promoted : ¬ condition_true cs "Promoted";
  open_superseded : ¬ condition_true cs "Superseded";
}.

Lemma open_status s :
  is_terminal (cs_phase s) = false → candidate_invariant s → open_conditions (cs_conditions s).
Proof.
  intros Hopen [Hnd _ Hpro Hsup]. split; [done|rw -Hpro|rw -Hsup]; by destruct (cs_phase s).
Qed.

Lemma ready_invariant s now ready reason message :
  is_terminal (cs_phase s) = false → open_conditions (cs_conditions s) →
  (∀ p, cs_execution_preflight s = Some p →
     cs_phase s = CandidatePhase.Planned ∧ is_Some (cs_plan_ref s) ∧
     (eligibility p = ExecutionEligibility.Blocked ↔ reason = "ExecutionBlocked")) →
  candidate_invariant (with_condition s (ready_condition now ready reason message)).
Proof.
  intros Hopen [Hnd Hp Hs] Hpre. split; cbn [with_condition cs_conditions cs_phase cs_execution_preflight cs_plan_ref].
  - by apply set_condition_in_nodup.
  - intros p Hpr. destruct (Hpre p Hpr) as (? & ? & ?). split_and!; [done..|].
    rw set_condition_holds. case_decide as Hty; [|by destruct Hty]. cbn. naive_solver.
  - rw set_condition_true. case_decide; [done|]. by destruct (cs_phase s).
  - rw set_condition_true. case_decide; [done|]. by destruct (cs_phase s).
Qed.

Lemma terminal_invariant s now type_ ph ready reason reason' message message' :
  type_ ≠ "Ready" → (ph, type_) ∈ [(CandidatePhase.Promoted, "Promoted"); (CandidatePhase.Superseded, "Superseded")] →
  open_conditions (cs_conditions s) →
  candidate_invariant
    (with_condition
       (with_condition (with_outcome s ph (cs_plan_ref s) None) (condition_with now type_ true reason message))
       (ready_condition now ready reason' message')).
Proof.
  intros Hty Hph [Hnd Hp Hs]. split; cbn [with_condition with_outcome cs_conditions cs_phase cs_execution_preflight].
  - by do 2 apply set_condition_in_nodup.
  - done.
  - rw set_condition_true. case_decide as Hr; [by cbn in Hr; congruence|]. rw set_condition_true /=.
    apply elem_of_cons in Hph as [[= -> ->]|[[= -> ->]|[]%not_elem_of_nil]%elem_of_cons]; case_decide; naive_solver.
  - rw set_condition_true. case_decide as Hr; [by cbn in Hr; congruence|]. rw set_condition_true /=.
    apply elem_of_cons in Hph as [[= -> ->]|[[= -> ->]|[]%not_elem_of_nil]%elem_of_cons]; case_decide; naive_solver.
Qed.

Lemma report_invariant s now reason message :
  is_terminal (cs_phase s) = false → open_conditions (cs_conditions s) → cs_execution_preflight s = None →
  candidate_invariant (report_promotion now reason message s).
Proof.
  intros Hopen [Hnd Hp Hs] Hpre. split; cbn [report_promotion with_condition cs_conditions cs_phase cs_execution_preflight].
  - by apply set_condition_in_nodup.
  - by rw Hpre.
  - rw set_condition_true. case_decide as Hty; [|by destruct Hty]. by destruct (cs_phase s).
  - rw set_condition_true. case_decide; [done|]. by destruct (cs_phase s).
Qed.

Lemma mutation_invariant f s :
  operator_mutation f → is_terminal (cs_phase s) = false →
  candidate_invariant s → candidate_invariant (f (clear_preflight s)).
Proof.
  intros Hf Hopen Hinv. apply open_status in Hinv as Hcs; [|done].
  destruct Hf as [now [plan changes|plan changes message l| |plan changes l] evaluation|now|now cause|now message
                 |now reason message|now message|now reason message].
  5-7: by apply ready_invariant.
  1-4: apply ready_invariant; [done..|]; by intros p [= <-].
  - apply (terminal_invariant (clear_preflight s)); [done|right; left|done].
  - apply (terminal_invariant (clear_preflight s)); [done|left|done].
  - by apply report_invariant.
Qed.

Lemma step_invariant s s' : candidate_step s s' → candidate_invariant s → candidate_invariant s'.
Proof.
  intros [f s0 Hf Ht|digest generation s0] Hinv; [by apply mutation_invariant|].
  destruct Hinv as [? _ ? ?]. by split.
Qed.

Lemma step_keeps_terminal s s' :
  candidate_step s s' → is_terminal (cs_phase s) = true →
  cs_phase s' = cs_phase s ∧ cs_conditions s' = cs_conditions s.
Proof. intros [f s0 Hf Ht|digest generation s0] Hterm; [congruence|done]. Qed.

Lemma steps_keep_terminal s s' :
  rtc candidate_step s s' → is_terminal (cs_phase s) = true →
  cs_phase s' = cs_phase s ∧ cs_conditions s' = cs_conditions s.
Proof.
  induction 1 as [|s t s' Hst _ IH]; intros Hterm; [done|].
  destruct (step_keeps_terminal s t Hst Hterm) as [Hp Hc]. rw -Hp -Hc. apply IH. by rw Hp.
Qed.

(** C23: every status a candidate reaches through the operator's writes has one condition
    per type; is Promoted exactly when it says [Promoted=True], and Superseded exactly when
    it says [Superseded=True]; holds a preflight only while planned with a plan, and the
    preflight is a refusal exactly when [Ready] says the execution is blocked. Once it is
    promoted or superseded, no later write changes its phase or conditions. *)
Theorem candidate_lifecycle (s s' : CandidateStatus) :
  rtc candidate_step default_candidate_status s → rtc candidate_step s s' →
  candidate_invariant s ∧
  (is_terminal (cs_phase s) = true →
     cs_phase s' = cs_phase s ∧ cs_conditions s' = cs_conditions s ∧ cs_execution_preflight s' = None).
Proof.
  intros Hs Hs'. assert (∀ t u, rtc candidate_step t u → candidate_invariant t → candidate_invariant u) as Hinv.
  { intros t u Htu. induction Htu as [|t u v Htu _ IH]; [done|]. intros Ht. by apply IH, (step_invariant t). }
  pose proof (Hinv _ _ Hs initial_invariant) as Hi. split; [done|]. intros Hterm.
  destruct (steps_keep_terminal s s' Hs' Hterm) as [Hp Hc]. split_and!; [done..|].
  destruct (cs_execution_preflight s') as [p|] eqn:Hpre; [|done].
  pose proof (inv_preflight _ (Hinv _ _ Hs' Hi) p Hpre) as (Hph & _). rw Hph in Hp. by rw -Hp in Hterm.
Qed.

(** C12: the guarded write is atomic. Whatever other writers do to the object between the
    calls, a status write of the operator lands at most once, and it lands as one step of
    the status that is live at that moment, on the object the operator read: never on a
    recreated one, and never on one that became terminal since. *)
Theorem candidate_write_is_atomic
    (others : nat → option Candidate → option Candidate) (accepts : CandidateStatus → bool)
    (next_version : Candidate → string) (state_at : option string → option string → Candidate)
    (f : CandidateStatus → CandidateStatus) (candidate : Candidate) (live : option Candidate) :
  let run := write_status others accepts next_version candidate f live in
  (∀ n live o, (∀ o, live = Some o → identified state_at o) → others n live = Some o → identified state_at o) →
  identified state_at candidate → (∀ o, live = Some o → identified state_at o) →
  operator_mutation f → is_terminal (candidate_phase candidate) = false →
  length (wr_landed run) ≤ 1 ∧ (wr_result run = Landed ↔ wr_landed run ≠ []) ∧
  ∀ o s, (o, s) ∈ wr_landed run →
    cand_uid o = cand_uid candidate ∧
    is_terminal (candidate_phase o) = false ∧
    candidate_step (default default_candidate_status (cand_status o)) s.
Proof.
  intros run Hothers Hc Hlive Hf Hopen. subst run. unfold write_status, write_candidate_status.
  edestruct write_attempts_once as [Hlen Hland]. split; [exact Hlen|]. split; [exact Hland|].
  intros o s Hin. eapply write_status_landed in Hin as (-> & Hu & Ho); [|done..].
  specialize (Ho Hopen). split_and!; [done..|]. apply step_mutation; [done|].
  unfold candidate_phase in Ho. by destruct (cand_status o).
Qed.
