(* ===== verification/Promotion.v ===== *)
(** * Promotion of candidates ([promotion.rs])

    What the content of a policy means given its candidates, the plan a reconcile adopts,
    and what is recorded once the content has been executed.  The objects of the namespace
    are a value [World]; a status write changes the object of that name as [CandidateWrites]
    proves the guarded write does, and the calls to the API server succeed.  Events are
    left out. *)

From S2P Require Import Prelude BTree RustStr Types Model Change Plan Approval PlanStatus PlanWrites PlanSql PlanCreation CandidateStatus CandidateWrites.

(** ** The decision *)

Record PlanFacts := {
  pf_name : string;
  pf_approved : bool;
  pf_base_content_digest : option string;
}.

Record CandidateFacts := {
  cf_name : string;
  cf_content_digest : option string;
  cf_terminal : bool;
  cf_plan : option PlanFacts;
  cf_owns_applied_plan : bool;
  cf_promoted : bool;
}.

Definition approved_plan (self : CandidateFacts) : option PlanFacts :=
  plan ← cf_plan self; if pf_approved plan then Some plan else None.

Module Promotion.
Inductive Promotion : Set :=
  | None
  | Approved (candidate plan : string) (superseded : list string)
  | WithoutApproval (candidate : string)
  | Mismatch (candidates : list string)
  | BaseChanged (candidates : list string).
End Promotion.
Abbreviation Promotion := Promotion.Promotion.

Definition digest_matches (digest : string) (candidate : CandidateFacts) : bool :=
  match cf_content_digest candidate with Some d => String.eqb d digest | None => false end.

Definition has_approved_plan (candidate : CandidateFacts) : bool :=
  bool_decide (is_Some (approved_plan candidate)).

Definition is_open (candidate : CandidateFacts) : bool := negb (cf_terminal candidate).

(** [matches]: the open candidates of this content. *)
Definition matches (digest : string) (candidates : list CandidateFacts) : list CandidateFacts :=
  filter (λ c, is_open c && digest_matches digest c) candidates.

Definition base_is_fresh (policy_digest : string) (previous_digest : option string) (plan : PlanFacts)
    : bool :=
  match pf_base_content_digest plan with
  | Some pin => bool_decide (previous_digest = Some pin) || bool_decide (previous_digest = Some policy_digest)
  | None => false
  end.

(** The candidate whose approval the promotion may use. *)
Definition authorises (policy_digest : string) (previous_digest : option string)
    (candidate : CandidateFacts) : bool :=
  match approved_plan candidate with
  | Some plan => base_is_fresh policy_digest previous_digest plan
  | None => false
  end.

Definition decide_promotion (policy_digest : string) (previous_digest : option string)
    (candidates : list CandidateFacts) : Promotion :=
  let open := filter (λ c, is_open c) candidates in
  let matching := matches policy_digest candidates in
  match find (authorises policy_digest previous_digest) matching with
  | Some matched =>
      Promotion.Approved (cf_name matched) (from_option pf_name "" (approved_plan matched))
        (cf_name <$> filter (λ c, cf_name c ≠ cf_name matched ∧ has_approved_plan c = true) open)
  | None =>
      let stale_approved := filter (λ c, has_approved_plan c) matching in
      if bool_decide (stale_approved ≠ []) then Promotion.BaseChanged (cf_name <$> stale_approved)
      else
        match matching with
        | matched :: _ => Promotion.WithoutApproval (cf_name matched)
        | [] =>
            let content_changed :=
              match previous_digest with
              | Some previous => negb (String.eqb previous policy_digest)
              | None => false
              end in
            let stranded := filter (λ c, has_approved_plan c) open in
            if content_changed && bool_decide (stranded ≠ [])
            then Promotion.Mismatch (cf_name <$> stranded)
            else Promotion.None
        end
  end.

Module PolicyMode.
Inductive PolicyMode : Set := Apply | Observe | Plan.
#[export] Instance policy_mode_eq_dec : EqDecision PolicyMode.
Proof. solve_decision. Defined.
Definition never_executes (self : PolicyMode) : bool :=
  match self with Observe | Plan => true | Apply => false end.
End PolicyMode.
Abbreviation PolicyMode := PolicyMode.PolicyMode.
Abbreviation never_executes := PolicyMode.never_executes.

Module ApprovalMode.
Inductive ApprovalMode : Set := Manual | Auto.
#[export] Instance approval_mode_eq_dec : EqDecision ApprovalMode.
Proof. solve_decision. Defined.
End ApprovalMode.
Abbreviation ApprovalMode := ApprovalMode.ApprovalMode.
Export (hints) ApprovalMode.

Definition effective_approval (approval : option ApprovalMode) (mode : PolicyMode) : ApprovalMode :=
  match approval with
  | Some mode => mode
  | None =>
      match mode with
      | PolicyMode.Apply => ApprovalMode.Auto
      | PolicyMode.Observe | PolicyMode.Plan => ApprovalMode.Manual
      end
  end.

Module PromotionAction.
Inductive PromotionAction : Set :=
  | Ignore
  | ExecuteApprovedPlan (candidate plan : string)
  | WithoutApproval (candidate : string)
  | Mismatch (candidates : list string) (enforcement_suspended : bool)
  | NotExecuted (candidate : string)
  | BaseChanged (candidates : list string) (enforcement_suspended : bool).
End PromotionAction.
Abbreviation PromotionAction := PromotionAction.PromotionAction.

Definition promotion_action (promotion : Promotion) (mode : PolicyMode) (approval : ApprovalMode)
    : PromotionAction :=
  let enforcement_suspended :=
    negb (never_executes mode) && bool_decide (approval = ApprovalMode.Manual) in
  match promotion with
  | Promotion.None => PromotionAction.Ignore
  | Promotion.Approved candidate plan _ =>
      if never_executes mode then PromotionAction.NotExecuted candidate
      else if bool_decide (approval = ApprovalMode.Auto) then PromotionAction.Ignore
      else PromotionAction.ExecuteApprovedPlan candidate plan
  | Promotion.WithoutApproval candidate =>
      if never_executes mode then PromotionAction.NotExecuted candidate
      else if bool_decide (approval = ApprovalMode.Auto) then PromotionAction.Ignore
      else PromotionAction.WithoutApproval candidate
  | Promotion.Mismatch candidates => PromotionAction.Mismatch candidates enforcement_suspended
  | Promotion.BaseChanged candidates => PromotionAction.BaseChanged candidates enforcement_suspended
  end.

Definition stranded_by_promotion (promoted applied_digest : string) (candidates : list CandidateFacts)
    : list string :=
  cf_name <$> filter (λ c,
    is_open c && negb (String.eqb (cf_name c) promoted) &&
    match approved_plan c with
    | Some plan => bool_decide (pf_base_content_digest plan ≠ Some applied_digest)
    | None => false
    end) candidates.

(** ** The objects the facts are read from *)

(** The policy: its name and uid, how it executes, and the content digest of its last
    reconcile. *)
Record Policy := {
  policy_name : string;
  policy_uid_of : option string;
  policy_mode : PolicyMode;
  policy_approval : option ApprovalMode;
}.

Record World := {
  w_candidates : list Candidate;
  w_plans : list PolicyPlan;
  w_content_digest : option string;
}.

(** [candidate_belongs_to] ([candidate.rs]) *)
Definition candidate_belongs_to (policy : Policy) (candidate : Candidate) : bool :=
  if negb (String.eqb (cand_policy_ref candidate) (policy_name policy)) then false
  else
    match find (λ o, default false (controller o)) (cand_owner_references candidate) with
    | Some owner => bool_decide (policy_uid_of policy = Some (owner_uid owner))
    | None => true
    end.

Definition plan_is_live (plan : PolicyPlan) : bool :=
  match status plan with Some s => is_actionable s | None => false end.

Definition owned_plans (plans : list PolicyPlan) (candidate : Candidate) : list PolicyPlan :=
  let uid := default "" (cand_uid candidate) in
  filter (λ p, negb (String.eqb uid "") && is_owned_by_uid p uid) plans.

Definition live_plan (plans : list PolicyPlan) (candidate : Candidate) : option PolicyPlan :=
  find plan_is_live (owned_plans plans candidate).

Definition facts_of (plans : list PolicyPlan) (candidate : Candidate) : CandidateFacts := {|
  cf_name := cand_name candidate;
  cf_content_digest := cand_status candidate ≫= cs_content_digest;
  cf_terminal := is_terminal (candidate_phase candidate);
  cf_plan :=
    (λ plan, {|
       pf_name := plan_name plan;
       pf_approved :=
         match check_plan_approval (status plan) with PlanApprovalState.Approved => true | _ => false end;
       pf_base_content_digest := plan_base_pin plan |}) <$> live_plan plans candidate;
  cf_owns_applied_plan :=
    existsb (λ p, match status p with Some s => is_phase PlanPhase.Applied s | None => false end)
      (owned_plans plans candidate);
  cf_promoted := bool_decide (cs_phase <$> cand_status candidate = Some CandidatePhase.Promoted) |}.

Record PromotionContext := {
  pc_candidates : list Candidate;
  pc_facts : list CandidateFacts;
  pc_plans : list (string * PolicyPlan);
}.

Definition load_context (policy : Policy) (w : World) : PromotionContext :=
  let candidates := filter (λ c, candidate_belongs_to policy c) (w_candidates w) in {|
  pc_candidates := candidates;
  pc_facts := facts_of (w_plans w) <$> candidates;
  pc_plans := omap (λ c, pair (cand_name c) <$> live_plan (w_plans w) c) candidates |}.

Definition candidate_named (self : PromotionContext) (name : string) : option Candidate :=
  find (λ c, String.eqb (cand_name c) name) (pc_candidates self).

Definition plan_of (self : PromotionContext) (candidate : string) : option PolicyPlan :=
  snd <$> find (λ p, String.eqb p.1 candidate) (pc_plans self).

(** ** Writes *)

Definition write_candidate (mutate : CandidateStatus → CandidateStatus) (name : string) (w : World)
    : World := {|
  w_candidates :=
    (λ c, if String.eqb (cand_name c) name
          then with_candidate_status c (mutated mutate c) (resource_version c) else c) <$> w_candidates w;
  w_plans := w_plans w; w_content_digest := w_content_digest w |}.

Definition supersede_plan (now : string) (cause : SupersedeCause) (plan : PolicyPlan) (w : World) : World := {|
  w_candidates := w_candidates w;
  w_plans := patch_status (w_plans w) (plan_name plan) (mark_plan_superseded now (status plan) cause);
  w_content_digest := w_content_digest w |}.

Definition stamp_content_digest (digest : string) (w : World) : World := {|
  w_candidates := w_candidates w; w_plans := w_plans w; w_content_digest := Some digest |}.

(** [report]: nothing is written for a candidate that is not of this policy. *)
Definition report (ctx : PromotionContext) (now reason message candidate : string) (w : World) : World :=
  match candidate_named ctx candidate with
  | Some _ => write_candidate (report_promotion now reason message) candidate w
  | None => w
  end.

(** ** Recognition *)

Definition without_approval_message (name : string) : string :=
  "this candidate's content was promoted into policy " +:+ name +:+
  " while its plan held no approval, so nothing executed on it; the policy falls back to its ordinary manual-plan flow, and this candidate becomes Promoted once that fresh plan is approved and applied".

Definition not_executed_message (name : string) : string :=
  "this candidate's content was promoted into policy " +:+ name +:+
  ", but that policy is in mode: observe and never executes; the candidate can only become Promoted once the policy is in mode: apply and the content is applied".

Definition mismatch_message (name : string) (enforcement_suspended : bool) : string :=
  "policy " +:+ name +:+
  " now carries content that is not this approved candidate — it was edited or rebased after approval — so the approval does not authorise it and nothing has executed." +:+
  (if enforcement_suspended
   then " The merged spec is now the desired state and is NOT being enforced: drift against either state goes unreconciled until a fresh plan is approved. Approve the policy's new plan, or file a successor candidate for the content that was actually merged."
   else "").

Definition base_changed_message (name : string) (enforcement_suspended : bool) : string :=
  "policy " +:+ name +:+
  " carries exactly this candidate's content, but the plan's approval was reviewed against a base the policy no longer has — other content was promoted or applied in between — so the approval does not authorise this merge and nothing has executed on it. The candidate's plan is being replaced by one computed against the current base; approve that fresh plan." +:+
  (if enforcement_suspended
   then " Until then the merged spec is the desired state and is NOT being enforced." else "").

(** The plan the reconcile adopts, and the reports on candidates. *)
Definition act (ctx : PromotionContext) (now name : string) (action : PromotionAction) (w : World)
    : option PolicyPlan * World :=
  match action with
  | PromotionAction.Ignore => (None, w)
  | PromotionAction.ExecuteApprovedPlan candidate plan =>
      (p ← plan_of ctx candidate; if String.eqb (plan_name p) plan then Some p else None, w)
  | PromotionAction.WithoutApproval candidate =>
      (None, report ctx now "PromotedWithoutApproval" (without_approval_message name) candidate w)
  | PromotionAction.NotExecuted candidate =>
      (None, report ctx now "PromotionNotExecuted" (not_executed_message name) candidate w)
  | PromotionAction.Mismatch candidates suspended =>
      (None, foldl (λ w c, report ctx now "PromotionDigestMismatch" (mismatch_message name suspended) c w)
               w candidates)
  | PromotionAction.BaseChanged candidates suspended =>
      (None, foldl (λ w c, report ctx now "PromotionBaseChanged" (base_changed_message name suspended) c w)
               w candidates)
  end.

Definition recognize (now : string) (policy : Policy) (digest : string) (w : World)
    : option PolicyPlan * World :=
  let ctx := load_context policy w in
  let previous := w_content_digest w in
  let promotion := decide_promotion digest previous (pc_facts ctx) in
  let action := promotion_action promotion (policy_mode policy)
                  (effective_approval (policy_approval policy) (policy_mode policy)) in
  let '(plan, w) := act ctx now (policy_name policy) action w in
  (plan, if bool_decide (previous = Some digest) then w else stamp_content_digest digest w).

(** ** Bookkeeping *)

Definition select_promoted (facts : list CandidateFacts) (digest : string) : option CandidateFacts :=
  let matching := matches digest facts in
  match find cf_owns_applied_plan matching with
  | Some c => Some c
  | None =>
      match find has_approved_plan matching with
      | Some c => Some c
      | None => head matching
      end
  end.

(** [mark_superseded] returns early on a candidate that is superseded already. *)
Definition supersede_candidate (now reason message name : string) (w : World) : World :=
  {| w_candidates :=
       (λ c, if String.eqb (cand_name c) name
             then if bool_decide (candidate_phase c = CandidatePhase.Superseded) then c
                  else with_candidate_status c (mutated (mark_superseded now reason message) c) (resource_version c)
             else c) <$> w_candidates w;
     w_plans := w_plans w; w_content_digest := w_content_digest w |}.

Definition duplicate_message (promoted : string) : string :=
  "identical content was promoted and applied through candidate " +:+ promoted +:+
  ";                  this duplicate proposal is spent".

Definition retire_duplicate (ctx : PromotionContext) (now promoted : string) (w : World) (duplicate : string)
    : World :=
  let w := match plan_of ctx duplicate with
           | Some plan => supersede_plan now SupersedeCause.SupersededByPromotion plan w
           | None => w
           end in
  match candidate_named ctx duplicate with
  | Some _ => supersede_candidate now "SupersededByPromotion" (duplicate_message promoted) duplicate w
  | None => w
  end.

Definition stranded_message (promoted plan : string) : string :=
  "candidate " +:+ promoted +:+ " was promoted and applied, so plan " +:+ plan +:+
  " — approved against the previous base — can never execute; file a successor candidate to propose this change against the new base".

Definition retire_stranded (ctx : PromotionContext) (now promoted : string) (w : World) (stranded : string)
    : World :=
  match plan_of ctx stranded with
  | None => w
  | Some plan =>
      let w := supersede_plan now SupersedeCause.SupersededByPromotion plan w in
      report ctx now "SupersededByPromotion" (stranded_message promoted (plan_name plan)) stranded w
  end.

Definition promoted_message (policy : string) (plan : option PolicyPlan) : string :=
  "content promoted into policy " +:+ policy +:+ " and applied" +:+
  match plan with Some plan => " (plan " +:+ plan_name plan +:+ ")" | None => "" end.

Definition record_promotion (now : string) (policy : Policy) (digest : string) (w : World) : World :=
  let ctx := load_context policy w in
  let facts := pc_facts ctx in
  let already := cf_name <$> find (λ c, cf_promoted c && digest_matches digest c) facts in
  match match already with Some name => Some name | None => cf_name <$> select_promoted facts digest end with
  | None => w
  | Some promoted =>
      let duplicates :=
        cf_name <$> filter (λ c, is_open c && negb (String.eqb (cf_name c) promoted) && digest_matches digest c)
                      facts in
      let stranded :=
        filter (λ n, n ∉ duplicates) (stranded_by_promotion promoted digest facts) in
      let w := foldl (retire_duplicate ctx now promoted) w duplicates in
      let w := foldl (retire_stranded ctx now promoted) w stranded in
      if bool_decide (is_Some already) then w
      else
        match candidate_named ctx promoted with
        | None => w
        | Some _ =>
            write_candidate
              (mark_promoted now (promoted_message (policy_name policy) (plan_of ctx promoted))) promoted w
        end
  end.
