(* ===== verification/PromotionFacts.v ===== *)
(** * What promotion guarantees

    The plan a reconcile adopts is authorised, what the base check is worth, and what the
    bookkeeping leaves behind. *)

From S2P Require Import Prelude BTree RustStr Types Model Change Plan Approval PlanStatus PlanWrites PlanSql PlanCreation PlanCreationFacts PlanExecution PlanExecutionFacts CandidateStatus CandidateWrites Promotion.

(** ** The decision *)

Lemma find_first {A} (p : A → bool) (l : list A) x : find p l = Some x → x ∈ l ∧ p x = true.
Proof. intros [Hin Hp]%find_some. split; [by apply list_elem_of_In|done]. Qed.

Lemma find_exists {A} (p : A → bool) (l : list A) x : x ∈ l → p x = true → is_Some (find p l).
Proof.
  intros Hin Hp. destruct (find p l) eqn:Hf; [by eexists|]. apply list_elem_of_In in Hin.
  by rw (find_none _ _ Hf x Hin) in Hp.
Qed.

Lemma elem_of_matches digest facts c :
  c ∈ matches digest facts ↔ c ∈ facts ∧ cf_terminal c = false ∧ cf_content_digest c = Some digest.
Proof.
  unfold matches, is_open, digest_matches. rw list_elem_of_filter Is_true_true andb_true_iff negb_true_iff.
  assert (match cf_content_digest c with Some d => String.eqb d digest | None => false end = true ↔
    cf_content_digest c = Some digest) as ->; [|tauto].
  destruct (cf_content_digest c) as [d|]; [|done]. rw String.eqb_eq. split; [by intros ->|by intros [= ->]].
Qed.

Lemma approved_plan_spec c plan :
  approved_plan c = Some plan ↔ cf_plan c = Some plan ∧ pf_approved plan = true.
Proof.
  unfold approved_plan. destruct (cf_plan c) as [p|]; cbn; [|by split; [|intros [? _]]].
  destruct (pf_approved p) eqn:Hp; (split; [intros [= <-]|intros [[= <-] ?]]); [done..|congruence].
Qed.

Lemma authorises_spec digest previous c :
  authorises digest previous c = true ↔
  ∃ plan pin, approved_plan c = Some plan ∧ pf_base_content_digest plan = Some pin ∧
    (previous = Some pin ∨ previous = Some digest).
Proof.
  unfold authorises, base_is_fresh. destruct (approved_plan c) as [plan|]; [|by split; [|intros (?&?&?&_)]].
  destruct (pf_base_content_digest plan) as [pin|] eqn:Hpin.
  - rw orb_true_iff !bool_decide_eq_true. split; [intros ?; by exists plan, pin|].
    intros (p & pin' & [= <-] & Hp & ?). congruence.
  - split; [done|]. intros (p & pin & [= <-] & Hp & _). congruence.
Qed.

Lemma decided_approved digest previous facts candidate plan superseded :
  decide_promotion digest previous facts = Promotion.Approved candidate plan superseded →
  ∃ c p, c ∈ matches digest facts ∧ authorises digest previous c = true ∧
    approved_plan c = Some p ∧ cf_name c = candidate ∧ pf_name p = plan.
Proof.
  unfold decide_promotion. destruct (find _ _) as [c|] eqn:Hf.
  - intros [= <- <- _]. apply find_first in Hf as [Hin Ha]. apply authorises_spec in Ha as Ha'.
    destruct Ha' as (p & pin & Hp & _). exists c, p. by rw Hp.
  - case_bool_decide; [done|]. destruct (matches _ _); [|done]. by destruct (_ && _).
Qed.

(** ** The facts *)

Lemma elem_of_facts policy w c :
  c ∈ pc_facts (load_context policy w) ↔
  ∃ o, o ∈ w_candidates w ∧ candidate_belongs_to policy o = true ∧ c = facts_of (w_plans w) o.
Proof.
  cbn. rw list_elem_of_fmap. split.
  - intros (o & -> & [Hb%Is_true_true Ho]%list_elem_of_filter). eauto.
  - intros (o & Ho & Hb & ->). exists o. split; [done|]. apply list_elem_of_filter. by rw Hb.
Qed.

Lemma elem_of_owned plans candidate p :
  p ∈ owned_plans plans candidate ↔
  p ∈ plans ∧ ∃ uid, cand_uid candidate = Some uid ∧ uid ≠ "" ∧ is_owned_by_uid p uid = true.
Proof.
  unfold owned_plans. rw list_elem_of_filter. destruct (cand_uid candidate) as [uid|]; cbn [default from_option].
  - rw Is_true_true andb_true_iff negb_true_iff String.eqb_neq. split.
    + intros [[? ?] ?]. split; [done|]. by exists uid.
    + by intros (? & ? & [= <-] & ? & ?).
  - cbn. split; [by intros [[] _]|by intros (_ & ? & ? & _)].
Qed.

Lemma live_plan_spec plans candidate p :
  live_plan plans candidate = Some p → p ∈ owned_plans plans candidate ∧ plan_is_live p = true.
Proof. apply find_first. Qed.

(** The plan of a candidate is found under its name. *)
Lemma plan_of_named policy w o :
  NoDup (cand_name <$> w_candidates w) → o ∈ w_candidates w → candidate_belongs_to policy o = true →
  plan_of (load_context policy w) (cand_name o) = live_plan (w_plans w) o.
Proof.
  intros Hnd Ho Hb. unfold plan_of. cbn [pc_plans load_context].
  induction (w_candidates w) as [|c cs IH]; [by apply not_elem_of_nil in Ho|].
  rw fmap_cons in Hnd. apply NoDup_cons in Hnd as [Hc Hnd]. rw filter_cons.
  apply elem_of_cons in Ho as [-> |Ho].
  - rw decide_True; [|by rw Hb]. cbn [omap list_omap]. destruct (live_plan (w_plans w) c) as [p|]; cbn.
    { by rw String.eqb_refl. }
    destruct (find _ _) as [[n p]|] eqn:Hf; [|done]. apply find_first in Hf as [Hin Hn%String.eqb_eq]. cbn in Hn. subst n.
    apply list_elem_of_omap in Hin as (o & [_ Ho]%list_elem_of_filter & Hp). exfalso. apply Hc.
    destruct (live_plan (w_plans w) o); [|done]. injection Hp as <- _. by apply list_elem_of_fmap_2.
  - assert (cand_name c ≠ cand_name o) as Hne.
    { intros Heq. apply Hc. rw Heq. by apply list_elem_of_fmap_2. }
    case_decide; [|by apply IH]. cbn [omap list_omap]. destruct (live_plan (w_plans w) c) as [p|]; cbn; [|by apply IH].
    apply String.eqb_neq in Hne. rw Hne. by apply IH.
Qed.

(** ** Adopting a plan *)

(** What a plan needs to be adopted. *)
Definition adoptable (policy : Policy) (digest : string) (w : World) (plan : PolicyPlan) : Prop :=
  ∃ candidate uid pin,
    candidate ∈ w_candidates w ∧ candidate_belongs_to policy candidate = true ∧
    is_terminal (candidate_phase candidate) = false ∧
    cand_status candidate ≫= cs_content_digest = Some digest ∧
    plan ∈ w_plans w ∧ cand_uid candidate = Some uid ∧ is_owned_by_uid plan uid = true ∧
    plan_is_live plan = true ∧ check_plan_approval (status plan) = PlanApprovalState.Approved ∧
    plan_base_pin plan = Some pin ∧ (w_content_digest w = Some pin ∨ w_content_digest w = Some digest).

Lemma approved_facts plans o p :
  approved_plan (facts_of plans o) = Some p →
  ∃ plan, live_plan plans o = Some plan ∧ pf_name p = plan_name plan ∧
    pf_base_content_digest p = plan_base_pin plan ∧
    check_plan_approval (status plan) = PlanApprovalState.Approved.
Proof.
  rw approved_plan_spec /=. intros [Hp Ha]. destruct (live_plan plans o) as [plan|]; [|done].
  injection Hp as <-. exists plan. cbn in *. split_and!; [done..|]. by destruct (check_plan_approval _).
Qed.

(** The candidate a recognised plan comes from. *)
Lemma recognized_candidate now policy digest w plan w' :
  NoDup (cand_name <$> w_candidates w) →
  recognize now policy digest w = (Some plan, w') →
  policy_mode policy = PolicyMode.Apply ∧
  effective_approval (policy_approval policy) (policy_mode policy) = ApprovalMode.Manual ∧
  ∃ o p, o ∈ w_candidates w ∧ candidate_belongs_to policy o = true ∧
    facts_of (w_plans w) o ∈ matches digest (pc_facts (load_context policy w)) ∧
    authorises digest (w_content_digest w) (facts_of (w_plans w) o) = true ∧
    approved_plan (facts_of (w_plans w) o) = Some p ∧ live_plan (w_plans w) o = Some plan ∧
    pf_base_content_digest p = plan_base_pin plan ∧
    check_plan_approval (status plan) = PlanApprovalState.Approved.
Proof.
  intros Hnd. unfold recognize.
  destruct (decide_promotion _ _ _) as [|candidate name superseded|candidate|l|l] eqn:Hd;
    unfold promotion_action; [done| |..].
  2: by destruct (never_executes _), (bool_decide _).
  2-3: done.
  destruct (never_executes (policy_mode policy)) eqn:Hmode; [done|].
  case_bool_decide as Happr; [done|]. cbn [act].
  apply decided_approved in Hd as (c & p & Hin & Hauth & Hp & <- & <-).
  apply elem_of_matches in Hin as Hc. destruct Hc as (Hc & _ & _).
  apply elem_of_facts in Hc as (o & Ho & Hb & ->).
  apply approved_facts in Hp as Hplan. destruct Hplan as (plan' & Hlive & Hname & Hpin & Happ).
  cbn [cf_name facts_of]. rw (plan_of_named policy w o) // Hlive Hname. cbn. rw String.eqb_refl.
  intros [= <- <-]. split_and!; [by destruct (policy_mode policy)|by destruct (effective_approval _ _)|].
  by exists o, p.
Qed.

Lemma recognized_adoptable now policy digest w plan w' :
  NoDup (cand_name <$> w_candidates w) →
  recognize now policy digest w = (Some plan, w') →
  policy_mode policy = PolicyMode.Apply ∧
  effective_approval (policy_approval policy) (policy_mode policy) = ApprovalMode.Manual ∧
  adoptable policy digest w plan.
Proof.
  intros Hnd Hrec.
  apply recognized_candidate in Hrec as (Hm & Ha & o & p & Ho & Hb & Hin & Hauth & Hp & Hlive & Hpin & Happ); [|done].
  split_and!; [done..|]. apply elem_of_matches in Hin as (_ & Hopen & Hdig).
  apply authorises_spec in Hauth as (p' & pin & Hp' & Hpin' & Hbase). rw Hp in Hp'. injection Hp' as <-.
  apply live_plan_spec in Hlive as [(Hplans & uid & Huid & _ & Howned)%elem_of_owned Hlive].
  exists o, uid, pin. split_and!; try done. by rw -Hpin.
Qed.

(** C3: a promoted plan executes only what was reviewed. When a reconcile adopts a
    candidate's plan and starts its transaction, the policy applies with manual approval;
    the plan is live, of an open candidate of this very policy whose content digest is the
    policy's; a reviewer approved it and nobody denied it; its digest is that of the
    effects the policy would produce now, on the database it was approved for; and it is
    pinned to the base recorded last, or the content was already the recorded one. *)
Theorem promoted_execution_is_authorised (now : string) (policy : Policy) (digest : string)
    (w w' : World) (plan : PolicyPlan)
    (parse_ts : string → option Z) (source_digest : gmap string string → string) (r : Reconcile) :
  NoDup (cand_name <$> w_candidates w) →
  recognize now policy digest w = (Some plan, w') →
  transaction_started (reconcile_manual parse_ts source_digest r plan) = true →
  policy_mode policy = PolicyMode.Apply ∧
  effective_approval (policy_approval policy) (policy_mode policy) = ApprovalMode.Manual ∧
  adoptable policy digest w plan ∧
  ∃ s, status plan = Some s ∧ "Denied" ∉ decision_types s ∧
    plan_matches_digest s (fresh_digest r) = true ∧ plan_target_identity s = observed_identity r.
Proof.
  intros Hnd Hrec Hrun. apply recognized_adoptable in Hrec as (Hm & Ha & Had); [|done].
  split_and!; [done..|]. destruct Had as (_ & _ & _ & _ & _ & _ & _ & _ & _ & _ & Hlive & _).
  unfold plan_is_live in Hlive. destruct (status plan) as [s|] eqn:Hs; [|done].
  apply (manual_started _ _ r plan s Hs) in Hrun as ((_ & Hd) & (? & ? & _) & _). eauto.
Qed.

(** ** Writes that leave the facts as they are *)

(** A write of candidates that keeps what identifies them. *)
Definition keeps_identity (g : Candidate → Candidate) : Prop := ∀ c,
  cand_name (g c) = cand_name c ∧ cand_uid (g c) = cand_uid c ∧
  cand_policy_ref (g c) = cand_policy_ref c ∧ cand_owner_references (g c) = cand_owner_references c.

Lemma belongs_after g policy c :
  keeps_identity g → candidate_belongs_to policy (g c) = candidate_belongs_to policy c.
Proof. intros Hg. destruct (Hg c) as (_ & _ & Hr & Ho). unfold candidate_belongs_to. by rw Hr Ho. Qed.

Lemma filter_fmap_same {A} (P : A → Prop) `{∀ x, Decision (P x)} (g : A → A) (l : list A) :
  (∀ x, P (g x) ↔ P x) → filter P (g <$> l) = g <$> filter P l.
Proof.
  intros Hg. induction l as [|x l IH]; [done|]. rw fmap_cons !filter_cons IH.
  destruct (decide (P x)) as [Hx|Hx].
  - rw decide_True; [done|by apply Hg].
  - rw decide_False; [done|by rw Hg].
Qed.

Lemma belonging_after g policy (cs : list Candidate) :
  keeps_identity g →
  filter (λ c, candidate_belongs_to policy c) (g <$> cs) = g <$> filter (λ c, candidate_belongs_to policy c) cs.
Proof. intros Hg. apply filter_fmap_same. intros c. by rw belongs_after. Qed.

Definition written (mutate : CandidateStatus → CandidateStatus) (name : string) (c : Candidate) : Candidate :=
  if String.eqb (cand_name c) name
  then with_candidate_status c (mutated mutate c) (resource_version c) else c.

Lemma written_identity mutate name : keeps_identity (written mutate name).
Proof. intros c. unfold written. by destruct (String.eqb _ _). Qed.

(** A mutation of the conditions alone. *)
Definition neutral (mutate : CandidateStatus → CandidateStatus) : Prop := ∀ s,
  cs_phase (mutate s) = cs_phase s ∧ cs_content_digest (mutate s) = cs_content_digest s.

Lemma written_facts mutate name plans c :
  neutral mutate → facts_of plans (written mutate name c) = facts_of plans c.
Proof.
  intros Hm. unfold written. destruct (String.eqb _ _); [|done]. unfold facts_of, candidate_phase.
  cbn [with_candidate_status cand_name cand_status fmap option_fmap option_map].
  destruct (Hm (clear_preflight (default default_candidate_status (cand_status c)))) as [Hp Hd].
  unfold mutated. rw Hp. f_equal.
  - cbn [mbind option_bind]. rw Hd. by destruct (cand_status c).
  - by destruct (cand_status c).
  - by destruct (cand_status c).
Qed.

Lemma report_neutral now reason message : neutral (report_promotion now reason message).
Proof. done. Qed.

Lemma report_facts ctx now reason message candidate policy w :
  pc_facts (load_context policy (report ctx now reason message candidate w)) = pc_facts (load_context policy w).
Proof.
  unfold report. destruct (candidate_named _ _); [|done]. cbn [load_context pc_facts write_candidate w_candidates w_plans].
  change (pc_facts _) with (facts_of (w_plans w) <$> filter (λ c, candidate_belongs_to policy c) (written (report_promotion now reason message) candidate <$> w_candidates w)).
  rw belonging_after; [|apply written_identity]. rw -list_fmap_compose. apply list_fmap_ext. intros _ o _.
  apply written_facts, report_neutral.
Qed.

Lemma report_world ctx now reason message candidate w :
  let w' := report ctx now reason message candidate w in
  w_plans w' = w_plans w ∧ w_content_digest w' = w_content_digest w ∧
  cand_name <$> w_candidates w' = cand_name <$> w_candidates w.
Proof.
  unfold report. destruct (candidate_named _ _); [|done]. cbn. split_and!; [done..|].
  rw -list_fmap_compose. apply list_fmap_ext. intros _ o _. cbn. by destruct (String.eqb _ _).
Qed.

Lemma reports_world ctx now reason message policy candidates w :
  let w' := foldl (λ w c, report ctx now reason message c w) w candidates in
  w_plans w' = w_plans w ∧ w_content_digest w' = w_content_digest w ∧
  cand_name <$> w_candidates w' = cand_name <$> w_candidates w ∧
  pc_facts (load_context policy w') = pc_facts (load_context policy w).
Proof.
  revert w. induction candidates as [|c cs IH]; intros w; [done|]. cbn [foldl].
  destruct (IH (report ctx now reason message c w)) as (-> & -> & -> & ->).
  destruct (report_world ctx now reason message c w) as (-> & -> & ->). by rw report_facts.
Qed.

(** ** The base check *)

Lemma decided_base_changed digest previous facts cs :
  decide_promotion digest previous facts = Promotion.BaseChanged cs →
  (∀ c, c ∈ matches digest facts → authorises digest previous c = false) ∧
  ∃ c, c ∈ matches digest facts ∧ has_approved_plan c = true.
Proof.
  unfold decide_promotion. destruct (find _ _) as [c|] eqn:Hf; [done|].
  case_bool_decide as Hstale; [|by destruct (matches _ _); [destruct (_ && _)|]]. intros _. split.
  - intros c Hc. apply (find_none _ _ Hf). by apply list_elem_of_In.
  - destruct (filter _ _) as [|c l] eqn:Hfil; [done|]. exists c.
    assert (c ∈ filter (λ c, has_approved_plan c) (matches digest facts)) as [Ha%Is_true_true Hin]%list_elem_of_filter
      by (rw Hfil; left). done.
Qed.

Lemma recorded_content_adopted digest facts c plan pin :
  c ∈ matches digest facts → approved_plan c = Some plan → pf_base_content_digest plan = Some pin →
  ∃ candidate name l, decide_promotion digest (Some digest) facts = Promotion.Approved candidate name l.
Proof.
  intros Hc Hp Hpin. unfold decide_promotion.
  destruct (find_exists (authorises digest (Some digest)) _ c Hc) as [c' ->]; [|by do 3 eexists].
  apply authorises_spec. exists plan, pin. auto.
Qed.

(** the base check holds for one reconcile. When the content of a policy is that of a
    candidate whose approval was given against another base, the first reconcile refuses
    the approval and reports it, but records the content; so the next one, nothing else
    having changed, adopts a plan all the same, of an approval pinned to a base the policy
    did not carry when the content arrived. *)
Theorem base_check_lapses (now now' : string) (policy : Policy) (digest : string) (w : World)
    (stale : list string) (candidate : CandidateFacts) (approval : PlanFacts) (pin : string) :
  NoDup (cand_name <$> w_candidates w) →
  policy_mode policy = PolicyMode.Apply → policy_approval policy = Some ApprovalMode.Manual →
  decide_promotion digest (w_content_digest w) (pc_facts (load_context policy w)) = Promotion.BaseChanged stale →
  candidate ∈ matches digest (pc_facts (load_context policy w)) →
  approved_plan candidate = Some approval → pf_base_content_digest approval = Some pin →
  let '(first, w1) := recognize now policy digest w in
  let '(second, _) := recognize now' policy digest w1 in
  first = None ∧
  ∃ plan base, second = Some plan ∧ plan ∈ w_plans w ∧
    check_plan_approval (status plan) = PlanApprovalState.Approved ∧
    plan_base_pin plan = Some base ∧ w_content_digest w ≠ Some base.
Proof.
  intros Hnd Hmode Happr Hdec Hin Hp Hpin.
  destruct (decided_base_changed _ _ _ _ Hdec) as [Hfresh _].
  assert (w_content_digest w ≠ Some digest) as Hnew.
  { intros Heq. specialize (Hfresh candidate Hin). apply not_true_iff_false in Hfresh.
    apply Hfresh, authorises_spec. exists approval, pin. auto. }
  unfold recognize at 1. rw Hdec Hmode Happr. cbn [promotion_action effective_approval never_executes negb andb act].
  rw bool_decide_false //.
  match goal with |- context [foldl ?f w stale] => set (reported := foldl f w stale) end.
  pose proof (reports_world (load_context policy w) now "PromotionBaseChanged"
    (base_changed_message (policy_name policy) (bool_decide (ApprovalMode.Manual = ApprovalMode.Manual))) policy stale w)
    as (Hplans & Hdig & Hnames & Hfacts). fold reported in Hplans, Hdig, Hnames, Hfacts.
  set (w1 := stamp_content_digest digest reported).
  assert (pc_facts (load_context policy w1) = pc_facts (load_context policy w)) as Hfacts1 by exact Hfacts.
  destruct (recorded_content_adopted digest _ candidate approval pin Hin Hp Hpin) as (name & pname & l & Hd2).
  destruct (recognize now' policy digest w1) as [second w2] eqn:Hrec. split; [done|].
  assert (∃ plan, second = Some plan) as [plan ->].
  { unfold recognize in Hrec. rw Hfacts1 in Hrec. change (w_content_digest w1) with (Some digest) in Hrec.
    rw Hd2 Hmode Happr in Hrec. cbn [promotion_action effective_approval never_executes] in Hrec.
    rw bool_decide_false // in Hrec. cbn [act] in Hrec.
    apply decided_approved in Hd2 as (c & p & Hc & _ & Hcp & <- & <-).
    apply elem_of_matches in Hc as (Hc & _). rw -Hfacts1 in Hc. apply elem_of_facts in Hc as (o & Ho & Hb & ->).
    apply approved_facts in Hcp as (plan & Hlive & Hname & _). cbn [cf_name facts_of] in Hrec.
    rw (plan_of_named policy w1 o) // in Hrec; [|by rw -Hnames in Hnd].
    rw Hlive Hname in Hrec. cbn in Hrec. rw String.eqb_refl in Hrec. injection Hrec as <- _. by eexists. }
  apply recognized_candidate in Hrec as (_ & _ & o & p & _ & _ & Hc & Hauth & Hap & Hlive & Hbase & Happ');
    [|by rw -Hnames in Hnd].
  rw Hfacts1 in Hc. specialize (Hfresh _ Hc). apply authorises_spec in Hauth as (p' & base & Hp' & Hb & _).
  rw Hap in Hp'. injection Hp' as <-. exists plan, base. split_and!; try done.
  - apply live_plan_spec in Hlive as [[Hplan _]%elem_of_owned _]. by rw -Hplans.
  - by rw -Hbase.
  - intros Hwas. apply not_true_iff_false in Hfresh. apply Hfresh, authorises_spec. exists p, base. auto.
Qed.
