(* ===== verification/PromotionRecord.v ===== *)
(** * The bookkeeping of a promotion ([promotion.rs])

    What [record_promotion] makes of the candidates and plans of a policy. *)

From S2P Require Import Prelude BTree RustStr Types Model Change Plan Approval PlanStatus PlanWrites PlanSql PlanCreation PlanCreationFacts CandidateStatus CandidateWrites Promotion PromotionFacts.

(** ** What a write changes *)

Definition stored_digest (c : Candidate) : option string := cand_status c ≫= cs_content_digest.

(** The candidates of [w'] are those of [w], their phases changed by name. *)
Definition phases_change (change : string → option CandidatePhase) (w w' : World) : Prop :=
  ∃ g, w_candidates w' = g <$> w_candidates w ∧ keeps_identity g ∧
    ∀ c, stored_digest (g c) = stored_digest c ∧
         candidate_phase (g c) = default (candidate_phase c) (change (cand_name c)).

(** The plans of [w'] are those of [w], the named ones superseded. *)
Definition plans_superseded (names : list string) (w w' : World) : Prop :=
  ∃ h, w_plans w' = h <$> w_plans w ∧
    ∀ p, plan_name (h p) = plan_name p ∧ owner_references (h p) = owner_references p ∧
         (plan_name p ∉ names → h p = p) ∧ (plan_name p ∈ names → plan_is_live (h p) = false).

Definition no_change : string → option CandidatePhase := λ _, None.
Definition change_to (ph : CandidatePhase) (names : list string) : string → option CandidatePhase :=
  λ n, if bool_decide (n ∈ names) then Some ph else None.

Lemma phases_refl w : phases_change no_change w w.
Proof. exists id. split; [by rw list_fmap_id|]. by split. Qed.

Lemma plans_same w w' : w_plans w' = w_plans w → plans_superseded [] w w'.
Proof.
  intros Hw. exists id. split; [by rw list_fmap_id|]. intros p. split_and!; [done..|]. by intros ?%not_elem_of_nil.
Qed.

Lemma plans_refl w : plans_superseded [] w w.
Proof. by apply plans_same. Qed.

Lemma phases_trans f1 f2 w1 w2 w3 :
  phases_change f1 w1 w2 → phases_change f2 w2 w3 → phases_change (λ n, f2 n ∪ f1 n) w1 w3.
Proof.
  intros (g1 & E1 & I1 & P1) (g2 & E2 & I2 & P2). exists (g2 ∘ g1).
  split; [by rw E2 E1 list_fmap_compose|]. split.
  - intros c. destruct (I1 c) as (?&?&?&?), (I2 (g1 c)) as (?&?&?&?). cbn. split_and!; congruence.
  - intros c. destruct (P1 c) as [D1 Q1], (P2 (g1 c)) as [D2 Q2], (I1 c) as (Hn & _). cbn.
    split; [congruence|]. rw Q2 Hn Q1. by destruct (f2 (cand_name c)), (f1 (cand_name c)).
Qed.

Lemma phases_ext f1 f2 w w' : (∀ n, f1 n = f2 n) → phases_change f1 w w' → phases_change f2 w w'.
Proof. intros Hf (g & E & I & P). exists g. split_and!; [done..|]. intros c. by rw -Hf. Qed.

Lemma plans_trans n1 n2 w1 w2 w3 :
  plans_superseded n1 w1 w2 → plans_superseded n2 w2 w3 → plans_superseded (n1 ++ n2) w1 w3.
Proof.
  intros (h1 & E1 & P1) (h2 & E2 & P2). exists (h2 ∘ h1). split; [by rw E2 E1 list_fmap_compose|].
  intros p. destruct (P1 p) as (N1 & O1 & U1 & S1), (P2 (h1 p)) as (N2 & O2 & U2 & S2). cbn.
  split_and!; [congruence..| |].
  - intros [H1 H2]%not_elem_of_app. rw U2; [by apply U1|by rw N1].
  - intros Hin. destruct (decide (plan_name p ∈ n2)); [apply S2; by rw N1|].
    rw U2; [|by rw N1]. apply S1. set_solver.
Qed.

Lemma write_candidate_changes mutate name w (ph : option CandidatePhase) :
  (∀ s, cs_content_digest (mutate s) = cs_content_digest s ∧ cs_phase (mutate s) = default (cs_phase s) ph) →
  phases_change (λ n, if bool_decide (n ∈ [name]) then ph else None) w (write_candidate mutate name w) ∧
  plans_superseded [] w (write_candidate mutate name w).
Proof.
  intros Hm. split; [|by apply plans_same]. exists (written mutate name). split; [done|].
  split; [apply written_identity|]. intros c. unfold written.
  destruct (String.eqb_spec (cand_name c) name) as [-> |Hne].
  - rw bool_decide_true; [|by left].
    destruct (Hm (clear_preflight (default default_candidate_status (cand_status c)))) as [Hd Hp].
    unfold stored_digest, candidate_phase. cbn. unfold mutated. rw Hd Hp. by destruct (cand_status c).
  - rw bool_decide_false; [done|]. by intros ?%list_elem_of_singleton.
Qed.

Lemma report_changes ctx now reason message name w :
  phases_change no_change w (report ctx now reason message name w) ∧
  plans_superseded [] w (report ctx now reason message name w).
Proof.
  unfold report. destruct (candidate_named _ _); [|split; [apply phases_refl|apply plans_refl]].
  destruct (write_candidate_changes (report_promotion now reason message) name w None) as [Hp Hq]; [done|].
  split; [|done]. eapply phases_ext, Hp. intros n. cbn. by case_bool_decide.
Qed.

Lemma supersede_plan_changes now cause plan w :
  phases_change no_change w (supersede_plan now cause plan w) ∧
  plans_superseded [plan_name plan] w (supersede_plan now cause plan w).
Proof.
  split; [exists id; split; [by rw list_fmap_id|]; by split|].
  exists (λ p, if String.eqb (plan_name p) (plan_name plan)
               then with_status p (Some (mark_plan_superseded now (status plan) cause)) else p).
  split; [done|]. intros p. destruct (String.eqb_spec (plan_name p) (plan_name plan)) as [Heq|Hne].
  - split_and!; [done..| |].
    + intros []. rw Heq. left.
    + intros _. cbn. unfold mark_plan_superseded, superseded_status. by destruct (has_terminal_decision _).
  - split_and!; [done..|]. by intros ?%list_elem_of_singleton.
Qed.

Lemma supersede_candidate_changes now reason message name w :
  phases_change (change_to CandidatePhase.Superseded [name]) w (supersede_candidate now reason message name w) ∧
  plans_superseded [] w (supersede_candidate now reason message name w).
Proof.
  split; [|by apply plans_same].
  exists (λ c, if String.eqb (cand_name c) name
               then if bool_decide (candidate_phase c = CandidatePhase.Superseded) then c
                    else with_candidate_status c (mutated (mark_superseded now reason message) c) (resource_version c)
               else c).
  split; [done|]. split; [intros c; destruct (String.eqb _ _); [by case_bool_decide|done]|].
  intros c. unfold change_to. destruct (String.eqb_spec (cand_name c) name) as [-> |Hne].
  - rw (bool_decide_true (name ∈ [name])); [|by left]. case_bool_decide as Hs; [done|].
    unfold stored_digest, candidate_phase. cbn. by destruct (cand_status c).
  - rw bool_decide_false; [done|]. by intros ?%list_elem_of_singleton.
Qed.

(** ** The two sweeps *)

Definition plan_names_of (ctx : PromotionContext) (names : list string) : list string :=
  omap (λ n, plan_name <$> plan_of ctx n) names.

Lemma retire_duplicate_changes ctx now promoted w d :
  is_Some (candidate_named ctx d) →
  phases_change (change_to CandidatePhase.Superseded [d]) w (retire_duplicate ctx now promoted w d) ∧
  plans_superseded (plan_names_of ctx [d]) w (retire_duplicate ctx now promoted w d).
Proof.
  intros [c Hc]. unfold retire_duplicate, plan_names_of. rw Hc. cbn [omap list_omap].
  destruct (plan_of ctx d) as [plan|]; cbn [fmap option_fmap option_map].
  - destruct (supersede_plan_changes now SupersedeCause.SupersededByPromotion plan w) as [P1 S1].
    edestruct supersede_candidate_changes as [P2 S2]. split.
    + eapply phases_ext; [|eapply phases_trans; [exact P1|exact P2]]. intros n. unfold change_to, no_change. cbn. by case_bool_decide.
    + change [plan_name plan] with ([plan_name plan] ++ []). by eapply plans_trans.
  - apply supersede_candidate_changes.
Qed.

Lemma retire_stranded_changes ctx now promoted w n :
  phases_change no_change w (retire_stranded ctx now promoted w n) ∧
  plans_superseded (plan_names_of ctx [n]) w (retire_stranded ctx now promoted w n).
Proof.
  unfold retire_stranded, plan_names_of. cbn [omap list_omap].
  destruct (plan_of ctx n) as [plan|]; cbn [fmap option_fmap option_map]; [|split; [apply phases_refl|apply plans_refl]].
  destruct (supersede_plan_changes now SupersedeCause.SupersededByPromotion plan w) as [P1 S1].
  edestruct report_changes as [P2 S2]. split.
  - eapply phases_ext; [|eapply phases_trans; [exact P1|exact P2]]. done.
  - change [plan_name plan] with ([plan_name plan] ++ []). by eapply plans_trans.
Qed.

Lemma plan_names_cons ctx n names :
  plan_names_of ctx (n :: names) = plan_names_of ctx [n] ++ plan_names_of ctx names.
Proof. unfold plan_names_of. cbn. by destruct (plan_of ctx n). Qed.

Lemma duplicates_changes ctx now promoted ds w :
  Forall (λ d, is_Some (candidate_named ctx d)) ds →
  phases_change (change_to CandidatePhase.Superseded ds) w (foldl (retire_duplicate ctx now promoted) w ds) ∧
  plans_superseded (plan_names_of ctx ds) w (foldl (retire_duplicate ctx now promoted) w ds).
Proof.
  revert w. induction ds as [|d ds IH]; intros w Hds; cbn [foldl]; [split; [apply phases_refl|apply plans_refl]|].
  apply Forall_cons in Hds as [Hd Hds]. destruct (retire_duplicate_changes ctx now promoted w d Hd) as [P1 S1].
  destruct (IH (retire_duplicate ctx now promoted w d) Hds) as [P2 S2]. split.
  - eapply phases_ext; [|eapply phases_trans; [exact P1|exact P2]]. intros n. unfold change_to.
    rw (bool_decide_ext (n ∈ d :: ds) (n ∈ [d] ∨ n ∈ ds)); [|set_solver].
    repeat case_bool_decide; done || tauto || (exfalso; tauto).
  - rw plan_names_cons. by eapply plans_trans.
Qed.

Lemma stranded_changes ctx now promoted l w :
  phases_change no_change w (foldl (retire_stranded ctx now promoted) w l) ∧
  plans_superseded (plan_names_of ctx l) w (foldl (retire_stranded ctx now promoted) w l).
Proof.
  revert w. induction l as [|n l IH]; intros w; cbn [foldl]; [split; [apply phases_refl|apply plans_refl]|].
  destruct (retire_stranded_changes ctx now promoted w n) as [P1 S1].
  destruct (IH (retire_stranded ctx now promoted w n)) as [P2 S2]. split.
  - eapply phases_ext; [|eapply phases_trans; [exact P1|exact P2]]. done.
  - rw plan_names_cons. by eapply plans_trans.
Qed.

(** ** The record *)

Definition promotes (now : string) (policy : Policy) (digest : string) (ctx : PromotionContext)
    (newly : bool) (promoted : string) (w w' : World) : Prop :=
  let duplicates :=
    cf_name <$> filter (λ c, is_open c && negb (String.eqb (cf_name c) promoted) && digest_matches digest c)
                  (pc_facts ctx) in
  let stranded := filter (λ n, n ∉ duplicates) (stranded_by_promotion promoted digest (pc_facts ctx)) in
  phases_change (λ n, change_to CandidatePhase.Promoted (if newly then [promoted] else []) n ∪
                      change_to CandidatePhase.Superseded duplicates n) w w' ∧
  plans_superseded (plan_names_of ctx (duplicates ++ stranded)) w w'.

Lemma fact_named policy w c :
  c ∈ pc_facts (load_context policy w) → is_Some (candidate_named (load_context policy w) (cf_name c)).
Proof.
  intros (o & Ho & Hb & ->)%elem_of_facts. cbn [cf_name facts_of]. apply (find_exists _ _ o).
  - cbn. apply list_elem_of_filter. by rw Hb.
  - apply String.eqb_refl.
Qed.

Lemma plan_names_app ctx l k : plan_names_of ctx (l ++ k) = plan_names_of ctx l ++ plan_names_of ctx k.
Proof. unfold plan_names_of. by rw omap_app. Qed.

Lemma record_promotion_spec now policy digest w :
  let ctx := load_context policy w in
  let already := find (λ c, cf_promoted c && digest_matches digest c) (pc_facts ctx) in
  match match already with Some c => Some c | None => select_promoted (pc_facts ctx) digest end with
  | None => record_promotion now policy digest w = w
  | Some c =>
      c ∈ pc_facts ctx ∧ cf_content_digest c = Some digest ∧
      (already = None → cf_terminal c = false) ∧
      promotes now policy digest ctx (bool_decide (already = None)) (cf_name c) w
        (record_promotion now policy digest w)
  end.
Proof.
  intros ctx already. unfold record_promotion. fold ctx. fold already.
  assert (∀ c, select_promoted (pc_facts ctx) digest = Some c → c ∈ matches digest (pc_facts ctx)) as Hsel.
  { intros c. unfold select_promoted. destruct (find cf_owns_applied_plan _) eqn:H1.
    { intros [= <-]. by apply find_first in H1 as [? _]. }
    destruct (find has_approved_plan _) eqn:H2; [intros [= <-]; by apply find_first in H2 as [? _]|].
    destruct (matches _ _); [done|]. intros [= <-]. left. }
  assert (∀ c newly, c ∈ pc_facts ctx → newly = bool_decide (already = None) →
    promotes now policy digest ctx newly (cf_name c) w
      (let w := foldl (retire_duplicate ctx now (cf_name c)) w
         (cf_name <$> filter (λ c0, is_open c0 && negb (String.eqb (cf_name c0) (cf_name c)) && digest_matches digest c0) (pc_facts ctx)) in
       let w := foldl (retire_stranded ctx now (cf_name c)) w
         (filter (λ n, n ∉ cf_name <$> filter (λ c0, is_open c0 && negb (String.eqb (cf_name c0) (cf_name c)) && digest_matches digest c0) (pc_facts ctx))
            (stranded_by_promotion (cf_name c) digest (pc_facts ctx))) in
       if newly then
         match candidate_named ctx (cf_name c) with
         | None => w
         | Some _ => write_candidate
             (mark_promoted now (promoted_message (policy_name policy) (plan_of ctx (cf_name c)))) (cf_name c) w
         end
       else w)) as Hpro.
  { intros c newly Hc _. unfold promotes.
    set (ds := cf_name <$> filter _ _). set (st := filter (λ n, n ∉ ds) _).
    assert (Forall (λ d, is_Some (candidate_named ctx d)) ds) as Hds.
    { apply Forall_forall. intros d (c' & -> & [_ Hin]%list_elem_of_filter)%list_elem_of_fmap. by apply fact_named. }
    destruct (duplicates_changes ctx now (cf_name c) ds w Hds) as [P1 S1].
    destruct (stranded_changes ctx now (cf_name c) st (foldl (retire_duplicate ctx now (cf_name c)) w ds)) as [P2 S2].
    rw plan_names_app. pose proof (plans_trans _ _ _ _ _ S1 S2) as S3.
    pose proof (phases_trans _ _ _ _ _ P1 P2) as P3. cbn zeta.
    destruct newly; [|split; [|done]; by eapply phases_ext, P3].
    destruct (fact_named policy w c Hc) as [o Ho]. fold ctx in Ho. rw Ho.
    match goal with |- context [write_candidate ?m ?n ?x] =>
      destruct (write_candidate_changes m n x (Some CandidatePhase.Promoted)) as [P4 S4] end; [done|].
    split.
    - eapply phases_ext; [|eapply phases_trans; [exact P3|exact P4]]. intros n. unfold change_to, no_change.
      by repeat case_bool_decide.
    - rw -(app_nil_r (_ ++ _)). by eapply plans_trans. }
  destruct already as [c|] eqn:Ha; cbn [fmap option_fmap option_map].
  - apply find_first in Ha as Hc. destruct Hc as [Hc [_ Hd]%andb_true_iff].
    split; [done|]. split.
    { unfold digest_matches in Hd. destruct (cf_content_digest c); [|done]. by apply String.eqb_eq in Hd as ->. }
    split; [done|]. rw (bool_decide_true (is_Some (Some (cf_name c)))); [|by eexists].
    rw bool_decide_false; [|done]. by apply (Hpro c false).
  - destruct (select_promoted _ _) as [c|]; [|done].
    destruct (proj1 (elem_of_matches _ _ _) (Hsel c eq_refl)) as (Hc & Ht & Hd).
    cbn [fmap option_fmap option_map]. split_and!; [done..|].
    rw (bool_decide_false (is_Some None)); [|by intros []]. rw bool_decide_true; [|done].
    by apply (Hpro c true).
Qed.

Definition carrier (policy : Policy) (digest : string) (w : World) (c : Candidate) : Prop :=
  c ∈ w_candidates w ∧ candidate_belongs_to policy c = true ∧ stored_digest c = Some digest.

Definition one_live_plan_each (policy : Policy) (w : World) : Prop := ∀ c,
  c ∈ w_candidates w → candidate_belongs_to policy c = true →
  length (filter (λ p, plan_is_live p) (owned_plans (w_plans w) c)) ≤ 1.

Lemma fact_of_carrier policy digest w o :
  carrier policy digest w o → facts_of (w_plans w) o ∈ pc_facts (load_context policy w) ∧
  digest_matches digest (facts_of (w_plans w) o) = true.
Proof.
  intros (Ho & Hb & Hd). split; [apply elem_of_facts; by exists o|].
  unfold digest_matches. cbn [cf_content_digest facts_of]. change (cand_status o ≫= cs_content_digest) with (stored_digest o).
  rw Hd. apply String.eqb_refl.
Qed.

Lemma fact_promoted plans o : cf_promoted (facts_of plans o) = true ↔ candidate_phase o = CandidatePhase.Promoted.
Proof.
  cbn [cf_promoted facts_of]. rw bool_decide_eq_true. unfold candidate_phase. destruct (cand_status o) as [s|]; cbn; [|done].
  split; [by intros [= ->]|by intros ->].
Qed.

Lemma live_plan_unique policy w o p :
  one_live_plan_each policy w → o ∈ w_candidates w → candidate_belongs_to policy o = true →
  p ∈ owned_plans (w_plans w) o → plan_is_live p = true → live_plan (w_plans w) o = Some p.
Proof.
  intros Hone Ho Hb Hp Hlive. specialize (Hone o Ho Hb). unfold live_plan.
  destruct (find_exists plan_is_live _ p Hp Hlive) as [q Hq]. rw Hq. f_equal. apply find_first in Hq as [Hq Hql].
  assert (∀ r, r ∈ owned_plans (w_plans w) o → plan_is_live r = true →
    r ∈ filter (λ p, plan_is_live p) (owned_plans (w_plans w) o)) as Hin.
  { intros r Hr Hrl. apply list_elem_of_filter. by rw Hrl. }
  pose proof (Hin p Hp Hlive) as Hp'. pose proof (Hin q Hq Hql) as Hq'.
  destruct (filter _ _) as [|x [|y l]]; [by apply not_elem_of_nil in Hp'| |cbn in Hone; lia].
  apply list_elem_of_singleton in Hp' as ->. by apply list_elem_of_singleton in Hq' as ->.
Qed.

Lemma name_unique (cs : list Candidate) c1 c2 :
  NoDup (cand_name <$> cs) → c1 ∈ cs → c2 ∈ cs → cand_name c1 = cand_name c2 → c1 = c2.
Proof.
  intros Hnd (i & Hi)%list_elem_of_lookup_1 (j & Hj)%list_elem_of_lookup_1 Heq.
  assert (i = j) as ->; [|congruence].
  apply (NoDup_lookup _ i j (cand_name c1) Hnd); rw list_lookup_fmap ?Hi ?Hj //=. by rw Heq.
Qed.

(** The phases of a recorded promotion. *)
Definition recorded_phase (newly : bool) (promoted digest : string) (c : Candidate) : CandidatePhase :=
  if newly && String.eqb (cand_name c) promoted then CandidatePhase.Promoted
  else if negb (is_terminal (candidate_phase c)) && negb (String.eqb (cand_name c) promoted) &&
          bool_decide (stored_digest c = Some digest)
  then CandidatePhase.Superseded else candidate_phase c.

Lemma recorded_phases now policy digest w newly promoted w' :
  NoDup (cand_name <$> w_candidates w) →
  promotes now policy digest (load_context policy w) newly promoted w w' →
  ∃ g, w_candidates w' = g <$> w_candidates w ∧ keeps_identity g ∧
    (∀ c, stored_digest (g c) = stored_digest c) ∧
    ∀ c, c ∈ w_candidates w → candidate_belongs_to policy c = true →
      candidate_phase (g c) = recorded_phase newly promoted digest c.
Proof.
  intros Hnd [(g & Hg & Hid & Hph) _]. exists g. split_and!; [done..| |].
  { intros c. by destruct (Hph c). }
  intros c Hc Hb. destruct (Hph c) as [_ ->]. unfold recorded_phase, change_to.
  set (ds := cf_name <$> filter _ _).
  assert (cand_name c ∈ ds ↔ is_terminal (candidate_phase c) = false ∧ cand_name c ≠ promoted ∧
    stored_digest c = Some digest) as Hds.
  { unfold ds. rw list_elem_of_fmap. split.
    - intros (f & Hn & [Hf%Is_true_true Hin]%list_elem_of_filter).
      apply elem_of_facts in Hin as (o & Ho & Hbo & ->). cbn [cf_name facts_of] in Hn.
      rw (name_unique _ c o Hnd Hc Ho Hn). apply andb_true_iff in Hf as [[Hop Hne]%andb_true_iff Hd].
      unfold is_open in Hop. apply negb_true_iff in Hop, Hne. apply String.eqb_neq in Hne. split_and!; [done..|].
      unfold digest_matches in Hd. cbn [cf_content_digest facts_of] in Hd. unfold stored_digest.
      destruct (cand_status o ≫= cs_content_digest); [|done]. by apply String.eqb_eq in Hd as ->.
    - intros (Hop & Hne & Hd). exists (facts_of (w_plans w) c). split; [done|].
      destruct (fact_of_carrier policy digest w c) as [Hin Hm]; [done|]. apply list_elem_of_filter. split; [|done].
      rw Hm. unfold is_open. cbn [cf_terminal cf_name facts_of]. rw Hop. apply String.eqb_neq in Hne. by rw Hne. }
  destruct (decide (cand_name c ∈ ds)) as [Hin|Hin].
  - rw (bool_decide_true (_ ∈ ds)); [|done]. apply Hds in Hin as (Hop & Hne & Hd).
    rw Hop. rw (bool_decide_true (stored_digest c = _)); [|done]. apply String.eqb_neq in Hne as Hneb. rw Hneb andb_false_r.
    assert (bool_decide (cand_name c ∈ (if newly then [promoted] else [])) = false) as ->; [|done].
    apply bool_decide_eq_false. destruct newly; [by intros ?%list_elem_of_singleton|apply not_elem_of_nil].
  - rw (bool_decide_false (_ ∈ ds)); [|done].
    assert (negb (is_terminal (candidate_phase c)) && negb (String.eqb (cand_name c) promoted) &&
      bool_decide (stored_digest c = Some digest) = false) as ->.
    { apply not_true_iff_false. intros [[H1%negb_true_iff H2%negb_true_iff]%andb_true_iff H3%bool_decide_eq_true]%andb_true_iff.
      apply String.eqb_neq in H2. by apply Hin, Hds. }
    destruct newly; cbn [andb].
    + destruct (String.eqb_spec (cand_name c) promoted) as [-> |Hne].
      * rw bool_decide_true; [done|left].
      * rw bool_decide_false; [done|]. by intros ?%list_elem_of_singleton.
    + rw bool_decide_false; [done|apply not_elem_of_nil].
Qed.

(** An approval that survives is pinned to the content that was executed. *)
Lemma surviving_approval now policy digest w newly c0 w' o p :
  NoDup (cand_name <$> w_candidates w) → one_live_plan_each policy w →
  promotes now policy digest (load_context policy w) newly (cf_name c0) w w' →
  o ∈ w_candidates w → candidate_belongs_to policy o = true →
  is_terminal (candidate_phase o) = false → cand_name o ≠ cf_name c0 →
  ∀ o', cand_uid o' = cand_uid o → approved_plan (facts_of (w_plans w') o') = Some p →
  pf_base_content_digest p = Some digest.
Proof.
  intros Hnd Hone [_ (h & Hplans & Hh)] Ho Hb Hopen Hne o' Huid Happ.
  apply approved_facts in Happ as (plan & Hlive & _ & Hpin & Hdecided).
  apply live_plan_spec in Hlive as [Hown Hl]. apply elem_of_owned in Hown as (Hin & uid & Hu & Hue & Howner).
  rw Hplans in Hin. apply list_elem_of_fmap in Hin as (q & -> & Hq).
  destruct (Hh q) as (Hname & Howners & Hkeep & Hgone).
  set (names := plan_names_of _ _) in *.
  destruct (decide (plan_name q ∈ names)) as [Hin|Hnot]; [by rw Hgone in Hl|].
  rw (Hkeep Hnot) in Hl Hpin Hdecided Howner. clear Hkeep Hgone.
  assert (live_plan (w_plans w) o = Some q) as Hlp.
  { apply (live_plan_unique policy); [done..| |done]. apply elem_of_owned. split; [done|].
    exists uid. by rw -Huid. }
  rw Hpin. destruct (decide (plan_base_pin q = Some digest)) as [|Hpinned]; [done|]. exfalso. apply Hnot.
  assert (cand_name o ∈ stranded_by_promotion (cf_name c0) digest (pc_facts (load_context policy w))) as Hstr.
  { unfold stranded_by_promotion. apply list_elem_of_fmap. exists (facts_of (w_plans w) o). split; [done|].
    apply list_elem_of_filter. split; [|by apply elem_of_facts; exists o].
    assert (approved_plan (facts_of (w_plans w) o) = Some {| pf_name := plan_name q; pf_approved := true;
      pf_base_content_digest := plan_base_pin q |}) as ->.
    { apply approved_plan_spec. cbn [cf_plan facts_of]. rw Hlp. cbn. by rw Hdecided. }
    unfold is_open. cbn [cf_terminal cf_name facts_of pf_base_content_digest]. rw Hopen.
    apply String.eqb_neq in Hne. rw Hne bool_decide_true //. }
  unfold names, plan_names_of. apply list_elem_of_omap. exists (cand_name o). split.
  - set (ds := cf_name <$> filter _ _). apply elem_of_app. destruct (decide (cand_name o ∈ ds)); [by left|right].
    by apply list_elem_of_filter.
  - by rw (plan_of_named policy w o) // Hlp.
Qed.

(** The candidate of this content that is recorded as promoted already, if one is. *)
Definition already_promoted (policy : Policy) (digest : string) (w : World) : option CandidateFacts :=
  find (λ c, cf_promoted c && digest_matches digest c) (pc_facts (load_context policy w)).

Lemma none_promoted policy digest w o :
  already_promoted policy digest w = None → carrier policy digest w o →
  candidate_phase o ≠ CandidatePhase.Promoted.
Proof.
  intros Ha Ko Hp. destruct (fact_of_carrier _ _ _ _ Ko) as [Hf Hm].
  pose proof (find_none _ _ Ha _ (proj1 (list_elem_of_In _ _) Hf)) as Hn. cbn beta in Hn.
  rw Hm andb_true_r in Hn. apply not_true_iff_false in Hn. by apply Hn, fact_promoted.
Qed.

(** A content that some candidate carries, and that was not refused, is recorded. *)
Lemma recording_exists policy digest w c :
  carrier policy digest w c → candidate_phase c ≠ CandidatePhase.Superseded →
  already_promoted policy digest w = None →
  is_Some (select_promoted (pc_facts (load_context policy w)) digest).
Proof.
  intros Hc Hph Ha. unfold select_promoted. destruct (fact_of_carrier policy digest w c Hc) as [Hf Hm].
  assert (facts_of (w_plans w) c ∈ matches digest (pc_facts (load_context policy w))) as Hin.
  { apply elem_of_matches. split; [done|]. split; [|by destruct Hc as (_ & _ & ?)].
    cbn [cf_terminal facts_of]. destruct (candidate_phase c) eqn:Hp; try done.
    by destruct (none_promoted policy digest w c). }
  destruct (find cf_owns_applied_plan _); [by eexists|]. destruct (find has_approved_plan _); [by eexists|].
  destruct (matches _ _); [by apply not_elem_of_nil in Hin|by eexists].
Qed.

(** No second promotion: phases after recording, where at most one carrier was promoted. *)
Lemma recorded_once policy digest w promoted o1 o2 :
  (∀ c1 c2, carrier policy digest w c1 → carrier policy digest w c2 →
     candidate_phase c1 = CandidatePhase.Promoted → candidate_phase c2 = CandidatePhase.Promoted →
     cand_name c1 = cand_name c2) →
  carrier policy digest w o1 → carrier policy digest w o2 →
  let newly := bool_decide (already_promoted policy digest w = None) in
  recorded_phase newly promoted digest o1 = CandidatePhase.Promoted →
  recorded_phase newly promoted digest o2 = CandidatePhase.Promoted → cand_name o1 = cand_name o2.
Proof.
  intros Huniq K1 K2. unfold recorded_phase. case_bool_decide as Ha; cbn [andb].
  - pose proof (none_promoted policy digest w o1 Ha K1). pose proof (none_promoted policy digest w o2 Ha K2).
    destruct (String.eqb_spec (cand_name o1) promoted), (String.eqb_spec (cand_name o2) promoted);
      [congruence|..]; intros P1 P2; exfalso.
    all: repeat match goal with H : (if ?b then _ else _) = _ |- _ => destruct b end; done.
  - intros P1 P2. repeat match goal with H : (if ?b then _ else _) = _ |- _ => destruct b end; try done.
    by apply Huniq.
Qed.

