(* ===== verification/CandidatePlanning.v ===== *)
(** * Planning and retaining candidates ([candidate.rs] of the operator)

    The gate of the parent policy, the admission of open candidates, the pass over them and
    the pruning of terminal ones.  What adoption, the reading of plans and the planning of
    one candidate return are arguments of the pass. *)

From S2P Require Import Prelude BTree RustStr Types Model Change Plan Approval PlanStatus PlanWrites PlanSql PlanCreation Durations PlanRetention CandidateStatus CandidateWrites Promotion.

Definition DEFAULT_MAX_TERMINAL_CANDIDATES : nat := 10.
(** Fourteen days, in nanoseconds. *)
Definition DEFAULT_OPEN_CANDIDATE_TTL : Z := 14 * 24 * 3600 * 1000000000.

(** ** The parent gate *)

Module ParentOutcome.
Inductive ParentOutcome : Set := Converged | ExecutionBlocked | Unstable.
End ParentOutcome.
Abbreviation ParentOutcome := ParentOutcome.ParentOutcome.

Module ParentGate.
Inductive ParentGate : Set :=
  | Open (state : ParentEvaluationState)
  | Blocked (cause : BlockCause).
End ParentGate.
Abbreviation ParentGate := ParentGate.ParentGate.

Definition parent_gate (parent : ParentOutcome) (has_actionable_plan : bool) : ParentGate :=
  match parent with
  | ParentOutcome.Unstable => ParentGate.Blocked BlockCause.Unstable
  | ParentOutcome.ExecutionBlocked => ParentGate.Open ParentEvaluationState.ExecutionBlocked
  | ParentOutcome.Converged =>
      if has_actionable_plan then ParentGate.Blocked BlockCause.AwaitingDecision
      else ParentGate.Open ParentEvaluationState.Converged
  end.

(** ** Admission *)

(** The order of the pass: by creation, then by name. *)
Definition filed_le : relation Candidate :=
  λ c d, ord_le (cand_creation_timestamp c, cand_name c) (cand_creation_timestamp d, cand_name d).

#[export] Instance filed_le_dec : RelDecision filed_le.
Proof. intros c d. unfold filed_le. apply _. Defined.

Definition oldest_first (candidates : list Candidate) : list Candidate :=
  merge_sort filed_le candidates.

Module NotPlanned.
Inductive NotPlanned : Set := Expired | OverBudget.
#[export] Instance not_planned_eq_dec : EqDecision NotPlanned.
Proof. solve_decision. Defined.
End NotPlanned.
Abbreviation NotPlanned := NotPlanned.NotPlanned.
Export (hints) NotPlanned.

Definition candidate_exempt (candidate : Candidate) : bool := keep_labelled (cand_labels candidate).

Definition is_expired (now : Z) (candidate : Candidate) : bool :=
  negb (candidate_exempt candidate) &&
  match cand_creation_timestamp candidate with
  | Some created => (DEFAULT_OPEN_CANDIDATE_TTL <? now - created)%Z
  | None => false
  end.

Definition classify_step (now : Z) (acc : gmap string NotPlanned * nat) (candidate : Candidate)
    : gmap string NotPlanned * nat :=
  let '(verdicts, budget_remaining) := acc in
  if is_terminal (candidate_phase candidate) then acc
  else if is_expired now candidate
  then (<[cand_name candidate := NotPlanned.Expired]> verdicts, budget_remaining)
  else
    match budget_remaining with
    | S budget => (verdicts, budget)
    | O => (<[cand_name candidate := NotPlanned.OverBudget]> verdicts, O)
    end.

Definition classify_open_candidates (now : Z) (candidates : list Candidate) : gmap string NotPlanned :=
  (foldl (classify_step now) (∅, DEFAULT_MAX_OPEN_CANDIDATES) candidates).1.

(** ** The pass over one candidate *)

Definition owner_reference_to (policy : Policy) : OwnerReference := {|
  owner_kind := "PostgresPolicy"; owner_uid := default "" (policy_uid_of policy); controller := Some true |}.

(** The owner references [adopt_candidate] leaves. *)
Definition adopted_owner_references (policy : Policy) (candidate : Candidate) : list OwnerReference :=
  let uid := default "" (policy_uid_of policy) in
  if negb (String.eqb uid "") && negb (controlled_by (cand_owner_references candidate) uid)
  then filter (λ o, negb (default false (controller o))) (cand_owner_references candidate) ++
       [owner_reference_to policy]
  else cand_owner_references candidate.

(** The identity [adopt_candidate] stamps, when it is not there yet. *)
Definition adopt_status (candidate : Candidate) (s : CandidateStatus) : CandidateStatus :=
  if bool_decide (cs_content_digest s = Some (content_digest candidate)) &&
     bool_decide (cs_observed_generation s = cand_generation candidate)
  then s
  else stamp_identity (content_digest candidate) (cand_generation candidate) (clear_preflight s).

(** What planning the candidate came to. *)
Inductive Planning : Set :=
  | Outcome (outcome : CandidateOutcome)
  | TargetLocked
  | PlanningError (message : string).

Definition needs_parent_invalidation (s : CandidateStatus) : bool :=
  negb (is_terminal (cs_phase s)) &&
  (bool_decide (is_Some (cs_execution_preflight s)) ||
   existsb (λ c, String.eqb (condition_type c) "Ready" && String.eqb (condition_status c) "True")
     (cs_conditions s)).

(** [invalidate_candidate_best_effort] of a candidate the policy owns, which has a uid. *)
Definition invalidate (now : string) (cause : BlockCause) (s : CandidateStatus) : CandidateStatus :=
  if needs_parent_invalidation s then set_blocked_condition now cause (clear_preflight s) else s.

Definition expired_message : string :=
  "no decision within 14 days of being filed, so this proposal is treated as abandoned; file a successor to revive it, or label it pgroles.io/keep=true to exempt it".
Definition denied_message : string :=
  "the plan for this candidate was denied; file a successor to propose a revision".

(** [plan_was_denied] *)
Definition plan_was_denied (plans : list PolicyPlan) (candidate : Candidate) : bool :=
  match cand_uid candidate with
  | None => false
  | Some uid =>
      existsb (λ p,
        match check_plan_approval (status p) with PlanApprovalState.Rejected => true | _ => false end ||
        match status p with Some s => is_phase PlanPhase.Rejected s | None => false end)
        (filter (λ p, is_owned_by_uid p uid) plans)
  end.

(** The loop body of [reconcile_candidates]: [adopted] is whether adoption succeeded, [denied]
    the answer of [plan_was_denied], if it could be read. *)
Definition candidate_pass (now : string) (adopted : bool) (verdict : option NotPlanned)
    (denied : option bool) (gate : ParentGate) (generation : option Z) (planning : Planning)
    (candidate : Candidate) (s : CandidateStatus) : CandidateStatus :=
  if negb adopted then invalidate now BlockCause.CandidateUnavailable s
  else
    let s := adopt_status candidate s in
    if is_terminal (cs_phase s) then s
    else
      match verdict with
      | Some NotPlanned.Expired => mark_superseded now "Expired" expired_message (clear_preflight s)
      | Some NotPlanned.OverBudget => mark_over_budget now (clear_preflight s)
      | None =>
          match denied with
          | None => invalidate now BlockCause.CandidateUnavailable s
          | Some true => mark_superseded now "PlanDenied" denied_message (clear_preflight s)
          | Some false =>
              match gate with
              | ParentGate.Blocked cause => set_blocked_condition now cause (clear_preflight s)
              | ParentGate.Open state =>
                  match planning with
                  | Outcome outcome =>
                      record_outcome now outcome
                        {| ev_evaluated_at := now; ev_parent_generation := generation; ev_parent_state := state |}
                        (clear_preflight s)
                  | TargetLocked => s
                  | PlanningError message => planning_failed now message (clear_preflight s)
                  end
              end
          end
      end.

(** [apply_replacements]: the successor of each replaced name, the last one listed. *)
Definition replacements (candidates : list Candidate) : gmap string string :=
  foldl (λ planned c,
    match cand_status c ≫= cs_plan_ref, cand_replaces c with
    | Some _, Some replaced => <[replaced := cand_name c]> planned
    | _, _ => planned
    end) ∅ candidates.

Definition apply_replacements (now : string) (candidates : list Candidate) (c : Candidate) : Candidate :=
  match replacements candidates !! cand_name c with
  | None => c
  | Some successor =>
      if is_terminal (candidate_phase c) then c
      else with_candidate_status c
             (mutated (mark_superseded now "Replaced" ("replaced by candidate " +:+ successor)) c)
             (resource_version c)
  end.

(** ** Pruning *)

Section prune.
Context (parse_rfc3339_epoch_secs : string → option Z).

Definition record_exempt (r : Candidate * list PolicyPlan) : bool :=
  candidate_exempt r.1 || existsb is_retention_exempt r.2.

Definition applied_plan_of (r : Candidate * list PolicyPlan) : option PolicyPlan :=
  find (λ p, match status p with Some s => is_phase PlanPhase.Applied s | None => false end) r.2.

Definition oldest_candidate_le : relation Candidate :=
  λ c d, option_Z_le (cand_creation_timestamp c) (cand_creation_timestamp d).

#[export] Instance oldest_candidate_dec : RelDecision oldest_candidate_le.
Proof. intros c d. unfold oldest_candidate_le, option_Z_le. apply _. Defined.

Definition churn (records : list (Candidate * list PolicyPlan)) : list Candidate :=
  fst <$> filter (λ r, record_exempt r = false ∧ applied_plan_of r = None) records.

Definition executed (records : list (Candidate * list PolicyPlan)) : list (Candidate * PolicyPlan) :=
  omap (λ r, pair r.1 <$> applied_plan_of r) (filter (λ r, record_exempt r = false) records).

Definition terminal_candidates_to_prune (records : list (Candidate * list PolicyPlan))
    (retention : PlanRetention) (now_ts : Z) : list Candidate :=
  let excess :=
    if (DEFAULT_MAX_TERMINAL_CANDIDATES <? length (churn records))%nat
    then take (length (churn records) - DEFAULT_MAX_TERMINAL_CANDIDATES)
           (merge_sort oldest_candidate_le (churn records))
    else [] in
  let evicted :=
    plan_name <$> applied_plans_to_evict parse_rfc3339_epoch_secs ((executed records).*2) retention now_ts in
  excess ++ (filter (λ p, plan_name p.2 ∈ evicted) (executed records)).*1.

Definition terminal_records (candidates : list Candidate) (plans : list PolicyPlan)
    : list (Candidate * list PolicyPlan) :=
  (λ c, (c, owned_plans plans c)) <$> filter (λ c, is_terminal (candidate_phase c)) candidates.

(** [cleanup_terminal_candidates]: those it deletes, when the plans can be read. *)
Definition cleanup_terminal_candidates (candidates : list Candidate) (plans : option (list PolicyPlan))
    (retention : PlanRetention) (now_ts : Z) : list Candidate :=
  let terminal := filter (λ c, is_terminal (candidate_phase c)) candidates in
  if (length terminal <=? DEFAULT_MAX_TERMINAL_CANDIDATES)%nat &&
     (N.of_nat (length terminal) <=? applied retention)%N
  then []
  else
    match plans with
    | None => []
    | Some plans => terminal_candidates_to_prune (terminal_records candidates plans) retention now_ts
    end.
End prune.

(** ** The whole pass *)

(** What the calls of the pass return for each candidate: whether it was adopted, its
    plans if they were read, and what planning it came to. *)
Record PassInputs := {
  adoption_succeeds : Candidate → bool;
  plans_read : Candidate → option (list PolicyPlan);
  planned : Candidate → Planning;
}.

Definition with_owners (c : Candidate) (owners : list OwnerReference) : Candidate := {|
  cand_name := cand_name c; cand_uid := cand_uid c; resource_version := resource_version c;
  cand_generation := cand_generation c; cand_creation_timestamp := cand_creation_timestamp c;
  cand_labels := cand_labels c; cand_owner_references := owners;
  cand_policy_ref := cand_policy_ref c; cand_replaces := cand_replaces c;
  content_digest := content_digest c; cand_status := cand_status c |}.

Definition pass_over (now : string) (policy : Policy) (generation : option Z) (gate : ParentGate)
    (verdicts : gmap string NotPlanned) (inputs : PassInputs) (c : Candidate) : Candidate :=
  if negb (adoption_succeeds inputs c) && bool_decide (cand_status c = None) then c
  else
    let owned :=
      if adoption_succeeds inputs c then with_owners c (adopted_owner_references policy c) else c in
    with_candidate_status owned
      (candidate_pass now (adoption_succeeds inputs c) (verdicts !! cand_name c)
         (flip plan_was_denied c <$> plans_read inputs c) gate generation (planned inputs c) c
         (default default_candidate_status (cand_status c)))
      (resource_version c).

Definition passed (now : string) (now_ns : Z) (policy : Policy) (generation : option Z)
    (gate : ParentGate) (inputs : PassInputs) (candidates : list Candidate) : list Candidate :=
  let listed := oldest_first (filter (λ c, candidate_belongs_to policy c) candidates) in
  pass_over now policy generation gate (classify_open_candidates now_ns listed) inputs <$> listed.

(** The candidates of the policy after the pass, and those it deleted. *)
Definition reconcile_candidates (parse_rfc3339_epoch_secs : string → option Z) (now : string)
    (now_ns now_ts : Z) (policy : Policy) (generation : option Z) (gate : ParentGate)
    (inputs : PassInputs) (plans : option (list PolicyPlan)) (retention : PlanRetention)
    (candidates : list Candidate) : list Candidate * list Candidate :=
  let after := passed now now_ns policy generation gate inputs candidates in
  (apply_replacements now after <$> after,
   cleanup_terminal_candidates parse_rfc3339_epoch_secs after plans retention now_ts).
