(* ===== verification/CandidatePlanningFacts.v ===== *)
(** * What a pass over the candidates keeps

    Admission serves the oldest proposals; the pass leaves no preview that this pass did
    not compute; pruning never deletes the history retention keeps. *)

From S2P Require Import Prelude BTree RustStr Types Model Change Plan Approval PlanStatus PlanWrites PlanSql PlanCreation Durations PlanRetention CandidateStatus CandidateWrites Promotion CandidatePlanning.

(** ** Admission *)

#[export] Instance filed_le_trans : Transitive filed_le.
Proof. intros c d e. apply (transitivity (R := ord_le)). Qed.
#[export] Instance filed_le_total : Total filed_le.
Proof. intros c d. apply (base.total ord_le). Qed.

(** Open, and not abandoned: what the budget is for. *)
Definition waiting (now : Z) (c : Candidate) : bool :=
  negb (is_terminal (candidate_phase c)) && negb (is_expired now c).

(** Planned in this pass: open, with no verdict against it. *)
Definition admitted (verdicts : gmap string NotPlanned) (c : Candidate) : bool :=
  negb (is_terminal (candidate_phase c)) && bool_decide (verdicts !! cand_name c = None).

Lemma filter_bool_cons {A} (f : A → bool) x l :
  filter (λ y, f y) (x :: l) = if f x then x :: filter (λ y, f y) l else filter (λ y, f y) l.
Proof. rw filter_cons. by destruct (f x). Qed.

Section admission.
Context (now : Z).

Abbreviation classify l v b := (foldl (classify_step now) (v, b) l).

Lemma classify_other l v b n :
  n ∉ cand_name <$> l → (classify l v b).1 !! n = v !! n.
Proof.
  revert v b. induction l as [|c l IH]; intros v b; [done|]. cbn.
  intros [Hc Hl]%not_elem_of_cons.
  destruct (is_terminal _); [by apply IH|].
  destruct (is_expired now c); [by rw IH; [apply lookup_insert_ne|]|].
  destruct b; [by rw IH; [apply lookup_insert_ne|]|by apply IH].
Qed.

Lemma classify_step_cases v b c :
  let r := classify_step now (v, b) c in
  (is_terminal (candidate_phase c) = true ∧ r = (v, b)) ∨
  (is_terminal (candidate_phase c) = false ∧
     ((is_expired now c = true ∧ r = (<[cand_name c := NotPlanned.Expired]> v, b)) ∨
      (is_expired now c = false ∧ b = 0 ∧ r = (<[cand_name c := NotPlanned.OverBudget]> v, 0)) ∨
      (is_expired now c = false ∧ ∃ b', b = S b' ∧ r = (v, b')))).
Proof.
  cbn. destruct (is_terminal _); [by left|right]. split; [done|].
  destruct (is_expired now c); [by left|right]. destruct b as [|b]; [by left|right]. eauto.
Qed.

(** Who is planned, and who waits for the budget, when the list starts with [c]. *)
Lemma classify_admitted l v b :
  NoDup (cand_name <$> l) → (∀ c, c ∈ l → v !! cand_name c = None) →
  filter (λ c, admitted (classify l v b).1 c) l = take b (filter (λ c, waiting now c) l).
Proof.
  revert v b. induction l as [|c l IH]; intros v b; [by rw take_nil|].
  rw fmap_cons. intros [Hc Hnd]%NoDup_cons Hv.
  assert (∀ v1 : gmap string NotPlanned, (∀ n, n ≠ cand_name c → v1 !! n = v !! n) → ∀ d, d ∈ l → v1 !! cand_name d = None) as Hv1.
  { intros v1 Heq d Hd. rw Heq; [apply Hv; by right|]. intros Hdc. apply Hc. rw -Hdc. by apply list_elem_of_fmap_2. }
  pose proof (Hv c (list_elem_of_here _ _)) as Hvc.
  rw !filter_bool_cons. unfold waiting at 1. unfold admitted at 1. cbn [foldl].
  destruct (classify_step_cases v b c) as [[Ht ->]|[Ht [[He ->]|[(He & -> & ->)|(He & b' & -> & ->)]]]];
    rw Ht ?He; cbn [negb andb]; rw ?(classify_other l _ _ (cand_name c) Hc) ?lookup_insert_eq ?Hvc; cbn [bool_decide take].
  - apply IH; [done|]. by apply Hv1.
  - apply IH; [done|]. apply Hv1. intros n Hn. by apply lookup_insert_ne.
  - apply IH; [done|]. apply Hv1. intros n Hn. by apply lookup_insert_ne.
  - f_equal. apply IH; [done|]. by apply Hv1.
Qed.

(** The verdict, by what is left of the budget when the candidate's turn comes. *)
Lemma classify_verdict l k c v b :
  NoDup (cand_name <$> l ++ c :: k) → (∀ d, d ∈ l ++ c :: k → v !! cand_name d = None) →
  (classify (l ++ c :: k) v b).1 !! cand_name c =
    if is_terminal (candidate_phase c) then None
    else if is_expired now c then Some NotPlanned.Expired
    else if (b <=? length (filter (λ d, waiting now d) l))%nat then Some NotPlanned.OverBudget else None.
Proof.
  revert v b. induction l as [|d l IH]; intros v b; rw fmap_cons; intros [Hd Hnd]%NoDup_cons Hv.
  - cbn [app foldl]. destruct (classify_step_cases v b c) as [[Ht ->]|[Ht [[He ->]|[(He & -> & ->)|(He & b' & -> & ->)]]]];
      rw Ht ?He classify_other //.
    + apply Hv. by left.
    + by rw lookup_insert_eq.
    + by rw lookup_insert_eq.
    + apply Hv. by left.
  - assert (∀ v1 : gmap string NotPlanned, (∀ n, n ≠ cand_name d → v1 !! n = v !! n) →
      ∀ e, e ∈ l ++ c :: k → v1 !! cand_name e = None) as Hv1.
    { intros v1 Heq e He. rw Heq; [apply Hv; by right|]. intros Hed. apply Hd. rw -Hed. by apply list_elem_of_fmap_2. }
    cbn [app foldl]. rw filter_bool_cons. unfold waiting at 1.
    destruct (classify_step_cases v b d) as [[Ht ->]|[Ht [[He ->]|[(He & -> & ->)|(He & b' & -> & ->)]]]];
      rw Ht ?He; cbn [negb andb]; rw IH //.
    all: apply Hv1; intros n Hn; by rw ?lookup_insert_ne.
Qed.
End admission.

Lemma oldest_first_perm candidates : oldest_first candidates ≡ₚ candidates.
Proof. apply merge_sort_Permutation. Qed.

Lemma oldest_first_sorted candidates : StronglySorted filed_le (oldest_first candidates).
Proof. apply (StronglySorted_merge_sort _). Qed.

(** the budget serves the oldest proposals. Of the candidates that are open and not
    abandoned, a pass plans the first thirty-two in the order they were filed, no more and
    no fewer; one is turned away only when thirty-two are planned that were all filed no
    later; exactly the open candidates past their time to live expire, and one labelled
    to be kept never does. *)
Theorem admission_serves_the_oldest (now : Z) (candidates : list Candidate) :
  NoDup (cand_name <$> candidates) →
  let listed := oldest_first candidates in
  let verdicts := classify_open_candidates now listed in
  let planned := filter (λ c, admitted verdicts c) listed in
  planned = take DEFAULT_MAX_OPEN_CANDIDATES (filter (λ c, waiting now c) listed) ∧
  ∀ d, d ∈ candidates →
    (verdicts !! cand_name d = Some NotPlanned.Expired ↔
       is_terminal (candidate_phase d) = false ∧ is_expired now d = true) ∧
    (candidate_exempt d = true → verdicts !! cand_name d ≠ Some NotPlanned.Expired) ∧
    (verdicts !! cand_name d = Some NotPlanned.OverBudget →
       length planned = DEFAULT_MAX_OPEN_CANDIDATES ∧ ∀ c, c ∈ planned → filed_le c d).
Proof.
  intros Hnd listed verdicts planned. pose proof (oldest_first_perm candidates) as Hperm.
  fold listed in Hperm. assert (NoDup (cand_name <$> listed)) as Hndl by by rw Hperm.
  assert (planned = take DEFAULT_MAX_OPEN_CANDIDATES (filter (λ c, waiting now c) listed)) as Hpl
    by by apply classify_admitted.
  split; [done|]. intros d Hd. rw -Hperm in Hd. apply list_elem_of_split in Hd as (l & k & Hl).
  assert (verdicts !! cand_name d =
    if is_terminal (candidate_phase d) then None
    else if is_expired now d then Some NotPlanned.Expired
    else if (DEFAULT_MAX_OPEN_CANDIDATES <=? length (filter (λ d, waiting now d) l))%nat
         then Some NotPlanned.OverBudget else None) as Hv.
  { unfold verdicts, classify_open_candidates. rw Hl. apply classify_verdict; [by rw -Hl|done]. }
  rw Hv. clear Hv. split_and!.
  - destruct (is_terminal _); [naive_solver|]. destruct (is_expired now d); [done|].
    destruct (_ <=? _)%nat; naive_solver.
  - intros Hex. unfold is_expired. rw Hex. cbn [negb andb]. destruct (is_terminal _); [done|].
    by destruct (_ <=? _)%nat.
  - destruct (is_terminal _); [done|]. destruct (is_expired now d); [done|].
    destruct (Nat.leb_spec DEFAULT_MAX_OPEN_CANDIDATES (length (filter (λ d, waiting now d) l))) as [Hle|]; [|done].
    intros _. rw Hl filter_app take_app_le // in Hpl. rw Hpl. split; [by apply length_take_le|].
    intros c Hc. apply list_elem_of_lookup_1 in Hc as [i Hc]. apply lookup_take_Some in Hc as [Hc _].
    apply list_elem_of_lookup_2, list_elem_of_filter in Hc as [_ Hc].
    eapply (StronglySorted_app_le filed_le l (d :: k)); [rw -Hl; apply oldest_first_sorted|done|by left].
Qed.

(** ** The pass *)

Lemma adopt_status_step candidate s : rtc candidate_step s (adopt_status candidate s).
Proof. unfold adopt_status. destruct (_ && _); [done|]. apply rtc_once, step_stamp. Qed.

Lemma adopt_status_phase candidate s : cs_phase (adopt_status candidate s) = cs_phase s.
Proof. unfold adopt_status. by destruct (_ && _). Qed.

Lemma invalidate_step now cause s : rtc candidate_step s (invalidate now cause s).
Proof.
  unfold invalidate, needs_parent_invalidation. destruct (is_terminal _) eqn:Ht; [done|]. cbn [negb andb].
  destruct (_ || _); [|done]. apply rtc_once. by apply (step_mutation (set_blocked_condition now cause)); [constructor|].
Qed.

(** A pass over a candidate is a sequence of the writes its status may see. *)
Lemma candidate_pass_steps now adopted verdict denied gate generation planning candidate s :
  rtc candidate_step s (candidate_pass now adopted verdict denied gate generation planning candidate s).
Proof.
  unfold candidate_pass. destruct adopted; cbn [negb]; [|apply invalidate_step].
  transitivity (adopt_status candidate s); [apply adopt_status_step|].
  destruct (is_terminal (cs_phase (adopt_status candidate s))) eqn:Ht; [done|].
  set (t := adopt_status candidate s) in *.
  assert (∀ f, operator_mutation f → rtc candidate_step t (f (clear_preflight t))) as Hf.
  { intros f Hf. by apply rtc_once, step_mutation. }
  destruct verdict as [[]|]; [apply Hf; constructor|apply Hf; constructor|].
  destruct denied as [[]|]; [apply Hf; constructor| |apply invalidate_step].
  destruct gate as [state|cause]; [|apply Hf; constructor].
  destruct planning as [outcome| |message]; [apply Hf; constructor|done|apply Hf; constructor].
Qed.

(** An open candidate that a reviewer may take for evaluated: it has a preflight, or it
    is [Ready]. *)
Definition shows_preview (s : CandidateStatus) : Prop :=
  is_Some (cs_execution_preflight s) ∨ condition_true (cs_conditions s) "Ready".

#[export] Instance condition_true_dec cs type_ : Decision (condition_true cs type_).
Proof.
  destruct (decide (Exists (λ c, condition_type c = type_ ∧ condition_status c = "True") cs)) as [H|H];
    [left|right]; by rw Exists_exists in H.
Defined.
#[export] Instance shows_preview_dec s : Decision (shows_preview s).
Proof. unfold shows_preview. apply _. Defined.

Lemma not_ready s now reason message :
  ¬ condition_true (cs_conditions (with_condition s (ready_condition now false reason message))) "Ready".
Proof. cbn. rw set_condition_true. by case_decide. Qed.

Lemma invalidated now cause s :
  is_terminal (cs_phase s) = false → ¬ shows_preview (invalidate now cause s).
Proof.
  intros Ht. unfold invalidate. destruct (needs_parent_invalidation s) eqn:Hn.
  - intros [[p Hp]|Hr]; [done|]. revert Hr. apply not_ready.
  - unfold needs_parent_invalidation in Hn. rw Ht in Hn. cbn [negb andb] in Hn.
    apply orb_false_iff in Hn as [Hp%bool_decide_eq_false He]. intros [Hs|(c & Hc & Hty & Hst)]; [done|].
    assert (existsb (λ c, String.eqb (condition_type c) "Ready" && String.eqb (condition_status c) "True")
      (cs_conditions s) = true) as Ht'; [|congruence].
    apply existsb_exists. exists c. split; [by apply list_elem_of_In|]. by rw Hty Hst.
Qed.

(** The preview was computed in this pass. *)
Definition evaluated_now (now : string) (generation : option Z) (state : ParentEvaluationState)
    (s : CandidateStatus) : Prop :=
  ∀ p, cs_execution_preflight s = Some p →
    evaluated_at p = now ∧ parent_generation p = generation ∧ parent_state p = state.

Lemma record_outcome_now now outcome generation state s :
  cs_execution_preflight s = None →
  evaluated_now now generation state
    (record_outcome now outcome {| ev_evaluated_at := now; ev_parent_generation := generation; ev_parent_state := state |} s).
Proof. intros _ p. by destruct outcome; intros [= <-]. Qed.

(** What a pass that leaves a preview to see has found. *)
Lemma candidate_pass_shows now adopted verdict denied gate generation planning candidate s :
  is_terminal (cs_phase s) = false →
  let s' := candidate_pass now adopted verdict denied gate generation planning candidate s in
  shows_preview s' →
  adopted = true ∧ verdict = None ∧ denied = Some false ∧
  ∃ state, gate = ParentGate.Open state ∧
    ((planning = TargetLocked ∧ s' = adopt_status candidate s) ∨
     ((∃ outcome, planning = Outcome outcome) ∧ evaluated_now now generation state s')).
Proof.
  intros Ht s'. subst s'. unfold candidate_pass. destruct adopted; cbn [negb]; [|by intros ?%invalidated].
  rw adopt_status_phase Ht. set (t := adopt_status candidate s).
  assert (is_terminal (cs_phase t) = false) as Ht' by by rw adopt_status_phase.
  assert (∀ s reason message, cs_execution_preflight s = None →
    ¬ shows_preview (with_condition s (ready_condition now false reason message))) as Hready.
  { intros s0 reason message Hp [[p Hp']|Hr]; [cbn in Hp'; congruence|]. revert Hr. apply not_ready. }
  destruct verdict as [[]|]; [by intros ?%Hready..|].
  destruct denied as [[]|]; [by intros ?%Hready| |by intros ?%invalidated].
  destruct gate as [state|cause]; [|by intros ?%Hready].
  destruct planning as [outcome| |message]; [| |by intros ?%Hready]; intros Hs; split_and!; try done; exists state.
  - split; [done|]. right. split; [by eexists|]. by apply record_outcome_now.
  - split; [done|]. by left.
Qed.

Definition status_of (c : Candidate) : CandidateStatus := default default_candidate_status (cand_status c).

Lemma status_of_phase c : cs_phase (status_of c) = candidate_phase c.
Proof. unfold status_of, candidate_phase. by destruct (cand_status c). Qed.

Lemma pass_over_status now policy generation gate verdicts inputs c :
  status_of (pass_over now policy generation gate verdicts inputs c) =
  candidate_pass now (adoption_succeeds inputs c) (verdicts !! cand_name c)
    (flip plan_was_denied c <$> plans_read inputs c) gate generation (planned inputs c) c (status_of c).
Proof.
  unfold pass_over. destruct (adoption_succeeds inputs c) eqn:Ha; cbn [negb andb]; [done|].
  case_bool_decide as Hs; [|done]. unfold status_of. by rw Hs.
Qed.

Lemma pass_over_name now policy generation gate verdicts inputs c :
  cand_name (pass_over now policy generation gate verdicts inputs c) = cand_name c ∧
  cand_uid (pass_over now policy generation gate verdicts inputs c) = cand_uid c.
Proof. unfold pass_over. destruct (_ && _); [done|]. by destruct (adoption_succeeds inputs c). Qed.

(** An open candidate with a preview to see. *)
Definition previews (c : Candidate) : Prop :=
  is_terminal (candidate_phase c) = false ∧ shows_preview (status_of c).

#[export] Instance previews_dec c : Decision (previews c).
Proof. unfold previews. apply _. Defined.

Lemma filter_fmap_le {A B} (P : B → Prop) (Q : A → Prop) `{!∀ x, Decision (P x), !∀ x, Decision (Q x)}
    (f : A → B) l :
  (∀ x, P (f x) → Q x) → length (filter P (f <$> l)) ≤ length (filter Q l).
Proof.
  intros HPQ. induction l as [|x l IH]; [done|]. rw fmap_cons !filter_cons.
  case_decide as Hp; case_decide as Hq; cbn; [lia|naive_solver|lia|done].
Qed.

Lemma pass_over_previews now policy generation gate verdicts inputs c :
  let c' := pass_over now policy generation gate verdicts inputs c in
  previews c' →
  admitted verdicts c = true ∧ adoption_succeeds inputs c = true ∧
  flip plan_was_denied c <$> plans_read inputs c = Some false ∧
  ∃ state, gate = ParentGate.Open state ∧
    (planned inputs c = TargetLocked ∨
     ((∃ outcome, planned inputs c = Outcome outcome) ∧ evaluated_now now generation state (status_of c'))).
Proof.
  intros c' [Hopen Hs]. subst c'. rw -status_of_phase pass_over_status in Hopen.
  rw pass_over_status in Hs.
  assert (is_terminal (cs_phase (status_of c)) = false) as Ht.
  { destruct (is_terminal (cs_phase (status_of c))) eqn:Ht; [|done].
    pose proof (λ a v d p, steps_keep_terminal _ _ (candidate_pass_steps now a v d gate generation p c (status_of c)) Ht) as Hk.
    rw (proj1 (Hk _ _ _ _)) in Hopen. congruence. }
  apply candidate_pass_shows in Hs as (Ha & Hv & Hd & state & Hg & Hplan); [|done].
  unfold admitted. rw -status_of_phase Ht Hv. split_and!; [done..|]. exists state.
  split; [done|]. destruct Hplan as [[? _]|?]; [by left|right; by rw pass_over_status].
Qed.

(** no stale preview survives a pass. Every write of a pass is one that a candidate's
    status may see. An open candidate that shows a preview afterwards was admitted and
    adopted, its plans were read and none is denied, the parent's gate is open, and the
    preview was computed in this pass, under the generation and the state of the parent it
    names, unless the target's lock was held by someone else; and at most thirty-two
    candidates show one. *)
Theorem previews_are_current (now : string) (now_ns : Z) (policy : Policy) (generation : option Z)
    (gate : ParentGate) (inputs : PassInputs) (candidates : list Candidate) :
  NoDup (cand_name <$> candidates) →
  let after := passed now now_ns policy generation gate inputs candidates in
  length (filter previews after) ≤ DEFAULT_MAX_OPEN_CANDIDATES ∧
  ∀ c', c' ∈ after → ∃ c, c ∈ candidates ∧ candidate_belongs_to policy c = true ∧
    cand_name c' = cand_name c ∧ cand_uid c' = cand_uid c ∧
    rtc candidate_step (status_of c) (status_of c') ∧
    (previews c' →
       adoption_succeeds inputs c = true ∧
       (∃ plans, plans_read inputs c = Some plans ∧ plan_was_denied plans c = false) ∧
       ∃ state, gate = ParentGate.Open state ∧
         (planned inputs c = TargetLocked ∨
          ((∃ outcome, planned inputs c = Outcome outcome) ∧
           evaluated_now now generation state (status_of c')))).
Proof.
  intros Hnd after. set (own := filter (λ c, candidate_belongs_to policy c) candidates).
  pose proof (oldest_first_perm own) as Hperm.
  assert (NoDup (cand_name <$> oldest_first own)) as Hndl.
  { rw Hperm. eapply sublist_NoDup; [exact Hnd|]. exact (fmap_sublist cand_name _ _ (sublist_filter _ _)). }
  split.
  - etransitivity; [eapply (filter_fmap_le previews (λ c, admitted (classify_open_candidates now_ns (oldest_first own)) c))|].
    + intros c Hp%pass_over_previews. apply Is_true_true. by destruct Hp as [? _].
    + unfold classify_open_candidates. rw classify_admitted //. rw length_take. lia.
  - intros c' (c & -> & Hc)%list_elem_of_fmap. rw Hperm in Hc.
    apply list_elem_of_filter in Hc as [Hb%Is_true_true Hc]. exists c.
    destruct (pass_over_name now policy generation gate
      (classify_open_candidates now_ns (oldest_first own)) inputs c) as [Hn Hu].
    split_and!; [done..| |].
    + rw pass_over_status. apply candidate_pass_steps.
    + intros Hp%pass_over_previews. destruct Hp as (_ & Ha & Hd & Hs). split_and!; [done| |done].
      destruct (plans_read inputs c) as [plans|]; [|done]. exists plans. split; [done|].
      by injection Hd.
Qed.

(** ** Pruning *)

Section prune.
Context (parse_rfc3339_epoch_secs : string → option Z).

Abbreviation prune records retention now_ts :=
  (terminal_candidates_to_prune parse_rfc3339_epoch_secs records retention now_ts).
Abbreviation evict records retention now_ts :=
  (applied_plans_to_evict parse_rfc3339_epoch_secs ((executed records).*2) retention now_ts).

#[local] Instance oldest_candidate_trans : Transitive oldest_candidate_le.
Proof. intros c d e. apply (transitivity (R := ord_le)). Qed.
#[local] Instance oldest_candidate_total : Total oldest_candidate_le.
Proof. intros c d. apply (base.total ord_le). Qed.

(** The churn that goes, and that what stays is the newest. *)
Lemma churn_spec records :
  let excess :=
    if (DEFAULT_MAX_TERMINAL_CANDIDATES <? length (churn records))%nat
    then take (length (churn records) - DEFAULT_MAX_TERMINAL_CANDIDATES)
           (merge_sort oldest_candidate_le (churn records))
    else [] in
  ∃ kept, churn records ≡ₚ excess ++ kept ∧ length kept ≤ DEFAULT_MAX_TERMINAL_CANDIDATES ∧
    ∀ c d, c ∈ excess → d ∈ kept → oldest_candidate_le c d.
Proof.
  cbn zeta. destruct (Nat.ltb_spec DEFAULT_MAX_TERMINAL_CANDIDATES (length (churn records))) as [Hgt|Hle].
  2: { exists (churn records). split_and!; [done..|]. by intros c d ?%not_elem_of_nil. }
  set (n := length (churn records) - DEFAULT_MAX_TERMINAL_CANDIDATES).
  set (sorted := merge_sort oldest_candidate_le (churn records)).
  assert (sorted ≡ₚ churn records) as Hperm by apply merge_sort_Permutation.
  exists (drop n sorted). split_and!.
  - by rw take_drop Hperm.
  - rw length_drop (Permutation_length Hperm). lia.
  - intros c d. apply (StronglySorted_app_le oldest_candidate_le). rw take_drop.
    apply (StronglySorted_merge_sort _).
Qed.

Lemma filter_Permutation_split {A} (P : A → Prop) `{!∀ x, Decision (P x)} (l : list A) :
  l ≡ₚ filter P l ++ filter (λ x, ¬ P x) l.
Proof.
  induction l as [|x l IH]; [done|]. rw !filter_cons. destruct (decide (P x)) as [Hp|Hp].
  - rw (decide_False (P := ¬ P x)); [|tauto]. cbn. by rw -IH.
  - rw (decide_True (P := ¬ P x)) //. by rw -Permutation_middle -IH.
Qed.

(** With distinct names, the evicted plans lead back to their candidates. *)
Lemma evicted_pairs (l : list (Candidate * PolicyPlan)) evicted kept :
  NoDup (plan_name <$> l.*2) → l.*2 ≡ₚ evicted ++ kept →
  (filter (λ p, plan_name p.2 ∈ plan_name <$> evicted) l).*2 ≡ₚ evicted ∧
  (filter (λ p, plan_name p.2 ∉ plan_name <$> evicted) l).*2 ≡ₚ kept.
Proof.
  intros Hnd Hperm. assert (NoDup (plan_name <$> evicted ++ kept)) as Hnd' by by rw -Hperm.
  assert (∀ p, p ∈ kept → plan_name p ∉ plan_name <$> evicted) as Hdis.
  { rw fmap_app in Hnd'. apply NoDup_app in Hnd' as (_ & Hd & _). intros p Hp Hin.
    by apply (Hd _ Hin), list_elem_of_fmap_2. }
  assert (∀ f : PolicyPlan → Prop, ∀ {Hf : ∀ p, Decision (f p)},
    (filter (λ p : Candidate * PolicyPlan, f p.2) l).*2 = filter f l.*2) as Hfilter.
  { intros f Hf. clear. induction l as [|p l IH]; [done|]. rw fmap_cons !filter_cons. case_decide; cbn; by rw IH. }
  pose proof (Hfilter (λ p, plan_name p ∈ plan_name <$> evicted) _) as H1.
  pose proof (Hfilter (λ p, plan_name p ∉ plan_name <$> evicted) _) as H2. cbn beta in H1, H2.
  rw H1 H2.
  rw Hperm !filter_app. split.
  - rw list_filter_all; [|by intros p Hp; apply list_elem_of_fmap_2].
    by rw list_filter_none // app_nil_r.
  - rw list_filter_none; [|by intros p Hp []; apply list_elem_of_fmap_2]. by rw list_filter_all.
Qed.

Lemma elem_of_churn records c :
  c ∈ churn records → ∃ r, r ∈ records ∧ r.1 = c ∧ record_exempt r = false.
Proof. intros (r & -> & [[Hr _] Hin]%list_elem_of_filter)%list_elem_of_fmap. by exists r. Qed.

Lemma elem_of_executed records x :
  x ∈ executed records → ∃ r, r ∈ records ∧ r.1 = x.1 ∧ record_exempt r = false.
Proof.
  intros (r & [Hr Hin]%list_elem_of_filter & Ha)%list_elem_of_omap. exists r. split_and!; [done| |done].
  destruct (applied_plan_of r); [|done]. by injection Ha as <-.
Qed.

Lemma parts_length records : length (churn records) + length (executed records) ≤ length records.
Proof.
  unfold churn, executed. induction records as [|r records IH]; [done|]. rw !filter_cons.
  destruct (decide (record_exempt r = false ∧ applied_plan_of r = None)) as [[He Ha]|Hn];
    destruct (decide (record_exempt r = false)) as [He'|He']; cbn; try rw Ha; cbn; [lia|done| |lia].
  destruct (applied_plan_of r); cbn; [lia|]. by destruct Hn.
Qed.

(** What a pass deletes is not labelled to be kept, and owns nothing that is. *)
Lemma pruned_record records retention now_ts c :
  c ∈ prune records retention now_ts → ∃ r, r ∈ records ∧ r.1 = c ∧ record_exempt r = false.
Proof.
  intros [Hc|(x & -> & [_ Hx]%list_elem_of_filter)%list_elem_of_fmap]%elem_of_app.
  - apply elem_of_churn. destruct (churn_spec records) as (kept & -> & _). apply elem_of_app. by left.
  - by apply elem_of_executed.
Qed.

(** Within every count bound nothing is pruned. *)
Lemma prune_within_bounds records retention now_ts :
  length records ≤ DEFAULT_MAX_TERMINAL_CANDIDATES → (N.of_nat (length records) ≤ applied retention)%N →
  prune records retention now_ts = [].
Proof.
  intros Hmax Happ. pose proof (parts_length records) as Hlen. unfold terminal_candidates_to_prune.
  destruct (Nat.ltb_spec DEFAULT_MAX_TERMINAL_CANDIDATES (length (churn records))) as [|_]; [lia|].
  assert (evict records retention now_ts = []) as ->.
  { unfold applied_plans_to_evict. rw length_fmap. destruct (merge_sort _ _) as [|p l]; [done|]. cbn.
    destruct (N.leb_spec (N.of_nat (length (executed records))) (applied retention)); [done|lia]. }
  rw list_filter_none //. intros p _ []%not_elem_of_nil.
Qed.

(** pruning keeps the history of what ran. When no two plans of the namespace share a
    name, a pass of pruning deletes a terminal candidate only if neither it nor a plan it
    owns is labelled to be kept; the candidates that never ran anything keep the ten
    newest; the executed ones are deleted exactly with the plans retention itself would
    evict, so at most the ceiling of executed candidates stays, never the older of two, and
    one younger than the floor goes only above the ceiling. The early return that spares
    reading the plans changes nothing. *)
Theorem pruning_keeps_history (lookup : string → option string) (retention : PlanRetention)
    (candidates : list Candidate) (plans : list PolicyPlan) (now_ts : Z) :
  from_lookup lookup = Ok retention →
  let records := terminal_records candidates plans in
  let epoch := applied_epoch_secs parse_rfc3339_epoch_secs in
  NoDup (plan_name <$> (executed records).*2) →
  cleanup_terminal_candidates parse_rfc3339_epoch_secs candidates (Some plans) retention now_ts =
    prune records retention now_ts ∧
  (∀ c, c ∈ prune records retention now_ts →
     c ∈ candidates ∧ is_terminal (candidate_phase c) = true ∧ candidate_exempt c = false ∧
     ∀ p, p ∈ owned_plans plans c → is_retention_exempt p = false) ∧
  ∃ churned ran kept kept_ran,
    prune records retention now_ts = churned ++ ran.*1 ∧
    churn records ≡ₚ churned ++ kept ∧ length kept ≤ DEFAULT_MAX_TERMINAL_CANDIDATES ∧
    (∀ c d, c ∈ churned → d ∈ kept → oldest_candidate_le c d) ∧
    executed records ≡ₚ ran ++ kept_ran ∧ (N.of_nat (length kept_ran) ≤ applied_ceiling retention)%N ∧
    (∀ r k s t, r ∈ ran → k ∈ kept_ran → epoch r.2 = Some s → epoch k.2 = Some t → (s ≤ t)%Z) ∧
    (∀ r, r ∈ ran →
       (applied_age_secs parse_rfc3339_epoch_secs r.2 now_ts < applied_min_age_secs retention)%Z →
       (applied_ceiling retention < N.of_nat (length (executed records)))%N).
Proof.
  intros [[Hac _] _]%from_lookup_valid records epoch Hnd. split_and!.
  - unfold cleanup_terminal_candidates. destruct (_ && _) eqn:Hfits; [|done].
    apply andb_true_iff in Hfits as [Hmax%Nat.leb_le Happ%N.leb_le]. symmetry.
    apply prune_within_bounds; by rw length_fmap.
  - intros c (r & (d & -> & [Ht%Is_true_true Hd]%list_elem_of_filter)%list_elem_of_fmap & <- & Hex)%pruned_record.
    apply orb_false_iff in Hex as [Hc Hp]. split_and!; [done..|]. cbn. intros p Hpl.
    destruct (is_retention_exempt p) eqn:He; [|done].
    assert (existsb is_retention_exempt (owned_plans plans d) = true) as Ht'; [|by rw Ht' in Hp].
    apply existsb_exists. exists p. split; [by apply list_elem_of_In|done].
  - destruct (churn_spec records) as (kept & Hch & Hlen & Hold).
    destruct (applied_plans_spec parse_rfc3339_epoch_secs retention now_ts ((executed records).*2) Hac)
      as (kept_plans & Hperm & Hcount & Hages & Hfloor).
    destruct (evicted_pairs _ _ _ Hnd Hperm) as [Hran Hkept].
    set (names := plan_name <$> evict records retention now_ts) in *.
    eexists _, (filter (λ p, plan_name p.2 ∈ names) (executed records)), kept,
      (filter (λ p, plan_name p.2 ∉ names) (executed records)).
    assert (∀ r, r ∈ filter (λ p, plan_name p.2 ∈ names) (executed records) →
      r.2 ∈ evict records retention now_ts) as Hin.
    { intros r Hr. rw -Hran. by apply list_elem_of_fmap_2. }
    split_and!; [done|exact Hch|done|exact Hold|apply filter_Permutation_split| | |].
    + by rw -(length_fmap snd) Hkept.
    + intros r k s t Hr Hk. apply Hages; [by apply Hin|]. rw -Hkept. by apply list_elem_of_fmap_2.
    + intros r Hr Hage. rw -(length_fmap snd). by apply (Hfloor r.2); [apply Hin|].
Qed.
End prune.
