(* ===== verification/PromotionWitnesses.v ===== *)
(** * Concrete candidates

    The theorems on candidates, their content and their promotion applied to a policy
    with a few proposals. *)

From S2P Require Import Prelude BTree RustStr Types Manifest Model Change Plan Approval ApprovalWitnesses PlanStatus PlanWrites PlanSql PlanCreation PlanCreationFacts PlanExecution PlanExecutionFacts Durations PlanRetention PlanWitnesses ContentDigest CandidateStatus CandidateWrites Promotion PromotionFacts PromotionRecord CandidatePlanning CandidatePlanningFacts.

Module CandidateScene.
Import PlanScene.

Definition policy : Policy := {|
  policy_name := "app"; policy_uid_of := Some "uid-p"; policy_mode := PolicyMode.Apply;
  policy_approval := Some ApprovalMode.Manual |}.

Definition proposed : CandidateStatus := {|
  cs_phase := CandidatePhase.Planned; cs_content_digest := Some "sha256:new";
  cs_plan_ref := Some "c1-plan"; cs_execution_preflight := None; cs_conditions := [];
  cs_observed_generation := Some 1%Z |}.

Definition candidate (name uid : string) (s : option CandidateStatus) : Candidate := {|
  cand_name := name; cand_uid := Some uid; resource_version := Some "1";
  cand_generation := Some 1%Z; cand_creation_timestamp := Some 1%Z; cand_labels := None;
  cand_owner_references := [{| owner_kind := "PostgresPolicy"; owner_uid := "uid-p"; controller := Some true |}];
  cand_policy_ref := "app"; cand_replaces := None; CandidateStatus.content_digest := "sha256:new";
  cand_status := s |}.

Definition pinned_spec (base : string) : PlanSpec := {|
  policy_ref := "app"; policy_generation := 3; reconciliation_mode := CrdReconciliationMode.Authoritative;
  owned_roles := ["app"]; owned_schemas := []; managed_database_identity := "default/db";
  origin := Some {| origin_kind := "PostgresPolicyCandidate"; origin_name := "c1"; origin_uid := "uid-1";
    PlanStatus.content_digest := Some "sha256:new"; content_digest_encoding := None; policy_uid := Some "uid-p";
    base_content_digest := Some base |};
  scope := None |}.

Definition plan (base : string) : PolicyPlan := {|
  plan_name := "c1-plan"; creation_timestamp := Some 1%Z; labels := None;
  owner_references := [{| owner_kind := "PostgresPolicyCandidate"; owner_uid := "uid-1"; controller := Some true |}];
  spec := pinned_spec base; status := Some approved_by_alice |}.

(** The approval is given against [reviewed]; the policy last carried [carried]. *)
Definition world (reviewed carried : string) : World := {|
  w_candidates := [candidate "c1" "uid-1" (Some proposed); candidate "c2" "uid-2" (Some proposed)];
  w_plans := [plan reviewed]; w_content_digest := Some carried |}.

Lemma world_distinct reviewed carried : NoDup (cand_name <$> w_candidates (world reviewed carried)).
Proof. apply (bool_decide_unpack _). by vm_compute. Qed.
End CandidateScene.

Import CandidateScene.

Lemma promoted_execution_is_authorised_witness :
  let w := world "sha256:base" "sha256:base" in
  let plan := plan "sha256:base" in
  (recognize PlanScene.now policy "sha256:new" w).1 = Some plan ∧ adoptable policy "sha256:new" w plan.
Proof.
  split; [reflexivity|].
  apply (promoted_execution_is_authorised PlanScene.now policy "sha256:new"
    (world "sha256:base" "sha256:base") (recognize PlanScene.now policy "sha256:new" (world "sha256:base" "sha256:base")).2
    (plan "sha256:base") PlanScene.parse_ts PlanScene.source_digest
    (PlanScene.reconcile_inputs "d1") (world_distinct _ _)); reflexivity.
Defined.

(** The content arrives while the policy carries another base: refused, then adopted. *)
Lemma base_check_lapses_witness :
  let w := world "sha256:reviewed" "sha256:other" in
  let '(first, w1) := recognize PlanScene.now policy "sha256:new" w in
  let '(second, _) := recognize PlanScene.now policy "sha256:new" w1 in
  first = None ∧
  ∃ plan base, second = Some plan ∧ plan ∈ w_plans w ∧
    check_plan_approval (status plan) = PlanApprovalState.Approved ∧
    plan_base_pin plan = Some base ∧ w_content_digest w ≠ Some base.
Proof.
  apply (base_check_lapses PlanScene.now PlanScene.now policy "sha256:new"
    (world "sha256:reviewed" "sha256:other") ["c1"]
    (facts_of [plan "sha256:reviewed"] (candidate "c1" "uid-1" (Some proposed)))
    {| pf_name := "c1-plan"; pf_approved := true; pf_base_content_digest := Some "sha256:reviewed" |}
    "sha256:reviewed" (world_distinct _ _)); try reflexivity.
  left.
Defined.


(** ** Content *)

Module ContentScene.
Definition written : Value :=
  Value.Object [("roles", Value.Array [Value.String "app"]); ("grants", Value.Array []);
                ("owner", Value.String "dba")].
Definition rewritten : Value :=
  Value.Object [("owner", Value.String "dba"); ("roles", Value.Array [Value.String "app"])].

Definition digest (v : Value) : string :=
  compute_content_digest id DigestScene.hash DigestScene.to_string v.

Lemma keyed_roles : well_keyed (Value.Array [Value.String "app"]).
Proof. apply keyed_array. by repeat constructor. Qed.
Lemma written_keyed : well_keyed written.
Proof.
  apply keyed_object; [apply (bool_decide_unpack _); by vm_compute|].
  repeat (apply Forall_cons; split; [|]); [apply keyed_roles|by apply keyed_array|by apply keyed_leaf|done].
Qed.
Lemma rewritten_keyed : well_keyed rewritten.
Proof.
  apply keyed_object; [apply (bool_decide_unpack _); by vm_compute|].
  repeat (apply Forall_cons; split; [|]); [by apply keyed_leaf|apply keyed_roles|done].
Qed.
End ContentScene.

Lemma content_digest_binds_witness :
  ContentScene.digest ContentScene.written = ContentScene.digest ContentScene.rewritten ∧
  same_content ContentScene.written ContentScene.rewritten.
Proof.
  assert (ContentScene.digest ContentScene.written = ContentScene.digest ContentScene.rewritten) as Heq
    by reflexivity.
  split; [exact Heq|].
  apply (content_digest_binds id DigestScene.hash DigestScene.to_string ContentScene.written
    ContentScene.rewritten ContentScene.written_keyed ContentScene.rewritten_keyed). exact Heq.
Defined.

(** ** Statuses *)

Definition planned_now : CandidateStatus :=
  record_outcome "t1" (CandidateOutcome.Planned "c1-plan" 3)
    {| ev_evaluated_at := "t1"; ev_parent_generation := Some 1%Z;
       ev_parent_state := ParentEvaluationState.Converged |} (clear_preflight default_candidate_status).

Definition promoted_now : CandidateStatus := mark_promoted "t2" "applied" (clear_preflight planned_now).

Lemma planned_run : rtc candidate_step default_candidate_status planned_now.
Proof. apply rtc_once, step_mutation; [constructor|done]. Qed.
Lemma promoted_run : rtc candidate_step default_candidate_status promoted_now.
Proof. eapply rtc_r; [apply planned_run|]. apply step_mutation; [constructor|done]. Qed.

Lemma candidate_lifecycle_witness :
  condition_true (cs_conditions promoted_now) "Promoted" ∧
  cs_execution_preflight (stamp_identity "d" None (clear_preflight promoted_now)) = None.
Proof.
  destruct (candidate_lifecycle promoted_now (stamp_identity "d" None (clear_preflight promoted_now)))
    as [Hinv Hterm].
  - apply promoted_run.
  - apply rtc_once, step_stamp.
  - split; [by apply inv_promoted|]. by apply Hterm.
Defined.

(** Another writer blocks the candidate between the read and the write: the write lands on
    what that writer left. *)
Definition read : Candidate := candidate "c1" "uid-1" (Some planned_now).
Definition blocked_meanwhile : Candidate :=
  with_candidate_status read
    (set_blocked_condition "t2" BlockCause.Unstable (clear_preflight planned_now)) (Some "2").
Definition others (call : nat) (live : option Candidate) : option Candidate :=
  match call with O => Some blocked_meanwhile | _ => live end.
Definition state_at (uid version : option string) : Candidate :=
  if decide (version = Some "1") then read else blocked_meanwhile.
Definition run : WriteRun :=
  write_status others (λ _, true) (λ _, "3") read (mark_promoted "t3" "applied") (Some read).

Lemma candidate_write_is_atomic_witness :
  wr_result run = Landed ∧
  ∃ s, (blocked_meanwhile, s) ∈ wr_landed run ∧ candidate_step (status_of blocked_meanwhile) s.
Proof.
  destruct (candidate_write_is_atomic others (λ _, true) (λ _, "3") state_at
    (mark_promoted "t3" "applied") read (Some read)) as (_ & Hr & Hs).
  - intros [|n] live o Hlive; [by intros [= <-]|apply Hlive].
  - reflexivity.
  - by intros o [= <-].
  - constructor.
  - reflexivity.
  - split; [by apply Hr|].
    exists (mark_promoted "t3" "applied" (clear_preflight (status_of blocked_meanwhile))).
    assert ((blocked_meanwhile, mark_promoted "t3" "applied" (clear_preflight (status_of blocked_meanwhile)))
      ∈ wr_landed run) as Hin by left.
    split; [exact Hin|]. apply (Hs _ _ Hin).
Defined.

(** ** A flood of proposals *)

Definition proposal (n : nat) : Candidate := {|
  cand_name := "c" +:+ pretty n; cand_uid := Some ("uid-" +:+ pretty n); resource_version := Some "1";
  cand_generation := Some 1%Z; cand_creation_timestamp := Some (Z.of_nat n); cand_labels := None;
  cand_owner_references := []; cand_policy_ref := "app"; cand_replaces := None;
  CandidateStatus.content_digest := "sha256:new"; cand_status := None |}.

Definition flood : list Candidate := proposal <$> reverse (seq 1 34).

Lemma flood_distinct : NoDup (cand_name <$> flood).
Proof. apply (bool_decide_unpack _). by vm_compute. Qed.

Lemma admission_serves_the_oldest_witness :
  let planned := filter (λ c, admitted (classify_open_candidates 100 (oldest_first flood)) c) (oldest_first flood) in
  length planned = 32 ∧ ∀ c, c ∈ planned → filed_le c (proposal 34).
Proof.
  destruct (admission_serves_the_oldest 100 flood flood_distinct) as [_ H].
  destruct (H (proposal 34)) as (_ & _ & Hover).
  - apply list_elem_of_fmap_2, elem_of_reverse, elem_of_seq. lia.
  - apply Hover. by vm_compute.
Defined.

Definition flood_inputs : PassInputs := {|
  adoption_succeeds := λ _, true; plans_read := λ _, Some [];
  planned := λ _, Outcome (CandidateOutcome.Planned "p" 1) |}.

Lemma previews_are_current_witness :
  let after := passed "t1" 100 policy (Some 1%Z) (ParentGate.Open ParentEvaluationState.Converged)
    flood_inputs flood in
  length (filter previews after) = 32 ∧ length (filter previews after) ≤ DEFAULT_MAX_OPEN_CANDIDATES.
Proof.
  split; [by vm_compute|].
  apply (previews_are_current "t1" 100 policy (Some 1%Z) (ParentGate.Open ParentEvaluationState.Converged)
    flood_inputs flood flood_distinct).
Defined.

(** Twelve superseded proposals, and one that ran. *)
Definition ran : Candidate := with_candidate_status (proposal 1) promoted_now (Some "2").
Definition ran_plan : PolicyPlan := {|
  plan_name := "c1-plan"; creation_timestamp := Some 1%Z; labels := None;
  owner_references := [{| owner_kind := "PostgresPolicyCandidate"; owner_uid := "uid-1"; controller := Some true |}];
  spec := pinned_spec "sha256:base"; status := Some (applied_status PlanScene.now (Some PlanScene.applying)) |}.
Definition spent (n : nat) : Candidate :=
  with_candidate_status (proposal n)
    (mark_superseded "t1" "Replaced" "replaced" default_candidate_status) (Some "2").
Definition ended : list Candidate := ran :: (spent <$> seq 2 12).

Lemma pruning_keeps_history_witness :
  cleanup_terminal_candidates PlanScene.parse_ts ended (Some [ran_plan]) default_retention PlanScene.now_secs =
    terminal_candidates_to_prune PlanScene.parse_ts (terminal_records ended [ran_plan]) default_retention
      PlanScene.now_secs ∧
  cand_name <$> terminal_candidates_to_prune PlanScene.parse_ts (terminal_records ended [ran_plan])
      default_retention PlanScene.now_secs = ["c2"; "c3"].
Proof.
  split; [|by vm_compute].
  apply (pruning_keeps_history PlanScene.parse_ts (λ _, None) default_retention ended [ran_plan] PlanScene.now_secs).
  - reflexivity.
  - apply (bool_decide_unpack _). by vm_compute.
Defined.
