(* ===== verification/Ephemeral.v ===== *)
(** * Ephemeral access: policies, requests and their resolution ([ephemeral.rs], [crd.rs])

    The bundle of memberships an access policy offers, the request for it, and what a
    request resolves to.  Time stamps are printed and read by a library, the bundle is
    serialised and hashed by libraries: these are arguments. *)

From S2P Require Import Prelude BTree RustStr Types Manifest Model Guc Change Plan Sql Approval PlanStatus PlanSql Durations PlanRetention Promotion.

Definition EPHEMERAL_BUNDLE_ENCODING_V1 : string := "pgroles.io/ephemeral-membership-bundle-v1".
Definition EPHEMERAL_MEMBERSHIP_SEMANTICS_V1 : string :=
  "postgres-membership-v1-admin-false-set-server-default".
Definition RETRY_DELAY : N := 5.

(** ** The objects *)

Module EphemeralApprovalMode.
Inductive EphemeralApprovalMode : Set := Automatic | Required.
#[export] Instance ephemeral_mode_eq_dec : EqDecision EphemeralApprovalMode.
Proof. solve_decision. Defined.
End EphemeralApprovalMode.
Abbreviation EphemeralApprovalMode := EphemeralApprovalMode.EphemeralApprovalMode.
Export (hints) EphemeralApprovalMode.

Module RequestPhase.
(** [EphemeralAccessRequestPhase] *)
Inductive EphemeralAccessRequestPhase : Set :=
  | Pending | PendingApproval | Applying | Active | Revoking | Ended | Revoked | Cancelled
  | Denied | ApprovalExpired | Failed.
#[export] Instance request_phase_eq_dec : EqDecision EphemeralAccessRequestPhase.
Proof. solve_decision. Defined.
End RequestPhase.
Abbreviation EphemeralAccessRequestPhase := RequestPhase.EphemeralAccessRequestPhase.
Export (hints) RequestPhase.

(** [Display] prints the name of the variant. *)
Definition request_phase_text (p : EphemeralAccessRequestPhase) : string :=
  match p with
  | RequestPhase.Pending => "Pending"
  | RequestPhase.PendingApproval => "PendingApproval"
  | RequestPhase.Applying => "Applying"
  | RequestPhase.Active => "Active"
  | RequestPhase.Revoking => "Revoking"
  | RequestPhase.Ended => "Ended"
  | RequestPhase.Revoked => "Revoked"
  | RequestPhase.Cancelled => "Cancelled"
  | RequestPhase.Denied => "Denied"
  | RequestPhase.ApprovalExpired => "ApprovalExpired"
  | RequestPhase.Failed => "Failed"
  end.

Record EphemeralMembership := { em_role : string; em_inherit : bool }.

Record ResolvedEphemeralMembership := {
  rm_role : string;
  rm_member : string;
  rm_inherit : bool;
}.

#[export] Instance resolved_membership_eq_dec : EqDecision ResolvedEphemeralMembership.
Proof. solve_decision. Defined.

Record ResolvedEphemeralAccess := {
  access_policy_uid : string;
  access_policy_generation : Z;
  target_policy_uid : string;
  target_policy_generation : Z;
  target_database_fingerprint : string;
  granted_duration : string;
  bundle_encoding : string;
  resolved_bundle_hash : string;
  resolved_memberships : list ResolvedEphemeralMembership;
}.

#[export] Instance resolved_access_eq_dec : EqDecision ResolvedEphemeralAccess.
Proof. solve_decision. Defined.

Record EphemeralAccessCondition := {
  ec_type : string;
  ec_status : string;
  ec_reason : option string;
  ec_message : option string;
  ec_last_transition_time : option string;
  ec_bundle_hash : option string;
  ec_granted_duration : option string;
}.

#[export] Instance access_condition_eq_dec : EqDecision EphemeralAccessCondition.
Proof. solve_decision. Defined.

Record EphemeralAccessPolicyStatus := {
  ap_observed_generation : option Z;
  ap_conditions : list EphemeralAccessCondition;
  ap_resolved_roles : list string;
}.

Record EphemeralAccessPolicy := {
  ap_name : string;
  ap_uid : option string;
  ap_generation : option Z;
  ap_postgres_policy_ref : string;
  ap_memberships : list EphemeralMembership;
  ap_maximum_duration : string;
  ap_default_duration : option string;
  ap_pending_request_ttl : string;
  ap_justification_required : bool;
  ap_approval_mode : EphemeralApprovalMode;
  ap_suspend : bool;
  ap_status : option EphemeralAccessPolicyStatus;
}.

Record EphemeralAccessRequestStatus := {
  rs_phase : EphemeralAccessRequestPhase;
  rs_conditions : list EphemeralAccessCondition;
  rs_resolved_access : option ResolvedEphemeralAccess;
  rs_decided_by : option DecisionActor;
  rs_approval_expires_at : option string;
  rs_activated_at : option string;
  rs_expires_at : option string;
  rs_ended_at : option string;
  rs_last_error : option string;
  rs_retained_memberships : list ResolvedEphemeralMembership;
}.

Definition default_request_status : EphemeralAccessRequestStatus := {|
  rs_phase := RequestPhase.Pending; rs_conditions := []; rs_resolved_access := None;
  rs_decided_by := None; rs_approval_expires_at := None; rs_activated_at := None;
  rs_expires_at := None; rs_ended_at := None; rs_last_error := None;
  rs_retained_memberships := [] |}.

(** The metadata the operator reads, the spec and the status. *)
Record EphemeralAccessRequest := {
  rq_name : string;
  rq_uid : option string;
  rq_resource_version : N;
  rq_labels : gmap string string;
  rq_access_policy_ref : string;
  rq_subject : string;
  rq_requested_duration : option string;
  rq_justification : option string;
  rq_status : option EphemeralAccessRequestStatus;
}.

(** What the operator reads of the [PostgresPolicy] an access policy refers to: its
    manifest is [spec.to_policy_manifest()]. *)
Record TargetPolicy := {
  tp_name : string;
  tp_uid : option string;
  tp_generation : option Z;
  tp_mode : PolicyMode;
  tp_suspend : bool;
  tp_reconciliation_mode : CrdReconciliationMode;
  tp_database_identity : string;
  tp_manifest : PolicyManifest;
}.

(** ** Errors *)

Module EphemeralError.
Inductive EphemeralError : Set :=
  | Kube (message : string)
  | Reconcile (e : ReconcileError)
  | Context (message : string)
  | Invalid (message : string)
  | PendingCleanup (remaining : nat)
  | RequestIndexNotReady.
End EphemeralError.
Abbreviation EphemeralError := EphemeralError.EphemeralError.

(** [{:?}] of a duration: the pattern of the field admits nothing to escape. *)
Definition debug_text (value : string) : string :=
  DQ +:+ value +:+ DQ.

(** The texts of [parse_duration]. *)
Definition duration_text (value : string) (e : DurationError) : string :=
  match e with
  | DurationError.Empty => "duration must not be empty"
  | DurationError.InvalidNumber => "invalid duration " +:+ debug_text (trim value)
  | DurationError.InvalidUnit c => "invalid duration unit '" +:+ c +:+ "'"
  | DurationError.TooLarge => "duration is too large"
  | DurationError.NoUnit => "duration " +:+ debug_text (trim value) +:+ " must end in s, m, or h"
  | DurationError.Zero => "duration must be greater than zero"
  end.

Definition duration_of (value : string) : res EphemeralError N :=
  res_map_err (λ e, EphemeralError.Invalid (duration_text value e)) (parse_duration value).

(** ** Conditions *)

(** [truncate_utf8] of [ephemeral.rs] *)
Definition truncate_message (value : string) (max_bytes : nat) : string :=
  if (String.length value <=? max_bytes)%nat then value
  else String.substring 0 (boundary_below value max_bytes) value.

Definition access_condition (now condition_type : string) (status : bool) (reason message : string)
    : EphemeralAccessCondition := {|
  ec_type := condition_type; ec_status := if status then "True" else "False";
  ec_reason := Some reason; ec_message := Some (truncate_message message 2048);
  ec_last_transition_time := Some now; ec_bundle_hash := None; ec_granted_duration := None |}.

Definition says_the_same (existing condition : EphemeralAccessCondition) : bool :=
  String.eqb (ec_status existing) (ec_status condition) &&
  bool_decide (ec_reason existing = ec_reason condition) &&
  bool_decide (ec_message existing = ec_message condition) &&
  bool_decide (ec_bundle_hash existing = ec_bundle_hash condition) &&
  bool_decide (ec_granted_duration existing = ec_granted_duration condition).

Definition set_condition (conditions : list EphemeralAccessCondition)
    (condition : EphemeralAccessCondition) : list EphemeralAccessCondition :=
  let time :=
    match list_find (λ c, ec_type c = ec_type condition) conditions with
    | Some (_, existing) =>
        if says_the_same existing condition then ec_last_transition_time existing
        else ec_last_transition_time condition
    | None => ec_last_transition_time condition
    end in
  filter (λ c, ec_type c ≠ ec_type condition) conditions ++
  [{| ec_type := ec_type condition; ec_status := ec_status condition; ec_reason := ec_reason condition;
      ec_message := ec_message condition; ec_last_transition_time := time;
      ec_bundle_hash := ec_bundle_hash condition; ec_granted_duration := ec_granted_duration condition |}].

Definition condition_holds (condition_type : string) (c : EphemeralAccessCondition) : bool :=
  String.eqb (ec_type c) condition_type && String.eqb (ec_status c) "True".

Definition decision_condition (s : EphemeralAccessRequestStatus) (condition_type : string)
    : option EphemeralAccessCondition :=
  find (condition_holds condition_type) (rs_conditions s).

(** ** The bundle *)

Record CanonicalEphemeralBundle := {
  cb_bundle_encoding : string;
  cb_membership_semantics : string;
  cb_target_database_fingerprint : string;
  cb_memberships : list ResolvedEphemeralMembership;
}.

(** The derived order compares the fields in turn. *)
Definition membership_le : relation ResolvedEphemeralMembership :=
  λ m n, ord_le (rm_role m, (rm_member m, rm_inherit m)) (rm_role n, (rm_member n, rm_inherit n)).
#[export] Instance membership_le_dec : RelDecision membership_le.
Proof. intros m n. unfold membership_le. apply _. Defined.

Section resolution.
Context (to_vec : CanonicalEphemeralBundle → string) (sha256_hex : string → string)
  (jiff_from_second : Z → option string) (jiff_parse : string → option Z).

Definition canonical_bundle_bytes (self : ResolvedEphemeralAccess) : string :=
  to_vec {| cb_bundle_encoding := EPHEMERAL_BUNDLE_ENCODING_V1;
            cb_membership_semantics := EPHEMERAL_MEMBERSHIP_SEMANTICS_V1;
            cb_target_database_fingerprint := target_database_fingerprint self;
            cb_memberships := merge_sort membership_le (resolved_memberships self) |}.

Definition compute_bundle_hash (self : ResolvedEphemeralAccess) : string :=
  "sha256:" +:+ sha256_hex (canonical_bundle_bytes self).

Definition has_valid_bundle_hash (self : ResolvedEphemeralAccess) : bool :=
  String.eqb (bundle_encoding self) EPHEMERAL_BUNDLE_ENCODING_V1 &&
  String.eqb (resolved_bundle_hash self) (compute_bundle_hash self).

(** ** Times *)

Definition timestamp_from_epoch (seconds : N) : res EphemeralError string :=
  if (I64_MAX <? Z.of_N seconds)%Z
  then Err (EphemeralError.Invalid "timestamp exceeds the supported range")
  else
    match jiff_from_second (Z.of_N seconds) with
    | Some t => Ok t
    | None => Err (EphemeralError.Invalid "invalid timestamp: out of range")
    end.

Definition parse_timestamp (value : string) : option N :=
  seconds ← jiff_parse value;
  if (0 <=? seconds)%Z then Some (Z.to_N seconds) else None.

(** ** Resolution of a request *)

Definition policy_accepted (policy : EphemeralAccessPolicy) : bool :=
  match ap_status policy with
  | Some s =>
      bool_decide (ap_observed_generation s = ap_generation policy) &&
      forallb (λ t, existsb (condition_holds t) (ap_conditions s)) ["Accepted"; "ResolvedRefs"]
  | None => false
  end.

Definition justified (policy : EphemeralAccessPolicy) (request : EphemeralAccessRequest) : bool :=
  negb (ap_justification_required policy) ||
  match rq_justification request with
  | Some j => negb (String.eqb (trim j) "")
  | None => false
  end.

(** The loop over the memberships of the policy: each role is of the target, not external,
    and named once. *)
Fixpoint check_bundle (roles : gmap string RoleDefinition) (seen : gset string)
    (l : list EphemeralMembership) : res EphemeralError unit :=
  match l with
  | [] => Ok tt
  | membership :: l =>
      match roles !! em_role membership with
      | None => Err (EphemeralError.Invalid ("access policy role " +:+ em_role membership +:+
                  " is not in the current expanded target policy"))
      | Some role =>
          if rd_external role
          then Err (EphemeralError.Invalid ("access policy role " +:+ em_role membership +:+
                 " is externally managed"))
          else if bool_decide (em_role membership ∈ seen)
          then Err (EphemeralError.Invalid ("access policy role " +:+ em_role membership +:+
                 " appears more than once"))
          else check_bundle roles ({[em_role membership]} ∪ seen) l
      end
  end.

Definition expanded_of (target : TargetPolicy) : res EphemeralError ExpandedManifest :=
  res_map_err (λ e, EphemeralError.Reconcile (ReconcileError.ManifestExpansion e))
    (expand_manifest (tp_manifest target)).

Definition roles_by_name (expanded : ExpandedManifest) : gmap string RoleDefinition :=
  map_collect ((λ role, (rd_name role, role)) <$> em_roles expanded).

Definition bundle_of (policy : EphemeralAccessPolicy) (request : EphemeralAccessRequest)
    : list ResolvedEphemeralMembership :=
  (λ m, {| rm_role := em_role m; rm_member := rq_subject request; rm_inherit := em_inherit m |})
    <$> ap_memberships policy.

Definition with_bundle_hash (r : ResolvedEphemeralAccess) (hash : string) : ResolvedEphemeralAccess := {|
  access_policy_uid := access_policy_uid r; access_policy_generation := access_policy_generation r;
  target_policy_uid := target_policy_uid r; target_policy_generation := target_policy_generation r;
  target_database_fingerprint := target_database_fingerprint r; granted_duration := granted_duration r;
  bundle_encoding := bundle_encoding r; resolved_bundle_hash := hash;
  resolved_memberships := resolved_memberships r |}.

Definition requested_duration_of (policy : EphemeralAccessPolicy) (request : EphemeralAccessRequest)
    : res EphemeralError N :=
  match rq_requested_duration request, ap_default_duration policy with
  | Some duration, _ | None, Some duration => duration_of duration
  | None, None => Err (EphemeralError.Invalid "requestedDuration or defaultDuration is required")
  end.

(** Addition on [u64] of a release build. *)
Definition wrapping_add (a b : N) : N := ((a + b) mod (U64_MAX + 1))%N.

Definition resolve_request (policies : list EphemeralAccessPolicy) (targets : list TargetPolicy)
    (fingerprint : TargetPolicy → res EphemeralError string) (now : N)
    (request : EphemeralAccessRequest)
    : res EphemeralError (ResolvedEphemeralAccess * N * EphemeralApprovalMode * bool) :=
  match find (λ p, String.eqb (ap_name p) (rq_access_policy_ref request)) policies with
  | None => Err (EphemeralError.Kube "not found")
  | Some policy =>
      _ ← throw_if (negb (policy_accepted policy))
            (EphemeralError.Invalid "access policy current generation is not Accepted and Resolved");
      _ ← throw_if (negb (justified policy request)) (EphemeralError.Invalid "justification is required");
      match find (λ t, String.eqb (tp_name t) (ap_postgres_policy_ref policy)) targets with
      | None => Err (EphemeralError.Kube "not found")
      | Some target =>
          _ ← throw_if (never_executes (tp_mode target))
                (EphemeralError.Invalid "target PostgresPolicy must be in apply mode");
          expanded ← expanded_of target;
          _ ← check_bundle (roles_by_name expanded) ∅ (ap_memberships policy);
          _ ← throw_if (negb (existsb (λ r, String.eqb (rd_name r) (rq_subject request)) (em_roles expanded)))
                (EphemeralError.Invalid ("subject role " +:+ rq_subject request +:+
                   " is not in the expanded target policy"));
          requested ← requested_duration_of policy request;
          maximum ← duration_of (ap_maximum_duration policy);
          _ ← throw_if (maximum <? requested)%N
                (EphemeralError.Invalid "requested duration exceeds policy maximum");
          database ← fingerprint target;
          let resolved := {|
            access_policy_uid := default "" (ap_uid policy);
            access_policy_generation := default 0%Z (ap_generation policy);
            target_policy_uid := default "" (tp_uid target);
            target_policy_generation := default 0%Z (tp_generation target);
            target_database_fingerprint := database;
            granted_duration := format_duration requested;
            bundle_encoding := EPHEMERAL_BUNDLE_ENCODING_V1; resolved_bundle_hash := "";
            resolved_memberships := bundle_of policy request |} in
          ttl ← duration_of (ap_pending_request_ttl policy);
          let pending_deadline :=
            default (wrapping_add now ttl)
              ((rq_status request ≫= rs_approval_expires_at) ≫= parse_timestamp) in
          Ok (with_bundle_hash resolved (compute_bundle_hash resolved), pending_deadline,
              ap_approval_mode policy, ap_suspend policy || tp_suspend target)
      end
  end.

(** ** The status of a request *)

Definition with_deadline (s : EphemeralAccessRequestStatus) (activated expires : string)
    : EphemeralAccessRequestStatus := {|
  rs_phase := rs_phase s; rs_conditions := rs_conditions s; rs_resolved_access := rs_resolved_access s;
  rs_decided_by := rs_decided_by s; rs_approval_expires_at := rs_approval_expires_at s;
  rs_activated_at := Some activated; rs_expires_at := Some expires; rs_ended_at := rs_ended_at s;
  rs_last_error := rs_last_error s; rs_retained_memberships := rs_retained_memberships s |}.

Definition persist_activation_deadline (now : N) (resolved : ResolvedEphemeralAccess)
    (s : EphemeralAccessRequestStatus) : res EphemeralError EphemeralAccessRequestStatus :=
  if bool_decide (is_Some (rs_activated_at s)) && bool_decide (is_Some (rs_expires_at s)) then Ok s
  else
    duration ← duration_of (granted_duration resolved);
    match checked_add now duration with
    | None => Err (EphemeralError.Invalid "access expiry exceeds the supported range")
    | Some expiry =>
        activated ← timestamp_from_epoch now;
        expires ← timestamp_from_epoch expiry;
        Ok (with_deadline s activated expires)
    end.
End resolution.

(** ** Acceptance of an access policy *)

Section acceptance.
Context (now_text : string) (cluster_maximum cluster_pending_maximum : res EphemeralError N).

Definition with_policy_status (policy : EphemeralAccessPolicy) (s : EphemeralAccessPolicyStatus)
    : EphemeralAccessPolicy := {|
  ap_name := ap_name policy; ap_uid := ap_uid policy; ap_generation := ap_generation policy;
  ap_postgres_policy_ref := ap_postgres_policy_ref policy; ap_memberships := ap_memberships policy;
  ap_maximum_duration := ap_maximum_duration policy; ap_default_duration := ap_default_duration policy;
  ap_pending_request_ttl := ap_pending_request_ttl policy;
  ap_justification_required := ap_justification_required policy;
  ap_approval_mode := ap_approval_mode policy; ap_suspend := ap_suspend policy; ap_status := Some s |}.

Definition policy_status_of (policy : EphemeralAccessPolicy) : EphemeralAccessPolicyStatus :=
  default {| ap_observed_generation := None; ap_conditions := []; ap_resolved_roles := [] |}
    (ap_status policy).

Definition update_access_policy_failure (policy : EphemeralAccessPolicy) (reason message : string)
    : EphemeralAccessPolicy :=
  with_policy_status policy {|
    ap_observed_generation := ap_generation policy;
    ap_conditions := set_condition (ap_conditions (policy_status_of policy))
                       (access_condition now_text "Accepted" false reason message);
    ap_resolved_roles := [] |}.

(** An error that ends the reconcile, or the reason and the message the policy is refused
    with. *)
Abbreviation refusal := (EphemeralError + string * string)%type.
Definition refuse (reason message : string) : refusal := inr (reason, message).

Definition duration_or_refuse (value : string) : res refusal N :=
  res_map_err (λ e, refuse "InvalidDuration"
    ("invalid ephemeral access resource: " +:+ duration_text value e)) (parse_duration value).

Fixpoint check_offer (roles : gmap string RoleDefinition) (resolved : gset string)
    (l : list EphemeralMembership) : res refusal (gset string) :=
  match l with
  | [] => Ok resolved
  | membership :: l =>
      match roles !! em_role membership with
      | None => Err (refuse "RoleNotFound" ("role " +:+ em_role membership +:+ " is not in the expanded target policy"))
      | Some role =>
          if rd_external role
          then Err (refuse "ExternalTargetRole" ("role " +:+ em_role membership +:+ " is externally managed"))
          else if bool_decide (em_role membership ∈ resolved)
          then Err (refuse "DuplicateMembership" ("role " +:+ em_role membership +:+ " appears more than once"))
          else check_offer roles ({[em_role membership]} ∪ resolved) l
      end
  end.

(** The tests before the target is read. *)
Definition check_durations (policy : EphemeralAccessPolicy) : res refusal unit :=
  maximum ← duration_or_refuse (ap_maximum_duration policy);
  cluster_max ← res_map_err inl cluster_maximum;
  _ ← throw_if (cluster_max <? maximum)%N
        (refuse "DurationExceedsClusterMaximum"
           ("maximumDuration " +:+ ap_maximum_duration policy +:+ " exceeds cluster maximum " +:+
            format_duration cluster_max));
  pending ← duration_or_refuse (ap_pending_request_ttl policy);
  pending_max ← res_map_err inl cluster_pending_maximum;
  _ ← throw_if (pending_max <? pending)%N
        (refuse "DurationExceedsClusterMaximum" "pendingRequestTTL exceeds the cluster maximum");
  _ ← match ap_default_duration policy with
      | None => Ok tt
      | Some d =>
          default_duration ← duration_or_refuse d;
          throw_if (maximum <? default_duration)%N
            (refuse "InvalidDuration" "defaultDuration must not exceed maximumDuration")
      end;
  throw_if (bool_decide (ap_memberships policy = []))
    (refuse "EmptyBundle" "at least one membership is required").

Definition suspension_reason (policy : EphemeralAccessPolicy) (target : TargetPolicy) : string :=
  if ap_suspend policy then "AccessPolicySuspended"
  else if tp_suspend target then "TargetPolicySuspended" else "Active".

Definition accepted_status (policy : EphemeralAccessPolicy) (target : TargetPolicy) (roles : gset string)
    : EphemeralAccessPolicyStatus :=
  let suspended := ap_suspend policy || tp_suspend target in {|
  ap_observed_generation := ap_generation policy;
  ap_conditions :=
    set_condition
      (set_condition
         (set_condition (ap_conditions (policy_status_of policy))
            (access_condition now_text "Accepted" true "Accepted" "Access policy is valid"))
         (access_condition now_text "ResolvedRefs" true "Resolved" "Target roles resolved"))
      (access_condition now_text "Suspended" suspended (suspension_reason policy target)
         (if suspended then "New ephemeral access activation is suspended"
          else "Ephemeral access activation is enabled"));
  ap_resolved_roles := set_iter roles |}.

Definition target_roles_offered (targets : list TargetPolicy) (policy : EphemeralAccessPolicy)
    : res refusal (TargetPolicy * gset string) :=
  match find (λ t, String.eqb (tp_name t) (ap_postgres_policy_ref policy)) targets with
  | None => Err (refuse "TargetNotFound" "referenced PostgresPolicy does not exist")
  | Some target =>
      _ ← throw_if (never_executes (tp_mode target))
            (refuse "TargetNotApplyMode" "ephemeral access requires a PostgresPolicy in apply mode");
      expanded ← res_map_err inl (expanded_of target);
      roles ← check_offer (roles_by_name expanded) ∅ (ap_memberships policy);
      Ok (target, roles)
  end.

(** [reconcile_access_policy_apply]: the policy with the status it is given. *)
Definition reconcile_access_policy_apply (targets : list TargetPolicy) (policy : EphemeralAccessPolicy)
    : res EphemeralError EphemeralAccessPolicy :=
  match _ ← check_durations policy; target_roles_offered targets policy with
  | Ok (target, roles) => Ok (with_policy_status policy (accepted_status policy target roles))
  | Err (inr (reason, message)) => Ok (update_access_policy_failure policy reason message)
  | Err (inl e) => Err e
  | Panic => Panic
  end.
End acceptance.
