(* ===== verification/EphemeralResolution.v ===== *)
(** * What a request resolves to

    The hash of a bundle stands for its content, and a resolution is within what the access
    policy and its target offer. *)

From S2P Require Import Prelude BTree RustStr Types Manifest Model Guc Change Diff DiffFacts DiffSafety Plan Sql Approval PlanStatus PlanSql Durations PlanRetention Promotion Ephemeral.

(** ** The order of the memberships of a bundle *)

#[export] Instance membership_le_trans : Transitive membership_le.
Proof. intros m n o. unfold membership_le. apply (transitivity (R := ord_le)). Qed.
#[export] Instance membership_le_total : Total membership_le.
Proof. intros m n. unfold membership_le. apply (base.total ord_le). Qed.
#[export] Instance membership_le_antisymm : AntiSymm (=) membership_le.
Proof.
  intros m n Hmn Hnm. unfold membership_le in *.
  pose proof (anti_symm ord_le _ _ Hmn Hnm) as Heq. destruct m, n; cbn in *. by simplify_eq.
Qed.

(** Sorting forgets the order, and nothing else. *)
Lemma sorted_memberships_permutation l l' :
  merge_sort membership_le l = merge_sort membership_le l' ↔ l ≡ₚ l'.
Proof.
  split.
  - intros Heq. rw -(merge_sort_Permutation membership_le l) Heq. apply merge_sort_Permutation.
  - intros Hp. apply (StronglySorted_unique membership_le); try apply (StronglySorted_merge_sort _).
    by rw !merge_sort_Permutation.
Qed.

Section resolution.
Context (to_vec : CanonicalEphemeralBundle → string) (sha256_hex : string → string)
  (jiff_parse : string → option Z).

(** [bundle_hash_identifies]: with a serialiser and a hash that keep values apart, two
    resolutions have the same bundle hash exactly when they grant the same memberships, in
    any order, in the same database. *)
Theorem bundle_hash_identifies a b :
  Inj (=) (=) to_vec → Inj (=) (=) sha256_hex →
  compute_bundle_hash to_vec sha256_hex a = compute_bundle_hash to_vec sha256_hex b ↔
  target_database_fingerprint a = target_database_fingerprint b ∧
  resolved_memberships a ≡ₚ resolved_memberships b.
Proof.
  intros Hv Hs. unfold compute_bundle_hash, canonical_bundle_bytes. rw -sorted_memberships_permutation. split.
  - intros Heq%(inj (String.append "sha256:"))%(inj sha256_hex)%(inj to_vec). by simplify_eq.
  - by intros [-> ->].
Qed.

(** ** Resolutions *)

Lemma check_bundle_Ok roles seen l :
  check_bundle roles seen l = Ok tt →
  NoDup (em_role <$> l) ∧
  ∀ m, m ∈ l → em_role m ∉ seen ∧ ∃ role, roles !! em_role m = Some role ∧ rd_external role = false.
Proof.
  revert seen. induction l as [|m l IH]=> seen /=; [intros _; split; [constructor|by intros m Hm%not_elem_of_nil]|].
  destruct (roles !! em_role m) as [role|] eqn:Hr; [|done]. destruct (rd_external role) eqn:He; [done|].
  case_bool_decide as Hs; [done|]. intros [Hnd Hall]%IH. split.
  - constructor; [|done]. intros (m' & Heq & Hm')%list_elem_of_fmap. destruct (Hall m' Hm') as [Hn _].
    apply Hn, elem_of_union. left. apply elem_of_singleton. by rw Heq.
  - intros m' [->|Hm']%elem_of_cons; [split; [done|by exists role]|].
    destruct (Hall m' Hm') as [Hn ?]. split; [|done]. intros Hin. by apply Hn, elem_of_union; right.
Qed.

Lemma roles_by_name_Some expanded name role :
  roles_by_name expanded !! name = Some role → role ∈ em_roles expanded ∧ rd_name role = name.
Proof.
  intros Hr%DiffSafety.map_collect_Some. apply list_elem_of_fmap in Hr as (r & [= -> ->] & Hr). by split.
Qed.

Lemma duration_of_Ok value d : duration_of value = Ok d → parse_duration value = Ok d.
Proof. unfold duration_of. destruct (parse_duration value); cbn; congruence. Qed.

(** C37: [resolution_within_offer]: a request resolves only against an accepted policy of
    the name it asks for and a target that is applied.  What it resolves to grants the
    subject exactly the roles of the policy, each once; the subject and the roles are
    declared by the target, and no granted role is external; the duration is at most the
    maximum of the policy; the hash is of this bundle; and a pending request keeps the
    deadline it has. *)
Theorem resolution_within_offer policies targets fingerprint now request resolved deadline mode suspended :
  resolve_request to_vec sha256_hex jiff_parse policies targets fingerprint now request =
    Ok (resolved, deadline, mode, suspended) →
  ∃ policy target expanded requested maximum,
    policy ∈ policies ∧ ap_name policy = rq_access_policy_ref request ∧
    policy_accepted policy = true ∧ justified policy request = true ∧
    target ∈ targets ∧ tp_name target = ap_postgres_policy_ref policy ∧
    never_executes (tp_mode target) = false ∧ expanded_of target = Ok expanded ∧
    fingerprint target = Ok (target_database_fingerprint resolved) ∧
    access_policy_uid resolved = default "" (ap_uid policy) ∧
    target_policy_uid resolved = default "" (tp_uid target) ∧
    resolved_memberships resolved = bundle_of policy request ∧
    NoDup (rm_role <$> resolved_memberships resolved) ∧
    (∀ m, m ∈ resolved_memberships resolved → rm_member m = rq_subject request ∧
       ∃ role, role ∈ em_roles expanded ∧ rd_name role = rm_role m ∧ rd_external role = false) ∧
    (∃ role, role ∈ em_roles expanded ∧ rd_name role = rq_subject request) ∧
    parse_duration (granted_duration resolved) = Ok requested ∧
    parse_duration (ap_maximum_duration policy) = Ok maximum ∧ (requested <= maximum)%N ∧
    has_valid_bundle_hash to_vec sha256_hex resolved = true ∧
    mode = ap_approval_mode policy ∧ suspended = ap_suspend policy || tp_suspend target ∧
    ∀ d, (rq_status request ≫= rs_approval_expires_at) ≫= parse_timestamp jiff_parse = Some d → deadline = d.
Proof.
  unfold resolve_request. destruct (find _ policies) as [policy|] eqn:Hp; [|done].
  rw !throw_if_bind !negb_false_iff. intros (Hacc & Hjust & Hrest).
  destruct (find _ targets) as [target|] eqn:Ht; [|done].
  apply throw_if_bind in Hrest as (Hmode & (expanded & Hexp & Hrest)%bind_Ok).
  apply bind_unit_Ok in Hrest as (Hb & Hrest). rw throw_if_bind negb_false_iff in Hrest.
  destruct Hrest as (Hsub & (requested & Hreq & (maximum & Hmax & Hrest)%bind_Ok)%bind_Ok).
  apply throw_if_bind in Hrest as (Hle%N.ltb_ge & (database & Hdb & (ttl & Httl & Hok)%bind_Ok)%bind_Ok).
  injection Hok as <- <- <- <-.
  apply find_some in Hp as [Hp%list_elem_of_In Hpn%String.eqb_eq], Ht as [Ht%list_elem_of_In Htn%String.eqb_eq].
  apply check_bundle_Ok in Hb as [Hnd Hroles]. apply duration_of_Ok in Hmax.
  apply existsb_exists in Hsub as (sr & Hsr%list_elem_of_In & Hsn%String.eqb_eq).
  assert (parse_duration (format_duration requested) = Ok requested) as Hround.
  { apply parse_format_duration. unfold requested_duration_of in Hreq.
    destruct (rq_requested_duration request), (ap_default_duration policy); try done;
      by eapply parse_duration_bounds, duration_of_Ok. }
  exists policy, target, expanded, requested, maximum. cbn. split_and!; try done.
  - by rw -list_fmap_compose.
  - intros m Hm. apply list_elem_of_fmap in Hm as (em & -> & Hem). cbn. split; [done|].
    destruct (Hroles em Hem) as (_ & role & [Hr Hn]%roles_by_name_Some & Hx). by exists role.
  - by exists sr.
  - unfold has_valid_bundle_hash. cbn. apply String.eqb_eq. done.
  - by intros d ->.
Qed.
End resolution.
