(* ===== verification/EphemeralScoped.v ===== *)
(** * Scoped membership plans ([ephemeral.rs])

    Which plan proves that a request was activated, what active requests add to the desired
    graph, and the scoped plan that grants or withdraws the bundle of one request.  The
    objects and databases are a value; a procedure yields every state it leaves behind, one
    per write, so that its prefixes are what an interrupted run leaves. *)

From S2P Require Import Prelude BTree RustStr Types Manifest Model Guc Change Diff Interp Plan Sql Approval PlanStatus PlanSql PlanCreation Durations PlanRetention K8sNames Promotion Ephemeral.

Definition LABEL_POLICY : string := "pgroles.io/policy".

(** ** The state, and procedures over it *)

(** The objects of a namespace, and the databases by the fingerprint of their target. *)
Record AccessWorld := {
  aw_requests : list EphemeralAccessRequest;
  aw_policies : list EphemeralAccessPolicy;
  aw_targets : list TargetPolicy;
  aw_plans : list PolicyPlan;
  aw_databases : gmap string RoleGraph;
}.

Definition with_requests (w : AccessWorld) l : AccessWorld :=
  {| aw_requests := l; aw_policies := aw_policies w; aw_targets := aw_targets w; aw_plans := aw_plans w;
     aw_databases := aw_databases w |}.
Definition with_policies (w : AccessWorld) l : AccessWorld :=
  {| aw_requests := aw_requests w; aw_policies := l; aw_targets := aw_targets w; aw_plans := aw_plans w;
     aw_databases := aw_databases w |}.
Definition with_plans (w : AccessWorld) l : AccessWorld :=
  {| aw_requests := aw_requests w; aw_policies := aw_policies w; aw_targets := aw_targets w; aw_plans := l;
     aw_databases := aw_databases w |}.
Definition with_databases (w : AccessWorld) l : AccessWorld :=
  {| aw_requests := aw_requests w; aw_policies := aw_policies w; aw_targets := aw_targets w;
     aw_plans := aw_plans w; aw_databases := l |}.

(** The states left by the writes of a procedure, in order, and its result. *)
Definition prog (A : Type) : Type := AccessWorld → list AccessWorld * res EphemeralError A.

Definition last_world (w : AccessWorld) (ws : list AccessWorld) : AccessWorld := default w (last ws).

#[export] Instance prog_ret : MRet prog := λ A a w, ([], Ok a).
#[export] Instance prog_bind : MBind prog := λ A B f m w,
  let '(ws, r) := m w in
  match r with
  | Ok a => let '(ws', r') := f a (last_world w ws) in (ws ++ ws', r')
  | Err e => (ws, Err e)
  | Panic => (ws, Panic)
  end.

Definition lift {A} (r : res EphemeralError A) : prog A := λ w, ([], r).
Definition read {A} (f : AccessWorld → A) : prog A := λ w, ([], Ok (f w)).
Definition write (f : AccessWorld → AccessWorld) : prog unit := λ w, ([f w], Ok tt).
Definition raise {A} (e : EphemeralError) : prog A := lift (Err e).
Definition invalid {A} (message : string) : prog A := raise (EphemeralError.Invalid message).

(** ** Provenance *)

Definition controlled_by_request (owners : list OwnerReference) (uid : string) : bool :=
  existsb (λ o, bool_decide (controller o = Some true) &&
                String.eqb (owner_kind o) "EphemeralAccessRequest" && String.eqb (owner_uid o) uid) owners.

Definition plan_authorizes_activation (plan : PolicyPlan) (request : EphemeralAccessRequest)
    (resolved : ResolvedEphemeralAccess) (include_applying : bool) : bool :=
  let request_uid := default "" (rq_uid request) in
  controlled_by_request (owner_references plan) request_uid &&
  match origin (spec plan) with
  | Some o => String.eqb (origin_kind o) "EphemeralAccessRequest" && String.eqb (origin_uid o) request_uid
  | None => false
  end &&
  match scope (spec plan) with
  | Some s => bool_decide (operation s = ScopedPlanOperation.Activate) &&
              String.eqb (bundle_hash s) (resolved_bundle_hash resolved)
  | None => false
  end &&
  match status plan with
  | None => include_applying
  | Some s => is_phase PlanPhase.Applied s || (include_applying && is_phase PlanPhase.Applying s)
  end.

Definition request_has_scoped_activation_plan (request : EphemeralAccessRequest)
    (resolved : ResolvedEphemeralAccess) (include_applying : bool) : prog bool :=
  read (λ w, existsb (λ p, plan_authorizes_activation p request resolved include_applying) (aw_plans w)).

Definition labelled_for (target_policy_name : string) (p : PolicyPlan) : bool :=
  match labels p with
  | Some ls => bool_decide (ls !! LABEL_POLICY = Some (sanitize target_policy_name))
  | None => false
  end.

Definition list_scoped_plans (target_policy_name : string) (plans : list PolicyPlan) : list PolicyPlan :=
  filter (λ p, labelled_for target_policy_name p) plans.

(** A request whose bundle is meant to be in the database. *)
Definition holds_access (s : EphemeralAccessRequestStatus) : bool :=
  match rs_phase s with RequestPhase.Applying | RequestPhase.Active => true | _ => false end.

Definition membership_key (m : ResolvedEphemeralMembership) : string * string := (rm_role m, rm_member m).
Definition graph_membership_key (e : MembershipEdge) : string * string := (me_role e, me_member e).

Section scoped.
Context (to_vec : CanonicalEphemeralBundle → string) (sha256_hex : string → string).

Abbreviation valid_hash := (has_valid_bundle_hash to_vec sha256_hex).

(** ** The overlay of active requests *)

Definition edge_of (m : ResolvedEphemeralMembership) : MembershipEdge :=
  {| me_role := rm_role m; me_member := rm_member m; me_inherit := rm_inherit m; me_admin := false |}.

Abbreviation overlay := (gset string * gmap (string * string) MembershipEdge)%type.

Definition missing_relationship (desired : RoleGraph) (m : ResolvedEphemeralMembership) : option string :=
  match roles desired !! rm_role m, roles desired !! rm_member m with
  | None, None => Some "granted role and subject"
  | None, Some _ => Some "granted role"
  | Some _, None => Some "subject"
  | Some _, Some _ => None
  end.

(** What stops a composition: a message, and the membership whose role is missing. *)
Record OverlayStop := {
  os_message : string;
  os_blocked : option (EphemeralAccessRequest * ResolvedEphemeralAccess * ResolvedEphemeralMembership * string);
}.

Definition request_text (request : EphemeralAccessRequest) : string :=
  rq_name request +:+ " (" +:+ default "" (rq_uid request) +:+ ")".

Definition overlay_membership (desired : RoleGraph) (request : EphemeralAccessRequest)
    (resolved : ResolvedEphemeralAccess) (acc : overlay) (m : ResolvedEphemeralMembership)
    : res OverlayStop overlay :=
  let '(additional_roles, overlays) := acc in
  match missing_relationship desired m with
  | Some relationship =>
      Err {| os_message := "active ephemeral request " +:+ request_text request +:+ " blocks removal of " +:+
               relationship +:+ ": membership " +:+ rm_member m +:+ " -> " +:+ rm_role m;
             os_blocked := Some (request, resolved, m, relationship) |}
  | None =>
      let additional_roles := {[rm_role m; rm_member m]} ∪ additional_roles in
      let key := membership_key m in
      if existsb (λ e, bool_decide (graph_membership_key e = key)) (set_iter (memberships desired))
      then Ok (additional_roles, overlays)
      else
        match overlays !! key with
        | Some existing =>
            if bool_decide (existing = edge_of m)
            then Ok (additional_roles, <[key := edge_of m]> overlays)
            else Err {| os_message := "active ephemeral requests conflict on membership " +:+ rm_member m +:+
                          " -> " +:+ rm_role m;
                        os_blocked := None |}
        | None => Ok (additional_roles, <[key := edge_of m]> overlays)
        end
  end.

(** The bundle of a request that holds access to this target, if it is one. *)
Definition activated_bundle (policy_uid : string) (scoped_plans : list PolicyPlan)
    (request : EphemeralAccessRequest) : option ResolvedEphemeralAccess :=
  s ← rq_status request;
  if negb (holds_access s) then None
  else
    resolved ← rs_resolved_access s;
    if negb (existsb (λ p, plan_authorizes_activation p request resolved true) scoped_plans) then None
    else if negb (String.eqb (target_policy_uid resolved) policy_uid) || negb (valid_hash resolved) then None
    else Some resolved.

Definition overlay_request (policy_uid : string) (desired : RoleGraph) (scoped_plans : list PolicyPlan)
    (fingerprint : string) (acc : overlay) (request : EphemeralAccessRequest) : res OverlayStop overlay :=
  match activated_bundle policy_uid scoped_plans request with
  | None => Ok acc
  | Some resolved =>
      if negb (String.eqb (target_database_fingerprint resolved) fingerprint)
      then Err {| os_message := "active ephemeral request " +:+ request_text request +:+
                    " targets a different resolved database; restore the original target before reconciliation";
                  os_blocked := None |}
      else fold_res (overlay_membership desired request resolved) acc (resolved_memberships resolved)
  end.

(** The composed graph, without the conditions it leaves on access policies. *)
Definition effective_graph (target : TargetPolicy) (desired : RoleGraph)
    (requests : list EphemeralAccessRequest) (scoped_plans : list PolicyPlan) (fingerprint : string)
    : res OverlayStop (gset string * RoleGraph) :=
  '(additional_roles, overlays) ←
    fold_res (overlay_request (default "" (tp_uid target)) desired scoped_plans fingerprint) (∅, ∅) requests;
  Ok (additional_roles,
      with_memberships desired (memberships desired ∪ list_to_set (map_iter overlays).*2)).

(** *** The condition on access policies *)

Definition set_policy_condition (policy : EphemeralAccessPolicy) (s : EphemeralAccessPolicyStatus)
    (c : EphemeralAccessCondition) : EphemeralAccessPolicy :=
  with_policy_status policy {| ap_observed_generation := ap_observed_generation s;
                               ap_conditions := set_condition (ap_conditions s) c;
                               ap_resolved_roles := ap_resolved_roles s |}.

Definition blocked_message (request : EphemeralAccessRequest) (m : ResolvedEphemeralMembership)
    (relationship : string) : string :=
  "request " +:+ request_text request +:+ " references " +:+
  (if String.eqb relationship "subject" then rm_member m else rm_role m) +:+ " as " +:+ relationship +:+
  "; membership " +:+ rm_member m +:+ " -> " +:+ rm_role m.

Definition set_role_retirement_blocked (now : string) (request : EphemeralAccessRequest)
    (resolved : ResolvedEphemeralAccess) (m : ResolvedEphemeralMembership) (relationship : string)
    (policies : list EphemeralAccessPolicy) : list EphemeralAccessPolicy :=
  (λ policy,
     if String.eqb (ap_name policy) (rq_access_policy_ref request) &&
        bool_decide (ap_uid policy = Some (access_policy_uid resolved))
     then set_policy_condition policy (policy_status_of policy)
            (access_condition now "RoleRetirementBlocked" true "ActiveRequest"
               (blocked_message request m relationship))
     else policy) <$> policies.

Definition clear_role_retirement_blocked (now : string) (target : TargetPolicy)
    (policies : list EphemeralAccessPolicy) : list EphemeralAccessPolicy :=
  (λ policy,
     match ap_status policy with
     | Some s =>
         if String.eqb (ap_postgres_policy_ref policy) (tp_name target) &&
            existsb (λ c, String.eqb (ec_type c) "RoleRetirementBlocked") (ap_conditions s)
         then set_policy_condition policy s
                (access_condition now "RoleRetirementBlocked" false "NoBlockingRequests"
                   "No active request blocks role retirement")
         else policy
     | None => policy
     end) <$> policies.

(** [compose_effective_graph_from_resources] *)
Definition compose_effective_graph (now : string) (target : TargetPolicy) (desired : RoleGraph)
    (requests : list EphemeralAccessRequest) (scoped_plans : list PolicyPlan) (fingerprint : string)
    : prog (gset string * RoleGraph) :=
  match effective_graph target desired requests scoped_plans fingerprint with
  | Err stop =>
      match os_blocked stop with
      | Some (request, resolved, m, relationship) =>
          write (λ w, with_policies w
            (set_role_retirement_blocked now request resolved m relationship (aw_policies w)))
      | None => mret tt
      end;; raise (EphemeralError.Reconcile (ReconcileError.InvalidSpec (os_message stop)))
  | Panic => lift Panic
  | Ok r =>
      write (λ w, with_policies w (clear_role_retirement_blocked now target (aw_policies w)));; mret r
  end.

(** [active_owner_keys_from_resources] *)
Definition active_owner_keys (target : TargetPolicy) (requests : list EphemeralAccessRequest)
    (scoped_plans : list PolicyPlan) (exclude_request_uid : option string) : gset (string * string) :=
  list_to_set (requests ≫= λ request,
    if match exclude_request_uid with
       | Some uid => bool_decide (rq_uid request = Some uid)
       | None => false
       end
    then []
    else
      match activated_bundle (default "" (tp_uid target)) scoped_plans request with
      | Some resolved => membership_key <$> resolved_memberships resolved
      | None => []
      end).

(** ** The changes of a scoped plan *)

(** What the procedure reads before it decides: the memberships the target declares, what
    the inspection found, the keys other requests own, and whether this one was activated. *)
Record ScopedFacts := {
  sf_durable : RoleGraph;
  sf_current : RoleGraph;
  sf_other_owners : gset (string * string);
  sf_activated : bool;
}.

Definition edge_with_key (g : RoleGraph) (key : string * string) : option MembershipEdge :=
  membership_map g !! key.

Definition activation_change (facts : ScopedFacts) (m : ResolvedEphemeralMembership)
    : res EphemeralError (list Change) :=
  let key := membership_key m in
  let pair := rm_member m +:+ " -> " +:+ rm_role m in
  if negb (bool_decide (is_Some (roles (sf_current facts) !! rm_role m))) ||
     negb (bool_decide (is_Some (roles (sf_current facts) !! rm_member m)))
  then Err (EphemeralError.Invalid ("membership roles " +:+ rm_member m +:+ " and " +:+ rm_role m +:+
         " must already exist in PostgreSQL"))
  else if bool_decide (is_Some (edge_with_key (sf_durable facts) key))
  then Err (EphemeralError.Invalid ("membership " +:+ pair +:+ " is already durable"))
  else
    match edge_with_key (sf_current facts) key with
    | Some existing =>
        if (bool_decide (key ∈ sf_other_owners facts) || sf_activated facts) &&
           Bool.eqb (me_inherit existing) (rm_inherit m) && negb (me_admin existing)
        then Ok []
        else Err (EphemeralError.Invalid ("membership " +:+ pair +:+
               " already exists without matching ephemeral ownership"))
    | None => Ok [Change.AddMember (rm_role m) (rm_member m) (rm_inherit m) false]
    end.

Fixpoint activation_changes (facts : ScopedFacts) (l : list ResolvedEphemeralMembership)
    : res EphemeralError (list Change) :=
  match l with
  | [] => Ok []
  | m :: l =>
      first ← activation_change facts m;
      rest ← activation_changes facts l;
      Ok (first ++ rest)
  end.

Definition revocation_change (facts : ScopedFacts) (m : ResolvedEphemeralMembership) : list Change :=
  let key := membership_key m in
  if bool_decide (is_Some (edge_with_key (sf_durable facts) key)) then []
  else if bool_decide (key ∈ sf_other_owners facts) then []
  else if bool_decide (is_Some (edge_with_key (sf_current facts) key))
  then [Change.RemoveMember (rm_role m) (rm_member m) None]
  else [].

Definition retained_of (facts : ScopedFacts) (l : list ResolvedEphemeralMembership)
    : list ResolvedEphemeralMembership :=
  filter (λ m, is_Some (edge_with_key (sf_durable facts) (membership_key m))) l.

(** The match on the operation: the changes and what is retained. *)
Definition scoped_changes (facts : ScopedFacts) (operation : ScopedPlanOperation)
    (l : list ResolvedEphemeralMembership)
    : res EphemeralError (list Change * list ResolvedEphemeralMembership) :=
  match operation with
  | ScopedPlanOperation.Activate => changes ← activation_changes facts l; Ok (changes, [])
  | ScopedPlanOperation.Revoke => Ok (l ≫= revocation_change facts, retained_of facts l)
  end.

(** The check of the changes against the bundle. *)
Fixpoint check_scope (keys : gset (string * string)) (changes : list Change) : res EphemeralError unit :=
  match changes with
  | [] => Ok tt
  | c :: changes =>
      key ← match c with
            | Change.AddMember role member _ _ | Change.RemoveMember role member _ => Ok (role, member)
            | _ => Err (EphemeralError.Invalid "scoped plan contained a non-membership change")
            end;
      _ ← throw_if (negb (bool_decide (key ∈ keys)))
            (EphemeralError.Invalid "scoped plan escaped the approved bundle");
      check_scope keys changes
  end.

(** [Display] of a [bool] *)
Definition bool_text (b : bool) : string := if b then "true" else "false".

Fixpoint check_inherit (ctx : SqlContext) (current : RoleGraph) (l : list ResolvedEphemeralMembership)
    : res EphemeralError unit :=
  match l with
  | [] => Ok tt
  | m :: l =>
      match roles current !! rm_member m with
      | None => Err (EphemeralError.Invalid ("subject role " +:+ rm_member m +:+
                  " is not present in PostgreSQL"))
      | Some subject =>
          if negb (Bool.eqb (rs_inherit subject) (rm_inherit m))
          then Err (EphemeralError.Invalid ("PostgreSQL " +:+ pretty (pg_major_version ctx) +:+
                 " cannot encode per-membership INHERIT " +:+ bool_text (rm_inherit m) +:+
                 "; subject role " +:+ rm_member m +:+ " has global INHERIT " +:+
                 bool_text (rs_inherit subject)))
          else check_inherit ctx current l
      end
  end.

Definition validate_membership_semantics (ctx : SqlContext) (current : RoleGraph)
    (resolved : ResolvedEphemeralAccess) : res EphemeralError unit :=
  if supports_grant_with_options ctx then Ok ()
  else check_inherit ctx current (resolved_memberships resolved).

(** ** The plan object *)

Definition operation_name (op : ScopedPlanOperation) : string :=
  match op with
  | ScopedPlanOperation.Activate => "activate"
  | ScopedPlanOperation.Revoke => "revoke"
  end.

Definition count_changes (p : Change → bool) (changes : list Change) : Z :=
  Z.of_nat (length (filter (λ c, p c) changes)).

Definition scoped_change_summary (changes : list Change) : ChangeSummary := {|
  roles_created := 0; roles_altered := 0; schemas_created := 0; schema_owners_altered := 0;
  roles_dropped := 0; sessions_terminated := 0; grants_added := 0; grants_revoked := 0;
  default_privileges_set := 0; default_privileges_revoked := 0;
  members_added := count_changes (λ c, match c with Change.AddMember _ _ _ _ => true | _ => false end) changes;
  members_options_changed :=
    count_changes (λ c, match c with Change.UpdateMemberOptions _ _ _ _ _ _ => true | _ => false end) changes;
  members_removed := count_changes (λ c, match c with Change.RemoveMember _ _ _ => true | _ => false end) changes;
  passwords_set := 0; total := Z.of_nat (length changes) |}.

Definition strip_prefix (prefix s : string) : option string :=
  if String.prefix prefix s
  then Some (String.substring (String.length prefix) (String.length s - String.length prefix) s) else None.

(** [str::get(..n)] *)
Definition get_upto (s : string) (n : nat) : option string :=
  if (n <=? String.length s)%nat && is_char_boundary s n then Some (String.substring 0 n s) else None.

Definition scoped_plan_name (request : EphemeralAccessRequest) (resolved : ResolvedEphemeralAccess)
    (operation : ScopedPlanOperation) : res EphemeralError string :=
  match strip_prefix "sha256:" (resolved_bundle_hash resolved) with
  | None => Err (EphemeralError.Invalid "bundle hash must use the sha256 encoding")
  | Some bundle_digest =>
      match get_upto bundle_digest 12 with
      | None => Err (EphemeralError.Invalid "bundle hash is too short for a scoped plan name")
      | Some suffix =>
          let uid := default "" (rq_uid request) in
          if String.eqb uid ""
          then Err (EphemeralError.Invalid "request has no UID for scoped plan ownership")
          else
            let uid_suffix := concat_all (take 8 (filter (λ c, is_ascii_alphanumeric c) (chars uid))) in
            if negb (String.length uid_suffix =? 8)%nat
            then Err (EphemeralError.Invalid "request UID is too short for a scoped plan name")
            else
              let max_prefix := 253 - (String.length uid_suffix + String.length (operation_name operation) +
                                       String.length suffix + 3) in
              prefix ← truncate_name_prefix (sanitize_dns_label_segment (rq_name request) "request") max_prefix;
              Ok (prefix +:+ "-" +:+ uid_suffix +:+ "-" +:+ operation_name operation +:+ "-" +:+ suffix)
      end
  end.

Definition new_scoped_plan (name : string) (request : EphemeralAccessRequest) (target : TargetPolicy)
    (resolved : ResolvedEphemeralAccess) (op : ScopedPlanOperation) : PolicyPlan := {|
  plan_name := name; creation_timestamp := None;
  labels := Some {[ LABEL_POLICY := sanitize (tp_name target) ]};
  owner_references := [{| owner_kind := "EphemeralAccessRequest"; owner_uid := default "" (rq_uid request);
                          controller := Some true |}];
  spec := {|
    policy_ref := tp_name target; policy_generation := default 0%Z (tp_generation target);
    reconciliation_mode := tp_reconciliation_mode target;
    owned_roles := resolved_memberships resolved ≫= (λ m, [rm_role m; rm_member m]); owned_schemas := [];
    managed_database_identity := tp_database_identity target;
    origin := Some {| origin_kind := "EphemeralAccessRequest"; origin_name := rq_name request;
                      origin_uid := default "" (rq_uid request); content_digest := None;
                      content_digest_encoding := None; policy_uid := None; base_content_digest := None |};
    scope := Some {| scope_kind := "MembershipBundle"; operation := op;
                     bundle_hash := resolved_bundle_hash resolved |} |};
  status := None |}.

Definition initial_scoped_status (now sql_text : string) (op : ScopedPlanOperation) (changes : list Change)
    : PlanStatus := {|
  phase := PlanPhase.Applying;
  conditions := [{| condition_type := "Scoped"; condition_status := "True";
                    condition_reason := Some (operation_name op);
                    condition_message := Some "Authorized by EphemeralAccessRequest lifecycle";
                    last_transition_time := Some now |}];
  decided_by := None; change_summary := Some (scoped_change_summary changes); sql_ref := None;
  sql_inline := Some sql_text; sql_truncated := false; computed_at := Some now; applied_at := None;
  last_error := None; sql_hash := Some (sha256_hex sql_text); change_digest := None;
  password_source_digest := None; change_digest_encoding := None; target_physical_identity := None;
  target_logical_fingerprint := None; physical_identity_available := None; revalidated_generation := None;
  revalidated_at := None; applying_since := Some now; failed_at := None;
  sql_statements := Some (Z.of_nat (length changes)); redacted_sql_hash := None;
  sql_original_bytes := None; sql_stored_bytes := None |}.

Definition validate_existing_scoped_plan (plan : PolicyPlan) (request : EphemeralAccessRequest)
    (target : TargetPolicy) (resolved : ResolvedEphemeralAccess) (op : ScopedPlanOperation)
    : res EphemeralError unit :=
  let request_uid := default "" (rq_uid request) in
  let owned_by_request := controlled_by_request (owner_references plan) request_uid in
  let origin_matches :=
    match origin (spec plan) with
    | Some o => String.eqb (origin_kind o) "EphemeralAccessRequest" &&
                String.eqb (origin_name o) (rq_name request) && String.eqb (origin_uid o) request_uid
    | None => false
    end in
  let scope_matches :=
    match scope (spec plan) with
    | Some s => String.eqb (scope_kind s) "MembershipBundle" && bool_decide (operation s = op) &&
                String.eqb (bundle_hash s) (resolved_bundle_hash resolved)
    | None => false
    end in
  throw_if (negb owned_by_request || negb origin_matches || negb scope_matches ||
            negb (String.eqb (policy_ref (spec plan)) (tp_name target)) ||
            negb (String.eqb (managed_database_identity (spec plan)) (tp_database_identity target)))
    (EphemeralError.Invalid ("existing scoped plan " +:+ plan_name plan +:+
       " does not belong to request UID " +:+ request_uid +:+ " and its resolved scope")).

Definition create_scoped_plan (now : string) (request : EphemeralAccessRequest) (target : TargetPolicy)
    (resolved : ResolvedEphemeralAccess) (op : ScopedPlanOperation) (changes : list Change)
    (ctx : SqlContext) : prog PolicyPlan :=
  name ← lift (scoped_plan_name request resolved op);
  sql_text ← lift (res_map_err (λ e, EphemeralError.Reconcile (ReconcileError.SqlRender e))
                     (render_all_with_context changes ctx));
  existing ← read (λ w, find (λ p, String.eqb (plan_name p) name) (aw_plans w));
  match existing with
  | Some existing =>
      _ ← lift (validate_existing_scoped_plan existing request target resolved op);
      mret existing
  | None =>
      let plan := new_scoped_plan name request target resolved op in
      let initial := initial_scoped_status now sql_text op changes in
      _ ← write (λ w, with_plans w (aw_plans w ++ [plan]));
      _ ← write (λ w, with_plans w (patch_status (aw_plans w) name initial));
      mret (with_status plan (Some initial))
  end.

(** A merge patch leaves the fields it omits: clearing the error does not. *)
Definition finished_status (now : string) (s : PlanStatus) (ph : PlanPhase) (error : option string)
    : PlanStatus :=
  with_lifecycle s ph (conditions s) (decided_by s)
    (if bool_decide (ph = PlanPhase.Applied) then Some now else applied_at s)
    (match error with Some e => Some e | None => last_error s end) (applying_since s)
    (if bool_decide (ph = PlanPhase.Failed) then Some now else failed_at s).

Definition finish_scoped_plan (now : string) (plan : PolicyPlan) (ph : PlanPhase) (error : option string)
    : prog unit :=
  write (λ w, with_plans w (patch_status (aw_plans w) (plan_name plan)
    (finished_status now (default default_status (status plan)) ph error))).
End scoped.
