(* ===== verification/EphemeralLifecycle.v ===== *)
(** * The lifecycle of a request ([ephemeral.rs])

    Granting and withdrawing a bundle under the locks of its database, and the reconcile of
    a request: resolution, decision, activation, expiry, revocation and deletion.  What the
    clock, the locks, the inspection and the transaction answer in one run is its
    environment; the clock is read once per run. *)

From S2P Require Import Prelude BTree RustStr Types Manifest Model Guc Change Diff Interp Plan Sql Approval PlanStatus PlanSql PlanCreation Durations PlanRetention K8sNames Promotion Ephemeral EphemeralScoped.

Module Action.
Inductive Action : Set := Requeue (seconds : N) | AwaitChange.
End Action.

(** What one run meets. *)
Record AccessEnv := {
  ae_now : N;
  ae_now_text : string;
  ae_fingerprint : TargetPolicy → res EphemeralError string;
  ae_lock : option string;
  ae_inspect : ExpandedManifest → gset string → RoleGraph → res ReconcileError RoleGraph;
  ae_sql_context : res ReconcileError SqlContext;
  ae_transaction : option string;
}.

Section lifecycle.
Context (to_vec : CanonicalEphemeralBundle → string) (sha256_hex : string → string)
  (jiff_from_second : Z → option string) (jiff_parse : string → option Z).

Abbreviation valid_hash := (has_valid_bundle_hash to_vec sha256_hex).
Abbreviation bundle_hash_of := (compute_bundle_hash to_vec sha256_hex).
Abbreviation parse_time := (parse_timestamp jiff_parse).

Definition reconcile_error {A} (r : res ReconcileError A) : res EphemeralError A :=
  res_map_err EphemeralError.Reconcile r.

(** [request_index.for_target_policy_uid] *)
Definition for_target_policy_uid (uid : string) (requests : list EphemeralAccessRequest)
    : list EphemeralAccessRequest :=
  filter (λ r, bool_decide ((target_policy_uid <$> (rq_status r ≫= rs_resolved_access)) = Some uid)) requests.

(** ** Granting and withdrawing a bundle *)

Definition bundle_roles (resolved : ResolvedEphemeralAccess) : gset string :=
  list_to_set (resolved_memberships resolved ≫= λ m, [rm_role m; rm_member m]).

Definition execute_changes (env : AccessEnv) (fingerprint : string) (changes : list Change) : prog unit :=
  match ae_transaction env with
  | Some _ => mret tt
  | None =>
      write (λ w, with_databases w
        (alter (λ g, default g (apply_changes g changes)) fingerprint (aw_databases w)))
  end.

Definition apply_scoped_memberships_under_lock (env : AccessEnv) (request : EphemeralAccessRequest)
    (resolved : ResolvedEphemeralAccess) (op : ScopedPlanOperation) (target : TargetPolicy)
    (fingerprint : string) (database : RoleGraph) : prog (list ResolvedEphemeralMembership) :=
  expanded ← lift (expanded_of target);
  durable ← lift (reconcile_error (res_map_err ReconcileError.ManifestExpansion
    (from_expanded expanded (pm_default_owner (tp_manifest target)))));
  requests ← read (λ w, for_target_policy_uid (target_policy_uid resolved) (aw_requests w));
  scoped_plans ← read (λ w, list_scoped_plans (tp_name target) (aw_plans w));
  composed ← compose_effective_graph to_vec sha256_hex (ae_now_text env) target durable requests
               scoped_plans fingerprint;
  current ← lift (reconcile_error (ae_inspect env expanded (composed.1 ∪ bundle_roles resolved) database));
  let facts := {|
    sf_durable := durable; sf_current := current;
    sf_other_owners := active_owner_keys to_vec sha256_hex target requests scoped_plans
                         (Some (default "" (rq_uid request)));
    sf_activated := existsb (λ p, plan_authorizes_activation p request resolved true) scoped_plans |} in
  decided ← lift (scoped_changes facts op (resolved_memberships resolved));
  let '(changes, retained) := decided in
  _ ← lift (check_scope (list_to_set (membership_key <$> resolved_memberships resolved)) changes);
  ctx ← lift (reconcile_error (ae_sql_context env));
  _ ← lift (if bool_decide (op = ScopedPlanOperation.Activate)
            then validate_membership_semantics ctx current resolved else Ok tt);
  plan ← create_scoped_plan sha256_hex (ae_now_text env) request target resolved op changes ctx;
  if match status plan with Some s => is_phase PlanPhase.Applied s | None => false end
  then mret retained
  else
    _ ← execute_changes env fingerprint changes;
    match ae_transaction env with
    | None =>
        _ ← finish_scoped_plan (ae_now_text env) plan PlanPhase.Applied None;
        mret retained
    | Some error =>
        _ ← finish_scoped_plan (ae_now_text env) plan PlanPhase.Failed (Some error);
        raise (EphemeralError.Reconcile (ReconcileError.SqlExec error))
    end.

Definition lookup_policy (name : string) : prog EphemeralAccessPolicy :=
  found ← read (λ w, find (λ p, String.eqb (ap_name p) name) (aw_policies w));
  match found with Some p => mret p | None => raise (EphemeralError.Kube "not found") end.

Definition lookup_target (name : string) : prog TargetPolicy :=
  found ← read (λ w, find (λ t, String.eqb (tp_name t) name) (aw_targets w));
  match found with Some t => mret t | None => raise (EphemeralError.Kube "not found") end.

(** The pool of the connection: the database its fingerprint names. *)
Definition connect (fingerprint : string) : prog RoleGraph :=
  found ← read (λ w, aw_databases w !! fingerprint);
  match found with Some g => mret g | None => raise (EphemeralError.Context "connection failed") end.

Definition ensure (b : bool) (message : string) : prog unit :=
  if b then mret tt else invalid message.

Definition apply_scoped_memberships (env : AccessEnv) (request : EphemeralAccessRequest)
    (resolved : ResolvedEphemeralAccess) (op : ScopedPlanOperation)
    : prog (list ResolvedEphemeralMembership) :=
  _ ← ensure (valid_hash resolved) "resolved bundle hash does not match its canonical payload";
  activated ← request_has_scoped_activation_plan request resolved true;
  _ ← ensure (negb (bool_decide (op = ScopedPlanOperation.Revoke)) || activated)
        "refusing scoped revocation without a matching request-owned activation plan";
  access_policy ← lookup_policy (rq_access_policy_ref request);
  _ ← ensure (bool_decide (ap_uid access_policy = Some (access_policy_uid resolved)))
        "access policy UID no longer matches resolved access";
  target ← lookup_target (ap_postgres_policy_ref access_policy);
  _ ← ensure (bool_decide (tp_uid target = Some (target_policy_uid resolved)))
        "target policy UID no longer matches resolved access";
  fingerprint ← lift (ae_fingerprint env target);
  _ ← ensure (String.eqb fingerprint (target_database_fingerprint resolved))
        "target database changed after request resolution; restore the original host, port, and database before activation or revocation";
  database ← connect fingerprint;
  match ae_lock env with
  | Some reason =>
      raise (EphemeralError.Reconcile (ReconcileError.LockContention (tp_database_identity target) reason))
  | None => apply_scoped_memberships_under_lock env request resolved op target fingerprint database
  end.

(** ** Status writes *)

Definition with_request_status (r : EphemeralAccessRequest) (s : EphemeralAccessRequestStatus)
    : EphemeralAccessRequest := {|
  rq_name := rq_name r; rq_uid := rq_uid r; rq_resource_version := rq_resource_version r + 1;
  rq_labels := rq_labels r; rq_access_policy_ref := rq_access_policy_ref r; rq_subject := rq_subject r;
  rq_requested_duration := rq_requested_duration r; rq_justification := rq_justification r;
  rq_status := Some s |}.

Definition with_labels (r : EphemeralAccessRequest) (ls : gmap string string) : EphemeralAccessRequest := {|
  rq_name := rq_name r; rq_uid := rq_uid r; rq_resource_version := rq_resource_version r + 1;
  rq_labels := ls; rq_access_policy_ref := rq_access_policy_ref r; rq_subject := rq_subject r;
  rq_requested_duration := rq_requested_duration r; rq_justification := rq_justification r;
  rq_status := rq_status r |}.

(** *** The validation rules of the status *)

Definition is_access_decision (c : EphemeralAccessCondition) : bool :=
  (String.eqb (ec_type c) "Approved" || String.eqb (ec_type c) "Denied") && String.eqb (ec_status c) "True".

Definition decisions_of (s : EphemeralAccessRequestStatus) : list EphemeralAccessCondition :=
  filter (λ c, is_access_decision c) (rs_conditions s).

Definition valid_request_status (s : EphemeralAccessRequestStatus) : bool :=
  negb (existsb (condition_holds "Approved") (rs_conditions s) &&
        existsb (condition_holds "Denied") (rs_conditions s)) &&
  Bool.eqb (bool_decide (decisions_of s ≠ [])) (bool_decide (is_Some (rs_decided_by s))) &&
  forallb (λ c, bool_decide (ec_type c ∈ ["Approved"; "Denied"; "Resolved"; "Ready"; "Applied"]))
    (rs_conditions s).

Definition transition_allowed (old new : EphemeralAccessRequestStatus) : bool :=
  (bool_decide (rs_resolved_access old = None) ||
   bool_decide (rs_resolved_access new = rs_resolved_access old)) &&
  (bool_decide (decisions_of old = []) || bool_decide (decisions_of new = decisions_of old)) &&
  (bool_decide (rs_decided_by old = None) || bool_decide (rs_decided_by new = rs_decided_by old)).

Definition request_write_admitted (old : option EphemeralAccessRequestStatus)
    (new : EphemeralAccessRequestStatus) : bool :=
  valid_request_status new &&
  match old with Some old => transition_allowed old new | None => true end.

(** [patch_request_status]: guarded by the version that was read. *)
Definition patch_request_status (request : EphemeralAccessRequest) (s : EphemeralAccessRequestStatus)
    : prog unit :=
  live ← read (λ w, find (λ r, String.eqb (rq_name r) (rq_name request)) (aw_requests w));
  match live with
  | None => raise (EphemeralError.Kube "not found")
  | Some live =>
      if negb (bool_decide (rq_resource_version live = rq_resource_version request))
      then raise (EphemeralError.Kube "conflict")
      else if negb (request_write_admitted (rq_status live) s) then raise (EphemeralError.Kube "invalid")
      else
        write (λ w, with_requests w
          ((λ r, if String.eqb (rq_name r) (rq_name request) then with_request_status r s else r)
             <$> aw_requests w))
  end.

(** A patch that changes nothing does not make a new version; failures are logged. *)
Definition patch_request_index_labels (request : EphemeralAccessRequest) (resolved : ResolvedEphemeralAccess)
    : prog unit :=
  let label r :=
    let ls := <["pgroles.io/access-policy-uid" := access_policy_uid resolved]>
                (<["pgroles.io/target-policy-uid" := target_policy_uid resolved]> (rq_labels r)) in
    if negb (String.eqb (rq_name r) (rq_name request)) || bool_decide (ls = rq_labels r) then r
    else with_labels r ls in
  write (λ w, with_requests w (label <$> aw_requests w)).

Definition with_conditions (s : EphemeralAccessRequestStatus) (cs : list EphemeralAccessCondition)
    (error : option string) : EphemeralAccessRequestStatus := {|
  rs_phase := rs_phase s; rs_conditions := cs; rs_resolved_access := rs_resolved_access s;
  rs_decided_by := rs_decided_by s; rs_approval_expires_at := rs_approval_expires_at s;
  rs_activated_at := rs_activated_at s; rs_expires_at := rs_expires_at s; rs_ended_at := rs_ended_at s;
  rs_last_error := error; rs_retained_memberships := rs_retained_memberships s |}.

Definition with_phase (s : EphemeralAccessRequestStatus) (p : EphemeralAccessRequestPhase)
    : EphemeralAccessRequestStatus := {|
  rs_phase := p; rs_conditions := rs_conditions s; rs_resolved_access := rs_resolved_access s;
  rs_decided_by := rs_decided_by s; rs_approval_expires_at := rs_approval_expires_at s;
  rs_activated_at := rs_activated_at s; rs_expires_at := rs_expires_at s; rs_ended_at := rs_ended_at s;
  rs_last_error := rs_last_error s; rs_retained_memberships := rs_retained_memberships s |}.

Definition with_end (s : EphemeralAccessRequestStatus) (retained : list ResolvedEphemeralMembership)
    (ended : string) : EphemeralAccessRequestStatus := {|
  rs_phase := rs_phase s; rs_conditions := rs_conditions s; rs_resolved_access := rs_resolved_access s;
  rs_decided_by := rs_decided_by s; rs_approval_expires_at := rs_approval_expires_at s;
  rs_activated_at := rs_activated_at s; rs_expires_at := rs_expires_at s; rs_ended_at := Some ended;
  rs_last_error := rs_last_error s; rs_retained_memberships := retained |}.

Definition with_resolution (s : EphemeralAccessRequestStatus) (resolved : ResolvedEphemeralAccess)
    (deadline : string) (p : EphemeralAccessRequestPhase) : EphemeralAccessRequestStatus := {|
  rs_phase := p; rs_conditions := rs_conditions s; rs_resolved_access := Some resolved;
  rs_decided_by := rs_decided_by s; rs_approval_expires_at := Some deadline;
  rs_activated_at := rs_activated_at s; rs_expires_at := rs_expires_at s; rs_ended_at := rs_ended_at s;
  rs_last_error := None; rs_retained_memberships := rs_retained_memberships s |}.

Definition transition_request (env : AccessEnv) (request : EphemeralAccessRequest)
    (s : EphemeralAccessRequestStatus) (p : EphemeralAccessRequestPhase) : prog unit :=
  patch_request_status request
    (with_phase
       (with_conditions s
          (set_condition (rs_conditions s)
             (access_condition (ae_now_text env) "Ready" true (request_phase_text p)
                "Request lifecycle is progressing normally")) None) p).

Definition string_contains (sub s : string) : bool :=
  match String.index 0 sub s with Some _ => true | None => false end.

Definition update_request_resolution_failure (env : AccessEnv) (request : EphemeralAccessRequest)
    (message : string) : prog Action.Action :=
  let s := default default_request_status (rq_status request) in
  let reason := if string_contains "suspended" message then "Suspended" else "InvalidRequest" in
  _ ← patch_request_status request
        (with_conditions s (set_condition (rs_conditions s)
           (access_condition (ae_now_text env) "Resolved" false reason message))
           (Some (truncate_message message 4096)));
  mret (Action.Requeue 60).

Definition update_request_validation_error (env : AccessEnv) (request : EphemeralAccessRequest)
    (message : string) : prog Action.Action :=
  let s := default default_request_status (rq_status request) in
  _ ← patch_request_status request
        (with_conditions s (set_condition (rs_conditions s)
           (access_condition (ae_now_text env) "Ready" false "InvalidRequestState" message))
           (Some (truncate_message message 4096)));
  mret (Action.Requeue 60).

(** ** The reconcile *)

Abbreviation apply_scoped := apply_scoped_memberships.
Definition resolve_now (env : AccessEnv) (request : EphemeralAccessRequest)
    : prog (ResolvedEphemeralAccess * N * EphemeralApprovalMode * bool) := λ w,
  ([], resolve_request to_vec sha256_hex jiff_parse (aw_policies w) (aw_targets w)
         (ae_fingerprint env) (ae_now env) request).

Definition is_finished (p : EphemeralAccessRequestPhase) : bool :=
  match p with
  | RequestPhase.Ended | RequestPhase.Revoked | RequestPhase.Cancelled | RequestPhase.Denied
  | RequestPhase.ApprovalExpired | RequestPhase.Failed => true
  | _ => false
  end.

(** The first reconcile of a request: its resolution is recorded. *)
Definition record_resolution (env : AccessEnv) (request : EphemeralAccessRequest)
    (s : EphemeralAccessRequestStatus) : prog Action.Action := λ w,
  match (resolve_now env request w).2 with
  | Err (EphemeralError.Invalid message) => update_request_resolution_failure env request message w
  | Err e => ([], Err e)
  | Panic => ([], Panic)
  | Ok (resolved, deadline, mode, suspended) =>
      if (suspended : bool)
      then update_request_resolution_failure env request
             "access policy or target PostgresPolicy is suspended" w
      else
        (deadline_text ← lift (timestamp_from_epoch jiff_from_second deadline);
         let s := with_resolution s resolved deadline_text
                    (match mode with
                     | EphemeralApprovalMode.Automatic => RequestPhase.Applying
                     | EphemeralApprovalMode.Required => RequestPhase.PendingApproval
                     end) in
         let cs := set_condition
                     (set_condition (rs_conditions s)
                        (access_condition (ae_now_text env) "Resolved" true "AccessPolicyResolved"
                           "Immutable access bundle resolved"))
                     (access_condition (ae_now_text env) "Ready" true "Resolved"
                        "Request is ready to progress") in
         let s := with_conditions s cs None in
         s ← lift (if bool_decide (mode = EphemeralApprovalMode.Automatic)
                   then persist_activation_deadline jiff_from_second (ae_now env) resolved s else Ok s);
         _ ← patch_request_index_labels request resolved;
         _ ← patch_request_status request s;
         mret (Action.Requeue 0)) w
  end.

(** Withdraw what was granted, and note when. *)
Definition withdraw (env : AccessEnv) (request : EphemeralAccessRequest)
    (resolved : ResolvedEphemeralAccess) (s : EphemeralAccessRequestStatus)
    : prog EphemeralAccessRequestStatus :=
  retained ← apply_scoped env request resolved ScopedPlanOperation.Revoke;
  mret (with_end s retained (ae_now_text env)).

(** ... if an activation plan says that something may have been. *)
Definition withdraw_if_activated (env : AccessEnv) (request : EphemeralAccessRequest)
    (resolved : ResolvedEphemeralAccess) (s : EphemeralAccessRequestStatus)
    : prog (bool * EphemeralAccessRequestStatus) :=
  activated ← request_has_scoped_activation_plan request resolved true;
  if (activated : bool)
  then s ← withdraw env request resolved s; mret (true, s)
  else mret (false, s).

Definition deny (env : AccessEnv) (request : EphemeralAccessRequest) (resolved : ResolvedEphemeralAccess)
    (s : EphemeralAccessRequestStatus) : prog Action.Action :=
  s ← (if bool_decide (rs_phase s = RequestPhase.Active) then withdraw env request resolved s
       else if bool_decide (rs_phase s = RequestPhase.Applying)
       then r ← withdraw_if_activated env request resolved s; mret r.2
       else mret s);
  _ ← transition_request env request s RequestPhase.Denied;
  mret Action.AwaitChange.

(** The checks of a request that waits for a decision or applies: nothing it was resolved
    from changed, and it is not suspended. *)
Definition snapshot_mode (s : EphemeralAccessRequestStatus) : EphemeralApprovalMode :=
  if bool_decide (rs_phase s = RequestPhase.PendingApproval) ||
     bool_decide (is_Some (decision_condition s "Approved")) ||
     bool_decide (is_Some (decision_condition s "Denied"))
  then EphemeralApprovalMode.Required else EphemeralApprovalMode.Automatic.

Definition resolution_changed (resolved current : ResolvedEphemeralAccess) (mode snapshot : EphemeralApprovalMode)
    : bool :=
  negb (String.eqb (access_policy_uid current) (access_policy_uid resolved)) ||
  negb (String.eqb (target_policy_uid current) (target_policy_uid resolved)) ||
  negb (String.eqb (bundle_hash_of current) (resolved_bundle_hash resolved)) ||
  negb (String.eqb (granted_duration current) (granted_duration resolved)) ||
  negb (bool_decide (mode = snapshot)).

Definition cancel (env : AccessEnv) (request : EphemeralAccessRequest) (resolved : ResolvedEphemeralAccess)
    (s : EphemeralAccessRequestStatus) : prog Action.Action :=
  s ← (if bool_decide (rs_phase s = RequestPhase.Applying)
       then r ← withdraw_if_activated env request resolved s; mret r.2
       else mret s);
  _ ← transition_request env request s RequestPhase.Cancelled;
  mret Action.AwaitChange.

Definition attests (resolved : ResolvedEphemeralAccess) (approved : EphemeralAccessCondition) : bool :=
  bool_decide (ec_bundle_hash approved = Some (resolved_bundle_hash resolved)) &&
  bool_decide (ec_granted_duration approved = Some (granted_duration resolved)).

Definition unattested : string :=
  "approval does not attest to the resolved bundle hash and duration".

Definition pending_requeue (env : AccessEnv) (deadline : N) : Action.Action :=
  Action.Requeue (N.max 1 (N.min RETRY_DELAY (deadline - ae_now env))).

Definition await_approval (env : AccessEnv) (request : EphemeralAccessRequest)
    (resolved : ResolvedEphemeralAccess) (mode : EphemeralApprovalMode) (suspended : bool)
    (s : EphemeralAccessRequestStatus) : prog Action.Action :=
  match rs_approval_expires_at s ≫= parse_time with
  | None => invalid "invalid approval deadline"
  | Some deadline =>
      if (deadline <=? ae_now env)%N
      then _ ← transition_request env request s RequestPhase.ApprovalExpired; mret Action.AwaitChange
      else if suspended then mret (pending_requeue env deadline)
      else
        match decision_condition s "Approved" with
        | None => mret (pending_requeue env deadline)
        | Some approved =>
            if negb (bool_decide (mode = EphemeralApprovalMode.Required)) || negb (attests resolved approved)
            then invalid unattested
            else
              s ← lift (persist_activation_deadline jiff_from_second (ae_now env) resolved s);
              _ ← transition_request env request s RequestPhase.Applying;
              mret (Action.Requeue 0)
        end
  end.

Definition until (env : AccessEnv) (expires_at : N) : Action.Action :=
  Action.Requeue (N.max 1 (expires_at - ae_now env)).

Definition activate (env : AccessEnv) (request : EphemeralAccessRequest) (resolved : ResolvedEphemeralAccess)
    (mode : EphemeralApprovalMode) (s : EphemeralAccessRequestStatus) : prog Action.Action :=
  _ ← (if bool_decide (mode = EphemeralApprovalMode.Required)
       then match decision_condition s "Approved" with
            | None => invalid "Required request cannot apply without Approved=True"
            | Some approved => ensure (attests resolved approved) unattested
            end
       else mret tt);
  match rs_expires_at s ≫= parse_time with
  | None => invalid "invalid access expiry"
  | Some expires_at =>
      if (expires_at <=? ae_now env)%N
      then
        r ← withdraw_if_activated env request resolved s;
        _ ← transition_request env request r.2
              (if (r.1 : bool) then RequestPhase.Ended else RequestPhase.Cancelled);
        mret Action.AwaitChange
      else
        _ ← apply_scoped env request resolved ScopedPlanOperation.Activate;
        let s := with_conditions s
          (set_condition (rs_conditions s)
             (access_condition (ae_now_text env) "Applied" true "MembershipsGranted"
                "Ephemeral memberships are active")) (rs_last_error s) in
        _ ← transition_request env request s RequestPhase.Active;
        mret (until env expires_at)
  end.

Definition watch_expiry (env : AccessEnv) (request : EphemeralAccessRequest)
    (s : EphemeralAccessRequestStatus) : prog Action.Action :=
  match rs_expires_at s ≫= parse_time with
  | None => invalid "invalid access expiry"
  | Some expires_at =>
      if (ae_now env <? expires_at)%N then mret (until env expires_at)
      else _ ← transition_request env request s RequestPhase.Revoking; mret (Action.Requeue 0)
  end.

Definition revoke (env : AccessEnv) (request : EphemeralAccessRequest) (resolved : ResolvedEphemeralAccess)
    (s : EphemeralAccessRequestStatus) : prog Action.Action :=
  s ← withdraw env request resolved s;
  _ ← transition_request env request s RequestPhase.Ended;
  mret Action.AwaitChange.

(** The phases that wait for a decision or apply. *)
Definition proceed (env : AccessEnv) (request : EphemeralAccessRequest) (resolved : ResolvedEphemeralAccess)
    (s : EphemeralAccessRequestStatus) : prog Action.Action :=
  '(current, _, mode, suspended) ← resolve_now env request;
  let changed := resolution_changed resolved current mode (snapshot_mode s) in
  if changed || ((suspended : bool) && bool_decide (rs_phase s = RequestPhase.Applying))
  then cancel env request resolved s
  else if bool_decide (rs_phase s = RequestPhase.PendingApproval)
  then await_approval env request resolved mode suspended s
  else activate env request resolved mode s.

(** [reconcile_access_request_apply] *)
Definition reconcile_access_request_apply (env : AccessEnv) (request : EphemeralAccessRequest)
    : prog Action.Action :=
  let s := default default_request_status (rq_status request) in
  match rs_resolved_access s with
  | None => record_resolution env request s
  | Some resolved =>
      if negb (valid_hash resolved) then invalid "resolved bundle hash does not match its canonical payload"
      else if is_finished (rs_phase s) then mret Action.AwaitChange
      else if bool_decide (is_Some (decision_condition s "Denied")) then deny env request resolved s
      else
        match rs_phase s with
        | RequestPhase.PendingApproval | RequestPhase.Applying => proceed env request resolved s
        | RequestPhase.Active => watch_expiry env request s
        | RequestPhase.Revoking => revoke env request resolved s
        | _ => mret (Action.Requeue RETRY_DELAY)
        end
  end.

(** [reconcile_access_request_cleanup], before the finalizer is removed *)
Definition reconcile_access_request_cleanup (env : AccessEnv) (request : EphemeralAccessRequest)
    : prog Action.Action :=
  match rq_status request with
  | None => mret Action.AwaitChange
  | Some s =>
      match rs_resolved_access s, rs_phase s with
      | Some resolved, (RequestPhase.Applying | RequestPhase.Active | RequestPhase.Revoking) =>
          if negb (valid_hash resolved)
          then invalid "refusing finalizer cleanup for a non-canonical resolved bundle"
          else
            activated ← request_has_scoped_activation_plan request resolved true;
            if (activated : bool)
            then
              _ ← apply_scoped env request resolved ScopedPlanOperation.Revoke;
              mret Action.AwaitChange
            else mret Action.AwaitChange
      | _, _ => mret Action.AwaitChange
      end
  end.

(** [reconcile_access_request]: an invalid state is reported on the request. *)
Definition reconcile_access_request (env : AccessEnv) (request : EphemeralAccessRequest)
    : prog Action.Action := λ w,
  match reconcile_access_request_apply env request w with
  | (ws, Err (EphemeralError.Invalid message)) =>
      let '(ws', r) := update_request_validation_error env request message (last_world w ws) in
      (ws ++ ws', r)
  | r => r
  end.
End lifecycle.
