(* ===== verification/EphemeralFacts.v ===== *)
(** * Reasoning about runs

    What holds of every state a procedure leaves behind, wherever it is interrupted, and of
    its result: one rule per operation of [prog]. *)

From S2P Require Import Prelude BTree RustStr Types Guc Model Change Diff DiffSafety Interp Converge Plan Sql Manifest CompositionPlan Approval PlanStatus PlanSql PlanCreation Durations PlanRetention K8sNames Promotion Ephemeral EphemeralScoped EphemeralLifecycle.

(** From [w]: every state written satisfies [S], a value is returned in a state that
    satisfies [Q], and an error, or a panic, satisfies [E]. *)
Definition run_ok {A} (m : prog A) (S : AccessWorld → Prop) (Q : A → AccessWorld → Prop)
    (E : option EphemeralError → Prop) (w : AccessWorld) : Prop :=
  Forall S (m w).1 ∧
  match (m w).2 with
  | Ok a => Q a (last_world w (m w).1)
  | Err e => E (Some e)
  | Panic => E None
  end.

Section rules.
Context (S : AccessWorld → Prop) (E : option EphemeralError → Prop).

Lemma last_world_app w ws ws' : last_world w (ws ++ ws') = last_world (last_world w ws) ws'.
Proof. unfold last_world. rw last_app. by destruct (last ws'). Qed.

Lemma run_ret {A} (a : A) (Q : A → AccessWorld → Prop) w : Q a w → run_ok (mret a) S Q E w.
Proof. by intros HQ; split. Qed.

Lemma run_raise {A} e (Q : A → AccessWorld → Prop) w : E (Some e) → run_ok (raise e) S Q E w.
Proof. by intros HE; split. Qed.

Lemma run_invalid {A} message (Q : A → AccessWorld → Prop) w :
  E (Some (EphemeralError.Invalid message)) → run_ok (invalid message) S Q E w.
Proof. apply run_raise. Qed.

Lemma run_lift {A} (r : res EphemeralError A) (Q : A → AccessWorld → Prop) w :
  (∀ a, r = Ok a → Q a w) → ((∀ a, r ≠ Ok a) → ∀ e, E e) → run_ok (lift r) S Q E w.
Proof. intros HQ HE. split; [done|]. cbn. destruct r; auto; by apply HE. Qed.

Lemma run_read {A} (f : AccessWorld → A) (Q : A → AccessWorld → Prop) w :
  Q (f w) w → run_ok (read f) S Q E w.
Proof. by intros HQ; split. Qed.

Lemma run_write f (Q : unit → AccessWorld → Prop) w : S (f w) → Q tt (f w) → run_ok (write f) S Q E w.
Proof. intros HS HQ. split; [by constructor|done]. Qed.

Lemma run_bind {A B} (m : prog A) (f : A → prog B) (Q : B → AccessWorld → Prop) w :
  run_ok m S (λ a w, run_ok (f a) S Q E w) E w → run_ok (m ≫= f) S Q E w.
Proof.
  unfold run_ok, mbind, prog_bind. destruct (m w) as [ws r]. cbn [fst snd]. intros [HS Hr].
  destruct r as [a|e|]; [|done..]. destruct (f a (last_world w ws)) as [ws' r'] eqn:Hf.
  cbn [fst snd] in Hr |- *. destruct Hr as [HS' Hr']. split; [by apply Forall_app|].
  destruct r'; [|done..]. by rw last_world_app.
Qed.

Lemma run_weaken {A} (m : prog A) (S' : AccessWorld → Prop) (E' : option EphemeralError → Prop)
    (Q Q' : A → AccessWorld → Prop) w :
  (∀ w, S' w → S w) → (∀ e, E' e → E e) → (∀ a w, Q' a w → Q a w) →
  run_ok m S' Q' E' w → run_ok m S Q E w.
Proof.
  intros HS HE HQ [H1 H2]. split; [by eapply Forall_impl|]. destruct (m w).2; auto.
Qed.

Lemma run_ensure b message (Q : unit → AccessWorld → Prop) w :
  (b = true → Q tt w) → (b = false → E (Some (EphemeralError.Invalid message))) → run_ok (ensure b message) S Q E w.
Proof. intros HQ HE. destruct b; [by apply run_ret, HQ|by apply run_invalid, HE]. Qed.

Lemma run_lookup_policy name (Q : EphemeralAccessPolicy → AccessWorld → Prop) w :
  (∀ p, find (λ p, String.eqb (ap_name p) name) (aw_policies w) = Some p → Q p w) →
  (find (λ p, String.eqb (ap_name p) name) (aw_policies w) = None → E (Some (EphemeralError.Kube "not found"))) → run_ok (lookup_policy name) S Q E w.
Proof.
  intros HQ HE. apply run_bind, run_read. destruct (find _ _); [by apply run_ret, HQ|by apply run_raise, HE].
Qed.

Lemma run_lookup_target name (Q : TargetPolicy → AccessWorld → Prop) w :
  (∀ t, find (λ t, String.eqb (tp_name t) name) (aw_targets w) = Some t → Q t w) →
  (find (λ t, String.eqb (tp_name t) name) (aw_targets w) = None → E (Some (EphemeralError.Kube "not found"))) → run_ok (lookup_target name) S Q E w.
Proof.
  intros HQ HE. apply run_bind, run_read. destruct (find _ _); [by apply run_ret, HQ|by apply run_raise, HE].
Qed.

Lemma run_connect fp (Q : RoleGraph → AccessWorld → Prop) w :
  (∀ g, aw_databases w !! fp = Some g → Q g w) →
  (aw_databases w !! fp = None → E (Some (EphemeralError.Context "connection failed"))) → run_ok (connect fp) S Q E w.
Proof.
  intros HQ HE. apply run_bind, run_read. destruct (aw_databases w !! fp) eqn:Hg;
    [by apply run_ret, HQ|by apply run_raise, HE].
Qed.

Lemma run_at {A} (m n : prog A) (Q : A → AccessWorld → Prop) w :
  m w = n w → run_ok n S Q E w → run_ok m S Q E w.
Proof. unfold run_ok. by intros ->. Qed.

Lemma run_if {A} (b : bool) (m n : prog A) (Q : A → AccessWorld → Prop) w :
  (b = true → run_ok m S Q E w) → (b = false → run_ok n S Q E w) → run_ok (if b then m else n) S Q E w.
Proof. destruct b; auto. Qed.
End rules.

(** ** What scoped plans may change

    A scoped plan only adds the memberships of its bundle, or only removes those of them
    that nothing else needs, in the one database the request was resolved against. *)

(** ** Memberships by role and member *)

Lemma map_collect_None {K V} `{Countable K} (l : list (K * V)) k :
  map_collect l !! k = None → ∀ v, (k, v) ∉ l.
Proof.
  induction l as [|[k' v'] l IH] using rev_ind=> /= Hl v Hin; [by apply not_elem_of_nil in Hin|].
  rw map_collect_app lookup_insert_None /= in Hl. destruct Hl as [Hl Hne].
  apply elem_of_app in Hin as [Hin|Hin]; [by eapply IH|].
  apply list_elem_of_singleton in Hin. congruence.
Qed.

Lemma edge_with_key_Some g key e :
  edge_with_key g key = Some e → e ∈ memberships g ∧ graph_membership_key e = key.
Proof. apply elem_of_membership_map. Qed.

Lemma edge_with_key_present g e :
  e ∈ memberships g → is_Some (edge_with_key g (graph_membership_key e)).
Proof.
  intros He. unfold edge_with_key, membership_map.
  destruct (map_collect _ !! _) eqn:Hk; [by eexists|]. exfalso.
  apply map_collect_None with (v := e) in Hk. apply Hk. apply list_elem_of_fmap. exists e.
  by rw elem_of_set_iter.
Qed.

Lemma edge_with_key_absent g key :
  ¬ is_Some (edge_with_key g key) → ∀ e, e ∈ memberships g → graph_membership_key e ≠ key.
Proof. intros Hn e He <-. by apply Hn, edge_with_key_present. Qed.

(** ** Inspections *)

(** The inspection reports the roles it was asked about as they are, and every membership
    between two of them. *)
Definition inspects (env : AccessEnv) : Prop :=
  ∀ expanded scope g seen, ae_inspect env expanded scope g = Ok seen →
  (∀ r, r ∈ scope → roles seen !! r = roles g !! r) ∧
  (∀ e, me_role e ∈ scope → me_member e ∈ scope → e ∈ memberships seen ↔ e ∈ memberships g).

Definition bundle_keys (resolved : ResolvedEphemeralAccess) : gset (string * string) :=
  list_to_set (membership_key <$> resolved_memberships resolved).

Lemma elem_of_bundle_keys resolved m :
  m ∈ resolved_memberships resolved → membership_key m ∈ bundle_keys resolved.
Proof. intros Hm. apply elem_of_list_to_set, list_elem_of_fmap. eauto. Qed.

Lemma elem_of_bundle_roles resolved m :
  m ∈ resolved_memberships resolved → rm_role m ∈ bundle_roles resolved ∧ rm_member m ∈ bundle_roles resolved.
Proof.
  intros Hm. unfold bundle_roles. rw !elem_of_list_to_set.
  split; eapply elem_of_bind_2; try done; [left|right; left].
Qed.

(** ** The changes *)

Definition gains_only (resolved : ResolvedEphemeralAccess) (g g' : RoleGraph) : Prop :=
  memberships g ⊆ memberships g' ∧
  ∀ e, e ∈ memberships g' → e ∉ memberships g →
    ∃ m, m ∈ resolved_memberships resolved ∧ e = edge_of m ∧
         ∀ x, x ∈ memberships g → graph_membership_key x ≠ membership_key m.

Definition loses_only (keys : gset (string * string)) (g g' : RoleGraph) : Prop :=
  memberships g' ⊆ memberships g ∧
  ∀ e, e ∈ memberships g → e ∉ memberships g' → graph_membership_key e ∈ keys.

Lemma edge_of_key m : graph_membership_key (edge_of m) = membership_key m.
Proof. done. Qed.

Lemma retain_others_absent role member (ms : gset MembershipEdge) :
  (∀ e, e ∈ ms → graph_membership_key e ≠ (role, member)) → retain_others role member ms = ms.
Proof.
  intros Hn. apply set_eq. intros e. unfold retain_others. rw elem_of_filter. split; [by intros []|].
  intros He. split; [|done]. intros [<- <-]. by apply (Hn e).
Qed.

(** *** Adding *)

Definition addition_of (m : ResolvedEphemeralMembership) : Change :=
  Change.AddMember (rm_role m) (rm_member m) (rm_inherit m) false.

Lemma activation_changes_Ok facts l changes :
  activation_changes facts l = Ok changes →
  ∃ added, changes = addition_of <$> added ∧ added `sublist_of` l ∧
    (∀ m, m ∈ added → m ∈ l ∧ edge_with_key (sf_current facts) (membership_key m) = None) ∧
    ∀ m, m ∈ l → is_Some (roles (sf_current facts) !! rm_role m) ∧
      is_Some (roles (sf_current facts) !! rm_member m) ∧
      edge_with_key (sf_durable facts) (membership_key m) = None ∧
      (m ∈ added ∨ edge_with_key (sf_current facts) (membership_key m) = Some (edge_of m)).
Proof.
  revert changes. induction l as [|m l IH]=> changes /=.
  { intros [= <-]. exists []. split_and!; [done|done|..]; by intros m Hm%not_elem_of_nil. }
  intros (first & Hfirst & (rest & Hrest & [= <-])%bind_Ok)%bind_Ok.
  destruct (IH _ Hrest) as (added & -> & Hsub & Hadded & Hall). revert Hfirst. unfold activation_change.
  destruct (negb _ || negb _) eqn:Hr; [done|].
  rw orb_false_iff !negb_false_iff !bool_decide_eq_true in Hr. destruct Hr as [Hr1 Hr2].
  case_bool_decide as Hd; [done|]. apply eq_None_not_Some in Hd.
  destruct (edge_with_key (sf_current facts) _) as [existing|] eqn:He.
  - destruct (_ && _ && _) eqn:Hb; [|done]. intros [= <-]. exists added.
    rw !andb_true_iff negb_true_iff in Hb. destruct Hb as [[_ Hi%eqb_prop] Ha].
    split_and!; [done|by apply sublist_cons| |].
    + intros m' Hm'. destruct (Hadded m' Hm'). split; [by right|done].
    + intros m' [->|Hm']%elem_of_cons; [|by apply Hall]. split_and!; try done. right. rw He.
      apply edge_with_key_Some in He as [_ Hk]. unfold graph_membership_key, membership_key in Hk.
      destruct existing as [er em ei ea]; cbn in *. by simplify_eq.
  - intros [= <-]. exists (m :: added). split_and!; [done|by apply sublist_skip| |].
    + intros m' [->|Hm']%elem_of_cons; [by split; [left|]|]. destruct (Hadded m' Hm').
      split; [by right|done].
    + intros m' [->|Hm']%elem_of_cons; [split_and!; try done; left; left|].
      destruct (Hall m' Hm') as (?&?&?&[?|?]); split_and!; try done; [left; by right|by right].
Qed.

Lemma with_memberships_twice g X Y : with_memberships (with_memberships g X) Y = with_memberships g Y.
Proof. done. Qed.

Lemma with_memberships_same g : with_memberships g (memberships g) = g.
Proof. by destruct g. Qed.

(** Additions of absent keys: everything stays, and each new edge is one of them. *)
Lemma apply_additions g added :
  (∀ m, m ∈ added → ∀ e, e ∈ memberships g → graph_membership_key e ≠ membership_key m) →
  ∃ ms, apply_changes g (addition_of <$> added) = Some (with_memberships g ms) ∧
    memberships g ⊆ ms ∧ (∀ e, e ∈ ms → e ∉ memberships g → ∃ m, m ∈ added ∧ e = edge_of m) ∧
    (NoDup (membership_key <$> added) → ∀ m, m ∈ added → edge_of m ∈ ms).
Proof.
  induction added as [|m added IH] using rev_ind=> Hn.
  { exists (memberships g). rw with_memberships_same. split_and!; try done.
    by intros _ m Hm%not_elem_of_nil. }
  destruct IH as (ms & Hms & Hsub & Hnew & Hall); [intros; apply Hn; [by apply elem_of_app; left|done]|].
  exists (retain_others (rm_role m) (rm_member m) ms ∪ {[edge_of m]}).
  rw fmap_app apply_changes_app Hms. split_and!; [done| | |].
  - intros e He. apply elem_of_union. left. apply elem_of_filter. split; [|by apply Hsub].
    intros [Hr Hm]. apply (Hn m) with (e := e); [|done|].
    + apply elem_of_app. right. by apply list_elem_of_singleton.
    + unfold graph_membership_key, membership_key. congruence.
  - intros e [[_ He]%elem_of_filter| ->%elem_of_singleton]%elem_of_union Hg.
    + destruct (Hnew e He Hg) as (m' & Hm' & ->). exists m'. split; [|done]. apply elem_of_app. by left.
    + exists m. split; [|done]. apply elem_of_app. right. by apply list_elem_of_singleton.
  - rw fmap_app. intros (Hnd & Hdisj & _)%NoDup_app m' [Hm'| ->%list_elem_of_singleton]%elem_of_app.
    + apply elem_of_union. left. apply elem_of_filter. split; [|by apply Hall].
      intros [Hr Hm]. apply (Hdisj (membership_key m')); [by apply list_elem_of_fmap_2|].
      apply list_elem_of_singleton. unfold membership_key. cbn in Hr, Hm. congruence.
    + apply elem_of_union. right. by apply elem_of_singleton.
Qed.

(** *** Removing *)

Definition removal_of (key : string * string) : Change := Change.RemoveMember key.1 key.2 None.

Lemma apply_removals g keys :
  apply_changes g (removal_of <$> keys) =
  Some (with_memberships g (filter (λ e, graph_membership_key e ∉ keys) (memberships g))).
Proof.
  revert g. induction keys as [|[r m] keys IH]=> g; cbn.
  - f_equal. rw -{1}(with_memberships_same g). f_equal. apply set_eq. intros e.
    rw elem_of_filter. split; [|by intros []]. intros He. split; [apply not_elem_of_nil|done].
  - rw IH with_memberships_twice. do 2 f_equal. apply set_eq. intros e. cbn.
    unfold retain_others. rw !elem_of_filter elem_of_cons. unfold graph_membership_key.
    split.
    + intros (Hk & Hne & He). split; [|done]. intros [Hrm|?]; [|done]. apply Hne. by simplify_eq.
    + intros (Hne & He). split; [by intros ?; apply Hne; right|]. split; [|done].
      intros [Hr Hm]. apply Hne. left. congruence.
Qed.

(** The memberships a revocation withdraws. *)
Definition withdrawn (facts : ScopedFacts) (key : string * string) : bool :=
  bool_decide (edge_with_key (sf_durable facts) key = None) &&
  bool_decide (key ∉ sf_other_owners facts) &&
  bool_decide (is_Some (edge_with_key (sf_current facts) key)).

Lemma revocation_change_withdrawn facts m :
  revocation_change facts m =
  if withdrawn facts (membership_key m) then [removal_of (membership_key m)] else [].
Proof.
  unfold revocation_change, withdrawn.
  destruct (edge_with_key (sf_durable facts) (membership_key m)) as [x|]; [done|].
  rw (bool_decide_false (is_Some None)); [|by intros []].
  destruct (bool_decide_reflect (membership_key m ∈ sf_other_owners facts)) as [Ho|Ho].
  - by rw (bool_decide_false (_ ∉ _)); [|by intros Hn; apply Hn].
  - by rw (bool_decide_true (_ ∉ _)).
Qed.

Lemma revocation_changes facts l :
  l ≫= revocation_change facts =
  removal_of <$> filter (λ key, withdrawn facts key) (membership_key <$> l).
Proof.
  induction l as [|m l IH]; [done|]. rw fmap_cons bind_cons IH filter_cons revocation_change_withdrawn.
  by destruct (withdrawn _ _).
Qed.

(** *** Together *)

(** What the inspection found of the bundle is what the database holds. *)
Definition sees (facts : ScopedFacts) (resolved : ResolvedEphemeralAccess) (g : RoleGraph) : Prop :=
  ∀ m, m ∈ resolved_memberships resolved → ∀ e, graph_membership_key e = membership_key m →
  e ∈ memberships (sf_current facts) ↔ e ∈ memberships g.

Lemma inspection_sees env expanded additional resolved durable owners activated g current :
  inspects env → ae_inspect env expanded (additional ∪ bundle_roles resolved) g = Ok current →
  sees {| sf_durable := durable; sf_current := current; sf_other_owners := owners; sf_activated := activated |}
    resolved g.
Proof.
  intros Henv Hi m Hm e Hk. destruct (Henv _ _ _ _ Hi) as [_ He].
  destruct (elem_of_bundle_roles _ _ Hm) as [Hr Hmem].
  unfold graph_membership_key, membership_key in Hk. simplify_eq.
  apply He; apply elem_of_union; right; congruence.
Qed.

Lemma elem_of_bundle_keys_1 resolved key :
  key ∈ bundle_keys resolved → ∃ m, m ∈ resolved_memberships resolved ∧ key = membership_key m.
Proof. intros (m & -> & Hm)%elem_of_list_to_set%list_elem_of_fmap. eauto. Qed.

Lemma sees_absent facts resolved g m :
  sees facts resolved g → m ∈ resolved_memberships resolved →
  edge_with_key (sf_current facts) (membership_key m) = None →
  ∀ e, e ∈ memberships g → graph_membership_key e ≠ membership_key m.
Proof.
  intros Hs Hm Hn e He Hk. apply (edge_with_key_absent (sf_current facts) (membership_key m)) with (e := e);
    [rw Hn; by intros []|by apply (Hs m Hm)|done].
Qed.

Lemma scoped_changes_effect facts op resolved g changes retained :
  sees facts resolved g → scoped_changes facts op (resolved_memberships resolved) = Ok (changes, retained) →
  ∃ ms, apply_changes g changes = Some (with_memberships g ms) ∧
    (∀ e, e ∈ ms → e ∉ memberships g → op = ScopedPlanOperation.Activate ∧
       (∃ m, m ∈ resolved_memberships resolved ∧ e = edge_of m) ∧
       edge_with_key (sf_durable facts) (graph_membership_key e) = None ∧
       ∀ x, x ∈ memberships g → graph_membership_key x ≠ graph_membership_key e) ∧
    (∀ e, e ∈ memberships g → e ∉ ms → op = ScopedPlanOperation.Revoke ∧
       graph_membership_key e ∈ bundle_keys resolved ∧
       edge_with_key (sf_durable facts) (graph_membership_key e) = None ∧
       graph_membership_key e ∉ sf_other_owners facts) ∧
    match op with
    | ScopedPlanOperation.Activate =>
        NoDup (membership_key <$> resolved_memberships resolved) →
        ∀ m, m ∈ resolved_memberships resolved → edge_of m ∈ ms
    | ScopedPlanOperation.Revoke =>
        ∀ e, e ∈ ms → graph_membership_key e ∈ bundle_keys resolved →
        is_Some (edge_with_key (sf_durable facts) (graph_membership_key e)) ∨
        graph_membership_key e ∈ sf_other_owners facts
    end.
Proof.
  intros Hs. destruct op; cbn [scoped_changes].
  - intros (l & (added & -> & Hsub & Hadded & Hall)%activation_changes_Ok & [= <- <-])%bind_Ok.
    destruct (apply_additions g added) as (ms & Hms & Hkeep & Hnew & Hin).
    { intros m Hm. destruct (Hadded m Hm). by eapply sees_absent. }
    exists ms. split_and!; [done|..].
    + intros e He Hg. destruct (Hnew e He Hg) as (m & Hm & ->). destruct (Hadded m Hm) as [Hml Hc].
      destruct (Hall m Hml) as (_ & _ & Hd & _). split_and!; [done|by exists m|done|].
      by eapply sees_absent.
    + intros e He Hn. by destruct (Hn (Hkeep e He)).
    + intros Hnd m Hm. destruct (Hall m Hm) as (_ & _ & _ & [Ha|Hc]).
      * apply Hin; [|done]. eapply sublist_NoDup; [exact Hnd|by apply fmap_sublist].
      * apply Hkeep. apply edge_with_key_Some in Hc as [He _]. by apply (Hs m Hm).
  - intros [= <- <-]. rw revocation_changes apply_removals. eexists. split_and!; [done|..].
    + intros e [_ He]%elem_of_filter Hg. by destruct (Hg He).
    + intros e He Hn. rw elem_of_filter in Hn. 
      destruct (decide (graph_membership_key e ∈ filter (λ key, withdrawn facts key)
        (membership_key <$> resolved_memberships resolved))) as [Hk|Hk]; [|by destruct (Hn (conj Hk He))].
      apply list_elem_of_filter in Hk as [Hw%Is_true_true Hk]. unfold withdrawn in Hw.
      rw !andb_true_iff !bool_decide_eq_true in Hw. destruct Hw as [[Hd Ho] _].
      split_and!; [done|by apply elem_of_list_to_set|done|done].
    + intros e [Hk He]%elem_of_filter Hb. destruct (elem_of_bundle_keys_1 _ _ Hb) as (m & Hm & Hkm).
      destruct (edge_with_key (sf_durable facts) (graph_membership_key e)) eqn:Hd; [by left; eexists|].
      destruct (decide (graph_membership_key e ∈ sf_other_owners facts)) as [Ho|Ho]; [by right|].
      exfalso. apply Hk, list_elem_of_filter. split; [|by rw Hkm; apply list_elem_of_fmap_2].
      apply Is_true_true. unfold withdrawn. rw !andb_true_iff !bool_decide_eq_true. split_and!; [done|done|].
      apply edge_with_key_present. by apply (Hs m Hm).
Qed.

(** Removals always render. *)
Lemma removals_render ctx keys : ∃ text, render_all_with_context (removal_of <$> keys) ctx = Ok text.
Proof.
  assert (∀ st, ∃ st', fold_res (render_step ctx) st (removal_of <$> keys) = Ok st') as Hfold.
  { induction keys as [|[r m] keys IH]=> -[out active]; [by eexists|].
    cbn. apply IH. }
  unfold render_all_with_context, render_batch_with_context.
  assert (existsb (unattributed_replacement (removal_of <$> keys)) (removal_of <$> keys) = false) as ->.
  { apply not_true_iff_false. intros (c & Hc & Hu)%existsb_exists. apply list_elem_of_In in Hc.
    apply list_elem_of_fmap in Hc as (key & -> & _). cbn in Hu.
    apply existsb_exists in Hu as (c & Hc & Hu). apply list_elem_of_In, list_elem_of_fmap in Hc as (key' & -> & _).
    done. }
  rw andb_false_r. destruct (Hfold ([], None)) as [[out active] ->]. cbn. by eexists.
Qed.

Lemma reconcile_error_Ok {A} (r : res ReconcileError A) a : reconcile_error r = Ok a → r = Ok a.
Proof. apply map_err_Ok. Qed.

(** ** Runs of the procedures *)

Section runs.
Context (to_vec : CanonicalEphemeralBundle → string) (sha256_hex : string → string).

(** The policy whose database a request is for. *)
Definition bound_target (w : AccessWorld) (request : EphemeralAccessRequest) : option TargetPolicy :=
  p ← find (λ p, String.eqb (ap_name p) (rq_access_policy_ref request)) (aw_policies w);
  find (λ t, String.eqb (tp_name t) (ap_postgres_policy_ref p)) (aw_targets w).

(** The target declares a membership of that role and member. *)
Definition durable_key (w : AccessWorld) (request : EphemeralAccessRequest) (key : string * string) : Prop :=
  ∃ target expanded g, bound_target w request = Some target ∧ expanded_of target = Ok expanded ∧
    from_expanded expanded (pm_default_owner (tp_manifest target)) = Ok g ∧
    is_Some (edge_with_key g key).

(** Another request that holds access, and was activated, has it in its bundle. *)
Definition held_by_another (w : AccessWorld) (request : EphemeralAccessRequest) (key : string * string)
    : Prop :=
  ∃ target other bundle, bound_target w request = Some target ∧ other ∈ aw_requests w ∧
    rq_uid other ≠ Some (default "" (rq_uid request)) ∧
    activated_bundle to_vec sha256_hex (default "" (tp_uid target))
      (list_scoped_plans (tp_name target) (aw_plans w)) other = Some bundle ∧
    key ∈ bundle_keys bundle.

(** A plan of the request authorises, or may have begun, its activation. *)
Definition was_activated (w : AccessWorld) (request : EphemeralAccessRequest)
    (resolved : ResolvedEphemeralAccess) : bool :=
  existsb (λ p, plan_authorizes_activation p request resolved true) (aw_plans w).

(** Plans and policies aside, as before. *)
Record same_access (w w' : AccessWorld) : Prop := {
  sa_requests : aw_requests w' = aw_requests w;
  sa_targets : aw_targets w' = aw_targets w;
  sa_databases : aw_databases w' = aw_databases w;
}.

(** From [w] to [w']: only memberships of the bundle, only in its database, and only in the
    direction of the operation. *)
Record scoped_effect (request : EphemeralAccessRequest) (resolved : ResolvedEphemeralAccess)
    (op : ScopedPlanOperation) (w w' : AccessWorld) : Prop := {
  se_requests : aw_requests w' = aw_requests w;
  se_targets : aw_targets w' = aw_targets w;
  se_other_databases fp : fp ≠ target_database_fingerprint resolved →
    aw_databases w' !! fp = aw_databases w !! fp;
  se_database g : aw_databases w !! target_database_fingerprint resolved = Some g →
    ∃ ms, aw_databases w' !! target_database_fingerprint resolved = Some (with_memberships g ms) ∧
      (∀ e, e ∈ ms → e ∉ memberships g → op = ScopedPlanOperation.Activate ∧
         (∃ m, m ∈ resolved_memberships resolved ∧ e = edge_of m) ∧
         ¬ durable_key w request (graph_membership_key e) ∧
         ∀ x, x ∈ memberships g → graph_membership_key x ≠ graph_membership_key e) ∧
      (∀ e, e ∈ memberships g → e ∉ ms → op = ScopedPlanOperation.Revoke ∧
         was_activated w request resolved = true ∧
         graph_membership_key e ∈ bundle_keys resolved ∧
         ¬ durable_key w request (graph_membership_key e) ∧
         ¬ held_by_another w request (graph_membership_key e));
}.

(** What an operation that was executed leaves: the bundle granted, or nothing of it that
    is not needed elsewhere. *)
Definition accomplished (request : EphemeralAccessRequest) (resolved : ResolvedEphemeralAccess)
    (op : ScopedPlanOperation) (w w' : AccessWorld) : Prop :=
  ∀ g, aw_databases w' !! target_database_fingerprint resolved = Some g →
  match op with
  | ScopedPlanOperation.Activate =>
      NoDup (membership_key <$> resolved_memberships resolved) →
      ∀ m, m ∈ resolved_memberships resolved → edge_of m ∈ memberships g
  | ScopedPlanOperation.Revoke =>
      ∀ e, e ∈ memberships g → graph_membership_key e ∈ bundle_keys resolved →
      durable_key w request (graph_membership_key e) ∨ held_by_another w request (graph_membership_key e)
  end.

(** No plan of the name of this one is recorded as applied. *)
Definition not_yet_applied (request : EphemeralAccessRequest) (resolved : ResolvedEphemeralAccess)
    (op : ScopedPlanOperation) (plans : list PolicyPlan) : Prop :=
  ∀ p s, p ∈ plans → scoped_plan_name request resolved op = Ok (plan_name p) → status p = Some s →
  phase s ≠ PlanPhase.Applied.

Lemma same_access_refl w : same_access w w.
Proof. done. Qed.

Lemma same_access_effect request resolved op w w' :
  same_access w w' → scoped_effect request resolved op w w'.
Proof.
  intros []. split; [done|done|by intros; congruence|]. intros g Hg. exists (memberships g).
  rw with_memberships_same. split_and!; [congruence|..]; by intros.
Qed.

(** What the locked part reads of the owners is what [held_by_another] says. *)
Lemma active_owners_held w request target key resolved :
  bound_target w request = Some target → tp_uid target = Some (target_policy_uid resolved) →
  key ∈ active_owner_keys to_vec sha256_hex target
          (for_target_policy_uid (target_policy_uid resolved) (aw_requests w))
          (list_scoped_plans (tp_name target) (aw_plans w)) (Some (default "" (rq_uid request))) ↔
  held_by_another w request key.
Proof.
  intros Ht Huid. unfold active_owner_keys. rw elem_of_list_to_set. split.
  - intros (other & Hin & Hkey)%elem_of_bind_1. case_bool_decide as Hu; [by apply not_elem_of_nil in Hkey|].
    destruct (activated_bundle _ _ _ _ _) as [bundle|] eqn:Hb; [|by apply not_elem_of_nil in Hkey].
    apply list_elem_of_filter in Hin as [_ Hin]. exists target, other, bundle.
    split_and!; try done. by apply elem_of_list_to_set.
  - intros (target' & other & bundle & Ht' & Hin & Hu & Hb & Hkey). rw Ht in Ht'. simplify_eq.
    apply elem_of_bind_2 with (x := other).
    + apply list_elem_of_filter. split; [|done]. apply Is_true_true, bool_decide_eq_true.
      unfold activated_bundle in Hb. rw Huid in Hb. destruct (rq_status other) as [s|]; [|done].
      cbn in Hb |- *. destruct (negb _); [done|]. destruct (rs_resolved_access s) as [b|]; [|done].
      cbn in Hb |- *. destruct (negb _); [done|]. destruct (String.eqb _ _) eqn:He; [|done].
      apply String.eqb_eq in He. 
      cbn in Hb. destruct (negb _); [done|]. simplify_eq. by rw He.
    + rw bool_decide_false // Hb. by apply elem_of_list_to_set in Hkey.
Qed.

Section steps.
Context (w : AccessWorld).
Abbreviation ok := (same_access w).
Abbreviation any_error := (λ _ : option EphemeralError, True).

Lemma run_compose now target desired requests plans fp w' :
  ok w' →
  run_ok (compose_effective_graph to_vec sha256_hex now target desired requests plans fp) ok
    (λ r w'', ok w'' ∧ aw_plans w'' = aw_plans w' ∧
       effective_graph to_vec sha256_hex target desired requests plans fp = Ok r)
    (λ _, ∀ r, effective_graph to_vec sha256_hex target desired requests plans fp ≠ Ok r) w'.
Proof.
  intros Hw. unfold compose_effective_graph. destruct (effective_graph _ _ _ _ _ _ _) as [r|stop|] eqn:He.
  - apply run_bind, run_write; [by destruct Hw|]. apply run_ret. split_and!; [by destruct Hw|done..].
  - apply run_bind.
    destruct (os_blocked stop) as [[[[]]]|]; [apply run_write|apply run_ret]; try (by destruct Hw);
      by apply run_raise.
  - by apply run_lift.
Qed.

(** Nothing stands in the way of the plan object. *)
Definition creatable request target resolved op changes ctx (plans : list PolicyPlan) : Prop :=
  (∃ name, scoped_plan_name request resolved op = Ok name ∧
     ∀ p, p ∈ plans → plan_name p = name →
       validate_existing_scoped_plan p request target resolved op = Ok tt) ∧
  ∃ text, render_all_with_context changes ctx = Ok text.

Lemma run_create now request target resolved op changes ctx w' :
  ok w' →
  run_ok (create_scoped_plan sha256_hex now request target resolved op changes ctx) ok
    (λ plan w'', ok w'' ∧ (not_yet_applied request resolved op (aw_plans w') →
       match status plan with Some s => is_phase PlanPhase.Applied s | None => false end = false))
    (λ _, ¬ creatable request target resolved op changes ctx (aw_plans w')) w'.
Proof.
  intros Hw. unfold create_scoped_plan. apply run_bind, run_lift.
  2: { intros Hn _ [(name & Hname & _) _]. by apply (Hn name). }
  intros name Hname. apply run_bind, run_lift.
  2: { intros Hn _ [_ (text & Htext)]. apply (Hn text). by rw Htext. }
  intros sql _. apply run_bind, run_read.
  destruct (find _ _) as [existing|] eqn:Hf.
  - apply find_some in Hf as [Hin%list_elem_of_In Heq%String.eqb_eq]. apply run_bind, run_lift.
    2: { intros Hn _ [(name' & Hname' & Hv) _]. rw Hname in Hname'. simplify_eq. by apply (Hn tt), Hv. }
    intros _ _. apply run_ret. split; [done|]. intros Hn.
    destruct (status existing) as [s|] eqn:Hs; [|done].
    unfold is_phase. apply bool_decide_eq_false. eapply Hn; [done| |done]. by subst.
  - apply run_bind, run_write; [by destruct Hw|]. apply run_bind, run_write; [by destruct Hw|].
    apply run_ret. by destruct Hw.
Qed.

Lemma scoped_effect_plans request resolved op w' l :
  scoped_effect request resolved op w w' → scoped_effect request resolved op w (with_plans w' l).
Proof. by intros []. Qed.
End steps.

Section locked.
Context (env : AccessEnv) (Henv : inspects env) (w : AccessWorld)
  (request : EphemeralAccessRequest) (resolved : ResolvedEphemeralAccess) (op : ScopedPlanOperation)
  (target : TargetPolicy) (g : RoleGraph).
Context (Htarget : bound_target w request = Some target)
  (Huid : tp_uid target = Some (target_policy_uid resolved))
  (Hdb : aw_databases w !! target_database_fingerprint resolved = Some g)
  (Hact : op = ScopedPlanOperation.Revoke → was_activated w request resolved = true).

Abbreviation fp := (target_database_fingerprint resolved).
Abbreviation effect := (scoped_effect request resolved op w).

(** The plan's own check and the rendering never stop a revocation. *)
Lemma revocation_in_scope facts keys :
  (∀ key, key ∈ keys → key ∈ bundle_keys resolved) →
  check_scope (bundle_keys resolved) (removal_of <$> filter (λ key, withdrawn facts key) keys) = Ok tt.
Proof.
  induction keys as [|key keys IH]; [done|]. intros Hk. rw filter_cons.
  assert (check_scope (bundle_keys resolved) (removal_of <$> filter (λ key, withdrawn facts key) keys) = Ok tt)
    as Hrest by (apply IH; intros; apply Hk; by right).
  destruct (decide _); [|done]. cbn. rw bool_decide_true //. destruct key. apply Hk. left.
Qed.

(** Everything a revocation asks of its surroundings is there. *)
Record lock_served : Prop := {
  ls_transaction : ae_transaction env = None;
  ls_context : ∃ ctx, ae_sql_context env = Ok ctx;
  ls_inspect expanded scope : ∃ seen, ae_inspect env expanded scope g = Ok seen;
  ls_composes : ∃ expanded durable composed, expanded_of target = Ok expanded ∧
    from_expanded expanded (pm_default_owner (tp_manifest target)) = Ok durable ∧
    effective_graph to_vec sha256_hex target durable
      (for_target_policy_uid (target_policy_uid resolved) (aw_requests w))
      (list_scoped_plans (tp_name target) (aw_plans w)) fp = Ok composed;
  ls_plan : ∃ name, scoped_plan_name request resolved op = Ok name ∧
    ∀ p, p ∈ aw_plans w → plan_name p = name →
      validate_existing_scoped_plan p request target resolved op = Ok tt;
}.

Abbreviation unserved := (λ _ : option EphemeralError, ¬ (op = ScopedPlanOperation.Revoke ∧ lock_served)).

(** Executing what was decided on facts that are what [durable_key] and [held_by_another]
    say. *)
Lemma execute_effect facts changes retained w' :
  sees facts resolved g → same_access w w' →
  (∀ key, is_Some (edge_with_key (sf_durable facts) key) ↔ durable_key w request key) →
  (∀ key, key ∈ sf_other_owners facts ↔ held_by_another w request key) →
  scoped_changes facts op (resolved_memberships resolved) = Ok (changes, retained) →
  let w'' := with_databases w' (alter (λ g, default g (apply_changes g changes)) fp (aw_databases w')) in
  effect w'' ∧ accomplished request resolved op w w''.
Proof.
  intros Hs [Hr Ht Hd] Hdur Hown Hc w''.
  destruct (scoped_changes_effect _ _ _ _ _ _ Hs Hc) as (ms & Hms & Hgain & Hlose & Hdone).
  assert (aw_databases w'' !! fp = Some (with_memberships g ms)) as Hw''.
  { cbn. by rw lookup_alter_eq Hd Hdb /= Hms. }
  split; [split|].
  - done.
  - done.
  - intros fp' Hne. cbn. rw lookup_alter_ne //. by rw Hd.
  - intros g'. rw Hdb. intros [= <-]. exists ms. split_and!; [done|..].
    + intros e He Hn. destruct (Hgain e He Hn) as (?&?&Hk%eq_None_not_Some&?). by rw Hdur in Hk.
    + intros e He Hn. destruct (Hlose e He Hn) as (?&?&Hk%eq_None_not_Some&Ho).
      rw Hdur in Hk. rw Hown in Ho. by split_and!; [|apply Hact|..].
  - intros g'. rw Hw''. intros [= <-]. destruct op; [done|]. intros e He Hk.
    destruct (Hdone e He Hk) as [?|?]; [left; by apply Hdur|right; by apply Hown].
Qed.

(** Execution under the plan, and the record of how it ended. *)
Lemma run_execution expanded durable additional current activated changes retained plan w' :
  expanded_of target = Ok expanded →
  from_expanded expanded (pm_default_owner (tp_manifest target)) = Ok durable →
  ae_inspect env expanded (additional ∪ bundle_roles resolved) g = Ok current →
  scoped_changes {| sf_durable := durable; sf_current := current;
    sf_other_owners := active_owner_keys to_vec sha256_hex target
      (for_target_policy_uid (target_policy_uid resolved) (aw_requests w))
      (list_scoped_plans (tp_name target) (aw_plans w)) (Some (default "" (rq_uid request)));
    sf_activated := activated |} op (resolved_memberships resolved) = Ok (changes, retained) →
  same_access w w' →
  run_ok
    (_ ← execute_changes env fp changes;
     match ae_transaction env with
     | None => _ ← finish_scoped_plan (ae_now_text env) plan PlanPhase.Applied None; mret retained
     | Some error =>
         _ ← finish_scoped_plan (ae_now_text env) plan PlanPhase.Failed (Some error);
         raise (EphemeralError.Reconcile (ReconcileError.SqlExec error))
     end)
    effect
    (λ _ w', effect w' ∧ (not_yet_applied request resolved op (aw_plans w) →
                          accomplished request resolved op w w'))
    unserved w'.
Proof.
  intros Hexp Hdur Hcur Hc Hw'. unfold execute_changes. destruct (ae_transaction env) as [error|] eqn:Ht.
  - apply run_bind, run_ret, run_bind, run_write.
    + by apply scoped_effect_plans, same_access_effect.
    + apply run_raise. intros [_ []]. congruence.
  - edestruct execute_effect as [He Ha]; [by eapply inspection_sees|exact Hw'| | |exact Hc|].
    + intros key. cbn. split; [intros; by exists target, expanded, durable|].
      intros (t & x & d & Ht' & Hx & Hd & ?). rw Htarget in Ht'. simplify_eq. rw Hexp in Hx. simplify_eq.
      rw Hdur in Hd. by simplify_eq.
    + intros key. by apply active_owners_held.
    + apply run_bind, run_write; [exact He|]. apply run_bind, run_write; [by apply scoped_effect_plans|].
      apply run_ret. split; [by apply scoped_effect_plans|done].
Qed.

Lemma run_under_lock :
  run_ok (apply_scoped_memberships_under_lock to_vec sha256_hex env request resolved op target fp g)
    effect
    (λ _ w', effect w' ∧ (not_yet_applied request resolved op (aw_plans w) →
                          accomplished request resolved op w w'))
    unserved w.
Proof.
  unfold apply_scoped_memberships_under_lock. apply run_bind, run_lift.
  2: { intros Hn _ [_ [_ _ _ (x & d & c & Hx & _) _]]. by apply (Hn x). }
  intros expanded Hexp. apply run_bind, run_lift.
  2: { intros Hn _ [_ [_ _ _ (x & d & c & Hx & Hd & _) _]]. rw Hexp in Hx. simplify_eq.
       apply (Hn d). by rw Hd. }
  intros durable Hdurable. apply reconcile_error_Ok, map_err_Ok in Hdurable.
  apply run_bind, run_read, run_bind, run_read, run_bind.
  eapply run_weaken; [by intros; apply same_access_effect| | |by apply (run_compose w)].
  { intros err Hn [_ [_ _ _ (x & d & c & Hx & Hd & Hc) _]]. rw Hexp in Hx. simplify_eq.
    rw Hdurable in Hd. simplify_eq. by eapply Hn. }
  intros composed w1 (Hw1 & Hplans & _). cbn beta. apply run_bind, run_lift.
  2: { intros Hn _ [_ [_ _ Hi _ _]]. destruct (Hi expanded (composed.1 ∪ bundle_roles resolved)) as [seen Hs].
       apply (Hn seen). by rw Hs. }
  intros current Hcur%reconcile_error_Ok. apply run_bind, run_lift.
  2: { intros Hn _ [-> _]. by eapply Hn. }
  intros [changes retained] Hc. apply run_bind, run_lift.
  2: { intros Hn _ [-> _]. apply (Hn tt). cbn in Hc. simplify_eq. rw revocation_changes.
       apply revocation_in_scope. intros key Hk. by apply elem_of_list_to_set. }
  intros _ _. apply run_bind, run_lift.
  2: { intros Hn _ [_ [_ [ctx Hctx] _ _ _]]. apply (Hn ctx). by rw Hctx. }
  intros ctx _. apply run_bind, run_lift.
  2: { intros Hn _ [-> _]. by apply (Hn tt). }
  intros _ _. apply run_bind.
  eapply run_weaken; [by intros; apply same_access_effect| | |by apply run_create].
  { intros err Hn [Hop [_ _ _ _ Hplan]]. apply Hn. rw Hplans. split; [exact Hplan|].
    rw Hop in Hc. cbn in Hc. simplify_eq. rw revocation_changes. apply removals_render. }
  intros plan w2 [Hw2 Hplan]. cbn beta. rw Hplans in Hplan.
  destruct (match status plan with Some s => _ | None => _ end).
  { apply run_ret. split; [by apply same_access_effect|]. intros Hn. by specialize (Hplan Hn). }
  by eapply run_execution.
Qed.
End locked.

(** Everything a revocation needs is there, from the objects it names to the database. *)
Record served (env : AccessEnv) (w : AccessWorld) (request : EphemeralAccessRequest)
    (resolved : ResolvedEphemeralAccess) (op : ScopedPlanOperation) : Prop := {
  sv_hash : has_valid_bundle_hash to_vec sha256_hex resolved = true;
  sv_activated : was_activated w request resolved = true;
  sv_policy : ∃ p, find (λ p, String.eqb (ap_name p) (rq_access_policy_ref request)) (aw_policies w) = Some p ∧
    ap_uid p = Some (access_policy_uid resolved);
  sv_lock : ae_lock env = None;
  sv_target : ∃ target g, bound_target w request = Some target ∧
    tp_uid target = Some (target_policy_uid resolved) ∧
    ae_fingerprint env target = Ok (target_database_fingerprint resolved) ∧
    aw_databases w !! target_database_fingerprint resolved = Some g ∧
    lock_served env w request resolved op target g;
}.

(** Whatever a run of a scoped operation leaves behind, wherever it stops. *)
Lemma run_apply_scoped env request resolved op w :
  inspects env →
  run_ok (apply_scoped_memberships to_vec sha256_hex env request resolved op)
    (scoped_effect request resolved op w)
    (λ _ w', scoped_effect request resolved op w w' ∧
       (not_yet_applied request resolved op (aw_plans w) → accomplished request resolved op w w'))
    (λ _, ¬ (op = ScopedPlanOperation.Revoke ∧ served env w request resolved op)) w.
Proof.
  intros Henv. unfold apply_scoped_memberships. apply run_bind, run_ensure.
  2: { intros Hf [_ []]. congruence. }
  intros _. apply run_bind, run_read, run_bind, run_ensure.
  2: { intros [_ Hf]%orb_false_iff [_ []]. unfold was_activated in *. congruence. }
  intros Hact. apply run_bind, run_lookup_policy.
  2: { intros Hf [_ [_ _ (p & Hp & _) _ _]]. congruence. }
  intros p Hp. apply run_bind, run_ensure.
  2: { intros Hf%bool_decide_eq_false [_ [_ _ (p' & Hp' & ?) _ _]]. congruence. }
  intros _. apply run_bind, run_lookup_target.
  2: { intros Hf [_ [_ _ _ _ (t & g & Ht & _)]]. unfold bound_target in Ht. rw Hp /= in Ht. congruence. }
  intros t Ht. assert (bound_target w request = Some t) as Hbound by (unfold bound_target; by rw Hp /=).
  apply run_bind, run_ensure.
  2: { intros Hf%bool_decide_eq_false [_ [_ _ _ _ (t' & g & Ht' & ? & _)]]. congruence. }
  intros Hu%bool_decide_eq_true. apply run_bind, run_lift.
  2: { intros Hn _ [_ [_ _ _ _ (t' & g & Ht' & _ & Hfp & _)]]. rw Hbound in Ht'. simplify_eq.
       by apply (Hn (target_database_fingerprint resolved)). }
  intros fp Hfp. apply run_bind, run_ensure.
  2: { intros Hf%String.eqb_neq [_ [_ _ _ _ (t' & g & Ht' & _ & Hfp' & _)]]. rw Hbound in Ht'. congruence. }
  intros ->%String.eqb_eq. apply run_bind, run_connect.
  2: { intros Hf [_ [_ _ _ _ (t' & g & _ & _ & _ & Hg & _)]]. congruence. }
  intros g Hg. destruct (ae_lock env) eqn:Hl; [apply run_raise; intros [_ []]; congruence|].
  eapply run_weaken; [done| |intros retained w' Hw; exact Hw|apply run_under_lock; try done].
  - intros err Hn [-> [_ _ _ _ (t' & g' & Ht' & _ & _ & Hg' & Hs)]]. apply Hn. split; [done|].
    rw Hbound in Ht'. rw Hg in Hg'. by simplify_eq.
  - intros ->. unfold was_activated. by rw bool_decide_true in Hact.
Qed.
End runs.
