(* ===== verification/EphemeralSafety.v ===== *)
(** * What a reconcile of a request may do to databases

    A membership appears only while an authorised request is applied, and disappears only
    when the access it was granted for is due to end. *)

From S2P Require Import Prelude BTree RustStr Types Manifest Model Guc Change Diff Interp Plan Sql Approval PlanStatus PlanSql PlanCreation Durations PlanRetention K8sNames Promotion Ephemeral EphemeralScoped EphemeralLifecycle EphemeralFacts.

Section safety.
Context (to_vec : CanonicalEphemeralBundle → string) (sha256_hex : string → string)
  (jiff_from_second : Z → option string) (jiff_parse : string → option Z).

Abbreviation reconcile := (reconcile_access_request to_vec sha256_hex jiff_from_second jiff_parse).
Abbreviation any_error := (λ _ : option EphemeralError, True).

(** ** What is allowed *)

Definition parsed (text : option string) : option N := text ≫= parse_timestamp jiff_parse.

(** The request is applied: resolved, still resolving to the same access, not suspended,
    not denied, within its time, and approved if that is required. *)
Definition grant_authorised (env : AccessEnv) (w : AccessWorld) (request : EphemeralAccessRequest)
    (s : EphemeralAccessRequestStatus) (resolved : ResolvedEphemeralAccess) : Prop :=
  has_valid_bundle_hash to_vec sha256_hex resolved = true ∧
  rs_phase s = RequestPhase.Applying ∧ decision_condition s "Denied" = None ∧
  (∃ expires_at, parsed (rs_expires_at s) = Some expires_at ∧ (ae_now env < expires_at)%N) ∧
  ∃ current deadline mode,
    resolve_request to_vec sha256_hex jiff_parse (aw_policies w) (aw_targets w) (ae_fingerprint env)
      (ae_now env) request = Ok (current, deadline, mode, false) ∧
    resolution_changed to_vec sha256_hex resolved current mode (snapshot_mode s) = false ∧
    (mode = EphemeralApprovalMode.Required → ∃ approved, decision_condition s "Approved" = Some approved ∧
       ec_bundle_hash approved = Some (resolved_bundle_hash resolved) ∧
       ec_granted_duration approved = Some (granted_duration resolved)).

(** The access is due to end: denied, expired, or no longer what was resolved. *)
Definition withdrawal_due (env : AccessEnv) (w : AccessWorld) (request : EphemeralAccessRequest)
    (s : EphemeralAccessRequestStatus) (resolved : ResolvedEphemeralAccess) : Prop :=
  rs_phase s = RequestPhase.Revoking ∨
  is_Some (decision_condition s "Denied") ∧
    (rs_phase s = RequestPhase.Applying ∨ rs_phase s = RequestPhase.Active) ∨
  rs_phase s = RequestPhase.Applying ∧
    ((∃ expires_at, parsed (rs_expires_at s) = Some expires_at ∧ (expires_at <= ae_now env)%N) ∨
     ∃ current deadline mode suspended,
       resolve_request to_vec sha256_hex jiff_parse (aw_policies w) (aw_targets w) (ae_fingerprint env)
         (ae_now env) request = Ok (current, deadline, mode, suspended) ∧
       (resolution_changed to_vec sha256_hex resolved current mode (snapshot_mode s) = true ∨
        suspended = true)).

(** One database, before and after. *)
Definition database_step (env : AccessEnv) (w : AccessWorld) (request : EphemeralAccessRequest)
    (fp : string) (g g' : RoleGraph) : Prop :=
  g' = with_memberships g (memberships g') ∧
  (∀ e, e ∈ memberships g' → e ∉ memberships g →
     ∃ s resolved m, rq_status request = Some s ∧ rs_resolved_access s = Some resolved ∧
       fp = target_database_fingerprint resolved ∧ m ∈ resolved_memberships resolved ∧ e = edge_of m ∧
       ¬ durable_key w request (graph_membership_key e) ∧ grant_authorised env w request s resolved) ∧
  (∀ e, e ∈ memberships g → e ∉ memberships g' →
     ∃ s resolved m, rq_status request = Some s ∧ rs_resolved_access s = Some resolved ∧
       fp = target_database_fingerprint resolved ∧ m ∈ resolved_memberships resolved ∧
       graph_membership_key e = membership_key m ∧
       ¬ durable_key w request (graph_membership_key e) ∧
       ¬ held_by_another to_vec sha256_hex w request (graph_membership_key e) ∧
       was_activated w request resolved = true ∧ withdrawal_due env w request s resolved).

Definition databases_step (env : AccessEnv) (w : AccessWorld) (request : EphemeralAccessRequest)
    (w' : AccessWorld) : Prop :=
  ∀ fp g, aw_databases w !! fp = Some g →
  ∃ g', aw_databases w' !! fp = Some g' ∧ database_step env w request fp g g'.

Section run.
Context (env : AccessEnv) (Henv : inspects env) (w : AccessWorld) (request : EphemeralAccessRequest).
Abbreviation step := (databases_step env w request).

Lemma databases_step_frame w1 w2 : aw_databases w2 = aw_databases w1 → step w1 → step w2.
Proof. intros Hw H fp g Hg. rw Hw. by apply H. Qed.

Lemma databases_step_refl w' : aw_databases w' = aw_databases w → step w'.
Proof.
  intros Hw fp g Hg. exists g. rw Hw. split; [done|]. split_and!; [by rw with_memberships_same|..];
    by intros e He Hn.
Qed.

(** Status writes leave databases alone. *)
Lemma run_patch_status r s w' :
  step w' → run_ok (patch_request_status r s) step (λ _, step) any_error w'.
Proof.
  intros Hw. apply run_bind, run_read. destruct (find _ _); [|by apply run_raise].
  destruct (negb _); [by apply run_raise|]. destruct (negb _); [by apply run_raise|].
  apply run_write; by eapply databases_step_frame, Hw.
Qed.

Lemma run_transition r s p w' :
  step w' → run_ok (transition_request env r s p) step (λ _, step) any_error w'.
Proof. apply run_patch_status. Qed.

(** A transition, and the action that follows. *)
Lemma run_transition_then r s p (a : Action.Action) w' :
  step w' →
  run_ok (_ ← transition_request env r s p; mret a) step (λ _, step) any_error w'.
Proof.
  intros Hw. apply run_bind. eapply run_weaken; [done|done| |by apply run_transition].
  intros [] w'' Hw''. by apply run_ret.
Qed.

Section resolved.
Context (s : EphemeralAccessRequestStatus) (resolved : ResolvedEphemeralAccess).
Context (Hstatus : rq_status request = Some s) (Hresolved : rs_resolved_access s = Some resolved)
  (Hhash : has_valid_bundle_hash to_vec sha256_hex resolved = true).

Lemma scoped_effect_step op w' :
  scoped_effect to_vec sha256_hex request resolved op w w' →
  (op = ScopedPlanOperation.Activate → grant_authorised env w request s resolved) →
  (op = ScopedPlanOperation.Revoke → withdrawal_due env w request s resolved) →
  step w'.
Proof.
  intros [_ _ Hother Hdb] Hgrant Hdue fp g Hg.
  destruct (decide (fp = target_database_fingerprint resolved)) as [->|Hne].
  - destruct (Hdb g Hg) as (ms & Hms & Hgain & Hlose). eexists. split; [exact Hms|].
    split_and!; [done|..]; cbn; intros e He Hn.
    + destruct (Hgain e He Hn) as (Hop & (m & Hm & ->) & Hd & _). exists s, resolved, m. naive_solver.
    + destruct (Hlose e He Hn) as (Hop & Ha & (m & Hm & Hk)%elem_of_bundle_keys_1 & Hd & Ho).
      exists s, resolved, m. naive_solver.
  - exists g. rw Hother //. split; [done|]. by destruct (databases_step_refl w eq_refl fp g Hg) as (g' & Hg' & ?);
      rw Hg in Hg'; simplify_eq.
Qed.

Lemma run_scoped op :
  (op = ScopedPlanOperation.Activate → grant_authorised env w request s resolved) →
  (op = ScopedPlanOperation.Revoke → withdrawal_due env w request s resolved) →
  run_ok (apply_scoped_memberships to_vec sha256_hex env request resolved op) step (λ _, step) any_error w.
Proof.
  intros Hgrant Hdue. eapply run_weaken; [| | |by apply run_apply_scoped]; [|done|].
  - intros w' Hw. by eapply scoped_effect_step.
  - intros retained w' [Hw _]. by eapply scoped_effect_step.
Qed.

Lemma run_withdraw s' :
  withdrawal_due env w request s resolved →
  run_ok (withdraw to_vec sha256_hex env request resolved s') step (λ _, step) any_error w.
Proof.
  intros Hdue. apply run_bind. eapply run_weaken; [done|done| |by apply run_scoped].
  intros retained w' Hw. by apply run_ret.
Qed.

Lemma run_withdraw_if_activated s' :
  withdrawal_due env w request s resolved →
  run_ok (withdraw_if_activated to_vec sha256_hex env request resolved s') step (λ _, step) any_error w.
Proof.
  intros Hdue. apply run_bind, run_read. destruct (existsb _ _).
  - apply run_bind. eapply run_weaken; [done|done| |by apply run_withdraw]. intros s'' w' Hw. by apply run_ret.
  - by apply run_ret, databases_step_refl.
Qed.

Abbreviation written m := (run_ok m step (λ _, step) any_error w).

(** A withdrawal, and the transition that follows. *)
Lemma run_deny :
  is_Some (decision_condition s "Denied") → written (deny to_vec sha256_hex env request resolved s).
Proof.
  intros Hd. apply run_bind. case_bool_decide as Ha; [|case_bool_decide as Hp].
  - eapply run_weaken; [done|done| |apply run_withdraw; right; left; auto].
    intros s' w' Hw. by apply run_transition_then.
  - apply run_bind. eapply run_weaken; [done|done| |apply run_withdraw_if_activated; right; left; auto].
    intros r w' Hw. by apply run_ret, run_transition_then.
  - by apply run_ret, run_transition_then, databases_step_refl.
Qed.

Lemma run_revoke :
  rs_phase s = RequestPhase.Revoking → written (revoke to_vec sha256_hex env request resolved s).
Proof.
  intros Hp. apply run_bind. eapply run_weaken; [done|done| |by apply run_withdraw; left].
  intros s' w' Hw. by apply run_transition_then.
Qed.

Lemma run_watch_expiry : written (watch_expiry jiff_parse env request s).
Proof.
  unfold watch_expiry. destruct (_ ≫= _) as [expires_at|]; [|by apply run_invalid].
  destruct (_ <? _)%N; [by apply run_ret, databases_step_refl|].
  by apply run_transition_then, databases_step_refl.
Qed.

Section current.
Context (current : ResolvedEphemeralAccess) (deadline : N) (mode : EphemeralApprovalMode) (suspended : bool).
Context (Hcurrent : resolve_request to_vec sha256_hex jiff_parse (aw_policies w) (aw_targets w)
  (ae_fingerprint env) (ae_now env) request = Ok (current, deadline, mode, suspended)).

Lemma run_cancel :
  resolution_changed to_vec sha256_hex resolved current mode (snapshot_mode s) = true ∨
  (suspended = true ∧ rs_phase s = RequestPhase.Applying) →
  written (cancel to_vec sha256_hex env request resolved s).
Proof.
  intros Hc. apply run_bind. case_bool_decide as Hp.
  - apply run_bind. eapply run_weaken; [done|done| |apply run_withdraw_if_activated].
    + intros r w' Hw. by apply run_ret, run_transition_then.
    + right. right. split; [done|]. right. exists current, deadline, mode, suspended. naive_solver.
  - by apply run_ret, run_transition_then, databases_step_refl.
Qed.

Lemma run_await_approval : written (await_approval jiff_from_second jiff_parse env request resolved mode suspended s).
Proof.
  unfold await_approval. destruct (_ ≫= _) as [d|]; [|by apply run_invalid].
  destruct (_ <=? _)%N; [by apply run_transition_then, databases_step_refl|].
  destruct suspended; [by apply run_ret, databases_step_refl|].
  destruct (decision_condition s "Approved"); [|by apply run_ret, databases_step_refl].
  destruct (_ || _); [by apply run_invalid|]. apply run_bind, run_lift; [|done].
  intros s' _. by apply run_transition_then, databases_step_refl.
Qed.

Lemma run_activate :
  rs_phase s = RequestPhase.Applying → decision_condition s "Denied" = None → suspended = false →
  resolution_changed to_vec sha256_hex resolved current mode (snapshot_mode s) = false →
  written (activate to_vec sha256_hex jiff_parse env request resolved mode s).
Proof.
  intros Hp Hd Hsus Hsame.
  assert ((mode = EphemeralApprovalMode.Required → ∃ approved, decision_condition s "Approved" = Some approved ∧
       ec_bundle_hash approved = Some (resolved_bundle_hash resolved) ∧
       ec_granted_duration approved = Some (granted_duration resolved)) →
    written (match rs_expires_at s ≫= parse_timestamp jiff_parse with
             | None => invalid "invalid access expiry"
             | Some expires_at =>
                 if (expires_at <=? ae_now env)%N
                 then
                   r ← withdraw_if_activated to_vec sha256_hex env request resolved s;
                   _ ← transition_request env request r.2
                         (if (r.1 : bool) then RequestPhase.Ended else RequestPhase.Cancelled);
                   mret Action.AwaitChange
                 else
                   _ ← apply_scoped_memberships to_vec sha256_hex env request resolved
                         ScopedPlanOperation.Activate;
                   let s := with_conditions s
                     (set_condition (rs_conditions s)
                        (access_condition (ae_now_text env) "Applied" true "MembershipsGranted"
                           "Ephemeral memberships are active")) (rs_last_error s) in
                   _ ← transition_request env request s RequestPhase.Active;
                   mret (until env expires_at)
             end)) as Htimed.
  { intros Happroved. destruct (rs_expires_at s ≫= _) as [expires_at|] eqn:He; [|by apply run_invalid].
    destruct (N.leb_spec expires_at (ae_now env)); apply run_bind.
    - eapply run_weaken; [done|done| |apply run_withdraw_if_activated].
      + intros r w' Hw. by apply run_transition_then.
      + right. right. split; [done|]. left. by exists expires_at.
    - eapply run_weaken; [done|done| |apply (run_scoped ScopedPlanOperation.Activate); [intros _|done]].
      + intros retained w' Hw. by apply run_transition_then.
      + split_and!; [done..| |]; [by exists expires_at|].
        exists current, deadline, mode. split_and!; [by subst|done|done]. }
  unfold activate. apply run_bind. case_bool_decide as Hm; [|by apply run_ret, Htimed].
  destruct (decision_condition s "Approved") as [approved|] eqn:Ha; [|by apply run_invalid].
  apply run_ensure; [|done]. rw andb_true_iff !bool_decide_eq_true=> -[Hh Hg]. apply Htimed.
  intros _. by exists approved.
Qed.
End current.

Lemma run_proceed :
  (rs_phase s = RequestPhase.PendingApproval ∨ rs_phase s = RequestPhase.Applying) →
  decision_condition s "Denied" = None →
  written (proceed to_vec sha256_hex jiff_from_second jiff_parse env request resolved s).
Proof.
  intros Hp Hd. apply run_bind, run_lift; [|done]. intros [[[current deadline] mode] suspended] Hc.
  apply run_if; intros Hb.
  - eapply run_cancel; [done|]. apply orb_true_iff in Hb as [Hb|Hb]; [by left|right].
    apply andb_true_iff in Hb as [Hsus Happ%bool_decide_eq_true]. by split.
  - apply orb_false_iff in Hb as [Hb Hs].
    apply run_if; [intros _; by eapply run_await_approval|intros Hpend%bool_decide_eq_false].
    destruct Hp as [?|Hp]; [done|]. rw Hp bool_decide_true // andb_true_r in Hs.
    by eapply run_activate.
Qed.
End resolved.

(** The first reconcile touches no database. *)
Lemma run_resolution_failure message w' :
  step w' → run_ok (update_request_resolution_failure env request message) step (λ _, step) any_error w'.
Proof.
  intros Hw. apply run_bind. eapply run_weaken; [done|done| |by apply run_patch_status].
  intros [] w'' Hw''. by apply run_ret.
Qed.

Lemma run_validation_error message w' :
  step w' → run_ok (update_request_validation_error env request message) step (λ _, step) any_error w'.
Proof.
  intros Hw. apply run_bind. eapply run_weaken; [done|done| |by apply run_patch_status].
  intros [] w'' Hw''. by apply run_ret.
Qed.

Abbreviation written m := (run_ok m step (λ _, step) any_error w).

Lemma run_record_resolution s :
  written (record_resolution to_vec sha256_hex jiff_from_second jiff_parse env request s).
Proof.
  destruct (resolve_now to_vec sha256_hex jiff_parse env request w).2
    as [[[[r d] mode] []]|[m|x|m|message|n|]|] eqn:Hr;
    (eapply run_at; [unfold record_resolution; rw Hr; reflexivity|]); try by split.
  - by apply run_resolution_failure, databases_step_refl.
  - apply run_bind, run_lift; [intros text _|done]. apply run_bind, run_lift; [intros s' _|done].
    apply run_bind, run_write; [by apply databases_step_refl|]. apply run_bind.
    eapply run_weaken; [done|done| |by apply run_patch_status, databases_step_refl].
    intros [] w' Hw. by apply run_ret.
  - by apply run_resolution_failure, databases_step_refl.
Qed.

Lemma run_reconcile_apply :
  written (reconcile_access_request_apply to_vec sha256_hex jiff_from_second jiff_parse env request).
Proof.
  unfold reconcile_access_request_apply.
  destruct (rq_status request) as [s|] eqn:Hs; cbn [default from_option]; [|by apply run_record_resolution].
  change (id s) with s.
  destruct (rs_resolved_access s) as [resolved|] eqn:Hr; [|by apply run_record_resolution].
  destruct (has_valid_bundle_hash to_vec sha256_hex resolved) eqn:Hh; [|by apply run_invalid].
  cbn [negb]. destruct (is_finished (rs_phase s)); [by apply run_ret, databases_step_refl|].
  case_bool_decide as Hd; [by eapply run_deny|]. apply eq_None_not_Some in Hd.
  destruct (rs_phase s) eqn:Hp; try (by apply run_ret, databases_step_refl).
  - eapply run_proceed; eauto.
  - eapply run_proceed; eauto.
  - by apply run_watch_expiry.
  - by eapply run_revoke.
Qed.

Lemma last_world_step (S : AccessWorld → Prop) ws : S w → Forall S ws → S (last_world w ws).
Proof.
  intros Hw Hws. unfold last_world. destruct (last ws) as [w'|] eqn:Hl; [|done].
  apply last_Some_elem_of in Hl. by eapply Forall_forall in Hws.
Qed.

Lemma run_reconcile : Forall step (reconcile env request w).1.
Proof.
  unfold reconcile_access_request. destruct run_reconcile_apply as [Hws _].
  destruct (reconcile_access_request_apply _ _ _ _ _ _ _) as [ws r]. cbn [fst] in Hws.
  destruct r as [a|e|]; [done| |done]. destruct e; try done.
  destruct (run_validation_error message (last_world w ws)) as [Hws' _].
  { apply last_world_step; [by apply databases_step_refl|done]. }
  destruct (update_request_validation_error _ _ _ _) as [ws' r']. by apply Forall_app.
Qed.
End run.

(** C8: [scoped_plan_is_confined]: whatever a scoped plan leaves behind, wherever it is
    interrupted, differs only in the database the request was resolved against: an
    activation adds only memberships of the bundle, where there was none and the target
    declares none; a revocation, which needs an activation plan of the request, removes only
    memberships of the bundle that the target does not declare and no other active request
    holds.  When it returns, and no such plan was recorded as applied before, the bundle is
    granted, or nothing of it is left that is not needed elsewhere. *)
Theorem scoped_plan_is_confined env w request resolved op :
  inspects env →
  let run := apply_scoped_memberships to_vec sha256_hex env request resolved op w in
  Forall (scoped_effect to_vec sha256_hex request resolved op w) run.1 ∧
  ∀ retained, run.2 = Ok retained → not_yet_applied request resolved op (aw_plans w) →
    accomplished to_vec sha256_hex request resolved op w (last_world w run.1).
Proof.
  intros Henv. destruct (run_apply_scoped to_vec sha256_hex env request resolved op w Henv) as [Hws Hr].
  split; [done|]. intros retained Hok Hn. rw Hok in Hr. by apply Hr.
Qed.

(** C7: [access_changes_are_authorised]: in whatever a reconcile of a request leaves behind,
    databases differ only in memberships of its bundle.  One was added only if the request
    applies, resolves now to the access it recorded, is neither suspended nor denied, its
    time is not over, and, where approval is required, the approval attests that bundle and
    duration; one was removed only if its end is due and nothing else needs it. *)
Theorem access_changes_are_authorised env w request :
  inspects env → Forall (databases_step env w request) (reconcile env request w).1.
Proof. intros Henv. by apply run_reconcile. Qed.
End safety.
