(* ===== verification/EphemeralOutcome.v ===== *)
(** * The status writes of a request

    What a guarded write leaves, and that the writes of the reconcile are ones the
    validation rules of the status admit: it never touches a decision, and the resolution
    it recorded stays. *)

From S2P Require Import Prelude BTree RustStr Types Guc Model Change Diff Interp Plan Sql Manifest Approval PlanStatus PlanSql PlanCreation Durations PlanRetention K8sNames Promotion Ephemeral EphemeralScoped EphemeralLifecycle EphemeralFacts EphemeralSafety.

(** ** The conditions *)

Definition operator_types : list string := ["Resolved"; "Ready"; "Applied"].

Lemma decision_filter_set cs c :
  is_access_decision c = false →
  (∀ x, x ∈ cs → is_access_decision x = true → ec_type x ≠ ec_type c) →
  filter (λ c, is_access_decision c) (set_condition cs c) = filter (λ c, is_access_decision c) cs.
Proof.
  intros Hc Hne. unfold set_condition. rw filter_app. set (last := {| ec_type := _ |}).
  assert (filter (λ c, is_access_decision c) [last] = []) as ->.
  { rw filter_cons decide_False //. change (is_access_decision last) with (is_access_decision c). rw Hc. by intros []. }
  rw app_nil_r. clear Hc. induction cs as [|x cs IH]; [done|].
  assert (∀ y, y ∈ cs → is_access_decision y = true → ec_type y ≠ ec_type c) as Hcs
    by (intros; apply Hne; [by right|done]).
  rw filter_cons [filter _ (x :: cs)]filter_cons. destruct (decide (ec_type x ≠ ec_type c)) as [Hx|Hx].
  - rw filter_cons. destruct (decide (is_access_decision x)); by rw (IH Hcs).
  - destruct (decide (is_access_decision x)) as [Hd%Is_true_true|]; [|by apply IH].
    exfalso. apply Hx, Hne; [left|done].
Qed.

Lemma operator_condition_undecided c :
  ec_type c ∈ operator_types →
  is_access_decision c = false ∧ condition_holds "Approved" c = false ∧ condition_holds "Denied" c = false ∧
  ∀ x, is_access_decision x = true → ec_type x ≠ ec_type c.
Proof.
  intros Ht. unfold is_access_decision, condition_holds, operator_types in *.
  rw !elem_of_cons in Ht. destruct Ht as [->|[->|[->|Hn%not_elem_of_nil]]]; [..|done];
    (split_and!; [done..|]; intros x; rw andb_true_iff orb_true_iff !String.eqb_eq;
      intros [[->| ->] _]; done).
Qed.

Lemma set_condition_exists (p : EphemeralAccessCondition → bool) cs c :
  (∀ t, p {| ec_type := ec_type c; ec_status := ec_status c; ec_reason := ec_reason c;
             ec_message := ec_message c; ec_last_transition_time := t;
             ec_bundle_hash := ec_bundle_hash c; ec_granted_duration := ec_granted_duration c |} = false) →
  (∀ x, p x = true → ec_type x ≠ ec_type c) →
  existsb p (set_condition cs c) = existsb p cs.
Proof.
  intros Hc Hne. unfold set_condition. rw existsb_app /= Hc !orb_false_r.
  induction cs as [|x cs IH]; [done|]. rw filter_cons. cbn [existsb].
  destruct (decide (ec_type x ≠ ec_type c)) as [Hx|Hx]; cbn; [by rw IH|]. rw IH.
  destruct (p x) eqn:Hp; [|done]. by destruct Hx; apply Hne.
Qed.

(** Setting a condition of the operator leaves a valid status valid, with the same
    decisions. *)
Definition kept (s s' : EphemeralAccessRequestStatus) : Prop :=
  rs_resolved_access s' = rs_resolved_access s ∧ rs_decided_by s' = rs_decided_by s ∧
  decisions_of s' = decisions_of s ∧ (valid_request_status s = true → valid_request_status s' = true).

Lemma kept_trans s1 s2 s3 : kept s1 s2 → kept s2 s3 → kept s1 s3.
Proof. unfold kept. intuition congruence. Qed.

Lemma kept_conditions s c error :
  ec_type c ∈ operator_types → kept s (with_conditions s (set_condition (rs_conditions s) c) error).
Proof.
  intros Ht. destruct (operator_condition_undecided c Ht) as (Hd & Ha & Hn & Hne).
  assert (decisions_of (with_conditions s (set_condition (rs_conditions s) c) error) = decisions_of s) as Hdec.
  { apply decision_filter_set; [done|]. intros x _. apply Hne. }
  split_and!; [done|done|done|]. unfold valid_request_status. rw Hdec. cbn.
  assert (∀ t, t ∈ ["Approved"; "Denied"] → existsb (condition_holds t) (set_condition (rs_conditions s) c) =
    existsb (condition_holds t) (rs_conditions s)) as Hex.
  { intros t Htd. apply set_condition_exists.
    - intros time. rw !elem_of_cons in Htd. by destruct Htd as [->|[->|Hno%not_elem_of_nil]].
    - intros x Hx. apply Hne. unfold condition_holds in Hx. apply andb_true_iff in Hx as [Hx Hs].
      unfold is_access_decision. rw Hs andb_true_r. rw !elem_of_cons in Htd.
      destruct Htd as [->|[->|Hno%not_elem_of_nil]]; [by rw Hx|by rw Hx orb_true_r|done]. }
  rw (Hex "Approved" ltac:(by left)) (Hex "Denied" ltac:(by right; left)) !andb_true_iff.
  intros [[Hxor Hby] Htypes]. split_and!; [done|done|]. apply forallb_forall.
  intros x Hx%list_elem_of_In. rw forallb_forall in Htypes. unfold set_condition in Hx.
  apply elem_of_app in Hx as [Hx|Hx].
  - apply list_elem_of_filter in Hx as [_ Hx]. by apply Htypes, list_elem_of_In.
  - apply list_elem_of_singleton in Hx as ->. apply bool_decide_eq_true. cbn.
    unfold operator_types in Ht. rw !elem_of_cons in Ht |- *.
    destruct Ht as [->|[->|[->|Hno%not_elem_of_nil]]]; [auto 8..|done].
Qed.

Lemma kept_phase s p : kept s (with_phase s p).
Proof. by split_and!. Qed.

Lemma kept_end s retained ended : kept s (with_end s retained ended).
Proof. by split_and!. Qed.

Lemma kept_deadline s activated expires : kept s (with_deadline s activated expires).
Proof. by split_and!. Qed.

Lemma kept_refl s : kept s s.
Proof. by split_and!. Qed.

(** What keeps the decision and the resolution of a valid status is admitted. *)
Lemma kept_admitted s s' :
  valid_request_status s = true → kept s s' → request_write_admitted (Some s) s' = true.
Proof.
  intros Hv (Hr & Hb & Hd & Hs). unfold request_write_admitted, transition_allowed.
  rw (Hs Hv) Hr Hb Hd. cbn. by rw !(bool_decide_true (_ = _) eq_refl) !orb_true_r.
Qed.

Create HintDb writes.
#[export] Hint Resolve kept_refl kept_phase kept_end kept_deadline kept_admitted : writes.

Section writes.
Context (env : AccessEnv).

Lemma kept_transition s p :
  kept s (with_phase (with_conditions s (set_condition (rs_conditions s)
    (access_condition (ae_now_text env) "Ready" true (request_phase_text p)
       "Request lifecycle is progressing normally")) None) p).
Proof. eapply kept_trans, kept_phase. apply kept_conditions. right. by left. Qed.

(** ** The object after a write *)

(** The object was read in this state. *)
Definition is_current (w : AccessWorld) (request : EphemeralAccessRequest) : Prop :=
  find (λ r, String.eqb (rq_name r) (rq_name request)) (aw_requests w) = Some request.

Lemma find_fmap_same name (f : EphemeralAccessRequest → EphemeralAccessRequest) l :
  (∀ r, rq_name (f r) = rq_name r) →
  find (λ r, String.eqb (rq_name r) name) (f <$> l) = f <$> find (λ r, String.eqb (rq_name r) name) l.
Proof.
  intros Hf. induction l as [|r l IH]; [done|]. cbn. rw Hf. destruct (String.eqb _ _); [done|exact IH].
Qed.

(** A write of an admitted status over the version that was read. *)
Lemma patch_current w request s :
  is_current w request → request_write_admitted (rq_status request) s = true →
  ∃ w', patch_request_status request s w = ([w'], Ok tt) ∧
    is_current w' (with_request_status request s) ∧ aw_databases w' = aw_databases w ∧
    aw_policies w' = aw_policies w ∧ aw_targets w' = aw_targets w ∧ aw_plans w' = aw_plans w.
Proof.
  intros Hc Ha. unfold patch_request_status, mbind, prog_bind, read. cbn. rw Hc.
  rw bool_decide_true //= Ha /=. eexists. split_and!; [done| |done..].
  unfold is_current. cbn. rw find_fmap_same; [|by intros r; destruct (String.eqb _ _)].
  rw Hc /=. by rw String.eqb_refl.
Qed.
End writes.

(** ** How requests end

    Expired access is withdrawn and its request ends; what a scoped operation leaves when it
    returns; and two runs that do not do what the code means to. *)

Section outcome.
Context (to_vec : CanonicalEphemeralBundle → string) (sha256_hex : string → string)
  (jiff_from_second : Z → option string) (jiff_parse : string → option Z).

Abbreviation reconcile := (reconcile_access_request to_vec sha256_hex jiff_from_second jiff_parse).
Abbreviation cleanup := (reconcile_access_request_cleanup to_vec sha256_hex).

(** A request that was resolved, as it was read. *)
Record resolved_request (w : AccessWorld) (request : EphemeralAccessRequest)
    (s : EphemeralAccessRequestStatus) (resolved : ResolvedEphemeralAccess) : Prop := {
  rr_current : is_current w request;
  rr_status : rq_status request = Some s;
  rr_valid : valid_request_status s = true;
  rr_resolved : rs_resolved_access s = Some resolved;
  rr_hash : has_valid_bundle_hash to_vec sha256_hex resolved = true;
}.

Definition phase_of (request : EphemeralAccessRequest) : option EphemeralAccessRequestPhase :=
  rs_phase <$> rq_status request.

(** A transition of such a request, from a status that keeps its decision. *)
Lemma transition_current env w request s s' p :
  is_current w request → rq_status request = Some s → valid_request_status s = true → kept s s' →
  ∃ w' s'', transition_request env request s' p w = ([w'], Ok tt) ∧
    is_current w' (with_request_status request s'') ∧ rs_phase s'' = p ∧ kept s s'' ∧
    rs_expires_at s'' = rs_expires_at s' ∧ rs_ended_at s'' = rs_ended_at s' ∧
    rs_conditions s'' = set_condition (rs_conditions s')
      (access_condition (ae_now_text env) "Ready" true (request_phase_text p)
         "Request lifecycle is progressing normally") ∧
    aw_databases w' = aw_databases w ∧ aw_policies w' = aw_policies w ∧
    aw_targets w' = aw_targets w ∧ aw_plans w' = aw_plans w.
Proof.
  intros Hc Hs Hv Hk. pose proof (kept_trans _ _ _ Hk (kept_transition env s' p)) as Hk'.
  edestruct (patch_current w request) as (w' & Hw & Hc' & ?); [done| |].
  { rw Hs. by apply kept_admitted. }
  exists w'. eexists. split_and!; [exact Hw|exact Hc'|done|exact Hk'|..]; try done; naive_solver.
Qed.

(** A bind after a run that is known. *)
Lemma bind_at {A B} (m : prog A) (f : A → prog B) w ws a :
  m w = (ws, Ok a) → (m ≫= f) w = let '(ws', r) := f a (last_world w ws) in (ws ++ ws', r).
Proof. intros Hm. unfold mbind, prog_bind. by rw Hm. Qed.

(** The branch of the reconcile that a resolved request takes. *)
Lemma reconcile_finished env w request s resolved :
  rq_status request = Some s → rs_resolved_access s = Some resolved →
  has_valid_bundle_hash to_vec sha256_hex resolved = true → is_finished (rs_phase s) = true →
  reconcile env request w = ([], Ok Action.AwaitChange).
Proof.
  intros Hs Hr Hh Hf. unfold reconcile_access_request, reconcile_access_request_apply.
  rw Hs /= Hr Hh /= Hf. done.
Qed.

Lemma decision_kept s c error t :
  ec_type c ∈ operator_types → t = "Denied" ∨ t = "Approved" →
  is_Some (decision_condition (with_conditions s (set_condition (rs_conditions s) c) error) t) →
  is_Some (decision_condition s t).
Proof.
  intros Hc Ht [x Hx]. unfold decision_condition in *. cbn in Hx. apply find_some in Hx as [Hin Hh].
  apply list_elem_of_In in Hin. unfold set_condition in Hin.
  destruct (find (condition_holds t) (rs_conditions s)) eqn:Hf; [by eexists|]. exfalso.
  apply elem_of_app in Hin as [Hin|Hin].
  - apply list_elem_of_filter in Hin as [_ Hin]. apply list_elem_of_In in Hin.
    by rw (find_none _ _ Hf _ Hin) in Hh.
  - apply list_elem_of_singleton in Hin as ->. unfold condition_holds in Hh. cbn in Hh.
    apply andb_true_iff in Hh as [Hh%String.eqb_eq _]. rw Hh in Hc. unfold operator_types in Hc.
    destruct Ht as [->| ->]; rw !elem_of_cons in Hc; destruct Hc as [?|[?|[?|?%not_elem_of_nil]]]; done.
Qed.

(** [denial_abandons_revocation]: a request that is denied while its access is being
    revoked becomes denied without the revocation: the databases stay as they are, and no
    later reconcile of the request, nor its deletion, withdraws anything. *)
Theorem denial_abandons_revocation env w request s resolved :
  resolved_request w request s resolved → rs_phase s = RequestPhase.Revoking →
  is_Some (decision_condition s "Denied") →
  ∃ w' request', reconcile env request w = ([w'], Ok Action.AwaitChange) ∧
    is_current w' request' ∧ phase_of request' = Some RequestPhase.Denied ∧
    aw_databases w' = aw_databases w ∧
    ∀ env' w'', reconcile env' request' w'' = ([], Ok Action.AwaitChange) ∧
                cleanup env' request' w'' = ([], Ok Action.AwaitChange).
Proof.
  intros [Hc Hs Hv Hr Hh] Hp Hd.
  destruct (transition_current env w request s s RequestPhase.Denied)
    as (w' & s' & Hw & Hc' & Hp' & (Hr' & _) & _ & _ & _ & Hdb & _); [done..|apply kept_refl|].
  exists w', (with_request_status request s'). split_and!; [|done|cbn; by rw Hp'|done|].
  - unfold reconcile_access_request, reconcile_access_request_apply. rw Hs /= Hr Hh /= Hp /=.
    rw bool_decide_true // /deny Hp /=. erewrite bind_at by done. cbn. by erewrite bind_at by exact Hw.
  - intros env' w''. split.
    + eapply reconcile_finished; [done|by rw Hr'|done|by rw Hp'].
    + unfold reconcile_access_request_cleanup. cbn. by rw Hr' Hr Hp'.
Qed.
(** A scoped operation that has what it needs returns, with its effect. *)
Lemma revocation_returns env w request resolved :
  inspects env → served to_vec sha256_hex env w request resolved ScopedPlanOperation.Revoke →
  not_yet_applied request resolved ScopedPlanOperation.Revoke (aw_plans w) →
  ∃ ws retained, apply_scoped_memberships to_vec sha256_hex env request resolved ScopedPlanOperation.Revoke w =
      (ws, Ok retained) ∧
    aw_requests (last_world w ws) = aw_requests w ∧
    accomplished to_vec sha256_hex request resolved ScopedPlanOperation.Revoke w (last_world w ws).
Proof.
  intros Henv Hs Hn.
  destruct (run_apply_scoped to_vec sha256_hex env request resolved ScopedPlanOperation.Revoke w Henv) as [_ Hr].
  destruct (apply_scoped_memberships _ _ _ _ _ _ _) as [ws [retained|e|]]; cbn [fst snd] in Hr;
    [|by destruct Hr..]. exists ws, retained. destruct Hr as [[] Ha]. split_and!; [done|done|by apply Ha].
Qed.

(** From [Revoking] to [Ended]. *)
Lemma revoking_ends env w request s resolved :
  resolved_request w request s resolved → rs_phase s = RequestPhase.Revoking →
  decision_condition s "Denied" = None → inspects env →
  served to_vec sha256_hex env w request resolved ScopedPlanOperation.Revoke →
  not_yet_applied request resolved ScopedPlanOperation.Revoke (aw_plans w) →
  ∃ ws request' s', reconcile env request w = (ws, Ok Action.AwaitChange) ∧
    is_current (last_world w ws) request' ∧ rq_status request' = Some s' ∧
    rs_phase s' = RequestPhase.Ended ∧ rs_ended_at s' = Some (ae_now_text env) ∧
    accomplished to_vec sha256_hex request resolved ScopedPlanOperation.Revoke w (last_world w ws).
Proof.
  intros [Hc Hs Hv Hr Hh] Hp Hd Henv Hsv Hn.
  destruct (revocation_returns env w request resolved Henv Hsv Hn) as (ws & retained & Hrun & Hreq & Hacc).
  destruct (transition_current env (last_world w ws) request s (with_end s retained (ae_now_text env))
    RequestPhase.Ended) as (w' & s' & Hw & Hc' & Hp' & _ & _ & He & _ & Hdb & _);
    [unfold is_current; by rw Hreq|done|done|apply kept_end|].
  exists (ws ++ [w']), (with_request_status request s'), s'.
  assert (last_world w (ws ++ [w']) = w') as -> by (unfold last_world; by rw last_snoc).
  split_and!; [|done|done|done|done|].
  - unfold reconcile_access_request, reconcile_access_request_apply.
    rw Hs; cbn [default from_option]; change (id s) with s. rw Hr Hh /= Hp /=.
    rw bool_decide_false; [|rw Hd; by intros []]. unfold revoke, withdraw.
    erewrite bind_at; [|by erewrite bind_at by exact Hrun]. cbn. rw app_nil_r.
    by erewrite bind_at by exact Hw.
  - intros g Hg. rw Hdb in Hg. by apply Hacc.
Qed.

(** C17: [expired_access_is_withdrawn]: once the time of an active request is over, its next
    reconcile marks it as revoking, and a reconcile of that object whose surroundings answer
    ends it: no membership of its bundle is left but those the target declares or another
    active request still holds. *)
Theorem expired_access_is_withdrawn env w request s resolved expires_at :
  resolved_request w request s resolved → rs_phase s = RequestPhase.Active →
  decision_condition s "Denied" = None →
  parsed jiff_parse (rs_expires_at s) = Some expires_at → (expires_at <= ae_now env)%N →
  ∃ w1 request1 s1, reconcile env request w = ([w1], Ok (Action.Requeue 0)) ∧
    resolved_request w1 request1 s1 resolved ∧ rs_phase s1 = RequestPhase.Revoking ∧
    aw_databases w1 = aw_databases w ∧
    ∀ env', inspects env' →
    served to_vec sha256_hex env' w1 request1 resolved ScopedPlanOperation.Revoke →
    not_yet_applied request1 resolved ScopedPlanOperation.Revoke (aw_plans w1) →
    ∃ ws request2 s2, reconcile env' request1 w1 = (ws, Ok Action.AwaitChange) ∧
      is_current (last_world w1 ws) request2 ∧ rq_status request2 = Some s2 ∧
      rs_phase s2 = RequestPhase.Ended ∧ rs_ended_at s2 = Some (ae_now_text env') ∧
      accomplished to_vec sha256_hex request1 resolved ScopedPlanOperation.Revoke w1 (last_world w1 ws).
Proof.
  intros [Hc Hs Hv Hr Hh] Hp Hd He Hle.
  destruct (transition_current env w request s s RequestPhase.Revoking)
    as (w1 & s1 & Hw & Hc1 & Hp1 & (Hr1 & _ & _ & Hv1) & _ & _ & Hcs & Hdb & _); [done..|apply kept_refl|].
  assert (resolved_request w1 (with_request_status request s1) s1 resolved) as Hres
    by (split; [done|done|by apply Hv1|congruence|done]).
  exists w1, (with_request_status request s1), s1. split_and!; [|done|done|done|].
  - unfold reconcile_access_request, reconcile_access_request_apply.
    rw Hs; cbn [default from_option]; change (id s) with s. rw Hr Hh /= Hp /=.
    rw bool_decide_false; [|rw Hd; by intros []]. unfold watch_expiry, parsed in *. rw He.
    assert ((ae_now env <? expires_at)%N = false) as -> by (apply N.ltb_ge; lia).
    by erewrite bind_at by exact Hw.
  - intros env' Henv Hsv Hn. apply (revoking_ends env' w1 _ s1); try done.
    destruct (decision_condition s1 "Denied") eqn:Hd1; [|done]. exfalso.
    assert (is_Some (decision_condition s "Denied")) as [x Hx]; [|congruence].
    unfold decision_condition in Hd1. rw Hcs in Hd1.
    eapply (decision_kept s _ None "Denied"); [|by left|by eexists; exact Hd1]. right. by left.
Qed.
(** *** The first resolution *)

Lemma kept_persist now resolved s s' :
  persist_activation_deadline jiff_from_second now resolved s = Ok s' →
  kept s s' ∧ rs_phase s' = rs_phase s.
Proof.
  unfold persist_activation_deadline. destruct (_ && _); [intros [= <-]; split; [apply kept_refl|done]|].
  intros (d & _ & Hd)%bind_Ok. destruct (checked_add _ _); [|done].
  apply bind_Ok in Hd as (t & _ & (x & _ & [= <-])%bind_Ok). split; [apply kept_deadline|done].
Qed.

(** What [record_resolution] writes for this resolution. *)
Definition resolution_status (env : AccessEnv) (s : EphemeralAccessRequestStatus)
    (resolved : ResolvedEphemeralAccess) (text : string) (mode : EphemeralApprovalMode)
    : EphemeralAccessRequestStatus :=
  let s := with_resolution s resolved text
             (match mode with
              | EphemeralApprovalMode.Automatic => RequestPhase.Applying
              | EphemeralApprovalMode.Required => RequestPhase.PendingApproval
              end) in
  with_conditions s
    (set_condition
       (set_condition (rs_conditions s)
          (access_condition (ae_now_text env) "Resolved" true "AccessPolicyResolved"
             "Immutable access bundle resolved"))
       (access_condition (ae_now_text env) "Ready" true "Resolved" "Request is ready to progress")) None.

Definition initial_phase (mode : EphemeralApprovalMode) : EphemeralAccessRequestPhase :=
  match mode with
  | EphemeralApprovalMode.Automatic => RequestPhase.Applying
  | EphemeralApprovalMode.Required => RequestPhase.PendingApproval
  end.

Lemma resolution_status_valid env s resolved text mode :
  valid_request_status s = true →
  let s' := resolution_status env s resolved text mode in
  valid_request_status s' = true ∧ decisions_of s' = decisions_of s ∧ rs_decided_by s' = rs_decided_by s.
Proof.
  intros Hv. cbn. set (s0 := with_resolution s resolved text (initial_phase mode)).
  assert (kept s0 (resolution_status env s resolved text mode)) as (_ & Hb & Hd & Hk).
  { set (c := access_condition (ae_now_text env) "Resolved" true "AccessPolicyResolved"
      "Immutable access bundle resolved").
    apply (kept_trans s0 (with_conditions s0 (set_condition (rs_conditions s0) c) None)).
    - apply kept_conditions. by left.
    - apply (kept_conditions (with_conditions s0 (set_condition (rs_conditions s0) c) None)). right. by left. }
  split_and!; [apply Hk, Hv|exact Hd|exact Hb].
Qed.

Lemma resolution_admitted env (old : option EphemeralAccessRequestStatus) resolved text mode s' :
  let s := default default_request_status old in
  valid_request_status s = true → rs_resolved_access s = None →
  kept (resolution_status env s resolved text mode) s' → request_write_admitted old s' = true.
Proof.
  cbn. intros Hv Hn (_ & Hb & Hd & Hk).
  destruct (resolution_status_valid env _ resolved text mode Hv) as (Hv' & Hd' & _).
  unfold request_write_admitted. rw (Hk Hv'). destruct old as [s|]; [|done]. cbn in *.
  unfold transition_allowed. rw Hn Hd Hd' Hb. cbn. by rw !(bool_decide_true (_ = _) eq_refl) !orb_true_r.
Qed.

(** The labels of a request as the index wants them. *)
Definition labelled (request : EphemeralAccessRequest) (resolved : ResolvedEphemeralAccess)
    : gmap string string :=
  <["pgroles.io/access-policy-uid" := access_policy_uid resolved]>
    (<["pgroles.io/target-policy-uid" := target_policy_uid resolved]> (rq_labels request)).

Lemma labelling w request resolved :
  is_current w request →
  ∃ w1, patch_request_index_labels request resolved w = ([w1], Ok tt) ∧
    is_current w1 (if bool_decide (labelled request resolved = rq_labels request) then request
                   else with_labels request (labelled request resolved)) ∧
    aw_policies w1 = aw_policies w ∧ aw_targets w1 = aw_targets w ∧ aw_databases w1 = aw_databases w.
Proof.
  intros Hc. eexists. split_and!; [done| |done..]. unfold is_current. cbn.
  rw (find_fmap_same (rq_name _)); [|by intros r; destruct (_ || _)].
  assert (rq_name (if bool_decide (labelled request resolved = rq_labels request) then request
    else with_labels request (labelled request resolved)) = rq_name request) as -> by by case_bool_decide.
  rw Hc /= String.eqb_refl /=. unfold labelled. by case_bool_decide.
Qed.
(** A request that can be resolved now. *)
Record resolves (env : AccessEnv) (w : AccessWorld) (request : EphemeralAccessRequest)
    (resolved : ResolvedEphemeralAccess) (deadline : N) (mode : EphemeralApprovalMode) (text : string)
    : Prop := {
  rs_unresolved : rs_resolved_access (default default_request_status (rq_status request)) = None;
  rs_status_valid : valid_request_status (default default_request_status (rq_status request)) = true;
  rs_resolution : resolve_request to_vec sha256_hex jiff_parse (aw_policies w) (aw_targets w)
    (ae_fingerprint env) (ae_now env) request = Ok (resolved, deadline, mode, false);
  rs_deadline : timestamp_from_epoch jiff_from_second deadline = Ok text;
  rs_persists s : ∃ s', persist_activation_deadline jiff_from_second (ae_now env) resolved s = Ok s';
}.

Lemma record_at env w request resolved deadline mode text :
  resolves env w request resolved deadline mode text →
  ∃ s', kept (resolution_status env (default default_request_status (rq_status request)) resolved text mode) s' ∧
    rs_phase s' = initial_phase mode ∧
    reconcile_access_request_apply to_vec sha256_hex jiff_from_second jiff_parse env request w =
    (_ ← patch_request_index_labels request resolved;
     _ ← patch_request_status request s'; mret (Action.Requeue 0)) w.
Proof.
  intros [Hn _ Hres Ht Hp]. unfold reconcile_access_request_apply, record_resolution.
  set (s := default _ _) in *. rw Hn. unfold resolve_now. cbn [snd]. rw Hres Ht.
  destruct (Hp (resolution_status env s resolved text mode)) as [s1 Hs1].
  assert (∃ s', (if bool_decide (mode = EphemeralApprovalMode.Automatic)
     then persist_activation_deadline jiff_from_second (ae_now env) resolved
            (resolution_status env s resolved text mode)
     else Ok (resolution_status env s resolved text mode)) = Ok s' ∧
     kept (resolution_status env s resolved text mode) s' ∧ rs_phase s' = initial_phase mode)
    as (s' & Hs' & Hk & Hph).
  { case_bool_decide.
    - exists s1. destruct (kept_persist _ _ _ _ Hs1) as [Hk ->]. by split_and!.
    - exists (resolution_status env s resolved text mode). split_and!; [done|apply kept_refl|done]. }
  exists s'. split_and!; [done|done|]. erewrite bind_at by reflexivity. cbv zeta.
  fold (resolution_status env s resolved text mode). erewrite bind_at by (rw Hs'; reflexivity).
  change (last_world (last_world w []) []) with w. match goal with |- _ = ?m => by destruct m end.
Qed.

(** [first_resolution_conflicts]: the first resolution of a request labels it before it
    writes its status under the version it was read at.  The labels make a new version, so
    the status write is refused as a conflict and the reconcile fails; the next one finds
    the labels in place and records the resolution. *)
Theorem first_resolution_conflicts env w request resolved deadline mode text :
  is_current w request → resolves env w request resolved deadline mode text →
  rq_labels request !! "pgroles.io/target-policy-uid" ≠ Some (target_policy_uid resolved) →
  ∃ w1 request1, reconcile env request w = ([w1], Err (EphemeralError.Kube "conflict")) ∧
    is_current w1 request1 ∧ rq_status request1 = rq_status request ∧
    ∃ ws request2 s2, reconcile env request1 w1 = (ws, Ok (Action.Requeue 0)) ∧
      is_current (last_world w1 ws) request2 ∧ rq_status request2 = Some s2 ∧
      rs_resolved_access s2 = Some resolved ∧ rs_phase s2 = initial_phase mode.
Proof.
  intros Hc Hr Hlabel. destruct (labelling w request resolved Hc) as (w1 & Hw1 & Hc1 & Hp1 & Ht1 & _).
  assert (labelled request resolved ≠ rq_labels request) as Hne.
  { intros He. apply Hlabel. rw -He. unfold labelled. by rw lookup_insert_ne // lookup_insert_eq. }
  rw bool_decide_false // in Hc1. set (request1 := with_labels request (labelled request resolved)) in *.
  exists w1, request1. destruct (record_at _ _ _ _ _ _ _ Hr) as (s1 & _ & _ & Hrun1).
  split_and!; [|done|done|].
  { unfold reconcile_access_request. rw Hrun1. erewrite bind_at by exact Hw1.
    unfold patch_request_status, mbind, prog_bind, read. cbn. unfold is_current in Hc1.
    change (rq_name request1) with (rq_name request) in Hc1. rw Hc1. cbn.
    rw bool_decide_false; [done|]. lia. }
  assert (resolves env w1 request1 resolved deadline mode text) as Hr1.
  { destruct Hr as [? ? Hres ? ?]. split; [done|done| |done|done]. by rw Hp1 Ht1. }
  destruct (record_at _ _ _ _ _ _ _ Hr1) as (s2 & Hk2 & Hph2 & Hrun2).
  destruct (labelling w1 request1 resolved Hc1) as (w2 & Hw2 & Hc2 & _).
  assert (labelled request1 resolved = rq_labels request1) as Hsame.
  { unfold labelled. apply map_eq. intros k. cbn. unfold labelled. 
    destruct (decide (k = "pgroles.io/access-policy-uid")) as [->|]; [by rw !lookup_insert_eq|].
    rw !(lookup_insert_ne _ "pgroles.io/access-policy-uid") //.
    destruct (decide (k = "pgroles.io/target-policy-uid")) as [->|]; [by rw !lookup_insert_eq|].
    by rw !lookup_insert_ne. }
  rw bool_decide_true // in Hc2.
  destruct (patch_current w2 request1 s2 Hc2) as (w3 & Hw3 & Hc3 & _).
  { destruct Hr1. by eapply resolution_admitted. }
  exists ([w2; w3]), (with_request_status request1 s2), s2. split_and!; [|exact Hc3|done| |done].
  - unfold reconcile_access_request. rw Hrun2. erewrite bind_at by exact Hw2.
    by erewrite bind_at by exact Hw3.
  - by destruct Hk2 as [-> _].
Qed.
End outcome.
