(* ===== verification/EphemeralOverlay.v ===== *)
(** * The overlay of active requests

    What composing the desired graph with the bundles of the requests that hold access adds,
    exactly; and that the difference from the database to the composed graph leaves the
    memberships those requests were granted alone. *)

From S2P Require Import Prelude BTree RustStr Types Manifest Model Guc Change Diff DiffSafety Interp Plan Sql Approval PlanStatus PlanSql PlanCreation Durations PlanRetention K8sNames Promotion Converge CompositionPlan Ephemeral EphemeralScoped EphemeralLifecycle EphemeralFacts.

Section overlay.
Context (to_vec : CanonicalEphemeralBundle → string) (sha256_hex : string → string).
Context (policy_uid : string) (desired : RoleGraph) (plans : list PolicyPlan) (fp : string).

(** The memberships of the requests that were activated on this target. *)
Definition activated_memberships (requests : list EphemeralAccessRequest) : list ResolvedEphemeralMembership :=
  requests ≫= λ r, match activated_bundle to_vec sha256_hex policy_uid plans r with
                   | Some b => resolved_memberships b
                   | None => []
                   end.

Definition declared (key : string * string) : Prop :=
  ∃ e, e ∈ memberships desired ∧ graph_membership_key e = key.

(** What the accumulated overlay holds of the memberships met so far. *)
Record overlay_of (ms : list ResolvedEphemeralMembership)
    (acc : gset string * gmap (string * string) MembershipEdge) : Prop := {
  oo_edges key e : acc.2 !! key = Some e ↔
    ∃ m, m ∈ ms ∧ membership_key m = key ∧ e = edge_of m ∧ ¬ declared key;
  oo_roles r : r ∈ acc.1 ↔ ∃ m, m ∈ ms ∧ (r = rm_role m ∨ r = rm_member m);
  oo_declared m : m ∈ ms → is_Some (roles desired !! rm_role m) ∧ is_Some (roles desired !! rm_member m);
}.

Lemma overlay_of_nil : overlay_of [] (∅, ∅).
Proof.
  split.
  - intros key e. split; [by rw lookup_empty|]. by intros (m & Hm%not_elem_of_nil & _).
  - intros r. split; [by intros ?%not_elem_of_empty|]. by intros (m & Hm%not_elem_of_nil & _).
  - by intros m Hm%not_elem_of_nil.
Qed.

Lemma declares_key_spec key :
  existsb (λ e, bool_decide (graph_membership_key e = key)) (set_iter (memberships desired)) = true ↔ declared key.
Proof.
  rw existsb_exists. split.
  - intros (e & He%list_elem_of_In%elem_of_set_iter & Hk%bool_decide_eq_true). by exists e.
  - intros (e & He & Hk). exists e. split; [by apply list_elem_of_In, elem_of_set_iter|].
    by apply bool_decide_eq_true.
Qed.

(** Adding one more membership, at a key that is free or holds its edge. *)
Lemma overlay_of_insert (ms : list ResolvedEphemeralMembership)
    (acc : gset string * gmap (string * string) MembershipEdge) (m : ResolvedEphemeralMembership) :
  overlay_of ms acc → ¬ declared (membership_key m) →
  (∀ e, acc.2 !! membership_key m = Some e → e = edge_of m) → ∀ key e,
  <[membership_key m := edge_of m]> acc.2 !! key = Some e ↔
    ∃ m', m' ∈ ms ++ [m] ∧ membership_key m' = key ∧ e = edge_of m' ∧ ¬ declared key.
Proof.
  intros [Hedges _ _] Hd Hsame key e. rw lookup_insert_Some Hedges. split.
  - intros [[<- <-]|[_ (m' & ? & ?)]].
    + exists m. split_and!; try done. apply elem_of_app. right. by left.
    + exists m'. split; [|done]. apply elem_of_app. by left.
  - intros (m' & [Hm| ->%list_elem_of_singleton]%elem_of_app & Hk & -> & Hn); [|by left].
    destruct (decide (membership_key m = key)) as [Heq|Hne].
    + left. split; [done|]. symmetry. apply Hsame, Hedges. exists m'. by rw Heq.
    + right. split; [done|]. by exists m'.
Qed.

Lemma overlay_membership_of request resolved ms acc m acc' :
  overlay_of ms acc → overlay_membership desired request resolved acc m = Ok acc' →
  overlay_of (ms ++ [m]) acc'.
Proof.
  intros Ho. pose proof Ho as [Hedges Hroles Hdecl]. destruct acc as [rs es]. unfold overlay_membership.
  unfold missing_relationship. destruct (roles desired !! rm_role m) as [st1|] eqn:Hr, (roles desired !! rm_member m) as [st2|] eqn:Hm;
    try done.
  assert (∀ r, r ∈ ({[rm_role m; rm_member m]} ∪ rs : gset string) ↔
    ∃ m', m' ∈ ms ++ [m] ∧ (r = rm_role m' ∨ r = rm_member m')) as Hroles'.
  { intros r. rw !elem_of_union !elem_of_singleton Hroles. split.
    - intros [Hrm|(m' & ? & ?)]; [exists m|exists m']; (split; [|done]); apply elem_of_app;
        [right; by left|by left].
    - intros (m' & [Hin| ->%list_elem_of_singleton]%elem_of_app & ?); [right; by exists m'|by left]. }
  assert (∀ m', m' ∈ ms ++ [m] →
    is_Some (roles desired !! rm_role m') ∧ is_Some (roles desired !! rm_member m')) as Hdecl'.
  { intros m' [Hin| ->%list_elem_of_singleton]%elem_of_app; [by apply Hdecl|]. rw Hr Hm. split; by eexists. }
  destruct (existsb _ _) eqn:He.
  - intros [= <-]. apply declares_key_spec in He. split; [|done|done]. intros key e. cbn. rw (Hedges key e). split.
    + intros (m' & ? & ?). exists m'. split; [|done]. apply elem_of_app. by left.
    + intros (m' & [Hin| ->%list_elem_of_singleton]%elem_of_app & Hk & -> & Hn); [by exists m'|].
      exfalso. apply Hn. by rw -Hk.
  - assert (¬ declared (membership_key m)) as Hnd by (intros Hd%declares_key_spec; congruence).
    destruct (es !! membership_key m) as [existing|] eqn:Hx.
    + case_bool_decide as Hsame; [|done]. intros [= <-]. split; [|done|done].
      apply (overlay_of_insert ms (rs, es)); [done..|]. cbn. rw Hx. by intros e [= <-].
    + intros [= <-]. split; [|done|done]. apply (overlay_of_insert ms (rs, es)); [done..|]. cbn. by rw Hx.
Qed.

Lemma overlay_memberships_of request resolved l ms acc acc' :
  overlay_of ms acc → fold_res (overlay_membership desired request resolved) acc l = Ok acc' →
  overlay_of (ms ++ l) acc'.
Proof.
  revert ms acc. induction l as [|m l IH]=> ms acc Ho /=; [intros [= <-]; by rw app_nil_r|].
  intros (acc1 & H1 & Hl)%bind_Ok. rw (_ : ms ++ m :: l = (ms ++ [m]) ++ l); [|by rw -app_assoc].
  by eapply IH, Hl; eapply overlay_membership_of.
Qed.

Lemma overlay_requests_of requests ms acc acc' :
  overlay_of ms acc →
  fold_res (overlay_request to_vec sha256_hex policy_uid desired plans fp) acc requests = Ok acc' →
  overlay_of (ms ++ activated_memberships requests) acc' ∧
  ∀ r b, r ∈ requests → activated_bundle to_vec sha256_hex policy_uid plans r = Some b →
    target_database_fingerprint b = fp.
Proof.
  revert ms acc. induction requests as [|r requests IH]=> ms acc Ho.
  { intros [= <-]. unfold activated_memberships. cbn. rw app_nil_r. split; [done|].
    by intros r b Hr%not_elem_of_nil. }
  cbn [fold_res]. intros (acc1 & H1 & Hl)%bind_Ok. unfold overlay_request in H1.
  unfold activated_memberships. rw bind_cons. change (requests ≫= _) with (activated_memberships requests).
  rw app_assoc. destruct (activated_bundle _ _ _ _ r) as [b|] eqn:Hb.
  - destruct (String.eqb _ fp) eqn:Hf; [|done]. apply String.eqb_eq in Hf. cbn in H1.
    destruct (IH _ _ (overlay_memberships_of _ _ _ _ _ _ Ho H1) Hl) as [Ho' Hfp]. split; [done|].
    intros r' b' [->|Hr]%elem_of_cons Hb'; [congruence|by eapply Hfp].
  - simplify_eq. rw app_nil_r. destruct (IH _ _ Ho Hl) as [Ho' Hfp]. split; [done|].
    intros r' b' [->|Hr]%elem_of_cons Hb'; [congruence|by eapply Hfp].
Qed.
End overlay.

(** ** The composed graph *)

Section composed.
Context (to_vec : CanonicalEphemeralBundle → string) (sha256_hex : string → string).
Context (target : TargetPolicy) (desired : RoleGraph) (requests : list EphemeralAccessRequest)
  (plans : list PolicyPlan) (fp : string) (additional : gset string) (g : RoleGraph).

Abbreviation activated := (activated_memberships to_vec sha256_hex (default "" (tp_uid target)) plans requests).

Lemma composition_overlay :
  effective_graph to_vec sha256_hex target desired requests plans fp = Ok (additional, g) →
  ∃ es, overlay_of desired activated (additional, es) ∧
    g = with_memberships desired (memberships desired ∪ list_to_set (map_iter es).*2) ∧
    ∀ r b, r ∈ requests → activated_bundle to_vec sha256_hex (default "" (tp_uid target)) plans r = Some b →
      target_database_fingerprint b = fp.
Proof.
  intros ([rs es] & Hf & [= <- <-])%bind_Ok.
  destruct (overlay_requests_of _ _ _ _ _ _ _ [] _ _ (overlay_of_nil desired) Hf) as [Ho Hfp]. by exists es.
Qed.

Lemma composed_edges e :
  effective_graph to_vec sha256_hex target desired requests plans fp = Ok (additional, g) →
  e ∈ memberships g ↔ e ∈ memberships desired ∨
    ∃ m, m ∈ activated ∧ e = edge_of m ∧ ¬ declared desired (membership_key m).
Proof.
  intros (es & [Hedges _ _] & -> & _)%composition_overlay. cbn.
  rw elem_of_union elem_of_list_to_set. split; (intros [?|He]; [by left|right]).
  - apply list_elem_of_fmap in He as ([key e'] & -> & Hin%elem_of_map_iter).
    apply Hedges in Hin as (m & Hm & Hk & -> & Hn). exists m. by rw Hk.
  - destruct He as (m & Hm & -> & Hn). apply list_elem_of_fmap. exists (membership_key m, edge_of m).
    split; [done|]. apply elem_of_map_iter, Hedges. by exists m.
Qed.

(** One edge per role and member, if the desired graph has. *)
Lemma composed_functional :
  effective_graph to_vec sha256_hex target desired requests plans fp = Ok (additional, g) →
  edges_functional (memberships desired) → edges_functional (memberships g).
Proof.
  intros Hg Hf e e' He He' Hk. apply composed_edges in He, He'; [|done..].
  assert (∀ m m', m ∈ activated → m' ∈ activated → ¬ declared desired (membership_key m) →
    membership_key m = membership_key m' → edge_of m = edge_of m') as Hover.
  { intros m m' Hm Hm' Hn Hkm. destruct (composition_overlay Hg) as (es & [Hedges _ _] & _).
    assert (es !! membership_key m = Some (edge_of m)) as H1 by (apply Hedges; by exists m).
    assert (es !! membership_key m = Some (edge_of m')) as H2 by (apply Hedges; exists m'; by rw -Hkm).
    congruence. }
  destruct He as [He|(m & Hm & -> & Hn)], He' as [He'|(m' & Hm' & -> & Hn')].
  - by apply Hf.
  - destruct Hn'. by exists e.
  - destruct Hn. by exists e'.
  - by apply Hover.
Qed.
End composed.

(** ** Reconciliation beside ephemeral access *)

(** The change grants, revokes or alters that membership. *)
Definition concerns_membership (role member : string) (c : Change) : Prop :=
  match c with
  | Change.AddMember r m _ _ | Change.RemoveMember r m _ | Change.UpdateMemberOptions r m _ _ _ _ =>
      r = role ∧ m = member
  | _ => False
  end.

Section reconciliation.
Context (current desired : RoleGraph).

Lemma same_edge_no_change role member e :
  membership_map current !! (role, member) = Some e → membership_map desired !! (role, member) = Some e →
  ∀ c, c ∈ (diff_memberships current desired).1 ∨ c ∈ (diff_memberships current desired).2 →
  ¬ concerns_membership role member c.
Proof.
  intros Hc Hd. assert (∀ p, p ∈ map_iter (membership_map desired) → ∀ c,
    c ∈ (diff_membership current (membership_map current) p).1 ∨
    c ∈ (diff_membership current (membership_map current) p).2 → ¬ concerns_membership role member c) as Hsweep.
  { intros [[r m] de] Hin%elem_of_map_iter c Hin'. 
    destruct (decide ((r, m) = (role, member))) as [[= -> ->]|Hne].
    { rw Hd in Hin. simplify_eq. unfold diff_membership in Hin'. rw Hc in Hin'.
      rw !bool_decide_false in Hin'; [|by intros Hn; apply Hn..]. cbn in Hin'.
      by destruct Hin' as [?%not_elem_of_nil|?%not_elem_of_nil]. }
    apply elem_of_membership_map in Hin as [_ [= Hr Hm]].
    assert (∀ c, concerns_membership r m c → ¬ concerns_membership role member c) as Hother.
    { intros c' Hc1 Hc2. apply Hne. destruct c'; try done; cbn in *; naive_solver. }
    apply Hother. unfold diff_membership, then_some in Hin'. rw Hr Hm in Hin'.
    destruct (membership_map current !! (r, m)) as [ce|]; cbn [fst snd] in Hin'.
    2: { destruct Hin' as [->%list_elem_of_singleton|[]%not_elem_of_nil]. done. }
    assert (c ∈ remove_all_edges current r m → concerns_membership r m c) as Hall
      by (intros Hx; by apply elem_of_remove_all in Hx as (? & -> & _)).
    destruct (_ || _); [|destruct Hin' as [Hin'|Hin']; elem_inv Hin'].
    destruct (membership_edge_grantors _ !! _) as [X|]; [destruct (set_iter X) as [|gr l]|]; cbn [fst snd] in Hin';
      (destruct Hin' as [Hin'|Hin']; [destruct_ifs Hin'; elem_inv Hin'; by subst|]); auto.
    apply elem_of_bind_1 in Hin' as (? & _ & Hx).
    by apply elem_of_option_reduction in Hx as (? & ? & -> & _). }
  intros c [Hin|Hin]; unfold diff_memberships in Hin; cbn [fst snd] in Hin.
  - apply elem_of_bind_1 in Hin as (p & Hp & Hin). by apply (Hsweep p Hp); left.
  - apply elem_of_app in Hin as [Hin|Hin]; apply elem_of_bind_1 in Hin as (p & Hp & Hin).
    + by apply (Hsweep p Hp); right.
    + destruct p as [r m]. destruct (membership_map desired !! (r, m)) eqn:Hrm; [by apply not_elem_of_nil in Hin|].
      apply elem_of_remove_all in Hin as (? & -> & _). intros [-> ->]. congruence.
Qed.

Lemma desired_role_not_dropped name : is_Some (roles desired !! name) → Change.DropRole name ∉ (diff_roles current desired).2.
Proof.
  intros [st Hst] Hin. apply elem_of_bind_1 in Hin as (n & _ & Hin).
  destruct (roles desired !! n) eqn:Hn; [by apply not_elem_of_nil in Hin|].
  apply list_elem_of_singleton in Hin as [= ->]. congruence.
Qed.
End reconciliation.

(** ** What is promised of the overlay *)

Section promises.
Context (to_vec : CanonicalEphemeralBundle → string) (sha256_hex : string → string).
Context (target : TargetPolicy) (desired : RoleGraph) (requests : list EphemeralAccessRequest)
  (plans : list PolicyPlan) (fp : string) (additional : gset string) (g : RoleGraph).

Abbreviation activated := (activated_memberships to_vec sha256_hex (default "" (tp_uid target)) plans requests).

(** C38: [composed_graph_is_exact]: a composed graph is the desired graph with exactly the
    memberships of activated requests added whose role and member it does not declare
    itself; all of them were granted in this database, between roles the desired graph
    declares, and these are the roles the inspection is asked for in addition. *)
Theorem composed_graph_is_exact :
  effective_graph to_vec sha256_hex target desired requests plans fp = Ok (additional, g) →
  g = with_memberships desired (memberships g) ∧
  (∀ e, e ∈ memberships g ↔ e ∈ memberships desired ∨
     ∃ m, m ∈ activated ∧ e = edge_of m ∧ ¬ declared desired (membership_key m)) ∧
  (∀ r, r ∈ additional ↔ ∃ m, m ∈ activated ∧ (r = rm_role m ∨ r = rm_member m)) ∧
  (∀ r, r ∈ additional → is_Some (roles desired !! r)) ∧
  (∀ r b, r ∈ requests → activated_bundle to_vec sha256_hex (default "" (tp_uid target)) plans r = Some b →
     target_database_fingerprint b = fp) ∧
  (edges_functional (memberships desired) → edges_functional (memberships g)).
Proof.
  intros Hg. pose proof Hg as (es & [_ Hroles Hdecl] & Heq & Hfp)%composition_overlay. cbn in Hroles.
  split_and!; [by rw {1}Heq Heq|intros e; by eapply composed_edges|done| |done|by eapply composed_functional].
  intros r (m & Hm & [->| ->])%Hroles; by apply Hdecl.
Qed.

(** C18: [granted_access_survives_reconciliation]: the difference from a database to the
    composed graph neither drops the roles of an activated membership nor grants, revokes
    or alters it while it is in the database as it was granted. *)
Theorem granted_access_survives_reconciliation current m c :
  effective_graph to_vec sha256_hex target desired requests plans fp = Ok (additional, g) →
  edges_functional (memberships desired) → edges_functional (memberships current) →
  m ∈ activated → ¬ declared desired (membership_key m) → edge_of m ∈ memberships current →
  c ∈ diff current g →
  ¬ concerns_membership (rm_role m) (rm_member m) c ∧
  c ≠ Change.DropRole (rm_role m) ∧ c ≠ Change.DropRole (rm_member m).
Proof.
  intros Hg Hfd Hfc Hm Hn Hin Hc. destruct (aligned_rest current g) as (Hr & _ & _ & Hms).
  pose proof Hg as (es & [_ _ Hdecl] & Heq & _)%composition_overlay.
  assert (∀ x, membership_map (aligned current g) !! x = membership_map g !! x) as Hmap
    by (intros; unfold membership_map; by rw Hms).
  assert (edge_of m ∈ memberships g) as Hmg by (apply (composed_edges _ _ _ _ _ _ _ _ _ _ Hg); right; by exists m).
  assert (membership_map current !! (rm_role m, rm_member m) = Some (edge_of m)) as Hcur
    by (by apply membership_map_represents).
  assert (membership_map (aligned current g) !! (rm_role m, rm_member m) = Some (edge_of m)) as Hdes
    by (rw Hmap; apply membership_map_represents; [by eapply composed_functional|done]).
  assert (∀ name, name = rm_role m ∨ name = rm_member m → Change.DropRole name ∉ (diff_roles current (aligned current g)).2) as Hdrop.
  { intros name Hname. apply desired_role_not_dropped. rw Hr Heq. cbn. destruct Hname as [->| ->]; by apply Hdecl. }
  assert (∀ l : list Change, c ∈ l → (∀ d, d ∈ l → match d with Change.AddMember _ _ _ _ | Change.RemoveMember _ _ _
    | Change.UpdateMemberOptions _ _ _ _ _ _ | Change.DropRole _ => False | _ => True end) →
    ¬ concerns_membership (rm_role m) (rm_member m) c ∧ c ≠ Change.DropRole (rm_role m) ∧
    c ≠ Change.DropRole (rm_member m)) as Hrest.
  { intros l Hl Hk. specialize (Hk c Hl). destruct c; try done; (split; [by intros Hx|by split]). }
  apply elem_of_diff in Hc.
  destruct Hc as [Hc|[Hc|[Hc|[Hc|[Hc|[Hc|[[Hc _]|[Hc|[Hc|[Hc|Hc]]]]]]]]]].
  1-7, 10: apply (Hrest _ Hc); intros d Hd;
    first [ apply emits_creates in Hd | apply emits_alters in Hd | apply emits_schema_changes in Hd
          | apply emits_schema_grants in Hd | apply emits_grants in Hd | apply emits_set_defaults in Hd
          | apply emits_revokes in Hd | apply emits_revoke_defaults in Hd ]; by destruct d.
  - split; [by eapply same_edge_no_change; [exact Hcur|exact Hdes|by right]|].
    apply emits_member_removals in Hc. by destruct c.
  - split; [by eapply same_edge_no_change; [exact Hcur|exact Hdes|by left]|].
    apply emits_member_adds in Hc. by destruct c.
  - pose proof (emits_drops _ _ _ Hc) as Hkind. split_and!; [destruct c; by intros Hx|..]; intros ->;
      (eapply Hdrop; [|exact Hc]; auto).
Qed.
End promises.
