(* ===== verification/EphemeralWitnesses.v ===== *)
(** * A request, from its resolution to its end

    The theorems on ephemeral access applied to one request for a role, in the states its
    reconciles bring it to. *)

From S2P Require Import Prelude BTree RustStr Types Manifest Model Guc Change Diff Interp Plan Sql Approval ApprovalWitnesses ManifestWitnesses PlanStatus PlanSql PlanCreation Durations PlanRetention K8sNames Promotion Converge Ephemeral EphemeralScoped EphemeralLifecycle EphemeralFacts EphemeralSafety EphemeralOutcome EphemeralOverlay EphemeralResolution.

Module AccessScene.

(** ** The surroundings *)

Definition to_vec (b : CanonicalEphemeralBundle) : string :=
  cb_target_database_fingerprint b +:+
  concat_all ((λ m, "," +:+ rm_role m +:+ ":" +:+ rm_member m) <$> cb_memberships b).
Definition sha256_hex (s : string) : string := "feedfacecafe" +:+ s.
Definition from_second (z : Z) : option string := Some (pretty (Z.to_N z)).
Definition parse (s : string) : option Z := Z.of_N <$> parse_unsigned U64_MAX s.

Definition target : TargetPolicy := {|
  tp_name := "db"; tp_uid := Some "tp-uid"; tp_generation := Some 1%Z; tp_mode := PolicyMode.Apply;
  tp_suspend := false; tp_reconciliation_mode := CrdReconciliationMode.Authoritative;
  tp_database_identity := "default/db";
  tp_manifest := ManifestScene.manifest_of ∅ []
    [ManifestScene.plain_role "owner"; ManifestScene.plain_role "app"; ManifestScene.plain_role "alice"] [] [] |}.

Definition holds (t : string) : EphemeralAccessCondition := access_condition "0" t true "Ok" "ok".

Definition access_policy : EphemeralAccessPolicy := {|
  ap_name := "break-glass"; ap_uid := Some "ap-uid"; ap_generation := Some 1%Z;
  ap_postgres_policy_ref := "db"; ap_memberships := [{| em_role := "app"; em_inherit := true |}];
  ap_maximum_duration := "1h"; ap_default_duration := None; ap_pending_request_ttl := "10m";
  ap_justification_required := false; ap_approval_mode := EphemeralApprovalMode.Required;
  ap_suspend := false;
  ap_status := Some {| ap_observed_generation := Some 1%Z;
                       ap_conditions := [holds "Accepted"; holds "ResolvedRefs"]; ap_resolved_roles := ["app"] |} |}.

Definition request : EphemeralAccessRequest := {|
  rq_name := "req"; rq_uid := Some "12345678-0000"; rq_resource_version := 1; rq_labels := ∅;
  rq_access_policy_ref := "break-glass"; rq_subject := "alice"; rq_requested_duration := Some "30m";
  rq_justification := None; rq_status := None |}.

Definition declared_state : RoleGraph :=
  match expand_manifest (tp_manifest target) with
  | Ok em => match from_expanded em (Some "owner") with Ok g => g | _ => role_graph_default end
  | _ => role_graph_default
  end.

Definition start : AccessWorld := {|
  aw_requests := [request]; aw_policies := [access_policy]; aw_targets := [target]; aw_plans := [];
  aw_databases := {[ "fp" := declared_state ]} |}.

(** Everything answers, at that second. *)
Definition env (now : N) : AccessEnv := {|
  ae_now := now; ae_now_text := pretty now; ae_fingerprint := λ _, Ok "fp"; ae_lock := None;
  ae_inspect := λ _ _ g, Ok g; ae_sql_context := Ok sql_context_default; ae_transaction := None |}.

Lemma env_inspects now : inspects (env now).
Proof. intros expanded scope g seen [= <-]. by split. Qed.

(** ** The run *)

Definition object (w : AccessWorld) : EphemeralAccessRequest := default request (head (aw_requests w)).

Definition step (now : N) (w : AccessWorld) : AccessWorld :=
  last_world w (reconcile_access_request to_vec sha256_hex from_second parse (env now) (object w) w).1.

Definition resolved : ResolvedEphemeralAccess :=
  default {| access_policy_uid := ""; access_policy_generation := 0; target_policy_uid := "";
             target_policy_generation := 0; target_database_fingerprint := ""; granted_duration := "";
             bundle_encoding := ""; resolved_bundle_hash := ""; resolved_memberships := [] |}
    (rq_status (object (step 100 (step 100 start))) ≫= rs_resolved_access).

(** An approver attests the bundle and the duration. *)
Definition decide_with (t : string) (w : AccessWorld) : AccessWorld :=
  let r := object w in
  let s := default default_request_status (rq_status r) in
  with_requests w [with_request_status r {|
    rs_phase := rs_phase s;
    rs_conditions := rs_conditions s ++ [{|
      ec_type := t; ec_status := "True"; ec_reason := Some "Reviewed"; ec_message := None;
      ec_last_transition_time := None; ec_bundle_hash := Some (resolved_bundle_hash resolved);
      ec_granted_duration := Some (granted_duration resolved) |}];
    rs_resolved_access := rs_resolved_access s;
    rs_decided_by := Some {| username := "bob"; actor_uid := None; actor_groups := [] |};
    rs_approval_expires_at := rs_approval_expires_at s; rs_activated_at := rs_activated_at s;
    rs_expires_at := rs_expires_at s; rs_ended_at := rs_ended_at s; rs_last_error := rs_last_error s;
    rs_retained_memberships := rs_retained_memberships s |}].

Definition pending : AccessWorld := step 100 (step 100 start).
Definition approved : AccessWorld := decide_with "Approved" pending.
Definition applying : AccessWorld := step 200 approved.
Definition active : AccessWorld := step 200 applying.
Definition revoking : AccessWorld := step 2000 active.
Definition ended : AccessWorld := step 2001 revoking.

Definition phase_now (w : AccessWorld) : option EphemeralAccessRequestPhase := phase_of (object w).
Definition granted (w : AccessWorld) : bool :=
  match aw_databases w !! "fp" with
  | Some g => bool_decide ({| me_role := "app"; me_member := "alice"; me_inherit := true; me_admin := false |}
                             ∈ memberships g)
  | None => false
  end.
End AccessScene.

Import AccessScene.

Lemma lifecycle_runs :
  (phase_now <$> [pending; applying; active; revoking; ended]) =
    Some <$> [RequestPhase.PendingApproval; RequestPhase.Applying; RequestPhase.Active;
              RequestPhase.Revoking; RequestPhase.Ended] ∧
  (granted <$> [pending; applying; active; revoking; ended]) = [false; false; true; true; false].
Proof. by vm_compute. Qed.

(** ** Resolution *)

Lemma resolution_within_offer_witness :
  ∃ deadline, resolve_request to_vec sha256_hex parse [access_policy] [target] (ae_fingerprint (env 100)) 100 request =
    Ok (resolved, deadline, EphemeralApprovalMode.Required, false) ∧
  NoDup (rm_role <$> resolved_memberships resolved) ∧
  has_valid_bundle_hash to_vec sha256_hex resolved = true.
Proof.
  exists 700%N.
  assert (resolve_request to_vec sha256_hex parse [access_policy] [target] (ae_fingerprint (env 100)) 100 request =
    Ok (resolved, 700%N, EphemeralApprovalMode.Required, false)) as Hr by (vm_compute; reflexivity).
  split; [exact Hr|].
  destruct (resolution_within_offer to_vec sha256_hex parse [access_policy] [target] (ae_fingerprint (env 100))
    100 request resolved 700 EphemeralApprovalMode.Required false Hr)
    as (p & t & x & r & m & _ & _ & _ & _ & _ & _ & _ & _ & _ & _ & _ & _ & Hnd & _ & _ & _ & _ & _ & Hh & _).
  split; [exact Hnd|exact Hh].
Defined.

(** A serialiser that keeps bundles apart. *)
Definition injective_vec (b : CanonicalEphemeralBundle) : string :=
  DigestScene.text_of (cb_bundle_encoding b, cb_membership_semantics b, cb_target_database_fingerprint b,
    (λ m, (rm_role m, rm_member m, rm_inherit m)) <$> cb_memberships b).

#[export] Instance injective_vec_inj : Inj (=) (=) injective_vec.
Proof.
  intros [e s f ms] [e' s' f' ms'] Heq%text_of_inj. cbn in Heq. simplify_eq. f_equal.
  match goal with H : _ <$> _ = _ <$> _ |- _ => apply list_fmap_eq_inj in H; [done|] end.
  intros [r m i] [r' m' i'] Hm. by simplify_eq/=.
Qed.

(** The order of the memberships does not count. *)
Definition bundle (ms : list ResolvedEphemeralMembership) : ResolvedEphemeralAccess := {|
  access_policy_uid := "ap"; access_policy_generation := 1; target_policy_uid := "tp";
  target_policy_generation := 1; target_database_fingerprint := "fp"; granted_duration := "60s";
  bundle_encoding := EPHEMERAL_BUNDLE_ENCODING_V1; resolved_bundle_hash := ""; resolved_memberships := ms |}.
Definition app_alice : ResolvedEphemeralMembership := {| rm_role := "app"; rm_member := "alice"; rm_inherit := true |}.
Definition dba_alice : ResolvedEphemeralMembership := {| rm_role := "dba"; rm_member := "alice"; rm_inherit := false |}.

Lemma bundle_hash_identifies_witness :
  compute_bundle_hash injective_vec DigestScene.hash (bundle [dba_alice; app_alice]) =
    compute_bundle_hash injective_vec DigestScene.hash (bundle [app_alice; dba_alice]) ∧
  compute_bundle_hash injective_vec DigestScene.hash (bundle [dba_alice]) ≠
    compute_bundle_hash injective_vec DigestScene.hash (bundle [app_alice]).
Proof.
  split.
  - apply (bundle_hash_identifies injective_vec DigestScene.hash (bundle [dba_alice; app_alice])
      (bundle [app_alice; dba_alice]) _ _). split; [reflexivity|]. apply Permutation_swap.
  - intros [_ Hp]%(bundle_hash_identifies injective_vec DigestScene.hash (bundle [dba_alice])
      (bundle [app_alice]) _ _). apply Permutation_singleton_r in Hp. discriminate.
Defined.

(** ** Grants and withdrawals *)

Lemma scoped_plan_is_confined_witness :
  let run := apply_scoped_memberships to_vec sha256_hex (env 200) (object applying) resolved
               ScopedPlanOperation.Activate applying in
  run.2 = Ok [] ∧
  Forall (scoped_effect to_vec sha256_hex (object applying) resolved ScopedPlanOperation.Activate applying) run.1 ∧
  accomplished to_vec sha256_hex (object applying) resolved ScopedPlanOperation.Activate applying
    (last_world applying run.1).
Proof.
  assert ((apply_scoped_memberships to_vec sha256_hex (env 200) (object applying) resolved
             ScopedPlanOperation.Activate applying).2 = Ok []) as Hok by (vm_compute; reflexivity).
  destruct (scoped_plan_is_confined to_vec sha256_hex (env 200) applying (object applying)
    resolved ScopedPlanOperation.Activate (env_inspects 200)) as [Hall Hdone].
  split; [exact Hok|split; [exact Hall|]]. apply (Hdone [] Hok).
  intros p s Hp. assert (aw_plans applying = []) as Hn by (vm_compute; reflexivity).
  rw Hn in Hp. destruct (not_elem_of_nil p Hp).
Defined.

Lemma access_changes_are_authorised_witness :
  granted applying = false ∧ granted active = true ∧
  Forall (databases_step to_vec sha256_hex parse (env 200) applying (object applying))
    (reconcile_access_request to_vec sha256_hex from_second parse (env 200) (object applying) applying).1.
Proof.
  split; [vm_compute; reflexivity|split; [vm_compute; reflexivity|]].
  exact (access_changes_are_authorised to_vec sha256_hex from_second parse (env 200) applying (object applying)
    (env_inspects 200)).
Defined.

Lemma first_resolution_conflicts_witness :
  ∃ w1 request1,
    reconcile_access_request to_vec sha256_hex from_second parse (env 100) request start =
      ([w1], Err (EphemeralError.Kube "conflict")) ∧ rq_status request1 = rq_status request.
Proof.
  destruct (first_resolution_conflicts to_vec sha256_hex from_second parse (env 100) start request resolved 700
    EphemeralApprovalMode.Required "700") as (w1 & request1 & Hrun & _ & Hs & _).
  - reflexivity.
  - split; [reflexivity|reflexivity|vm_compute; reflexivity|vm_compute; reflexivity|].
    intros s. unfold persist_activation_deadline. destruct (_ && _); [by eexists|].
    assert (duration_of (granted_duration resolved) = Ok 1800%N) as Hd by (vm_compute; reflexivity).
    rw Hd. eexists. reflexivity.
  - discriminate.
  - exists w1, request1. split; [exact Hrun|exact Hs].
Defined.

(** ** Ends *)

Lemma active_read :
  resolved_request to_vec sha256_hex active (object active) (default default_request_status (rq_status (object active)))
    resolved.
Proof. split; vm_compute; reflexivity. Qed.

Lemma revoking_plans : plan_name <$> aw_plans revoking = ["req-12345678-activate-feedfacecafe"].
Proof. vm_compute. reflexivity. Qed.

Lemma revocation_name :
  scoped_plan_name (object revoking) resolved ScopedPlanOperation.Revoke = Ok "req-12345678-revoke-feedfacecafe".
Proof. vm_compute. reflexivity. Qed.

Lemma revoking_new p : p ∈ aw_plans revoking →
  Ok (E := EphemeralError) (plan_name p) ≠ scoped_plan_name (object revoking) resolved ScopedPlanOperation.Revoke.
Proof.
  intros Hp. rw revocation_name. apply (list_elem_of_fmap_2 plan_name) in Hp. rw revoking_plans in Hp.
  apply list_elem_of_singleton in Hp. rw Hp. discriminate.
Qed.

Definition target_expanded : ExpandedManifest :=
  match expanded_of target with Ok x => x | _ => ManifestScene.expanded end.

Lemma revoking_served :
  served to_vec sha256_hex (env 2001) revoking (object revoking) resolved ScopedPlanOperation.Revoke.
Proof.
  split.
  - vm_compute. reflexivity.
  - vm_compute. reflexivity.
  - exists access_policy. split; vm_compute; reflexivity.
  - reflexivity.
  - exists target. destruct (aw_databases revoking !! target_database_fingerprint resolved) as [g|] eqn:Hg.
    2: { exfalso. revert Hg. vm_compute. discriminate. }
    exists g. split; [vm_compute; reflexivity|]. split; [vm_compute; reflexivity|].
    split; [vm_compute; reflexivity|]. split; [reflexivity|]. split.
    + reflexivity.
    + by exists sql_context_default.
    + intros expanded scope. by exists g.
    + exists target_expanded, declared_state.
      destruct (effective_graph to_vec sha256_hex target declared_state
        (for_target_policy_uid (target_policy_uid resolved) (aw_requests revoking))
        (list_scoped_plans (tp_name target) (aw_plans revoking)) (target_database_fingerprint resolved))
        as [composed|stop|] eqn:Hc; [|exfalso; revert Hc; vm_compute; discriminate..].
      exists composed. split; [vm_compute; reflexivity|]. split; [vm_compute; reflexivity|reflexivity].
    + eexists. split; [apply revocation_name|]. intros p Hp Hn. destruct (revoking_new p Hp).
      rw revocation_name. by rw Hn.
Qed.

(** At the end of its time, the role is withdrawn. *)
Lemma expired_access_is_withdrawn_witness :
  ∃ w1 request1, reconcile_access_request to_vec sha256_hex from_second parse (env 2000) (object active) active =
      ([w1], Ok (Action.Requeue 0)) ∧ w1 = revoking ∧ request1 = object revoking ∧
    ∃ ws request2 s2,
      reconcile_access_request to_vec sha256_hex from_second parse (env 2001) request1 w1 =
        (ws, Ok Action.AwaitChange) ∧
      rq_status request2 = Some s2 ∧ rs_phase s2 = RequestPhase.Ended.
Proof.
  destruct (expired_access_is_withdrawn to_vec sha256_hex from_second parse (env 2000) active (object active)
    (default default_request_status (rq_status (object active))) resolved 2000 active_read)
    as (w1 & request1 & s1 & Hrun & [Hc _ _ _ _] & _ & _ & Hend).
  - vm_compute. reflexivity.
  - vm_compute. reflexivity.
  - vm_compute. reflexivity.
  - reflexivity.
  - assert (w1 = revoking) as -> by (unfold revoking, step; rw Hrun; reflexivity).
    assert (request1 = object revoking) as ->.
    { unfold is_current in Hc. apply find_some in Hc as [Hin%list_elem_of_In _].
      assert (aw_requests revoking = [object revoking]) as Hone by (vm_compute; reflexivity).
      rw Hone in Hin. by apply list_elem_of_singleton in Hin. }
    exists revoking, (object revoking). split; [exact Hrun|]. split; [reflexivity|]. split; [reflexivity|].
    destruct (Hend (env 2001) (env_inspects 2001) revoking_served) as (ws & r2 & s2 & Hrun2 & _ & Hs2 & Hp2 & _).
    + intros p s Hp Hn. destruct (revoking_new p Hp). by rw Hn.
    + exists ws, r2, s2. split; [exact Hrun2|]. split; [exact Hs2|exact Hp2].
Defined.

(** The same request under a policy that asks for no approval, denied while revoking. *)
Definition automatic : AccessWorld :=
  with_policies start [{|
    ap_name := ap_name access_policy; ap_uid := ap_uid access_policy; ap_generation := ap_generation access_policy;
    ap_postgres_policy_ref := ap_postgres_policy_ref access_policy; ap_memberships := ap_memberships access_policy;
    ap_maximum_duration := ap_maximum_duration access_policy; ap_default_duration := None;
    ap_pending_request_ttl := ap_pending_request_ttl access_policy; ap_justification_required := false;
    ap_approval_mode := EphemeralApprovalMode.Automatic; ap_suspend := false; ap_status := ap_status access_policy |}].
Definition denied : AccessWorld := decide_with "Denied" (step 2000 (step 100 (step 100 (step 100 automatic)))).

Lemma denied_read :
  resolved_request to_vec sha256_hex denied (object denied) (default default_request_status (rq_status (object denied)))
    resolved.
Proof. split; vm_compute; reflexivity. Qed.

Lemma denial_abandons_revocation_witness :
  granted denied = true ∧
  ∃ w' request', reconcile_access_request to_vec sha256_hex from_second parse (env 2001) (object denied) denied =
      ([w'], Ok Action.AwaitChange) ∧
    phase_of request' = Some RequestPhase.Denied ∧ aw_databases w' = aw_databases denied.
Proof.
  split; [vm_compute; reflexivity|].
  destruct (denial_abandons_revocation to_vec sha256_hex from_second parse (env 2001) denied (object denied)
    (default default_request_status (rq_status (object denied))) resolved denied_read)
    as (w' & request' & Hrun & _ & Hp & Hdb & _).
  - vm_compute. reflexivity.
  - vm_compute. by eexists.
  - exists w', request'. split; [exact Hrun|]. split; [exact Hp|exact Hdb].
Defined.

(** ** Beside the reconcile of the target *)

Definition composed : res OverlayStop (gset string * RoleGraph) :=
  effective_graph to_vec sha256_hex target declared_state (aw_requests active)
    (list_scoped_plans "db" (aw_plans active)) "fp".
Definition composed_graph : RoleGraph := match composed with Ok r => r.2 | _ => role_graph_default end.

Definition composed_roles : gset string := match composed with Ok r => r.1 | _ => ∅ end.

Lemma composes :
  effective_graph to_vec sha256_hex target declared_state (aw_requests active)
    (list_scoped_plans "db" (aw_plans active)) "fp" = Ok (composed_roles, composed_graph).
Proof. vm_compute. reflexivity. Qed.

Lemma composed_graph_is_exact_witness :
  edge_of app_alice ∈ memberships composed_graph ∧
  composed_graph = with_memberships declared_state (memberships composed_graph).
Proof.
  destruct (composed_graph_is_exact to_vec sha256_hex target declared_state (aw_requests active)
    (list_scoped_plans "db" (aw_plans active)) "fp" composed_roles composed_graph composes) as (Heq & _).
  split; [apply (bool_decide_unpack _); vm_compute; exact I|exact Heq].
Defined.

(** In the database, next to one granted by hand. *)
Definition by_hand : MembershipEdge :=
  {| me_role := "app"; me_member := "owner"; me_inherit := true; me_admin := false |}.
Definition database : RoleGraph := with_memberships declared_state {[ edge_of app_alice; by_hand ]}.

Lemma database_functional : edges_functional (memberships database).
Proof.
  intros e e' [->%elem_of_singleton| ->%elem_of_singleton]%elem_of_union
    [->%elem_of_singleton| ->%elem_of_singleton]%elem_of_union; [reflexivity|discriminate..|reflexivity].
Qed.

Lemma declared_functional : edges_functional (memberships declared_state).
Proof.
  assert (memberships declared_state = ∅) as Hn by (vm_compute; reflexivity).
  intros e e' He. rw Hn in He. destruct (not_elem_of_empty e He).
Qed.

Lemma granted_access_survives_reconciliation_witness :
  Change.RemoveMember "app" "owner" None ∈ diff database composed_graph ∧
  ∀ c, c ∈ diff database composed_graph → ¬ concerns_membership "app" "alice" c.
Proof.
  split; [apply (bool_decide_unpack _); vm_compute; exact I|]. intros c Hc.
  apply (granted_access_survives_reconciliation to_vec sha256_hex target declared_state (aw_requests active)
    (list_scoped_plans "db" (aw_plans active)) "fp" composed_roles composed_graph database app_alice c composes
    declared_functional database_functional).
  - apply (bool_decide_unpack _). vm_compute. exact I.
  - intros (e & He & _). assert (memberships declared_state = ∅) as Hn by (vm_compute; reflexivity).
    rw Hn in He. destruct (not_elem_of_empty e He).
  - apply elem_of_union. left. by apply elem_of_singleton.
  - exact Hc.
Defined.
