(* ===== verification/PolicySpec.v ===== *)
(** * The policy object: its connection, its validation, its manifest ([crd.rs])

    The spec of a [PostgresPolicy] as the operator reads it: how the connection is named
    for locking and pooling, which connections are accepted, and the manifest the spec
    stands for. *)

From Stdlib Require Import Ascii.
From S2P Require Import Prelude BTree RustStr Types Model Change Plan Approval PlanStatus PlanSql Durations Clock K8sNames ContentDigest CandidateStatus Promotion.

Definition VALID_SSL_MODES : list string :=
  ["disable"; "allow"; "prefer"; "require"; "verify-ca"; "verify-full"].
Definition DEFAULT_GCP_CLOUD_SQL_LOGIN_SCOPE : string :=
  "https://www.googleapis.com/auth/sqlservice.login".

(** The escape [\0] of a string literal. *)
Definition NUL : string := of_bytes [0%N].

(** ** Connections *)

Record SecretReference := { sr_name : string }.
Record SecretKeySelector := { sks_name : string; sks_key : string }.

Record GcpWorkloadIdentityAuth := {
  gcp_impersonate_service_account : option string;
  gcp_scope_field : option string;
}.

Module ConnectionAuth.
Inductive ConnectionAuth : Type :=
  | GcpWorkloadIdentity (auth : GcpWorkloadIdentityAuth)
  | AzureWorkloadIdentity (unsupported_fields : gmap string Value).
End ConnectionAuth.
Abbreviation ConnectionAuth := ConnectionAuth.ConnectionAuth.

(** [port] is a [u16]. *)
Record ConnectionParams := {
  cp_host : option string;
  cp_host_secret : option SecretKeySelector;
  cp_port : option N;
  cp_port_secret : option SecretKeySelector;
  cp_dbname : option string;
  cp_dbname_secret : option SecretKeySelector;
  cp_username : option string;
  cp_username_secret : option SecretKeySelector;
  cp_password : option string;
  cp_password_secret : option SecretKeySelector;
  cp_auth : option ConnectionAuth;
  cp_ssl_mode : option string;
  cp_ssl_mode_secret : option SecretKeySelector;
  cp_set_role : option string;
}.

Record ConnectionSpec := {
  cs_secret_ref : option SecretReference;
  cs_secret_key : option string;
  cs_params : option ConnectionParams;
  cs_require_physical_identity : option bool;
}.

Definition requires_physical_identity (self : ConnectionSpec) : bool :=
  default false (cs_require_physical_identity self).
Definition effective_secret_key (self : ConnectionSpec) : string :=
  default "DATABASE_URL" (cs_secret_key self).

Definition params_selectors (params : ConnectionParams) : list SecretKeySelector :=
  omap id [cp_host_secret params; cp_port_secret params; cp_dbname_secret params;
           cp_username_secret params; cp_password_secret params; cp_ssl_mode_secret params].

Definition collect_secret_names (self : ConnectionSpec) (names : gset string) : gset string :=
  let names := match cs_secret_ref self with
               | Some secret_ref => {[sr_name secret_ref]} ∪ names
               | None => names
               end in
  match cs_params self with
  | Some params => foldl (λ names sel, {[sks_name sel]} ∪ names) names (params_selectors params)
  | None => names
  end.

Definition selector_repr (sel : SecretKeySelector) : string :=
  "secret=" +:+ sks_name sel +:+ NUL +:+ sks_key sel.

Definition field_identity_repr (literal : option string) (secret : option SecretKeySelector) :
    string :=
  match literal, secret with
  | Some value, _ => "literal=" +:+ value
  | None, Some sel => selector_repr sel
  | None, None => ""
  end.

(** [port.map(..).or_else(..).unwrap_or_else(|| "5432")] *)
Definition port_part (params : ConnectionParams) : string :=
  match cp_port params, cp_port_secret params with
  | Some p, _ => "literal=" +:+ pretty p
  | None, Some s => selector_repr s
  | None, None => "5432"
  end.

Definition identity_key (self : ConnectionSpec) : string :=
  match cs_secret_ref self, cs_params self with
  | Some secret_ref, _ => sr_name secret_ref +:+ "/" +:+ effective_secret_key self
  | None, Some params =>
      "params" +:+ NUL +:+ field_identity_repr (cp_host params) (cp_host_secret params) +:+ NUL +:+
      field_identity_repr (cp_dbname params) (cp_dbname_secret params) +:+ NUL +:+ port_part params
  | None, None => "invalid-connection"
  end.

(** [ConnectionAuth::cache_key] *)
Definition auth_cache_key (self : ConnectionAuth) : string :=
  match self with
  | ConnectionAuth.GcpWorkloadIdentity auth =>
      "gcp_workload_identity" +:+ NUL +:+
      "impersonate=" +:+ default "" (gcp_impersonate_service_account auth) +:+ NUL +:+
      "scope=" +:+ default DEFAULT_GCP_CLOUD_SQL_LOGIN_SCOPE (gcp_scope_field auth)
  | ConnectionAuth.AzureWorkloadIdentity _ => "azure_workload_identity"
  end.

Definition ssl_part (params : ConnectionParams) : string :=
  match cp_ssl_mode params, cp_ssl_mode_secret params with
  | Some v, _ => "literal=" +:+ v
  | None, Some s => selector_repr s
  | None, None => ""
  end.

Definition cache_key (self : ConnectionSpec) (namespace : string) : string :=
  match cs_params self with
  | Some params =>
      namespace +:+ "/" +:+ identity_key self +:+ NUL +:+
      "user=" +:+ field_identity_repr (cp_username params) (cp_username_secret params) +:+ NUL +:+
      "pass=" +:+ field_identity_repr (cp_password params) (cp_password_secret params) +:+ NUL +:+
      "auth=" +:+ from_option auth_cache_key "" (cp_auth params) +:+ NUL +:+
      "ssl=" +:+ ssl_part params +:+ NUL +:+
      "role=" +:+ default "" (cp_set_role params)
  | None => namespace +:+ "/" +:+ identity_key self
  end.

(** [DatabaseIdentity] is a newtype of a string. *)
Definition DatabaseIdentity : Type := string.
Definition from_connection (namespace : string) (connection : ConnectionSpec) : DatabaseIdentity :=
  namespace +:+ "/" +:+ identity_key connection.

(** ** Validation of a connection *)

Module ConnectionValidationError.
Inductive ConnectionValidationError : Set :=
  | BothModesSet
  | NeitherModeSet
  | EmptySecretKeyRef (field detail : string)
  | InvalidSslMode (value : string)
  | EmptyLiteral (field : string)
  | NeitherFieldSet (field : string)
  | BothFieldsSet (field : string)
  | EmptyAuthField (field : string)
  | AuthWithPassword
  | UnsupportedAuthField (field : string)
  | InvalidRoleName (value : string).
End ConnectionValidationError.
Abbreviation ConnectionValidationError := ConnectionValidationError.ConnectionValidationError.

(** [s.trim().is_empty()] *)
Definition is_blank (s : string) : bool := forallb is_whitespace (chars s).

Definition validate_secret_selector (field : string) (sel : SecretKeySelector) :
    res ConnectionValidationError unit :=
  _ ← throw_if (is_blank (sks_name sel))
        (ConnectionValidationError.EmptySecretKeyRef field "name must not be empty");
  throw_if (is_blank (sks_key sel))
    (ConnectionValidationError.EmptySecretKeyRef field "key must not be empty").

Definition validate_required_field (field : string) (literal : option string)
    (secret : option SecretKeySelector) : res ConnectionValidationError unit :=
  match literal, secret with
  | Some _, Some _ => Err (ConnectionValidationError.BothFieldsSet field)
  | None, None => Err (ConnectionValidationError.NeitherFieldSet field)
  | Some s, None => throw_if (is_blank s) (ConnectionValidationError.EmptyLiteral field)
  | None, Some sel => validate_secret_selector field sel
  end.

Definition validate_optional_field (field : string) (literal : option string)
    (secret : option SecretKeySelector) : res ConnectionValidationError unit :=
  _ ← throw_if (bool_decide (is_Some literal) && bool_decide (is_Some secret))
        (ConnectionValidationError.BothFieldsSet field);
  _ ← throw_if (from_option is_blank false literal) (ConnectionValidationError.EmptyLiteral field);
  match secret with Some sel => validate_secret_selector field sel | None => Ok tt end.

Definition validate_auth (auth : ConnectionAuth) : res ConnectionValidationError unit :=
  match auth with
  | ConnectionAuth.GcpWorkloadIdentity auth =>
      _ ← throw_if (from_option is_blank false (gcp_impersonate_service_account auth))
            (ConnectionValidationError.EmptyAuthField "impersonateServiceAccount");
      throw_if (from_option is_blank false (gcp_scope_field auth))
        (ConnectionValidationError.EmptyAuthField "scope")
  | ConnectionAuth.AzureWorkloadIdentity unsupported_fields =>
      for_each (λ field, throw_if (bool_decide (is_Some (unsupported_fields !! field)))
                           (ConnectionValidationError.UnsupportedAuthField field))
        ["scope"; "impersonateServiceAccount"]
  end.

Definition is_valid_set_role_identifier (s : string) : bool :=
  match s with
  | String b rest =>
      (in_range 65 90 b || in_range 97 122 b || is_char "_" b) &&
      all_bytes (λ b, byte_alphanumeric b || is_char "_" b || is_char "$" b || is_char "-" b) rest
  | "" => false
  end.

Definition validate_set_role (value : string) : res ConnectionValidationError unit :=
  _ ← throw_if (is_blank value) (ConnectionValidationError.EmptyLiteral "setRole");
  throw_if (negb (is_valid_set_role_identifier value))
    (ConnectionValidationError.InvalidRoleName value).

(** [if let Some(value) = option { check(value)? }] *)
Definition when_some {E A} (check : A → res E unit) (option : option A) : res E unit :=
  match option with Some value => check value | None => Ok tt end.

Definition validate_params (params : ConnectionParams) : res ConnectionValidationError unit :=
  _ ← validate_required_field "host" (cp_host params) (cp_host_secret params);
  _ ← validate_required_field "dbname" (cp_dbname params) (cp_dbname_secret params);
  _ ← validate_required_field "username" (cp_username params) (cp_username_secret params);
  _ ← match cp_auth params with
      | Some auth =>
          _ ← throw_if (bool_decide (is_Some (cp_password params)) ||
                        bool_decide (is_Some (cp_password_secret params)))
                ConnectionValidationError.AuthWithPassword;
          validate_auth auth
      | None => validate_required_field "password" (cp_password params) (cp_password_secret params)
      end;
  _ ← validate_optional_field "port" (pretty <$> cp_port params) (cp_port_secret params);
  _ ← validate_optional_field "sslMode" (cp_ssl_mode params) (cp_ssl_mode_secret params);
  _ ← when_some (λ value, throw_if (negb (bool_decide (value ∈ VALID_SSL_MODES)))
                            (ConnectionValidationError.InvalidSslMode value)) (cp_ssl_mode params);
  when_some validate_set_role (cp_set_role params).

Definition validate_connection_spec (conn : ConnectionSpec) : res ConnectionValidationError unit :=
  match cs_secret_ref conn, cs_params conn with
  | Some _, None => Ok tt
  | None, Some params => validate_params params
  | Some _, Some _ => Err ConnectionValidationError.BothModesSet
  | None, None => Err ConnectionValidationError.NeitherModeSet
  end.

(** ** The content of a policy *)

Record ProfileObjectTargetSpec := {
  pots_object_type : ObjectType;
  pots_name : option string;
}.
Record ProfileGrantSpec := {
  pgs_privileges : list Privilege;
  pgs_object : ProfileObjectTargetSpec;
  pgs_ensure : Ensure;
}.
Record DefaultPrivilegeGrantSpec := {
  dpgs_role : option string;
  dpgs_privileges : list Privilege;
  dpgs_on_type : ObjectType;
  dpgs_ensure : Ensure;
}.
Record ProfileSpec := {
  ps_login : option bool;
  ps_inherit : option bool;
  ps_grants : list ProfileGrantSpec;
  ps_default_privileges : list DefaultPrivilegeGrantSpec;
  ps_config : gmap string ConfigValue;
}.

(** [length] is a [u32]. *)
Record GeneratePasswordSpec := {
  gps_length : option N;
  gps_secret_name : option string;
  gps_secret_key : option string;
}.
Record PasswordSpec := {
  pws_secret_ref : option SecretReference;
  pws_secret_key : option string;
  pws_generate : option GeneratePasswordSpec;
}.

Record RoleSpec := {
  rsp_name : string;
  rsp_external : bool;
  rsp_preserve_undeclared_grants : bool;
  rsp_login : option bool;
  rsp_superuser : option bool;
  rsp_createdb : option bool;
  rsp_createrole : option bool;
  rsp_inherit : option bool;
  rsp_replication : option bool;
  rsp_bypassrls : option bool;
  rsp_connection_limit : option Z;
  rsp_comment : option string;
  rsp_password : option PasswordSpec;
  rsp_password_valid_until : option string;
  rsp_config : gmap string ConfigValue;
}.

(** [PolicyContent]: the fields a candidate carries and a promotion copies. *)
Record PolicyContent := {
  pc_reconciliation_mode : CrdReconciliationMode;
  pc_role_pattern : option string;
  pc_default_owner : option string;
  pc_profiles : gmap string ProfileSpec;
  pc_schemas : list SchemaBinding;
  pc_roles : list RoleSpec;
  pc_grants : list Grant;
  pc_default_privileges : list DefaultPrivilege;
  pc_memberships : list Membership;
  pc_retirements : list RoleRetirement;
}.

Record PostgresPolicySpec := {
  psp_connection : ConnectionSpec;
  psp_interval : string;
  psp_suspend : bool;
  psp_mode : PolicyMode;
  psp_reconciliation_mode : CrdReconciliationMode;
  psp_allow_schema_owner_transfers : bool;
  psp_default_owner : option string;
  psp_role_pattern : option string;
  psp_profiles : gmap string ProfileSpec;
  psp_schemas : list SchemaBinding;
  psp_roles : list RoleSpec;
  psp_grants : list Grant;
  psp_default_privileges : list DefaultPrivilege;
  psp_memberships : list Membership;
  psp_retirements : list RoleRetirement;
  psp_approval : option ApprovalMode;
}.

Definition manifest_profile (spec : ProfileSpec) : Profile := {|
  prof_login := ps_login spec; prof_inherit := ps_inherit spec;
  prof_grants := (λ g, {| pg_privileges := pgs_privileges g;
                          pg_object := {| pot_object_type := pots_object_type (pgs_object g);
                                          pot_name := pots_name (pgs_object g) |};
                          pg_ensure := pgs_ensure g |}) <$> ps_grants spec;
  prof_default_privileges :=
    (λ dp, {| dpg_role := dpgs_role dp; dpg_privileges := dpgs_privileges dp;
              dpg_on_type := dpgs_on_type dp; dpg_ensure := dpgs_ensure dp |})
      <$> ps_default_privileges spec;
  prof_config := ps_config spec |}.

Definition manifest_role (r : RoleSpec) : RoleDefinition := {|
  rd_name := rsp_name r; rd_external := rsp_external r;
  rd_preserve_undeclared_grants := rsp_preserve_undeclared_grants r;
  rd_login := rsp_login r; rd_superuser := rsp_superuser r; rd_createdb := rsp_createdb r;
  rd_createrole := rsp_createrole r; rd_inherit := rsp_inherit r;
  rd_replication := rsp_replication r; rd_bypassrls := rsp_bypassrls r;
  rd_connection_limit := rsp_connection_limit r; rd_comment := rsp_comment r;
  rd_password := None; rd_password_valid_until := rsp_password_valid_until r;
  rd_config := rsp_config r |}.

(** [build_policy_manifest]; memberships are rebuilt field by field, which is the identity. *)
Definition build_policy_manifest (default_owner role_pattern : option string)
    (profiles : gmap string ProfileSpec) (schemas : list SchemaBinding) (roles : list RoleSpec)
    (grants : list Grant) (default_privileges : list DefaultPrivilege)
    (memberships : list Membership) (retirements : list RoleRetirement) : PolicyManifest := {|
  pm_role_pattern := role_pattern; pm_default_owner := default_owner; pm_auth_providers := [];
  pm_profiles := manifest_profile <$> profiles; pm_schemas := schemas;
  pm_roles := manifest_role <$> roles; pm_grants := grants;
  pm_default_privileges := default_privileges;
  pm_memberships :=
    (λ m, {| mb_role := mb_role m;
             mb_members := (λ ms, {| ms_name := ms_name ms; ms_inherit := ms_inherit ms;
                                     ms_admin := ms_admin ms |}) <$> mb_members m;
             mb_exclusive := mb_exclusive m |}) <$> memberships;
  pm_retirements := retirements |}.

(** [PolicyContent::to_policy_manifest] *)
Definition content_to_policy_manifest (self : PolicyContent) : PolicyManifest :=
  build_policy_manifest (pc_default_owner self) (pc_role_pattern self) (pc_profiles self)
    (pc_schemas self) (pc_roles self) (pc_grants self) (pc_default_privileges self)
    (pc_memberships self) (pc_retirements self).

(** [PostgresPolicySpec::to_policy_manifest] *)
Definition to_policy_manifest (self : PostgresPolicySpec) : PolicyManifest :=
  build_policy_manifest (psp_default_owner self) (psp_role_pattern self) (psp_profiles self)
    (psp_schemas self) (psp_roles self) (psp_grants self) (psp_default_privileges self)
    (psp_memberships self) (psp_retirements self).

Definition policy_content (self : PostgresPolicySpec) : PolicyContent := {|
  pc_reconciliation_mode := psp_reconciliation_mode self;
  pc_role_pattern := psp_role_pattern self; pc_default_owner := psp_default_owner self;
  pc_profiles := psp_profiles self; pc_schemas := psp_schemas self; pc_roles := psp_roles self;
  pc_grants := psp_grants self; pc_default_privileges := psp_default_privileges self;
  pc_memberships := psp_memberships self; pc_retirements := psp_retirements self |}.
