(* ===== verification/PolicySecrets.v ===== *)
(** * Passwords and the Secrets that hold them ([password.rs], [crd.rs], [reconciler.rs])

    Which password specs are accepted, where a generated password is kept, what planning
    reads, and what execution writes.  The Secrets of a namespace are a map by name; a call
    to the API server may fail, and other writers may add Secrets between two calls.
    Randomness and the SCRAM derivation are arguments. *)

From Stdlib Require Import Ascii.
From S2P Require Import Prelude BTree RustStr Types Model Change Plan Approval PlanStatus PlanSql Durations Clock K8sNames ContentDigest CandidateStatus Promotion PolicySpec.

Definition DEFAULT_PASSWORD_LENGTH : N := 32.
Definition MIN_PASSWORD_LENGTH : N := 16.
Definition MAX_PASSWORD_LENGTH : N := 128.
Definition MAX_SECRET_NAME_LENGTH : nat := MAX_RESOURCE_NAME_LENGTH.
Definition GENERATED_VERIFIER_KEY : string := "verifier".
Definition CHARSET : string :=
  "ABCDEFGHIJKLMNOPQRSTUVWXYZabcdefghijklmnopqrstuvwxyz0123456789!@#$%^&*-_=+".

(** ** Names *)

Definition default_generated_secret_name {E} (policy_name role_name : string) : res E string :=
  let policy := sanitize_dns_label_segment policy_name "policy" in
  let role := sanitize_dns_label_segment role_name "role" in
  truncated ← truncate_name_prefix (policy +:+ "-pgr-" +:+ role) MAX_SECRET_NAME_LENGTH;
  Ok (if String.eqb truncated "" then "pgroles-generated-password" else truncated).

Definition generated_secret_name {E} (policy_name role_name : string) (spec : GeneratePasswordSpec) :
    res E string :=
  match gps_secret_name spec with
  | Some name => Ok name
  | None => default_generated_secret_name policy_name role_name
  end.

Definition generated_secret_key (spec : GeneratePasswordSpec) : string :=
  default "password" (gps_secret_key spec).

Definition missing_generated_secret_source_version (secret_name secret_key : string) : string :=
  secret_name +:+ ":" +:+ secret_key +:+ ":missing".

Definition is_valid_secret_name (name : string) : bool := is_valid_resource_name name.
Definition is_valid_secret_key (key : string) : bool :=
  negb (String.eqb key "") &&
  all_bytes (λ b, byte_alphanumeric b || is_char "-" b || is_char "_" b || is_char "." b) key.

(** ** Validation *)

Module PasswordValidationError.
Inductive PasswordValidationError : Set :=
  | PasswordWithoutLogin (role : string)
  | InvalidPasswordMode (role : string)
  | InvalidGeneratedLength (role : string) (min max : N)
  | InvalidGeneratedSecretName (role name : string)
  | InvalidSecretKey (role field key : string)
  | ReservedGeneratedSecretKey (role key : string).
End PasswordValidationError.
Abbreviation PasswordValidationError := PasswordValidationError.PasswordValidationError.

Definition length_allowed (length : N) : bool :=
  (MIN_PASSWORD_LENGTH <=? length)%N && (length <=? MAX_PASSWORD_LENGTH)%N.

Definition validate_generate (policy_name role : string) (generate : GeneratePasswordSpec) :
    res PasswordValidationError unit :=
  _ ← throw_if (from_option (λ length, negb (length_allowed length)) false (gps_length generate))
        (PasswordValidationError.InvalidGeneratedLength role MIN_PASSWORD_LENGTH MAX_PASSWORD_LENGTH);
  secret_name ← generated_secret_name policy_name role generate;
  _ ← throw_if (negb (is_valid_secret_name secret_name))
        (PasswordValidationError.InvalidGeneratedSecretName role secret_name);
  let secret_key := generated_secret_key generate in
  _ ← throw_if (negb (is_valid_secret_key secret_key))
        (PasswordValidationError.InvalidSecretKey role "generate.secretKey" secret_key);
  throw_if (String.eqb secret_key GENERATED_VERIFIER_KEY)
    (PasswordValidationError.ReservedGeneratedSecretKey role secret_key).

Definition validate_password (policy_name : string) (role : RoleSpec) (password : PasswordSpec) :
    res PasswordValidationError unit :=
  _ ← throw_if (negb (bool_decide (rsp_login role = Some true)))
        (PasswordValidationError.PasswordWithoutLogin (rsp_name role));
  match pws_secret_ref password, pws_generate password with
  | Some _, None =>
      let secret_key := default (rsp_name role) (pws_secret_key password) in
      throw_if (negb (is_valid_secret_key secret_key))
        (PasswordValidationError.InvalidSecretKey (rsp_name role) "secretKey" secret_key)
  | None, Some generate => validate_generate policy_name (rsp_name role) generate
  | _, _ => Err (PasswordValidationError.InvalidPasswordMode (rsp_name role))
  end.

Definition validate_password_specs (roles : list RoleSpec) (policy_name : string) :
    res PasswordValidationError unit :=
  for_each (λ role, when_some (validate_password policy_name role) (rsp_password role)) roles.

(** [PostgresPolicySpec::referenced_secret_names] *)
Definition role_secret_names {E} (policy_name : string) (names : gset string) (role : RoleSpec) :
    res E (gset string) :=
  match rsp_password role with
  | None => Ok names
  | Some pw =>
      let names := match pws_secret_ref pw with
                   | Some secret_ref => {[sr_name secret_ref]} ∪ names
                   | None => names
                   end in
      match pws_generate pw with
      | Some gen_spec =>
          secret_name ← generated_secret_name policy_name (rsp_name role) gen_spec;
          Ok ({[secret_name]} ∪ names)
      | None => Ok names
      end
  end.

Definition referenced_secret_names {E} (self : PostgresPolicySpec) (policy_name : string) :
    res E (gset string) :=
  fold_res (role_secret_names policy_name) (collect_secret_names (psp_connection self) ∅)
    (psp_roles self).

(** ** Secrets *)

(** [String::from_utf8]: the bytes are well-formed UTF-8. *)
Fixpoint is_utf8 (s : string) : bool :=
  let cont := in_range 128 191 in
  match s with
  | "" => true
  | String a s1 =>
      if in_range 0 127 a then is_utf8 s1
      else match s1 with
           | "" => false
           | String b s2 =>
               if in_range 194 223 a then cont b && is_utf8 s2
               else match s2 with
                    | "" => false
                    | String c s3 =>
                        if in_range 224 239 a then
                          (if in_range 224 224 a then in_range 160 191 b
                           else if in_range 237 237 a then in_range 128 159 b else cont b) &&
                          cont c && is_utf8 s3
                        else match s3 with
                             | "" => false
                             | String d s4 =>
                                 in_range 240 244 a &&
                                 (if in_range 240 240 a then in_range 144 191 b
                                  else if in_range 244 244 a then in_range 128 143 b else cont b) &&
                                 cont c && cont d && is_utf8 s4
                             end
                    end
           end
  end.

(** [owner] is the policy the Secret's owner reference names. *)
Record Secret := {
  sc_data : option (gmap string string);
  sc_resource_version : option string;
  sc_labels : gmap string string;
  sc_owner : option (string * string);
}.

Module KubeError.
Inductive KubeError : Set := Api (code : N) | Transport.
End KubeError.
Abbreviation KubeError := KubeError.KubeError.
Module PasswordError.
Inductive PasswordError : Set :=
  | MissingKey (secret key : string)
  | EmptyPassword (secret key : string)
  | KubeApi (secret : string) (source : KubeError).
End PasswordError.
Abbreviation PasswordError := PasswordError.PasswordError.

(** [PasswordError::is_transient] *)
Definition password_error_is_transient (self : PasswordError) : bool :=
  match self with
  | PasswordError.MissingKey _ _ | PasswordError.EmptyPassword _ _ => false
  | PasswordError.KubeApi _ (KubeError.Api code) =>
      negb ((400 <=? code)%N && (code <? 500)%N) || (code =? 409)%N || (code =? 429)%N
  | PasswordError.KubeApi _ KubeError.Transport => true
  end.

Record GeneratedPasswordSecret := {
  gp_password : string;
  gp_source_version : string;
}.

Definition secret_source_version (secret : Secret) (secret_name secret_key : string) : string :=
  secret_name +:+ ":" +:+ secret_key +:+ ":" +:+ default "unknown" (sc_resource_version secret).

Definition generated_password_from_existing_secret (secret : Secret) (secret_name secret_key : string) :
    res PasswordError GeneratedPasswordSecret :=
  match sc_data secret ≫= (.!! secret_key) with
  | None => Err (PasswordError.MissingKey secret_name secret_key)
  | Some value_bytes =>
      if negb (is_utf8 value_bytes) then Err (PasswordError.MissingKey secret_name secret_key)
      else if String.eqb value_bytes "" then Err (PasswordError.EmptyPassword secret_name secret_key)
      else Ok {| gp_password := value_bytes;
                 gp_source_version := secret_source_version secret secret_name secret_key |}
  end.

(** The Secrets of a namespace. *)
Abbreviation Secrets := (gmap string Secret).

(** [get_generated_secret_opt]; [answer] is the API server's. *)
Definition get_generated_secret_opt (answer : res KubeError (option Secret)) (secret_name secret_key : string) :
    res PasswordError (option GeneratedPasswordSecret) :=
  existing ← res_map_err (PasswordError.KubeApi secret_name) answer;
  match existing with
  | Some secret => Some <$> generated_password_from_existing_secret secret secret_name secret_key
  | None => Ok None
  end.

(** What the API server answers to a read, to a creation: [fault] is its own failure. *)
Definition get_opt (fault : option KubeError) (w : Secrets) (name : string) : res KubeError (option Secret) :=
  match fault with Some e => Err e | None => Ok (w !! name) end.
Definition get (fault : option KubeError) (w : Secrets) (name : string) : res KubeError Secret :=
  match fault, w !! name with
  | Some e, _ => Err e
  | None, Some secret => Ok secret
  | None, None => Err (KubeError.Api 404)
  end.
Definition create (fault : option KubeError) (w : Secrets) (name : string) (secret : Secret) :
    Secrets * res KubeError Secret :=
  match fault, w !! name with
  | Some e, _ => (w, Err e)
  | None, Some _ => (w, Err (KubeError.Api 409))
  | None, None => (<[name := secret]> w, Ok secret)
  end.

(** ** Generation *)

(** [draw i] is the index drawn for the [i]th character, below the size of the charset. *)
Definition charset_char (i : nat) : string := default "" (chars CHARSET !! i).
Definition generate_password (draw : nat → nat) (length : N) : string :=
  let length := N.min MAX_PASSWORD_LENGTH (N.max MIN_PASSWORD_LENGTH length) in
  concat_all ((λ i, charset_char (draw i)) <$> seq 0 (N.to_nat length)).

Record Drawn := {
  dr_draw : nat → nat;
  dr_salt : string;
  dr_rebuild_salt : string;
}.

(** What surrounds the three calls of one [ensure_generated_secret]: their faults, and what
    other writers do before the creation. *)
Record Circumstance := {
  ci_read : option KubeError;
  ci_others : Secrets → Secrets;
  ci_create : option KubeError;
  ci_reread : option KubeError;
  ci_version : string;
}.

(** A policy as the owner of Secrets. *)
Record SecretOwner := {
  so_name : string;
  so_uid : option string;
}.

Section scram.
Context (compute_verifier : string → string → string).

Definition generated_secret (policy : SecretOwner) (role_name secret_key password verifier version : string) :
    Secret := {|
  sc_data := Some (<[GENERATED_VERIFIER_KEY := verifier]> {[secret_key := password]});
  sc_resource_version := Some version;
  sc_labels := <["pgroles.io/role" := role_name]> (<["pgroles.io/policy" := so_name policy]>
                 {["app.kubernetes.io/managed-by" := "pgroles-operator"]});
  sc_owner := Some (so_name policy, default "" (so_uid policy)) |}.

Definition ensure_named_secret (c : Circumstance) (drawn : Drawn) (w : Secrets) (policy : SecretOwner)
    (role_name secret_name : string) (spec : GeneratePasswordSpec) :
    Secrets * res PasswordError GeneratedPasswordSecret :=
  let secret_key := generated_secret_key spec in
  match get_generated_secret_opt (get_opt (ci_read c) w secret_name) secret_name secret_key with
  | Ok (Some existing) => (w, Ok existing)
  | Ok None =>
      let password := generate_password (dr_draw drawn) (default DEFAULT_PASSWORD_LENGTH (gps_length spec)) in
      let secret := generated_secret policy role_name secret_key password
                      (compute_verifier (dr_salt drawn) password) (ci_version c) in
      let '(w, answer) := create (ci_create c) (ci_others c w) secret_name secret in
      match answer with
      | Ok created =>
          (w, Ok {| gp_password := password;
                    gp_source_version := secret_source_version created secret_name secret_key |})
      | Err (KubeError.Api code) =>
          if (code =? 409)%N then
            (w, existing ← res_map_err (PasswordError.KubeApi secret_name) (get (ci_reread c) w secret_name);
                generated_password_from_existing_secret existing secret_name secret_key)
          else (w, Err (PasswordError.KubeApi secret_name (KubeError.Api code)))
      | Err e => (w, Err (PasswordError.KubeApi secret_name e))
      | Panic => (w, Panic)
      end
  | Err e => (w, Err e)
  | Panic => (w, Panic)
  end.

Definition ensure_generated_secret (c : Circumstance) (drawn : Drawn) (w : Secrets) (policy : SecretOwner)
    (role_name : string) (spec : GeneratePasswordSpec) :
    Secrets * res PasswordError GeneratedPasswordSecret :=
  match generated_secret_name (E := PasswordError) (so_name policy) role_name spec with
  | Ok secret_name => ensure_named_secret c drawn w policy role_name secret_name spec
  | Err e => (w, Err e)
  | Panic => (w, Panic)
  end.

(** ** Resolution: planning reads and never writes *)

Record PendingGeneratedSecret := {
  pg_role : string;
  pg_spec : GeneratePasswordSpec;
}.
Record ResolvedPassword := {
  rp_cleartext : string;
  rp_source_version : string;
  rp_pending_materialization : option PendingGeneratedSecret;
}.
Definition existing_password (cleartext source_version : string) : ResolvedPassword := {|
  rp_cleartext := cleartext; rp_source_version := source_version; rp_pending_materialization := None |}.

Inductive ResolutionError : Set :=
  | SecretFetch (name namespace : string) (source : KubeError)
  | SecretMissing (name key : string)
  | EmptyPasswordSecret (role secret key : string)
  | PasswordGeneration (e : PasswordError).

Definition resolve_password_from_cache (role_name : string) (password_spec : PasswordSpec)
    (secret_cache : gmap string Secret) : res ResolutionError ResolvedPassword :=
  match pws_secret_ref password_spec with
  | None => Err (SecretMissing "(no secretRef)" role_name)
  | Some secret_ref =>
      let secret_name := sr_name secret_ref in
      let secret_key := default role_name (pws_secret_key password_spec) in
      match secret_cache !! secret_name with
      | None => Err (SecretMissing secret_name secret_key)
      | Some secret =>
          match sc_data secret ≫= (.!! secret_key) with
          | None => Err (SecretMissing secret_name secret_key)
          | Some value_bytes =>
              if negb (is_utf8 value_bytes) then Err (SecretMissing secret_name secret_key)
              else if String.eqb value_bytes "" then Err (EmptyPasswordSecret role_name secret_name secret_key)
              else Ok (existing_password value_bytes (secret_source_version secret secret_name secret_key))
          end
      end
  end.

(** The API server's answers while a resolution runs, and the draws of missing passwords. *)
Record Reading := {
  rd_fetch : string → res KubeError Secret;
  rd_read : string → res KubeError (option Secret);
  rd_draw : string → nat → nat;
}.

Definition fetch_secret (r : Reading) (namespace : string) (cache : gmap string Secret) (role : RoleSpec) :
    res ResolutionError (gmap string Secret) :=
  if rsp_external role then Ok cache
  else match rsp_password role ≫= pws_secret_ref with
       | Some secret_ref =>
           let secret_name := sr_name secret_ref in
           match cache !! secret_name with
           | Some _ => Ok cache
           | None =>
               fetched ← res_map_err (SecretFetch secret_name namespace) (rd_fetch r secret_name);
               Ok (<[secret_name := fetched]> cache)
           end
       | None => Ok cache
       end.

Definition resolve_generated (r : Reading) (policy_name : string) (role : RoleSpec)
    (gen_spec : GeneratePasswordSpec) : res ResolutionError ResolvedPassword :=
  secret_name ← generated_secret_name policy_name (rsp_name role) gen_spec;
  let secret_key := generated_secret_key gen_spec in
  existing ← res_map_err PasswordGeneration (get_generated_secret_opt (rd_read r secret_name) secret_name secret_key);
  match existing with
  | Some existing => Ok (existing_password (gp_password existing) (gp_source_version existing))
  | None =>
      Ok {| rp_cleartext := generate_password (rd_draw r (rsp_name role))
                              (default DEFAULT_PASSWORD_LENGTH (gps_length gen_spec));
            rp_source_version := missing_generated_secret_source_version secret_name secret_key;
            rp_pending_materialization := Some {| pg_role := rsp_name role; pg_spec := gen_spec |} |}
  end.

Definition resolve_role (r : Reading) (policy_name : string) (cache : gmap string Secret)
    (resolved : gmap string ResolvedPassword) (role : RoleSpec) :
    res ResolutionError (gmap string ResolvedPassword) :=
  if rsp_external role then Ok resolved
  else match rsp_password role with
       | None => Ok resolved
       | Some pw =>
           match pws_generate pw, pws_secret_ref pw with
           | Some gen_spec, _ =>
               entry ← resolve_generated r policy_name role gen_spec;
               Ok (<[rsp_name role := entry]> resolved)
           | None, Some _ =>
               password ← resolve_password_from_cache (rsp_name role) pw cache;
               Ok (<[rsp_name role := password]> resolved)
           | None, None => Ok resolved
           end
       end.

Definition resolve_passwords_for_roles (r : Reading) (policy_name namespace : string)
    (role_specs : list RoleSpec) : res ResolutionError (gmap string ResolvedPassword) :=
  secret_cache ← fold_res (fetch_secret r namespace) ∅ role_specs;
  fold_res (resolve_role r policy_name secret_cache) ∅ role_specs.

Definition recorded_source_version_was_real (versions : option (gmap string string)) (role sentinel : string) : bool :=
  match versions ≫= (.!! role) with
  | Some recorded => negb (String.eqb recorded sentinel)
  | None => false
  end.

(** ** Which passwords change *)

(** The first component is what is set, the second the versions it comes from. *)
Definition select_password (created_roles : gset string) (previous_versions : gmap string string)
    (acc : gmap string string * gmap string string) (p : string * ResolvedPassword) :
    gmap string string * gmap string string :=
  let '(role, resolved) := p in
  (if bool_decide (role ∈ created_roles) ||
      bool_decide (is_Some (rp_pending_materialization resolved)) ||
      negb (bool_decide (previous_versions !! role = Some (rp_source_version resolved)))
   then <[role := rp_cleartext resolved]> acc.1 else acc.1,
   <[role := rp_source_version resolved]> acc.2).

Definition select_password_changes (changes : list Change) (resolved_passwords : gmap string ResolvedPassword)
    (status : option (gmap string string)) : gmap string string * gmap string string :=
  foldl (select_password (list_to_set (omap created_role changes)) (default ∅ status)) (∅, ∅)
    (map_iter resolved_passwords).

(** ** Materialisation: the Secret is written before the SQL runs *)

Definition set_role_password (role verifier : string) (change : Change) : Change :=
  match change with
  | Change.SetPassword name _ => if String.eqb name role then Change.SetPassword name verifier else change
  | _ => change
  end.

(** One role; [t] is what is known so far: the Secrets, the changes, the versions. *)
Definition materialize_one (circumstance : string → Circumstance) (drawn : string → Drawn) (policy : SecretOwner)
    (t : Secrets * list Change * gmap string string) (p : string * ResolvedPassword) :
    Secrets * res PasswordError (list Change * gmap string string) :=
  let '(w, changes, versions) := t in
  match rp_pending_materialization p.2 with
  | None => (w, Ok (changes, versions))
  | Some pending =>
      let role := pg_role pending in
      match ensure_generated_secret (circumstance role) (drawn role) w policy role (pg_spec pending) with
      | (w, Ok materialized) =>
          let versions := <[role := gp_source_version materialized]> versions in
          let changes :=
            if String.eqb (gp_password materialized) (rp_cleartext p.2) then changes
            else set_role_password role (compute_verifier (dr_rebuild_salt (drawn role)) (gp_password materialized)) <$> changes in
          (w, Ok (changes, versions))
      | (w, Err e) => (w, Err e)
      | (w, Panic) => (w, Panic)
      end
  end.

Fixpoint materialize_all (circumstance : string → Circumstance) (drawn : string → Drawn) (policy : SecretOwner)
    (w : Secrets) (changes : list Change) (versions : gmap string string)
    (l : list (string * ResolvedPassword)) : Secrets * res PasswordError (list Change * gmap string string) :=
  match l with
  | [] => (w, Ok (changes, versions))
  | p :: l =>
      match materialize_one circumstance drawn policy (w, changes, versions) p with
      | (w, Ok (changes, versions)) => materialize_all circumstance drawn policy w changes versions l
      | (w, Err e) => (w, Err e)
      | (w, Panic) => (w, Panic)
      end
  end.

Definition materialize_pending_generated_secrets (circumstance : string → Circumstance) (drawn : string → Drawn)
    (policy : SecretOwner) (w : Secrets) (resolved_passwords : gmap string ResolvedPassword)
    (changes : list Change) (versions : gmap string string) :
    Secrets * res PasswordError (list Change * gmap string string) :=
  materialize_all circumstance drawn policy w changes versions (map_iter resolved_passwords).
End scram.
