(* ===== verification/PolicySecretsFacts.v ===== *)
(** * Facts about passwords and their Secrets

    A generated Secret is read back as it was written, and what a plan sets in the database
    is what the Secrets hold. *)

From Stdlib Require Import Ascii.
From S2P Require Import Prelude BTree RustStr Types Model Change Plan Approval PlanStatus PlanSql Durations Clock K8sNames ContentDigest CandidateStatus Promotion PolicySpec PolicySecrets.

(** ** Generated passwords *)

Lemma ascii_utf8 s : all_bytes (in_range 0 127) s = true → is_utf8 s = true.
Proof.
  induction s as [|a s IH]; [done|]. cbn [all_bytes]. intros [Ha Hs]%andb_true_iff.
  cbn [is_utf8]. rw Ha. by apply IH.
Qed.

Definition in_charset (c : string) : Prop := c ∈ chars CHARSET.

Lemma charset_length : length (chars CHARSET) = 74.
Proof. vm_compute. reflexivity. Qed.

Lemma charset_char_in i : i < 74 → in_charset (charset_char i).
Proof.
  rw -charset_length. unfold charset_char, in_charset. generalize (chars CHARSET). intros l Hi.
  destruct (lookup_lt_is_Some_2 l i Hi) as [c Hc]. rw Hc. by eapply list_elem_of_lookup_2.
Qed.

Lemma in_charset_ascii c : in_charset c → all_bytes (in_range 0 127) c = true ∧ String.length c = 1.
Proof.
  intros Hc.
  assert (Forall (λ c, all_bytes (in_range 0 127) c = true ∧ String.length c = 1) (chars CHARSET)) as H.
  { apply Forall_forall. intros x Hx.
    assert (forallb (λ c, all_bytes (in_range 0 127) c && Nat.eqb (String.length c) 1) (chars CHARSET) = true) as Hall
      by (vm_compute; reflexivity).
    rw forallb_forall in Hall. specialize (Hall x ltac:(by apply list_elem_of_In)).
    apply andb_true_iff in Hall as [? ?%Nat.eqb_eq]. done. }
  rw Forall_forall in H. by apply H.
Qed.

Lemma concat_charset cs :
  Forall in_charset cs →
  all_bytes (in_range 0 127) (concat_all cs) = true ∧ String.length (concat_all cs) = length cs.
Proof.
  induction 1 as [|c cs Hc Hcs [IH1 IH2]]; [done|]. apply in_charset_ascii in Hc as [H1 H2]. cbn.
  rw all_bytes_app str_length_app H1 H2 IH1 IH2. done.
Qed.

(** The length is the requested one within the bounds, and the password is text. *)
Lemma generate_password_spec draw length :
  (∀ i, draw i < 74) →
  let p := generate_password draw length in
  (∃ cs, p = concat_all cs ∧ Forall in_charset cs) ∧
  String.length p = N.to_nat (N.min 128 (N.max 16 length)) ∧ is_utf8 p = true ∧ p ≠ "".
Proof.
  intros Hd p. unfold p, generate_password.
  set (cs := (λ i, charset_char (draw i)) <$> seq 0 (N.to_nat (N.min MAX_PASSWORD_LENGTH (N.max MIN_PASSWORD_LENGTH length)))).
  assert (Forall in_charset cs) as Hcs.
  { apply Forall_fmap, Forall_forall. intros i _. by apply charset_char_in. }
  destruct (concat_charset cs Hcs) as [H1 H2].
  assert (String.length (concat_all cs) = N.to_nat (N.min 128 (N.max 16 length))) as Hl.
  { rw H2. unfold cs. by rw length_fmap length_seq. }
  split_and!; [by exists cs|done|by apply ascii_utf8|].
  intros He. rw He in Hl. cbn in Hl. lia.
Qed.

(** ** The default name of a Secret is a name *)

Lemma lower_byte_alnum c :
  let n := to_ascii_lowercase c in
  is_ascii_lowercase n || is_ascii_digit n = true → ∃ b, n = String b "" ∧ is_lower_alnum b = true.
Proof.
  cbn zeta. generalize (to_ascii_lowercase c). intros n. destruct n as [|b [|]]; [done| |].
  - intros H. exists b. split; [done|]. unfold is_lower_alnum. exact H.
  - intros H. exfalso. unfold is_ascii_lowercase, is_ascii_digit, ascii_char in H. done.
Qed.

(** What the loop has built is empty or is scanned, its flag the last byte. *)
Definition sanitized_ok (acc : string * bool) : Prop :=
  (acc.1 = "" ∧ acc.2 = false) ∨
  (acc.1 ≠ "" ∧ scan Scan.Start acc.1 = Some (if acc.2 then Scan.Dash else Scan.Alnum)).

Lemma dns_step_ok acc ch : sanitized_ok acc → sanitized_ok (dns_step acc ch).
Proof.
  destruct acc as [result last]. unfold dns_step.
  destruct (is_ascii_lowercase _ || is_ascii_digit _) eqn:Hn.
  - apply lower_byte_alnum in Hn as (b & -> & Hb). intros H. right. cbn [fst snd]. split.
    { by destruct result. }
    assert (∀ st, scan st (String b "") = Some Scan.Alnum) as Hs.
    { intros st. apply scan_alnum; [|done]. cbn. by rw Hb. }
    unfold sanitized_ok in H. cbn [fst snd] in H. destruct H as [[-> ->]|[Hne Hs1]].
    + rw str_app_nil_l. apply Hs.
    + by rw (scan_then _ _ _ _ Hs1).
  - intros H. destruct (negb last && negb (String.eqb result "")) eqn:Hc; [|done].
    apply andb_true_iff in Hc as [Hl%negb_true_iff Hr%negb_true_iff]. subst last. apply String.eqb_neq in Hr.
    unfold sanitized_ok in H. cbn [fst snd] in H. destruct H as [[? _]|[_ Hs1]]; [done|].
    right. cbn [fst snd]. split; [by destruct result|].
    by rw (scan_then _ _ _ _ Hs1).
Qed.

Lemma dns_steps_ok l acc : sanitized_ok acc → sanitized_ok (foldl dns_step acc l).
Proof. revert acc. induction l as [|c l IH]; intros acc; [done|]. intros H. by apply IH, dns_step_ok. Qed.

(** Trimming the dashes at the end of a scanned label leaves an alphanumeric end. *)
Lemma dash_trimmed bs st :
  scan Scan.Start (str bs) = Some st → st ≠ Scan.Start →
  scan Scan.Start (str (trim_end (is_char "-") bs)) = Some Scan.Alnum.
Proof.
  intros Hs Hst. destruct (trim_end_spec (is_char "-") bs) as (cut & Heq & Hcut & Hlast & Hhead).
  assert (trim_end (is_char "-") bs ≠ []) as Hne.
  { destruct bs as [|b bs]; [by injection Hs as <-|]. apply (Hhead b); [done|]. rw str_cons in Hs.
    apply start_byte in Hs. rw separator_byte in Hs. by apply orb_false_iff in Hs as [_ ?]. }
  rw Heq str_app label_scan_app in Hs.
  destruct (last (trim_end (is_char "-") bs)) as [x|] eqn:Hl; [|by apply last_None in Hl].
  specialize (Hlast x eq_refl). apply last_Some in Hl as [k Hk]. rw Hk in Hs. rw Hk.
  rw str_app label_scan_app. rw str_app label_scan_app in Hs.
  destruct (scan Scan.Start (str k)) as [st2|]; [|done]. cbn [mbind option_bind] in *.
  change (str [x]) with (String x "") in *. cbn [scan] in *.
  destruct (scan_step st2 x) as [st3|] eqn:H3; [|done]. cbn [mbind option_bind] in *.
  destruct st3; [|done|].
  - destruct cut as [|c cut]; [by injection Hs as <-|]. apply Forall_cons in Hcut as [Hc _].
    unfold is_char in Hc. apply Ascii.eqb_eq in Hc as ->. done.
  - unfold scan_step, is_char in *. rw Hlast in H3. destruct (is_lower_alnum x); [done|].
    destruct (Ascii.eqb x "."); [|done]. by destruct st2.
Qed.

Lemma eqb_dash b : String.eqb "-" (String b "") = is_char "-" b.
Proof.
  unfold is_char. destruct (Ascii.eqb_spec b "-") as [->|Hb]; [done|].
  apply String.eqb_neq. intros [= ?]. congruence.
Qed.

Lemma sanitize_dns_scan input fallback :
  scan Scan.Start fallback = Some Scan.Alnum →
  scan Scan.Start (sanitize_dns_label_segment input fallback) = Some Scan.Alnum.
Proof.
  intros Hf. unfold sanitize_dns_label_segment.
  pose proof (dns_steps_ok (chars input) ("", false) (or_introl (conj eq_refl eq_refl))) as H.
  destruct (foldl dns_step ("", false) (chars input)) as [result last].
  unfold sanitized_ok in H. cbn [fst snd] in *. destruct H as [[-> _]|[Hne Hs]]; [done|].
  rw (str_of_string result) in Hs. rw (str_of_string result).
  revert Hs. generalize (String.list_ascii_of_string result). intros bs Hs.
  assert (scan Scan.Start (str (trim_end (is_char "-") bs)) = Some Scan.Alnum) as Ht
    by (eapply dash_trimmed; [exact Hs|by destruct last]).
  rw trim_end_matches_ascii; [|by eapply scan_bytes_ascii].
  assert (∀ l, trim_end (λ b, String.eqb "-" (String b "")) l = trim_end (is_char "-") l) as Htr.
  { intros l. unfold trim_end. f_equal. generalize (reverse l). intros k. induction k as [|b k IH]; [done|].
    cbn [drop_while]. by rw IH eqb_dash. }
  rw Htr. revert Ht. generalize (trim_end (is_char "-") bs). intros ts Ht.
  rw chars_ascii; [|by eapply scan_bytes_ascii].
  destruct ts as [|b ts]; [done|].
  rw (drop_while_id _ _ (String b "")); [|done|].
  - rw concat_singles. by rw str_cons; cbn [String.eqb]; rw -str_cons.
  - rw str_cons in Ht. pose proof (start_byte _ _ _ Ht) as Hb. rw separator_byte in Hb.
    apply orb_false_iff in Hb as [_ Hb]. by rw eqb_dash.
Qed.

(** Whatever the names, the default name of a generated Secret is one Kubernetes accepts. *)
Lemma default_secret_name_valid {E} policy_name role_name :
  ∃ name, default_generated_secret_name (E := E) policy_name role_name = Ok name ∧
    is_valid_secret_name name = true.
Proof.
  unfold default_generated_secret_name.
  pose proof (sanitize_dns_scan policy_name "policy" eq_refl) as Hp.
  pose proof (sanitize_dns_scan role_name "role" eq_refl) as Hr.
  destruct (truncated_prefix (E := E) (sanitize_dns_label_segment policy_name "policy" +:+ "-pgr-" +:+
    sanitize_dns_label_segment role_name "role") MAX_SECRET_NAME_LENGTH) as (name & -> & Hlen & Hscan).
  - rw (scan_then _ _ _ _ Hp). rw (scan_then Scan.Alnum "-pgr-" _ Scan.Dash); [|done].
    revert Hr. generalize (sanitize_dns_label_segment role_name "role"). intros s Hs.
    assert (∀ st, scan Scan.Start s = Some st → s ≠ "" → scan Scan.Dash s = Some st) as Hds.
    { intros st. destruct s as [|a s']; [done|]. cbn [scan]. unfold scan_step.
      destruct (is_lower_alnum a); [done|]. destruct (Ascii.eqb a "-"); [done|]. by destruct (Ascii.eqb a "."). }
    rw (Hds _ Hs); [done|]. by destruct s.
  - unfold MAX_SECRET_NAME_LENGTH, MAX_RESOURCE_NAME_LENGTH. lia.
  - cbn [mbind res_bind]. exists name. destruct (String.eqb_spec name "") as [->|Hne]; [done|]. split; [done|].
    apply valid_name_scan. rw Hscan. done.
Qed.

(** ** What [ensure_generated_secret] leaves *)

Section settle.
Context (compute_verifier : string → string → string).

Definition draws_ok (draw : nat → nat) : Prop := ∀ i, draw i < 74.
(** Other writers add Secrets and change none. *)
Definition only_adds (c : Circumstance) : Prop := ∀ w, w ⊆ ci_others c w.

Lemma from_existing_version secret n k m :
  generated_password_from_existing_secret secret n k = Ok m →
  gp_source_version m = secret_source_version secret n k ∧
  sc_data secret ≫= (.!! k) = Some (gp_password m) ∧ is_utf8 (gp_password m) = true ∧ gp_password m ≠ "".
Proof.
  unfold generated_password_from_existing_secret. destruct (_ ≫= _) as [v|]; [|done].
  destruct (is_utf8 v) eqn:Hu; [|done]. cbn. destruct (String.eqb_spec v ""); [done|]. by intros [= <-].
Qed.

(** The Secret just written gives back the password it was made for. *)
Lemma generated_secret_reads policy role key password verifier version name :
  key ≠ GENERATED_VERIFIER_KEY → is_utf8 password = true → password ≠ "" →
  let secret := generated_secret policy role key password verifier version in
  generated_password_from_existing_secret secret name key =
    Ok {| gp_password := password; gp_source_version := secret_source_version secret name key |}.
Proof.
  intros Hk Hu Hne secret. unfold generated_password_from_existing_secret. cbn [sc_data secret generated_secret mbind option_bind].
  rw lookup_insert_ne; [|done]. rw lookup_singleton_eq Hu. cbn. by apply String.eqb_neq in Hne as ->.
Qed.

(** A successful call leaves the Secret, holding the password it returned. *)
Lemma ensure_holds c drawn w policy role name spec w' m :
  generated_secret_key spec ≠ GENERATED_VERIFIER_KEY → draws_ok (dr_draw drawn) → only_adds c →
  ensure_named_secret compute_verifier c drawn w policy role name spec = (w', Ok m) →
  w ⊆ w' ∧ ∃ secret, w' !! name = Some secret ∧
    generated_password_from_existing_secret secret name (generated_secret_key spec) = Ok m.
Proof.
  intros Hk Hd Hadds. unfold ensure_named_secret, get_generated_secret_opt, get_opt.
  destruct (ci_read c); [done|]. cbn [res_map_err mbind res_bind].
  destruct (w !! name) as [secret|] eqn:Hw.
  - destruct (generated_password_from_existing_secret _ _ _) eqn:Hg; cbn; [|done..].
    intros [= <- <-]. split; [done|]. by exists secret.
  - unfold create. destruct (ci_create c) as [[code|]|] eqn:Hc.
    + destruct (code =? 409)%N; [|done]. unfold get. destruct (ci_reread c); [done|].
      destruct (ci_others c w !! name) as [secret|] eqn:Hs; [|done]. cbn [res_map_err mbind res_bind].
      intros [= <- Hm]. split; [apply Hadds|]. by exists secret.
    + done.
    + destruct (ci_others c w !! name) as [secret|] eqn:Hs.
      * change (409 =? 409)%N with true. cbv iota. unfold get. destruct (ci_reread c); [done|]. rw Hs.
        cbn [res_map_err mbind res_bind]. intros [= <- Hm]. split; [apply Hadds|]. by exists secret.
      * intros [= <- <-]. split.
        { etrans; [apply Hadds|]. by apply insert_subseteq. }
        eexists. rw lookup_insert_eq. split; [done|].
        destruct (generate_password_spec (dr_draw drawn) (default DEFAULT_PASSWORD_LENGTH (gps_length spec)) Hd)
          as (_ & _ & Hu & Hne). by apply generated_secret_reads.
Qed.

(** ** Resolution against a store *)

Definition faithful (r : Reading) (w : Secrets) : Prop :=
  (∀ n, rd_fetch r n = get None w n) ∧ (∀ n, rd_read r n = Ok (w !! n)).

(** What one role resolves to. *)
Definition role_password (r : Reading) (policy_name : string) (w : Secrets) (role : RoleSpec) :
    res ResolutionError (option ResolvedPassword) :=
  if rsp_external role then Ok None
  else match rsp_password role with
       | None => Ok None
       | Some pw =>
           match pws_generate pw, pws_secret_ref pw with
           | Some gen_spec, _ => Some <$> resolve_generated r policy_name role gen_spec
           | None, Some _ => Some <$> resolve_password_from_cache (rsp_name role) pw w
           | None, None => Ok None
           end
       end.

(** The Secret a role refers to, which is read first. *)
Definition fetched (role : RoleSpec) : option string :=
  if rsp_external role then None else sr_name <$> (rsp_password role ≫= pws_secret_ref).

Definition put (m : gmap string ResolvedPassword) (p : string * option ResolvedPassword) :
    gmap string ResolvedPassword :=
  match p.2 with Some e => <[p.1 := e]> m | None => m end.

Lemma fetch_all r w ns roles cache :
  faithful r w → cache ⊆ w →
  (∀ cache', fold_res (fetch_secret r ns) cache roles = Ok cache' →
     cache ⊆ cache' ∧ cache' ⊆ w ∧ ∀ role n, role ∈ roles → fetched role = Some n → is_Some (cache' !! n)) ∧
  ((∀ role n, role ∈ roles → fetched role = Some n → is_Some (w !! n)) →
   ∃ cache', fold_res (fetch_secret r ns) cache roles = Ok cache').
Proof.
  intros [Hf _]. revert cache. induction roles as [|role roles IH]; intros cache Hc; cbn [fold_res].
  { split; [|by eexists]. intros ? [= <-]. split_and!; [done..|]. intros role n Hin. by apply not_elem_of_nil in Hin. }
  assert (∀ cache1, fetch_secret r ns cache role = Ok cache1 → cache ⊆ cache1 ∧ cache1 ⊆ w ∧
    ∀ n, fetched role = Some n → is_Some (cache1 !! n)) as Hone.
  { intros cache1. unfold fetch_secret, fetched. destruct (rsp_external role); [by intros [= <-]|].
    destruct (rsp_password role ≫= pws_secret_ref) as [sr|]; [|by intros [= <-]]. cbn [fmap option_fmap option_map].
    destruct (cache !! sr_name sr) eqn:Hl.
    - intros [= <-]. split_and!; [done..|]. intros n [= <-]. by rw Hl.
    - rw Hf. unfold get. destruct (w !! sr_name sr) as [s|] eqn:Hs; [|done]. cbn. intros [= <-].
      split_and!; [by apply insert_subseteq| |intros n [= <-]; by rw lookup_insert_eq].
      by apply insert_subseteq_l. }
  split.
  - intros cache'. rw bind_Ok. intros (cache1 & H1 & Hrest). destruct (Hone _ H1) as (Ha & Hb & Hn).
    destruct (proj1 (IH cache1 Hb) _ Hrest) as (Hc1 & Hc2 & Hc3). split_and!; [by etrans|done|].
    intros role' n [->|Hin]%elem_of_cons Hfn; [|by eapply Hc3]. destruct (Hn n Hfn) as [s Hs].
    exists s. by eapply lookup_weaken.
  - intros Hall. assert (∃ cache1, fetch_secret r ns cache role = Ok cache1) as [cache1 H1].
    { specialize (Hall role). unfold fetch_secret. unfold fetched in Hall.
      destruct (rsp_external role); [by eexists|].
      destruct (rsp_password role ≫= pws_secret_ref) as [sr|]; [|by eexists].
      destruct (cache !! sr_name sr); [by eexists|]. rw Hf. unfold get.
      destruct (Hall (sr_name sr) ltac:(left) eq_refl) as [s ->]. by eexists. }
    rw H1. cbn [mbind res_bind]. apply (IH cache1); [by apply Hone|]. intros role' n Hin. apply Hall. by right.
Qed.

Lemma resolve_role_spec r policy_name w cache resolved role :
  cache ⊆ w → (∀ n, fetched role = Some n → is_Some (cache !! n)) →
  resolve_role r policy_name cache resolved role =
  (o ← role_password r policy_name w role; Ok (put resolved (rsp_name role, o))).
Proof.
  intros Hc Hf. unfold resolve_role, role_password, fetched in *. destruct (rsp_external role); [done|].
  destruct (rsp_password role) as [pw|]; [|done]. destruct (pws_generate pw).
  { by destruct (resolve_generated r policy_name role _). }
  cbn [mbind option_bind] in Hf. destruct (pws_secret_ref pw) as [sr|] eqn:Hsr; [|done].
  assert (resolve_password_from_cache (rsp_name role) pw cache = resolve_password_from_cache (rsp_name role) pw w) as ->.
  { unfold resolve_password_from_cache. rw Hsr. destruct (Hf (sr_name sr) eq_refl) as [s Hs].
    by rw Hs (lookup_weaken _ _ _ _ Hs Hc). }
  by destruct (resolve_password_from_cache _ _ _).
Qed.

Definition password_of (r : Reading) (policy_name : string) (w : Secrets) (role : RoleSpec) : option ResolvedPassword :=
  match role_password r policy_name w role with Ok o => o | _ => None end.
Definition put_role (r : Reading) (policy_name : string) (w : Secrets) (m : gmap string ResolvedPassword) (role : RoleSpec) :
    gmap string ResolvedPassword := put m (rsp_name role, password_of r policy_name w role).

Lemma resolve_roles r policy_name w cache roles acc :
  cache ⊆ w → (∀ role n, role ∈ roles → fetched role = Some n → is_Some (cache !! n)) →
  (∀ resolved, fold_res (resolve_role r policy_name cache) acc roles = Ok resolved →
     resolved = foldl (put_role r policy_name w) acc roles ∧
     ∀ role, role ∈ roles → ∃ o, role_password r policy_name w role = Ok o) ∧
  ((∀ role, role ∈ roles → ∃ o, role_password r policy_name w role = Ok o) →
   fold_res (resolve_role r policy_name cache) acc roles = Ok (foldl (put_role r policy_name w) acc roles)).
Proof.
  intros Hc. revert acc. induction roles as [|role roles IH]; intros acc Hf; cbn [fold_res foldl].
  { split; [|done]. intros ? [= <-]. split; [done|]. intros role Hin. by apply not_elem_of_nil in Hin. }
  rw (resolve_role_spec _ _ w); [|done|]; [|intros n; apply Hf; left].
  assert (∀ role' n, role' ∈ roles → fetched role' = Some n → is_Some (cache !! n)) as Hf'
    by (intros role' n Hin; apply Hf; by right).
  split.
  - intros resolved. rw !bind_Ok. intros (acc1 & (o & Ho & [= <-])%bind_Ok & Hrest).
    destruct (proj1 (IH _ Hf') _ Hrest) as [-> Hall]. unfold put_role at 3, password_of. rw Ho.
    split; [done|]. intros role' [->|Hin]%elem_of_cons; [by eexists|by apply Hall].
  - intros Hall. destruct (Hall role ltac:(left)) as [o Ho]. rw Ho. cbn [mbind res_bind].
    unfold put_role at 2, password_of. rw Ho. apply (IH _ Hf'). intros role' Hin. apply Hall. by right.
Qed.

(** A resolution is decided role by role. *)
Lemma resolve_spec r w policy_name ns roles :
  faithful r w →
  (∀ resolved, resolve_passwords_for_roles r policy_name ns roles = Ok resolved →
     resolved = foldl (put_role r policy_name w) ∅ roles ∧
     (∀ role, role ∈ roles → ∃ o, role_password r policy_name w role = Ok o) ∧
     ∀ role n, role ∈ roles → fetched role = Some n → is_Some (w !! n)) ∧
  ((∀ role, role ∈ roles → ∃ o, role_password r policy_name w role = Ok o) →
   (∀ role n, role ∈ roles → fetched role = Some n → is_Some (w !! n)) →
   resolve_passwords_for_roles r policy_name ns roles = Ok (foldl (put_role r policy_name w) ∅ roles)).
Proof.
  intros Hr. unfold resolve_passwords_for_roles.
  destruct (fetch_all r w ns roles ∅ Hr (map_empty_subseteq _)) as [Hf Ht]. split.
  - intros resolved (cache & Hcache & Hres)%bind_Ok. destruct (Hf _ Hcache) as (_ & Hcw & Hn).
    destruct (proj1 (resolve_roles r policy_name w cache roles ∅ Hcw Hn) _ Hres) as [-> Hall].
    split_and!; [done..|]. intros role n Hin Hfn. destruct (Hn role n Hin Hfn) as [s Hs].
    exists s. by eapply lookup_weaken.
  - intros Hall Hn. destruct (Ht Hn) as [cache Hcache]. rw Hcache. cbn [mbind res_bind].
    destruct (Hf _ Hcache) as (_ & Hcw & Hn'). by apply resolve_roles.
Qed.

Lemma lookup_put_roles r policy_name w roles acc n e :
  NoDup (rsp_name <$> roles) →
  foldl (put_role r policy_name w) acc roles !! n = Some e ↔
  (∃ role, role ∈ roles ∧ rsp_name role = n ∧ password_of r policy_name w role = Some e) ∨
  (acc !! n = Some e ∧ ∀ role, role ∈ roles → rsp_name role = n → password_of r policy_name w role = None).
Proof.
  revert acc. induction roles as [|role roles IH]; intros acc; cbn [foldl fmap list_fmap].
  { intros _. split; [intros H; right; split; [done|]; intros role Hin; by apply not_elem_of_nil in Hin|].
    intros [(role & Hin & _)|[? _]]; [by apply not_elem_of_nil in Hin|done]. }
  intros [Hn Hd]%NoDup_cons. rw (IH _ Hd).
  assert (∀ role', role' ∈ roles → rsp_name role' ≠ rsp_name role) as Hother.
  { intros role' Hin He. apply Hn. rw -He. by apply list_elem_of_fmap_2. }
  unfold put_role, put. cbn [fst snd]. split.
  - intros [(role' & Hin & <- & Hp)|[Ha Hnone]]; [left; exists role'; split_and!; [by right|done..]|].
    destruct (password_of r policy_name w role) as [e'|] eqn:Hp.
    + apply lookup_insert_Some in Ha as [[<- <-]|[Hne Ha]].
      * left. exists role. split_and!; [left|done..].
      * right. split; [done|]. intros role' [->|Hin]%elem_of_cons; [done|by apply Hnone].
    + right. split; [done|]. intros role' [->|Hin]%elem_of_cons; [done|by apply Hnone].
  - intros [(role' & [->|Hin]%elem_of_cons & <- & Hp)|[Ha Hnone]].
    + right. rw Hp lookup_insert_eq. split; [done|]. intros role' Hin He. by destruct (Hother _ Hin).
    + left. by exists role'.
    + right. split; [|intros role' Hin; apply Hnone; by right].
      destruct (password_of r policy_name w role) as [e'|] eqn:Hp; [|done].
      rw lookup_insert_ne; [done|]. intros He. rw (Hnone role ltac:(left) He) in Hp. done.
Qed.

(** ** Materialisation *)

Lemma set_role_password_in role x (changes : list Change) role' v :
  Change.SetPassword role' v ∈ (set_role_password role x <$> changes) →
  (role' = role ∧ v = x) ∨ (role' ≠ role ∧ Change.SetPassword role' v ∈ changes).
Proof.
  intros (c & Hc & Hin)%list_elem_of_fmap. destruct c; try done. cbn in Hc.
  destruct (String.eqb_spec name role) as [->|Hne]; injection Hc as -> ->; [by left|by right].
Qed.

(** What is set for a role that held a pending password. *)
Definition settled (policy_name : string) (w : Secrets) (changes changes' : list Change) (versions' : gmap string string)
    (role : string) (e : ResolvedPassword) (pending : PendingGeneratedSecret) : Prop :=
  ∃ name m secret, generated_secret_name (E := PasswordError) policy_name role (pg_spec pending) = Ok name ∧
    w !! name = Some secret ∧
    generated_password_from_existing_secret secret name (generated_secret_key (pg_spec pending)) = Ok m ∧
    versions' !! role = Some (gp_source_version m) ∧
    ∀ v, Change.SetPassword role v ∈ changes' →
      (gp_password m = rp_cleartext e ∧ Change.SetPassword role v ∈ changes) ∨
      ∃ salt, v = compute_verifier salt (gp_password m).

Definition pending_ok (p : string * ResolvedPassword) : Prop :=
  ∀ pending, rp_pending_materialization p.2 = Some pending →
    pg_role pending = p.1 ∧ generated_secret_key (pg_spec pending) ≠ GENERATED_VERIFIER_KEY.

Lemma materialize_one_spec circumstance drawn policy w changes versions p w1 changes1 versions1 :
  (∀ role, draws_ok (dr_draw (drawn role))) → (∀ role, only_adds (circumstance role)) → pending_ok p →
  materialize_one compute_verifier circumstance drawn policy (w, changes, versions) p = (w1, Ok (changes1, versions1)) →
  w ⊆ w1 ∧
  (∀ role, (role = p.1 → rp_pending_materialization p.2 = None) →
     versions1 !! role = versions !! role ∧
     ∀ v, Change.SetPassword role v ∈ changes1 → Change.SetPassword role v ∈ changes) ∧
  (∀ pending, rp_pending_materialization p.2 = Some pending →
     settled (so_name policy) w1 changes changes1 versions1 p.1 p.2 pending).
Proof.
  intros Hd Ha Hp. destruct p as [k e]. unfold materialize_one. cbn [fst snd] in *.
  unfold pending_ok in Hp. cbn [fst snd] in Hp.
  destruct (rp_pending_materialization e) as [pending|] eqn:Hpe.
  2:{ intros [= <- <- <-]. split_and!; [done| |done]. by intros role _. }
  destruct (Hp pending eq_refl) as [Hrole Hkey]. rw Hrole. unfold ensure_generated_secret.
  destruct (generated_secret_name (so_name policy) k (pg_spec pending)) as [name| |] eqn:Hname; [|done..].
  destruct (ensure_named_secret _ _ _ _ _ _ _ _) as [w2 [m| |]] eqn:Hens; [|done..].
  apply ensure_holds in Hens as (Hww & secret & Hs & Hfrom); [|done..].
  intros [= <- <- <-]. split; [done|]. split.
  - intros role Hne. assert (role ≠ k) as Hrk by (intros ->; by specialize (Hne eq_refl)).
    rw lookup_insert_ne; [|done]. split; [done|]. intros v.
    destruct (String.eqb (gp_password m) (rp_cleartext e)); [done|].
    by intros [[-> _]|[_ ?]]%set_role_password_in.
  - intros ? [= <-]. exists name, m, secret. rw lookup_insert_eq. split_and!; [done..|]. intros v.
    destruct (String.eqb_spec (gp_password m) (rp_cleartext e)) as [He|He]; [by left|].
    intros [[_ ->]|[Hne _]]%set_role_password_in; [by right; eexists|done].
Qed.

Lemma materialize_all_spec circumstance drawn policy w changes versions l w' changes' versions' :
  (∀ role, draws_ok (dr_draw (drawn role))) → (∀ role, only_adds (circumstance role)) →
  NoDup l.*1 → Forall pending_ok l →
  materialize_all compute_verifier circumstance drawn policy w changes versions l = (w', Ok (changes', versions')) →
  w ⊆ w' ∧
  (∀ role, (∀ e, (role, e) ∈ l → rp_pending_materialization e = None) →
     versions' !! role = versions !! role ∧
     ∀ v, Change.SetPassword role v ∈ changes' → Change.SetPassword role v ∈ changes) ∧
  (∀ role e pending, (role, e) ∈ l → rp_pending_materialization e = Some pending →
     settled (so_name policy) w' changes changes' versions' role e pending).
Proof.
  intros Hd Ha. revert w changes versions. induction l as [|p l IH]; intros w changes versions Hnd Hok; cbn [materialize_all].
  { intros [= <- <- <-]. split_and!; [done..|]. intros role e ? Hin. by apply not_elem_of_nil in Hin. }
  cbn [fmap list_fmap] in Hnd. apply NoDup_cons in Hnd as [Hp Hnd]. apply Forall_cons in Hok as [Hpo Hok].
  destruct (materialize_one _ _ _ _ _ _) as [w1 [[changes1 versions1]| |]] eqn:H1; [|done..].
  destruct (materialize_one_spec _ _ _ _ _ _ _ _ _ _ Hd Ha Hpo H1) as (Hw1 & Hsame1 & Hset1).
  intros (Hw2 & Hsame2 & Hset2)%(IH w1 changes1 versions1 Hnd Hok).
  assert (∀ role, role = p.1 → ∀ e, (role, e) ∈ l → False) as Hout.
  { intros role -> e Hin. apply Hp. by apply (list_elem_of_fmap_2 fst) in Hin. }
  split; [by etrans|]. split.
  - intros role Hnone. destruct (Hsame2 role) as [Hv2 Hc2]; [intros e Hin; apply Hnone; by right|].
    destruct (Hsame1 role) as [Hv1 Hc1].
    { intros ->. apply Hnone. destruct p. left. }
    split; [by rw Hv2|]. intros v Hin. by apply Hc1, Hc2.
  - intros role e pending [Hhead|Hin]%elem_of_cons Hpe.
    + subst p. cbn [fst snd] in *. destruct (Hset1 pending Hpe) as (name & m & secret & Hname & Hs & Hfrom & Hv & Hch).
      destruct (Hsame2 role) as [Hv2 Hc2]; [intros e' Hin; by destruct (Hout role eq_refl e')|].
      exists name, m, secret. split_and!; [done|by eapply lookup_weaken|done|by rw Hv2|].
      intros v Hin. by apply Hch, Hc2.
    + destruct (Hset2 role e pending Hin Hpe) as (name & m & secret & Hname & Hs & Hfrom & Hv & Hch).
      exists name, m, secret. split_and!; [done..|]. intros v Hv'. destruct (Hch v Hv') as [[He Hin1]|?]; [|by right].
      left. split; [done|]. apply (Hsame1 role); [|done]. intros ->. by destruct (Hout p.1 eq_refl e).
Qed.

(** ** Selection *)

Lemma select_versions changes resolved status :
  (select_password_changes changes resolved status).2 = rp_source_version <$> resolved.
Proof.
  unfold select_password_changes. apply map_eq. intros k. rw lookup_fmap.
  assert (∀ l acc, NoDup l.*1 →
    (foldl (select_password (list_to_set (omap created_role changes)) (default ∅ status)) acc l).2 !! k =
    match list_find (λ p, p.1 = k) l with Some (_, p) => Some (rp_source_version p.2) | None => acc.2 !! k end) as H.
  { induction l as [|[n e] l IH]; intros acc; [done|]. cbn [foldl fmap list_fmap].
    intros [Hn Hd]%NoDup_cons. rw (IH _ Hd). cbn [list_find fst].
    destruct (decide (n = k)) as [->|Hne].
    - destruct (list_find (λ p, p.1 = k) l) as [[i p]|] eqn:Hf.
      + apply list_find_Some in Hf as (Hl & Hp & _). destruct Hn. rw -Hp.
        exact (list_elem_of_fmap_2 fst _ _ (list_elem_of_lookup_2 _ _ _ Hl)).
      + cbn. by rw lookup_insert_eq.
    - destruct (list_find (λ p, p.1 = k) l) as [[i p]|]; [done|]. cbn. by rw lookup_insert_ne. }
  rw H; [|apply NoDup_map_keys]. destruct (list_find _ _) as [[i [k' e]]|] eqn:Hf.
  - apply list_find_Some in Hf as (Hl & Hp & _). cbn in Hp. subst k'. apply list_elem_of_lookup_2 in Hl.
    apply elem_of_map_iter in Hl. by rw Hl.
  - cbn. rw lookup_empty. destruct (resolved !! k) as [e|] eqn:Hk; [|done].
    apply list_find_None in Hf. rw Forall_forall in Hf. apply elem_of_map_iter in Hk.
    by specialize (Hf (k, e) Hk).
Qed.

(** Nothing is selected when every version is the recorded one. *)
Lemma select_nothing changes resolved versions :
  omap created_role changes = [] →
  (∀ role e, resolved !! role = Some e → rp_pending_materialization e = None ∧
     versions !! role = Some (rp_source_version e)) →
  (select_password_changes changes resolved (Some versions)).1 = ∅.
Proof.
  intros Hc Hall. unfold select_password_changes. rw Hc. cbn [default list_to_set from_option].
  assert (∀ l acc, (∀ p, p ∈ l → resolved !! p.1 = Some p.2) →
    (foldl (select_password ∅ versions) acc l).1 = acc.1) as H.
  { induction l as [|[n e] l IH]; intros acc Hl; [done|]. cbn [foldl]. rw IH; [|intros p Hp; apply Hl; by right].
    destruct (Hall n e (Hl (n, e) ltac:(left))) as [Hp Hv]. cbn. rw Hp Hv.
    rw (bool_decide_eq_false_2 (n ∈ (∅ : gset string))); [|apply not_elem_of_empty].
    rw (bool_decide_eq_false_2 (is_Some None)); [|by intros []]. by rw bool_decide_eq_true_2. }
  apply H. by intros p Hp%elem_of_map_iter'.
Qed.

(** ** What a plan sets is what the Secrets hold *)

Lemma validated_key roles policy_name role pw gen_spec :
  validate_password_specs roles policy_name = Ok tt → role ∈ roles →
  rsp_password role = Some pw → pws_generate pw = Some gen_spec →
  generated_secret_key gen_spec ≠ GENERATED_VERIFIER_KEY.
Proof.
  unfold validate_password_specs. rw for_each_Ok. intros Hall Hin Hpw Hgen. specialize (Hall role Hin).
  rw Hpw in Hall. cbn [when_some] in Hall. unfold validate_password in Hall.
  apply bind_unit_Ok in Hall as [_ Hall]. rw Hgen in Hall. destruct (pws_secret_ref pw); [done|].
  unfold validate_generate in Hall. apply bind_unit_Ok in Hall as [_ Hall].
  apply bind_Ok in Hall as (name & _ & Hall). apply bind_unit_Ok in Hall as [_ Hall].
  apply bind_unit_Ok in Hall as [_ Hall]. apply throw_if_Ok in Hall. by apply String.eqb_neq.
Qed.

Lemma truncate_error {E F} prefix n t :
  truncate_name_prefix (E := E) prefix n = Ok t → truncate_name_prefix (E := F) prefix n = Ok t.
Proof.
  unfold truncate_name_prefix, slice. generalize (if String.length prefix <=? n then String.length prefix else boundary_below prefix n).
  intros cut. by destruct (bool_decide (0 ≤ cut) && is_char_boundary prefix 0 && is_char_boundary prefix cut); [intros [= <-]|].
Qed.

(** Naming a Secret has no error of its own. *)
Lemma secret_name_error {E F} policy_name role_name spec name :
  generated_secret_name (E := E) policy_name role_name spec = Ok name →
  generated_secret_name (E := F) policy_name role_name spec = Ok name.
Proof.
  unfold generated_secret_name. destruct (gps_secret_name spec); [by intros [= ->]|].
  unfold default_generated_secret_name. intros (t & Ht & [= <-])%bind_Ok. by rw (truncate_error _ _ _ Ht).
Qed.

(** How the resolution [o'] of a role after the materialisation relates to [o] before it. *)
Definition resolved_later (changes changes' : list Change) (versions' : gmap string string) (name : string)
    (o o' : option ResolvedPassword) : Prop :=
  match o with
  | None => o' = None
  | Some e =>
      match rp_pending_materialization e with
      | None => o' = Some e
      | Some _ => ∃ e', o' = Some e' ∧ rp_pending_materialization e' = None ∧
          versions' !! name = Some (rp_source_version e') ∧
          ∀ v, Change.SetPassword name v ∈ changes' →
            (rp_cleartext e' = rp_cleartext e ∧ Change.SetPassword name v ∈ changes) ∨
            ∃ salt, v = compute_verifier salt (rp_cleartext e')
      end
  end.

(** What a role resolved to is what it resolves to later; a pending password has become
    the one of its Secret. *)
Lemma role_later r r' w w' policy_name role o changes changes' versions' :
  faithful r w → faithful r' w' → w ⊆ w' →
  role_password r policy_name w role = Ok o →
  (∀ n, fetched role = Some n → is_Some (w !! n)) →
  (∀ e pending, o = Some e → rp_pending_materialization e = Some pending →
     settled policy_name w' changes changes' versions' (rsp_name role) e pending) →
  ∃ o', role_password r' policy_name w' role = Ok o' ∧
    resolved_later changes changes' versions' (rsp_name role) o o'.
Proof.
  intros [_ Hr] [_ Hr'] Hw. unfold role_password. destruct (rsp_external role) eqn:Hext.
  { intros [= <-] _ _. by eexists. }
  destruct (rsp_password role) as [pw|] eqn:Hpw; [|intros [= <-] _ _; by eexists].
  destruct (pws_generate pw) as [gen_spec|] eqn:Hgen.
  - unfold resolve_generated. intros (e & (name & Hname & He)%bind_Ok & ->)%fmap_Ok _ Hset.
    rw Hname. cbn [mbind res_bind]. rw Hr in He. rw Hr'. unfold get_generated_secret_opt in *. cbn [res_map_err mbind res_bind] in *.
    destruct (w !! name) as [secret|] eqn:Hs.
    + rw (lookup_weaken _ _ _ _ Hs Hw).
      destruct (generated_password_from_existing_secret secret name _) as [m| |]; [|done..].
      injection He as <-. cbn. by eexists.
    + injection He as <-. destruct (Hset _ _ eq_refl eq_refl) as (name' & m & secret & Hn' & Hs' & Hfrom & Hv & Hch).
      cbn [pg_spec] in *. apply (secret_name_error (F := ResolutionError)) in Hn'. rw Hname in Hn'. injection Hn' as <-.
      rw Hs'. cbn [mbind res_bind]. rw Hfrom. cbn. eexists. split; [done|]. by eexists.
  - destruct (pws_secret_ref pw) as [sr|] eqn:Hsr; [|intros [= <-] _ _; by eexists].
    intros (e & He & ->)%fmap_Ok Hf _. unfold fetched in Hf. rw Hext Hpw in Hf. cbn in Hf. rw Hsr in Hf.
    destruct (Hf _ eq_refl) as [s Hs].
    assert (resolve_password_from_cache (rsp_name role) pw w' = Ok e) as ->.
    { revert He. unfold resolve_password_from_cache. by rw Hsr Hs (lookup_weaken _ _ _ _ Hs Hw). }
    assert (rp_pending_materialization e = None) as Hpe;
      [|cbn [fmap res_fmap]; eexists; split; [done|]; unfold resolved_later; by rw Hpe].
    revert He. unfold resolve_password_from_cache. rw Hsr Hs. destruct (_ ≫= _); [|done].
    destruct (negb _); [done|]. destruct (String.eqb _ ""); [done|]. by intros [= <-].
Qed.

Lemma pending_role r policy_name w role e :
  role_password r policy_name w role = Ok (Some e) →
  ∀ pending, rp_pending_materialization e = Some pending →
    pg_role pending = rsp_name role ∧ ∃ pw, rsp_password role = Some pw ∧ pws_generate pw = Some (pg_spec pending).
Proof.
  unfold role_password. destruct (rsp_external role); [done|]. destruct (rsp_password role) as [pw|]; [|done].
  destruct (pws_generate pw) as [gen_spec|] eqn:Hg.
  - unfold resolve_generated. intros (e' & (name & _ & (existing & _ & He)%bind_Ok)%bind_Ok & [= ->])%fmap_Ok pending.
    destruct existing; injection He as <-; [done|]. intros [= <-]. split; [done|]. by exists pw.
  - destruct (pws_secret_ref pw) eqn:Hsr; [|done]. intros (e' & He & [= ->])%fmap_Ok pending.
    revert He. unfold resolve_password_from_cache. rw Hsr. destruct (w !! _); [|done]. destruct (_ ≫= _); [|done].
    destruct (negb _); [done|]. destruct (String.eqb _ ""); [done|]. by intros [= <-].
Qed.

(** The resolution of a policy is the one of its roles. *)
Lemma lookup_resolved r w policy_name roles n e :
  NoDup (rsp_name <$> roles) → (∀ role, role ∈ roles → ∃ o, role_password r policy_name w role = Ok o) →
  foldl (put_role r policy_name w) ∅ roles !! n = Some e ↔
  ∃ role, role ∈ roles ∧ rsp_name role = n ∧ role_password r policy_name w role = Ok (Some e).
Proof.
  intros Hnd Hok. rw (lookup_put_roles _ _ _ _ _ _ _ Hnd). unfold password_of. split.
  - intros [(role & Hin & Hn & Hp)|[Hn _]]; [|by rw lookup_empty in Hn]. exists role. split_and!; [done..|].
    destruct (Hok role Hin) as [o Ho]. rw Ho in Hp. by rw Ho Hp.
  - intros (role & Hin & Hn & Hp). left. exists role. by rw Hp.
Qed.

Section later.
Context (policy_name : string) (roles : list RoleSpec) (r r' : Reading) (w w' : Secrets)
  (changes changes' : list Change) (versions versions' : gmap string string)
  (Hnd : NoDup (rsp_name <$> roles))
  (Hlater : ∀ role, role ∈ roles → ∃ o o', role_password r policy_name w role = Ok o ∧
     role_password r' policy_name w' role = Ok o' ∧
     resolved_later changes changes' versions' (rsp_name role) o o').
Let before := foldl (put_role r policy_name w) ∅ roles.
Let after := foldl (put_role r' policy_name w') ∅ roles.

Lemma later_before n e :
  before !! n = Some e ↔ ∃ role, role ∈ roles ∧ rsp_name role = n ∧ role_password r policy_name w role = Ok (Some e).
Proof. apply lookup_resolved; [done|]. intros role Hin. destruct (Hlater role Hin) as (o & _ & ? & _). by exists o. Qed.

Lemma later_after n e :
  after !! n = Some e ↔ ∃ role, role ∈ roles ∧ rsp_name role = n ∧ role_password r' policy_name w' role = Ok (Some e).
Proof. apply lookup_resolved; [done|]. intros role Hin. destruct (Hlater role Hin) as (_ & o & _ & ? & _). by exists o. Qed.

Lemma later_dom : dom after = dom before.
Proof.
  apply set_eq. intros n. rw !elem_of_dom. split.
  - intros [e' (role & Hin & <- & Hp)%later_after]. destruct (Hlater role Hin) as (o & o' & Ho & Ho' & Hrel).
    rw Hp in Ho'. injection Ho' as <-. destruct o as [e|]; [|done]. exists e. apply later_before. by exists role.
  - intros [e (role & Hin & <- & Hp)%later_before]. destruct (Hlater role Hin) as (o & o' & Ho & Ho' & Hrel).
    rw Hp in Ho. injection Ho as <-. unfold resolved_later in Hrel. destruct (rp_pending_materialization e).
    + destruct Hrel as (e' & -> & _). exists e'. apply later_after. by exists role.
    + subst o'. exists e. apply later_after. by exists role.
Qed.

(** What a role holds afterwards is recorded, and is what its changes set. *)
Lemma later_entry n e' :
  (∀ role v e, Change.SetPassword role v ∈ changes → before !! role = Some e →
     ∃ salt, v = compute_verifier salt (rp_cleartext e)) →
  (∀ role e, before !! role = Some e → rp_pending_materialization e = None →
     versions' !! role = Some (rp_source_version e) ∧
     ∀ v, Change.SetPassword role v ∈ changes' → Change.SetPassword role v ∈ changes) →
  after !! n = Some e' →
  rp_pending_materialization e' = None ∧ versions' !! n = Some (rp_source_version e') ∧
  ∀ v, Change.SetPassword n v ∈ changes' → ∃ salt, v = compute_verifier salt (rp_cleartext e').
Proof.
  intros Hver Hsame (role & Hin & <- & Hp)%later_after. destruct (Hlater role Hin) as (o & o' & Ho & Ho' & Hrel).
  rw Hp in Ho'. injection Ho' as <-. destruct o as [e|]; [|done].
  assert (before !! rsp_name role = Some e) as He by (apply later_before; by exists role).
  unfold resolved_later in Hrel. destruct (rp_pending_materialization e) as [pending|] eqn:Hpe.
  - destruct Hrel as (e1 & [= ->] & Hnone & Hv & Hch). split_and!; [done..|]. intros v Hv'.
    destruct (Hch v Hv') as [[Heq Hin']|?]; [|done]. rw Heq. by eapply Hver.
  - injection Hrel as ->. destruct (Hsame _ _ He Hpe) as [Hv Hch]. split_and!; [done..|].
    intros v Hv'. by eapply Hver; [apply Hch|].
Qed.
End later.

(** C21: passwords settle: what a plan is resolved with is materialised without losing a
    Secret, whoever else writes; every password it then sets is a verifier of what the Secret
    of that role holds; and resolving again finds no pending password and, creating no role,
    selects nothing to change. *)
Theorem passwords_settle (roles : list RoleSpec) (owner : SecretOwner) (ns : string) (r r' : Reading)
    (w w' : Secrets) (resolved : gmap string ResolvedPassword) (status : option (gmap string string))
    (selected changes changes' : list Change) (versions' : gmap string string)
    (circumstance : string → Circumstance) (drawn : string → Drawn) :
  NoDup (rsp_name <$> roles) → validate_password_specs roles (so_name owner) = Ok tt →
  faithful r w → resolve_passwords_for_roles r (so_name owner) ns roles = Ok resolved →
  (∀ role v e, Change.SetPassword role v ∈ changes → resolved !! role = Some e →
     ∃ salt, v = compute_verifier salt (rp_cleartext e)) →
  (∀ role, draws_ok (dr_draw (drawn role))) → (∀ role, only_adds (circumstance role)) →
  materialize_pending_generated_secrets compute_verifier circumstance drawn owner w resolved changes
    (select_password_changes selected resolved status).2 = (w', Ok (changes', versions')) →
  faithful r' w' →
  w ⊆ w' ∧ ∃ resolved', resolve_passwords_for_roles r' (so_name owner) ns roles = Ok resolved' ∧
    dom resolved' = dom resolved ∧
    (∀ role v e, Change.SetPassword role v ∈ changes' → resolved' !! role = Some e →
       rp_pending_materialization e = None ∧ ∃ salt, v = compute_verifier salt (rp_cleartext e)) ∧
    ∀ later, omap created_role later = [] →
      (select_password_changes later resolved' (Some versions')).1 = ∅.
Proof.
  intros Hnd Hvalid Hr Hres Hver Hd Ha Hmat Hr'.
  destruct (proj1 (resolve_spec r w (so_name owner) ns roles Hr) _ Hres) as (-> & Hok & Hfetched).
  pose proof (λ n e, lookup_resolved r w (so_name owner) roles n e Hnd Hok) as Hlook.
  apply materialize_all_spec in Hmat as (Hww & Hsame & Hset); [|done..|apply NoDup_map_keys|].
  2:{ apply Forall_forall. intros [n e] Hin%elem_of_map_iter pending Hp. cbn [fst snd] in *.
      apply Hlook in Hin as (role & Hin & <- & Hrole). destruct (pending_role _ _ _ _ _ Hrole _ Hp) as (? & pw & ? & ?).
      split; [done|]. by eapply validated_key. }
  assert (∀ role, role ∈ roles → ∃ o o', role_password r (so_name owner) w role = Ok o ∧
    role_password r' (so_name owner) w' role = Ok o' ∧
    resolved_later changes changes' versions' (rsp_name role) o o') as Hlater.
  { intros role Hin. destruct (Hok role Hin) as [o Ho].
    destruct (role_later r r' w w' _ role o changes changes' versions' Hr Hr' Hww Ho) as (o' & Ho' & Hrel);
      [intros n; by apply Hfetched| |by exists o, o'].
    intros e pending -> Hp. eapply Hset; [|done]. apply elem_of_map_iter, Hlook. by exists role. }
  pose proof (later_entry _ _ _ _ _ _ _ _ _ Hnd Hlater) as Hentry.
  assert (∀ role e, foldl (put_role r (so_name owner) w) ∅ roles !! role = Some e → rp_pending_materialization e = None →
    versions' !! role = Some (rp_source_version e) ∧
    ∀ v, Change.SetPassword role v ∈ changes' → Change.SetPassword role v ∈ changes) as Hkept.
  { intros role e He Hpe. destruct (Hsame role) as [Hv Hch]; [intros e1 He1%elem_of_map_iter; congruence|].
    split; [|done]. by rw Hv select_versions lookup_fmap He. }
  split; [done|]. eexists. split_and!.
  - apply (resolve_spec r' w' _ ns _ Hr').
    + intros role Hin. destruct (Hlater role Hin) as (_ & o' & _ & ? & _). by exists o'.
    + intros role n Hin Hf. destruct (Hfetched role n Hin Hf) as [s Hs]. exists s. by eapply lookup_weaken.
  - by eapply later_dom.
  - intros n v e' Hv He'. destruct (Hentry n e' Hver Hkept He') as (Hnone & _ & Hch). split; [done|by apply Hch].
  - intros later Hl. apply select_nothing; [done|]. intros n e' He'. by destruct (Hentry n e' Hver Hkept He') as (? & ? & _).
Qed.
End settle.

(** ** Bounds *)

(** C22: generated passwords are usable: when a policy is accepted, the Secret of a role that
    asks for a generated password has a name and a key Kubernetes accepts, the key is not the
    one of the verifier, and the password drawn has exactly the length asked for (32 when none
    is given), between 16 and 128 characters of the charset. *)
Theorem generated_passwords_are_usable (roles : list RoleSpec) (policy_name : string) (role : RoleSpec)
    (pw : PasswordSpec) (spec : GeneratePasswordSpec) (draw : nat → nat) :
  validate_password_specs roles policy_name = Ok tt → role ∈ roles →
  rsp_password role = Some pw → pws_generate pw = Some spec → draws_ok draw →
  (∃ name, generated_secret_name (E := PasswordValidationError) policy_name (rsp_name role) spec = Ok name ∧
     is_valid_resource_name name = true) ∧
  is_valid_secret_key (generated_secret_key spec) = true ∧ generated_secret_key spec ≠ "verifier" ∧
  let length := default 32%N (gps_length spec) in
  (16 ≤ length ≤ 128)%N ∧
  String.length (generate_password draw length) = N.to_nat length ∧
  ∃ cs, generate_password draw length = concat_all cs ∧ Forall in_charset cs.
Proof.
  intros Hvalid Hin Hpw Hgen Hd. pose proof (validated_key _ _ _ _ _ Hvalid Hin Hpw Hgen) as Hreserved.
  unfold validate_password_specs in Hvalid. rw for_each_Ok in Hvalid. specialize (Hvalid role Hin).
  rw Hpw in Hvalid. cbn [when_some] in Hvalid. unfold validate_password in Hvalid.
  apply bind_unit_Ok in Hvalid as [_ Hvalid]. rw Hgen in Hvalid. destruct (pws_secret_ref pw); [done|].
  unfold validate_generate in Hvalid. apply bind_unit_Ok in Hvalid as [Hlen Hvalid].
  apply bind_Ok in Hvalid as (name & Hname & Hvalid). apply bind_unit_Ok in Hvalid as [Hn Hvalid].
  apply bind_unit_Ok in Hvalid as [Hk _]. apply throw_if_Ok in Hlen, Hn, Hk. apply negb_false_iff in Hn, Hk.
  assert (16 ≤ default 32 (gps_length spec) ≤ 128)%N as Hb.
  { destruct (gps_length spec) as [length|]; [|done]. cbn in *. unfold length_allowed in Hlen.
    apply negb_false_iff, andb_true_iff in Hlen as [?%N.leb_le ?%N.leb_le]. done. }
  split; [by exists name|]. split; [done|]. split; [done|]. cbn zeta. split; [done|]. split.
  - destruct (generate_password_spec draw (default 32%N (gps_length spec)) Hd) as (_ & -> & _). f_equal. lia.
  - by apply generate_password_spec.
Qed.

(** A login role that asks for generation without naming anything is accepted whatever the
    names of the policy and of the role. *)
Lemma plain_generation_accepted policy_name role pw :
  rsp_password role = Some pw → rsp_login role = Some true → pws_secret_ref pw = None →
  pws_generate pw = Some {| gps_length := None; gps_secret_name := None; gps_secret_key := None |} →
  validate_password_specs [role] policy_name = Ok tt.
Proof.
  intros Hpw Hlogin Href Hgen. unfold validate_password_specs. cbn [for_each]. rw Hpw. cbn [when_some].
  unfold validate_password. rw Hlogin Href Hgen. rw bool_decide_true; [|done]. cbn [negb throw_if mbind res_bind].
  unfold validate_generate, generated_secret_name. cbn [gps_length gps_secret_name from_option throw_if mbind res_bind].
  destruct (default_secret_name_valid (E := PasswordValidationError) policy_name (rsp_name role)) as (name & -> & Hn).
  cbn [mbind res_bind]. by rw Hn.
Qed.

(** Roles whose names differ only in characters that a Secret's name cannot hold share a
    Secret: they are given one password. *)
Lemma shared_secret_shared_password r w policy_name role1 role2 spec name secret :
  faithful r w →
  generated_secret_name (E := ResolutionError) policy_name (rsp_name role1) spec = Ok name →
  generated_secret_name (E := ResolutionError) policy_name (rsp_name role2) spec = Ok name →
  w !! name = Some secret →
  resolve_generated r policy_name role1 spec = resolve_generated r policy_name role2 spec.
Proof.
  intros [_ Hr] H1 H2 Hs. unfold resolve_generated. rw H1 H2. cbn [mbind res_bind].
  rw Hr Hs. unfold get_generated_secret_opt. cbn [res_map_err mbind res_bind].
  by destruct (generated_password_from_existing_secret _ _ _).
Qed.

Example default_names_collide :
  default_generated_secret_name (E := PasswordError) "orders" "app_user" =
  default_generated_secret_name (E := PasswordError) "orders" "app-user".
Proof. vm_compute. reflexivity. Qed.
