(* ===== verification/PolicyClaims.v ===== *)
(** * What a policy claims, and conflicts between policies ([crd.rs], [reconciler.rs])

    Two policies of one database must not manage the same things: each claims roles,
    schemas and databases, and a reconcile refuses to run while another policy of the same
    connection claims one of them. *)

From S2P Require Import Prelude BTree RustStr Types Guc Model Change Diff DiffFacts DiffSafety Interp Converge Convergence Plan Manifest ManifestFacts Desired Approval PlanStatus PlanSql Durations Clock K8sNames ContentDigest CandidateStatus Promotion PolicySpec PolicySecrets PolicySecretsFacts.

Record OwnershipClaims := {
  oc_roles : gset string;
  oc_schemas : gset string;
  oc_public_databases : gset string;
}.

(** [!a.is_disjoint(&b)] *)
Definition meets (a b : gset string) : bool := negb (bool_decide (a ## b)).

Definition claims_overlap (self other : OwnershipClaims) : bool :=
  meets (oc_roles self) (oc_roles other) || meets (oc_schemas self) (oc_schemas other) ||
  meets (oc_public_databases self) (oc_public_databases other).

(** One part of the summary: nothing for an empty intersection. *)
Definition overlap_part (label : string) (a b : gset string) : list string :=
  let overlapping := set_iter (a ∩ b) in
  if bool_decide (overlapping = []) then [] else [label +:+ ": " +:+ join ", " overlapping].

Definition overlap_summary (self other : OwnershipClaims) : string :=
  join "; " (overlap_part "roles" (oc_roles self) (oc_roles other) ++
             overlap_part "schemas" (oc_schemas self) (oc_schemas other) ++
             overlap_part "PUBLIC on databases" (oc_public_databases self) (oc_public_databases other)).

(** ** The claims of a spec *)

Definition not_public (role : string) : bool := negb (String.eqb role PUBLIC_ROLE).

Definition granted_default_roles (d : DefaultPrivilege) : list string := omap dpg_role (dp_grant d).

Definition grant_schema_claim (g : Grant) : option string :=
  match ot_object_type (gr_object g) with
  | ObjectType.Database => None
  | ObjectType.Schema => ot_name (gr_object g)
  | _ => ot_schema (gr_object g)
  end.

Definition public_database_claim (g : Grant) : option string :=
  if bool_decide (ot_object_type (gr_object g) = ObjectType.Database) && String.eqb (gr_role g) PUBLIC_ROLE
  then ot_name (gr_object g) else None.

(** What one top-level default privilege claims by its scope. *)
Definition claim_default (default_owner : option string) (acc : gset string * gset string) (d : DefaultPrivilege) :
    gset string * gset string :=
  match resolved_scope d with
  | Ok (DefaultPrivilegeScope.Schema schema) => (acc.1, {[schema]} ∪ acc.2)
  | Ok DefaultPrivilegeScope.Global =>
      match (match dp_owner d with Some owner => Some owner | None => default_owner end) with
      | Some owner => ({[owner]} ∪ acc.1, acc.2)
      | None => acc
      end
  | _ => acc
  end.

Definition claimed_roles (manifest : PolicyManifest) (expanded : ExpandedManifest) : gset string :=
  list_to_set (rd_name <$> em_roles expanded) ∪
  list_to_set (rr_role <$> pm_retirements manifest) ∪
  list_to_set (filter not_public (gr_role <$> pm_grants manifest)) ∪
  list_to_set (filter not_public (pm_default_privileges manifest ≫= granted_default_roles)) ∪
  list_to_set (mb_role <$> pm_memberships manifest) ∪
  list_to_set (pm_memberships manifest ≫= λ m, ms_name <$> mb_members m).

Definition ownership_claims (self : PostgresPolicySpec) : res ManifestError OwnershipClaims :=
  let manifest := to_policy_manifest self in
  expanded ← expand_manifest manifest;
  let schemas := list_to_set (sb_name <$> psp_schemas self) ∪
                 list_to_set (omap grant_schema_claim (pm_grants manifest)) in
  let '(roles, schemas) := foldl (claim_default (pm_default_owner manifest))
                             (claimed_roles manifest expanded, schemas) (pm_default_privileges manifest) in
  Ok {| oc_roles := roles; oc_schemas := schemas;
        oc_public_databases := list_to_set (omap public_database_claim (pm_grants manifest)) |}.

(** ** Conflicts *)

Record PostgresPolicy := {
  pp_namespace : option string;
  pp_name : string;
  pp_spec : PostgresPolicySpec;
}.

(** One turn of the loop.  A peer whose spec is refused is skipped; there is no error, but
    the expansion of a peer may panic. *)
Definition conflict_with {E} (this_ns this_name : string) (identity : DatabaseIdentity) (ownership : OwnershipClaims)
    (other : PostgresPolicy) : res E (option string) :=
  match pp_namespace other with
  | None => Ok None
  | Some other_ns =>
      let other_name := pp_name other in
      if String.eqb other_ns this_ns && String.eqb other_name this_name then Ok None
      else if negb (String.eqb (from_connection other_ns (psp_connection (pp_spec other))) identity) then Ok None
      else match validate_password_specs (psp_roles (pp_spec other)) other_name with
           | Err _ => Ok None
           | Panic => Panic
           | Ok _ =>
               match ownership_claims (pp_spec other) with
               | Err _ => Ok None
               | Panic => Panic
               | Ok other_ownership =>
                   Ok (if claims_overlap ownership other_ownership
                       then Some (other_ns +:+ "/" +:+ other_name +:+ " (" +:+
                                  overlap_summary ownership other_ownership +:+ ")")
                       else None)
               end
           end
  end.

Definition detect_policy_conflict_in_list {E} (resource : PostgresPolicy) (identity : DatabaseIdentity)
    (ownership : OwnershipClaims) (policies : list PostgresPolicy) : res E (option string) :=
  match pp_namespace resource with
  | None => Ok None
  | Some this_ns =>
      conflicts ← collect_results (conflict_with this_ns (pp_name resource) identity ownership) policies;
      let conflicts := omap id conflicts in
      Ok (if bool_decide (conflicts = []) then None
          else Some ("policy ownership overlaps with " +:+ join ", " conflicts +:+
                     " on database target " +:+ identity))
  end.

(** ** Policies that do not conflict manage different things

    The claims of an accepted policy cover what its desired graph holds, so policies whose
    claims are disjoint have disjoint graphs. *)

(** What a graph manages that the claims must cover. *)
Definition grantee_claimed (claims : OwnershipClaims) (grantee : Grantee) : Prop :=
  match grantee with Grantee.Public => False | Grantee.Role name => name ∈ oc_roles claims end.

(** A rule for PUBLIC names where it applies: the object, or the schema it is in. *)
Definition public_place (k : GrantKey) : option string :=
  match gk_object_type k with
  | ObjectType.Database | ObjectType.Schema => gk_name k
  | _ => gk_schema k
  end.

(** The key is covered: by its grantee, or for PUBLIC by where it applies. *)
Definition grant_key_covered (claims : OwnershipClaims) (k : GrantKey) : Prop :=
  match gk_role k with
  | Grantee.Role name => name ∈ oc_roles claims
  | Grantee.Public =>
      ∀ place, public_place k = Some place →
        if decide (gk_object_type k = ObjectType.Database) then place ∈ oc_public_databases claims
        else place ∈ oc_schemas claims
  end.

Definition default_key_covered (claims : OwnershipClaims) (k : DefaultPrivKey) : Prop :=
  match dk_grantee k, dk_scope k with
  | Grantee.Role name, _ => name ∈ oc_roles claims
  | Grantee.Public, DefaultPrivilegeScope.Schema schema => schema ∈ oc_schemas claims
  | Grantee.Public, DefaultPrivilegeScope.Global => dk_owner k ∈ oc_roles claims ∨ dk_owner k = "postgres"
  end.

Lemma claim_default_grows default_owner acc l :
  acc.1 ⊆ (foldl (claim_default default_owner) acc l).1 ∧ acc.2 ⊆ (foldl (claim_default default_owner) acc l).2.
Proof.
  revert acc. induction l as [|d l IH]; intros acc; [done|]. cbn [foldl].
  destruct (IH (claim_default default_owner acc d)) as [H1 H2].
  assert (acc.1 ⊆ (claim_default default_owner acc d).1 ∧ acc.2 ⊆ (claim_default default_owner acc d).2) as [H3 H4].
  { unfold claim_default. destruct (resolved_scope d) as [[|schema]| |]; cbn [fst snd]; [|set_solver|done..].
    destruct (match dp_owner d with Some owner => Some owner | None => default_owner end); cbn [fst snd]; set_solver. }
  split; by etrans.
Qed.

(** Each default privilege claims its schema, or the owner it names. *)
Lemma claim_default_in default_owner acc l d :
  d ∈ l →
  match resolved_scope d with
  | Ok (DefaultPrivilegeScope.Schema schema) => schema ∈ (foldl (claim_default default_owner) acc l).2
  | Ok DefaultPrivilegeScope.Global =>
      ∀ owner, match dp_owner d with Some owner => Some owner | None => default_owner end = Some owner →
        owner ∈ (foldl (claim_default default_owner) acc l).1
  | _ => True
  end.
Proof.
  revert acc. induction l as [|d' l IH]; intros acc; [by intros ?%not_elem_of_nil|]. cbn [foldl].
  intros [->|Hin]%elem_of_cons; [|by apply IH].
  destruct (claim_default_grows default_owner (claim_default default_owner acc d') l) as [H1 H2].
  unfold claim_default at 1 in H1. unfold claim_default at 1 in H2.
  destruct (resolved_scope d') as [[|schema]| |] eqn:Hs; [| |done..].
  - intros owner Ho. rw Ho in H1. apply H1. cbn [fst]. set_solver.
  - apply H2. cbn [snd]. set_solver.
Qed.

(** ** The claims cover the graph *)

Section covers.
Context {spec : PostgresPolicySpec} {em : ExpandedManifest} {claims : OwnershipClaims}
  (Hem : expand_manifest (to_policy_manifest spec) = Ok em) (Hclaims : ownership_claims spec = Ok claims).
Let manifest := to_policy_manifest spec.

Lemma claims_eq :
  let '(roles, schemas) := foldl (claim_default (pm_default_owner manifest))
    (claimed_roles manifest em,
     list_to_set (sb_name <$> psp_schemas spec) ∪ list_to_set (omap grant_schema_claim (pm_grants manifest)))
    (pm_default_privileges manifest) in
  claims = {| oc_roles := roles; oc_schemas := schemas;
              oc_public_databases := list_to_set (omap public_database_claim (pm_grants manifest)) |}.
Proof.
  revert Hclaims. unfold ownership_claims. fold manifest. unfold manifest. rw Hem. cbn [mbind res_bind].
  destruct (foldl _ _ _) as [rs ss]. by intros [= <-].
Qed.

Lemma claims_grow :
  claimed_roles manifest em ⊆ oc_roles claims ∧
  list_to_set (sb_name <$> psp_schemas spec) ∪ list_to_set (omap grant_schema_claim (pm_grants manifest)) ⊆ oc_schemas claims.
Proof.
  pose proof claims_eq as H.
  pose proof (claim_default_grows (pm_default_owner manifest)
    (claimed_roles manifest em,
     list_to_set (sb_name <$> psp_schemas spec) ∪ list_to_set (omap grant_schema_claim (pm_grants manifest)))
    (pm_default_privileges manifest)) as Hg.
  destruct (foldl _ _ _) as [rs ss]. by rw H.
Qed.

Lemma claims_default d :
  d ∈ pm_default_privileges manifest →
  match resolved_scope d with
  | Ok (DefaultPrivilegeScope.Schema schema) => schema ∈ oc_schemas claims
  | Ok DefaultPrivilegeScope.Global =>
      ∀ owner, owner_or_default manifest (dp_owner d) = Some owner → owner ∈ oc_roles claims
  | _ => True
  end.
Proof.
  intros Hd. pose proof claims_eq as H.
  pose proof (claim_default_in (pm_default_owner manifest)
    (claimed_roles manifest em,
     list_to_set (sb_name <$> psp_schemas spec) ∪ list_to_set (omap grant_schema_claim (pm_grants manifest)))
    (pm_default_privileges manifest) d Hd) as Hg.
  destruct (foldl _ _ _) as [rs ss]. by rw H.
Qed.

Lemma claims_public_databases : oc_public_databases claims = list_to_set (omap public_database_claim (pm_grants manifest)).
Proof. pose proof claims_eq as H. destruct (foldl _ _ _) as [rs ss]. by rw H. Qed.

Lemma em_accepted : em = expanded_of manifest ∧ accepted manifest em.
Proof. by apply expand_manifest_Ok. Qed.

Lemma claimed_expanded role : role ∈ em_roles em → rd_name role ∈ oc_roles claims.
Proof.
  intros Hin. apply claims_grow. unfold claimed_roles. do 5 (apply elem_of_union_l).
  apply elem_of_list_to_set. by apply list_elem_of_fmap_2.
Qed.

Lemma claimed_generated p :
  p ∈ expansion_pairs manifest → is_Some (pm_profiles manifest !! p.2) →
  generated_role_name manifest p.1 p.2 ∈ oc_roles claims ∧ generated_role_name manifest p.1 p.2 ≠ PUBLIC_ROLE.
Proof.
  intros Hp [profile Hprof]. destruct em_accepted as [He Ha].
  assert (∃ role, role ∈ em_roles em ∧ rd_name role = generated_role_name manifest p.1 p.2) as (role & Hin & Hn).
  { exists (generated_role (generated_role_name manifest p.1 p.2) p.1 p.2 profile). split; [|done].
    rw He. cbn [em_roles expanded_of]. apply elem_of_app. left. eapply elem_of_bind_2; [exact Hp|].
    destruct p as [binding name]. unfold generated_roles. cbn [snd fst] in *. rw Hprof. by left. }
  rw -Hn. split; [by apply claimed_expanded|]. by eapply accepted_not_public.
Qed.

Lemma claimed_grant g :
  g ∈ em_grants em → grant_key_covered claims (grant_key_from_manifest g).
Proof.
  intros Hg. destruct em_accepted as [He Ha]. rw He in Hg. cbn [em_grants expanded_of] in Hg.
  unfold grant_key_covered. cbn [gk_role grant_key_from_manifest].
  apply elem_of_app in Hg as [Hg|Hg].
  - apply elem_of_bind_1 in Hg as (p & Hp & Hg). destruct p as [binding name].
    unfold generated_grants in Hg. destruct (pm_profiles manifest !! name) as [profile|] eqn:Hprof;
      [|by apply not_elem_of_nil in Hg].
    apply list_elem_of_fmap in Hg as (pg & -> & _). cbn [gr_role].
    destruct (claimed_generated (binding, name) Hp ltac:(by eexists)) as [Hc Hn]. cbn [fst snd] in *.
    unfold grantee_parse. by destruct (String.eqb_spec (generated_role_name manifest binding name) PUBLIC_ROLE).
  - unfold grantee_parse. destruct (String.eqb_spec (gr_role g) PUBLIC_ROLE) as [Hpub|Hnp].
    + intros place Hplace. unfold public_place in Hplace. cbn [gk_object_type gk_name gk_schema grant_key_from_manifest] in *.
      destruct (decide (ot_object_type (gr_object g) = ObjectType.Database)) as [Ht|Ht].
      * rw claims_public_databases. apply elem_of_list_to_set, list_elem_of_omap. exists g. split; [done|].
        unfold public_database_claim. rw bool_decide_true; [|done]. rw Hpub. cbn. by rw Ht in Hplace.
      * apply claims_grow, elem_of_union_r, elem_of_list_to_set, list_elem_of_omap. exists g. split; [done|].
        unfold grant_schema_claim. by destruct (ot_object_type (gr_object g)).
    + apply claims_grow. unfold claimed_roles. do 3 apply elem_of_union_l. apply elem_of_union_r.
      apply elem_of_list_to_set, list_elem_of_filter. split; [|by apply list_elem_of_fmap_2].
      unfold not_public. by apply String.eqb_neq in Hnp as ->.
Qed.

Lemma claimed_default_key d scope g grantee :
  d ∈ em_default_privileges em → resolved_scope d = Ok scope → g ∈ dp_grant d → dpg_role g = Some grantee →
  default_key_covered claims (default_key (owner_of (pm_default_owner manifest) d) scope g grantee).
Proof.
  intros Hd Hs Hg Hr. destruct em_accepted as [He Ha]. rw He in Hd. cbn [em_default_privileges expanded_of] in Hd.
  apply list_elem_of_fmap in Hd as (d0 & -> & Hd). unfold default_key_covered. cbn [dk_grantee dk_scope dk_owner default_key].
  apply elem_of_app in Hd as [Hd|Hd].
  - apply elem_of_bind_1 in Hd as (p & Hp & Hd). destruct p as [binding name].
    unfold generated_defaults in Hd. destruct (pm_profiles manifest !! name) as [profile|] eqn:Hprof;
      [|by apply not_elem_of_nil in Hd].
    assert (dpg_role g = Some (generated_role_name manifest binding name)) as Hr'.
    { destruct (prof_default_privileges profile) as [|x l]; [by apply not_elem_of_nil in Hd|].
      apply list_elem_of_singleton in Hd as ->. cbn [dp_grant normalize_owner] in Hg.
      by apply list_elem_of_fmap in Hg as (y & -> & _). }
    rw Hr in Hr'. injection Hr' as ->.
    destruct (claimed_generated (binding, name) Hp ltac:(by eexists)) as [Hc Hn]. cbn [fst snd] in *.
    unfold grantee_parse. by destruct (String.eqb_spec (generated_role_name manifest binding name) PUBLIC_ROLE).
  - cbn [dp_grant normalize_owner] in Hg. unfold grantee_parse.
    destruct (String.eqb_spec grantee PUBLIC_ROLE) as [->|Hn].
    + pose proof (claims_default d0 Hd) as Hc. change (resolved_scope (normalize_owner manifest d0)) with
        (resolved_scope {| dp_owner := owner_or_default manifest (dp_owner d0); dp_schema := dp_schema d0;
                           dp_scope := dp_scope d0; dp_grant := dp_grant d0 |}) in Hs.
      assert (resolved_scope d0 = Ok scope) as Hs0.
      { revert Hs. unfold resolved_scope. cbn [dp_schema dp_scope dp_owner].
        destruct (dp_schema d0), (dp_scope d0) as [[[] []]|]; done. }
      rw Hs0 in Hc. destruct scope as [|schema]; [|done].
      unfold owner_of. cbn [dp_owner normalize_owner].
      destruct (owner_or_default manifest (dp_owner d0)) as [owner|] eqn:Ho.
      * left. cbn. by apply Hc.
      * right. unfold owner_or_default in Ho. destruct (dp_owner d0); [done|]. unfold manifest in *. cbn in Ho |- *. by rw Ho.
    + apply claims_grow. unfold claimed_roles. do 2 apply elem_of_union_l. apply elem_of_union_r.
      apply elem_of_list_to_set, list_elem_of_filter. split; [by unfold not_public; apply String.eqb_neq in Hn as ->|].
      eapply elem_of_bind_2; [exact Hd|]. unfold granted_default_roles. apply list_elem_of_omap. by exists g.
Qed.

Lemma claimed_membership m ms :
  m ∈ em_memberships em → mb_role m ∈ oc_roles claims ∧ (ms ∈ mb_members m → ms_name ms ∈ oc_roles claims).
Proof.
  destruct em_accepted as [He Ha]. rw He. cbn [em_memberships expanded_of]. intros Hm. split.
  - apply claims_grow. unfold claimed_roles. apply elem_of_union_l, elem_of_union_r, elem_of_list_to_set.
    by apply list_elem_of_fmap_2.
  - intros Hms. apply claims_grow. unfold claimed_roles. apply elem_of_union_r, elem_of_list_to_set.
    eapply elem_of_bind_2; [exact Hm|]. by apply list_elem_of_fmap_2.
Qed.

Lemma claimed_schema s : s ∈ em_schemas em → es_name s ∈ oc_schemas claims.
Proof.
  destruct em_accepted as [He Ha]. rw He. cbn [em_schemas expanded_of]. intros (b & -> & Hb)%list_elem_of_fmap.
  apply claims_grow, elem_of_union_l, elem_of_list_to_set. cbn. by apply list_elem_of_fmap_2.
Qed.
End covers.

(** ** Disjoint claims, disjoint graphs *)

Definition manages_grant (g : RoleGraph) (k : GrantKey) : Prop :=
  ∃ p, Desired.holds (grants g) k p ∨ Desired.holds (grant_absences g) k p.
Definition manages_default (g : RoleGraph) (k : DefaultPrivKey) : Prop :=
  ∃ p, Desired.holds (default_privileges g) k p ∨ Desired.holds (default_privilege_absences g) k p.

Record covered (claims : OwnershipClaims) (g : RoleGraph) : Prop := {
  cv_roles : dom (roles g) ⊆ oc_roles claims;
  cv_schemas : dom (schemas g) ⊆ oc_schemas claims;
  cv_grants : ∀ k, manages_grant g k → grant_key_covered claims k;
  cv_defaults : ∀ k, manages_default g k → default_key_covered claims k;
  cv_members : ∀ e, e ∈ memberships g → me_role e ∈ oc_roles claims ∧ me_member e ∈ oc_roles claims;
  cv_exclusive : exclusive_membership_roles g ⊆ oc_roles claims;
}.

Lemma dom_foldl_insert {A V} (key : A → string) (value : A → V) (l : list A) (m : gmap string V) n :
  n ∈ dom (foldl (λ m x, <[key x := value x]> m) m l) → n ∈ dom m ∨ ∃ x, x ∈ l ∧ n = key x.
Proof.
  revert m. induction l as [|x l IH]; intros m; cbn [foldl]; [by left|]. intros [Hin|(y & Hy & ->)]%IH.
  - apply dom_insert, elem_of_union in Hin as [->%elem_of_singleton|?]; [right; exists x; split; [by left|done]|by left].
  - right. exists y. split; [by right|done].
Qed.

Lemma exclusive_roles_from acc l n :
  n ∈ (foldl add_membership acc l).2 → n ∈ acc.2 ∨ ∃ m, m ∈ l ∧ n = mb_role m.
Proof.
  revert acc. induction l as [|m l IH]; intros acc; cbn [foldl]; [by left|]. intros [Hin|(y & Hy & ->)]%IH.
  - unfold add_membership in Hin. cbn [snd] in Hin. destruct (mb_exclusive m); [|by left].
    apply elem_of_union in Hin as [->%elem_of_singleton|?]; [right; exists m; split; [by left|done]|by left].
  - right. exists y. split; [by right|done].
Qed.

Lemma desired_covered spec em claims g :
  expand_manifest (to_policy_manifest spec) = Ok em → ownership_claims spec = Ok claims →
  from_expanded em (pm_default_owner (to_policy_manifest spec)) = Ok g → covered claims g.
Proof.
  intros Hem Hclaims Hg. pose proof (from_expanded_graph _ _ _ Hg) as Hgo.
  unfold from_expanded in Hg. apply bind_Ok in Hg as (maps & Hmaps & Hg).
  split.
  - injection Hg as <-. cbn [roles]. intros n [Hn|(r & Hr & ->)]%dom_foldl_insert; [by rw dom_empty in Hn|].
    by eapply claimed_expanded.
  - injection Hg as <-. cbn [schemas]. intros n [Hn|(s & Hs & ->)]%dom_foldl_insert; [by rw dom_empty in Hn|].
    by eapply claimed_schema.
  - intros k (p & [(gr & Hgr & <- & _)%(go_grants _ _ _ Hgo)|(gr & Hgr & <- & _)%(go_absences _ _ _ Hgo)]);
      by eapply claimed_grant.
  - intros k (p & [Hh|Hh]).
    + apply (go_defaults _ _ _ Hgo Ensure.Present) in Hh as (d & scope & dg & grantee & Hd & Hs & Hdg & Hgr & <- & _).
      by eapply claimed_default_key.
    + apply (go_defaults _ _ _ Hgo Ensure.Absent) in Hh as (d & scope & dg & grantee & Hd & Hs & Hdg & Hgr & <- & _).
      by eapply claimed_default_key.
  - injection Hg as <-. cbn [memberships]. intros e [He|(m & ms & Hm & Hms & ->)]%elem_of_memberships; [by apply elem_of_empty in He|].
    destruct (claimed_membership Hem Hclaims m ms Hm) as [H1 H2]. split; [done|by apply H2].
  - injection Hg as <-. cbn [exclusive_membership_roles]. intros n [Hn|(m & Hm & ->)]%exclusive_roles_from; [by apply elem_of_empty in Hn|].
    destruct (claimed_membership Hem Hclaims m {| ms_name := ""; ms_inherit := None; ms_admin := None |} Hm). done.
Qed.

(** Two graphs manage nothing in common.  A rule for PUBLIC that names no place at all, and a
    global default privilege of [postgres] for PUBLIC, are not claimed: see
    [unclaimed_default_owner]. *)
Record graphs_disjoint (g1 g2 : RoleGraph) : Prop := {
  gd_roles : dom (roles g1) ## dom (roles g2);
  gd_schemas : dom (schemas g1) ## dom (schemas g2);
  gd_grants : ∀ k, (gk_role k = Grantee.Public → is_Some (public_place k)) →
    manages_grant g1 k → manages_grant g2 k → False;
  gd_defaults : ∀ k,
    ¬ (dk_grantee k = Grantee.Public ∧ dk_scope k = DefaultPrivilegeScope.Global ∧ dk_owner k = "postgres") →
    manages_default g1 k → manages_default g2 k → False;
  gd_members : ∀ e1 e2, e1 ∈ memberships g1 → e2 ∈ memberships g2 →
    me_role e1 ≠ me_role e2 ∧ me_member e1 ≠ me_member e2;
  gd_exclusive : exclusive_membership_roles g1 ## exclusive_membership_roles g2 ∧
    ∀ e, (e ∈ memberships g1 → me_role e ∉ exclusive_membership_roles g2) ∧
         (e ∈ memberships g2 → me_role e ∉ exclusive_membership_roles g1);
}.

Lemma claims_overlap_false c1 c2 :
  claims_overlap c1 c2 = false →
  oc_roles c1 ## oc_roles c2 ∧ oc_schemas c1 ## oc_schemas c2 ∧ oc_public_databases c1 ## oc_public_databases c2.
Proof.
  unfold claims_overlap, meets. intros [[H1 H2]%orb_false_iff H3]%orb_false_iff.
  apply negb_false_iff, bool_decide_eq_true in H1, H2, H3. done.
Qed.

Lemma claims_overlap_sym c1 c2 : claims_overlap c1 c2 = claims_overlap c2 c1.
Proof.
  unfold claims_overlap, meets.
  by rw (bool_decide_ext (oc_roles c1 ## oc_roles c2) (oc_roles c2 ## oc_roles c1)) //
        (bool_decide_ext (oc_schemas c1 ## oc_schemas c2) (oc_schemas c2 ## oc_schemas c1)) //
        (bool_decide_ext (oc_public_databases c1 ## oc_public_databases c2) (oc_public_databases c2 ## oc_public_databases c1)).
Qed.

Lemma covered_disjoint c1 c2 g1 g2 :
  claims_overlap c1 c2 = false → covered c1 g1 → covered c2 g2 → graphs_disjoint g1 g2.
Proof.
  intros (Hr & Hs & Hp)%claims_overlap_false H1 H2. split.
  - intros n Hn1%(cv_roles _ _ H1) Hn2%(cv_roles _ _ H2). by apply (Hr n).
  - intros n Hn1%(cv_schemas _ _ H1) Hn2%(cv_schemas _ _ H2). by apply (Hs n).
  - intros k Hplace Hk1%(cv_grants _ _ H1) Hk2%(cv_grants _ _ H2). unfold grant_key_covered in *.
    destruct (gk_role k) as [|name]; [|by apply (Hr name)].
    destruct (Hplace eq_refl) as [place Hpl]. specialize (Hk1 place Hpl). specialize (Hk2 place Hpl).
    destruct (decide _); [by apply (Hp place)|by apply (Hs place)].
  - intros k Hk Hk1%(cv_defaults _ _ H1) Hk2%(cv_defaults _ _ H2). unfold default_key_covered in *.
    destruct (dk_grantee k) as [|name]; [|by apply (Hr name)].
    destruct (dk_scope k) as [|schema]; [|by apply (Hs schema)].
    destruct Hk1 as [Hk1|?]; [|by apply Hk]. destruct Hk2 as [Hk2|?]; [|by apply Hk]. by apply (Hr (dk_owner k)).
  - intros e1 e2 [Ha1 Hb1]%(cv_members _ _ H1) [Ha2 Hb2]%(cv_members _ _ H2).
    split; intros He; [apply (Hr (me_role e1))|apply (Hr (me_member e1))]; rw ?He //; by rw -?He.
  - pose proof (cv_exclusive _ _ H1) as He1. pose proof (cv_exclusive _ _ H2) as He2. split.
    + intros n Hn1%He1 Hn2%He2. by apply (Hr n).
    + intros e. split.
      * intros [Ha _]%(cv_members _ _ H1) Hx%He2. by apply (Hr (me_role e)).
      * intros [Ha _]%(cv_members _ _ H2) Hx%He1. by apply (Hr (me_role e)).
Qed.

(** ** Conflict detection *)

(** [other] is considered against [resource]: another object of the same connection whose
    spec is accepted. *)
Definition considered (resource other : PostgresPolicy) (claims : OwnershipClaims) : Prop :=
  ∃ ns other_ns, pp_namespace resource = Some ns ∧ pp_namespace other = Some other_ns ∧
    (other_ns ≠ ns ∨ pp_name other ≠ pp_name resource) ∧
    from_connection other_ns (psp_connection (pp_spec other)) = from_connection ns (psp_connection (pp_spec resource)) ∧
    validate_password_specs (psp_roles (pp_spec other)) (pp_name other) = Ok tt ∧
    ownership_claims (pp_spec other) = Ok claims.

Lemma conflict_considered {E} resource other claims other_claims ns :
  pp_namespace resource = Some ns → considered resource other other_claims →
  ∃ text, conflict_with (E := E) ns (pp_name resource) (from_connection ns (psp_connection (pp_spec resource))) claims other =
    Ok (if claims_overlap claims other_claims then Some text else None).
Proof.
  intros Hns (ns0 & other_ns & Hns' & Hons & Hne & Hid & Hpw & Hcl). rw Hns in Hns'. injection Hns' as <-.
  eexists. unfold conflict_with. rw Hons.
  assert (String.eqb other_ns ns && String.eqb (pp_name other) (pp_name resource) = false) as ->.
  { apply andb_false_iff. by destruct Hne as [?%String.eqb_neq|?%String.eqb_neq]; [left|right]. }
  rw Hid String.eqb_refl Hpw Hcl. done.
Qed.

Lemma detect_none {E} resource claims policies ns :
  pp_namespace resource = Some ns →
  detect_policy_conflict_in_list (E := E) resource (from_connection ns (psp_connection (pp_spec resource))) claims policies = Ok None →
  ∀ other other_claims, other ∈ policies → considered resource other other_claims →
    claims_overlap claims other_claims = false.
Proof.
  intros Hns. unfold detect_policy_conflict_in_list. rw Hns. intros (conflicts & Hc & Hd)%bind_Ok other other_claims Hin Hcons.
  apply collect_results_Ok in Hc. destruct (bool_decide_reflect (omap id conflicts = [])) as [Hnil|]; [|done].
  destruct (conflict_considered (E := E) resource other claims other_claims ns Hns Hcons) as [text Ht].
  apply list_elem_of_lookup_1 in Hin as [i Hi]. destruct (Forall2_lookup_l _ _ _ _ _ Hc Hi) as (o & Ho & Hr).
  rw Ht in Hr. injection Hr as <-. destruct (claims_overlap claims other_claims); [|done].
  apply list_elem_of_lookup_2 in Ho.
  assert (text ∈ omap id conflicts) as Hx by (apply list_elem_of_omap; by eexists). rw Hnil in Hx. by apply not_elem_of_nil in Hx.
Qed.

