(* ===== verification/PolicyWitnesses.v ===== *)
(** * Policies, their passwords and their conflicts at concrete inputs *)

From S2P Require Import Prelude BTree RustStr Types Manifest ManifestFacts Model Guc Change Diff DiffFacts DiffSafety Interp Converge Convergence Desired Plan Approval PlanStatus PlanSql Durations Clock K8sNames ContentDigest CandidateStatus Promotion PolicySpec PolicySecrets PolicySecretsFacts PolicyClaims.

Module PolicyScene.
Definition plain_role (name : string) (password : option PasswordSpec) : RoleSpec := {|
  rsp_name := name; rsp_external := false; rsp_preserve_undeclared_grants := false; rsp_login := Some true;
  rsp_superuser := None; rsp_createdb := None; rsp_createrole := None; rsp_inherit := None;
  rsp_replication := None; rsp_bypassrls := None; rsp_connection_limit := None; rsp_comment := None;
  rsp_password := password; rsp_password_valid_until := None; rsp_config := ∅ |}.
Definition connection : ConnectionSpec := {|
  cs_secret_ref := Some {| sr_name := "db" |}; cs_secret_key := None; cs_params := None;
  cs_require_physical_identity := None |}.
Definition spec_of (roles : list RoleSpec) (schemas : list SchemaBinding) (grants : list Grant)
    (defaults : list DefaultPrivilege) : PostgresPolicySpec := {|
  psp_connection := connection; psp_interval := "5m"; psp_suspend := false; psp_mode := PolicyMode.Apply;
  psp_reconciliation_mode := CrdReconciliationMode.Authoritative; psp_allow_schema_owner_transfers := false;
  psp_default_owner := None; psp_role_pattern := None; psp_profiles := ∅; psp_schemas := schemas;
  psp_roles := roles; psp_grants := grants; psp_default_privileges := defaults; psp_memberships := [];
  psp_retirements := []; psp_approval := None |}.
Definition select_on (role schema : string) : Grant := {|
  gr_role := role; gr_privileges := [Privilege.Select];
  gr_object := {| ot_object_type := ObjectType.Table; ot_schema := Some schema; ot_name := Some "t" |};
  gr_ensure := Ensure.Present |}.
Definition bound (schema : string) : SchemaBinding := {|
  sb_name := schema; sb_profiles := []; sb_role_pattern := None; sb_owner := None |}.
Definition orders : PostgresPolicy := {|
  pp_namespace := Some "apps"; pp_name := "orders";
  pp_spec := spec_of [plain_role "orders" None] [bound "orders"] [select_on "orders" "orders"; select_on "PUBLIC" "orders"] [] |}.
Definition billing : PostgresPolicy := {|
  pp_namespace := Some "apps"; pp_name := "billing";
  pp_spec := spec_of [plain_role "billing" None] [bound "billing"] [select_on "billing" "billing"; select_on "PUBLIC" "billing"] [] |}.
(** Tables of [postgres], readable by everybody from now on. *)
Definition public_default : DefaultPrivilege := {|
  dp_owner := None; dp_schema := None;
  dp_scope := Some {| dps_scope_type := DefaultPrivilegeScopeType.Global; dps_schema := None |};
  dp_grant := [{| dpg_role := Some "PUBLIC"; dpg_privileges := [Privilege.Select];
                  dpg_on_type := ObjectType.Table; dpg_ensure := Ensure.Present |}] |}.
(** ... and from now on by nobody. *)
Definition public_default_absent : DefaultPrivilege := {|
  dp_owner := None; dp_schema := None;
  dp_scope := Some {| dps_scope_type := DefaultPrivilegeScopeType.Global; dps_schema := None |};
  dp_grant := [{| dpg_role := Some "PUBLIC"; dpg_privileges := [Privilege.Select];
                  dpg_on_type := ObjectType.Table; dpg_ensure := Ensure.Absent |}] |}.

Definition claims_of (p : PostgresPolicy) : OwnershipClaims :=
  match ownership_claims (pp_spec p) with Ok c => c | _ => {| oc_roles := ∅; oc_schemas := ∅; oc_public_databases := ∅ |} end.
Definition expansion_of (p : PostgresPolicy) : ExpandedManifest :=
  match expand_manifest (to_policy_manifest (pp_spec p)) with Ok em => em | _ => expanded_of (to_policy_manifest (pp_spec p)) end.
Definition empty_graph : RoleGraph := {|
  routine_aliases := ∅; roles := ∅; schemas := ∅; grants := ∅; default_privileges := ∅; memberships := ∅;
  grant_absences := ∅; default_privilege_absences := ∅; exclusive_membership_roles := ∅;
  inherent_grants := ∅; membership_edge_grantors := ∅; membership_edge_options := ∅;
  executor_authority_edges := ∅; grant_entry_grantors := ∅ |}.
Definition graph_of_policy (p : PostgresPolicy) : RoleGraph :=
  match from_expanded (expansion_of p) (psp_default_owner (pp_spec p)) with Ok g => g | _ => empty_graph end.
Definition open_default (name : string) (d : DefaultPrivilege) : PostgresPolicy := {|
  pp_namespace := Some "apps"; pp_name := name; pp_spec := spec_of [plain_role name None] [] [] [d] |}.
End PolicyScene.


(** A global default privilege for PUBLIC without an owner acts as [postgres], and claims
    nothing: one policy opens the tables of [postgres], the other closes them, and neither
    check reports it. *)
Lemma unclaimed_default_owner :
  let opens := PolicyScene.open_default "opens" PolicyScene.public_default in
  let closes := PolicyScene.open_default "closes" PolicyScene.public_default_absent in
  let key := {| dk_owner := "postgres"; dk_scope := DefaultPrivilegeScope.Global;
                dk_on_type := ObjectType.Table; dk_grantee := Grantee.Public |} in
  let both := [opens; closes] in
  (∀ p, p ∈ both → detect_policy_conflict_in_list (E := ManifestError) p
     (from_connection "apps" (psp_connection (pp_spec p))) (PolicyScene.claims_of p) both = Ok None) ∧
  default_privileges (PolicyScene.graph_of_policy opens) !! key = Some {[Privilege.Select]} ∧
  default_privilege_absences (PolicyScene.graph_of_policy closes) !! key = Some {[Privilege.Select]}.
Proof.
  cbn zeta. split; [|split; vm_compute; reflexivity].
  intros p [->|[->|Hp%not_elem_of_nil]%elem_of_cons]%elem_of_cons; [vm_compute; reflexivity..|done].
Qed.

(** The port that is the default, written out, names another target. *)
Lemma default_port_is_another_target :
  let params port := {|
    cp_host := Some "db.internal"; cp_host_secret := None; cp_port := port; cp_port_secret := None;
    cp_dbname := Some "app"; cp_dbname_secret := None; cp_username := Some "u"; cp_username_secret := None;
    cp_password := Some "p"; cp_password_secret := None; cp_auth := None; cp_ssl_mode := None;
    cp_ssl_mode_secret := None; cp_set_role := None |} in
  let conn port := {| cs_secret_ref := None; cs_secret_key := None; cs_params := Some (params port);
                      cs_require_physical_identity := None |} in
  validate_connection_spec (conn None) = Ok tt ∧ validate_connection_spec (conn (Some 5432%N)) = Ok tt ∧
  from_connection "apps" (conn None) ≠ from_connection "apps" (conn (Some 5432%N)).
Proof. split; [vm_compute; reflexivity|]. split; [vm_compute; reflexivity|]. vm_compute. discriminate. Qed.

(** ** Passwords *)

Module PasswordScene.
Definition generated : PasswordSpec := {|
  pws_secret_ref := None; pws_secret_key := None;
  pws_generate := Some {| gps_length := Some 20%N; gps_secret_name := None; gps_secret_key := None |} |}.
Definition referred : PasswordSpec := {|
  pws_secret_ref := Some {| sr_name := "creds" |}; pws_secret_key := None; pws_generate := None |}.
Definition roles : list RoleSpec :=
  [PolicyScene.plain_role "app" (Some generated); PolicyScene.plain_role "web" (Some referred)].
Definition owner : SecretOwner := {| so_name := "orders"; so_uid := Some "uid" |}.
Definition creds : Secret := {|
  sc_data := Some {["web" := "hunter2"]}; sc_resource_version := Some "7"; sc_labels := ∅; sc_owner := None |}.
Definition before : gmap string Secret := {["creds" := creds]}.
Definition reading (w : gmap string Secret) : Reading := {|
  rd_fetch := get None w; rd_read := λ n, Ok (w !! n); rd_draw := λ _ i, Nat.modulo i 74 |}.
Definition verifier (salt password : string) : string := salt +:+ password.
Definition quiet (_ : string) : Circumstance := {|
  ci_read := None; ci_others := λ w, w; ci_create := None; ci_reread := None; ci_version := "8" |}.
(** Another draw than the one planned with: the plan is rebuilt from the Secret. *)
Definition drawn (_ : string) : Drawn := {| dr_draw := λ _, 3; dr_salt := "s1"; dr_rebuild_salt := "s2" |}.
Definition resolved : gmap string ResolvedPassword :=
  match resolve_passwords_for_roles (reading before) "orders" "apps" roles with Ok m => m | _ => ∅ end.
Definition changes : list Change :=
  (λ p, Change.SetPassword p.1 (verifier "s0" (rp_cleartext p.2))) <$> map_iter resolved.
Definition versions : gmap string string := (select_password_changes [] resolved None).2.
Definition outcome := materialize_pending_generated_secrets verifier quiet drawn owner before resolved changes versions.
Definition after : gmap string Secret := outcome.1.
Definition settled_changes : list Change := match outcome.2 with Ok (c, _) => c | _ => [] end.
Definition settled_versions : gmap string string := match outcome.2 with Ok (_, v) => v | _ => ∅ end.
End PasswordScene.

Lemma drawn_verifiers role v e :
  Change.SetPassword role v ∈ PasswordScene.changes → PasswordScene.resolved !! role = Some e →
  ∃ salt, v = PasswordScene.verifier salt (rp_cleartext e).
Proof.
  intros ([r' e'] & Heq & Hin)%list_elem_of_fmap Hr. apply elem_of_map_iter in Hin.
  cbn [fst snd] in Heq. injection Heq as -> ->. rw Hr in Hin. injection Hin as ->. by eexists.
Qed.

Lemma passwords_settle_witness :
  let set := PasswordScene.settled_changes in
  set = [Change.SetPassword "app" "s2DDDDDDDDDDDDDDDDDDDD"; Change.SetPassword "web" "s0hunter2"] ∧
  PasswordScene.settled_versions !! "app" = Some "orders-pgr-app:password:8" ∧
  ∃ resolved', resolve_passwords_for_roles (PasswordScene.reading PasswordScene.after) "orders" "apps"
      PasswordScene.roles = Ok resolved' ∧
    (select_password_changes [] resolved' (Some PasswordScene.settled_versions)).1 = ∅.
Proof.
  split; [vm_compute; reflexivity|]. split; [vm_compute; reflexivity|].
  destruct (passwords_settle PasswordScene.verifier PasswordScene.roles PasswordScene.owner "apps"
    (PasswordScene.reading PasswordScene.before) (PasswordScene.reading PasswordScene.after)
    PasswordScene.before PasswordScene.after PasswordScene.resolved None [] PasswordScene.changes
    PasswordScene.settled_changes PasswordScene.settled_versions PasswordScene.quiet PasswordScene.drawn)
    as (_ & resolved' & Hres & _ & _ & Hsel).
  - apply (bool_decide_unpack _). vm_compute. exact I.
  - vm_compute. reflexivity.
  - split; intros n; reflexivity.
  - vm_compute. reflexivity.
  - exact drawn_verifiers.
  - intros role i. cbn. lia.
  - intros role w. cbn. reflexivity.
  - vm_compute. reflexivity.
  - split; intros n; reflexivity.
  - exists resolved'. split; [exact Hres|]. by apply Hsel.
Defined.

Lemma generated_passwords_are_usable_witness :
  let spec := {| gps_length := Some 20%N; gps_secret_name := None; gps_secret_key := None |} in
  is_valid_secret_key (generated_secret_key spec) = true ∧
  String.length (generate_password (λ _, 3) 20) = 20.
Proof.
  destruct (generated_passwords_are_usable PasswordScene.roles "orders"
    (PolicyScene.plain_role "app" (Some PasswordScene.generated)) PasswordScene.generated
    {| gps_length := Some 20%N; gps_secret_name := None; gps_secret_key := None |} (λ _, 3))
    as (_ & Hkey & _ & _ & Hlen & _).
  - vm_compute. reflexivity.
  - left.
  - reflexivity.
  - reflexivity.
  - intros i. lia.
  - split; [exact Hkey|exact Hlen].
Defined.
