(* ===== verification/Suggest.v ===== *)
(** * Profile suggestion ([suggest.rs])

    A flat manifest is rewritten into one with reusable profiles: roles whose grants are the
    same up to the schema are clustered, each cluster becomes a profile, and the result is
    kept only if it expands to the same graph.  A reason whose text the code formats with
    [Debug] is kept as its data. *)

From Stdlib Require Import Ascii.
From S2P Require Import Prelude BTree RustStr Types Manifest Model Change Diff K8sNames.

(** ** Vectors *)

(** [Vec::dedup] *)
Fixpoint dedup {A} `{EqDecision A} (l : list A) : list A :=
  match l with
  | x :: (y :: _) as l' => if decide (x = y) then dedup l' else x :: dedup l'
  | l => l
  end.

(** ** Options, reasons, report *)

Abbreviation Inventory := (gmap (string * ObjectType) (gset string)).

Record SuggestOptions := {
  so_min_schemas : nat;
  so_full_inventory : option Inventory;
}.

Record SuggestedProfile := {
  sug_profile_name : string;
  sug_role_pattern : string;
  sug_schema_to_role : gmap string string;
}.

Module InventoryGap.
Inductive InventoryGap : Set :=
  | MissingEntry (schema : string) (object_type : ObjectType) (names : nat)
  | MissingName (schema : string) (object_type : ObjectType) (name : string).
End InventoryGap.
Abbreviation InventoryGap := InventoryGap.InventoryGap.

Module RoundTripError.
Inductive RoundTripError : Type :=
  | OriginalExpand (e : ManifestError)
  | OriginalGraph (e : ManifestError)
  | CandidateExpand (e : ManifestError)
  | CandidateGraph (e : ManifestError)
  | StructuralChanges (count : nat) (sample : option Change).
End RoundTripError.
Abbreviation RoundTripError := RoundTripError.RoundTripError.

Module SkipReason.
Inductive SkipReason : Type :=
  | MultiSchema (role : string) (schemas : list string)
  | SchemaNotDeclared (role schema : string)
  | OwnerMismatch (role schema : string)
  | UniqueAttributes (role : string)
  | UnrepresentableGrant (role : string)
  | SoleSchema (role schema : string)
  | NoUniformPattern (roles : list string)
  | SchemaPatternConflict (schema winning_pattern : string) (dropped_roles : list string)
  | RoundTripFailure (reason : RoundTripError)
  | IncompleteFullInventory (reason : InventoryGap).
End SkipReason.
Abbreviation SkipReason := SkipReason.SkipReason.

Record SuggestReport := {
  sr_manifest : PolicyManifest;
  sr_profiles : list SuggestedProfile;
  sr_skipped : list SkipReason;
  sr_round_trip_ok : bool;
}.

(** ** Inventories *)

(** A named object in a schema, not a schema nor a database. *)
Definition is_object_type (t : ObjectType) : bool :=
  match t with ObjectType.Schema | ObjectType.Database => false | _ => true end.

Definition inventory_entry (inv : Inventory) (g : Grant) : Inventory :=
  if negb (is_object_type (ot_object_type (gr_object g))) then inv
  else match ot_name (gr_object g), ot_schema (gr_object g) with
       | Some name, Some schema =>
           if String.eqb name "*" then inv
           else entry_extend (schema, ot_object_type (gr_object g)) {[name]} inv
       | _, _ => inv
       end.
Definition build_inventory (m : PolicyManifest) : Inventory :=
  foldl inventory_entry (∅ : Inventory) (pm_grants m).

(** The first gap in the order of iteration. *)
Definition inventory_gap (full_inventory : Inventory) (p : (string * ObjectType) * gset string) :
    option InventoryGap :=
  match full_inventory !! p.1 with
  | None => Some (InventoryGap.MissingEntry p.1.1 p.1.2 (size p.2))
  | Some full_names =>
      match filter (λ n, n ∉ full_names) (set_iter p.2) with
      | missing :: _ => Some (InventoryGap.MissingName p.1.1 p.1.2 missing)
      | [] => None
      end
  end.
Definition validate_full_inventory (grant_inventory full_inventory : Inventory) : option InventoryGap :=
  head (omap (inventory_gap full_inventory) (map_iter grant_inventory)).

Definition expand_wildcard (inventory : Inventory) (g : Grant) : list Grant :=
  let is_wildcard := is_object_type (ot_object_type (gr_object g)) &&
                     bool_decide (ot_name (gr_object g) = Some "*") in
  if negb is_wildcard then [g]
  else match ot_schema (gr_object g) with
       | None => [g]
       | Some schema =>
           match inventory !! (schema, ot_object_type (gr_object g)) with
           | Some names =>
               (λ name, {| gr_role := gr_role g; gr_privileges := gr_privileges g;
                           gr_object := {| ot_object_type := ot_object_type (gr_object g);
                                           ot_schema := ot_schema (gr_object g); ot_name := Some name |};
                           gr_ensure := gr_ensure g |}) <$> set_iter names
           | None => [g]
           end
       end.
Definition expand_wildcards_in_place (grants : list Grant) (inventory : Inventory) : list Grant :=
  grants ≫= expand_wildcard inventory.

(** ** Privileges *)

Definition privilege_sort_key (p : Privilege) : nat :=
  match p with
  | Privilege.Select => 0 | Privilege.Insert => 1 | Privilege.Update => 2 | Privilege.Delete => 3
  | Privilege.Truncate => 4 | Privilege.References => 5 | Privilege.Trigger => 6 | Privilege.Execute => 7
  | Privilege.Usage => 8 | Privilege.Create => 9 | Privilege.Connect => 10 | Privilege.Temporary => 11
  end.
Definition sort_key_le (p q : Privilege) : Prop := privilege_sort_key p ≤ privilege_sort_key q.
#[export] Instance sort_key_le_dec : RelDecision sort_key_le.
Proof. intros p q. unfold sort_key_le. apply _. Defined.

Definition canonical_privs (privs : list Privilege) : list Privilege := dedup (merge_sort sort_key_le privs).

(** ** Collapsing full coverage *)

Abbreviation Buckets := (gmap (string * ObjectType) (list (nat * Grant))).

(** One turn of the grouping loop: the buckets, with the indices and their grants, and the
    keys that already have a wildcard. *)
Definition bucket_grant (acc : Buckets * gset (string * ObjectType)) (p : nat * Grant) :
    Buckets * gset (string * ObjectType) :=
  let o := gr_object p.2 in
  if negb (is_object_type (ot_object_type o)) then acc
  else match ot_schema o, ot_name o with
       | Some schema, Some name =>
           let key := (schema, ot_object_type o) in
           if String.eqb name "*" then (acc.1, {[key]} ∪ acc.2)
           else (<[key := default [] (acc.1 !! key) ++ [p]]> acc.1, acc.2)
       | _, _ => acc
       end.

Definition enumerate {A} (l : list A) : list (nat * A) := zip (seq 0 (length l)) l.

(** One bucket: the indices to remove and the wildcard to add. *)
Definition collapse_bucket (inventory : Inventory) (b : (string * ObjectType) * list (nat * Grant)) :
    option (gset nat * Grant) :=
  match b.2 with
  | [] => None
  | first :: _ =>
      let first_privs := canonical_privs (gr_privileges first.2) in
      if negb (forallb (λ p, bool_decide (canonical_privs (gr_privileges p.2) = first_privs)) b.2) then None
      else
        let covered : gset string := list_to_set (omap (λ p, ot_name (gr_object p.2)) b.2) in
        if bool_decide (inventory !! b.1 = Some covered)
        then Some (list_to_set b.2.*1,
                   {| gr_role := gr_role first.2; gr_privileges := first_privs;
                      gr_object := {| ot_object_type := b.1.2; ot_schema := Some b.1.1; ot_name := Some "*" |};
                      gr_ensure := Ensure.Present |})
        else None
  end.

Definition collapse_full_coverage_grants (grants : list Grant) (inventory : Inventory) : list Grant :=
  let '(buckets, has_wildcard) := foldl bucket_grant (∅, ∅) (enumerate grants) in
  let kept := filter (λ b, b.1 ∉ has_wildcard) (map_iter buckets) in
  let collapsed := omap (collapse_bucket inventory) kept in
  let to_remove : gset nat := ⋃ collapsed.*1 in
  (filter (λ p, p.1 ∉ to_remove) (enumerate grants)).*2 ++ collapsed.*2.

(** ** Signatures *)

Record SignatureGrant := {
  sg_object_type : ObjectType;
  sg_name : option string;
  sg_privileges : list Privilege;
}.
Record SignatureDefault := {
  sd_on_type : ObjectType;
  sd_privileges : list Privilege;
}.
Record RoleSignature := {
  sig_grants : list SignatureGrant;
  sig_defaults : list SignatureDefault;
}.

Definition signature_grant_tuple (s : SignatureGrant) : ObjectType * (option string * list Privilege) :=
  (sg_object_type s, (sg_name s, sg_privileges s)).
Definition signature_default_tuple (s : SignatureDefault) : ObjectType * list Privilege :=
  (sd_on_type s, sd_privileges s).
Definition signature_tuple (s : RoleSignature) : list SignatureGrant * list SignatureDefault :=
  (sig_grants s, sig_defaults s).

#[export] Instance signature_grant_inj : Inj (=) (=) signature_grant_tuple.
Proof. intros [] [] [= -> -> ->]. done. Qed.
#[export] Instance signature_default_inj : Inj (=) (=) signature_default_tuple.
Proof. intros [] [] [= -> ->]. done. Qed.
#[export] Instance signature_inj : Inj (=) (=) signature_tuple.
Proof. intros [] [] [= -> ->]. done. Qed.
#[export] Instance signature_grant_eq_dec : EqDecision SignatureGrant.
Proof. solve_decision. Defined.
#[export] Instance signature_default_eq_dec : EqDecision SignatureDefault.
Proof. solve_decision. Defined.
#[export] Instance signature_eq_dec : EqDecision RoleSignature.
Proof. solve_decision. Defined.
#[export] Instance signature_grant_countable : Countable SignatureGrant.
Proof.
  apply (inj_countable' signature_grant_tuple
    (λ t, {| sg_object_type := t.1; sg_name := t.2.1; sg_privileges := t.2.2 |})). by intros [].
Defined.
#[export] Instance signature_default_countable : Countable SignatureDefault.
Proof. apply (inj_countable' signature_default_tuple (λ t, {| sd_on_type := t.1; sd_privileges := t.2 |})). by intros []. Defined.
#[export] Instance signature_countable : Countable RoleSignature.
Proof. apply (inj_countable' signature_tuple (λ t, {| sig_grants := t.1; sig_defaults := t.2 |})). by intros []. Defined.
#[export] Instance signature_grant_ord : Ord SignatureGrant := ord_by signature_grant_tuple.
#[export] Instance signature_default_ord : Ord SignatureDefault := ord_by signature_default_tuple.
#[export] Instance signature_ord : Ord RoleSignature := ord_by signature_tuple.

(** An entry of [role_dps]: the owner, the schema, the grant. *)
Definition RoleDefault : Type := string * string * DefaultPrivilegeGrant.

Definition signature_of_grant (schema : string) (g : Grant) : SignatureGrant := {|
  sg_object_type := ot_object_type (gr_object g);
  sg_name := match ot_object_type (gr_object g) with
             | ObjectType.Schema =>
                 if bool_decide (ot_name (gr_object g) = Some schema) then None else ot_name (gr_object g)
             | _ => ot_name (gr_object g)
             end;
  sg_privileges := canonical_privs (gr_privileges g) |}.
Definition signature_of_default (d : RoleDefault) : SignatureDefault := {|
  sd_on_type := dpg_on_type d.2; sd_privileges := canonical_privs (dpg_privileges d.2) |}.

Definition compute_signature (grants : list Grant) (dps : list RoleDefault) (schema : string) : RoleSignature := {|
  sig_grants := dedup (merge_sort ord_le (signature_of_grant schema <$> grants));
  sig_defaults := dedup (merge_sort ord_le (signature_of_default <$> dps)) |}.

(** ** Names and patterns *)

Definition SCHEMA_DASH_PROFILE : string := "{schema}-{profile}".
Definition pattern_priority : list string :=
  [SCHEMA_DASH_PROFILE; "{schema}_{profile}"; "{profile}-{schema}"; "{profile}_{schema}"].

(** [str::strip_prefix] *)
Fixpoint str_strip_prefix (pat s : string) : option string :=
  match pat, s with
  | "", s => Some s
  | String a pat, String b s => if Ascii.eqb a b then str_strip_prefix pat s else None
  | String _ _, "" => None
  end.

Definition nonempty_part (p : string) : option string := if String.eqb p "" then None else Some p.

Definition match_pattern (pattern role_name schema : string) : option string :=
  if String.eqb pattern "{schema}-{profile}" then
    r ← str_strip_prefix schema role_name; p ← str_strip_prefix "-" r; nonempty_part p
  else if String.eqb pattern "{schema}_{profile}" then
    r ← str_strip_prefix schema role_name; p ← str_strip_prefix "_" r; nonempty_part p
  else if String.eqb pattern "{profile}-{schema}" then
    r ← strip_suffix schema role_name; p ← strip_suffix "-" r; nonempty_part p
  else if String.eqb pattern "{profile}_{schema}" then
    r ← strip_suffix schema role_name; p ← strip_suffix "_" r; nonempty_part p
  else None.

Definition is_auto_profile_comment (c : string) : bool :=
  starts_with "Generated from profile '" c && str_contains "' for schema '" c &&
  bool_decide (is_Some (strip_suffix "'" c)).

Definition is_valid_identifier (s : string) : bool :=
  negb (String.eqb s "") &&
  forallb (λ c, is_ascii_alphanumeric c || String.eqb c "_" || String.eqb c "-") (chars s) &&
  negb (starts_with "-" s) && negb (starts_with "_" s).

(** ** Default privileges that profiles cannot express *)

Definition role_has_absent_default_privilege (input : PolicyManifest) (role : string) : bool :=
  existsb (λ dp, existsb (λ grant, bool_decide (dpg_role grant = Some role) &&
                                   bool_decide (dpg_ensure grant = Ensure.Absent)) (dp_grant dp))
    (pm_default_privileges input).

Definition is_global_scope (dp : DefaultPrivilege) : bool :=
  match resolved_scope dp with Ok DefaultPrivilegeScope.Global => true | _ => false end.

Definition role_has_global_default_privilege (input : PolicyManifest) (role : string) : bool :=
  existsb (λ dp, is_global_scope dp &&
                 existsb (λ grant, bool_decide (dpg_role grant = Some role)) (dp_grant dp))
    (pm_default_privileges input).

(** ** The profile of a cluster *)

Definition profile_grant_of (g : Grant) : ProfileGrant := {|
  pg_privileges := canonical_privs (gr_privileges g);
  pg_object := match ot_object_type (gr_object g) with
               | ObjectType.Schema => {| pot_object_type := ObjectType.Schema; pot_name := None |}
               | t => {| pot_object_type := t; pot_name := ot_name (gr_object g) |}
               end;
  pg_ensure := Ensure.Present |}.
Definition profile_default_of (d : RoleDefault) : DefaultPrivilegeGrant := {|
  dpg_role := None; dpg_privileges := canonical_privs (dpg_privileges d.2);
  dpg_on_type := dpg_on_type d.2; dpg_ensure := Ensure.Present |}.

Definition profile_grant_key (g : ProfileGrant) : ObjectType * option string :=
  (pot_object_type (pg_object g), pot_name (pg_object g)).
Definition profile_grant_le (a b : ProfileGrant) : Prop := ord_le (profile_grant_key a) (profile_grant_key b).
Definition profile_default_le (a b : DefaultPrivilegeGrant) : Prop := ord_le (dpg_on_type a) (dpg_on_type b).
#[export] Instance profile_grant_le_dec : RelDecision profile_grant_le.
Proof. intros a b. unfold profile_grant_le. apply _. Defined.
#[export] Instance profile_default_le_dec : RelDecision profile_default_le.
Proof. intros a b. unfold profile_default_le. apply _. Defined.

Definition build_profile (login inherit : option bool) (grants : list Grant) (dps : list RoleDefault) : Profile := {|
  prof_login := login; prof_inherit := inherit;
  prof_grants := merge_sort profile_grant_le (profile_grant_of <$> grants);
  prof_default_privileges := merge_sort profile_default_le (profile_default_of <$> dps);
  prof_config := ∅ |}.

(** ** Classification *)

Record Eligible := {
  el_role_name : string;
  el_schema : string;
  el_signature : RoleSignature;
  el_login : option bool;
  el_inherit : option bool;
}.

(** What the loop over the roles does with one. *)
Inductive Verdict : Type :=
  | Skip (reason : SkipReason)
  | Flat
  | Promote (e : Eligible).

Definition has_unique_attributes (role_def : RoleDefinition) : bool :=
  bool_decide (is_Some (rd_superuser role_def)) || bool_decide (is_Some (rd_createdb role_def)) ||
  bool_decide (is_Some (rd_createrole role_def)) || bool_decide (is_Some (rd_replication role_def)) ||
  bool_decide (is_Some (rd_bypassrls role_def)) || bool_decide (is_Some (rd_connection_limit role_def)) ||
  bool_decide (is_Some (rd_password role_def)) || bool_decide (is_Some (rd_password_valid_until role_def)) ||
  negb (bool_decide (rd_config role_def = ∅)) ||
  from_option (λ c, negb (is_auto_profile_comment c)) false (rd_comment role_def).

(** The schema one grant touches, or nothing when a profile cannot express the grant. *)
Definition grant_schema (g : Grant) : option string :=
  match ot_object_type (gr_object g) with
  | ObjectType.Schema => ot_name (gr_object g)
  | ObjectType.Database => None
  | _ => ot_schema (gr_object g)
  end.
Definition unrepresentable (g : Grant) : bool :=
  bool_decide (gr_ensure g = Ensure.Absent) || bool_decide (grant_schema g = None).

Definition push_entry {A} (m : gmap string (list A)) (k : string) (x : A) : gmap string (list A) :=
  <[k := default [] (m !! k) ++ [x]]> m.

Definition group_grants (grants : list Grant) : gmap string (list Grant) :=
  foldl (λ m g, push_entry m (gr_role g) g) ∅ grants.

Definition default_entries (input : PolicyManifest) (dp : DefaultPrivilege) : list (string * RoleDefault) :=
  match resolved_scope dp with
  | Ok (DefaultPrivilegeScope.Schema schema) =>
      let owner := default "" (match dp_owner dp with Some o => Some o | None => pm_default_owner input end) in
      omap (λ grant, (λ role, (role, (owner, schema, grant))) <$> dpg_role grant) (dp_grant dp)
  | _ => []
  end.
Definition group_defaults (input : PolicyManifest) : gmap string (list RoleDefault) :=
  foldl (λ m p, push_entry m p.1 p.2) ∅ (pm_default_privileges input ≫= default_entries input).

Definition schema_owner_index (input : PolicyManifest) : gmap string (option string) :=
  map_collect ((λ s, (sb_name s, match sb_owner s with Some o => Some o | None => pm_default_owner input end))
                 <$> pm_schemas input).

Definition classify (input : PolicyManifest) (role_grants : gmap string (list Grant))
    (role_dps : gmap string (list RoleDefault)) (schema_owner : gmap string (option string))
    (role_def : RoleDefinition) : Verdict :=
  let role_name := rd_name role_def in
  if has_unique_attributes role_def then Skip (SkipReason.UniqueAttributes role_name)
  else
    let grants := default [] (role_grants !! role_name) in
    if existsb unrepresentable grants then Skip (SkipReason.UnrepresentableGrant role_name)
    else if role_has_global_default_privilege input role_name || role_has_absent_default_privilege input role_name
    then Skip (SkipReason.UnrepresentableGrant role_name)
    else
      let dps := default [] (role_dps !! role_name) in
      let schemas_seen : gset string := list_to_set (omap grant_schema grants) ∪
                                        list_to_set ((λ d : RoleDefault, d.1.2) <$> dps) in
      match set_iter schemas_seen with
      | [] => Flat
      | _ :: _ :: _ => Skip (SkipReason.MultiSchema role_name (set_iter schemas_seen))
      | [schema] =>
          match schema_owner !! schema with
          | None => Skip (SkipReason.SchemaNotDeclared role_name schema)
          | Some owner_for_schema =>
              if existsb (λ d : RoleDefault, negb (bool_decide (Some d.1.1 = owner_for_schema))) dps
              then Skip (SkipReason.OwnerMismatch role_name schema)
              else Promote {| el_role_name := role_name; el_schema := schema;
                              el_signature := compute_signature grants dps schema;
                              el_login := rd_login role_def; el_inherit := rd_inherit role_def |}
          end
      end.

Definition verdict_skip (v : Verdict) : option SkipReason := match v with Skip r => Some r | _ => None end.
Definition verdict_eligible (v : Verdict) : option Eligible := match v with Promote e => Some e | _ => None end.

(** ** Clusters *)

Abbreviation ClusterKey := (RoleSignature * (option bool * option bool))%type.

Definition cluster_key (el : Eligible) : ClusterKey := (el_signature el, (el_login el, el_inherit el)).
Definition build_clusters (eligible : list Eligible) : gmap ClusterKey (list Eligible) :=
  foldl (λ m el, <[cluster_key el := default [] (m !! cluster_key el) ++ [el]]> m) ∅ eligible.

(** Larger clusters first, ties by the key. *)
Definition cluster_le (a b : ClusterKey * list Eligible) : Prop :=
  length b.2 < length a.2 ∨ (length b.2 = length a.2 ∧ ord_le a.1 b.1).
#[export] Instance cluster_le_dec : RelDecision cluster_le.
Proof. intros a b. unfold cluster_le. apply _. Defined.

Definition cluster_entries (eligible : list Eligible) : list (ClusterKey * list Eligible) :=
  merge_sort cluster_le (map_iter (build_clusters eligible)).

(** [members.iter().filter(|m| seen.insert(m.schema))] *)
Fixpoint first_per_schema (seen : gset string) (members : list Eligible) : list Eligible :=
  match members with
  | [] => []
  | m :: members =>
      if bool_decide (el_schema m ∈ seen) then first_per_schema seen members
      else m :: first_per_schema ({[el_schema m]} ∪ seen) members
  end.

(** What the loop over the clusters builds. *)
Record Building := {
  bu_schema_pattern : gmap string string;
  bu_schema_profiles : gmap string (list string);
  bu_profiles : gmap string Profile;
  bu_suggested : list SuggestedProfile;
  bu_taken : gset string;
  bu_clustered : gset string;
  bu_skipped : list SkipReason;
}.

(** The name all members agree on under one pattern, if it may be used. *)
Definition viable_name (input : PolicyManifest) (taken : gset string) (pat : string) (members : list Eligible) :
    option string :=
  let parts := (λ m, match_pattern pat (el_role_name m) (el_schema m)) <$> members in
  if forallb (λ p, bool_decide (is_Some p)) parts then
    match set_iter (list_to_set (omap id parts) : gset string) with
    | [n] => if negb (is_valid_identifier n) || bool_decide (n ∈ taken) ||
                bool_decide (is_Some (pm_profiles input !! n))
             then None else Some n
    | _ => None
    end
  else None.

Definition blocked_by_schema (schema_pattern : gmap string string) (pat : string) (members : list Eligible) :
    option (string * string) :=
  head (omap (λ m, match schema_pattern !! el_schema m with
                   | Some committed => if String.eqb committed pat then None else Some (el_schema m, committed)
                   | None => None
                   end) members).

(** The first pattern that works, or the first conflict met. *)
Fixpoint choose_pattern (input : PolicyManifest) (b : Building) (members : list Eligible)
    (blocking : option (string * string)) (patterns : list string) :
    option (string * string) * option (string * string) :=
  match patterns with
  | [] => (None, blocking)
  | pat :: patterns =>
      match viable_name input (bu_taken b) pat members, blocked_by_schema (bu_schema_pattern b) pat members with
      | Some name, None => (Some (pat, name), blocking)
      | Some _, Some conflict =>
          choose_pattern input b members (match blocking with None => Some conflict | Some c => Some c end) patterns
      | None, _ => choose_pattern input b members blocking patterns
      end
  end.

Definition skip_cluster (b : Building) (reasons : list SkipReason) : Building := {|
  bu_schema_pattern := bu_schema_pattern b; bu_schema_profiles := bu_schema_profiles b;
  bu_profiles := bu_profiles b; bu_suggested := bu_suggested b; bu_taken := bu_taken b;
  bu_clustered := bu_clustered b; bu_skipped := bu_skipped b ++ reasons |}.

(** Commit the pattern and the profile on every schema of the cluster. *)
Definition commit_cluster (b : Building) (pattern profile_name : string) (members : list Eligible) (profile : Profile) :
    Building := {|
  bu_schema_pattern := foldl (λ m e, <[el_schema e := pattern]> m) (bu_schema_pattern b) members;
  bu_schema_profiles := foldl (λ m e, push_entry m (el_schema e) profile_name) (bu_schema_profiles b) members;
  bu_profiles := <[profile_name := profile]> (bu_profiles b);
  bu_suggested := bu_suggested b ++
    [{| sug_profile_name := profile_name; sug_role_pattern := pattern;
        sug_schema_to_role := map_collect ((λ m, (el_schema m, el_role_name m)) <$> members) |}];
  bu_taken := {[profile_name]} ∪ bu_taken b;
  bu_clustered := list_to_set (el_role_name <$> members) ∪ bu_clustered b;
  bu_skipped := bu_skipped b |}.

Definition process_cluster (input : PolicyManifest) (min_schemas : nat) (role_grants : gmap string (list Grant))
    (role_dps : gmap string (list RoleDefault)) (b : Building) (entry : ClusterKey * list Eligible) : Building :=
  let '((_, (login, inherit)), members) := entry in
  let distinct_schemas : gset string := list_to_set (el_schema <$> members) in
  if size distinct_schemas <? min_schemas then
    skip_cluster b ((λ m, SkipReason.SoleSchema (el_role_name m) (el_schema m)) <$> members)
  else
    let unique_members := first_per_schema ∅ members in
    match choose_pattern input b unique_members None pattern_priority with
    | (Some (pattern, profile_name), _) =>
        match unique_members with
        | representative :: _ =>
            commit_cluster b pattern profile_name unique_members
              (build_profile login inherit (default [] (role_grants !! el_role_name representative))
                 (default [] (role_dps !! el_role_name representative)))
        | [] => b
        end
    | (None, Some (schema, winning_pattern)) =>
        skip_cluster b [SkipReason.SchemaPatternConflict schema winning_pattern (el_role_name <$> unique_members)]
    | (None, None) => skip_cluster b [SkipReason.NoUniformPattern (el_role_name <$> unique_members)]
    end.

(** ** The candidate manifest *)

Definition new_schema (b : Building) (s : SchemaBinding) : SchemaBinding := {|
  sb_name := sb_name s;
  sb_profiles := merge_sort ord_le (default [] (bu_schema_profiles b !! sb_name s));
  sb_role_pattern := match bu_schema_pattern b !! sb_name s with Some p => Some p | None => sb_role_pattern s end;
  sb_owner := sb_owner s |}.
Definition schema_name_le (a b : SchemaBinding) : Prop := ord_le (sb_name a) (sb_name b).
#[export] Instance schema_name_le_dec : RelDecision schema_name_le.
Proof. intros a b. unfold schema_name_le. apply _. Defined.

Definition kept_default (clustered : gset string) (dp : DefaultPrivilege) : option DefaultPrivilege :=
  match filter (λ g, from_option (λ r, bool_decide (r ∈ clustered)) false (dpg_role g) = false) (dp_grant dp) with
  | [] => None
  | kept => Some {| dp_owner := dp_owner dp; dp_schema := dp_schema dp; dp_scope := dp_scope dp; dp_grant := kept |}
  end.

Definition candidate_manifest (input : PolicyManifest) (b : Building) : PolicyManifest := {|
  pm_role_pattern := pm_role_pattern input; pm_default_owner := pm_default_owner input;
  pm_auth_providers := pm_auth_providers input; pm_profiles := bu_profiles b;
  pm_schemas := merge_sort schema_name_le (new_schema b <$> pm_schemas input);
  pm_roles := filter (λ r, rd_name r ∉ bu_clustered b) (pm_roles input);
  pm_grants := filter (λ g, gr_role g ∉ bu_clustered b) (pm_grants input);
  pm_default_privileges := omap (kept_default (bu_clustered b)) (pm_default_privileges input);
  pm_memberships := pm_memberships input; pm_retirements := pm_retirements input |}.

(** ** The round-trip check *)

Definition with_grants_expanded (em : ExpandedManifest) (inventory : Inventory) : ExpandedManifest := {|
  em_schemas := em_schemas em; em_roles := em_roles em;
  em_grants := expand_wildcards_in_place (em_grants em) inventory;
  em_default_privileges := em_default_privileges em; em_memberships := em_memberships em |}.

(** A manifest to the graph that is compared. *)
Definition graph_over (inventory : Inventory) (manifest : PolicyManifest)
    (expand graph : ManifestError → RoundTripError) : res RoundTripError RoleGraph :=
  expanded ← res_map_err expand (expand_manifest manifest);
  res_map_err graph (from_expanded (with_grants_expanded expanded inventory) (pm_default_owner manifest)).

Definition is_set_comment (c : Change) : bool := match c with Change.SetComment _ _ => true | _ => false end.

Definition check_round_trip (original candidate : PolicyManifest) (inventory : Inventory) : res RoundTripError unit :=
  original_graph ← graph_over inventory original RoundTripError.OriginalExpand RoundTripError.OriginalGraph;
  candidate_graph ← graph_over inventory candidate RoundTripError.CandidateExpand RoundTripError.CandidateGraph;
  let unacceptable := filter (λ c, is_set_comment c = false) (diff original_graph candidate_graph) in
  throw_if (negb (bool_decide (unacceptable = [])))
    (RoundTripError.StructuralChanges (length unacceptable) (head unacceptable)).

(** ** The suggester *)

(** The inventory trusted for collapsing, and the reason for not trusting the one given. *)
Definition collapse_inventory_of (opts : SuggestOptions) (grant_inventory : Inventory) :
    option Inventory * list SkipReason :=
  match so_full_inventory opts with
  | None => (None, [])
  | Some full =>
      match validate_full_inventory grant_inventory full with
      | None => (Some full, [])
      | Some reason => (None, [SkipReason.IncompleteFullInventory reason])
      end
  end.

(** The grants of each role, collapsed when an inventory is trusted. *)
Definition role_grants_of (input : PolicyManifest) (collapse_inventory : option Inventory) :
    gmap string (list Grant) :=
  let grants := group_grants (pm_grants input) in
  match collapse_inventory with
  | Some inv => (λ gs, collapse_full_coverage_grants gs inv) <$> grants
  | None => grants
  end.

Definition build_suggestion (input : PolicyManifest) (min_schemas : nat) (collapse_inventory : option Inventory)
    (skipped : list SkipReason) : Building :=
  let role_grants := role_grants_of input collapse_inventory in
  let role_dps := group_defaults input in
  let verdicts := classify input role_grants role_dps (schema_owner_index input) <$> pm_roles input in
  foldl (process_cluster input min_schemas role_grants role_dps)
    {| bu_schema_pattern := ∅; bu_schema_profiles := ∅; bu_profiles := ∅; bu_suggested := [];
       bu_taken := ∅; bu_clustered := ∅; bu_skipped := skipped ++ omap verdict_skip verdicts |}
    (cluster_entries (omap verdict_eligible verdicts)).

Definition suggest_profiles {E} (input : PolicyManifest) (opts : SuggestOptions) : res E SuggestReport :=
  if negb (bool_decide (pm_profiles input = ∅)) then
    Ok {| sr_manifest := input; sr_profiles := []; sr_skipped := []; sr_round_trip_ok := true |}
  else
    let grant_inventory := build_inventory input in
    let '(collapse_inventory, skipped) := collapse_inventory_of opts grant_inventory in
    let b := build_suggestion input (so_min_schemas opts) collapse_inventory skipped in
    let candidate := candidate_manifest input b in
    let round_trip_inventory := default grant_inventory collapse_inventory in
    match check_round_trip input candidate round_trip_inventory with
    | Ok _ => Ok {| sr_manifest := candidate; sr_profiles := bu_suggested b;
                    sr_skipped := bu_skipped b; sr_round_trip_ok := true |}
    | Err reason => Ok {| sr_manifest := input; sr_profiles := [];
                          sr_skipped := bu_skipped b ++ [SkipReason.RoundTripFailure reason];
                          sr_round_trip_ok := false |}
    | Panic => Panic
    end.
