(* ===== verification/SuggestFacts.v ===== *)
(** * What a plan of comments says about the two graphs

    When the difference between two graphs that manifests describe has no change but
    comments, the graphs agree: this is what the round-trip check of the suggester rests
    on. *)

From S2P Require Import Prelude BTree RustStr Types Model Change Diff DiffFacts DiffSafety Interp Converge Convergence Manifest ManifestFacts Desired K8sNames Suggest.

Lemma part_nil (kind : Change → bool) l :
  emits kind l → (∀ c, kind c → is_set_comment c = false) → (∀ c, c ∈ l → is_set_comment c = true) → l = [].
Proof.
  intros Hk Hc Hl. destruct l as [|c l]; [done|]. exfalso.
  assert (c ∈ c :: l) as Hin by left. pose proof (Hl _ Hin) as H1. pose proof (Hc c (Hk _ Hin)) as H2. congruence.
Qed.

Lemma bind_nil_elim {A B} (f : A → list B) l a : l ≫= f = [] → a ∈ l → f a = [].
Proof.
  intros Hb Ha. destruct (f a) as [|b k] eqn:Hf; [done|]. assert (b ∈ l ≫= f) as Hin.
  { apply list_elem_of_bind. exists a. rw Hf. split; [by left|done]. }
  rw Hb in Hin. by apply not_elem_of_nil in Hin.
Qed.

Lemma push_exact_nonempty current desired key X :
  grant_entry_grantors current = ∅ → push_revokes_exact current desired key X ≠ [].
Proof.
  intros Hg. unfold push_revokes_exact. destruct (schema_owner_moves _ _ _); [done|].
  by rw Hg lookup_empty.
Qed.

Section quiet.
Context (current desired : RoleGraph)
  (Halias : routine_aliases current = ∅) (Hinherent : inherent_grants current = ∅)
  (Hgrantors : grant_entry_grantors current = ∅)
  (Hquiet : ∀ c, c ∈ diff current desired → is_set_comment c = true).

Lemma quiet_aligned : aligned current desired = desired.
Proof. unfold aligned, resolve_routine_aliases. by rw Halias bool_decide_true. Qed.

Lemma quiet_segments c :
  c ∈ (diff_roles current desired).1.1 ∨ c ∈ (diff_roles current desired).1.2 ∨
  c ∈ (diff_schemas current desired).1 ∨ c ∈ (diff_grants current desired).1 ∨
  c ∈ (diff_default_privileges current desired).1 ∨
  c ∈ filter (λ c, retain_revoke (incoming current desired) c) (diff_grants current desired).2 ∨
  c ∈ (diff_default_privileges current desired).2 ∨ c ∈ (diff_roles current desired).2 →
  is_set_comment c = true.
Proof. intros Hc. apply Hquiet. rw diff_segments; cbv zeta. rw !quiet_aligned !elem_of_app. tauto. Qed.

(** Closes [l = []] for a segment that emits no comment. *)
Ltac segment_nil lem :=
  eapply part_nil; [apply lem|by intros []|intros c Hc; apply quiet_segments; tauto].

Lemma quiet_creates : (diff_roles current desired).1.1 = [].
Proof. segment_nil emits_creates. Qed.
Lemma quiet_drops : (diff_roles current desired).2 = [].
Proof. segment_nil emits_drops. Qed.
Lemma quiet_additions : (diff_grants current desired).1 = [].
Proof. segment_nil emits_grants. Qed.
Lemma quiet_schema_changes : (diff_schemas current desired).1 = [].
Proof. segment_nil emits_schema_changes. Qed.
Lemma quiet_set_defaults : (diff_default_privileges current desired).1 = [].
Proof. segment_nil emits_set_defaults. Qed.
Lemma quiet_revoke_defaults : (diff_default_privileges current desired).2 = [].
Proof. segment_nil emits_revoke_defaults. Qed.

Lemma quiet_revokes : (diff_grants current desired).2 = [].
Proof.
  assert (incoming current desired = ∅) as Hin.
  { unfold incoming, incoming_owners. by rw quiet_schema_changes. }
  apply (part_nil is_revoke); [apply emits_revokes|by intros []|]. intros c Hc. apply quiet_segments.
  do 5 right. left. apply list_elem_of_filter. split; [|done]. rw Hin.
  destruct c; try done. destruct object_type; try done. destruct name; [|done].
  apply bool_decide_pack, not_elem_of_empty.
Qed.

(** *** Roles *)

Lemma quiet_role name s' :
  roles desired !! name = Some s' →
  ∃ s, roles current !! name = Some s ∧ s' = with_comment s (rs_comment s').
Proof.
  intros Hd. destruct (roles current !! name) as [s|] eqn:Hc.
  - exists s. split; [done|].
    assert (changed_attributes s s' = []) as Hattr.
    { destruct (changed_attributes s s') as [|a l] eqn:Ha; [done|]. exfalso.
      assert (is_set_comment (Change.AlterRole name (a :: l)) = true) as H; [|done].
      apply quiet_segments. right. left. cbn [diff_roles fst snd]. apply list_elem_of_bind.
      exists (name, s'). split; [|by apply elem_of_map_iter].
      unfold diff_role. rw Hc. cbn [snd]. rw Ha. by left. }
    pose proof (changed_attributes_apply s s') as Happ. rw Hattr in Happ. cbn in Happ.
    transitivity (with_comment (with_comment s' (rs_comment s)) (rs_comment s')); [by destruct s'|by rw -Happ].
  - exfalso. assert (Change.CreateRole name s' ∈ (diff_roles current desired).1.1) as Hin.
    { cbn [diff_roles fst]. apply list_elem_of_bind. exists (name, s').
      split; [|by apply elem_of_map_iter]. unfold diff_role. rw Hc. by left. }
    rw quiet_creates in Hin. by apply not_elem_of_nil in Hin.
Qed.

Lemma quiet_role_kept name : is_Some (roles current !! name) → is_Some (roles desired !! name).
Proof.
  intros Hc. destruct (roles desired !! name) as [s|] eqn:Hd; [by eexists|]. exfalso.
  assert (Change.DropRole name ∈ (diff_roles current desired).2) as Hin.
  { cbn [diff_roles snd]. apply list_elem_of_bind. exists name. rw Hd. split; [by left|].
    by apply elem_of_map_keys. }
  rw quiet_drops in Hin. by apply not_elem_of_nil in Hin.
Qed.

(** The two graphs have the same roles, comments apart. *)
Lemma quiet_roles name :
  (λ s, with_comment s None) <$> roles current !! name = (λ s, with_comment s None) <$> roles desired !! name.
Proof.
  destruct (roles desired !! name) as [s'|] eqn:Hd.
  - destruct (quiet_role _ _ Hd) as (s & Hs & He). rw Hs /= He. by destruct s.
  - destruct (roles current !! name) as [s|] eqn:Hc; [|done].
    destruct (quiet_role_kept name) as [? ?]; [by eexists|congruence].
Qed.

(** *** Grants *)

Lemma quiet_grant key p : holds (grants desired) key p → holds (grants current) key p.
Proof.
  pose proof quiet_additions as Hadd. unfold diff_grants in Hadd. rw diff_grants_state_eq in Hadd.
  cbn [fst] in Hadd. unfold holds. destruct (grants desired !! key) as [D|] eqn:Hd; [|by intros ?%not_elem_of_empty].
  cbn [default]. intros Hp.
  assert (present_missing current (key, D) = []) as Hm.
  { apply (bind_nil_elim _ _ (key, D) Hadd). by apply elem_of_map_iter. }
  unfold present_missing in Hm. cbn [fst snd] in Hm. destruct (grants current !! key) as [C|]; [|done].
  case_bool_decide; [|done]. cbn. set_solver.
Qed.

(** A privilege planned for revocation without any revoke is one of a wildcard whose scope
    names an object. *)
Lemma quiet_revoked key p :
  p ∈ revoked current desired key →
  is_wildcard key = true ∧
  ∃ k X, grants current !! k = Some X ∧ in_scope key k = true ∧ is_wildcard k = false.
Proof.
  intros Hp. pose proof quiet_revokes as Hrev. unfold diff_grants in Hrev.
  pose proof (revokes_lookup current desired key) as Hlk.
  destruct (diff_grants_state current desired) as [out r]. cbn [fst snd] in *.
  rw decide_False in Hlk; [|set_solver].
  assert (push_revokes_split_by_grantor current desired key (revoked current desired key) = []) as Hpush.
  { apply (bind_nil_elim _ _ (key, revoked current desired key) Hrev). by apply elem_of_map_iter. }
  unfold push_revokes_split_by_grantor in Hpush.
  destruct (is_wildcard key) eqn:Hw; cbn [andb] in Hpush.
  2:{ by apply push_exact_nonempty in Hpush. }
  split; [done|].
  destruct (bool_decide (concrete_targets current key ≠ ∅)) eqn:Hct; cbn [orb] in Hpush.
  - apply bool_decide_eq_true in Hct. apply map_choose in Hct as (k & X & Hk).
    pose proof (concrete_targets_spec _ _ _ _ Hk) as [Hkw Hks].
    unfold concrete_targets in Hk. apply (extend_concrete_lookup (λ X, X)) in Hk as [[Y HY]|[_ Hin]].
    + exfalso. rw Hgrantors in HY. revert HY. rw scope_scan. rw map_iter_empty. cbn. by rw lookup_empty.
    + apply elem_of_scope_scan in Hin as [_ [Z HZ]]. exists k, Z. by apply Is_true_true in Hks.
  - destruct (has_inherent current key) eqn:Hi.
    + apply Is_true_true, has_inherent_spec in Hi as (k & Hk & _). rw Hinherent in Hk. set_solver.
    + by apply push_exact_nonempty in Hpush.
Qed.

(** What is granted on a name to a role stays granted, on it or by a wildcard, or is
    asserted absent by a wildcard. *)
Lemma quiet_grant_kept key p :
  is_wildcard key = false → is_public (gk_role key) = false → holds (grants current) key p →
  holds (grants desired) key p ∨ p ∈ shadowing (grants desired) key ∨ p ∈ shadowing (grant_absences desired) key.
Proof.
  intros Hw Hpub Hp. destruct (decide (p ∈ default ∅ (grants desired !! key))) as [|Hn]; [by left|right].
  destruct (decide (p ∈ shadowing (grants desired) key)) as [|Hs1]; [by left|].
  destruct (decide (p ∈ shadowing (grant_absences desired) key)) as [|Hs2]; [by right|].
  exfalso. assert (p ∈ revoked current desired key) as Hr.
  { apply elem_of_revoked. left. unfold drifted. rw Hinherent. split_and!; [done|set_solver|done..]. }
  apply quiet_revoked in Hr as [? _]. congruence.
Qed.

(** *** Default privileges *)

Lemma quiet_default key p : holds (default_privileges desired) key p → holds (default_privileges current) key p.
Proof.
  pose proof quiet_set_defaults as Hset. rw diff_default_privileges_eq in Hset. cbn [fst] in Hset.
  unfold holds. destruct (default_privileges desired !! key) as [D|] eqn:Hd; [|by intros ?%not_elem_of_empty].
  cbn [default]. intros Hp.
  pose proof (bind_nil_elim _ _ (key, D) Hset) as Hm. cbn beta in Hm. cbn [fst snd] in Hm.
  specialize (Hm ltac:(by apply elem_of_map_iter)).
  destruct (default_privileges current !! key) as [C|]; [|done]. case_bool_decide; [|done]. cbn. set_solver.
Qed.

Lemma quiet_default_kept key p :
  is_public (dk_grantee key) = false →
  holds (default_privileges current) key p → holds (default_privileges desired) key p.
Proof.
  intros Hpub Hp. unfold holds. destruct (decide (p ∈ default ∅ (default_privileges desired !! key))) as [|Hn]; [done|].
  exfalso. pose proof quiet_revoke_defaults as Hrev. rw diff_default_privileges_eq in Hrev. cbn [snd] in Hrev.
  assert (p ∈ default ∅ (default_revokes current desired !! key)) as Hr.
  { rw default_revokes_lookup. unfold default_revoked. unfold holds in Hp.
    destruct (default_privileges current !! key) as [C|] eqn:Hc; cbn in Hp; [|set_solver].
    destruct (default_privileges desired !! key) as [D|] eqn:Hd; cbn in Hn |- *; rw Hpub; cbn.
    all: rw ?bool_decide_true ?bool_decide_false //; try (by intros ?%is_Some_None); try by eexists.
    all: cbn; set_solver. }
  destruct (default_revokes current desired !! key) as [X|] eqn:HX; [|set_solver].
  pose proof (bind_nil_elim _ _ (key, X) Hrev) as Hm. cbn in Hm.
  discriminate Hm. by apply elem_of_map_iter.
Qed.
End quiet.

(** ** What a suggested manifest keeps

    A manifest the suggester returns describes the same database as the one it was given:
    the same roles but for their comments, schemas, memberships, access and defaults.  The
    round-trip check sees this for the access of roles; what the check cannot see, the
    candidate keeps by construction. *)

(** ** Loops *)

Lemma foldl_elem_inv {A S} (I : S → Prop) (f : S → A → S) l s :
  I s → (∀ s a, a ∈ l → I s → I (f s a)) → I (foldl f s l).
Proof.
  revert s. induction l as [|a l IH]; intros s Hs Hf; cbn [foldl]; [done|].
  apply IH; [apply Hf; [by left|done]|]. intros s' a' Ha. apply Hf. by right.
Qed.

Lemma elem_of_enumerate {A} (l : list A) i x : (i, x) ∈ enumerate l ↔ l !! i = Some x.
Proof.
  unfold enumerate. rw list_elem_of_lookup. split.
  - intros (j & Hj). apply lookup_zip_Some in Hj as [Hs Hl]. apply lookup_seq in Hs as [-> _]. done.
  - intros Hl. exists i. apply lookup_zip_Some. split; [|done].
    apply lookup_seq. split; [lia|]. by eapply lookup_lt_Some.
Qed.

(** ** Grouping and collapsing keep what they do not bucket *)

Lemma elem_of_group_grants l g : g ∈ l → g ∈ default [] (group_grants l !! gr_role g).
Proof.
  unfold group_grants. intros Hg. revert Hg. generalize (∅ : gmap string (list Grant)).
  induction l as [|x l IH]; intros m; [by intros ?%not_elem_of_nil|]. cbn [foldl].
  intros [->|Hg]%elem_of_cons; [|by apply IH].
  clear IH. assert (x ∈ default [] (push_entry m (gr_role x) x !! gr_role x)) as Hx.
  { unfold push_entry. rw lookup_insert_eq. cbn. apply elem_of_app. right. by left. }
  revert Hx. generalize (push_entry m (gr_role x) x). clear m.
  induction l as [|y l IH]; intros m Hx; cbn [foldl]; [done|]. apply IH. unfold push_entry.
  destruct (decide (gr_role y = gr_role x)) as [->|Hne].
  - rw lookup_insert_eq. cbn. apply elem_of_app. by left.
  - by rw lookup_insert_ne.
Qed.

(** A grant that may be in a bucket. *)
Definition bucketable (g : Grant) : Prop :=
  is_object_type (ot_object_type (gr_object g)) = true ∧ is_Some (ot_schema (gr_object g)).

Definition buckets_ok (grants : list Grant) (acc : Buckets * gset (string * ObjectType)) : Prop :=
  ∀ key l p, acc.1 !! key = Some l → p ∈ l → grants !! p.1 = Some p.2 ∧ bucketable p.2.

Lemma bucket_grants_ok grants : buckets_ok grants (foldl bucket_grant (∅, ∅) (enumerate grants)).
Proof.
  apply (foldl_elem_inv (buckets_ok grants)).
  - intros key l p. cbn. by rw lookup_empty.
  - intros [bs ws] [i g] Hin%elem_of_enumerate Hok. unfold bucket_grant. cbn [snd].
    destruct (is_object_type _) eqn:Ht; cbn [negb]; [|done].
    destruct (ot_schema _) as [schema|] eqn:Hs; [|done]. destruct (ot_name _) as [name|]; [|done].
    destruct (String.eqb name "*"); [exact Hok|]. intros key l p. cbn [fst].
    rw lookup_insert_Some. intros [[<- <-]|[_ Hl]] Hp; [|exact (Hok _ _ _ Hl Hp)]. revert Hp.
    intros [Hp|Hp]%elem_of_app.
    + destruct (bs !! _) as [l0|] eqn:Hl0; [|by apply not_elem_of_nil in Hp]. exact (Hok _ _ _ Hl0 Hp).
    + apply list_elem_of_singleton in Hp as ->. split; [done|]. split; [done|]. by rw Hs.
Qed.

Lemma collapse_keeps grants inv g : g ∈ grants → ¬ bucketable g → g ∈ collapse_full_coverage_grants grants inv.
Proof.
  intros Hg Hnb. unfold collapse_full_coverage_grants. pose proof (bucket_grants_ok grants) as Hok.
  destruct (foldl _ _ _) as [bs ws]. apply elem_of_app. left.
  apply list_elem_of_lookup in Hg as [i Hi]. apply list_elem_of_fmap. exists (i, g). split; [done|].
  apply list_elem_of_filter. split; [|by apply elem_of_enumerate]. cbn [fst]. intros Hrem.
  apply elem_of_union_list in Hrem as (X & HX & HiX). apply list_elem_of_fmap in HX as ([X' w] & -> & Hc).
  apply list_elem_of_omap in Hc as ([key l] & Hkept & Hb). cbn [fst] in HiX.
  apply list_elem_of_filter in Hkept as [_ Hin]. apply elem_of_map_iter in Hin.
  unfold collapse_bucket in Hb. cbn [fst snd] in Hb. destruct l as [|first l]; [done|].
  destruct (negb _); [done|]. case_bool_decide; [|done]. assert (list_to_set ((first :: l).*1) = X') as <- by congruence.
  apply elem_of_list_to_set, list_elem_of_fmap in HiX as ([j g'] & -> & Hj). cbn in Hi.
  destruct (Hok _ _ _ Hin Hj) as [Hl Hbk]. cbn in Hl, Hbk. congruence.
Qed.

Lemma role_grants_elem input ci g :
  g ∈ pm_grants input → ci = None ∨ ¬ bucketable g → g ∈ default [] (role_grants_of input ci !! gr_role g).
Proof.
  intros Hg Hc. apply elem_of_group_grants in Hg. unfold role_grants_of. destruct ci as [inv|]; [|done].
  destruct Hc as [[=]|Hc]. rw lookup_fmap.
  destruct (group_grants (pm_grants input) !! gr_role g) as [gs|]; [|by apply not_elem_of_nil in Hg].
  cbn in Hg |- *. by apply collapse_keeps.
Qed.

(** ** Roles that become part of a profile *)

Section clusters.
Context (input : PolicyManifest) (min_schemas : nat) (ci : option Inventory) (skipped : list SkipReason).
Let rg := role_grants_of input ci.
Let rd := group_defaults input.

Lemma first_per_schema_elem seen l e : e ∈ first_per_schema seen l → e ∈ l.
Proof.
  revert seen. induction l as [|x l IH]; intros seen; cbn [first_per_schema]; [done|].
  case_bool_decide; [intros ?%IH; by right|]. intros [->|?%IH]%elem_of_cons; [by left|by right].
Qed.

Lemma build_clusters_elem eligible key l e :
  build_clusters eligible !! key = Some l → e ∈ l → e ∈ eligible.
Proof.
  revert key l e. unfold build_clusters.
  apply (foldl_elem_inv (λ m : gmap ClusterKey (list Eligible), ∀ key l e, m !! key = Some l → e ∈ l → e ∈ eligible)).
  - intros key l e. by rw lookup_empty.
  - intros m x Hx Hm key l e. rw lookup_insert_Some. intros [[_ <-]|[_ Hl]] He; [|exact (Hm _ _ _ Hl He)]. revert He.
    intros [He|He]%elem_of_app.
    + destruct (m !! cluster_key x) eqn:Hl; [|by apply not_elem_of_nil in He]. exact (Hm _ _ _ Hl He).
    + by apply list_elem_of_singleton in He as ->.
Qed.

Lemma process_clustered b entry r :
  r ∈ bu_clustered (process_cluster input min_schemas rg rd b entry) →
  r ∈ bu_clustered b ∨ r ∈ el_role_name <$> entry.2.
Proof.
  destruct entry as [[sig [login inherit]] members]. unfold process_cluster. cbn [snd].
  destruct (_ <? _); [by left|]. destruct (choose_pattern _ _ _ _ _) as [[[pat name]|] conflict].
  - destruct (first_per_schema ∅ members) as [|x l] eqn:Hf; [by left|]. cbn [commit_cluster bu_clustered].
    rw elem_of_union elem_of_list_to_set. intros [Hr|Hr]; [right|by left]. rw -Hf in Hr.
    apply list_elem_of_fmap in Hr as (e & -> & He%first_per_schema_elem).
    apply list_elem_of_fmap. by exists e.
  - destruct conflict as [[? ?]|]; by left.
Qed.

Lemma clustered_promoted r :
  r ∈ bu_clustered (build_suggestion input min_schemas ci skipped) →
  ∃ role e, role ∈ pm_roles input ∧ el_role_name e = r ∧
    classify input rg rd (schema_owner_index input) role = Promote e.
Proof.
  unfold build_suggestion. fold rg rd.
  set (verdicts := classify input rg rd (schema_owner_index input) <$> pm_roles input).
  apply (foldl_elem_inv (λ b, r ∈ bu_clustered b → ∃ role e, role ∈ pm_roles input ∧ el_role_name e = r ∧
    classify input rg rd (schema_owner_index input) role = Promote e)).
  - by intros ?%elem_of_empty.
  - intros b [key members] Hin Hb [Hr|Hr]%process_clustered; [by apply Hb|].
    unfold cluster_entries in Hin. rw merge_sort_Permutation in Hin.
    apply elem_of_map_iter in Hin. cbn [snd] in Hr.
    apply list_elem_of_fmap in Hr as (e & -> & He). eapply build_clusters_elem in He; [|done].
    apply list_elem_of_omap in He as (v & Hv & He). destruct v as [| |e0]; try done. cbn in He. simplify_eq.
    apply list_elem_of_fmap in Hv as (role & Hv & Hrole). by exists role, e.
Qed.

Lemma classify_promote so role e :
  classify input rg rd so role = Promote e →
  el_role_name e = rd_name role ∧
  (∀ g, g ∈ default [] (rg !! rd_name role) → unrepresentable g = false) ∧
  role_has_absent_default_privilege input (rd_name role) = false ∧
  ∃ s, ∀ g, g ∈ default [] (rg !! rd_name role) → grant_schema g = Some s.
Proof.
  unfold classify. destruct (has_unique_attributes role); [done|].
  destruct (existsb unrepresentable _) eqn:Hu; [done|].
  destruct (_ || _) eqn:Hd; [done|]. apply orb_false_iff in Hd as [_ Hd].
  assert (∀ g, g ∈ default [] (rg !! rd_name role) → unrepresentable g = false) as Hrep.
  { intros g Hg. apply not_true_iff_false. intros Ht. apply not_true_iff_false in Hu. apply Hu.
    apply existsb_exists. exists g. split; [by apply list_elem_of_In|done]. }
  set (seen := list_to_set _ ∪ _). destruct (set_iter seen) as [|s [|]] eqn:Hs; try done.
  destruct (so !! s) as [owner|]; [|done]. match goal with |- context [if ?b then Skip _ else _] => destruct b end; [done|]. intros He. injection He as He. subst e.
  split_and!; [done|done|done|]. exists s. intros g Hg.
  pose proof (Hrep _ Hg) as Hg'. unfold unrepresentable in Hg'. apply orb_false_iff in Hg' as [_ Hg'].
  apply bool_decide_eq_false in Hg'. destruct (grant_schema g) as [s'|] eqn:Hgs; [|done]. f_equal.
  assert (s' ∈ set_iter seen) as Hin.
  { apply elem_of_set_iter. apply elem_of_union_l, elem_of_list_to_set, list_elem_of_omap. by exists g. }
  rw Hs in Hin. by apply list_elem_of_singleton in Hin.
Qed.
End clusters.

(** ** Inventories and wildcards *)

Lemma inventory_entry_mono inv g key : is_Some (inv !! key) → is_Some (inventory_entry inv g !! key).
Proof.
  intros Hk. unfold inventory_entry. destruct (negb _); [done|]. destruct (ot_name _) as [n|]; [|done].
  destruct (ot_schema _) as [s|]; [|done]. destruct (String.eqb n "*"); [done|]. unfold entry_extend.
  destruct (decide (key = (s, ot_object_type (gr_object g)))) as [->|]; [by rw lookup_insert_eq; eexists|by rw lookup_insert_ne].
Qed.

(** The inventory has an entry for what a grant on a name addresses, and none lists ["*"]. *)
Lemma build_inventory_covers m g s n :
  g ∈ pm_grants m → is_object_type (ot_object_type (gr_object g)) = true →
  ot_schema (gr_object g) = Some s → ot_name (gr_object g) = Some n → n ≠ "*" →
  is_Some (build_inventory m !! (s, ot_object_type (gr_object g))).
Proof.
  unfold build_inventory. intros Hg Ht Hs Hn Hne. revert Hg. generalize (∅ : Inventory).
  induction (pm_grants m) as [|x l IH]; intros inv; [by intros ?%not_elem_of_nil|]. cbn [foldl].
  intros [->|Hg]%elem_of_cons; [|by apply IH].
  assert (is_Some (inventory_entry inv x !! (s, ot_object_type (gr_object x)))) as Hx.
  { unfold inventory_entry. rw Ht Hs Hn. cbn [negb]. rw (proj2 (String.eqb_neq _ _) Hne).
    unfold entry_extend. rw lookup_insert_eq. by eexists. }
  revert Hx. generalize (inventory_entry inv x). clear. induction l as [|y l IH]; intros inv Hx; cbn [foldl]; [done|].
  by apply IH, inventory_entry_mono.
Qed.

Lemma build_inventory_no_star m key names : build_inventory m !! key = Some names → "*" ∉ names.
Proof.
  revert key names. unfold build_inventory.
  apply (foldl_elem_inv (λ inv : Inventory, ∀ key names, inv !! key = Some names → "*" ∉ names)).
  - intros key names. by rw lookup_empty.
  - intros inv g _ Hinv key names. unfold inventory_entry. destruct (negb _); [apply Hinv|].
    destruct (ot_name _) as [n|]; [|apply Hinv]. destruct (ot_schema _) as [s|]; [|apply Hinv].
    destruct (String.eqb_spec n "*") as [|Hne]; [apply Hinv|]. unfold entry_extend.
    rw lookup_insert_Some. intros [[_ <-]|[_ Hk]]; [|by eapply Hinv].
    rw elem_of_union elem_of_singleton. intros [Hs|]; [|done].
    destruct (inv !! _) as [X|] eqn:HX; cbn in Hs; [by eapply Hinv|set_solver].
Qed.

Lemma validated_covers grant_inventory full key :
  validate_full_inventory grant_inventory full = None →
  is_Some (grant_inventory !! key) → is_Some (full !! key).
Proof.
  unfold validate_full_inventory. intros Hv [names Hk]. destruct (full !! key) eqn:Hf; [by eexists|]. exfalso.
  assert (omap (inventory_gap full) (map_iter grant_inventory) = []) as Hnil by by destruct (omap _ _).
  assert (InventoryGap.MissingEntry key.1 key.2 (size names) ∈ omap (inventory_gap full) (map_iter grant_inventory)) as Hin.
  { apply list_elem_of_omap. exists (key, names). split; [by apply elem_of_map_iter|].
    unfold inventory_gap. cbn [fst snd]. by rw Hf. }
  rw Hnil in Hin. by apply not_elem_of_nil in Hin.
Qed.

(** [g] with the name of an object. *)
Definition renamed (g : Grant) (name : string) : Grant := {|
  gr_role := gr_role g; gr_privileges := gr_privileges g;
  gr_object := {| ot_object_type := ot_object_type (gr_object g); ot_schema := ot_schema (gr_object g);
                  ot_name := Some name |};
  gr_ensure := gr_ensure g |}.

Lemma expand_wildcard_inv inv g0 g :
  g ∈ expand_wildcard inv g0 →
  (g = g0 ∧ ∀ s, is_object_type (ot_object_type (gr_object g0)) = true → ot_name (gr_object g0) = Some "*" →
     ot_schema (gr_object g0) = Some s → inv !! (s, ot_object_type (gr_object g0)) = None) ∨
  (is_object_type (ot_object_type (gr_object g0)) = true ∧ ot_name (gr_object g0) = Some "*" ∧
   ∃ s names n, ot_schema (gr_object g0) = Some s ∧ inv !! (s, ot_object_type (gr_object g0)) = Some names ∧
     n ∈ names ∧ g = renamed g0 n).
Proof.
  unfold expand_wildcard. destruct (is_object_type _) eqn:Ht; cbn [andb negb].
  2:{ intros ->%list_elem_of_singleton. by left. }
  case_bool_decide as Hn; cbn [negb].
  2:{ intros ->%list_elem_of_singleton. by left. }
  destruct (ot_schema _) as [s|] eqn:Hs.
  2:{ intros ->%list_elem_of_singleton. by left. }
  destruct (inv !! _) as [names|] eqn:Hi.
  2:{ intros ->%list_elem_of_singleton. left. split; [done|]. by intros ? _ _ [= <-]. }
  intros (n & -> & Hin)%list_elem_of_fmap. right. split_and!; [done|done|]. exists s, names, n.
  split_and!; [done|done|by apply elem_of_set_iter|]. unfold renamed. by rw Hs.
Qed.

Lemma elem_of_expand inv l g : g ∈ expand_wildcards_in_place l inv ↔ ∃ g0, g0 ∈ l ∧ g ∈ expand_wildcard inv g0.
Proof. unfold expand_wildcards_in_place. rw list_elem_of_bind. naive_solver. Qed.

(** ** The candidate and its input *)

Section preserved.
Context (input : PolicyManifest) (min_schemas : nat) (ci : option Inventory) (skipped : list SkipReason).
Let inv : Inventory := default (build_inventory input) ci.
Let b := build_suggestion input min_schemas ci skipped.
Let candidate := candidate_manifest input b.
Context (g g' : RoleGraph)
  (Hno_profiles : pm_profiles input = ∅)
  (Ha : accepted input (expanded_of input)) (Ha' : accepted candidate (expanded_of candidate))
  (Hg : from_expanded (with_grants_expanded (expanded_of input) inv) (pm_default_owner input) = Ok g)
  (Hg' : from_expanded (with_grants_expanded (expanded_of candidate) inv) (pm_default_owner input) = Ok g')
  (Hcovers : ∀ gr s n, gr ∈ pm_grants input → is_object_type (ot_object_type (gr_object gr)) = true →
     ot_schema (gr_object gr) = Some s → ot_name (gr_object gr) = Some n → n ≠ "*" →
     is_Some (inv !! (s, ot_object_type (gr_object gr))))
  (Hstar : ∀ key names, inv !! key = Some names → "*" ∉ names)
  (Hnamed : ∀ gr, gr ∈ pm_grants input → is_Some (ot_name (gr_object gr)))
  (Hquiet : ∀ c, c ∈ diff g g' → is_set_comment c = true).

Let Hgo : graph_of (with_grants_expanded (expanded_of input) inv) (pm_default_owner input) g :=
  from_expanded_graph _ _ _ Hg.
Let Hgo' : graph_of (with_grants_expanded (expanded_of candidate) inv) (pm_default_owner input) g' :=
  from_expanded_graph _ _ _ Hg'.
Let Hbu := from_expanded_built _ _ _ Hg.
Let Hbu' := from_expanded_built _ _ _ Hg'.

Lemma no_generated {A} (f : SchemaBinding * string → list A) :
  (∀ p, pm_profiles input !! p.2 = None → f p = []) → expansion_pairs input ≫= f = [].
Proof. intros Hf. apply bind_nil_in. intros p _. apply Hf. by rw Hno_profiles lookup_empty. Qed.

Lemma input_grants : em_grants (expanded_of input) = pm_grants input.
Proof.
  cbn [em_grants expanded_of]. rw no_generated; [done|]. intros [s n]. cbn. by intros ->.
Qed.
Lemma input_defaults : em_default_privileges (expanded_of input) = normalize_owner input <$> pm_default_privileges input.
Proof.
  cbn [em_default_privileges expanded_of]. rw no_generated; [done|]. intros [s n]. cbn. by intros ->.
Qed.

Lemma generated_present {p gr} : gr ∈ generated_grants candidate p → gr_ensure gr = Ensure.Present.
Proof.
  destruct p as [s n]. cbn. destruct (_ !! n); [|by intros ?%not_elem_of_nil].
  by intros (? & -> & _)%list_elem_of_fmap.
Qed.
Lemma generated_default_present {p d dg} :
  d ∈ generated_defaults candidate p → dg ∈ dp_grant d → dpg_ensure dg = Ensure.Present.
Proof.
  destruct p as [s n]. cbn. destruct (_ !! n) as [profile|]; [|by intros ?%not_elem_of_nil].
  destruct (prof_default_privileges profile) as [|x l]; [by intros ?%not_elem_of_nil|].
  intros ->%list_elem_of_singleton. cbn [dp_grant fmap list_fmap]. by intros [->|(? & -> & _)%list_elem_of_fmap]%elem_of_cons.
Qed.

Lemma candidate_grant gr :
  gr ∈ em_grants (expanded_of candidate) → gr_ensure gr = Ensure.Absent →
  gr ∈ pm_grants input ∧ gr_role gr ∉ bu_clustered b.
Proof.
  cbn [em_grants expanded_of]. intros [Hgen|Hown]%elem_of_app He.
  - apply elem_of_bind_1 in Hgen as (p & _ & Hp). apply generated_present in Hp. congruence.
  - by apply list_elem_of_filter in Hown as [? ?].
Qed.

Lemma kept_grant gr :
  gr ∈ pm_grants input → gr_role gr ∉ bu_clustered b → gr ∈ em_grants (expanded_of candidate).
Proof.
  intros Hgr Hr. cbn [em_grants expanded_of]. apply elem_of_app. right.
  by apply list_elem_of_filter.
Qed.

Lemma clustered_role r :
  r ∈ bu_clustered b →
  r ≠ PUBLIC_ROLE ∧
  role_has_absent_default_privilege input r = false ∧
  ∃ s, ∀ gr, gr ∈ pm_grants input → gr_role gr = r → ci = None ∨ ¬ bucketable gr →
    unrepresentable gr = false ∧ grant_schema gr = Some s.
Proof.
  intros (role & e & Hrole & <- & Hp)%clustered_promoted.
  apply classify_promote in Hp as (Hn & Hrep & Hdef & s & Hs). rw Hn. split_and!.
  - apply (accepted_not_public Ha). cbn [em_roles expanded_of]. apply elem_of_app. by right.
  - done.
  - exists s. intros gr Hgr Hr Hb. rw -Hr in Hrep Hs.
    pose proof (role_grants_elem input ci gr Hgr Hb) as Hin. split; [by apply Hrep|by apply Hs].
Qed.

(** *** Access *)

Lemma input_wildcard gr :
  gr ∈ expand_wildcards_in_place (pm_grants input) inv → ot_name (gr_object gr) = Some "*" →
  gr ∈ pm_grants input ∧ gr ∈ expand_wildcard inv gr ∧
  ∀ s, is_object_type (ot_object_type (gr_object gr)) = true → ot_schema (gr_object gr) = Some s →
    inv !! (s, ot_object_type (gr_object gr)) = None.
Proof.
  intros (g0 & Hg0 & Hin)%elem_of_expand Hn. pose proof Hin as Hin0.
  apply expand_wildcard_inv in Hin as [[-> Hnone]|(_ & _ & s & names & n & _ & Hnames & Hn' & ->)].
  - split_and!; [done|done|]. intros s Ht Hs. by apply Hnone.
  - cbn in Hn. injection Hn as ->. exfalso. by apply (Hstar _ _ Hnames).
Qed.

(** Two grants of one role, one a wildcard and one on a name of its scope, that stay apart:
    the role is not part of a profile. *)
Lemma scope_unclustered gr gr2 :
  gr ∈ expand_wildcards_in_place (pm_grants input) inv → ot_name (gr_object gr) = Some "*" →
  gr2 ∈ expand_wildcards_in_place (pm_grants input) inv → gr_role gr2 = gr_role gr →
  ot_object_type (gr_object gr2) = ot_object_type (gr_object gr) →
  ot_schema (gr_object gr2) = ot_schema (gr_object gr) → ot_name (gr_object gr2) ≠ Some "*" →
  gr_role gr ∉ bu_clustered b.
Proof.
  intros Hgr Hn Hgr2 Hr Ht Hs Hn2 Hcl. apply input_wildcard in Hgr as (Hgr & _ & Hnone); [|done].
  apply elem_of_expand in Hgr2 as (g0 & Hg0 & Hin2).
  apply clustered_role in Hcl as (_ & _ & s & Hall).
  apply expand_wildcard_inv in Hin2 as [[-> _]|(Ht0 & _ & s0 & names & n & Hs0 & Hnames & _ & ->)].
  2:{ cbn in Ht, Hs. rw -Ht in Hnone. rw Hs0 in Hs. specialize (Hnone s0 Ht0 (eq_sym Hs)). congruence. }
  destruct (is_object_type (ot_object_type (gr_object gr))) eqn:Hty.
  - destruct (ot_schema (gr_object gr)) as [s1|] eqn:Hs1.
    + destruct (Hnamed _ Hg0) as [n0 Hn0].
      destruct (Hcovers g0 s1 n0) as [X HX]; [done|by rw Ht|done|done|congruence|].
      rw Ht in HX. rw Hnone in HX; done.
    + destruct (Hall gr Hgr eq_refl) as [_ Hsch].
      { right. intros [_ [? ?]]. congruence. }
      unfold grant_schema in Hsch. rw Hs1 in Hsch. by destruct (ot_object_type (gr_object gr)).
  - assert (¬ bucketable gr) as Hb by (intros [? _]; congruence).
    assert (¬ bucketable g0) as Hb0 by (intros [? _]; congruence).
    destruct (Hall gr Hgr eq_refl (or_intror Hb)) as [_ Hsch].
    destruct (Hall g0 Hg0 Hr (or_intror Hb0)) as [_ Hsch0].
    unfold grant_schema in Hsch, Hsch0. rw Ht in Hsch0.
    destruct (ot_object_type (gr_object gr)); try done. congruence.
Qed.

Lemma wildcard_access key p :
  is_wildcard key = true → holds (grants g) key p → holds (grants g') key p.
Proof.
  intros Hw Hp. pose proof Hp as Hp0.
  apply (go_grants _ _ _ Hgo) in Hp as (gr & Hgr & <- & He & Hpp).
  cbn [em_grants with_grants_expanded] in Hgr. rw input_grants in Hgr.
  assert (ot_name (gr_object gr) = Some "*") as Hn by by apply bool_decide_eq_true in Hw.
  destruct (decide (gr_role gr ∈ bu_clustered b)) as [Hcl|Hcl].
  - unfold holds. destruct (decide (p ∈ default ∅ (grants g' !! grant_key_from_manifest gr))) as [|Hnp]; [done|].
    exfalso. destruct (clustered_role _ Hcl) as (Hpub & _).
    destruct (go_live _ _ _ Hgo) as (Hal & Hinh & _ & Hgrs).
    assert (p ∈ revoked g g' (grant_key_from_manifest gr)) as Hrev.
    { apply elem_of_revoked. left. unfold drifted. rw Hinh. split_and!; [|set_solver|done|done| |].
      - cbn. unfold grantee_parse. by rw (proj2 (String.eqb_neq _ _) Hpub).
      - unfold shadowing. rw Hw andb_false_r. set_solver.
      - unfold shadowing. rw Hw andb_false_r. set_solver. }
    apply (quiet_revoked g g' Hal Hinh Hgrs Hquiet) in Hrev as [_ (k & X & Hk & Hs & Hkw)].
    apply (bu_grants _ _ _ Hbu) in Hk as [(ps & Hps) _].
    apply list_elem_of_fmap in Hps as (gr2 & [= -> _ _] & Hgr2).
    cbn [em_grants with_grants_expanded] in Hgr2. rw input_grants in Hgr2.
    unfold in_scope in Hs. cbn in Hs. apply andb_true_iff in Hs as [Hs Hs3]. apply andb_true_iff in Hs as [Hs1 Hs2].
    apply bool_decide_eq_true in Hs1, Hs2, Hs3. apply (inj grantee_parse) in Hs1.
    apply bool_decide_eq_false in Hkw. cbn in Hkw.
    by apply (scope_unclustered gr gr2 Hgr Hn Hgr2 Hs1 Hs2 Hs3 Hkw).
  - apply (go_grants _ _ _ Hgo'). destruct (input_wildcard gr Hgr Hn) as (Hin & Hex & _). exists gr.
    split_and!; [|done|done|done]. cbn [em_grants with_grants_expanded].
    apply elem_of_expand. exists gr. split; [by apply kept_grant|done].
Qed.

Lemma public_access key p :
  is_public (gk_role key) = true → holds (grants g) key p → holds (grants g') key p.
Proof.
  intros Hpub Hp. apply (go_grants _ _ _ Hgo) in Hp as (gr & Hgr & <- & He & Hpp).
  cbn [em_grants with_grants_expanded] in Hgr. rw input_grants in Hgr.
  apply (go_grants _ _ _ Hgo'). exists gr. split_and!; [|done|done|done]. cbn [em_grants with_grants_expanded].
  apply elem_of_expand in Hgr as (g0 & Hg0 & Hin). apply elem_of_expand. exists g0. split; [|done].
  apply kept_grant; [done|]. intros Hcl%clustered_role. destruct Hcl as (Hne & _).
  assert (gr_role gr = gr_role g0) as Hr by by apply expand_wildcard_inv in Hin as [[-> _]|(_ & _ & s & names & n & _ & _ & _ & ->)].
  cbn in Hpub. unfold grantee_parse in Hpub. rw Hr in Hpub. by rw (proj2 (String.eqb_neq _ _) Hne) in Hpub.
Qed.

(** A name granted by the input is not one a wildcard of the candidate asserts absent. *)
Lemma granted_not_absent key p :
  holds (grants g) key p → p ∉ shadowing (grant_absences g') key.
Proof.
  intros Hp. unfold shadowing. destruct (has_schema key) eqn:Hsch; cbn [andb]; [|set_solver].
  destruct (is_wildcard key) eqn:Hw; cbn [negb]; [set_solver|]. intros Habs.
  apply (go_absences _ _ _ Hgo' (wildcard_of key)) in Habs as (ga & Hga & Hka & Hea & Hpa).
  cbn [em_grants with_grants_expanded] in Hga.
  apply elem_of_expand in Hga as (ga0 & Hga0 & Hina).
  assert (gr_ensure ga0 = Ensure.Absent) as Hea0
    by (apply expand_wildcard_inv in Hina as [[<- _]|(_ & _ & s & names & n & _ & _ & _ & ->)]; done).
  destruct (candidate_grant _ Hga0 Hea0) as [Hown _].
  assert (ot_name (gr_object ga) = Some "*") as Hstarred
    by (unfold grant_key_from_manifest, wildcard_of in Hka; by injection Hka).
  assert (ga ∈ expand_wildcards_in_place (pm_grants input) inv) as Hga by (apply elem_of_expand; by exists ga0).
  apply input_wildcard in Hga as (Hga & _ & Hnone); [|done].
  apply (go_grants _ _ _ Hgo) in Hp as (gp & Hgp & <- & Hep & Hpp).
  cbn [em_grants with_grants_expanded] in Hgp. rw input_grants in Hgp.
  apply elem_of_expand in Hgp as (gp0 & Hgp0 & Hinp).
  unfold grant_key_from_manifest, wildcard_of in Hka. cbn in Hka. injection Hka as Hr Ht Hs _.
  apply (inj grantee_parse) in Hr.
  assert (gr_ensure ga = gr_ensure gp0) as He.
  { apply bool_decide_eq_true in Hsch. cbn in Hsch. destruct (ot_schema (gr_object gp)) as [s|] eqn:Hsp; [|done].
    eapply (ensure_consistent _ _ _ ga gp0 p).
    - eapply (ac_conflicts _ _ Ha).
    - rw input_grants. exact Hga.
    - rw input_grants. exact Hgp0.
    - done.
    - by apply expand_wildcard_inv in Hinp as [[<- _]|(_ & _ & s' & names & n & _ & _ & _ & ->)].
    - apply expand_wildcard_inv in Hinp as [[-> _]|(_ & _ & s' & names & n & _ & _ & _ & ->)]; cbn in Hr, Ht, Hsp.
      + destruct (Hnamed _ Hgp0) as [n Hn]. split_and!; [done|done|congruence|right; by exists s, n].
      + split_and!; [done|done|congruence|]. right. destruct (Hnamed _ Hgp0) as [n' Hn']. by exists s, n'. }
  assert (gr_ensure gp0 = gr_ensure gp) as He'
    by by apply expand_wildcard_inv in Hinp as [[<- _]|(_ & _ & s' & names & n & _ & _ & _ & ->)].
  congruence.
Qed.

(** What a role may do with an object: granted on it, or by the wildcard of its scope. *)
Definition access (graph : RoleGraph) (key : GrantKey) (p : Privilege) : Prop :=
  holds (grants graph) key p ∨ p ∈ shadowing (grants graph) key.

Lemma same_access key p : access g key p ↔ access g' key p.
Proof.
  destruct (go_live _ _ _ Hgo) as (Hal & Hinh & _ & Hgrs). unfold access. split.
  - intros [Hp|Hp].
    + destruct (is_wildcard key) eqn:Hw; [left; by apply wildcard_access|].
      destruct (is_public (gk_role key)) eqn:Hpub; [left; by apply public_access|].
      destruct (quiet_grant_kept g g' Hal Hinh Hgrs Hquiet key p Hw Hpub Hp) as [|[|Habs]]; [by left|by right|].
      by apply granted_not_absent in Habs.
    + right. revert Hp. unfold shadowing. destruct (has_schema key && _) eqn:Hc; [|done].
      apply wildcard_access. by apply bool_decide_eq_true.
  - intros [Hp|Hp]; [left; by apply (quiet_grant g g' Hal Hinh Hgrs Hquiet)|]. right. revert Hp.
    unfold shadowing. destruct (has_schema key && _); [|done]. by apply (quiet_grant g g' Hal Hinh Hgrs Hquiet).
Qed.

(** *** Default privileges *)

Lemma kept_default_entry d dg grantee :
  d ∈ pm_default_privileges input → dg ∈ dp_grant d → dpg_role dg = Some grantee → grantee ∉ bu_clustered b →
  ∃ d', d' ∈ em_default_privileges (expanded_of candidate) ∧ dg ∈ dp_grant d' ∧
    resolved_scope d' = resolved_scope (normalize_owner input d) ∧ dp_owner d' = dp_owner (normalize_owner input d).
Proof.
  intros Hd Hdg Hr Hn.
  assert (dg ∈ filter (λ x, from_option (λ r, bool_decide (r ∈ bu_clustered b)) false (dpg_role x) = false) (dp_grant d)) as Hf.
  { apply list_elem_of_filter. split; [|done]. rw Hr. cbn. by apply bool_decide_eq_false. }
  assert (∃ d0, kept_default (bu_clustered b) d = Some d0 ∧ dg ∈ dp_grant d0 ∧
    dp_owner d0 = dp_owner d ∧ dp_schema d0 = dp_schema d ∧ dp_scope d0 = dp_scope d) as (d0 & Hk & Hdg0 & Ho & Hs & Hsc).
  { unfold kept_default. destruct (filter _ (dp_grant d)); [by apply not_elem_of_nil in Hf|]. by eexists. }
  exists (normalize_owner candidate d0). split_and!.
  - cbn [em_default_privileges expanded_of]. apply list_elem_of_fmap. exists d0. split; [done|].
    apply elem_of_app. right. apply list_elem_of_omap. by exists d.
  - done.
  - unfold resolved_scope, normalize_owner. cbn. by rw Ho Hs Hsc.
  - unfold normalize_owner. cbn. by rw Ho.
Qed.

Lemma public_default key p :
  is_public (dk_grantee key) = true → holds (default_privileges g) key p → holds (default_privileges g') key p.
Proof.
  intros Hpub Hp. apply (go_defaults _ _ _ Hgo Ensure.Present) in Hp as (d & sc & dg & r & Hd & Hsc & Hdg & Hr & Hk & He & Hpp).
  cbn [em_default_privileges with_grants_expanded] in Hd. rw input_defaults in Hd.
  apply list_elem_of_fmap in Hd as (d0 & -> & Hd0).
  destruct (kept_default_entry d0 dg r) as (d' & Hd' & Hdg' & Hsc' & Ho'); [done|done|done| |].
  - intros Hcl%clustered_role. destruct Hcl as (Hne & _). subst key. cbn in Hpub. unfold grantee_parse in Hpub.
    by rw (proj2 (String.eqb_neq _ _) Hne) in Hpub.
  - apply (go_defaults _ _ _ Hgo' Ensure.Present). exists d', sc, dg, r. split_and!; try done.
    + congruence.
    + rw -Hk. unfold owner_of. by rw Ho'.
Qed.

Lemma same_defaults key p : holds (default_privileges g) key p ↔ holds (default_privileges g') key p.
Proof.
  destruct (go_live _ _ _ Hgo) as (Hal & Hinh & _ & Hgrs). split.
  - destruct (is_public (dk_grantee key)) eqn:Hpub; [by apply public_default|].
    by apply (quiet_default_kept g g' Hal Hinh Hgrs Hquiet).
  - by apply (quiet_default g g' Hal Hinh Hgrs Hquiet).
Qed.

Lemma candidate_default d dg :
  d ∈ em_default_privileges (expanded_of candidate) → dg ∈ dp_grant d → dpg_ensure dg = Ensure.Absent →
  ∃ d0, d0 ∈ pm_default_privileges input ∧ dg ∈ dp_grant d0 ∧
    resolved_scope d = resolved_scope (normalize_owner input d0) ∧ dp_owner d = dp_owner (normalize_owner input d0).
Proof.
  cbn [em_default_privileges expanded_of]. intros (d1 & -> & Hd1)%list_elem_of_fmap. cbn [dp_grant normalize_owner].
  intros Hdg He. apply elem_of_app in Hd1 as [Hgen|Hown].
  - apply elem_of_bind_1 in Hgen as (q & _ & Hq). pose proof (generated_default_present Hq Hdg). congruence.
  - apply list_elem_of_omap in Hown as (d0 & Hd0 & Hk). exists d0. split; [done|]. unfold kept_default in Hk.
    destruct (filter _ (dp_grant d0)) as [|x l] eqn:Hf; [done|]. injection Hk as <-. cbn [dp_grant] in Hdg.
    rw -Hf in Hdg. apply list_elem_of_filter in Hdg as [_ Hdg]. done.
Qed.

Lemma same_default_absences key p :
  holds (default_privilege_absences g) key p ↔ holds (default_privilege_absences g') key p.
Proof.
  rw (go_defaults _ _ _ Hgo Ensure.Absent) (go_defaults _ _ _ Hgo' Ensure.Absent).
  cbn [em_default_privileges with_grants_expanded]. rw input_defaults. split.
  - intros (d & sc & dg & r & (d0 & -> & Hd0)%list_elem_of_fmap & Hsc & Hdg & Hr & Hk & He & Hpp).
    destruct (kept_default_entry d0 dg r) as (d' & Hd' & Hdg' & Hsc' & Ho'); [done|done|done| |].
    + intros Hcl%clustered_role. destruct Hcl as (_ & Habs & _). unfold role_has_absent_default_privilege in Habs.
      apply not_true_iff_false in Habs. apply Habs, existsb_exists. exists d0. split; [by apply list_elem_of_In|].
      apply existsb_exists. exists dg. split; [by apply list_elem_of_In|]. rw Hr He. by rw !bool_decide_true.
    + exists d', sc, dg, r. split_and!; try done; [congruence|]. rw -Hk. unfold owner_of. by rw Ho'.
  - intros (d & sc & dg & r & Hd & Hsc & Hdg & Hr & Hk & He & Hpp).
    destruct (candidate_default _ _ Hd Hdg He) as (d0 & Hd0 & Hdg0 & Hsc0 & Ho0).
    exists (normalize_owner input d0), sc, dg, r. split_and!; try done; [by apply list_elem_of_fmap; exists d0|congruence|].
    rw -Hk. unfold owner_of. by rw Ho0.
Qed.

(** *** Absences, schemas, memberships *)

Lemma same_absences key p :
  ci = None → holds (grant_absences g) key p ↔ holds (grant_absences g') key p.
Proof.
  intros Hci. rw (go_absences _ _ _ Hgo) (go_absences _ _ _ Hgo'). cbn [em_grants with_grants_expanded].
  rw input_grants. setoid_rewrite elem_of_expand.
  split; intros (gr & (g0 & Hg0 & Hin) & Hk & He & Hpp); exists gr; (split_and!; [|done..]); exists g0; (split; [|done]).
  all: assert (gr_ensure g0 = Ensure.Absent) as He0
    by (apply expand_wildcard_inv in Hin as [[<- _]|(_ & _ & s & names & n & _ & _ & _ & ->)]; done).
  - apply kept_grant; [done|]. intros (_ & _ & s & Hall)%clustered_role.
    destruct (Hall _ Hg0 eq_refl (or_introl Hci)) as [Hu _]. unfold unrepresentable in Hu.
    apply orb_false_iff in Hu as [Hu _]. by apply bool_decide_eq_false in Hu.
  - by apply candidate_grant.
Qed.

Lemma same_schemas : schemas g = schemas g'.
Proof.
  apply map_eq. intros s. apply option_eq. intros st.
  rw (bu_schemas _ _ _ Hbu (ac_schemas _ _ Ha)) (bu_schemas _ _ _ Hbu' (ac_schemas _ _ Ha')).
  cbn [em_schemas with_grants_expanded expanded_of].
  assert (∀ es, es ∈ expand_schema input <$> pm_schemas input ↔ es ∈ expand_schema candidate <$> pm_schemas candidate) as Hes.
  { intros es. rw !list_elem_of_fmap. cbn [pm_schemas candidate candidate_manifest].
    setoid_rewrite (merge_sort_Permutation schema_name_le). setoid_rewrite list_elem_of_fmap. split.
    - intros (x & -> & Hx). exists (new_schema b x). split; [done|]. by exists x.
    - intros (y & -> & x & -> & Hx). by exists x. }
  by setoid_rewrite Hes.
Qed.

Lemma same_memberships : memberships g = memberships g'.
Proof. apply set_eq. intros e. by rw (bu_memberships _ _ _ Hbu) (bu_memberships _ _ _ Hbu'). Qed.

End preserved.

(** ** The theorem *)

(** [g'] describes the same database as [g], comments apart; [absences] tells whether the
    asserted absences of grants are included. *)
Record same_policy (absences : bool) (g g' : RoleGraph) : Prop := {
  sp_roles : ∀ name, (λ s, with_comment s None) <$> roles g !! name = (λ s, with_comment s None) <$> roles g' !! name;
  sp_schemas : schemas g = schemas g';
  sp_memberships : memberships g = memberships g';
  sp_access : ∀ key p, access g key p ↔ access g' key p;
  sp_absences : absences = true → ∀ key p, holds (grant_absences g) key p ↔ holds (grant_absences g') key p;
  sp_defaults : ∀ key p, holds (default_privileges g) key p ↔ holds (default_privileges g') key p;
  sp_default_absences : ∀ key p,
    holds (default_privilege_absences g) key p ↔ holds (default_privilege_absences g') key p;
}.

Lemma round_trip_quiet original candidate inventory u :
  check_round_trip original candidate inventory = Ok u →
  ∃ g g', graph_over inventory original RoundTripError.OriginalExpand RoundTripError.OriginalGraph = Ok g ∧
    graph_over inventory candidate RoundTripError.CandidateExpand RoundTripError.CandidateGraph = Ok g' ∧
    ∀ c, c ∈ diff g g' → is_set_comment c = true.
Proof.
  unfold check_round_trip. intros H. apply bind_Ok in H as (g & Hg & H). apply bind_Ok in H as (g' & Hg' & H).
  exists g, g'. split_and!; [done|done|]. intros c Hc. apply throw_if_Ok in H. apply negb_false_iff, bool_decide_eq_true in H.
  apply not_false_iff_true. intros Hs. assert (c ∈ filter (λ c, is_set_comment c = false) (diff g g')) as Hin
    by by apply list_elem_of_filter. rw H in Hin. by apply not_elem_of_nil in Hin.
Qed.

Lemma graph_over_Ok inventory m f1 f2 g :
  graph_over inventory m f1 f2 = Ok g →
  accepted m (expanded_of m) ∧ from_expanded (with_grants_expanded (expanded_of m) inventory) (pm_default_owner m) = Ok g.
Proof.
  unfold graph_over. intros H. apply bind_Ok in H as (em & Hem & H).
  assert (expand_manifest m = Ok em) as Hem' by by destruct (expand_manifest m); cbn in Hem; simplify_eq.
  apply expand_manifest_Ok in Hem' as [-> Ha]. split; [done|].
  by destruct (from_expanded _ _); cbn in H; simplify_eq.
Qed.

(** The inventory the round trip uses covers the names of the input and lists no ["*"]. *)
Lemma round_trip_inventory input opts ci sk :
  (∀ full key names, so_full_inventory opts = Some full → full !! key = Some names → "*" ∉ names) →
  collapse_inventory_of opts (build_inventory input) = (ci, sk) →
  (∀ key names, default (build_inventory input) ci !! key = Some names → "*" ∉ names) ∧
  (∀ key, is_Some (build_inventory input !! key) → is_Some (default (build_inventory input) ci !! key)) ∧
  (so_full_inventory opts = None → ci = None).
Proof.
  intros Hstar. unfold collapse_inventory_of. destruct (so_full_inventory opts) as [full|] eqn:Hf.
  2:{ intros [= <- <-]. cbn. split_and!; [apply build_inventory_no_star|done|done]. }
  destruct (validate_full_inventory _ _) eqn:Hv; intros [= <- <-]; cbn.
  - split_and!; [apply build_inventory_no_star|done|done].
  - split_and!; [intros key names; by apply (Hstar full)|intros key; by apply (validated_covers (build_inventory input))|done].
Qed.


(** ** A suggested manifest

    A policy with readers of two schemas, its suggestion with one profile, and two runs that
    do not do what the code means to. *)

Definition reader_role (name : string) (external : bool) : RoleDefinition := {|
  rd_name := name; rd_external := external; rd_preserve_undeclared_grants := external;
  rd_login := None; rd_superuser := None; rd_createdb := None; rd_createrole := None; rd_inherit := None;
  rd_replication := None; rd_bypassrls := None; rd_connection_limit := None; rd_comment := None;
  rd_password := None; rd_password_valid_until := None; rd_config := ∅ |}.

Definition table_grant (ensure : Ensure) (privilege : Privilege) (role schema table : string) : Grant := {|
  gr_role := role; gr_privileges := [privilege];
  gr_object := {| ot_object_type := ObjectType.Table; ot_schema := Some schema; ot_name := Some table |};
  gr_ensure := ensure |}.

Definition bare_schema (s : string) : SchemaBinding := {|
  sb_name := s; sb_profiles := []; sb_role_pattern := None; sb_owner := None |}.

Definition readers (external : bool) (ensure : Ensure) : PolicyManifest := {|
  pm_role_pattern := None; pm_default_owner := None; pm_auth_providers := []; pm_profiles := ∅;
  pm_schemas := [bare_schema "sales"; bare_schema "stock"];
  pm_roles := [reader_role "sales-reader" external; reader_role "stock-reader" external;
               reader_role "sales-writer" false; reader_role "stock-writer" false];
  pm_grants := [table_grant Ensure.Present Privilege.Select "sales-reader" "sales" "orders";
                table_grant Ensure.Present Privilege.Select "stock-reader" "stock" "orders";
                table_grant ensure Privilege.Insert "sales-writer" "sales" "orders";
                table_grant ensure Privilege.Insert "stock-writer" "stock" "orders"];
  pm_default_privileges := []; pm_memberships := []; pm_retirements := [] |}.

Definition two_schemas (inventory : option Inventory) : SuggestOptions := {|
  so_min_schemas := 2; so_full_inventory := inventory |}.
Definition live_inventory : Inventory :=
  {[("sales", ObjectType.Table) := {["orders"]}; ("stock", ObjectType.Table) := {["orders"]}]}.

(** What is told apart: the profiles, the roles left flat, and whether the check passed. *)
Definition outline (r : res ManifestError SuggestReport) : option (bool * list string * list string) :=
  match r with
  | Ok report => Some (sr_round_trip_ok report, sug_profile_name <$> sr_profiles report,
                       rd_name <$> pm_roles (sr_manifest report))
  | _ => None
  end.

Example readers_become_a_profile :
  outline (suggest_profiles (readers false Ensure.Present) (two_schemas None)) =
    Some (true, ["writer"; "reader"], []).
Proof. vm_compute. reflexivity. Qed.

Definition suggested : SuggestReport :=
  match suggest_profiles (E := ManifestError) (readers false Ensure.Present) (two_schemas None) with
  | Ok report => report
  | _ => {| sr_manifest := readers false Ensure.Present; sr_profiles := []; sr_skipped := []; sr_round_trip_ok := false |}
  end.


(** A role that is external, or keeps undeclared grants, may become part of a profile, which
    says neither: the graphs the check compares do not tell these apart. *)
Lemma clustering_forgets_external :
  match suggest_profiles (E := ManifestError) (readers true Ensure.Present) (two_schemas None) with
  | Ok report =>
      sr_round_trip_ok report = true ∧
      match expand_manifest (sr_manifest report) with
      | Ok em => forallb (λ r, negb (rd_external r || rd_preserve_undeclared_grants r)) (em_roles em) = true
      | _ => False
      end
  | _ => False
  end.
Proof. vm_compute. split; reflexivity. Qed.

(** Collapsing takes asserted absences for grants: with an inventory of the database the
    check fails and nothing is suggested; without one only the roles that assert the absence
    stay flat. *)
Lemma collapse_takes_absences_for_grants :
  outline (suggest_profiles (readers false Ensure.Absent) (two_schemas None)) =
    Some (true, ["reader"], ["sales-writer"; "stock-writer"]) ∧
  outline (suggest_profiles (readers false Ensure.Absent) (two_schemas (Some live_inventory))) =
    Some (false, [], ["sales-reader"; "stock-reader"; "sales-writer"; "stock-writer"]).
Proof. split; vm_compute; reflexivity. Qed.
