(* ===== verification/Visual.v ===== *)
(** * The visual graph and its renderers ([visual.rs])

    A role graph is drawn as nodes and labelled edges; grants are collapsed by schema
    and object type.  The renderers print a drawing for Graphviz, Mermaid or a
    terminal; the JSON one is serde's and is not modelled. *)

From Stdlib Require Import Ascii NArith.
From S2P Require Import Prelude BTree RustStr Types Model Change Ownership.

Definition VISUAL_GRAPH_SCHEMA_VERSION : string := "pgroles.visual_graph.v1".

(** ** Data *)

Module VisualSource.
Inductive VisualSource : Set := Desired | Current.
End VisualSource.
Abbreviation VisualSource := VisualSource.VisualSource.

Module NodeKind.
Inductive NodeKind : Set := Role | ExternalPrincipal | GrantTarget | DefaultPrivilegeTarget.
End NodeKind.
Abbreviation NodeKind := NodeKind.NodeKind.

Module EdgeKind.
Inductive EdgeKind : Set := Membership | Grant | DefaultPrivilege.
End EdgeKind.
Abbreviation EdgeKind := EdgeKind.EdgeKind.

Record VisualManagedSchema := { vms_name : string; vms_owner : bool; vms_bindings : bool }.

Record VisualManagedScope := {
  vsc_roles : list string;
  vsc_schemas : list VisualManagedSchema;
}.

Record VisualMeta := {
  vm_source : VisualSource;
  vm_role_count : nat;
  vm_grant_count : nat;
  vm_default_privilege_count : nat;
  vm_membership_count : nat;
  vm_collapsed : bool;
  vm_managed_scope : option VisualManagedScope;
}.

Record VisualNode := {
  vn_id : string;
  vn_label : string;
  vn_kind : NodeKind;
  vn_managed : option bool;
  vn_login : option bool;
  vn_privileges : list string;
  vn_comment : option string;
}.

Record VisualEdge := {
  ve_source : string;
  ve_target : string;
  ve_kind : EdgeKind;
  ve_label : string;
}.

Record VisualGraph := {
  vg_schema_version : string;
  vg_meta : VisualMeta;
  vg_nodes : list VisualNode;
  vg_edges : list VisualEdge;
}.

#[export] Instance node_kind_eq_dec : EqDecision NodeKind.
Proof. solve_decision. Defined.

#[export] Instance edge_kind_eq_dec : EqDecision EdgeKind.
Proof. solve_decision. Defined.

(** The derived order of [EdgeKind] is the order of its constructors. *)
Definition edge_kind_index (k : EdgeKind) : nat :=
  match k with EdgeKind.Membership => 0 | EdgeKind.Grant => 1 | EdgeKind.DefaultPrivilege => 2 end.
#[export] Instance edge_kind_index_inj : Inj (=) (=) edge_kind_index.
Proof. by intros [] []. Qed.
#[export] Instance edge_kind_ord : Ord EdgeKind := ord_by edge_kind_index.

(** [impl From<&ManagedScope> for VisualManagedScope] *)
Definition visual_managed_scope (scope : ManagedScope) : VisualManagedScope := {|
  vsc_roles := set_iter (mgs_roles scope);
  vsc_schemas :=
    (λ p, {| vms_name := p.1; vms_owner := mss_owner p.2; vms_bindings := mss_bindings p.2 |})
      <$> map_iter (mgs_schemas scope);
|}.

(** ** Collapsed grants *)

Record CollapsedGrantKey := {
  cg_role : string;
  cg_object_type : ObjectType;
  cg_scope : string;
}.

Definition collapsed_tuple (k : CollapsedGrantKey) : string * (ObjectType * string) :=
  (cg_role k, (cg_object_type k, cg_scope k)).
#[export] Instance collapsed_tuple_inj : Inj (=) (=) collapsed_tuple.
Proof. intros [] []; unfold collapsed_tuple; naive_solver. Qed.
#[export] Instance collapsed_eq_dec : EqDecision CollapsedGrantKey.
Proof. solve_decision. Defined.
#[export] Instance collapsed_countable : Countable CollapsedGrantKey.
Proof.
  refine (inj_countable' (A := string * (ObjectType * string)) collapsed_tuple
    (λ '(r, (t, s)), {| cg_role := r; cg_object_type := t; cg_scope := s |}) _).
  by intros [].
Defined.
#[export] Instance collapsed_ord : Ord CollapsedGrantKey := ord_by collapsed_tuple.

(** [CollapsedGrantKey::node_id], [CollapsedGrantKey::label] *)
Definition collapsed_node_id (k : CollapsedGrantKey) : string :=
  match cg_object_type k with
  | ObjectType.Schema => "grant:schema:" +:+ cg_scope k +:+ ":" +:+ cg_scope k
  | ObjectType.Database => "grant:database:" +:+ cg_scope k +:+ ":" +:+ cg_scope k
  | t => "grant:" +:+ object_type_to_string t +:+ ":" +:+ cg_scope k +:+ ":*"
  end.
Definition collapsed_label (k : CollapsedGrantKey) : string :=
  match cg_object_type k with
  | ObjectType.Schema => cg_scope k +:+ ".schema"
  | ObjectType.Database => cg_scope k +:+ ".database"
  | t => cg_scope k +:+ "." +:+ object_type_to_string t +:+ "s[*]"
  end.

Definition grantee_node_id (grantee : string) : string :=
  if String.eqb grantee PUBLIC_ROLE then "external:" +:+ grantee else "role:" +:+ grantee.

(** The key the loop body of [collapse_grants] files a grant under. *)
Definition collapsed_key (key : GrantKey) : CollapsedGrantKey := {|
  cg_role := grantee_as_str (gk_role key);
  cg_object_type := gk_object_type key;
  cg_scope :=
    match gk_object_type key with
    | ObjectType.Schema =>
        default "public" (match gk_name key with Some n => Some n | None => gk_schema key end)
    | ObjectType.Database => default "db" (gk_name key)
    | _ => default "public" (gk_schema key)
    end;
|}.

Definition collapse_grants (gs : gmap GrantKey GrantState) :
    gmap CollapsedGrantKey (gset Privilege) :=
  foldl (λ acc p, entry_extend (collapsed_key p.1) p.2 acc) ∅ (map_iter gs).

(** [scope.schema().unwrap_or("(global)")] *)
Definition scope_label (scope : DefaultPrivilegeScope) : string :=
  default "(global)" (scope_tuple scope).

Definition default_priv_node_id (key : DefaultPrivKey) : string :=
  "default:" +:+ dk_owner key +:+ ":" +:+ scope_label (dk_scope key) +:+ ":" +:+
  object_type_to_string (dk_on_type key) +:+ ":" +:+ grantee_as_str (dk_grantee key).

Definition membership_label (inherit admin : bool) : string :=
  join ", " (["member"] ++ (if inherit then [] else ["NOINHERIT"]) ++
             (if admin then ["ADMIN"] else [])).

(** ** From the role graph *)

Definition privilege_strings (X : gset Privilege) : list string :=
  privilege_to_string <$> set_iter X.

(** The nodes pushed so far, and [node_ids]. *)
Abbreviation Drawn := (list VisualNode * gset string)%type.

(** [node_ids.insert(id)] and, when it was new, [nodes.push(node)]. *)
Definition push_new (d : Drawn) (node : VisualNode) : Drawn :=
  if decide (vn_id node ∈ d.2) then d else (d.1 ++ [node], {[vn_id node]} ∪ d.2).

Definition role_node (p : string * RoleState) : VisualNode := {|
  vn_id := "role:" +:+ p.1; vn_label := p.1; vn_kind := NodeKind.Role;
  vn_managed := Some true; vn_login := Some (rs_login p.2); vn_privileges := [];
  vn_comment := rs_comment p.2 |}.

(** A role node is pushed whether its id is new or not. *)
Definition push_role (d : Drawn) (p : string * RoleState) : Drawn :=
  (d.1 ++ [role_node p], {[vn_id (role_node p)]} ∪ d.2).

Definition external_node (id label : string) : VisualNode := {|
  vn_id := id; vn_label := label; vn_kind := NodeKind.ExternalPrincipal;
  vn_managed := Some false; vn_login := None; vn_privileges := []; vn_comment := None |}.

Definition push_member (managed : gset string) (d : Drawn) (edge : MembershipEdge) : Drawn :=
  if decide (me_member edge ∈ managed) then d
  else push_new d (external_node ("external:" +:+ me_member edge) (me_member edge)).

(** [grants_public || defaults_public] *)
Definition addresses_public (g : RoleGraph) : bool :=
  existsb (λ key, is_public (gk_role key)) (map_keys (grants g)) ||
  existsb (λ key, is_public (dk_grantee key)) (map_keys (default_privileges g)).

Definition membership_visual_edge (managed : gset string) (edge : MembershipEdge) : VisualEdge := {|
  ve_source := if decide (me_member edge ∈ managed) then "role:" +:+ me_member edge
               else "external:" +:+ me_member edge;
  ve_target := "role:" +:+ me_role edge;
  ve_kind := EdgeKind.Membership;
  ve_label := membership_label (me_inherit edge) (me_admin edge) |}.

(** [existing.privileges.push(..)] for each that is missing, then [.sort()]. *)
Definition merge_privileges (privileges : list string) (node : VisualNode) : VisualNode := {|
  vn_id := vn_id node; vn_label := vn_label node; vn_kind := vn_kind node;
  vn_managed := vn_managed node; vn_login := vn_login node;
  vn_privileges := merge_sort ord_le
    (foldl (λ ps p, if decide (p ∈ ps) then ps else ps ++ [p]) (vn_privileges node) privileges);
  vn_comment := vn_comment node |}.

(** [nodes.iter_mut().find(|n| n.id == id)], updated. *)
Fixpoint update_node (id : string) (f : VisualNode → VisualNode) (nodes : list VisualNode) :
    list VisualNode :=
  match nodes with
  | [] => []
  | n :: nodes => if String.eqb (vn_id n) id then f n :: nodes else n :: update_node id f nodes
  end.

Definition push_grant (d : Drawn) (p : CollapsedGrantKey * gset Privilege) : Drawn :=
  let id := collapsed_node_id p.1 in
  if decide (id ∈ d.2)
  then (update_node id (merge_privileges (privilege_strings p.2)) d.1, d.2)
  else push_new d {|
         vn_id := id; vn_label := collapsed_label p.1; vn_kind := NodeKind.GrantTarget;
         vn_managed := None; vn_login := None; vn_privileges := privilege_strings p.2;
         vn_comment := None |}.

Definition grant_visual_edge (p : CollapsedGrantKey * gset Privilege) : VisualEdge := {|
  ve_source := grantee_node_id (cg_role p.1); ve_target := collapsed_node_id p.1;
  ve_kind := EdgeKind.Grant; ve_label := join "," (privilege_strings p.2) |}.

Definition default_node (p : DefaultPrivKey * DefaultPrivState) : VisualNode := {|
  vn_id := default_priv_node_id p.1;
  vn_label := "defaults: " +:+ dk_owner p.1 +:+ " -> " +:+ scope_label (dk_scope p.1) +:+ "." +:+
              object_type_to_string (dk_on_type p.1) +:+ "s";
  vn_kind := NodeKind.DefaultPrivilegeTarget; vn_managed := None; vn_login := None;
  vn_privileges := privilege_strings p.2; vn_comment := None |}.

Definition default_visual_edge (p : DefaultPrivKey * DefaultPrivState) : VisualEdge := {|
  ve_source := default_priv_node_id p.1;
  ve_target := grantee_node_id (grantee_as_str (dk_grantee p.1));
  ve_kind := EdgeKind.DefaultPrivilege; ve_label := join "," (privilege_strings p.2) |}.

(** The orders of the two final sorts. *)
Definition node_le : relation VisualNode := λ a b, ord_le (vn_id a) (vn_id b).
Definition edge_key (e : VisualEdge) : string * (string * EdgeKind) :=
  (ve_source e, (ve_target e, ve_kind e)).
Definition edge_le : relation VisualEdge := λ a b, ord_le (edge_key a) (edge_key b).
#[export] Instance node_le_dec : RelDecision node_le := λ a b, ord_dec (vn_id a) (vn_id b).
#[export] Instance edge_le_dec : RelDecision edge_le := λ a b, ord_dec (edge_key a) (edge_key b).
#[export] Instance node_le_trans : Transitive node_le.
Proof. intros a b c. apply (transitivity (R := ord_le)). Qed.
#[export] Instance node_le_total : Total node_le.
Proof. intros a b. apply (total ord_le). Qed.
#[export] Instance edge_le_trans : Transitive edge_le.
Proof. intros a b c. apply (transitivity (R := ord_le)). Qed.
#[export] Instance edge_le_total : Total edge_le.
Proof. intros a b. apply (total ord_le). Qed.

(** Nodes and [node_ids] after the five loops of [build_visual_graph]. *)
Definition drawn_nodes (g : RoleGraph) : Drawn :=
  let managed := list_to_set (map_keys (roles g)) in
  let d := foldl push_role ([], ∅) (map_iter (roles g)) in
  let d := foldl (push_member managed) d (set_iter (memberships g)) in
  let d := if addresses_public g
           then push_new d (external_node (grantee_node_id PUBLIC_ROLE) PUBLIC_ROLE) else d in
  let d := foldl push_grant d (map_iter (collapse_grants (grants g))) in
  foldl (λ d p, push_new d (default_node p)) d (map_iter (default_privileges g)).

Definition drawn_edges (g : RoleGraph) : list VisualEdge :=
  let managed := list_to_set (map_keys (roles g)) in
  (membership_visual_edge managed <$> set_iter (memberships g)) ++
  (grant_visual_edge <$> map_iter (collapse_grants (grants g))) ++
  (default_visual_edge <$> map_iter (default_privileges g)).

Definition build_visual_graph (g : RoleGraph) (source : VisualSource) : VisualGraph := {|
  vg_schema_version := VISUAL_GRAPH_SCHEMA_VERSION;
  vg_meta := {|
    vm_source := source; vm_role_count := size (roles g); vm_grant_count := size (grants g);
    vm_default_privilege_count := size (default_privileges g);
    vm_membership_count := size (memberships g); vm_collapsed := true; vm_managed_scope := None |};
  vg_nodes := merge_sort node_le (drawn_nodes g).1;
  vg_edges := merge_sort edge_le (drawn_edges g);
|}.

(** ** Escaping *)

(** A backslash, and the escapes of DOT strings: of backslashes and quotes, and in a label
    of newlines. *)
Definition BS : string := of_bytes [92%N].
Definition backslash : ascii := ascii_of_N 92.

Definition dot_escape_id (id : string) : string :=
  dq (replace_char dq_char (BS +:+ DQ) (replace_char backslash (BS +:+ BS) id)).

Definition dot_escape_label (label : string) : string :=
  replace_char (ascii_of_N 10) (BS +:+ "n")
    (replace_char dq_char (BS +:+ DQ) (replace_char backslash (BS +:+ BS) label)).

(** [ch as u32] of a character in UTF-8. *)
Definition code_point (c : string) : N :=
  match byte_of <$> String.list_ascii_of_string c with
  | [a] => a
  | [a; b] => N.land a 31 * 64 + N.land b 63
  | [a; b; c] => (N.land a 15 * 64 + N.land b 63) * 64 + N.land c 63
  | [a; b; c; d] => ((N.land a 7 * 64 + N.land b 63) * 64 + N.land c 63) * 64 + N.land d 63
  | _ => 0
  end%N.

(** The format [{:02x}]: lowercase hexadecimal, at least two digits. *)
Definition hex_digit (n : N) : string :=
  if (n <? 10)%N then of_bytes [48 + n]%N else of_bytes [87 + n]%N.
Fixpoint hex_digits (fuel : nat) (n : N) : string :=
  match fuel with
  | 0 => ""
  | S fuel => (if (n <? 16)%N then "" else hex_digits fuel (n / 16)) +:+ hex_digit (n mod 16)
  end.
Definition lower_hex2 (n : N) : string :=
  (if (n <? 16)%N then "0" else "") +:+ hex_digits 8 n.

(** ** Renderers *)

Definition writeln (line : string) : string := line +:+ NL.

(** The shape, style and fill colour of a node in DOT. *)
Definition dot_shape (node : VisualNode) : string :=
  match vn_kind node with
  | NodeKind.Role => if bool_decide (vn_login node = Some true) then "box" else "ellipse"
  | NodeKind.ExternalPrincipal => "hexagon"
  | NodeKind.GrantTarget => "note"
  | NodeKind.DefaultPrivilegeTarget => "component"
  end.
Definition dot_style (node : VisualNode) : string :=
  match vn_kind node with
  | NodeKind.ExternalPrincipal => "dashed,filled"
  | _ => "filled"
  end.
Definition dot_fillcolor (node : VisualNode) : string :=
  match vn_kind node with
  | NodeKind.Role => if bool_decide (vn_login node = Some true) then "#e0f2fe" else "#f0fdf4"
  | NodeKind.ExternalPrincipal => "#fef3c7"
  | NodeKind.GrantTarget => "#f5f5f4"
  | NodeKind.DefaultPrivilegeTarget => "#f0fdfa"
  end.

Definition dot_node_line (node : VisualNode) : string :=
  "  " +:+ dot_escape_id (vn_id node) +:+ " [label=" +:+ dq (dot_escape_label (vn_label node)) +:+
  " shape=" +:+ dot_shape node +:+ " style=" +:+ dq (dot_style node) +:+
  " fillcolor=" +:+ dq (dot_fillcolor node) +:+ "];".

Definition dot_edge_line (edge : VisualEdge) : string :=
  let style := match ve_kind edge with EdgeKind.DefaultPrivilege => "dashed" | _ => "solid" end in
  let color := match ve_kind edge with
               | EdgeKind.Membership => "#1e3a5f"
               | EdgeKind.Grant => "#374151"
               | EdgeKind.DefaultPrivilege => "#0d9488"
               end in
  "  " +:+ dot_escape_id (ve_source edge) +:+ " -> " +:+ dot_escape_id (ve_target edge) +:+
  " [label=" +:+ dq (dot_escape_label (ve_label edge)) +:+ " style=" +:+ style +:+
  " color=" +:+ dq color +:+ " fontcolor=" +:+ dq color +:+ "];".

Definition render_dot (g : VisualGraph) : string :=
  writeln "digraph roles {" +:+
  writeln "  rankdir=LR;" +:+
  writeln ("  node [fontname=" +:+ dq "sans-serif" +:+ " fontsize=10];") +:+
  writeln ("  edge [fontname=" +:+ dq "sans-serif" +:+ " fontsize=9];") +:+
  NL +:+
  concat_all ((λ n, writeln (dot_node_line n)) <$> vg_nodes g) +:+
  NL +:+
  concat_all ((λ e, writeln (dot_edge_line e)) <$> vg_edges g) +:+
  writeln "}".

Definition mermaid_escape_label (label : string) : string :=
  replace_char (ascii_of_N 93) "" (replace_char (ascii_of_N 91) "" (replace_char dq_char "#quot;" label)).

(** [char::is_alphanumeric] beyond ASCII is a table of the Unicode standard, an
    argument here. *)
Section mermaid.
Context (unicode_alphanumeric : string → bool).

Definition is_alphanumeric (c : string) : bool :=
  if (code_point c <? 128)%N then is_ascii_alphanumeric c else unicode_alphanumeric c.

Definition mermaid_char (c : string) : string :=
  if String.eqb c ":" then "__"
  else if String.eqb c "." then "_d_"
  else if String.eqb c "@" then "_at_"
  else if String.eqb c "*" then "_star_"
  else if String.eqb c " " then "_sp_"
  else if String.eqb c "/" then "_sl_"
  else if String.eqb c BS then "_bs_"
  else if is_alphanumeric c || String.eqb c "-" || String.eqb c "_" then c
  else "_x" +:+ lower_hex2 (code_point c) +:+ "_".

Definition mermaid_escape_id (id : string) : string := concat_all (mermaid_char <$> chars id).

Definition mermaid_node_line (node : VisualNode) : string :=
  let label := mermaid_escape_label (vn_label node) in
  let shape := match vn_kind node with
               | NodeKind.Role =>
                   if bool_decide (vn_login node = Some true) then "[" +:+ label +:+ "]"
                   else "([" +:+ label +:+ "])"
               | NodeKind.ExternalPrincipal => "{{" +:+ label +:+ "}}"
               | NodeKind.GrantTarget => "[/" +:+ label +:+ "/]"
               | NodeKind.DefaultPrivilegeTarget => "[" +:+ BS +:+ label +:+ BS +:+ "]"
               end in
  "  " +:+ mermaid_escape_id (vn_id node) +:+ shape.

Definition mermaid_edge_line (edge : VisualEdge) : string :=
  let source := mermaid_escape_id (ve_source edge) in
  let target := mermaid_escape_id (ve_target edge) in
  let label := mermaid_escape_label (ve_label edge) in
  let arrow := match ve_kind edge with EdgeKind.DefaultPrivilege => "-.->" | _ => "-->" end in
  if String.eqb label "" then "  " +:+ source +:+ " " +:+ arrow +:+ " " +:+ target
  else "  " +:+ source +:+ " " +:+ arrow +:+ "|" +:+ label +:+ "| " +:+ target.

Definition render_mermaid (g : VisualGraph) : string :=
  writeln "graph LR" +:+
  concat_all ((λ n, writeln (mermaid_node_line n)) <$> vg_nodes g) +:+
  concat_all ((λ e, writeln (mermaid_edge_line e)) <$> vg_edges g).
End mermaid.

(** *** The terminal tree *)

(** The box-drawing characters U+2514, U+251C, U+2500 and U+2502 in UTF-8. *)
Definition CORNER : string := of_bytes [226; 148; 148]%N.
Definition TEE : string := of_bytes [226; 148; 156]%N.
Definition DASHES : string := of_bytes [226; 148; 128; 226; 148; 128]%N.
Definition BAR : string := of_bytes [226; 148; 130]%N.

Definition connector (is_last : bool) : string := if is_last then CORNER else TEE.

(** [for (idx, x) in l.iter().enumerate()] with [idx == l.len() - 1]. *)
Definition lines_of {A} (line : bool → A → string) (l : list A) : string :=
  concat_all (imap (λ idx x, writeln (line (bool_decide (idx = length l - 1)) x)) l).

Definition render_tree_section (child_prefix : string) (is_last_section : bool)
    (section_name : string) (edges : list VisualEdge) (format_item : VisualEdge → string) : string :=
  let item_prefix :=
    if is_last_section then child_prefix +:+ "    " else child_prefix +:+ BAR +:+ "   " in
  writeln (child_prefix +:+ connector is_last_section +:+ DASHES +:+ " " +:+ section_name) +:+
  lines_of (λ is_last edge, item_prefix +:+ connector is_last +:+ DASHES +:+ " " +:+ format_item edge)
    edges.

(** [map.get(id)] of the edges of one kind, filed under an end point: [None] when
    there are none. *)
Definition edges_under (kind : EdgeKind) (end_point : VisualEdge → string) (id : string)
    (edges : list VisualEdge) : option (list VisualEdge) :=
  match filter (λ e, ve_kind e = kind ∧ end_point e = id) edges with
  | [] => None
  | l => Some l
  end.

Definition node_label (node_map : gmap string VisualNode) (id : string) : string :=
  match node_map !! id with Some n => vn_label n | None => id end.

Definition member_item (node_map : gmap string VisualNode) (edge : VisualEdge) : string :=
  node_label node_map (ve_source edge) +:+
  (if String.eqb (ve_label edge) "member" then "" else " (" +:+ ve_label edge +:+ ")").
Definition grant_item (node_map : gmap string VisualNode) (edge : VisualEdge) : string :=
  node_label node_map (ve_target edge) +:+ ": " +:+ ve_label edge.
Definition default_item (node_map : gmap string VisualNode) (edge : VisualEdge) : string :=
  node_label node_map (ve_source edge) +:+ ": " +:+ ve_label edge.

(** The sections of one role: each is the last when [section_idx == section_count - 1]. *)
Definition role_sections (g : VisualGraph) (node_map : gmap string VisualNode)
    (child_prefix id : string) : string :=
  let members := edges_under EdgeKind.Membership ve_target id (vg_edges g) in
  let grants := edges_under EdgeKind.Grant ve_source id (vg_edges g) in
  let defaults := edges_under EdgeKind.DefaultPrivilege ve_target id (vg_edges g) in
  let section last name edges item :=
    match edges with
    | Some l => render_tree_section child_prefix last name l item
    | None => ""
    end in
  section (bool_decide (grants = None ∧ defaults = None)) "Members" members (member_item node_map) +:+
  section (bool_decide (defaults = None)) "Grants" grants (grant_item node_map) +:+
  section true "Default Privileges" defaults (default_item node_map).

Definition render_tree (g : VisualGraph) : string :=
  let node_map := map_collect ((λ n, (vn_id n, n)) <$> vg_nodes g) in
  let role_nodes := filter (λ n, vn_kind n = NodeKind.Role) (vg_nodes g) in
  let external_nodes := filter (λ n, vn_kind n = NodeKind.ExternalPrincipal) (vg_nodes g) in
  concat_all (imap (λ idx n,
    let is_last := bool_decide (idx = length role_nodes - 1) in
    writeln (connector is_last +:+ DASHES +:+ " " +:+ vn_label n +:+
             (if bool_decide (vn_login n = Some true) then " [LOGIN]" else "")) +:+
    role_sections g node_map (if is_last then "    " else BAR +:+ "   ") (vn_id n)) role_nodes) +:+
  match external_nodes with
  | [] => ""
  | _ => NL +:+ writeln "External principals:" +:+
         lines_of (λ is_last n, connector is_last +:+ DASHES +:+ " " +:+ vn_label n) external_nodes
  end.

(** ** What is drawn

    [ids] lists the ids of the nodes pushed so far; [node_ids] is that set, no id is
    pushed twice, and every step keeps the ids it finds. *)

Definition ids (d : Drawn) : list string := vn_id <$> d.1.

Record well_drawn (d : Drawn) : Prop := {
  wd_nodup : NoDup (ids d);
  wd_ids : ∀ id, id ∈ d.2 ↔ id ∈ ids d;
}.

Lemma push_new_ok d node :
  well_drawn d → well_drawn (push_new d node) ∧ ids d ⊆ ids (push_new d node) ∧
  vn_id node ∈ ids (push_new d node).
Proof.
  intros [Hn Hi]. unfold push_new. case_decide as Hd.
  - split_and!; [done|done|by apply Hi].
  - assert (ids (d.1 ++ [node], {[vn_id node]} ∪ d.2) = ids d ++ [vn_id node]) as Heq.
    { unfold ids; cbn [fst]. by rw fmap_app. }
    rw Heq. split_and!; [|set_solver|set_solver]. split; rw Heq; cbn [snd].
    + apply NoDup_app. split_and!; [done| |apply NoDup_singleton].
      intros x Hx Hx'%list_elem_of_singleton. subst. by apply Hd, Hi.
    + intros id. rw elem_of_union elem_of_singleton elem_of_app list_elem_of_singleton Hi. tauto.
Qed.

Lemma update_node_ids id f nodes :
  (∀ n, vn_id (f n) = vn_id n) → vn_id <$> update_node id f nodes = vn_id <$> nodes.
Proof.
  intros Hf. induction nodes as [|n nodes IH]=> //=. destruct (String.eqb _ _); cbn.
  - by rw Hf.
  - by rw IH.
Qed.

Lemma push_grant_ok d p :
  well_drawn d → well_drawn (push_grant d p) ∧ ids d ⊆ ids (push_grant d p) ∧
  collapsed_node_id p.1 ∈ ids (push_grant d p).
Proof.
  intros Hd. unfold push_grant. case_decide as Hin; [|by apply push_new_ok].
  assert (ids (update_node (collapsed_node_id p.1) (merge_privileges (privilege_strings p.2)) d.1, d.2)
          = ids d) as Heq by (by apply update_node_ids).
  rw Heq. destruct Hd as [Hn Hi]. split_and!; [|done|by apply Hi].
  split; rw Heq; cbn [snd]; done.
Qed.

(** A loop whose turns keep the drawing well formed, keep its ids and leave the id of
    their element in it. *)
Lemma drawing_loop {A} (step : Drawn → A → Drawn) (id : A → string) (l : list A) d0 :
  (∀ d x, x ∈ l → well_drawn d → ids d0 ⊆ ids d →
     well_drawn (step d x) ∧ ids d ⊆ ids (step d x) ∧ id x ∈ ids (step d x)) →
  well_drawn d0 →
  well_drawn (foldl step d0 l) ∧ ids d0 ⊆ ids (foldl step d0 l) ∧
  ∀ x, x ∈ l → id x ∈ ids (foldl step d0 l).
Proof.
  revert d0. induction l as [|x l IH]=> d0 Hstep Hd /=.
  - split_and!; [done|done|]. intros x Hx. by apply not_elem_of_nil in Hx.
  - destruct (Hstep d0 x) as (H1 & H2 & H3); [left|done|done|].
    destruct (IH (step d0 x)) as (H4 & H5 & H6); [|done|].
    { intros d y Hy Hwd Hsub. apply Hstep; [by right|done|by etrans]. }
    split_and!; [done|by etrans|]. intros y [->|Hy]%elem_of_cons; [by apply H5|by apply H6].
Qed.

(** The node that stands for the member of an edge. *)
Definition member_id (managed : gset string) (edge : MembershipEdge) : string :=
  if decide (me_member edge ∈ managed) then "role:" +:+ me_member edge
  else "external:" +:+ me_member edge.

#[export] Instance app_prefix_inj (s : string) : Inj (=) (=) (String.app s).
Proof. induction s as [|a s IH]=> t u /=; [done|]. intros [= H]. by apply IH. Qed.

Lemma role_nodes_ok l d :
  NoDup l.*1 → (∀ name, name ∈ l.*1 → "role:" +:+ name ∉ ids d) → well_drawn d →
  well_drawn (foldl push_role d l) ∧ ids (foldl push_role d l) = ids d ++ (String.app "role:" <$> l.*1).
Proof.
  revert d. induction l as [|[name st] l IH]=> d Hnd Hfresh Hd.
  - cbn. by rw app_nil_r.
  - rw /= in Hnd. apply NoDup_cons in Hnd as [Hni Hnd].
    assert (push_role d (name, st) = push_new d (role_node (name, st))) as Hpush.
    { unfold push_role, push_new. rw decide_False //. rw (wd_ids _ Hd). apply Hfresh. left. }
    assert (ids (push_role d (name, st)) = ids d ++ ["role:" +:+ name]) as Hids.
    { unfold ids, push_role; cbn [fst]. by rw fmap_app. }
    destruct (IH (push_role d (name, st))) as [H1 H2]; [done| |rw Hpush; by apply push_new_ok|].
    + intros n Hn. rw Hids elem_of_app list_elem_of_singleton. intros [H|H].
      * eapply Hfresh; [|exact H]. by right.
      * apply (inj (String.app "role:")) in H. by subst.
    + split; [done|]. cbn [foldl]. rw H2 Hids -app_assoc //.
Qed.

Lemma drawn_nodes_ok (g : RoleGraph) :
  let managed := list_to_set (map_keys (roles g)) in
  let d := drawn_nodes g in
  well_drawn d ∧
  (∀ name, is_Some (roles g !! name) → "role:" +:+ name ∈ ids d) ∧
  (∀ edge, edge ∈ memberships g → member_id managed edge ∈ ids d) ∧
  (addresses_public g → grantee_node_id PUBLIC_ROLE ∈ ids d) ∧
  (∀ k, is_Some (collapse_grants (grants g) !! k) → collapsed_node_id k ∈ ids d) ∧
  (∀ k, is_Some (default_privileges g !! k) → default_priv_node_id k ∈ ids d).
Proof.
  intros managed d.
  assert (well_drawn ([], ∅)) as H0 by (split; [constructor|set_solver]).
  destruct (role_nodes_ok (map_iter (roles g)) ([], ∅)) as [H1 Hids1];
    [apply NoDup_map_keys|intros ? _; apply not_elem_of_nil|done|].
  set (d1 := foldl push_role ([], ∅) (map_iter (roles g))) in *.
  assert (∀ name, is_Some (roles g !! name) → "role:" +:+ name ∈ ids d1) as Hroles.
  { intros name Hn. rw Hids1. apply elem_of_app; right. apply list_elem_of_fmap_2.
    by apply elem_of_map_keys. }
  destruct (drawing_loop (push_member managed) (member_id managed) (set_iter (memberships g)) d1)
    as (H2 & Hsub2 & Hin2); [|done|].
  { intros d' e _ Hd' Hsub. unfold push_member, member_id. case_decide as Hm; [|by apply push_new_ok].
    split_and!; [done|done|]. apply Hsub, Hroles. apply elem_of_map_keys. by apply elem_of_list_to_set in Hm. }
  set (d2 := foldl (push_member managed) d1 (set_iter (memberships g))) in *.
  set (d3 := if addresses_public g
             then push_new d2 (external_node (grantee_node_id PUBLIC_ROLE) PUBLIC_ROLE) else d2).
  assert (well_drawn d3 ∧ ids d2 ⊆ ids d3 ∧
          (addresses_public g → grantee_node_id PUBLIC_ROLE ∈ ids d3)) as (H3 & Hsub3 & Hpub).
  { subst d3. destruct (addresses_public g); [|done].
    destruct (push_new_ok d2 (external_node (grantee_node_id PUBLIC_ROLE) PUBLIC_ROLE) H2) as (?&?&?).
    by split_and!. }
  destruct (drawing_loop push_grant (λ p, collapsed_node_id p.1)
              (map_iter (collapse_grants (grants g))) d3) as (H4 & Hsub4 & Hin4); [|done|].
  { intros. by apply push_grant_ok. }
  set (d4 := foldl push_grant d3 _) in *.
  destruct (drawing_loop (λ d p, push_new d (default_node p)) (λ p, default_priv_node_id p.1)
              (map_iter (default_privileges g)) d4) as (H5 & Hsub5 & Hin5); [|done|].
  { intros ? p ? ? ?. by apply (push_new_ok _ (default_node p)). }
  change (foldl _ d4 _) with d in H5, Hsub5, Hin5. split_and!.
  - done.
  - intros name Hn. by apply Hsub5, Hsub4, Hsub3, Hsub2, Hroles.
  - intros e He. apply Hsub5, Hsub4, Hsub3, Hin2. by apply elem_of_set_iter.
  - intros Hp. by apply Hsub5, Hsub4, Hpub.
  - intros k [X Hk]. apply Hsub5, (Hin4 (k, X)). by apply elem_of_map_iter.
  - intros k [X Hk]. apply (Hin5 (k, X)). by apply elem_of_map_iter.
Qed.

Lemma elem_of_cons_exists {A} (P : A → Prop) x l :
  (∃ y, y ∈ x :: l ∧ P y) ↔ P x ∨ ∃ y, y ∈ l ∧ P y.
Proof.
  split.
  - intros (y & [->|Hy]%elem_of_cons & HP); eauto.
  - intros [HP|(y & Hy & HP)]; [exists x; split; [left|done]|exists y; split; [by right|done]].
Qed.

(** A collapsed entry unites the grants filed under its key. *)
Lemma collapse_loop (l : list (GrantKey * gset Privilege))
    (acc : gmap CollapsedGrantKey (gset Privilege)) ck :
  let m := foldl (λ acc p, entry_extend (collapsed_key p.1) p.2 acc) acc l in
  (is_Some (m !! ck) ↔ is_Some (acc !! ck) ∨ ∃ q, q ∈ l ∧ collapsed_key q.1 = ck) ∧
  ∀ p, p ∈ default ∅ (m !! ck) ↔
       p ∈ default ∅ (acc !! ck) ∨ ∃ q, q ∈ l ∧ collapsed_key q.1 = ck ∧ p ∈ q.2.
Proof.
  revert acc. induction l as [|q l IH]=> acc m; subst m; cbn [foldl].
  - split; [|intros p]; split; [by left| |by left|]; intros [?|(q & Hq & _)]; try done;
      by apply not_elem_of_nil in Hq.
  - destruct (IH (entry_extend (collapsed_key q.1) q.2 acc)) as [IH1 IH2]. clear IH.
    unfold entry_extend in *. destruct (decide (collapsed_key q.1 = ck)) as [<-|Hne].
    + rw lookup_insert_eq in IH1 IH2. split.
      * rw IH1 elem_of_cons_exists. split; [intros _; right; by left|eauto].
      * intros p. rw IH2 elem_of_cons_exists. cbn [default from_option]. rw elem_of_union.
        split; [intros [[?|?]|?]|intros [?|[[_ ?]|?]]]; auto.
    + rw lookup_insert_ne // in IH1 IH2. split.
      * rw IH1 elem_of_cons_exists. split; [intros [?|?]|intros [?|[?|?]]]; auto; done.
      * intros p. rw IH2 elem_of_cons_exists. split; [intros [?|?]|intros [?|[[? _]|?]]]; auto; done.
Qed.

Lemma collapse_grants_from gs ck :
  is_Some (collapse_grants gs !! ck) ↔ ∃ key, is_Some (gs !! key) ∧ collapsed_key key = ck.
Proof.
  destruct (collapse_loop (map_iter gs) ∅ ck) as [H _]. unfold collapse_grants. rw H. split.
  - intros [[? ?]|(q & Hq%elem_of_map_iter' & <-)]; [done|]. eauto.
  - intros (key & [X Hk] & <-). right. exists (key, X). by rw elem_of_map_iter.
Qed.

Lemma collapse_grants_holds gs ck Y p :
  collapse_grants gs !! ck = Some Y →
  p ∈ Y ↔ ∃ key X, gs !! key = Some X ∧ collapsed_key key = ck ∧ p ∈ X.
Proof.
  intros HY. destruct (collapse_loop (map_iter gs) ∅ ck) as [_ H]. unfold collapse_grants in HY.
  specialize (H p). rw HY /= in H. rw H. split.
  - intros [?|(q & Hq%elem_of_map_iter' & ? & ?)]; [set_solver|]. eauto.
  - intros (key & X & Hk & ? & ?). right. exists (key, X). by rw elem_of_map_iter.
Qed.

(** *** A drawing has no edge into the void *)

(** An end point is a node, or names a role the graph does not hold. *)
Definition end_point_ok (g : RoleGraph) (v : VisualGraph) (id : string) : Prop :=
  id ∈ vn_id <$> vg_nodes v ∨ ∃ name, roles g !! name = None ∧ id = "role:" +:+ name.

(** Grantees as [Grantee::parse] makes them. *)
Definition parsed_grantees (g : RoleGraph) : Prop :=
  (∀ k, is_Some (grants g !! k) → gk_role k ≠ Grantee.Role PUBLIC_ROLE) ∧
  (∀ k, is_Some (default_privileges g !! k) → dk_grantee k ≠ Grantee.Role PUBLIC_ROLE).

Lemma grantee_end_point g v (gr : Grantee) :
  (∀ name, is_Some (roles g !! name) → "role:" +:+ name ∈ vn_id <$> vg_nodes v) →
  (is_public gr → grantee_node_id PUBLIC_ROLE ∈ vn_id <$> vg_nodes v) →
  gr ≠ Grantee.Role PUBLIC_ROLE → end_point_ok g v (grantee_node_id (grantee_as_str gr)).
Proof.
  intros Hr Hp Hne. destruct gr as [|name]; [left; by apply Hp|].
  unfold grantee_node_id; cbn [grantee_as_str].
  destruct (String.eqb_spec name PUBLIC_ROLE) as [->|_]; [done|].
  destruct (roles g !! name) eqn:Hn; [left; apply Hr; by rw Hn|right; eauto].
Qed.

Lemma sorted_nodes_ids g source id :
  id ∈ vn_id <$> vg_nodes (build_visual_graph g source) ↔ id ∈ ids (drawn_nodes g).
Proof. cbn. by rw merge_sort_Permutation. Qed.


(** ** A drawing *)

Module DrawnScene.
Definition select_on (r name : string) : GrantKey := {|
  gk_role := grantee_parse r; gk_object_type := ObjectType.Table; gk_schema := Some "shop";
  gk_name := Some name |}.
Definition graph : RoleGraph := {|
  routine_aliases := ∅; roles := {[ "reader" := role_state_default ]}; schemas := ∅;
  grants := {[ select_on "reader" "orders" := {[ Privilege.Select ]};
               select_on "reader" "items" := {[ Privilege.Insert ]};
               select_on "PUBLIC" "items" := {[ Privilege.Select ]} ]};
  default_privileges := ∅;
  memberships := {[ {| me_role := "reader"; me_member := "ann"; me_inherit := true; me_admin := false |} ]};
  grant_absences := ∅; default_privilege_absences := ∅; exclusive_membership_roles := ∅;
  inherent_grants := ∅; membership_edge_grantors := ∅; membership_edge_options := ∅;
  executor_authority_edges := ∅; grant_entry_grantors := ∅ |}.
End DrawnScene.

Example drawn_ids :
  vn_id <$> vg_nodes (build_visual_graph DrawnScene.graph VisualSource.Desired) =
  ["external:PUBLIC"; "external:ann"; "grant:table:shop:*"; "role:reader"].
Proof. by vm_compute. Qed.

Lemma drawn_scene_parsed : parsed_grantees DrawnScene.graph.
Proof.
  split; intros k [X Hk].
  - assert (is_Some (grants DrawnScene.graph !! k)) as Hs%elem_of_map_keys by (by exists X). clear Hk.
    assert (map_keys (grants DrawnScene.graph) =
      [DrawnScene.select_on "PUBLIC" "items"; DrawnScene.select_on "reader" "items";
       DrawnScene.select_on "reader" "orders"]) as Heq by (by vm_compute).
    rw Heq in Hs. elem_inv Hs; subst; by vm_compute.
  - cbn in Hk. by rw lookup_empty in Hk.
Qed.


(** The substitutions of [mermaid_escape_id] are meant to keep ids apart and do not:
    two roles of different names share a Mermaid node. *)
Lemma mermaid_ids_collide (unicode_alphanumeric : string → bool) :
  mermaid_escape_id unicode_alphanumeric "role:a.b" =
  mermaid_escape_id unicode_alphanumeric "role:a_d_b".
Proof. by vm_compute. Qed.
