(* ===== verification/Explorer.v ===== *)
(** * The plan explorer ([explorer.rs])

    The explorer plays a plan on a snapshot of the role graph, phase by phase, and
    reports which authority the executor holds, gains, lacks or loses.  It knows
    memberships by three maps of tri-state facts: SET ROLE, INHERIT and ADMIN. *)

From S2P Require Import Prelude BTree RustStr Types Model Change Diff Interp Manifest Plan MembershipOptions Visual.

Definition EXPLORER_SCHEMA_VERSION : string := "pgroles.explorer.v1".
Definition MAX_EXPLORER_YAML_BYTES : N := 1024 * 1024.
Definition DEFAULT_PG_MAJOR_VERSION : N := 16.
Definition MIN_PG_MAJOR_VERSION : N := 12.
Definition MAX_PG_MAJOR_VERSION : N := 20.

(** ** Facts about the executor *)

Module SetRoleCapability.
Inductive SetRoleCapability : Set := Allowed | Denied | Unknown.
End SetRoleCapability.
Abbreviation SetRoleCapability := SetRoleCapability.SetRoleCapability.
#[export] Instance capability_eq_dec : EqDecision SetRoleCapability.
Proof. solve_decision. Defined.

Record ExecutorMembershipFact := {
  emf_role : string;
  emf_member : string;
  emf_set_role : SetRoleCapability;
  emf_inherit : SetRoleCapability;
  emf_admin_option : SetRoleCapability;
}.

Record ExecutorFacts := {
  ef_role : string;
  ef_superuser : bool;
  ef_bootstrap_role : option string;
  ef_createrole : SetRoleCapability;
  ef_memberships : list ExecutorMembershipFact;
  ef_new_membership_set_role : SetRoleCapability;
  ef_new_role_set_role : SetRoleCapability;
  ef_new_role_inherit : SetRoleCapability;
  ef_new_role_admin_option : SetRoleCapability;
}.

(** [EdgeFacts]: keyed by (granted role, member). *)
Abbreviation EdgeFacts := (gmap (string * string) SetRoleCapability).

Definition capability (value : bool) : SetRoleCapability :=
  if value then SetRoleCapability.Allowed else SetRoleCapability.Denied.

Definition membership_set_role_default (pg_major_version : N) : SetRoleCapability :=
  if (16 <=? pg_major_version)%N then SetRoleCapability.Unknown else SetRoleCapability.Allowed.

Definition merge_fact (facts : EdgeFacts) (key : string * string) (value : SetRoleCapability) : EdgeFacts :=
  if decide (value = SetRoleCapability.Unknown)
  then match facts !! key with
       | Some _ => facts
       | None => <[key := SetRoleCapability.Unknown]> facts
       end
  else <[key := value]> facts.

(** The facts of the simulation: [set_role], [usage] and [admin_options]. *)
Record Authorities := {
  au_set_role : EdgeFacts;
  au_usage : EdgeFacts;
  au_admin_options : EdgeFacts;
}.

(** [entry(key).or_insert(Denied)], raised to [Allowed] by an option that is set. *)
Definition or_denied (facts : EdgeFacts) (key : string * string) (option_set : bool) : EdgeFacts :=
  <[key := if option_set then SetRoleCapability.Allowed
           else default SetRoleCapability.Denied (facts !! key)]> facts.

(** The two loop bodies of [initial_edge_facts]. *)
Definition edge_fact (g : RoleGraph) (default_set_role : SetRoleCapability) (a : Authorities)
    (edge : MembershipEdge) : Authorities :=
  let key := (me_role edge, me_member edge) in
  let inspected_set :=
    match complete_membership_options g (me_role edge) (me_member edge) with
    | Some options => capability (existsb mo_set (map_iter options).*2)
    | None => default_set_role
    end in {|
  au_set_role := <[key := inspected_set]> (au_set_role a);
  au_usage := or_denied (au_usage a) key (me_inherit edge);
  au_admin_options := or_denied (au_admin_options a) key (me_admin edge);
|}.

Definition executor_fact (default_set_role : SetRoleCapability) (a : Authorities)
    (fact : ExecutorMembershipFact) : Authorities :=
  let key := (emf_role fact, emf_member fact) in
  let set_role_fact :=
    if decide (emf_set_role fact = SetRoleCapability.Unknown) then default_set_role
    else emf_set_role fact in {|
  au_set_role := merge_fact (au_set_role a) key set_role_fact;
  au_usage := merge_fact (au_usage a) key (emf_inherit fact);
  au_admin_options := merge_fact (au_admin_options a) key (emf_admin_option fact);
|}.

Definition initial_edge_facts (g : RoleGraph) (executor : ExecutorFacts) (pg_major_version : N) :
    Authorities :=
  let default_set_role := membership_set_role_default pg_major_version in
  foldl (executor_fact default_set_role)
    (foldl (edge_fact g default_set_role)
       {| au_set_role := ∅; au_usage := ∅; au_admin_options := ∅ |} (set_iter (memberships g)))
    (ef_memberships executor).

(** ** Attributes of the executor *)

Record ExecutorAttributes := {
  ea_superuser : bool;
  ea_createrole : SetRoleCapability;
}.

(** [ExecutorAttributes::initial] *)
Definition attributes_initial (g : RoleGraph) (executor : ExecutorFacts) : ExecutorAttributes :=
  let snapshot := roles g !! ef_role executor in {|
  ea_superuser := ef_superuser executor ||
    match snapshot with Some role => rs_superuser role | None => false end;
  ea_createrole :=
    match ef_createrole executor with
    | SetRoleCapability.Unknown =>
        match snapshot with
        | Some role => capability (rs_createrole role)
        | None => SetRoleCapability.Unknown
        end
    | explicit => explicit
    end;
|}.

Definition apply_executor_attribute (self : ExecutorAttributes) (attribute : RoleAttribute) :
    ExecutorAttributes :=
  match attribute with
  | RoleAttribute.Superuser value => {| ea_superuser := value; ea_createrole := ea_createrole self |}
  | RoleAttribute.Createrole value =>
      {| ea_superuser := ea_superuser self; ea_createrole := capability value |}
  | _ => self
  end.

(** [ExecutorAttributes::apply] *)
Definition attributes_apply (self : ExecutorAttributes) (change : Change) (executor : ExecutorFacts) :
    ExecutorAttributes :=
  match change with
  | Change.AlterRole name attributes =>
      if decide (name = ef_role executor) then foldl apply_executor_attribute self attributes else self
  | _ => self
  end.

Definition affects_reachability (change : Change) : bool :=
  match change with
  | Change.CreateRole _ _ | Change.DropRole _ | Change.UpdateMemberOptions _ _ _ _ _ _
  | Change.AddMember _ _ _ _ | Change.RemoveMember _ _ _ => true
  | Change.AlterRole _ attributes =>
      existsb (λ attribute, match attribute with
                            | RoleAttribute.Superuser _ | RoleAttribute.Inherit _ => true
                            | _ => false
                            end) attributes
  | _ => false
  end.

(** ** Phases *)

Module PlanPhase.
Inductive PlanPhase : Set :=
  | Create | Alter | Grant | MembershipRemove | MembershipAdd | Revoke
  | DefaultPrivilegeRevoke | Retire.
End PlanPhase.
Abbreviation PlanPhase := PlanPhase.PlanPhase.
#[export] Instance plan_phase_eq_dec : EqDecision PlanPhase.
Proof. solve_decision. Defined.

(** The derived order of [PlanPhase] is the order of its constructors. *)
Definition phase_index (p : PlanPhase) : nat :=
  match p with
  | PlanPhase.Create => 0 | PlanPhase.Alter => 1 | PlanPhase.Grant => 2
  | PlanPhase.MembershipRemove => 3 | PlanPhase.MembershipAdd => 4 | PlanPhase.Revoke => 5
  | PlanPhase.DefaultPrivilegeRevoke => 6 | PlanPhase.Retire => 7
  end.
#[export] Instance phase_index_inj : Inj (=) (=) phase_index.
Proof. by intros [] []. Qed.
#[export] Instance plan_phase_ord : Ord PlanPhase := ord_by phase_index.
#[export] Instance plan_phase_countable : Countable PlanPhase.
Proof.
  refine (inj_countable phase_index (λ n,
    nth_error [PlanPhase.Create; PlanPhase.Alter; PlanPhase.Grant; PlanPhase.MembershipRemove;
               PlanPhase.MembershipAdd; PlanPhase.Revoke; PlanPhase.DefaultPrivilegeRevoke;
               PlanPhase.Retire] n) _).
  by intros [].
Defined.

Definition phase_for (change : Change) : PlanPhase :=
  match change with
  | Change.CreateRole _ _ | Change.CreateSchema _ _ => PlanPhase.Create
  | Change.AlterRole _ _ | Change.SetComment _ _ | Change.AlterSchemaOwner _ _
  | Change.EnsureSchemaOwnerPrivileges _ _ _ | Change.SetPassword _ _ => PlanPhase.Alter
  | Change.Grant _ _ _ _ _ | Change.SetDefaultPrivilege _ _ _ _ _ => PlanPhase.Grant
  | Change.UpdateMemberOptions _ _ _ inherit admin _ =>
      if bool_decide (inherit = Some false) || bool_decide (admin = Some false)
      then PlanPhase.MembershipRemove else PlanPhase.MembershipAdd
  | Change.RemoveMember _ _ _ => PlanPhase.MembershipRemove
  | Change.AddMember _ _ _ _ => PlanPhase.MembershipAdd
  | Change.Revoke _ _ _ _ _ _ => PlanPhase.Revoke
  | Change.RevokeDefaultPrivilege _ _ _ _ _ => PlanPhase.DefaultPrivilegeRevoke
  | Change.ReassignOwned _ _ | Change.DropOwned _ | Change.TerminateSessions _
  | Change.DropRole _ => PlanPhase.Retire
  end.

(** One turn of [grouped_phases]: the last group is extended when its phase is the same. *)
Definition group_change (result : list (PlanPhase * list Change)) (change : Change) :
    list (PlanPhase * list Change) :=
  match last result with
  | Some (phase, items) =>
      if decide (phase = phase_for change)
      then removelast result ++ [(phase, items ++ [change])]
      else result ++ [(phase_for change, [change])]
  | None => result ++ [(phase_for change, [change])]
  end.

Definition grouped_phases (changes : list Change) : list (PlanPhase * list Change) :=
  foldl group_change [] changes.

(** ** Reachability *)

Module ReachabilityStatus.
Inductive ReachabilityStatus : Set := Reachable | Unreachable | Unknown.
End ReachabilityStatus.
Abbreviation ReachabilityStatus := ReachabilityStatus.ReachabilityStatus.
#[export] Instance status_eq_dec : EqDecision ReachabilityStatus.
Proof. solve_decision. Defined.

Abbreviation Statuses := (gmap string ReachabilityStatus).

(** The edges of [granted_to[member]], in the order of the facts. *)
Definition granted_to (facts : EdgeFacts) (member : string) : list (string * SetRoleCapability) :=
  (λ p, (p.1.1, p.2)) <$> filter (λ p, p.1.2 = member) (map_iter facts).

(** The set seen and the queue of [traverse]. *)
Abbreviation Traversal := (gset string * list string)%type.

(** [if follow(capability) && seen.insert(role) { queue.push_back(role) }] *)
Definition visit_edge (follow : SetRoleCapability → bool) (t : Traversal)
    (edge : string * SetRoleCapability) : Traversal :=
  if follow edge.2 && bool_decide (edge.1 ∉ t.1) then ({[edge.1]} ∪ t.1, t.2 ++ [edge.1]) else t.

(** [while let Some(member) = queue.pop_front()], on fuel. *)
Fixpoint traverse_loop (fuel : nat) (facts : EdgeFacts) (follow : SetRoleCapability → bool)
    (t : Traversal) : Traversal :=
  match fuel, t.2 with
  | S fuel, member :: queue =>
      traverse_loop fuel facts follow (foldl (visit_edge follow) (t.1, queue) (granted_to facts member))
  | _, _ => t
  end.

(** Every role enters the queue at most once, and apart from the executor it is the
    granted role of a fact. *)
Definition traverse_fuel (facts : EdgeFacts) : nat := S (size facts).

Definition traversal (facts : EdgeFacts) (executor_role : string)
    (follow : SetRoleCapability → bool) : Traversal :=
  traverse_loop (traverse_fuel facts) facts follow ({[executor_role]}, [executor_role]).

(** The closure [traverse]. *)
Definition traverse (facts : EdgeFacts) (executor_role : string)
    (follow : SetRoleCapability → bool) : gset string :=
  (traversal facts executor_role follow).1.

Definition is_allowed (c : SetRoleCapability) : bool := bool_decide (c = SetRoleCapability.Allowed).
Definition not_denied (c : SetRoleCapability) : bool := bool_decide (c ≠ SetRoleCapability.Denied).

(** [all_roles] *)
Definition all_roles (g : RoleGraph) (facts : EdgeFacts) (executor_role : string) : gset string :=
  {[executor_role]} ∪ dom (roles g) ∪
  list_to_set (map_keys facts ≫= λ key, [key.1; key.2]).

Definition status_of (definite possible : gset string) (authority_graph_complete : bool)
    (role : string) : ReachabilityStatus :=
  if decide (role ∈ definite) then ReachabilityStatus.Reachable
  else if bool_decide (role ∈ possible) || negb authority_graph_complete
  then ReachabilityStatus.Unknown else ReachabilityStatus.Unreachable.

Definition reachability (g : RoleGraph) (facts : EdgeFacts) (executor_role : string)
    (executor_superuser authority_graph_complete : bool) : Statuses :=
  let rs := all_roles g facts executor_role in
  if executor_superuser then set_to_map (λ role, (role, ReachabilityStatus.Reachable)) rs
  else
    let definite := traverse facts executor_role is_allowed in
    let possible := traverse facts executor_role not_denied in
    set_to_map (λ role, (role, status_of definite possible authority_graph_complete role)) rs.

(** [reachability_list] *)
Definition reachability_list (statuses : Statuses) : list (string * ReachabilityStatus) :=
  map_iter statuses.

(** ** Findings *)

Module FindingSeverity.
Inductive FindingSeverity : Set := Info | Warning | Error.
End FindingSeverity.
Abbreviation FindingSeverity := FindingSeverity.FindingSeverity.

Module FindingKind.
Inductive FindingKind : Set :=
  | RequiredRoleUnavailable | RequiredRoleReachabilityUnknown | ExecutorLosesAccess
  | MembershipDisconnectsRole | RoleBecomesReachable | DatabasePreflightRequired
  | SuperuserRequired | OwnershipTransferChangesGrantor.
End FindingKind.
Abbreviation FindingKind := FindingKind.FindingKind.
#[export] Instance finding_kind_eq_dec : EqDecision FindingKind.
Proof. solve_decision. Defined.

Record AuthorityFinding := {
  af_kind : FindingKind;
  af_severity : FindingSeverity;
  af_message : string;
  af_phase : option PlanPhase;
  af_change_index : option nat;
  af_role : option string;
  af_change_indices : list nat;
}.

(** The status of a role with no recorded path, [AuthorityState::unseen]. *)
Definition unseen_status (authority_graph_complete : bool) : ReachabilityStatus :=
  if authority_graph_complete then ReachabilityStatus.Unreachable else ReachabilityStatus.Unknown.

Definition status_change (before after : ReachabilityStatus) :
    option (FindingKind * FindingSeverity * string) :=
  match before, after with
  | ReachabilityStatus.Reachable, (ReachabilityStatus.Unreachable | ReachabilityStatus.Unknown) =>
      Some (FindingKind.ExecutorLosesAccess, FindingSeverity.Warning, "loses proven access to")
  | ReachabilityStatus.Unknown, ReachabilityStatus.Unreachable =>
      Some (FindingKind.MembershipDisconnectsRole, FindingSeverity.Warning, "can no longer reach")
  | (ReachabilityStatus.Unreachable | ReachabilityStatus.Unknown), ReachabilityStatus.Reachable =>
      Some (FindingKind.RoleBecomesReachable, FindingSeverity.Info, "can now reach")
  | _, _ => None
  end.

(** The body of the loop of [compare_reachability]: what it pushes. *)
Definition compare_role (phase : PlanPhase) (before after : Statuses) (dropped : gset string)
    (authority_graph_complete : bool) (role : string) : list AuthorityFinding :=
  let unseen := unseen_status authority_graph_complete in
  if bool_decide (role ∈ dropped) && bool_decide (after !! role = None) then []
  else
    match status_change (default unseen (before !! role)) (default unseen (after !! role)) with
    | Some (kind, severity, verb) => [{|
        af_kind := kind; af_severity := severity;
        af_message := "executor " +:+ verb +:+ " role " +:+ role;
        af_phase := Some phase; af_change_index := None; af_role := Some role;
        af_change_indices := [] |}]
    | None => []
    end.

Definition compare_reachability (phase : PlanPhase) (before after : Statuses) (dropped : gset string)
    (authority_graph_complete : bool) (findings : list AuthorityFinding) : list AuthorityFinding :=
  findings ++
  (set_iter (dom before ∪ dom after) ≫=
     compare_role phase before after dropped authority_graph_complete).

(** ** Required authority *)

Record AuthorityState := {
  as_graph : RoleGraph;
  as_set_reachable : Statuses;
  as_usage_reachable : Statuses;
  as_admin_options : EdgeFacts;
  as_is_superuser : bool;
  as_createrole : SetRoleCapability;
  as_authority_graph_complete : bool;
  as_pg_major_version : N;
}.

Definition unseen (self : AuthorityState) : ReachabilityStatus :=
  unseen_status (as_authority_graph_complete self).

(** The closure of [fold] in [admin_option]. *)
Definition better_admin (best : ReachabilityStatus) (p : ReachabilityStatus * SetRoleCapability) :
    ReachabilityStatus :=
  let uncertain :=
    if decide (best = ReachabilityStatus.Reachable) then best else ReachabilityStatus.Unknown in
  match p with
  | (ReachabilityStatus.Reachable, SetRoleCapability.Allowed) => ReachabilityStatus.Reachable
  | (ReachabilityStatus.Reachable, SetRoleCapability.Unknown) => uncertain
  | (ReachabilityStatus.Unknown, (SetRoleCapability.Unknown | SetRoleCapability.Allowed)) => uncertain
  | _ => best
  end.

(** [AuthorityState::admin_option] *)
Definition admin_option (self : AuthorityState) (role : string) : ReachabilityStatus :=
  let edges := take_while (λ p, String.eqb p.1.1 role) (map_range (role, "") (as_admin_options self)) in
  foldl better_admin (unseen self)
    ((λ p, (default (unseen self) (as_usage_reachable self !! p.1.2), p.2)) <$> edges).

(** [AuthorityState::membership_authority] *)
Definition membership_authority (self : AuthorityState) (role : string) : ReachabilityStatus :=
  let admin := admin_option self role in
  if (16 <=? as_pg_major_version self)%N then admin
  else
    match as_createrole self with
    | SetRoleCapability.Allowed => ReachabilityStatus.Reachable
    | SetRoleCapability.Unknown =>
        if decide (admin = ReachabilityStatus.Reachable) then admin else ReachabilityStatus.Unknown
    | SetRoleCapability.Denied => admin
    end.

Definition authority_finding (kind : FindingKind) (severity : FindingSeverity) (message : string)
    (phase : PlanPhase) (index : nat) (role : option string) : AuthorityFinding := {|
  af_kind := kind; af_severity := severity; af_message := message; af_phase := Some phase;
  af_change_index := Some index; af_role := role; af_change_indices := [] |}.

(** [PreflightIndex]: where the findings list holds the aggregate of a phase and a kind. *)
Abbreviation PreflightIndex := (gmap (PlanPhase * string) nat).

Definition change_kind (change : Change) : string :=
  match change with
  | Change.CreateRole _ _ => "CreateRole"
  | Change.CreateSchema _ _ => "CreateSchema"
  | Change.AlterSchemaOwner _ _ => "AlterSchemaOwner"
  | Change.EnsureSchemaOwnerPrivileges _ _ _ => "EnsureSchemaOwnerPrivileges"
  | Change.AlterRole _ _ => "AlterRole"
  | Change.SetComment _ _ => "SetComment"
  | Change.Grant _ _ _ _ _ => "Grant"
  | Change.Revoke _ _ _ _ _ _ => "Revoke"
  | Change.SetDefaultPrivilege _ _ _ _ _ => "SetDefaultPrivilege"
  | Change.RevokeDefaultPrivilege _ _ _ _ _ => "RevokeDefaultPrivilege"
  | Change.AddMember _ _ _ _ => "AddMember"
  | Change.UpdateMemberOptions _ _ _ _ _ _ => "UpdateMemberOptions"
  | Change.RemoveMember _ _ _ => "RemoveMember"
  | Change.ReassignOwned _ _ => "ReassignOwned"
  | Change.DropOwned _ => "DropOwned"
  | Change.TerminateSessions _ => "TerminateSessions"
  | Change.DropRole _ => "DropRole"
  | Change.SetPassword _ _ => "SetPassword"
  end.

(** [let required = match change { .. }]: the role the executor must be able to act for,
    in which map, and what the authority is called. *)
Definition required_role (change : Change) (authority : AuthorityState) :
    option (string * Statuses * string) :=
  match change with
  | Change.SetDefaultPrivilege owner _ _ _ _ | Change.RevokeDefaultPrivilege owner _ _ _ _ =>
      Some (owner, as_usage_reachable authority, "USAGE")
  | Change.Revoke _ _ _ _ _ (Some grantor) => Some (grantor, as_set_reachable authority, "SET ROLE")
  | Change.UpdateMemberOptions _ _ grantor _ _ _ | Change.RemoveMember _ _ (Some grantor) =>
      Some (grantor, as_usage_reachable authority, "USAGE")
  | _ => None
  end.

Definition required_role_findings (change : Change) (phase : PlanPhase) (index : nat)
    (authority : AuthorityState) : list AuthorityFinding :=
  match required_role change authority with
  | Some (role, reachable, authority_name) =>
      let status := default (unseen authority) (reachable !! role) in
      let message qualifier :=
        "required " +:+ authority_name +:+ " authority for grantor or owner role " +:+ role +:+
        " " +:+ qualifier +:+ " for this operation" in
      if as_is_superuser authority then []
      else match status with
           | ReachabilityStatus.Reachable => []
           | ReachabilityStatus.Unknown =>
               [authority_finding FindingKind.RequiredRoleReachabilityUnknown FindingSeverity.Warning
                  (message "is not proven") phase index (Some role)]
           | ReachabilityStatus.Unreachable =>
               [authority_finding FindingKind.RequiredRoleUnavailable FindingSeverity.Error
                  (message "is unavailable") phase index (Some role)]
           end
  | None => []
  end.

(** The role whose membership a change touches, and the one for which the change names no
    grantor it could be made as. *)
Definition touched_role (change : Change) : option string :=
  match change with
  | Change.AddMember role _ _ _ | Change.UpdateMemberOptions role _ _ _ _ _
  | Change.RemoveMember role _ _ => Some role
  | _ => None
  end.
Definition administered_role (change : Change) : option string :=
  match change with
  | Change.AddMember role _ _ _ | Change.UpdateMemberOptions role _ _ _ _ _
  | Change.RemoveMember role _ None => Some role
  | _ => None
  end.

Definition is_superuser_role (g : RoleGraph) (role : string) : bool :=
  match roles g !! role with Some state => rs_superuser state | None => false end.

(** [membership_authority] of one role, as findings. *)
Definition admin_findings (phase : PlanPhase) (index : nat) (authority : AuthorityState)
    (role : string) : list AuthorityFinding :=
  let modern := (16 <=? as_pg_major_version authority)%N in
  let required := if modern then "ADMIN OPTION" else "CREATEROLE or ADMIN OPTION" in
  match membership_authority authority role with
  | ReachabilityStatus.Reachable => []
  | ReachabilityStatus.Unknown =>
      [authority_finding FindingKind.RequiredRoleReachabilityUnknown FindingSeverity.Warning
         (required +:+ " for role " +:+ role +:+ " is not proven; database preflight is required")
         phase index (Some role)]
  | ReachabilityStatus.Unreachable =>
      [authority_finding FindingKind.RequiredRoleUnavailable FindingSeverity.Error
         (if modern
          then "ADMIN OPTION for role " +:+ role +:+ " is unavailable; PostgreSQL 16 and later require it to change membership, and CREATEROLE alone is not sufficient"
          else "CREATEROLE or ADMIN OPTION for role " +:+ role +:+ " is unavailable")
         phase index (Some role)]
  end.

Definition membership_findings (change : Change) (phase : PlanPhase) (index : nat)
    (authority : AuthorityState) : list AuthorityFinding :=
  if as_is_superuser authority then []
  else
    match touched_role change with
    | Some role =>
        if is_superuser_role (as_graph authority) role
        then [authority_finding FindingKind.SuperuserRequired FindingSeverity.Error
                ("membership in superuser role " +:+ role +:+
                 " can only be granted or revoked by a superuser executor")
                phase index (Some role)]
        else match administered_role change with
             | Some role => admin_findings phase index authority role
             | None => []
             end
    | None => []
    end.

Definition transfer_findings (change : Change) (phase : PlanPhase) (index : nat)
    (authority : AuthorityState) : list AuthorityFinding :=
  match change with
  | Change.AlterSchemaOwner name owner =>
      let previous := schemas (as_graph authority) !! name ≫= ss_owner in
      let from := match previous with
                  | Some previous => "role " +:+ previous
                  | None => "an owner outside the snapshot"
                  end in
      [authority_finding FindingKind.OwnershipTransferChangesGrantor FindingSeverity.Info
         ("schema " +:+ name +:+ " ownership moves from " +:+ from +:+ " to role " +:+ owner +:+
          "; " +:+ owner +:+ " becomes the implicit grantor for privileges on schema " +:+ name +:+
          ", including entries " +:+ default "the previous owner" previous +:+ " granted")
         phase index (Some owner)]
  | _ => []
  end.

Definition needs_preflight (change : Change) : bool :=
  match change with
  | Change.SetDefaultPrivilege _ _ _ _ _ | Change.RevokeDefaultPrivilege _ _ _ _ _
  | Change.AddMember _ _ _ _ | Change.UpdateMemberOptions _ _ _ _ _ _
  | Change.RemoveMember _ _ _ => false
  | _ => true
  end.

(** Rust panics where a list is indexed out of range; from here on [None] is a panic. *)
Definition push_change_index (findings : list AuthorityFinding) (position index : nat) :
    option (list AuthorityFinding) :=
  f ← findings !! position;
  Some (<[position := {|
    af_kind := af_kind f; af_severity := af_severity f; af_message := af_message f;
    af_phase := af_phase f; af_change_index := af_change_index f; af_role := af_role f;
    af_change_indices := af_change_indices f ++ [index] |}]> findings).

(** The last [if] of [analyze_required_authority]. *)
Definition add_preflight (change : Change) (phase : PlanPhase) (index : nat)
    (acc : list AuthorityFinding * PreflightIndex) :
    option (list AuthorityFinding * PreflightIndex) :=
  if needs_preflight change then
    let key := (phase, change_kind change) in
    match acc.2 !! key with
    | Some position => findings ← push_change_index acc.1 position index; Some (findings, acc.2)
    | None =>
        Some (acc.1 ++ [{|
                af_kind := FindingKind.DatabasePreflightRequired;
                af_severity := FindingSeverity.Warning; af_message := ""; af_phase := Some phase;
                af_change_index := Some index; af_role := None; af_change_indices := [index] |}],
              <[key := length acc.1]> acc.2)
    end
  else Some acc.

Definition analyze_required_authority (change : Change) (phase : PlanPhase) (index : nat)
    (authority : AuthorityState) (acc : list AuthorityFinding * PreflightIndex) :
    option (list AuthorityFinding * PreflightIndex) :=
  add_preflight change phase index
    (acc.1 ++ required_role_findings change phase index authority ++
       membership_findings change phase index authority ++
       transfer_findings change phase index authority, acc.2).

Definition preflight_message (kind : string) (count : nat) : string :=
  if bool_decide (count = 1)
  then "this " +:+ kind +:+ " operation requires database ownership or privilege preflight"
  else pretty count +:+ " " +:+ kind +:+
       " operations require database ownership or privilege preflight".

Definition word_finding (findings : list AuthorityFinding) (p : PlanPhase * string * nat) :
    option (list AuthorityFinding) :=
  f ← findings !! p.2;
  Some (<[p.2 := {|
    af_kind := af_kind f; af_severity := af_severity f;
    af_message := preflight_message p.1.2 (length (af_change_indices f));
    af_phase := af_phase f; af_change_index := af_change_index f; af_role := af_role f;
    af_change_indices := af_change_indices f |}]> findings).

(** [for x in l { acc = body(acc, x) }], where the body may panic. *)
Fixpoint fold_option {A S} (body : S → A → option S) (acc : S) (l : list A) : option S :=
  match l with
  | [] => Some acc
  | x :: l => acc ← body acc x; fold_option body acc l
  end.

Definition finish_preflight_findings (findings : list AuthorityFinding) (preflight : PreflightIndex) :
    option (list AuthorityFinding) :=
  fold_option word_finding findings (map_iter preflight).

(** ** The effect of a change on the simulated state *)

Definition with_edges (g : RoleGraph) (grantors : gmap (string * string) (gset string))
    (options : gmap (string * string) (gmap string MembershipOptions))
    (entry_grantors : gmap GrantKey (gmap string (gset Privilege))) : RoleGraph := {|
  routine_aliases := routine_aliases g; roles := roles g; schemas := schemas g; grants := grants g;
  default_privileges := default_privileges g; memberships := memberships g;
  grant_absences := grant_absences g; default_privilege_absences := default_privilege_absences g;
  exclusive_membership_roles := exclusive_membership_roles g; inherent_grants := inherent_grants g;
  membership_edge_grantors := grantors; membership_edge_options := options;
  executor_authority_edges := executor_authority_edges g; grant_entry_grantors := entry_grantors |}.

Definition with_entry_grantors g entry_grantors :=
  with_edges g (membership_edge_grantors g) (membership_edge_options g) entry_grantors.
Definition with_member_edges g grantors options :=
  with_edges g grantors options (grant_entry_grantors g).

(** The simulated graph and the three maps of facts. *)
Abbreviation Simulated := (RoleGraph * Authorities)%type.

Definition set_facts (a : Authorities) (key : string * string)
    (set_role usage admin : SetRoleCapability) : Authorities := {|
  au_set_role := <[key := set_role]> (au_set_role a);
  au_usage := <[key := usage]> (au_usage a);
  au_admin_options := <[key := admin]> (au_admin_options a) |}.

Definition set_options (a : Authorities) (key : string * string) (usage admin : SetRoleCapability) :
    Authorities := {|
  au_set_role := au_set_role a;
  au_usage := <[key := usage]> (au_usage a);
  au_admin_options := <[key := admin]> (au_admin_options a) |}.

(** The facts an option update leaves unproven. *)
Definition forget_options (a : Authorities) (key : string * string) (inherit admin : option bool) :
    Authorities := {|
  au_set_role := au_set_role a;
  au_usage := if bool_decide (is_Some inherit)
              then <[key := SetRoleCapability.Unknown]> (au_usage a) else au_usage a;
  au_admin_options := if bool_decide (is_Some admin)
                      then <[key := SetRoleCapability.Unknown]> (au_admin_options a)
                      else au_admin_options a |}.

(** [graph.memberships.retain(..)] and [insert(..)] of the edge of one pair. *)
Definition replace_edge (g : RoleGraph) (role member : string) (inherit admin : bool) : RoleGraph :=
  with_memberships g
    ({[ {| me_role := role; me_member := member; me_inherit := inherit; me_admin := admin |} ]} ∪
     retain_others role member (memberships g)).

Definition apply_revoke (g : RoleGraph) (key : GrantKey) (privileges : gset Privilege)
    (grantor : option string) : RoleGraph :=
  let attributed :=
    grantor ← grantor;
    entries ← grant_entry_grantors g !! key;
    Some (revoke_entry privileges entries grantor) in
  let g :=
    match attributed with
    | Some entries => with_entry_grantors g (<[key := entries]> (grant_entry_grantors g))
    | None => g
    end in
  let g :=
    match grants g !! key with
    | Some state =>
        let left :=
          match attributed with
          | Some entries =>
              let remaining := ⋃ (map_iter entries).*2 in
              if bool_decide (remaining = ∅) then state ∖ privileges else remaining
          | None => state ∖ privileges
          end in
        with_grants g (if bool_decide (left = ∅) then delete key (grants g)
                       else <[key := left]> (grants g))
    | None => g
    end in
  if bool_decide (grant_entry_grantors g !! key = Some ∅)
  then with_entry_grantors g (delete key (grant_entry_grantors g)) else g.

Definition no_options : MembershipOptions := {| mo_inherit := false; mo_admin := false; mo_set := false |}.

(** The first [if] of the arm: a bound update that is to create its edge. *)
Definition create_edge (g : RoleGraph) (role member grantor : string)
    (binding : option MembershipOptionBinding) : option RoleGraph :=
  let key := (role, member) in
  let expects_absent :=
    match binding with
    | Some b => bool_decide (mob_expected b = MembershipExpectedState.Absent)
    | None => false
    end in
  if bool_decide (is_Some (complete_membership_options g role member)) && expects_absent then
    options ← membership_edge_options g !! key;
    match options !! grantor with
    | Some _ => Some g
    | None =>
        grantors ← membership_edge_grantors g !! key;
        Some (with_member_edges g (<[key := {[grantor]} ∪ grantors]> (membership_edge_grantors g))
                (<[key := <[grantor := no_options]> options]> (membership_edge_options g)))
    end
  else Some g.

(** [let complete = ..]: the facts of the pair are complete and name the grantor. *)
Definition names_grantor (g : RoleGraph) (role member grantor : string) : bool :=
  match complete_membership_options g role member with
  | Some options => bool_decide (is_Some (options !! grantor))
  | None => false
  end.

Definition set_edge_options (inherit admin : option bool) (o : MembershipOptions) : MembershipOptions := {|
  mo_inherit := default (mo_inherit o) inherit; mo_admin := default (mo_admin o) admin;
  mo_set := mo_set o |}.

Definition update_options (st : Simulated) (role member grantor : string)
    (inherit admin : option bool) (binding : option MembershipOptionBinding) : option Simulated :=
  let key := (role, member) in
  g ← create_edge st.1 role member grantor binding;
  let complete := names_grantor g role member grantor in
  match membership_edge_options g !! key with
  | Some options =>
      let options := alter (set_edge_options inherit admin) grantor options in
      let g := with_member_edges g (membership_edge_grantors g)
                 (<[key := options]> (membership_edge_options g)) in
      if negb complete then Some (g, forget_options st.2 key inherit admin)
      else
        let new_inherit := existsb mo_inherit (map_iter options).*2 in
        let new_admin := existsb mo_admin (map_iter options).*2 in
        Some (replace_edge g role member new_inherit new_admin,
              set_options st.2 key (capability new_inherit) (capability new_admin))
  | None => Some (g, forget_options st.2 key inherit admin)
  end.

Definition remove_member (pg_major_version : N) (st : Simulated) (role member : string)
    (grantor : option string) : Simulated :=
  let g := st.1 in
  let key := (role, member) in
  let complete := bool_decide (is_Some (complete_membership_options g role member)) in
  let g :=
    match grantor with
    | Some gr => with_member_edges g (alter (λ gs, gs ∖ {[gr]}) key (membership_edge_grantors g))
                   (alter (delete gr) key (membership_edge_options g))
    | None => g
    end in
  let preserve_edge :=
    bool_decide (is_Some grantor) &&
    match membership_edge_grantors g !! key with
    | Some grantors => bool_decide (grantors ≠ ∅)
    | None => false
    end in
  if preserve_edge then
    match (if complete then membership_edge_options g !! key else None) with
    | Some options =>
        let inherit := existsb mo_inherit (map_iter options).*2 in
        let admin := existsb mo_admin (map_iter options).*2 in
        let set := existsb mo_set (map_iter options).*2 in
        (replace_edge g role member inherit admin,
         set_facts st.2 key (capability set) (capability inherit) (capability admin))
    | None =>
        (g, set_facts st.2 key (membership_set_role_default pg_major_version)
              SetRoleCapability.Unknown SetRoleCapability.Unknown)
    end
  else
    let g := with_member_edges g (delete key (membership_edge_grantors g))
               (delete key (membership_edge_options g)) in
    (with_memberships g (retain_others role member (memberships g)),
     {| au_set_role := delete key (au_set_role st.2); au_usage := delete key (au_usage st.2);
        au_admin_options := delete key (au_admin_options st.2) |}).

(** [facts.retain(|(role, member), _| role != name && member != name)] *)
Definition retain_facts (name : string) (facts : EdgeFacts) : EdgeFacts :=
  filter (λ p, p.1.1 ≠ name ∧ p.1.2 ≠ name) facts.

Definition drop_role (st : Simulated) (name : string) : Simulated :=
  let g := with_roles st.1 (delete name (roles st.1)) in
  (with_memberships g (filter (λ e, me_role e ≠ name ∧ me_member e ≠ name) (memberships g)),
   {| au_set_role := retain_facts name (au_set_role st.2);
      au_usage := retain_facts name (au_usage st.2);
      au_admin_options := retain_facts name (au_admin_options st.2) |}).

Definition drop_owned (g : RoleGraph) (role : string) : RoleGraph :=
  let g := with_schemas g (filter (λ p, ss_owner p.2 ≠ Some role) (schemas g)) in
  let g := with_grants g (filter (λ p, grantee_as_str (gk_role p.1) ≠ role) (grants g)) in
  let g := with_entry_grantors g
             (filter (λ p, grantee_as_str (gk_role p.1) ≠ role) (grant_entry_grantors g)) in
  with_defaults g (filter (λ p, dk_owner p.1 ≠ role ∧ grantee_as_str (dk_grantee p.1) ≠ role)
                     (default_privileges g)).

Definition with_owner (owner : string) (s : SchemaState) : SchemaState := {|
  ss_owner := Some owner; ss_owner_privileges := ss_owner_privileges s |}.

Definition apply_change (executor : ExecutorFacts) (pg_major_version : N) (st : Simulated)
    (change : Change) : option Simulated :=
  let g := st.1 in
  let keeping_facts g := Some (g, st.2) in
  match change with
  | Change.CreateRole name state =>
      Some (with_roles g (<[name := state]> (roles g)),
            if decide (name = ef_role executor) then st.2
            else set_facts st.2 (name, ef_role executor) (ef_new_role_set_role executor)
                   (ef_new_role_inherit executor) (ef_new_role_admin_option executor))
  | Change.CreateSchema name owner =>
      keeping_facts (with_schemas g
        (<[name := {| ss_owner := owner; ss_owner_privileges := ∅ |}]> (schemas g)))
  | Change.AlterSchemaOwner name owner =>
      keeping_facts (with_schemas g (alter (with_owner owner) name (schemas g)))
  | Change.EnsureSchemaOwnerPrivileges name _ privileges =>
      keeping_facts (with_schemas g
        (alter (λ s, {| ss_owner := ss_owner s;
                        ss_owner_privileges := ss_owner_privileges s ∪ privileges |})
           name (schemas g)))
  | Change.AlterRole name attributes =>
      keeping_facts (with_roles g (alter (λ role, foldl apply_attribute role attributes) name (roles g)))
  | Change.SetComment name comment =>
      keeping_facts (with_roles g (alter (λ role, with_comment role comment) name (roles g)))
  | Change.Grant role privileges object_type schema name =>
      let key := {| gk_role := role; gk_object_type := object_type;
                    gk_schema := schema; gk_name := name |} in
      keeping_facts (with_grants g (entry_extend key privileges (grants g)))
  | Change.Revoke role privileges object_type schema name grantor =>
      let key := {| gk_role := role; gk_object_type := object_type;
                    gk_schema := schema; gk_name := name |} in
      keeping_facts (apply_revoke g key privileges grantor)
  | Change.SetDefaultPrivilege owner scope on_type grantee privileges =>
      let key := {| dk_owner := owner; dk_scope := scope; dk_on_type := on_type;
                    dk_grantee := grantee |} in
      keeping_facts (with_defaults g (entry_extend key privileges (default_privileges g)))
  | Change.RevokeDefaultPrivilege owner scope on_type grantee privileges =>
      let key := {| dk_owner := owner; dk_scope := scope; dk_on_type := on_type;
                    dk_grantee := grantee |} in
      keeping_facts (with_defaults g (revoke_entry privileges (default_privileges g) key))
  | Change.AddMember role member inherit admin =>
      Some (with_memberships g
              ({[ {| me_role := role; me_member := member; me_inherit := inherit;
                     me_admin := admin |} ]} ∪ memberships g),
            set_facts st.2 (role, member)
              (if (16 <=? pg_major_version)%N then ef_new_membership_set_role executor
               else SetRoleCapability.Allowed)
              (capability inherit) (capability admin))
  | Change.UpdateMemberOptions role member grantor inherit admin binding =>
      update_options st role member grantor inherit admin binding
  | Change.RemoveMember role member grantor =>
      Some (remove_member pg_major_version st role member grantor)
  | Change.DropRole name => Some (drop_role st name)
  | Change.ReassignOwned from_role to_role =>
      keeping_facts (with_schemas g
        ((λ s, if decide (ss_owner s = Some from_role) then with_owner to_role s else s) <$> schemas g))
  | Change.DropOwned role => keeping_facts (drop_owned g role)
  | Change.TerminateSessions _ | Change.SetPassword _ _ => keeping_facts g
  end.

(** ** The simulation *)

Record PlanAnalysisOptions := {
  pao_authority_graph_complete : bool;
  pao_pg_major_version : N;
}.

(** [PlanAnalysisOptions::default] *)
Definition plan_analysis_options_default : PlanAnalysisOptions := {|
  pao_authority_graph_complete := true; pao_pg_major_version := DEFAULT_PG_MAJOR_VERSION |}.

Record PhaseAnalysis := {
  pa_phase : PlanPhase;
  pa_changes : list Change;
  pa_executor_reachability : list (string * ReachabilityStatus);
  pa_executor_usage : list (string * ReachabilityStatus);
}.

Record PlanAnalysis := {
  pan_phases : list PhaseAnalysis;
  pan_findings : list AuthorityFinding;
  pan_visual : VisualGraph;
}.

Module Recompute.
Inductive Recompute : Set := WhenAffected | Always.
End Recompute.
Abbreviation Recompute := Recompute.Recompute.
#[export] Instance recompute_eq_dec : EqDecision Recompute.
Proof. solve_decision. Defined.

(** The local variables of [simulate] that its loops carry. *)
Record Simulation := {
  sm_state : Simulated;
  sm_attributes : ExecutorAttributes;
  sm_reachability : Statuses;
  sm_usage : Statuses;
  sm_computations : nat;
  sm_findings : list AuthorityFinding;
  sm_preflight : PreflightIndex;
  sm_index : nat;
}.

Section simulate.
Context (executor : ExecutorFacts) (options : PlanAnalysisOptions) (recompute : Recompute).

(** The two calls of [reachability] on the state reached. *)
Definition set_role_reachability (st : Simulated) (superuser : bool) : Statuses :=
  reachability st.1 (au_set_role st.2) (ef_role executor) superuser
    (pao_authority_graph_complete options).
Definition usage_reachability (st : Simulated) (superuser : bool) : Statuses :=
  reachability st.1 (au_usage st.2) (ef_role executor) superuser
    (pao_authority_graph_complete options).

Definition authority_of (s : Simulation) : AuthorityState := {|
  as_graph := (sm_state s).1; as_set_reachable := sm_reachability s; as_usage_reachable := sm_usage s;
  as_admin_options := au_admin_options (sm_state s).2; as_is_superuser := ea_superuser (sm_attributes s);
  as_createrole := ea_createrole (sm_attributes s);
  as_authority_graph_complete := pao_authority_graph_complete options;
  as_pg_major_version := pao_pg_major_version options |}.

(** The body of the inner loop; [dropped] collects the roles the phase drops. *)
Definition simulate_change (phase : PlanPhase) (acc : Simulation * gset string) (change : Change) :
    option (Simulation * gset string) :=
  let s := acc.1 in
  found ← analyze_required_authority change phase (sm_index s) (authority_of s)
            (sm_findings s, sm_preflight s);
  st ← apply_change executor (pao_pg_major_version options) (sm_state s) change;
  let attributes := attributes_apply (sm_attributes s) change executor in
  let dropped := match change with Change.DropRole name => {[name]} ∪ acc.2 | _ => acc.2 end in
  let again := bool_decide (recompute ≠ Recompute.WhenAffected) || affects_reachability change in
  Some ({|
    sm_state := st; sm_attributes := attributes;
    sm_reachability := if again then set_role_reachability st (ea_superuser attributes)
                       else sm_reachability s;
    sm_usage := if again then usage_reachability st (ea_superuser attributes) else sm_usage s;
    sm_computations := if again then 2 + sm_computations s else sm_computations s;
    sm_findings := found.1; sm_preflight := found.2; sm_index := S (sm_index s) |}, dropped).

Definition with_findings (s : Simulation) (findings : list AuthorityFinding) : Simulation := {|
  sm_state := sm_state s; sm_attributes := sm_attributes s; sm_reachability := sm_reachability s;
  sm_usage := sm_usage s; sm_computations := sm_computations s; sm_findings := findings;
  sm_preflight := sm_preflight s; sm_index := sm_index s |}.

(** The body of the outer loop. *)
Definition simulate_phase (acc : Simulation * list PhaseAnalysis) (group : PlanPhase * list Change) :
    option (Simulation * list PhaseAnalysis) :=
  r ← fold_option (simulate_change group.1) (acc.1, ∅) group.2;
  let '(s, dropped) := r in
  let findings := compare_reachability group.1 (sm_usage acc.1) (sm_usage s) dropped
                    (pao_authority_graph_complete options) (sm_findings s) in
  Some (with_findings s findings,
        acc.2 ++ [{| pa_phase := group.1; pa_changes := group.2;
                     pa_executor_reachability := reachability_list (sm_reachability s);
                     pa_executor_usage := reachability_list (sm_usage s) |}]).

Definition simulation_start (g : RoleGraph) : Simulation :=
  let st := (g, initial_edge_facts g executor (pao_pg_major_version options)) in
  let attributes := attributes_initial g executor in {|
  sm_state := st; sm_attributes := attributes;
  sm_reachability := set_role_reachability st (ea_superuser attributes);
  sm_usage := usage_reachability st (ea_superuser attributes);
  sm_computations := 2; sm_findings := []; sm_preflight := ∅; sm_index := 0 |}.

Definition simulate (g : RoleGraph) (changes : list Change) : option (PlanAnalysis * nat) :=
  r ← fold_option simulate_phase (simulation_start g, []) (grouped_phases changes);
  let '(s, phases) := r in
  findings ← finish_preflight_findings (sm_findings s) (sm_preflight s);
  Some ({| pan_phases := phases; pan_findings := findings;
           pan_visual := build_visual_graph (sm_state s).1 VisualSource.Desired |}, sm_computations s).
End simulate.

Definition analyze_changes_with_options (g : RoleGraph) (changes : list Change)
    (executor : ExecutorFacts) (options : PlanAnalysisOptions) : option PlanAnalysis :=
  fst <$> simulate executor options Recompute.WhenAffected g changes.

Definition analyze_changes (g : RoleGraph) (changes : list Change) (executor : ExecutorFacts) :
    option PlanAnalysis :=
  analyze_changes_with_options g changes executor plan_analysis_options_default.

(** ** The authority option increases are resolved with *)

Definition dropped_roles (changes : list Change) : gset string :=
  list_to_set (changes ≫= λ c, match c with Change.DropRole name => [name] | _ => [] end).

Definition projected (g : RoleGraph) (changes : list Change) (executor : ExecutorFacts)
    (pg_major_version : N) : option Simulated :=
  fold_option (apply_change executor pg_major_version)
    (g, initial_edge_facts g executor pg_major_version)
    (filter (λ c, phase_index (phase_for c) < phase_index PlanPhase.MembershipAdd) changes).

Definition analysis_membership_authority (g : RoleGraph) (changes : list Change)
    (executor : ExecutorFacts) (pg_major_version : N) (complete : bool) : option MembershipAuthority :=
  st ← projected g changes executor pg_major_version;
  let dropped := dropped_roles changes in
  let attributes := attributes_initial st.1 executor in
  let reachable := reachability st.1 (au_usage st.2) (ef_role executor) (ea_superuser attributes) complete in
  let holders := foldl (λ acc p,
    if bool_decide (p.2 = SetRoleCapability.Allowed) && bool_decide (p.1.2 ∉ dropped) &&
       bool_decide (reachable !! p.1.2 = Some ReachabilityStatus.Reachable)
    then entry_extend p.1.1 {[p.1.2]} acc else acc)
    (∅ : gmap string (gset string)) (map_iter (au_admin_options st.2)) in
  let usable_grantors :=
    match ef_bootstrap_role executor with
    | Some bootstrap =>
        if ea_superuser attributes
        then foldl (λ acc edge, entry_extend (me_role edge) {[bootstrap]} acc) holders
               (set_iter (memberships g))
        else holders
    | None => holders
    end in
  Some {| ma_executor := ef_role executor; ma_usable_grantors := usable_grantors |}.

(** ** The request *)

Definition with_authority_edges (g : RoleGraph) (edges : gset (string * string * string)) : RoleGraph := {|
  routine_aliases := routine_aliases g; roles := roles g; schemas := schemas g; grants := grants g;
  default_privileges := default_privileges g; memberships := memberships g;
  grant_absences := grant_absences g; default_privilege_absences := default_privilege_absences g;
  exclusive_membership_roles := exclusive_membership_roles g; inherent_grants := inherent_grants g;
  membership_edge_grantors := membership_edge_grantors g;
  membership_edge_options := membership_edge_options g; executor_authority_edges := edges;
  grant_entry_grantors := grant_entry_grantors g |}.

Definition mark_executor_authority_edges (g : RoleGraph) (executor : ExecutorFacts)
    (pg_major_version : N) : RoleGraph :=
  if (pg_major_version <? 16)%N || ea_superuser (attributes_initial g executor) then g
  else
    let edges := map_iter (membership_edge_options g) ≫= λ '((role, member), options),
      if decide (member = ef_role executor)
      then (λ p, (role, member, p.1)) <$> filter (λ p, mo_admin p.2) (map_iter options)
      else [] in
    with_authority_edges g (executor_authority_edges g ∪ list_to_set edges).

(** *** Snapshots *)

Record SnapshotRole := {
  sr_login : bool;
  sr_superuser : bool;
  sr_createdb : bool;
  sr_createrole : bool;
  sr_inherit : bool;
  sr_replication : bool;
  sr_bypassrls : bool;
  sr_connection_limit : Z;
  sr_comment : option string;
  sr_password_valid_until : option string;
  sr_config : gmap string string;
}.

Record SnapshotSchema := {
  sns_owner : option string;
  sns_owner_privileges : gset Privilege;
}.

Record SnapshotGrant := {
  sg_role : string;
  sg_object_type : ObjectType;
  sg_schema : option string;
  sg_name : option string;
  sg_privileges : gset Privilege;
  sg_grantors : gmap string (gset Privilege);
}.

Record SnapshotGrantTarget := {
  sgt_role : string;
  sgt_object_type : ObjectType;
  sgt_schema : option string;
  sgt_name : option string;
}.

Record SnapshotDefaultPrivilege := {
  sd_owner : string;
  sd_schema : option string;
  sd_on_type : ObjectType;
  sd_grantee : string;
  sd_privileges : gset Privilege;
}.

Record SnapshotMembership := {
  sm_role : string;
  sm_member : string;
  sm_inherit : bool;
  sm_admin : bool;
  sm_grantors : gset string;
  sm_grantor_options : gmap string MembershipOptions;
}.

Record ExplorerSnapshot := {
  es_roles : gmap string SnapshotRole;
  es_schemas : gmap string SnapshotSchema;
  es_grants : list SnapshotGrant;
  es_default_privileges : list SnapshotDefaultPrivilege;
  es_memberships : list SnapshotMembership;
  es_inherent_grants : list SnapshotGrantTarget;
}.

Definition role_of_snapshot (role : SnapshotRole) : RoleState := {|
  rs_login := sr_login role; rs_superuser := sr_superuser role; rs_createdb := sr_createdb role;
  rs_createrole := sr_createrole role; rs_inherit := sr_inherit role;
  rs_replication := sr_replication role; rs_bypassrls := sr_bypassrls role;
  rs_connection_limit := sr_connection_limit role; rs_comment := sr_comment role;
  rs_password_valid_until := sr_password_valid_until role; rs_config := sr_config role |}.

Definition schema_of_snapshot (schema : SnapshotSchema) : SchemaState := {|
  ss_owner := sns_owner schema; ss_owner_privileges := sns_owner_privileges schema |}.

Definition snapshot_grant_key (grant : SnapshotGrant) : GrantKey := {|
  gk_role := grantee_parse (sg_role grant); gk_object_type := sg_object_type grant;
  gk_schema := sg_schema grant; gk_name := sg_name grant |}.

(** The body of the grants loop: the attributed privileges and the privileges. *)
Definition add_snapshot_grant
    (acc : gmap GrantKey (gmap string (gset Privilege)) * gmap GrantKey GrantState)
    (grant : SnapshotGrant) :
    gmap GrantKey (gmap string (gset Privilege)) * gmap GrantKey GrantState :=
  let key := snapshot_grant_key grant in
  let attributed :=
    if bool_decide (sg_grantors grant = ∅) then acc.1
    else <[key := foldl (λ entry p, entry_extend p.1 p.2 entry) (default ∅ (acc.1 !! key))
                    (map_iter (sg_grantors grant))]> acc.1 in
  (attributed, entry_extend key (sg_privileges grant) acc.2).

Definition add_snapshot_default (acc : gmap DefaultPrivKey DefaultPrivState)
    (item : SnapshotDefaultPrivilege) : gmap DefaultPrivKey DefaultPrivState :=
  entry_extend {|
    dk_owner := sd_owner item;
    dk_scope := match sd_schema item with
                | Some schema => DefaultPrivilegeScope.Schema schema
                | None => DefaultPrivilegeScope.Global
                end;
    dk_on_type := sd_on_type item;
    dk_grantee := grantee_parse (sd_grantee item) |} (sd_privileges item) acc.

(** [effective_memberships], [membership_edge_options], [membership_edge_grantors] *)
Record SnapshotEdges := {
  sne_effective : gmap (string * string) MembershipEdge;
  sne_options : gmap (string * string) (gmap string MembershipOptions);
  sne_grantors : gmap (string * string) (gset string);
}.

(** The body of the memberships loop. *)
Definition add_snapshot_membership (acc : SnapshotEdges) (item : SnapshotMembership) : SnapshotEdges :=
  let key := (sm_role item, sm_member item) in
  let edge := default {| me_role := sm_role item; me_member := sm_member item; me_inherit := false;
                         me_admin := false |} (sne_effective acc !! key) in
  {| sne_effective := <[key := {|
       me_role := me_role edge; me_member := me_member edge;
       me_inherit := me_inherit edge || sm_inherit item;
       me_admin := me_admin edge || sm_admin item |}]> (sne_effective acc);
     sne_options :=
       if bool_decide (sm_grantor_options item = ∅) then sne_options acc
       else <[key := sm_grantor_options item ∪ default ∅ (sne_options acc !! key)]> (sne_options acc);
     sne_grantors :=
       if bool_decide (sm_grantors item = ∅) then sne_grantors acc
       else entry_extend key (sm_grantors item) (sne_grantors acc) |}.

Definition inherent_key (grant : SnapshotGrantTarget) : GrantKey := {|
  gk_role := grantee_parse (sgt_role grant); gk_object_type := sgt_object_type grant;
  gk_schema := sgt_schema grant; gk_name := sgt_name grant |}.

(** [ExplorerSnapshot::into_graph] *)
Definition into_graph (self : ExplorerSnapshot) : RoleGraph :=
  let gs := foldl add_snapshot_grant (∅, ∅) (es_grants self) in
  let edges := foldl add_snapshot_membership
    {| sne_effective := ∅; sne_options := ∅; sne_grantors := ∅ |} (es_memberships self) in {|
  routine_aliases := ∅;
  roles := role_of_snapshot <$> es_roles self;
  schemas := schema_of_snapshot <$> es_schemas self;
  grants := gs.2;
  default_privileges := foldl add_snapshot_default ∅ (es_default_privileges self);
  memberships := list_to_set (map_iter (sne_effective edges)).*2;
  grant_absences := ∅; default_privilege_absences := ∅; exclusive_membership_roles := ∅;
  inherent_grants := list_to_set (inherent_key <$> es_inherent_grants self);
  membership_edge_grantors := sne_grantors edges;
  membership_edge_options := sne_options edges;
  executor_authority_edges := ∅;
  grant_entry_grantors := gs.1;
|}.

(** *** Requests *)

Record AnalyzeRequest := {
  ar_schema_version : string;
  ar_current : ExplorerSnapshot;
  ar_desired_yaml : string;
  ar_mode : ReconciliationMode;
  ar_executor : ExecutorFacts;
  ar_pg_major_version : option N;
  ar_authority_graph_complete : option bool;
}.

Module FingerprintKind.
Inductive FingerprintKind : Set := Illustrative.
End FingerprintKind.
Abbreviation FingerprintKind := FingerprintKind.FingerprintKind.

Record AnalyzeResponse := {
  arp_schema_version : string;
  arp_pg_major_version : N;
  arp_authority_graph_complete : bool;
  arp_changes : list Change;
  arp_phases : list PhaseAnalysis;
  arp_findings : list AuthorityFinding;
  arp_visual : VisualGraph;
  arp_plan_fingerprint : string;
  arp_fingerprint_kind : FingerprintKind;
}.

Module AnalysisError.
Inductive AnalysisError : Set :=
  | MembershipOptions (e : MembershipOptionsError)
  | UnsupportedSchemaVersion (version : string)
  | Manifest (e : ManifestError)
  | PasswordSourceNotAllowed
  | TooManyEntries (collection : string) (actual limit : N)
  | DesiredYamlTooLarge (actual limit : N)
  | UnsupportedPgMajorVersion (version min max : N)
  | Serialization (message : string).
End AnalysisError.
Abbreviation AnalysisError := AnalysisError.AnalysisError.

(** [AnalyzeRequest::effective_pg_major_version] *)
Definition effective_pg_major_version (self : AnalyzeRequest) : res AnalysisError N :=
  let version := default DEFAULT_PG_MAJOR_VERSION (ar_pg_major_version self) in
  _ ← throw_if (negb ((MIN_PG_MAJOR_VERSION <=? version) && (version <=? MAX_PG_MAJOR_VERSION))%N)
        (AnalysisError.UnsupportedPgMajorVersion version MIN_PG_MAJOR_VERSION MAX_PG_MAJOR_VERSION);
  Ok version.

(** The local [fn entries] of [AnalyzeRequest::validate_bounds]. *)
Definition request_entries (collection : string) (actual : nat) (limit : N) : res AnalysisError unit :=
  throw_if (limit <? N.of_nat actual)%N
    (AnalysisError.TooManyEntries collection (N.of_nat actual) limit).

Definition snapshot_grant_bounds (grant : SnapshotGrant) : res AnalysisError unit :=
  _ ← request_entries "current.grants[].privileges" (size (sg_privileges grant)) MAX_PRIVILEGES;
  _ ← request_entries "current.grants[].grantors" (size (sg_grantors grant)) MAX_ROLES;
  for_each (λ privileges,
    request_entries "current.grants[].grantors[].privileges" (size privileges) MAX_PRIVILEGES)
    (map_iter (sg_grantors grant)).*2.

(** [AnalyzeRequest::validate_bounds] *)
Definition validate_request_bounds (self : AnalyzeRequest) : res AnalysisError unit :=
  let current := ar_current self in
  let yaml_bytes := String.length (ar_desired_yaml self) in
  _ ← throw_if (MAX_EXPLORER_YAML_BYTES <? N.of_nat yaml_bytes)%N
        (AnalysisError.DesiredYamlTooLarge (N.of_nat yaml_bytes) MAX_EXPLORER_YAML_BYTES);
  _ ← request_entries "current.roles" (size (es_roles current)) MAX_ROLES;
  _ ← request_entries "current.schemas" (size (es_schemas current)) MAX_SCHEMAS;
  _ ← request_entries "current.grants" (length (es_grants current)) MAX_GRANTS;
  _ ← request_entries "current.default_privileges" (length (es_default_privileges current))
        MAX_DEFAULT_PRIVILEGES;
  _ ← request_entries "current.memberships" (length (es_memberships current)) MAX_MEMBERSHIPS;
  _ ← request_entries "current.inherent_grants" (length (es_inherent_grants current)) MAX_GRANTS;
  _ ← request_entries "executor.memberships" (length (ef_memberships (ar_executor self)))
        MAX_MEMBERSHIPS;
  _ ← for_each (λ role, request_entries "current.roles[].config" (size (sr_config role))
                          MAX_CONFIG_ENTRIES) (map_iter (es_roles current)).*2;
  _ ← for_each snapshot_grant_bounds (es_grants current);
  _ ← request_entries "current.grants[].grantors (total)"
        (sum_list ((λ grant, size (sg_grantors grant)) <$> es_grants current)) MAX_GRANTS;
  _ ← for_each (λ d, request_entries "current.default_privileges[].privileges"
                       (size (sd_privileges d)) MAX_PRIVILEGES) (es_default_privileges current);
  request_entries "current.memberships[].grantors (total)"
    (sum_list ((λ m, size (sm_grantors m)) <$> es_memberships current)) MAX_MEMBERSHIPS.

(** A panic of the simulation is a panic of the request. *)
Definition or_panic {E A} (m : option A) : res E A :=
  match m with Some a => Ok a | None => Panic end.

(** Parsing YAML is serde's, and so is the JSON the fingerprint is a digest of: both are
    arguments. *)
Section analyze.
Context (parse_manifest : string → res ManifestError PolicyManifest).
Context (fingerprint : ReconciliationMode * N * bool * ExecutorFacts * list Change *
                       list PhaseAnalysis * list AuthorityFinding → res AnalysisError string).

(** [PreparedPolicy], [prepare_policy] ([authoring.rs]) *)
Record PreparedPolicy := {
  pp_manifest : PolicyManifest;
  pp_expanded : ExpandedManifest;
  pp_desired : RoleGraph;
}.

Definition prepare_policy (yaml : string) : res ManifestError PreparedPolicy :=
  manifest ← parse_manifest yaml;
  expanded ← expand_manifest manifest;
  desired ← from_expanded expanded (pm_default_owner manifest);
  Ok {| pp_manifest := manifest; pp_expanded := expanded; pp_desired := desired |}.

Definition analyze (request : AnalyzeRequest) : res AnalysisError AnalyzeResponse :=
  _ ← throw_if (negb (String.eqb (ar_schema_version request) EXPLORER_SCHEMA_VERSION))
        (AnalysisError.UnsupportedSchemaVersion (ar_schema_version request));
  _ ← validate_request_bounds request;
  pg_major_version ← effective_pg_major_version request;
  let complete := default true (ar_authority_graph_complete request) in
  let executor := ar_executor request in
  prepared ← res_map_err AnalysisError.Manifest (prepare_policy (ar_desired_yaml request));
  _ ← throw_if (existsb (λ role, bool_decide (rd_password role ≠ None)) (pm_roles (pp_manifest prepared)))
        AnalysisError.PasswordSourceNotAllowed;
  let g := mark_executor_authority_edges (into_graph (ar_current request)) executor pg_major_version in
  let changes := plan_changes g (pp_desired prepared) (pp_manifest prepared) (pp_expanded prepared)
                   (ar_mode request) in
  authority ← or_panic (analysis_membership_authority g changes executor pg_major_version complete);
  changes ← res_map_err AnalysisError.MembershipOptions
              (resolve_membership_options changes g authority);
  analysis ← or_panic (analyze_changes_with_options g changes executor {|
               pao_authority_graph_complete := complete;
               pao_pg_major_version := pg_major_version |});
  plan_fingerprint ← fingerprint (ar_mode request, pg_major_version, complete, executor, changes,
                                  pan_phases analysis, pan_findings analysis);
  Ok {| arp_schema_version := EXPLORER_SCHEMA_VERSION; arp_pg_major_version := pg_major_version;
        arp_authority_graph_complete := complete; arp_changes := changes;
        arp_phases := pan_phases analysis; arp_findings := pan_findings analysis;
        arp_visual := pan_visual analysis; arp_plan_fingerprint := "sha256:" +:+ plan_fingerprint;
        arp_fingerprint_kind := FingerprintKind.Illustrative |}.
End analyze.
