(* ===== verification/ExplorerFacts.v ===== *)
(** * What the explorer promises

    The traversals end and decide reachability; recomputing it only after changes that
    can alter it gives the analysis of recomputing it after every change; the phases are
    the plan, and every change that needs the database is in exactly one preflight
    finding. *)

From S2P Require Import Prelude BTree RustStr Types Model Change Diff Interp Plan MembershipOptions Visual Explorer.

(** ** Reachability *)

(** An edge that a traversal follows: [member] is granted [role]. *)
Definition follows (facts : EdgeFacts) (follow : SetRoleCapability → bool) : relation string :=
  λ member role, ∃ c, facts !! (role, member) = Some c ∧ follow c = true.

Lemma elem_of_granted_to facts member role c :
  (role, c) ∈ granted_to facts member ↔ facts !! (role, member) = Some c.
Proof.
  unfold granted_to. rw list_elem_of_fmap. split.
  - intros ([[r m] c'] & [= -> ->] & [Hm Hin%elem_of_map_iter]%list_elem_of_filter). cbn in *. by subst.
  - intros H. exists ((role, member), c). split; [done|]. apply list_elem_of_filter.
    split; [done|]. by apply elem_of_map_iter.
Qed.

Lemma size_list_to_set_le {A} `{Countable A} (l : list A) :
  size (list_to_set l : gset A) ≤ length l.
Proof.
  induction l as [|x l IH]; cbn; [by rw size_empty|]. rw size_union_alt size_singleton.
  assert (size ((list_to_set l : gset A) ∖ {[x]}) ≤ size (list_to_set l : gset A)); [|lia].
  apply subseteq_size. set_solver.
Qed.

Section traversal.
Context (facts : EdgeFacts) (executor : string) (follow : SetRoleCapability → bool).

(** What one pop adds: the followed roles that were not seen, once each. *)
Lemma visit_edges (l : list (string * SetRoleCapability)) (t : Traversal) :
  ∃ new, foldl (visit_edge follow) t l = (list_to_set new ∪ t.1, t.2 ++ new) ∧
    NoDup new ∧ (∀ r, r ∈ new → r ∉ t.1 ∧ ∃ c, (r, c) ∈ l ∧ follow c = true) ∧
    ∀ r c, (r, c) ∈ l → follow c = true → r ∈ (list_to_set new : gset string) ∪ t.1.
Proof.
  revert t. induction l as [|[r c] l IH]=> -[s0 q0] /=.
  - exists []. split_and!; [|constructor|intros r Hr; by apply not_elem_of_nil in Hr
      |intros r c Hr; by apply not_elem_of_nil in Hr].
    rw app_nil_r /=. f_equal. set_solver.
  - destruct (visit_edge follow (s0, q0) (r, c)) as [s q] eqn:Hv.
    destruct (IH (s, q)) as (new & -> & Hnd & Hnew & Hall). cbn in *.
    unfold visit_edge in Hv; cbn in Hv. destruct (follow c) eqn:Hf; cbn in Hv.
    2:{ injection Hv as <- <-. exists new. split_and!; [done|done| |].
        - intros r' Hr'. destruct (Hnew r' Hr') as (? & c' & ? & ?). split; [done|].
          exists c'. split; [by right|done].
        - intros r' c' [[= -> ->]|Hin]%elem_of_cons Hc'; [by rw Hf in Hc'|by eapply Hall]. }
    case_bool_decide as Hr; injection Hv as <- <-.
    + exists (r :: new). split_and!.
      * cbn. rw -app_assoc. f_equal. set_solver.
      * constructor; [|done]. intros Hin. destruct (Hnew r Hin) as [Hni _]. set_solver.
      * intros r' [->|Hr']%elem_of_cons.
        -- split; [done|]. exists c. split; [left|done].
        -- destruct (Hnew r' Hr') as (? & c' & ? & ?). split; [set_solver|].
           exists c'. split; [by right|done].
      * intros r' c' [[= -> ->]|Hin]%elem_of_cons Hc'; [set_solver|].
        specialize (Hall r' c' Hin Hc'). set_solver.
    + exists new. split_and!; [done|done| |].
      * intros r' Hr'. destruct (Hnew r' Hr') as (? & c' & ? & ?). split; [done|].
        exists c'. split; [by right|done].
      * intros r' c' [[= -> ->]|Hin]%elem_of_cons Hc'; [set_solver|by eapply Hall].
Qed.

(** The executor and the granted roles. *)
Definition universe : gset string := {[executor]} ∪ list_to_set (fst <$> map_keys facts).

Lemma size_universe : size universe ≤ traverse_fuel facts.
Proof.
  unfold universe, traverse_fuel. rw size_union_alt size_singleton.
  assert (size (list_to_set (fst <$> map_keys facts) ∖ {[executor]} : gset string) ≤ size facts); [|lia].
  etrans; [apply (subseteq_size _ (list_to_set (fst <$> map_keys facts))); set_solver|].
  etrans; [apply size_list_to_set_le|]. unfold map_keys. rw !length_fmap map_iter_Permutation.
  by rw length_map_to_list.
Qed.

(** The invariant of [traverse_loop]. *)
Record traversing (t : Traversal) : Prop := {
  tv_start : executor ∈ t.1;
  tv_queued : ∀ r, r ∈ t.2 → r ∈ t.1;
  tv_bound : t.1 ⊆ universe;
  tv_sound : ∀ r, r ∈ t.1 → rtc (follows facts follow) executor r;
  tv_closed : ∀ m r, m ∈ t.1 → m ∉ t.2 → follows facts follow m r → r ∈ t.1;
}.

Lemma follows_universe m r : follows facts follow m r → r ∈ universe.
Proof.
  intros (c & Hc & _). unfold universe. apply elem_of_union_r, elem_of_list_to_set.
  apply list_elem_of_fmap. exists (r, m). split; [done|]. apply elem_of_map_keys. by rw Hc.
Qed.

Lemma traverse_pop m seen queue :
  traversing (seen, m :: queue) →
  ∃ new, foldl (visit_edge follow) (seen, queue) (granted_to facts m) =
           (list_to_set new ∪ seen, queue ++ new) ∧
    size (list_to_set new ∪ seen : gset string) = length new + size seen ∧
    traversing (list_to_set new ∪ seen, queue ++ new).
Proof.
  intros [Hs Hq Hb Hr Hc]; cbn in *.
  destruct (visit_edges (granted_to facts m) (seen, queue)) as (new & Heq & Hnd & Hnew & Hall).
  assert (m ∈ seen) as Hm by (apply Hq; left).
  assert (∀ r, r ∈ new → follows facts follow m r) as Hfol.
  { intros r Hr'. destruct (Hnew r Hr') as (_ & c & Hin & Hf). exists c. by rw -elem_of_granted_to. }
  exists new. split_and!; [done| |].
  - rw size_union; [|intros r; rw elem_of_list_to_set=> Hr' Hr''; by destruct (Hnew r Hr')].
    by rw size_list_to_set.
  - split; cbn.
    + set_solver.
    + intros r [Hr'|Hr']%elem_of_app; [apply elem_of_union_r, Hq; by right|set_solver].
    + intros r [Hr'%elem_of_list_to_set|Hr']%elem_of_union; [by eapply follows_universe, Hfol|by apply Hb].
    + intros r [Hr'%elem_of_list_to_set|Hr']%elem_of_union; [eapply rtc_r; [by apply Hr|by apply Hfol]|by apply Hr].
    + intros m' r Hm' Hni Hedge. apply elem_of_union in Hm' as [Hm'%elem_of_list_to_set|Hm'].
      { exfalso. apply Hni. set_solver. }
      destruct (decide (m' = m)) as [->|Hne].
      * destruct Hedge as (c & Hc' & Hf). eapply Hall; [by apply elem_of_granted_to|done].
      * apply elem_of_union_r. eapply Hc; [exact Hm'| |exact Hedge]. set_solver.
Qed.

Lemma traverse_loop_ok fuel t :
  traversing t → size universe + length t.2 ≤ fuel + size t.1 →
  traversing (traverse_loop fuel facts follow t) ∧ (traverse_loop fuel facts follow t).2 = [].
Proof.
  revert t. induction fuel as [|fuel IH]=> -[seen [|m queue]] Ht Hfuel; cbn [traverse_loop fst snd].
  - done.
  - exfalso. pose proof (subseteq_size _ _ (tv_bound _ Ht)). cbn in *. lia.
  - done.
  - destruct (traverse_pop m seen queue Ht) as (new & -> & Hsize & Ht').
    apply IH; [done|]. cbn [fst snd] in *. rw Hsize length_app. cbn in Hfuel. lia.
Qed.

Lemma traversal_ok :
  (traversal facts executor follow).2 = [] ∧
  ∀ r, r ∈ traverse facts executor follow ↔ rtc (follows facts follow) executor r.
Proof.
  destruct (traverse_loop_ok (traverse_fuel facts) ({[executor]}, [executor])) as [[Hs _ _ Hr Hc] Hq].
  - split; cbn; [set_solver|set_solver|unfold universe; set_solver| |].
    + intros r ->%elem_of_singleton. constructor.
    + intros m r ->%elem_of_singleton Hni. set_solver.
  - pose proof size_universe as Hle. unfold traverse_fuel in *. cbn. rw size_singleton. lia.
  - change (traverse_loop _ _ _ _) with (traversal facts executor follow) in *.
    split; [done|]. intros r. split; [apply Hr|].
    apply (rtc_ind_r (λ z, z ∈ traverse facts executor follow)); [exact Hs|]. intros x y _ Hxy Hx. eapply Hc; [exact Hx| |exact Hxy].
    rw Hq. apply not_elem_of_nil.
Qed.
End traversal.

Lemma follows_weaken facts m r : follows facts is_allowed m r → follows facts not_denied m r.
Proof.
  intros (c & Hc & Ha). exists c. split; [done|]. unfold is_allowed, not_denied in *.
  apply bool_decide_eq_true in Ha as ->. by apply bool_decide_eq_true.
Qed.

Lemma elem_of_all_roles g facts executor role :
  role ∈ all_roles g facts executor ↔
  role = executor ∨ is_Some (roles g !! role) ∨
  ∃ other, is_Some (facts !! (role, other)) ∨ is_Some (facts !! (other, role)).
Proof.
  unfold all_roles. rw !elem_of_union elem_of_singleton elem_of_dom elem_of_list_to_set. split.
  - intros [[?|?]|Hin]; [by left|by right; left|]. right; right. elem_inv Hin; subst;
      destruct x as [r m]; apply elem_of_map_keys in Hx; cbn; [exists m; by left|exists r; by right].
  - intros [?|[?|(other & [H|H])]]; [by left; left|by left; right|right..].
    + eapply elem_of_bind_2; [by apply elem_of_map_keys|left].
    + eapply elem_of_bind_2; [by apply elem_of_map_keys|right; left].
Qed.

Lemma lookup_statuses (f : string → ReachabilityStatus) (X : gset string) role s :
  (set_to_map (λ r, (r, f r)) X : Statuses) !! role = Some s ↔ role ∈ X ∧ s = f role.
Proof.
  rw lookup_set_to_map; [|by intros y y' _ _ ?]. split.
  - intros (y & Hy & [= <- <-]). done.
  - intros [Hin ->]. eauto.
Qed.

(** C29: Both traversals of the authority graph end, by emptying their queue, within as
    many steps as there are facts and one; and the status of a role is then exactly its
    reachability.  Every role of the graph, the executor, and every role a fact names has
    a status; it is reachable when the executor is a superuser or a path of allowed edges
    leads to it, unreachable when the graph is complete and no path of edges that are not
    denied does, and unknown otherwise. *)
Theorem reachability_decides (g : RoleGraph) (facts : EdgeFacts) (executor : string)
    (superuser complete : bool) :
  let statuses := reachability g facts executor superuser complete in
  (∀ follow, (traversal facts executor follow).2 = []) ∧
  (∀ role, is_Some (statuses !! role) ↔
     role = executor ∨ is_Some (roles g !! role) ∨
     ∃ other, is_Some (facts !! (role, other)) ∨ is_Some (facts !! (other, role))) ∧
  ∀ role s, statuses !! role = Some s →
    (s = ReachabilityStatus.Reachable ↔
       superuser = true ∨ rtc (follows facts is_allowed) executor role) ∧
    (s = ReachabilityStatus.Unreachable ↔
       superuser = false ∧ complete = true ∧ ¬ rtc (follows facts not_denied) executor role).
Proof.
  intros statuses. split; [intros follow; apply traversal_ok|].
  assert (∃ f, ∀ role s, statuses !! role = Some s ↔ role ∈ all_roles g facts executor ∧ s = f role) as [f Hf].
  { subst statuses. unfold reachability. destruct superuser.
    - exists (λ _, ReachabilityStatus.Reachable). intros. apply lookup_statuses.
    - eexists. intros. apply lookup_statuses. }
  split.
  { intros role. rw -elem_of_all_roles. split; [by intros [s [? _]%Hf]|].
    intros Hr. exists (f role). by apply Hf. }
  intros role s Hs. subst statuses. unfold reachability in Hs.
  destruct superuser; apply lookup_statuses in Hs as [_ ->]; [by intuition|].
  destruct (traversal_ok facts executor is_allowed) as [_ Ha].
  destruct (traversal_ok facts executor not_denied) as [_ Hd].
  rw -Ha -Hd. unfold status_of. case_decide as Hdef.
  - assert (role ∈ traverse facts executor not_denied) as Hpos.
    { apply Hd. apply Ha in Hdef. eapply rtc_congruence with (f := id); [|exact Hdef].
      intros. by apply follows_weaken. }
    split; split; try tauto; try done.
  - case_bool_decide; destruct complete; cbn; split; split; intros; try done; try tauto;
      naive_solver.
Qed.

(** ** What a change leaves alone *)

Lemma reachability_roles g g' facts executor superuser complete :
  dom (roles g) = dom (roles g') →
  reachability g facts executor superuser complete = reachability g' facts executor superuser complete.
Proof. intros H. unfold reachability, all_roles. by rw H. Qed.

Lemma apply_revoke_roles g key privileges grantor : roles (apply_revoke g key privileges grantor) = roles g.
Proof.
  unfold apply_revoke. cbn zeta. destruct (mbind _ _) as [entries|]; cbn;
    destruct (grants g !! key); cbn; case_bool_decide; done.
Qed.

Lemma unaffecting_state executor v st c st' :
  affects_reachability c = false → apply_change executor v st c = Some st' →
  dom (roles st'.1) = dom (roles st.1) ∧ st'.2 = st.2.
Proof.
  destruct c; cbn [affects_reachability apply_change]; try done; intros _ [= <-]; cbn [fst snd];
    rw ?apply_revoke_roles; try done; cbn [roles with_roles with_live]; by rw dom_alter_L.
Qed.

Lemma unaffecting_attributes executor a c :
  affects_reachability c = false → ea_superuser (attributes_apply a c executor) = ea_superuser a.
Proof.
  destruct c; cbn [affects_reachability attributes_apply]; try done.
  intros H. case_decide; [|done]. revert a. induction attributes as [|x l IH]=> a //=.
  cbn in H. apply orb_false_iff in H as [Hx Hl]. rw IH //. by destruct x.
Qed.

(** The two [expect]s of an option update hold: complete facts are facts. *)
Lemma complete_options_lookup g role member options :
  complete_membership_options g role member = Some options →
  membership_edge_options g !! (role, member) = Some options ∧
  is_Some (membership_edge_grantors g !! (role, member)).
Proof.
  unfold complete_membership_options.
  destruct (membership_edge_grantors g !! _) as [gs|]; [|done]. cbn.
  destruct (membership_edge_options g !! _) as [os|]; [|done]. cbn.
  destruct (_ && _); [|done]. intros [= ->]. eauto.
Qed.

Lemma apply_change_total executor v st c : is_Some (apply_change executor v st c).
Proof.
  destruct c; cbn [apply_change]; eauto. unfold update_options.
  destruct (create_edge st.1 role member grantor binding) as [g|] eqn:Hc; cbn [mbind option_bind].
  - destruct (membership_edge_options g !! _); [|eauto]. cbn zeta. destruct (negb _); eauto.
  - exfalso. unfold create_edge in Hc. destruct (_ && _) eqn:Hb; [|done].
    apply andb_true_iff in Hb as [[options Hopt]%bool_decide_eq_true _].
    apply complete_options_lookup in Hopt as [Ho [gs Hg]].
    rw Ho in Hc. cbn in Hc. destruct (options !! grantor); [done|]. by rw Hg in Hc.
Qed.

(** ** The simulation *)

Lemma fold_option_app {A S} (body : S → A → option S) acc l1 l2 :
  fold_option body acc (l1 ++ l2) = fold_option body acc l1 ≫= λ acc, fold_option body acc l2.
Proof. revert acc. induction l1 as [|x l1 IH]=> acc //=. by destruct (body acc x) => /=. Qed.

Definition with_computations (s : Simulation) (n : nat) : Simulation := {|
  sm_state := sm_state s; sm_attributes := sm_attributes s; sm_reachability := sm_reachability s;
  sm_usage := sm_usage s; sm_computations := n; sm_findings := sm_findings s;
  sm_preflight := sm_preflight s; sm_index := sm_index s |}.

(** The number of reachability computations one change costs. *)
Definition change_cost (recompute : Recompute) (c : Change) : nat :=
  if bool_decide (recompute ≠ Recompute.WhenAffected) || affects_reachability c then 2 else 0.

Section simulation.
Context (executor : ExecutorFacts) (options : PlanAnalysisOptions).

(** The changes at [done] positions that an aggregate covers. *)
Definition covers (key : PlanPhase * string) (c : Change) : Prop :=
  needs_preflight c ∧ phase_for c = key.1 ∧ change_kind c = key.2.
#[global] Instance covers_dec key c : Decision (covers key c).
Proof. unfold covers. apply _. Defined.

Definition covered (key : PlanPhase * string) (changes : list Change) : list nat :=
  fst <$> filter (λ p, covers key p.2) (imap pair changes).

Lemma covered_snoc key changes c :
  covered key (changes ++ [c]) =
  covered key changes ++ (if decide (covers key c) then [length changes] else []).
Proof.
  unfold covered. rw imap_app filter_app fmap_app /=. f_equal. rw Nat.add_0_r filter_cons /=.
  by case_decide.
Qed.

(** The aggregate of a key. *)
Definition aggregates (key : PlanPhase * string) (changes : list Change) (f : AuthorityFinding) : Prop :=
  af_kind f = FindingKind.DatabasePreflightRequired ∧
  af_severity f = FindingSeverity.Warning ∧ af_phase f = Some key.1 ∧ af_role f = None ∧
  af_change_indices f = covered key changes ∧ af_change_index f = head (covered key changes).

Record indexed (changes : list Change) (findings : list AuthorityFinding) (preflight : PreflightIndex) :
    Prop := {
  ix_points : ∀ key position, preflight !! key = Some position →
    ∃ f, findings !! position = Some f ∧ aggregates key changes f;
  ix_keys : ∀ key, is_Some (preflight !! key) ↔ covered key changes ≠ [];
  ix_only : ∀ position f, findings !! position = Some f →
    af_kind f = FindingKind.DatabasePreflightRequired →
    ∃ key, preflight !! key = Some position;
  ix_inj : ∀ key key' position, preflight !! key = Some position →
    preflight !! key' = Some position → key = key';
}.

(** What holds between two changes: the maps of statuses are those of the state, and the
    findings those of the changes made. *)
Record consistent (changes : list Change) (s : Simulation) : Prop := {
  cs_reachability : sm_reachability s =
    set_role_reachability executor options (sm_state s) (ea_superuser (sm_attributes s));
  cs_usage : sm_usage s =
    usage_reachability executor options (sm_state s) (ea_superuser (sm_attributes s));
  cs_index : sm_index s = length changes;
  cs_indexed : indexed changes (sm_findings s) (sm_preflight s);
}.

(** Findings of another kind may be appended at any time. *)
Lemma indexed_append changes findings more preflight :
  indexed changes findings preflight →
  (∀ f, f ∈ more → af_kind f ≠ FindingKind.DatabasePreflightRequired) →
  indexed changes (findings ++ more) preflight.
Proof.
  intros [Hp Hk Ho Hi] Hmore. split; [|done| |done].
  - intros key position Hkey. destruct (Hp key position Hkey) as (f & Hf & ?).
    exists f. split; [|done]. by apply lookup_app_l_Some.
  - intros position f Hf Hkind. apply lookup_app_Some in Hf as [Hf|[_ Hf]]; [by eapply Ho|].
    exfalso. eapply Hmore; [by eapply list_elem_of_lookup_2|done].
Qed.

Lemma authority_findings_kind c phase index authority f :
  f ∈ required_role_findings c phase index authority ++
      membership_findings c phase index authority ++ transfer_findings c phase index authority →
  af_kind f ≠ FindingKind.DatabasePreflightRequired.
Proof.
  intros Hf. elem_inv Hf.
  - unfold required_role_findings in Hf. destruct (required_role _ _) as [[[r st] n]|]; [|elem_inv Hf].
    destruct (as_is_superuser _); [elem_inv Hf|]. destruct (default _ _); elem_inv Hf; by subst.
  - unfold membership_findings in Hf. destruct (as_is_superuser _); [elem_inv Hf|].
    destruct (touched_role c) as [r|]; [|elem_inv Hf]. destruct (is_superuser_role _ _); [elem_inv Hf; by subst|].
    destruct (administered_role c) as [r'|]; [|elem_inv Hf]. unfold admin_findings in Hf.
    destruct (membership_authority _ _); elem_inv Hf; by subst.
  - unfold transfer_findings in Hf. destruct c; elem_inv Hf; by subst.
Qed.

Lemma compare_findings_kind phase before after dropped complete findings f :
  f ∈ drop (length findings) (compare_reachability phase before after dropped complete findings) →
  af_kind f ≠ FindingKind.DatabasePreflightRequired.
Proof.
  unfold compare_reachability. rw drop_app_length=> Hf. elem_inv Hf. unfold compare_role in Hf.
  destruct (_ && _); [elem_inv Hf|]. destruct (status_change _ _) as [[[k s] v]|] eqn:Hs; [|elem_inv Hf].
  elem_inv Hf. subst. cbn. destruct (default _ _), (default _ _); by simplify_eq/=.
Qed.

Definition key_of (c : Change) : PlanPhase * string := (phase_for c, change_kind c).

Lemma covers_iff key c : covers key c ↔ needs_preflight c ∧ key = key_of c.
Proof. unfold covers, key_of. destruct key; cbn. naive_solver. Qed.

Lemma covered_other key changes c : ¬ covers key c → covered key (changes ++ [c]) = covered key changes.
Proof. intros H. rw covered_snoc decide_False // app_nil_r //. Qed.

Lemma covered_same changes c :
  needs_preflight c → covered (key_of c) (changes ++ [c]) = covered (key_of c) changes ++ [length changes].
Proof. intros H. rw covered_snoc decide_True //. Qed.

(** A finding of one aggregate is not touched when a change enters another. *)
Lemma aggregates_other key changes c f :
  ¬ covers key c → aggregates key changes f → aggregates key (changes ++ [c]) f.
Proof. intros Hn. unfold aggregates. by rw covered_other. Qed.

Lemma add_preflight_indexed changes findings preflight c :
  indexed changes findings preflight →
  ∃ findings' preflight',
    add_preflight c (phase_for c) (length changes) (findings, preflight) = Some (findings', preflight') ∧
    indexed (changes ++ [c]) findings' preflight'.
Proof.
  intros [Hp Hk Ho Hi]. unfold add_preflight. cbn [fst snd]. fold (key_of c).
  destruct (needs_preflight c) eqn:Hn.
  2:{ assert (∀ key, ¬ covers key c) as Hno by (intros key [Hc _]%covers_iff; by rw Hn in Hc).
      exists findings, preflight. split; [done|]. split; [|intros key; by rw covered_other|done|done].
      intros key position Hkey. destruct (Hp key position Hkey) as (f & ? & ?). exists f.
      split; [done|]. by apply aggregates_other. }
  assert (∀ key, key ≠ key_of c → ¬ covers key c) as Hother by (intros key Hne [_ ?]%covers_iff; done).
  pose proof (covered_same changes c ltac:(by rw Hn)) as Hsame.
  destruct (preflight !! key_of c) as [position|] eqn:Hkey.
  - destruct (Hp _ _ Hkey) as (f & Hf & H1 & H2 & H3 & H4 & H5 & H6).
    unfold push_change_index. rw Hf. cbn [mbind option_bind]. eexists _, _. split; [done|].
    assert (position < length findings) as Hlt by (by eapply lookup_lt_Some).
    split.
    + intros key position' Hkey'. destruct (decide (key = key_of c)) as [->|Hne].
      * rw Hkey in Hkey'. injection Hkey' as <-. eexists. rw list_lookup_insert_eq //.
        split; [done|]. unfold aggregates; cbn. rw Hsame H5 H6. split_and!; [done..|].
        assert (covered (key_of c) changes ≠ []) as Hne by (apply Hk; by rw Hkey).
        by destruct (covered (key_of c) changes).
      * destruct (Hp _ _ Hkey') as (f' & Hf' & ?). exists f'.
        rw list_lookup_insert_ne; [|intros Heq; apply Hne, (Hi _ _ position'); [done|by rw -Heq]].
        split; [done|]. apply aggregates_other; [by apply Hother|done].
    + intros key. destruct (decide (key = key_of c)) as [->|Hne].
      * rw Hsame Hkey. split; [intros _; by intros [_ ?]%app_nil|eauto].
      * rw covered_other; [apply Hk|by apply Hother].
    + intros position' f' Hf' Hkind. destruct (decide (position' = position)) as [->|Hne]; [by exists (key_of c)|].
      rw list_lookup_insert_ne // in Hf'. by eapply Ho.
    + done.
  - eexists _, _. split; [done|].
    assert (∀ key p, preflight !! key = Some p → p < length findings) as Hlt.
    { intros key p Hkp. destruct (Hp _ _ Hkp) as (f & Hf & _). by eapply lookup_lt_Some. }
    assert (covered (key_of c) changes = []) as Hnil.
    { destruct (covered (key_of c) changes) eqn:Hcov; [done|].
      assert (is_Some (preflight !! key_of c)) as [? ?] by (apply Hk; by rw Hcov). congruence. }
    split.
    + intros key position' Hkey'. destruct (decide (key = key_of c)) as [->|Hne].
      * rw lookup_insert_eq in Hkey'. injection Hkey' as <-. eexists.
        rw lookup_app_r // Nat.sub_diag. split; [done|]. unfold aggregates; cbn.
        by rw Hsame Hnil.
      * rw lookup_insert_ne // in Hkey'. destruct (Hp _ _ Hkey') as (f' & Hf' & ?). exists f'.
        split; [by apply lookup_app_l_Some|]. apply aggregates_other; [by apply Hother|done].
    + intros key. destruct (decide (key = key_of c)) as [->|Hne].
      * rw Hsame lookup_insert_eq. split; [intros _; by intros [_ ?]%app_nil|eauto].
      * rw covered_other; [|by apply Hother]. rw lookup_insert_ne //.
    + intros position f Hf Hkind. apply lookup_app_Some in Hf as [Hf|[Hle Hf]].
      * destruct (Ho _ _ Hf Hkind) as [key Hkey']. exists key. rw lookup_insert_ne //. congruence.
      * apply list_lookup_singleton_Some in Hf as [Hz _]. exists (key_of c). rw lookup_insert_eq. f_equal. lia.
    + intros key key' position H1 H2.
      destruct (decide (key_of c = key)) as [<-|Hne], (decide (key_of c = key')) as [<-|Hne']; [done|..].
      * rw lookup_insert_eq in H1. rw lookup_insert_ne // in H2. injection H1 as <-.
        apply Hlt in H2. lia.
      * rw lookup_insert_eq in H2. rw lookup_insert_ne // in H1. injection H2 as <-.
        apply Hlt in H1. lia.
      * rw lookup_insert_ne // in H1. rw lookup_insert_ne // in H2. by eapply Hi.
Qed.

(** One change: no panic, and the two ways of recomputing agree. *)
Lemma simulate_change_ok changes s dropped c :
  consistent changes s →
  ∃ t dropped', consistent (changes ++ [c]) t ∧ ∀ recompute n,
    simulate_change executor options recompute (phase_for c) (with_computations s n, dropped) c =
    Some (with_computations t (change_cost recompute c + n), dropped').
Proof.
  intros [Hr Hu Hi Hx].
  set (authority := authority_of options s).
  destruct (add_preflight_indexed changes
    (sm_findings s ++ required_role_findings c (phase_for c) (sm_index s) authority ++
       membership_findings c (phase_for c) (sm_index s) authority ++
       transfer_findings c (phase_for c) (sm_index s) authority) (sm_preflight s) c)
    as (findings & preflight & Hadd & Hx').
  { apply indexed_append; [done|]. apply authority_findings_kind. }
  destruct (apply_change_total executor (pao_pg_major_version options) (sm_state s) c) as [st Hst].
  set (attributes := attributes_apply (sm_attributes s) c executor).
  exists {| sm_state := st; sm_attributes := attributes;
    sm_reachability := set_role_reachability executor options st (ea_superuser attributes);
    sm_usage := usage_reachability executor options st (ea_superuser attributes);
    sm_computations := 0; sm_findings := findings; sm_preflight := preflight;
    sm_index := S (sm_index s) |}.
  eexists. split.
  { split; [done|done| |done]. cbn. rw length_app /= Hi. lia. }
  intros recompute n. unfold simulate_change, analyze_required_authority. cbn [fst snd with_computations].
  change (authority_of options (with_computations s n)) with authority.
  cbn [sm_index sm_findings sm_preflight with_computations] in *. rw Hi in Hadd. rw Hi Hadd.
  cbn [mbind option_bind sm_state with_computations]. rw Hst. cbn [mbind option_bind].
  fold attributes. unfold change_cost, with_computations. cbn.
  destruct (bool_decide (recompute ≠ Recompute.WhenAffected) || affects_reachability c) eqn:Hagain.
  - done.
  - apply orb_false_iff in Hagain as [_ Haff].
    destruct (unaffecting_state _ _ _ _ _ Haff Hst) as [Hroles Hfacts].
    assert (ea_superuser attributes = ea_superuser (sm_attributes s)) as Hsu by (by apply unaffecting_attributes).
    rw Hr Hu. unfold set_role_reachability, usage_reachability. rw Hsu Hfacts.
    by rw !(reachability_roles st.1 (sm_state s).1).
Qed.
(** *** Phases *)

Definition plan_cost (recompute : Recompute) (changes : list Change) : nat :=
  sum_list (change_cost recompute <$> changes).

Lemma plan_cost_app recompute l1 l2 :
  plan_cost recompute (l1 ++ l2) = plan_cost recompute l1 + plan_cost recompute l2.
Proof. unfold plan_cost. by rw fmap_app sum_list_with_app. Qed.

(** A group: changes of one phase, at least one. *)
Definition uniform (group : PlanPhase * list Change) : Prop :=
  group.2 ≠ [] ∧ ∀ c, c ∈ group.2 → phase_for c = group.1.

Lemma simulate_changes_ok changes items phase s dropped :
  (∀ c, c ∈ items → phase_for c = phase) → consistent changes s →
  ∃ t dropped', consistent (changes ++ items) t ∧ ∀ recompute n,
    fold_option (simulate_change executor options recompute phase) (with_computations s n, dropped) items =
    Some (with_computations t (plan_cost recompute items + n), dropped').
Proof.
  revert changes s dropped. induction items as [|c items IH]=> changes s dropped Hphase Hs.
  - exists s, dropped. rw app_nil_r. by split.
  - destruct (simulate_change_ok changes s dropped c Hs) as (t & dropped1 & Ht & Hstep).
    rw (Hphase c) in Hstep; [|left].
    destruct (IH (changes ++ [c]) t dropped1) as (u & dropped2 & Hu & Hrun); [|done|].
    { intros c' Hc'. apply Hphase. by right. }
    exists u, dropped2. rw -app_assoc in Hu. split; [done|]. intros recompute n. cbn [fold_option].
    rw Hstep. cbn [mbind option_bind]. rw Hrun. do 3 f_equal. unfold plan_cost; cbn. lia.
Qed.

Lemma consistent_with_findings changes s findings :
  consistent changes s → indexed changes findings (sm_preflight s) →
  consistent changes (with_findings s findings).
Proof. intros [Hr Hu Hi _] Hx. by split. Qed.

Lemma simulate_phase_ok changes group s phases :
  uniform group → consistent changes s →
  ∃ t entry, consistent (changes ++ group.2) t ∧ pa_phase entry = group.1 ∧ pa_changes entry = group.2 ∧
    ∀ recompute n,
      simulate_phase executor options recompute (with_computations s n, phases) group =
      Some (with_computations t (plan_cost recompute group.2 + n), phases ++ [entry]).
Proof.
  intros [_ Huni] Hs.
  destruct (simulate_changes_ok changes group.2 group.1 s ∅ Huni Hs) as (t & dropped & Ht & Hrun).
  set (findings := compare_reachability group.1 (sm_usage s) (sm_usage t) dropped
                     (pao_authority_graph_complete options) (sm_findings t)).
  exists (with_findings t findings), {| pa_phase := group.1; pa_changes := group.2;
    pa_executor_reachability := reachability_list (sm_reachability t);
    pa_executor_usage := reachability_list (sm_usage t) |}.
  split_and!; [|done|done|].
  - apply consistent_with_findings; [done|]. subst findings. apply indexed_append; [apply Ht|].
    intros f Hf. eapply (compare_findings_kind group.1 (sm_usage s) (sm_usage t) dropped
      (pao_authority_graph_complete options) []). exact Hf.
  - intros recompute n. unfold simulate_phase. cbn [fst snd]. rw Hrun. done.
Qed.

Lemma simulate_phases_ok changes groups s phases :
  (∀ group, group ∈ groups → uniform group) → consistent changes s →
  ∃ t entries, consistent (changes ++ (groups ≫= snd)) t ∧
    (λ e, (pa_phase e, pa_changes e)) <$> entries = groups ∧
    ∀ recompute n,
      fold_option (simulate_phase executor options recompute) (with_computations s n, phases) groups =
      Some (with_computations t (plan_cost recompute (groups ≫= snd) + n), phases ++ entries).
Proof.
  revert changes s phases. induction groups as [|group groups IH]=> changes s phases Huni Hs.
  - exists s, []. cbn. rw !app_nil_r. by split_and!.
  - destruct (simulate_phase_ok changes group s phases) as (t & e & Ht & He1 & He2 & Hstep);
      [apply Huni; left|done|].
    destruct (IH (changes ++ group.2) t (phases ++ [e])) as (u & es & Hu & Hes & Hrun); [|done|].
    { intros g' Hg'. apply Huni. by right. }
    exists u, (e :: es). rw -app_assoc in Hu. split_and!; [done|cbn; rw Hes He1 He2; by destruct group|].
    intros recompute n.
    assert (plan_cost recompute ((group :: groups) ≫= snd) =
            plan_cost recompute group.2 + plan_cost recompute (groups ≫= snd)) as -> by apply plan_cost_app.
    cbn [fold_option]. rw Hstep. cbn [mbind option_bind]. rw Hrun -app_assoc. do 3 f_equal. lia.
Qed.
End simulation.

(** *** Groups *)

(** Adjacent groups are of different phases. *)
Definition alternating (groups : list (PlanPhase * list Change)) : Prop :=
  ∀ l1 g1 g2 l2, groups = l1 ++ g1 :: g2 :: l2 → g1.1 ≠ g2.1.

Lemma grouped_snoc changes c : grouped_phases (changes ++ [c]) = group_change (grouped_phases changes) c.
Proof. unfold grouped_phases. by rw foldl_app. Qed.

Lemma alternating_snoc groups g1 g2 :
  alternating (groups ++ [g1]) → g1.1 ≠ g2.1 → alternating (groups ++ [g1; g2]).
Proof.
  intros Ha Hne l1 h1 h2 l2 Heq. destruct l2 as [|x l2 _] using rev_ind.
  - assert (groups ++ [g1; g2] = (groups ++ [g1]) ++ [g2]) as H1 by by rw -app_assoc.
    assert (l1 ++ [h1; h2] = (l1 ++ [h1]) ++ [h2]) as H2 by by rw -app_assoc.
    rw H1 H2 in Heq. apply app_inj_2 in Heq as [Heq [= <-]]; [|done].
    apply app_inj_2 in Heq as [_ [= <-]]; done.
  - assert (groups ++ [g1; g2] = (groups ++ [g1]) ++ [g2]) as H1 by by rw -app_assoc.
    assert (l1 ++ h1 :: h2 :: l2 ++ [x] = (l1 ++ h1 :: h2 :: l2) ++ [x]) as H2 by by rw -app_assoc.
    rw H1 H2 in Heq. apply app_inj_2 in Heq as [Heq _]; [|done]. by eapply Ha.
Qed.

Lemma grouped_ok changes :
  grouped_phases changes ≫= snd = changes ∧
  (∀ group, group ∈ grouped_phases changes → uniform group) ∧ alternating (grouped_phases changes).
Proof.
  induction changes as [|c changes (Hcat & Huni & Halt)] using rev_ind.
  { split_and!; [done| |].
    - intros group Hg. by apply not_elem_of_nil in Hg.
    - intros [|? [|? ?]] ? ? ? Heq; discriminate Heq. }
  rw grouped_snoc. destruct (grouped_phases changes) as [|[phase items] groups _] using rev_ind.
  { cbn in Hcat. subst. split_and!; [done| |].
    - intros group ->%list_elem_of_singleton. split; [done|]. cbn. by intros c' ->%list_elem_of_singleton.
    - intros [|? [|? ?]] ? ? ? Heq; discriminate Heq. }
  unfold group_change. rw last_snoc. rw bind_app /= app_nil_r in Hcat.
  destruct (Huni (phase, items)) as [Hne Hph]; [set_solver|]. cbn in Hne, Hph.
  case_decide as Hp.
  - rw removelast_last. rw bind_app /= app_nil_r app_assoc Hcat. split_and!; [done| |].
    + intros group [Hg| ->%list_elem_of_singleton]%elem_of_app; [apply Huni; set_solver|].
      split; cbn; [by intros [_ ?]%app_nil|].
      intros c' [Hc'| ->%list_elem_of_singleton]%elem_of_app; [by apply Hph|done].
    + intros l1 g1 g2 l2 Heq. destruct l2 as [|x l2 _] using rev_ind.
      * assert (l1 ++ [g1; g2] = (l1 ++ [g1]) ++ [g2]) as H2 by by rw -app_assoc.
        rw H2 in Heq. apply app_inj_2 in Heq as [-> [= <-]]; [|done].
        apply (Halt l1 g1 (phase, items) []). by rw -app_assoc.
      * assert (l1 ++ g1 :: g2 :: l2 ++ [x] = (l1 ++ g1 :: g2 :: l2) ++ [x]) as H2 by by rw -app_assoc.
        rw H2 in Heq. apply app_inj_2 in Heq as [-> _]; [|done].
        apply (Halt l1 g1 g2 (l2 ++ [(phase, items)])). by rw -app_assoc.
  - rw -app_assoc. split_and!.
    + rw bind_app /= app_assoc Hcat. done.
    + intros group Hg. assert (group ∈ groups ++ [(phase, items)] ∨ group = (phase_for c, [c])) as [?| ->].
      { rw elem_of_app list_elem_of_singleton. apply elem_of_app in Hg as [?|Hg]; [by left; left|].
        apply elem_of_cons in Hg as [?|Hg]; [by left; right|]. by apply list_elem_of_singleton in Hg; right. }
      * by apply Huni.
      * split; [done|]. cbn. by intros c' ->%list_elem_of_singleton.
    + by apply alternating_snoc.
Qed.

(** *** Wording *)

(** The finding [f] with the message [finish_preflight_findings] gives it. *)
Definition worded (kind : string) (f : AuthorityFinding) : AuthorityFinding := {|
  af_kind := af_kind f; af_severity := af_severity f;
  af_message := preflight_message kind (length (af_change_indices f));
  af_phase := af_phase f; af_change_index := af_change_index f; af_role := af_role f;
  af_change_indices := af_change_indices f |}.

Lemma word_findings (l : list (PlanPhase * string * nat)) findings :
  NoDup l.*2 → (∀ p, p ∈ l → is_Some (findings !! p.2)) →
  ∃ findings', fold_option word_finding findings l = Some findings' ∧
    (∀ position, position ∉ l.*2 → findings' !! position = findings !! position) ∧
    ∀ p f, p ∈ l → findings !! p.2 = Some f → findings' !! p.2 = Some (worded p.1.2 f).
Proof.
  revert findings. induction l as [|p l IH]=> findings Hnd Hl.
  - exists findings. split_and!; [done|done|]. intros p f Hp. by apply not_elem_of_nil in Hp.
  - rw /= in Hnd. apply NoDup_cons in Hnd as [Hni Hnd].
    destruct (Hl p) as [f Hf]; [left|].
    assert (p.2 < length findings) as Hlt by (by eapply lookup_lt_Some).
    destruct (IH (<[p.2 := worded p.1.2 f]> findings) Hnd) as (findings' & Hrun & Hsame & Hworded).
    { intros q Hq. apply lookup_lt_is_Some. rw length_insert. apply lookup_lt_is_Some. apply Hl. by right. }
    exists findings'. split_and!.
    + cbn [fold_option].
      assert (word_finding findings p = Some (<[p.2 := worded p.1.2 f]> findings)) as ->
        by (unfold word_finding; by rw Hf).
      exact Hrun.
    + intros position Hpos. rw /= in Hpos. apply not_elem_of_cons in Hpos as [Hne Hpos].
      rw Hsame //. by apply list_lookup_insert_ne.
    + intros q g [->|Hq]%elem_of_cons Hg.
      * rw Hsame // list_lookup_insert_eq //. congruence.
      * apply Hworded; [done|]. rw list_lookup_insert_ne //. intros Heq. apply Hni. rw Heq.
        by apply list_elem_of_fmap_2.
Qed.

Lemma finish_ok changes findings preflight :
  indexed changes findings preflight →
  ∃ findings', finish_preflight_findings findings preflight = Some findings' ∧
    (∀ key, covered key changes ≠ [] → ∃ position f,
       findings' !! position = Some f ∧ aggregates key changes f ∧
       af_message f = preflight_message key.2 (length (covered key changes))) ∧
    (∀ position f, findings' !! position = Some f → af_kind f = FindingKind.DatabasePreflightRequired →
       ∃ key, covered key changes ≠ [] ∧ aggregates key changes f ∧ preflight !! key = Some position ∧
         af_message f = preflight_message key.2 (length (covered key changes))).
Proof.
  intros [Hp Hk Ho Hi]. unfold finish_preflight_findings.
  destruct (word_findings (map_iter preflight) findings) as (findings' & Hrun & Hsame & Hworded).
  { apply NoDup_fmap_2_strong; [|apply NoDup_map_iter].
    intros [k1 p1] [k2 p2] H1%elem_of_map_iter H2%elem_of_map_iter Heq. cbn in Heq. subst.
    f_equal. by eapply Hi. }
  { intros [key position] H%elem_of_map_iter. destruct (Hp _ _ H) as (f & Hf & _). cbn. by rw Hf. }
  assert (∀ key position, preflight !! key = Some position → ∃ f, findings' !! position = Some f ∧
    aggregates key changes f ∧ af_message f = preflight_message key.2 (length (covered key changes))) as Hfin.
  { intros key position Hkey. destruct (Hp _ _ Hkey) as (f & Hf & Hagg). exists (worded key.2 f). split_and!.
    - apply (Hworded (key, position)); [by apply elem_of_map_iter|done].
    - exact Hagg.
    - cbn. by destruct Hagg as (_ & _ & _ & _ & -> & _). }
  exists findings'. split_and!; [done| |].
  - intros key [position Hkey]%Hk. destruct (Hfin _ _ Hkey) as (f & ? & ? & ?). eauto 10.
  - intros position f Hf Hkind.
    destruct (decide (position ∈ (map_iter preflight).*2)) as [Hin|Hni].
    + apply list_elem_of_fmap in Hin as ([key position'] & -> & Hin%elem_of_map_iter). cbn in *.
      destruct (Hfin _ _ Hin) as (f' & Hf' & Hagg & Hmsg). rw Hf in Hf'. injection Hf' as <-.
      exists key. split_and!; [by apply Hk; rw Hin|done|done|done].
    + rw Hsame // in Hf. destruct (Ho _ _ Hf Hkind) as [key Hkey]. exfalso. apply Hni.
      apply list_elem_of_fmap. exists (key, position). split; [done|]. by apply elem_of_map_iter.
Qed.

Lemma elem_of_covered key changes i :
  i ∈ covered key changes ↔ ∃ c, changes !! i = Some c ∧ covers key c.
Proof.
  unfold covered. rw list_elem_of_fmap. split.
  - intros ([j c] & -> & [Hc Hin]%list_elem_of_filter).
    apply list_elem_of_lookup in Hin as [k Hk]. rw list_lookup_imap in Hk.
    destruct (changes !! k) as [c'|] eqn:Hk'; [|done]. cbn in Hk. simplify_eq/=. eauto.
  - intros (c & Hi & Hc). exists (i, c). split; [done|]. apply list_elem_of_filter. split; [done|].
    apply list_elem_of_lookup. exists i. by rw list_lookup_imap Hi.
Qed.

Lemma simulate_ok executor options g changes :
  ∃ analysis preflight,
    (∀ recompute, simulate executor options recompute g changes =
                  Some (analysis, plan_cost recompute changes + 2)) ∧
    (λ e, (pa_phase e, pa_changes e)) <$> pan_phases analysis = grouped_phases changes ∧
    (∀ key, covered key changes ≠ [] → ∃ position f,
       pan_findings analysis !! position = Some f ∧ aggregates key changes f ∧
       af_message f = preflight_message key.2 (length (covered key changes))) ∧
    (∀ position f, pan_findings analysis !! position = Some f →
       af_kind f = FindingKind.DatabasePreflightRequired →
       ∃ key, covered key changes ≠ [] ∧ aggregates key changes f ∧
         (preflight : PreflightIndex) !! key = Some position ∧
         af_message f = preflight_message key.2 (length (covered key changes))).
Proof.
  destruct (grouped_ok changes) as (Hcat & Huni & _).
  assert (consistent executor options [] (simulation_start executor options g)) as Hstart.
  { split; [done..|]. split.
    - intros key position. cbn. by rw lookup_empty.
    - intros key. cbn. rw lookup_empty. split; [by intros [? ?]|done].
    - intros position f. cbn. done.
    - intros key key' position. cbn. by rw lookup_empty. }
  destruct (simulate_phases_ok executor options [] (grouped_phases changes) _ [] Huni Hstart)
    as (t & entries & Ht & Hentries & Hrun).
  rw Hcat in Ht. rw Hcat in Hrun. cbn in Ht.
  destruct (finish_ok changes (sm_findings t) (sm_preflight t)) as (findings & Hfin & H1 & H2); [apply Ht|].
  eexists {| pan_phases := entries; pan_findings := findings; pan_visual := _ |}, (sm_preflight t).
  split_and!; [|done|done|done].
  intros recompute. unfold simulate.
  change (simulation_start executor options g) with
    (with_computations (simulation_start executor options g) 2).
  rw (Hrun recompute 2). cbn. rw Hfin. done.
Qed.

Lemma plan_cost_always changes : plan_cost Recompute.Always changes = 2 * length changes.
Proof.
  induction changes as [|c changes IH]; [done|].
  assert (plan_cost Recompute.Always (c :: changes) = 2 + plan_cost Recompute.Always changes) as -> by done.
  rw IH. cbn [length]. lia.
Qed.

Lemma plan_cost_affected changes :
  plan_cost Recompute.WhenAffected changes = 2 * length (filter (λ c, affects_reachability c) changes).
Proof.
  induction changes as [|c changes IH]; [done|].
  assert (plan_cost Recompute.WhenAffected (c :: changes) =
    change_cost Recompute.WhenAffected c + plan_cost Recompute.WhenAffected changes) as -> by done.
  rw IH filter_cons. unfold change_cost. rw bool_decide_false; [cbn [orb]|by intros H].
  destruct (affects_reachability c); case_decide; cbn [length]; try done; lia.
Qed.

(** C30: Recomputing reachability only after the changes that can alter it analyses every
    plan exactly as recomputing it after every change does, the same phases, findings and
    drawing; neither panics, and the first computes twice for each such change instead of
    twice for each change. *)
Theorem recompute_when_affected (g : RoleGraph) (changes : list Change) (executor : ExecutorFacts)
    (options : PlanAnalysisOptions) :
  ∃ analysis,
    analyze_changes_with_options g changes executor options = Some analysis ∧
    simulate executor options Recompute.WhenAffected g changes =
      Some (analysis, 2 * length (filter (λ c, affects_reachability c) changes) + 2) ∧
    simulate executor options Recompute.Always g changes = Some (analysis, 2 * length changes + 2).
Proof.
  destruct (simulate_ok executor options g changes) as (analysis & _ & Hrun & _).
  exists analysis. rw -plan_cost_affected -plan_cost_always. split_and!; [|done|done].
  unfold analyze_changes_with_options. by rw Hrun.
Qed.

(** C31: An analysis accounts for the whole plan.  Its phases are the changes in their
    order, cut where the phase changes.  Each change that needs a check by the database is
    in one preflight finding; that finding covers the changes of one phase and kind, all
    of them, in the order of the plan, points at the first, and says how many there are. *)
Theorem analysis_covers_plan (g : RoleGraph) (changes : list Change) (executor : ExecutorFacts)
    (options : PlanAnalysisOptions) :
  ∃ analysis, analyze_changes_with_options g changes executor options = Some analysis ∧
  let groups := (λ e, (pa_phase e, pa_changes e)) <$> pan_phases analysis in
  (groups ≫= snd = changes ∧ (∀ group, group ∈ groups → uniform group) ∧ alternating groups) ∧
  (∀ position f, pan_findings analysis !! position = Some f →
     af_kind f = FindingKind.DatabasePreflightRequired →
     ∃ key, covered key changes ≠ [] ∧ aggregates key changes f ∧
       af_message f = preflight_message key.2 (length (covered key changes))) ∧
  ∀ i c, changes !! i = Some c → needs_preflight c →
    ∃ position f, pan_findings analysis !! position = Some f ∧
      af_kind f = FindingKind.DatabasePreflightRequired ∧ i ∈ af_change_indices f ∧
      ∀ position' f', pan_findings analysis !! position' = Some f' →
        af_kind f' = FindingKind.DatabasePreflightRequired → i ∈ af_change_indices f' →
        position' = position.
Proof.
  destruct (simulate_ok executor options g changes) as (analysis & preflight & Hrun & Hgroups & Hall & Honly).
  exists analysis. split; [unfold analyze_changes_with_options; by rw Hrun|].
  cbn zeta. rw Hgroups. split_and!; [apply grouped_ok|apply grouped_ok|apply grouped_ok| |].
  - intros position f Hf Hkind. destruct (Honly _ _ Hf Hkind) as (key & ? & ? & _ & ?). eauto.
  - intros i c Hi Hc.
    assert (∀ key, i ∈ covered key changes ↔ key = key_of c) as Hcov.
    { intros key. rw elem_of_covered. split.
      - intros (c' & Hi' & [_ ->]%covers_iff). congruence.
      - intros ->. exists c. split; [done|]. by apply covers_iff. }
    destruct (Hall (key_of c)) as (position & f & Hf & Hagg & _).
    { intros Hnil. assert (i ∈ covered (key_of c) changes) as Hin by by apply Hcov.
      rw Hnil in Hin. by apply not_elem_of_nil in Hin. }
    pose proof Hagg as (Hkind & _ & _ & _ & Hidx & _).
    assert (∀ position' f', pan_findings analysis !! position' = Some f' →
      af_kind f' = FindingKind.DatabasePreflightRequired → i ∈ af_change_indices f' →
      preflight !! key_of c = Some position') as Huniq.
    { intros position' f' Hf' Hkind' Hin. destruct (Honly _ _ Hf' Hkind') as (key & _ & Hagg' & Hkey & _).
      destruct Hagg' as (_ & _ & _ & _ & Hidx' & _). rw Hidx' in Hin. apply Hcov in Hin as ->. done. }
    assert (i ∈ af_change_indices f) as Hin by (rw Hidx; by apply Hcov).
    exists position, f. split_and!; [done..|]. intros position' f' Hf' Hk' Hi'.
    pose proof (Huniq _ _ Hf' Hk' Hi') as H1. pose proof (Huniq _ _ Hf Hkind Hin) as H2. congruence.
Qed.

(** ** A plan explored *)

Module ExplorerScene.
Definition executor : ExecutorFacts := {|
  ef_role := "ops"; ef_superuser := false; ef_bootstrap_role := None;
  ef_createrole := SetRoleCapability.Unknown; ef_memberships := [];
  ef_new_membership_set_role := SetRoleCapability.Unknown;
  ef_new_role_set_role := SetRoleCapability.Unknown; ef_new_role_inherit := SetRoleCapability.Allowed;
  ef_new_role_admin_option := SetRoleCapability.Allowed |}.
Definition graph : RoleGraph := {|
  routine_aliases := ∅; roles := {[ "app" := role_state_default; "ops" := role_state_default ]};
  schemas := ∅; grants := ∅; default_privileges := ∅;
  memberships := {[ {| me_role := "app"; me_member := "ops"; me_inherit := true; me_admin := true |} ]};
  grant_absences := ∅; default_privilege_absences := ∅; exclusive_membership_roles := ∅;
  inherent_grants := ∅; membership_edge_grantors := ∅; membership_edge_options := ∅;
  executor_authority_edges := ∅; grant_entry_grantors := ∅ |}.
Definition plan : list Change :=
  [ Change.CreateRole "new" role_state_default; Change.SetComment "app" None;
    Change.RemoveMember "app" "ops" None; Change.AddMember "app" "new" true false;
    Change.SetComment "new" None ].
End ExplorerScene.

(** Without its membership the executor can no longer grant it: the plan is reported to
    lose the access, and to need the ADMIN option it gave away. *)
Example explored_findings :
  (λ a, (λ f, (af_kind f, af_change_index f, af_role f, af_change_indices f)) <$> pan_findings a) <$>
    analyze_changes ExplorerScene.graph ExplorerScene.plan ExplorerScene.executor =
  Some [ (FindingKind.DatabasePreflightRequired, Some 0, None, [0]);
         (FindingKind.RoleBecomesReachable, None, Some "new", []);
         (FindingKind.DatabasePreflightRequired, Some 1, None, [1; 4]);
         (FindingKind.ExecutorLosesAccess, None, Some "app", []);
         (FindingKind.RequiredRoleUnavailable, Some 3, Some "app", []);
         (FindingKind.RoleBecomesReachable, None, Some "app", []) ].
Proof. by vm_compute. Qed.

(** The resolver projects the statements before its own, but not on an executor that was
    said to be a superuser: it still counts as one after a plan that ends that, where the
    simulation does not. *)
Lemma projection_keeps_superuser (g : RoleGraph) (executor : ExecutorFacts) (v : N) st :
  ef_superuser executor = true →
  let change := Change.AlterRole (ef_role executor) [RoleAttribute.Superuser false] in
  projected g [change] executor v = Some st →
  ea_superuser (attributes_initial st.1 executor) = true ∧
  ea_superuser (attributes_apply (attributes_initial g executor) change executor) = false.
Proof.
  intros Hsu change _. cbn. rw Hsu decide_True //.
Qed.
