(* ===== verification/Inspect.v ===== *)
(** * Inspection of a database ([pgroles-inspect])

    Queries fetch rows of the PostgreSQL catalogs; everything after that is in memory.
    A [RawInspection] is one read over a scope, and [derive] turns it into the role
    graph of any configuration the scope covers.  What a query returns is modelled as
    the rows of a [Catalog] its [WHERE] clause selects; the metrics are left out. *)

From Stdlib Require Import Ascii.
From S2P Require Import Prelude BTree RustStr Types Guc Model Manifest Interp Sql Ownership.

(** ** Rows *)

Record AclRow := {
  acl_grantee : option string;
  acl_privilege_type : string;
  acl_schema_name : option string;
  acl_object_name : string;
  acl_obj_type : string;
  acl_owner_name : option string;
  acl_grantor : option string;
}.

Record RoleRow := {
  rolname : string;
  rolsuper : bool;
  rolinherit : bool;
  rolcreaterole : bool;
  rolcreatedb : bool;
  rolcanlogin : bool;
  rolreplication : bool;
  rolbypassrls : bool;
  rolconnlimit : Z;
  rol_comment : option string;
  rolvaliduntil : option string;
  rolconfig : option (list string);
}.

Record MembershipRow := {
  mr_role_name : string;
  mr_member_name : string;
  mr_admin_option : bool;
  mr_inherit_option : bool;
  mr_set_option : bool;
  mr_grantor : option string;
  mr_executor_authority : bool;
}.

Record SchemaRow := {
  sw_schema_name : string;
  sw_owner_name : string;
  sw_owner_has_create : bool;
  sw_owner_has_usage : bool;
}.

Record DefaultAclRow := {
  dr_owner_name : string;
  dr_schema_name : option string;
  dr_grantee : option string;
  dr_is_public : bool;
  dr_privilege_type : string;
  dr_obj_type_char : string;
}.

(** [str::split_once('=')] *)
Fixpoint split_once (a : ascii) (s : string) : option (string * string) :=
  match s with
  | "" => None
  | String b s =>
      if Ascii.eqb a b then Some ("", s)
      else match split_once a s with
           | Some (l, r) => Some (String b l, r)
           | None => None
           end
  end.

Definition parse_rolconfig_entry (entry : string) : option (string * string) :=
  match split_once (ascii_of_N 61) entry with
  | Some (parameter, raw_value) =>
      let parameter := to_ascii_lowercase parameter in
      Some (parameter, if is_list_quote_parameter parameter
                       then canonicalize_list_guc_value raw_value else raw_value)
  | None => None
  end.

(** [RoleRow::to_role_state], [MembershipRow::to_membership_edge],
    [SchemaRow::owner_privileges] *)
Definition to_role_state (row : RoleRow) : RoleState := {|
  rs_login := rolcanlogin row; rs_superuser := rolsuper row; rs_createdb := rolcreatedb row;
  rs_createrole := rolcreaterole row; rs_inherit := rolinherit row;
  rs_replication := rolreplication row; rs_bypassrls := rolbypassrls row;
  rs_connection_limit := rolconnlimit row; rs_comment := rol_comment row;
  rs_password_valid_until := rolvaliduntil row;
  rs_config := map_collect (omap parse_rolconfig_entry (default [] (rolconfig row))) |}.

Definition to_membership_edge (row : MembershipRow) : MembershipEdge := {|
  me_role := mr_role_name row; me_member := mr_member_name row;
  me_inherit := mr_inherit_option row; me_admin := mr_admin_option row |}.

Definition row_owner_privileges (row : SchemaRow) : gset Privilege :=
  (if sw_owner_has_create row then {[Privilege.Create]} else ∅) ∪
  (if sw_owner_has_usage row then {[Privilege.Usage]} else ∅).

(** The two copies of [acl_char_to_privilege]. *)
Definition acl_char_to_privilege (character : string) : option Privilege :=
  let spelled a b := String.eqb character a || String.eqb character b in
  if spelled "r" "SELECT" then Some Privilege.Select
  else if spelled "a" "INSERT" then Some Privilege.Insert
  else if spelled "w" "UPDATE" then Some Privilege.Update
  else if spelled "d" "DELETE" then Some Privilege.Delete
  else if spelled "D" "TRUNCATE" then Some Privilege.Truncate
  else if spelled "x" "REFERENCES" then Some Privilege.References
  else if spelled "t" "TRIGGER" then Some Privilege.Trigger
  else if spelled "X" "EXECUTE" then Some Privilege.Execute
  else if spelled "U" "USAGE" then Some Privilege.Usage
  else if spelled "C" "CREATE" then Some Privilege.Create
  else if spelled "c" "CONNECT" then Some Privilege.Connect
  else if spelled "T" "TEMPORARY" then Some Privilege.Temporary
  else None.

Definition obj_type_str_to_object_type (obj_type : string) : option ObjectType :=
  if String.eqb obj_type "table" then Some ObjectType.Table
  else if String.eqb obj_type "view" then Some ObjectType.View
  else if String.eqb obj_type "materialized_view" then Some ObjectType.MaterializedView
  else if String.eqb obj_type "sequence" then Some ObjectType.Sequence
  else if String.eqb obj_type "function" then Some ObjectType.Function
  else if String.eqb obj_type "schema" then Some ObjectType.Schema
  else if String.eqb obj_type "database" then Some ObjectType.Database
  else if String.eqb obj_type "type" then Some ObjectType.Type_
  else None.

Definition defacl_obj_type_to_object_type (character : string) : option ObjectType :=
  if String.eqb character "r" then Some ObjectType.Table
  else if String.eqb character "S" then Some ObjectType.Sequence
  else if String.eqb character "f" then Some ObjectType.Function
  else if String.eqb character "T" then Some ObjectType.Type_
  else if String.eqb character "n" then Some ObjectType.Schema
  else None.

Definition object_type_to_defacl_char (object_type : ObjectType) : option string :=
  match object_type with
  | ObjectType.Table => Some "r"
  | ObjectType.Sequence => Some "S"
  | ObjectType.Function => Some "f"
  | ObjectType.Type_ => Some "T"
  | ObjectType.Schema => Some "n"
  | _ => None
  end.

Definition object_type_to_acldefault_char (object_type : ObjectType) : option string :=
  match object_type with
  | ObjectType.Sequence => Some "s"
  | other => object_type_to_defacl_char other
  end.

(** [AclRow::scoping_schema], [AclRow::in_scope] *)
Definition scoping_schema (row : AclRow) : option string :=
  if String.eqb (acl_obj_type row) "schema" then Some (acl_object_name row) else acl_schema_name row.

Definition in_some (x : option string) (X : gset string) : bool :=
  match x with Some s => bool_decide (s ∈ X) | None => false end.

Definition row_in_scope (schemas roles : gset string) (row : AclRow) : bool :=
  in_some (scoping_schema row) schemas && in_some (acl_grantee row) roles.

(** ** Configuration *)

Record WildcardGrantPattern := {
  wg_role : string;
  wg_object_type : ObjectType;
  wg_schema : string;
  wg_privileges : gset Privilege;
}.

Record PublicObjectScope := {
  pos_object_type : ObjectType;
  pos_schema : option string;
  pos_name : option string;
  pos_privileges : gset Privilege;
}.

Record DefaultPrivScopePattern := {
  dps_owner : string;
  dps_pattern_schema : option string;
  dps_on_type : ObjectType;
  dps_public_privileges : gset Privilege;
}.

(** The derived order of [DefaultPrivScopePattern]. *)
Definition scope_pattern_tuple (p : DefaultPrivScopePattern) :
    string * (option string * (ObjectType * list Privilege)) :=
  (dps_owner p, (dps_pattern_schema p, (dps_on_type p, set_iter (dps_public_privileges p)))).
#[export] Instance scope_pattern_tuple_inj : Inj (=) (=) scope_pattern_tuple.
Proof.
  intros [] []; unfold scope_pattern_tuple; cbn. intros [= -> -> -> H]. f_equal.
  by rw -(list_to_set_set_iter dps_public_privileges0) H list_to_set_set_iter.
Qed.
#[export] Instance scope_pattern_eq_dec : EqDecision DefaultPrivScopePattern.
Proof. solve_decision. Defined.
#[export] Instance scope_pattern_countable : Countable DefaultPrivScopePattern.
Proof.
  refine (inj_countable' (A := string * (option string * (ObjectType * gset Privilege)))
    (λ p, (dps_owner p, (dps_pattern_schema p, (dps_on_type p, dps_public_privileges p))))
    (λ '(o, (s, (t, x))), {| dps_owner := o; dps_pattern_schema := s; dps_on_type := t;
                             dps_public_privileges := x |}) _).
  by intros [].
Defined.
#[export] Instance scope_pattern_ord : Ord DefaultPrivScopePattern := ord_by scope_pattern_tuple.

Record InspectConfig := {
  ic_routine_grants : list Grant;
  ic_managed_roles : list string;
  ic_membership_grantors : list string;
  ic_managed_schemas : list string;
  ic_privilege_schemas : list string;
  ic_include_database_privileges : bool;
  ic_database_targets : list string;
  ic_wildcard_grants : list WildcardGrantPattern;
  ic_public_object_scopes : list PublicObjectScope;
  ic_default_priv_scopes : list DefaultPrivScopePattern;
}.

(** The maps [from_expanded] and [union_of] merge declarations into, and the lists they
    end as. *)
Abbreviation WildcardMap := (gmap (string * (ObjectType * string)) (gset Privilege)).
Abbreviation PublicScopeMap := (gmap (ObjectType * (option string * option string)) (gset Privilege)).
Abbreviation DefaultScopeMap := (gmap (string * (option string * ObjectType)) (gset Privilege)).

Definition wildcard_list (m : WildcardMap) : list WildcardGrantPattern :=
  (λ '((role, (object_type, schema)), privileges),
     {| wg_role := role; wg_object_type := object_type; wg_schema := schema;
        wg_privileges := privileges |}) <$> map_iter m.
Definition public_scope_list (m : PublicScopeMap) : list PublicObjectScope :=
  (λ '((object_type, (schema, name)), privileges),
     {| pos_object_type := object_type; pos_schema := schema; pos_name := name;
        pos_privileges := privileges |}) <$> map_iter m.
Definition default_scope_list (m : DefaultScopeMap) : list DefaultPrivScopePattern :=
  (λ '((owner, (schema, on_type)), privileges),
     {| dps_owner := owner; dps_pattern_schema := schema; dps_on_type := on_type;
        dps_public_privileges := privileges |}) <$> map_iter m.

Definition is_container (t : ObjectType) : bool :=
  match t with ObjectType.Schema | ObjectType.Database => true | _ => false end.

(** What the grants loop of [from_expanded] collects. *)
Definition grant_schemas (grant : Grant) : list string :=
  (match ot_schema (gr_object grant) with Some schema => [schema] | None => [] end) ++
  (match ot_object_type (gr_object grant), ot_name (gr_object grant) with
   | ObjectType.Schema, Some name => [name]
   | _, _ => []
   end).
Definition grant_database (grant : Grant) : list string :=
  match ot_object_type (gr_object grant), ot_name (gr_object grant) with
  | ObjectType.Database, Some name => [name]
  | _, _ => []
  end.
Definition add_wildcard (m : WildcardMap) (grant : Grant) : WildcardMap :=
  let o := gr_object grant in
  match ot_schema o with
  | Some schema =>
      if bool_decide (ot_name o = Some "*") && bool_decide (gr_ensure grant = Ensure.Present) &&
         negb (is_container (ot_object_type o))
      then entry_extend (gr_role grant, (ot_object_type o, schema)) (list_to_set (gr_privileges grant)) m
      else m
  | None => m
  end.
Definition add_public_scope (m : PublicScopeMap) (grant : Grant) : PublicScopeMap :=
  let o := gr_object grant in
  if String.eqb (gr_role grant) PUBLIC_ROLE
  then entry_extend (ot_object_type o, (ot_schema o, ot_name o)) (list_to_set (gr_privileges grant)) m
  else m.

(** What the default-privileges loop collects. *)
Definition default_schemas (d : DefaultPrivilege) : list string :=
  match resolved_scope d with
  | Ok (DefaultPrivilegeScope.Schema schema) => [schema]
  | _ => []
  end.
Definition add_default_scope (m : DefaultScopeMap) (d : DefaultPrivilege) : DefaultScopeMap :=
  match resolved_scope d with
  | Ok scope =>
      let owner := default "postgres" (dp_owner d) in
      foldl (λ m grant,
        entry_extend (owner, (scope_tuple scope, dpg_on_type grant))
          (if bool_decide (dpg_role grant = Some PUBLIC_ROLE)
           then list_to_set (dpg_privileges grant) else ∅) m) m (dp_grant d)
  | _ => m
  end.

(** [set.into_iter().collect::<Vec<_>>()] of what was inserted one by one. *)
Definition sorted_set (l : list string) : list string := set_iter (list_to_set l).

(** [InspectConfig::from_expanded] *)
Definition config_from_expanded (expanded : ExpandedManifest) (include_database_privileges : bool) :
    InspectConfig :=
  let schemas := sorted_set ((em_grants expanded ≫= grant_schemas) ++
                             (em_default_privileges expanded ≫= default_schemas) ++
                             (es_name <$> em_schemas expanded)) in {|
  ic_routine_grants := filter (λ g, ot_object_type (gr_object g) = ObjectType.Function)
                         (em_grants expanded);
  ic_managed_roles := sorted_set (rd_name <$> em_roles expanded);
  ic_membership_grantors :=
    sorted_set (mb_role <$> filter (λ m, is_predefined_role (mb_role m)) (em_memberships expanded));
  ic_managed_schemas := schemas;
  ic_privilege_schemas := schemas;
  ic_include_database_privileges := include_database_privileges;
  ic_database_targets := sorted_set (em_grants expanded ≫= grant_database);
  ic_wildcard_grants := wildcard_list (foldl add_wildcard ∅ (em_grants expanded));
  ic_public_object_scopes := public_scope_list (foldl add_public_scope ∅ (em_grants expanded));
  ic_default_priv_scopes :=
    default_scope_list (foldl add_default_scope ∅ (em_default_privileges expanded));
|}.

(** The closure [has_bindings]. *)
Definition has_bindings (scope : ManagedScope) (schema : string) : bool :=
  match mgs_schemas scope !! schema with Some managed => mss_bindings managed | None => false end.

Definition binds (scope : ManagedScope) (schema : option string) : bool :=
  match schema with Some s => has_bindings scope s | None => false end.
Definition binds_public_scope (scope : ManagedScope) (s : PublicObjectScope) : bool :=
  match pos_schema s with
  | Some schema => has_bindings scope schema
  | None => match pos_object_type s with
            | ObjectType.Schema => binds scope (pos_name s)
            | _ => true
            end
  end.
Definition binds_default_scope (scope : ManagedScope) (p : DefaultPrivScopePattern) : bool :=
  match dps_pattern_schema p with
  | Some schema => has_bindings scope schema
  | None => bool_decide (dps_owner p ∈ mgs_roles scope)
  end.

(** [InspectConfig::from_managed_scope] *)
Definition config_from_managed_scope (scope : ManagedScope) (expanded : ExpandedManifest)
    (include_database_privileges : bool) : InspectConfig :=
  let base := config_from_expanded expanded include_database_privileges in {|
  ic_routine_grants := filter (λ g, binds scope (ot_schema (gr_object g))) (ic_routine_grants base);
  ic_managed_roles := set_iter (mgs_roles scope);
  ic_membership_grantors := ic_membership_grantors base;
  ic_managed_schemas := map_keys (mgs_schemas scope);
  ic_privilege_schemas := (filter (λ p, mss_bindings p.2) (map_iter (mgs_schemas scope))).*1;
  ic_include_database_privileges := include_database_privileges;
  ic_database_targets := ic_database_targets base;
  ic_wildcard_grants := filter (λ p, has_bindings scope (wg_schema p)) (ic_wildcard_grants base);
  ic_public_object_scopes := filter (binds_public_scope scope) (ic_public_object_scopes base);
  ic_default_priv_scopes := filter (binds_default_scope scope) (ic_default_priv_scopes base);
|}.

(** [InspectConfig::union_of] *)
Definition union_wildcard (m : WildcardMap) (p : WildcardGrantPattern) : WildcardMap :=
  entry_extend (wg_role p, (wg_object_type p, wg_schema p)) (wg_privileges p) m.
Definition union_public (m : PublicScopeMap) (s : PublicObjectScope) : PublicScopeMap :=
  entry_extend (pos_object_type s, (pos_schema s, pos_name s)) (pos_privileges s) m.

Definition union_of (configs : list InspectConfig) : InspectConfig := {|
  ic_routine_grants := configs ≫= ic_routine_grants;
  ic_managed_roles := sorted_set (configs ≫= ic_managed_roles);
  ic_membership_grantors := sorted_set (configs ≫= ic_membership_grantors);
  ic_managed_schemas := sorted_set (configs ≫= ic_managed_schemas);
  ic_privilege_schemas := sorted_set (configs ≫= ic_privilege_schemas);
  ic_include_database_privileges := existsb ic_include_database_privileges configs;
  ic_database_targets := sorted_set (configs ≫= ic_database_targets);
  ic_wildcard_grants := wildcard_list (foldl union_wildcard ∅ (configs ≫= ic_wildcard_grants));
  ic_public_object_scopes :=
    public_scope_list (foldl union_public ∅ (configs ≫= ic_public_object_scopes));
  ic_default_priv_scopes := set_iter (list_to_set (configs ≫= ic_default_priv_scopes));
|}.

(** [InspectConfig::with_additional_roles] *)
Definition with_additional_roles (self : InspectConfig) (additional : list string) : InspectConfig := {|
  ic_routine_grants := ic_routine_grants self;
  ic_managed_roles := sorted_set (ic_managed_roles self ++ additional);
  ic_membership_grantors := ic_membership_grantors self;
  ic_managed_schemas := ic_managed_schemas self; ic_privilege_schemas := ic_privilege_schemas self;
  ic_include_database_privileges := ic_include_database_privileges self;
  ic_database_targets := ic_database_targets self; ic_wildcard_grants := ic_wildcard_grants self;
  ic_public_object_scopes := ic_public_object_scopes self;
  ic_default_priv_scopes := ic_default_priv_scopes self |}.

(** ** Routine targets ([routines.rs]) *)

Module RoutineResolutionFailure.
Inductive RoutineResolutionFailure : Set := Unparseable | Ambiguous | Missing.
End RoutineResolutionFailure.
Abbreviation RoutineResolutionFailure := RoutineResolutionFailure.RoutineResolutionFailure.
#[export] Instance routine_failure_eq_dec : EqDecision RoutineResolutionFailure.
Proof. solve_decision. Defined.

(** The axis of a scope a snapshot did not read; the code renders it into the message. *)
Module ScopeAxis.
Inductive ScopeAxis : Set :=
  | Routine (schema name : string)
  | DatabasePrivileges
  | DatabaseTarget (target : string)
  | ManagedRole (role : string)
  | MembershipGrantor (role : string)
  | ManagedSchema (schema : string)
  | PrivilegeSchema (schema : string)
  | WildcardScope (object_type : ObjectType) (schema : string)
  | PublicScope (object_type : ObjectType) (name schema : option string)
  | DefaultScope (owner : string) (on_type : ObjectType) (schema : option string).
End ScopeAxis.
Abbreviation ScopeAxis := ScopeAxis.ScopeAxis.

Module InspectError.
Inductive InspectError : Set :=
  | ScopeNotCovered (axis : ScopeAxis)
  | RoutineTarget (schema name : string)
  | ConflictingRoutineRules (role schema name : string)
  | UnresolvedRoutine (schema name : string) (failure : RoutineResolutionFailure)
      (candidates : list string)
  | DatabaseTargetMismatch (target connected : string).
End InspectError.
Abbreviation InspectError := InspectError.InspectError.

Record UnresolvedRoutine := {
  ur_failure : RoutineResolutionFailure;
  ur_candidates : list string;
}.

Record RoutineCatalog := {
  rc_aliases : gmap (string * string) string;
  rc_unresolved : gmap (string * string) UnresolvedRoutine;
  rc_targets : gset (string * string);
}.

Definition routine_catalog_default : RoutineCatalog :=
  {| rc_aliases := ∅; rc_unresolved := ∅; rc_targets := ∅ |}.

(** [RoutineCatalog::targets] *)
Definition routine_target (grant : Grant) : option (string * string) :=
  schema ← ot_schema (gr_object grant); name ← ot_name (gr_object grant);
  if String.eqb name "*" then None else Some (schema, name).
Definition routine_targets (config : InspectConfig) : gset (string * string) :=
  list_to_set (omap routine_target (ic_routine_grants config)).

(** [RoutineCatalog::missing_target], [RoutineCatalog::canonical_name] *)
Definition missing_target (self : RoutineCatalog) (config : InspectConfig) : option (string * string) :=
  head (set_iter (routine_targets config ∖ rc_targets self)).
Definition canonical_name (self : RoutineCatalog) (schema name : string) : string :=
  default name (rc_aliases self !! (schema, name)).

(** [RoutineCatalog::resolve_public_scopes] *)
Definition resolve_public_scope (self : RoutineCatalog) (s : PublicObjectScope) : PublicObjectScope := {|
  pos_object_type := pos_object_type s; pos_schema := pos_schema s;
  pos_name :=
    match pos_object_type s, pos_schema s, pos_name s with
    | ObjectType.Function, Some schema, Some name => Some (canonical_name self schema name)
    | _, _, name => name
    end;
  pos_privileges := pos_privileges s |}.
Definition resolve_public_scopes (self : RoutineCatalog) (config : InspectConfig) : InspectConfig := {|
  ic_routine_grants := ic_routine_grants config; ic_managed_roles := ic_managed_roles config;
  ic_membership_grantors := ic_membership_grantors config;
  ic_managed_schemas := ic_managed_schemas config;
  ic_privilege_schemas := ic_privilege_schemas config;
  ic_include_database_privileges := ic_include_database_privileges config;
  ic_database_targets := ic_database_targets config;
  ic_wildcard_grants := ic_wildcard_grants config;
  ic_public_object_scopes := resolve_public_scope self <$> ic_public_object_scopes config;
  ic_default_priv_scopes := ic_default_priv_scopes config |}.

(** [RoutineCatalog::validate]: [assertions] maps (role, schema, name, privilege) to the
    [Ensure] asserted for it. *)
Abbreviation RoutineAssertions := (gmap (string * (string * (string * Privilege))) Ensure).

Definition assert_routine (role schema name : string) (ensure : Ensure)
    (assertions : RoutineAssertions) (privilege : Privilege) : res InspectError RoutineAssertions :=
  let key := (role, (schema, (name, privilege))) in
  let clash := match assertions !! key with
               | Some previous => negb (bool_decide (previous = ensure))
               | None => false
               end in
  _ ← throw_if clash (InspectError.ConflictingRoutineRules role schema name);
  Ok (<[key := ensure]> assertions).

Definition validate_routine_grant (self : RoutineCatalog) (assertions : RoutineAssertions)
    (grant : Grant) : res InspectError RoutineAssertions :=
  match ot_schema (gr_object grant), ot_name (gr_object grant) with
  | Some schema, Some name =>
      _ ← match rc_unresolved self !! (schema, name) with
          | Some u =>
              throw_if (negb (bool_decide (ur_failure u = RoutineResolutionFailure.Missing)) ||
                        bool_decide (gr_ensure grant = Ensure.Present))
                (InspectError.UnresolvedRoutine schema name (ur_failure u) (ur_candidates u))
          | None => Ok tt
          end;
      fold_res (assert_routine (gr_role grant) schema (canonical_name self schema name)
                  (gr_ensure grant)) assertions (gr_privileges grant)
  | _, _ => Ok assertions
  end.

Definition validate_routines (self : RoutineCatalog) (config : InspectConfig) : res InspectError unit :=
  _ ← fold_res (validate_routine_grant self) ∅ (ic_routine_grants config); Ok tt.

(** ** Wildcard scopes and grantability *)

Record GrantabilityRow := {
  gb_schema_name : string;
  gb_object_name : string;
  gb_owner_name : string;
  gb_obj_type : string;
  can_select : bool;
  can_insert : bool;
  can_update : bool;
  can_delete : bool;
  can_truncate : bool;
  can_references : bool;
  can_trigger : bool;
  can_execute : bool;
  can_usage : bool;
}.

(** [GrantabilityRow::masked] *)
Definition masked (self : GrantabilityRow) (needs : gset Privilege) : GrantabilityRow :=
  let need p := bool_decide (p ∈ needs) in {|
    gb_schema_name := gb_schema_name self; gb_object_name := gb_object_name self;
    gb_owner_name := gb_owner_name self; gb_obj_type := gb_obj_type self;
    can_select := can_select self && need Privilege.Select;
    can_insert := can_insert self && need Privilege.Insert;
    can_update := can_update self && need Privilege.Update;
    can_delete := can_delete self && need Privilege.Delete;
    can_truncate := can_truncate self && need Privilege.Truncate;
    can_references := can_references self && need Privilege.References;
    can_trigger := can_trigger self && need Privilege.Trigger;
    can_execute := can_execute self && need Privilege.Execute;
    can_usage := can_usage self && need Privilege.Usage |}.

Definition can_grant (row : GrantabilityRow) (privilege : Privilege) : bool :=
  match privilege with
  | Privilege.Select => can_select row
  | Privilege.Insert => can_insert row
  | Privilege.Update => can_update row
  | Privilege.Delete => can_delete row
  | Privilege.Truncate => can_truncate row
  | Privilege.References => can_references row
  | Privilege.Trigger => can_trigger row
  | Privilege.Execute => can_execute row
  | Privilege.Usage => can_usage row
  | Privilege.Create | Privilege.Connect | Privilege.Temporary => false
  end.

Definition all_privileges : gset Privilege :=
  list_to_set [Privilege.Select; Privilege.Insert; Privilege.Update; Privilege.Delete;
               Privilege.Truncate; Privilege.References; Privilege.Trigger; Privilege.Execute;
               Privilege.Usage; Privilege.Create; Privilege.Connect; Privilege.Temporary].

Abbreviation WildcardScopeFilter := (gmap (ObjectType * string) (gset Privilege)).

(** [WildcardScopeFilter::from_wildcards], [from_scopes] *)
Definition from_wildcards (wildcard_grants : list WildcardGrantPattern) : WildcardScopeFilter :=
  foldl (λ m w, if is_container (wg_object_type w) then m
                else entry_extend (wg_object_type w, wg_schema w) (wg_privileges w) m)
    ∅ wildcard_grants.
Definition from_scopes (scopes : gset (ObjectType * string)) : WildcardScopeFilter :=
  map_collect ((λ scope, (scope, all_privileges)) <$>
    filter (λ scope, negb (is_container scope.1)) (set_iter scopes)).

Definition wildcard_scopes_of (wildcard_grants : list WildcardGrantPattern) :
    gset (ObjectType * string) :=
  list_to_set ((λ w, (wg_object_type w, wg_schema w)) <$>
    filter (λ w, negb (is_container (wg_object_type w))) wildcard_grants).

(** ** What a read returns *)

Abbreviation Inventory := (gmap (ObjectType * string) (gset string)).
Abbreviation EntryGrantors := (gmap GrantKey (gmap string (gset Privilege))).

Record RawPrivilegeState := {
  rp_acl_rows : list AclRow;
  rp_inventory : Inventory;
  rp_public_acl_rows : list AclRow;
}.

Record RawGrantability := {
  rg_executor : string;
  rg_rows : gmap (ObjectType * (string * string)) GrantabilityRow;
}.

Record UnsatisfiableWildcardObject := {
  uo_name : string;
  uo_owner : string;
  uo_privileges : gset Privilege;
}.

Record UnsatisfiableWildcardGrant := {
  uw_role : string;
  uw_object_type : ObjectType;
  uw_schema : string;
  uw_privileges : gset Privilege;
  uw_executor : string;
  uw_skipped_count : nat;
  uw_examples : list UnsatisfiableWildcardObject;
}.

(** ** Deriving the privileges of one scope *)

(** Both grantor breakdowns: [entry(key).or_default().entry(grantor).or_default().insert(p)] *)
Definition add_entry_grantor (key : GrantKey) (grantor : string) (privilege : Privilege)
    (m : EntryGrantors) : EntryGrantors :=
  <[key := entry_extend grantor {[privilege]} (default ∅ (m !! key))]> m.

(** Schema and database rows are keyed by name alone. *)
Definition row_key (role : Grantee) (object_type : ObjectType) (row : AclRow) : GrantKey := {|
  gk_role := role; gk_object_type := object_type;
  gk_schema := if is_container object_type then None else acl_schema_name row;
  gk_name := Some (acl_object_name row) |}.

(** [public_scopes_cover] *)
Definition public_scope_covers (object_type : ObjectType) (schema_name : option string)
    (object_name : string) (privilege : Privilege) (scope : PublicObjectScope) : bool :=
  bool_decide (pos_object_type scope = object_type) &&
  bool_decide (privilege ∈ pos_privileges scope) &&
  match object_type with
  | ObjectType.Schema => bool_decide (pos_name scope = Some object_name)
  | ObjectType.Database =>
      match pos_name scope with Some name => String.eqb name object_name | None => true end
  | _ => bool_decide (pos_schema scope = schema_name) &&
         match pos_name scope with
         | Some name => String.eqb name "*" || String.eqb name object_name
         | None => false
         end
  end.
Definition public_scopes_cover (scopes : list PublicObjectScope) (object_type : ObjectType)
    (schema_name : option string) (object_name : string) (privilege : Privilege) : bool :=
  existsb (public_scope_covers object_type schema_name object_name privilege) scopes.

(** [derive_public_privileges] *)
Definition public_privilege (scopes : list PublicObjectScope) (row : AclRow) :
    option (Privilege * GrantKey) :=
  privilege ← acl_char_to_privilege (acl_privilege_type row);
  object_type ← obj_type_str_to_object_type (acl_obj_type row);
  if public_scopes_cover scopes object_type (acl_schema_name row) (acl_object_name row) privilege
  then Some (privilege, row_key Grantee.Public object_type row) else None.
Definition public_step (scopes : list PublicObjectScope)
    (acc : gmap GrantKey GrantState * EntryGrantors) (row : AclRow) :
    gmap GrantKey GrantState * EntryGrantors :=
  match public_privilege scopes row with
  | Some (privilege, key) =>
      (entry_extend key {[privilege]} acc.1,
       match acl_grantor row with
       | Some grantor => add_entry_grantor key grantor privilege acc.2
       | None => acc.2
       end)
  | None => acc
  end.
Definition derive_public_privileges (rows : list AclRow) (scopes : list PublicObjectScope) :
    gmap GrantKey GrantState * EntryGrantors :=
  foldl (public_step scopes) (∅, ∅) rows.

Record DerivedPrivileges := {
  dv_grants : gmap GrantKey GrantState;
  dv_inherent : gset GrantKey;
  dv_entry_grantors : EntryGrantors;
  dv_owned_objects : gmap (string * (ObjectType * string)) (gset string);
  dv_inventory : Inventory;
  dv_wildcard_grants : list WildcardGrantPattern;
  dv_unsatisfied : list WildcardGrantPattern;
}.

(** The body of the loop over rows, in its three parts: the inventory of a wildcard scope
    counts objects with an ACL entry too; an entry of the owner is inherent; any other
    entry is recorded under its grantor. *)
Definition row_inventory (has_wildcards : bool) (filter : WildcardScopeFilter) (row : AclRow)
    (inventory : Inventory) : Inventory :=
  match obj_type_str_to_object_type (acl_obj_type row), acl_schema_name row with
  | Some object_type, Some schema_name =>
      if has_wildcards && negb (is_container object_type) &&
         bool_decide (is_Some (filter !! (object_type, schema_name)))
      then entry_extend (object_type, schema_name) {[acl_object_name row]} inventory
      else inventory
  | _, _ => inventory
  end.

Definition row_grant (row : AclRow) (grantee : string) (privilege : Privilege)
    (object_type : ObjectType) (acc : DerivedPrivileges) : DerivedPrivileges :=
  let key := row_key (Grantee.Role grantee) object_type row in
  let own := bool_decide (acl_owner_name row = Some grantee) in {|
    dv_grants := entry_extend key {[privilege]} (dv_grants acc);
    dv_inherent := if own then {[key]} ∪ dv_inherent acc else dv_inherent acc;
    dv_entry_grantors :=
      match own, acl_grantor row with
      | false, Some grantor => add_entry_grantor key grantor privilege (dv_entry_grantors acc)
      | _, _ => dv_entry_grantors acc
      end;
    dv_owned_objects :=
      match own, acl_schema_name row with
      | true, Some schema =>
          entry_extend (grantee, (object_type, schema)) {[acl_object_name row]} (dv_owned_objects acc)
      | _, _ => dv_owned_objects acc
      end;
    dv_inventory := dv_inventory acc; dv_wildcard_grants := dv_wildcard_grants acc;
    dv_unsatisfied := dv_unsatisfied acc |}.

Definition set_inventory (acc : DerivedPrivileges) (inventory : Inventory) : DerivedPrivileges := {|
  dv_grants := dv_grants acc; dv_inherent := dv_inherent acc;
  dv_entry_grantors := dv_entry_grantors acc; dv_owned_objects := dv_owned_objects acc;
  dv_inventory := inventory; dv_wildcard_grants := dv_wildcard_grants acc;
  dv_unsatisfied := dv_unsatisfied acc |}.

Definition row_step (has_wildcards : bool) (filter : WildcardScopeFilter) (acc : DerivedPrivileges)
    (row : AclRow) : DerivedPrivileges :=
  let acc := set_inventory acc (row_inventory has_wildcards filter row (dv_inventory acc)) in
  match acl_grantee row, acl_char_to_privilege (acl_privilege_type row),
        obj_type_str_to_object_type (acl_obj_type row) with
  | Some grantee, Some privilege, Some object_type => row_grant row grantee privilege object_type acc
  | _, _, _ => acc
  end.

(** [unsatisfied_wildcard_grants] *)
Definition wildcard_object_key (w : WildcardGrantPattern) (object_name : string) : GrantKey := {|
  gk_role := grantee_parse (wg_role w); gk_object_type := wg_object_type w;
  gk_schema := Some (wg_schema w); gk_name := Some object_name |}.
Definition wildcard_scope_key (w : WildcardGrantPattern) : ObjectType * string :=
  (wg_object_type w, wg_schema w).

Definition missing_on (grants : gmap GrantKey GrantState) (w : WildcardGrantPattern)
    (missing : gset Privilege) (object_name : string) : gset Privilege :=
  missing ∪ (wg_privileges w ∖ default ∅ (grants !! wildcard_object_key w object_name)).
Definition unsatisfied_wildcard (grants : gmap GrantKey GrantState) (inventory : Inventory)
    (w : WildcardGrantPattern) : option WildcardGrantPattern :=
  match inventory !! wildcard_scope_key w with
  | Some object_names =>
      let missing := foldl (missing_on grants w) ∅ (set_iter object_names) in
      if decide (missing = ∅) then None
      else Some {| wg_role := wg_role w; wg_object_type := wg_object_type w;
                   wg_schema := wg_schema w; wg_privileges := missing |}
  | None => None
  end.
Definition unsatisfied_wildcard_grants (grants : gmap GrantKey GrantState) (inventory : Inventory)
    (wildcard_grants : list WildcardGrantPattern) : list WildcardGrantPattern :=
  omap (unsatisfied_wildcard grants inventory) wildcard_grants.

(** [derive_privileges] *)
Definition derive_privileges (raw : RawPrivilegeState) (managed_schemas managed_roles : gset string)
    (wildcard_grants : list WildcardGrantPattern) (public_scopes : list PublicObjectScope) :
    DerivedPrivileges :=
  let has_wildcards := negb (bool_decide (wildcard_grants = [])) in
  let scope_filter := from_wildcards wildcard_grants in
  let inventory := filter (λ e, is_Some (scope_filter !! e.1)) (rp_inventory raw) in
  let acc :=
    foldl (row_step has_wildcards scope_filter)
      {| dv_grants := ∅; dv_inherent := ∅; dv_entry_grantors := ∅; dv_owned_objects := ∅;
         dv_inventory := inventory; dv_wildcard_grants := wildcard_grants; dv_unsatisfied := [] |}
      (filter (row_in_scope managed_schemas managed_roles) (rp_acl_rows raw)) in
  let '(public_grants, public_entry_grantors) :=
    if decide (public_scopes = []) then (∅, ∅)
    else derive_public_privileges (rp_public_acl_rows raw) public_scopes in
  let grants := public_grants ∪ dv_grants acc in {|
    dv_grants := grants;
    dv_inherent := dv_inherent acc;
    dv_entry_grantors := public_entry_grantors ∪ dv_entry_grantors acc;
    dv_owned_objects := dv_owned_objects acc;
    dv_inventory := dv_inventory acc;
    dv_wildcard_grants := wildcard_grants;
    dv_unsatisfied :=
      if has_wildcards then unsatisfied_wildcard_grants grants (dv_inventory acc) wildcard_grants
      else [] |}.

(** ** Wildcard normalization *)

Definition wildcard_key (w : WildcardGrantPattern) : GrantKey := wildcard_object_key w "*".

(** [insert_vacuous_wildcard] *)
Definition insert_vacuous_wildcard (grants : gmap GrantKey GrantState) (w : WildcardGrantPattern) :
    gmap GrantKey GrantState :=
  <[wildcard_key w := wg_privileges w]> grants.

(** The first loop of [normalize_wildcard_grants]: what every object grants of the declared
    privileges; an object without any entry clears it and ends the loop. *)
Fixpoint shared_privileges (grants : gmap GrantKey GrantState) (w : WildcardGrantPattern)
    (shared : gset Privilege) (object_names : list string) : gset Privilege :=
  match object_names with
  | [] => shared
  | object_name :: object_names =>
      match grants !! wildcard_object_key w object_name with
      | Some state => shared_privileges grants w (shared ∩ state) object_names
      | None => ∅
      end
  end.

(** The second loop: concrete entries keep what the wildcard key does not hold. *)
Definition remove_shared (w : WildcardGrantPattern) (shared : gset Privilege)
    (grants : gmap GrantKey GrantState) (object_name : string) : gmap GrantKey GrantState :=
  let key := wildcard_object_key w object_name in
  match grants !! key with
  | Some state =>
      if decide (state ∖ shared = ∅) then delete key grants else <[key := state ∖ shared]> grants
  | None => grants
  end.

Definition normalize_wildcard (inventory : Inventory) (grants : gmap GrantKey GrantState)
    (w : WildcardGrantPattern) : gmap GrantKey GrantState :=
  match inventory !! wildcard_scope_key w with
  | None => insert_vacuous_wildcard grants w
  | Some object_names =>
      if decide (object_names = ∅) then insert_vacuous_wildcard grants w
      else
        let shared := shared_privileges grants w (wg_privileges w) (set_iter object_names) in
        if decide (shared = ∅) then grants
        else foldl (remove_shared w shared) (<[wildcard_key w := shared]> grants)
               (set_iter object_names)
  end.
Definition normalize_wildcard_grants (grants : gmap GrantKey GrantState) (inventory : Inventory)
    (wildcard_grants : list WildcardGrantPattern) : gmap GrantKey GrantState :=
  foldl (normalize_wildcard inventory) grants wildcard_grants.

(** ** Diagnostics of wildcards the executor cannot satisfy *)

(** [detect_unsatisfiable_wildcards] *)
Definition missing_non_grantable (grants : gmap GrantKey GrantState) (w : WildcardGrantPattern)
    (object_name : string) (row : GrantabilityRow) : gset Privilege :=
  filter (λ p, p ∉ default ∅ (grants !! wildcard_object_key w object_name) ∧ ¬ can_grant row p)
    (wg_privileges w).
Definition skipped_object (grants : gmap GrantKey GrantState) (w : WildcardGrantPattern)
    (entry : (ObjectType * (string * string)) * GrantabilityRow) : option UnsatisfiableWildcardObject :=
  let '((object_type, (schema_name, object_name)), row) := entry in
  if bool_decide (object_type = wg_object_type w) && String.eqb schema_name (wg_schema w) then
    let missing := missing_non_grantable grants w object_name row in
    if decide (missing = ∅) then None
    else Some {| uo_name := object_name; uo_owner := gb_owner_name row; uo_privileges := missing |}
  else None.
Definition unsatisfiable_wildcard (grants : gmap GrantKey GrantState)
    (grantability : gmap (ObjectType * (string * string)) GrantabilityRow) (executor : string)
    (w : WildcardGrantPattern) : option UnsatisfiableWildcardGrant :=
  let skipped := omap (skipped_object grants w) (map_iter grantability) in
  match skipped with
  | [] => None
  | _ => Some {| uw_role := wg_role w; uw_object_type := wg_object_type w; uw_schema := wg_schema w;
                 uw_privileges := ⋃ (uo_privileges <$> skipped); uw_executor := executor;
                 uw_skipped_count := length skipped; uw_examples := take 5 skipped |}
  end.
Definition detect_unsatisfiable_wildcards (grants : gmap GrantKey GrantState)
    (grantability : gmap (ObjectType * (string * string)) GrantabilityRow)
    (wildcard_grants : list WildcardGrantPattern) (executor : string) :
    list UnsatisfiableWildcardGrant :=
  omap (unsatisfiable_wildcard grants grantability executor) wildcard_grants.

(** ** [DerivedPrivileges::finish] *)

Record PrivilegeInspectionResult := {
  pi_grants : gmap GrantKey GrantState;
  pi_entry_grantors : EntryGrantors;
  pi_inherent : gset GrantKey;
  pi_diagnostics : list UnsatisfiableWildcardGrant;
}.

Definition scoped_grantability (filter : WildcardScopeFilter) (raw : RawGrantability) :
    gmap (ObjectType * (string * string)) GrantabilityRow :=
  map_imap (λ key row, masked row <$> filter !! (key.1, key.2.1)) (rg_rows raw).

(** The wildcard key inherits the tag when the grantee owns every object of the scope. *)
Definition inherit_inherent (inventory : Inventory)
    (owned_objects : gmap (string * (ObjectType * string)) (gset string)) (inherent : gset GrantKey)
    (w : WildcardGrantPattern) : gset GrantKey :=
  match inventory !! wildcard_scope_key w with
  | Some object_names =>
      let owned := match owned_objects !! (wg_role w, wildcard_scope_key w) with
                   | Some owned => bool_decide (object_names ⊆ owned)
                   | None => false
                   end in
      if owned && negb (bool_decide (object_names = ∅)) then {[wildcard_key w]} ∪ inherent else inherent
  | None => inherent
  end.

Definition finish (self : DerivedPrivileges) (grantability : option RawGrantability) :
    PrivilegeInspectionResult := {|
  pi_diagnostics :=
    match dv_unsatisfied self, grantability with
    | _ :: _, Some raw =>
        detect_unsatisfiable_wildcards (dv_grants self)
          (scoped_grantability (from_wildcards (dv_unsatisfied self)) raw)
          (dv_unsatisfied self) (rg_executor raw)
    | _, _ => []
    end;
  pi_grants :=
    normalize_wildcard_grants (dv_grants self) (dv_inventory self) (dv_wildcard_grants self);
  pi_inherent :=
    foldl (inherit_inherent (dv_inventory self) (dv_owned_objects self)) (dv_inherent self)
      (dv_wildcard_grants self);
  pi_entry_grantors := dv_entry_grantors self |}.

(** ** Column-level grants *)

Record ColumnAclRow := {
  cr_schema_name : string;
  cr_relation_name : string;
  cr_grantee_name : string;
  cr_privilege_type : string;
  cr_column_name : string;
}.

Record ColumnLevelGrantDiagnostic := {
  cd_schema : string;
  cd_relation : string;
  cd_grantee : string;
  cd_skipped_columns : nat;
  cd_columns : list string;
  cd_privileges : gset Privilege;
}.

Definition COLUMN_LEVEL_GRANT_EXAMPLE_LIMIT : nat := 8.

(** [aggregate_column_acl_rows]; the accumulator of a target is its columns and
    privileges. *)
Definition column_step (aggregated : gmap (string * (string * string)) (gset string * gset Privilege))
    (row : ColumnAclRow) : gmap (string * (string * string)) (gset string * gset Privilege) :=
  match acl_char_to_privilege (cr_privilege_type row) with
  | Some privilege =>
      let key := (cr_schema_name row, (cr_relation_name row, cr_grantee_name row)) in
      let entry := default (∅, ∅) (aggregated !! key) in
      <[key := ({[cr_column_name row]} ∪ entry.1, {[privilege]} ∪ entry.2)]> aggregated
  | None => aggregated
  end.
Definition aggregate_column_acl_rows (rows : list ColumnAclRow) : list ColumnLevelGrantDiagnostic :=
  (λ '((schema, (relation, grantee)), (columns, privileges)),
     let kept := take COLUMN_LEVEL_GRANT_EXAMPLE_LIMIT (set_iter columns) in {|
       cd_schema := schema; cd_relation := relation; cd_grantee := grantee;
       cd_skipped_columns := size columns - length kept; cd_columns := kept;
       cd_privileges := privileges |}) <$> map_iter (foldl column_step ∅ rows).

(** ** Database and default privileges *)

(** The loop of [fetch_database_privileges]: grants and inherent keys. *)
Definition database_step (acc : gmap GrantKey GrantState * gset GrantKey) (row : AclRow) :
    gmap GrantKey GrantState * gset GrantKey :=
  match acl_grantee row, acl_char_to_privilege (acl_privilege_type row) with
  | Some grantee, Some privilege =>
      let key := row_key (Grantee.Role grantee) ObjectType.Database row in
      (entry_extend key {[privilege]} acc.1,
       if decide (acl_owner_name row = Some grantee) then {[key]} ∪ acc.2 else acc.2)
  | _, _ => acc
  end.
Definition database_privileges_of (rows : list AclRow) : gmap GrantKey GrantState * gset GrantKey :=
  foldl database_step (∅, ∅) rows.

(** The loop of [fetch_default_privileges]. *)
Definition pattern_covers (row : DefaultAclRow) (on_type : ObjectType) (privilege : Privilege)
    (pattern : DefaultPrivScopePattern) : bool :=
  String.eqb (dps_owner pattern) (dr_owner_name row) &&
  bool_decide (dps_pattern_schema pattern = dr_schema_name row) &&
  bool_decide (dps_on_type pattern = on_type) &&
  bool_decide (privilege ∈ dps_public_privileges pattern).
Definition default_grantee (managed_roles : gset string) (scopes : list DefaultPrivScopePattern)
    (row : DefaultAclRow) (on_type : ObjectType) (privilege : Privilege) : option Grantee :=
  if dr_is_public row then
    if existsb (pattern_covers row on_type privilege) scopes then Some Grantee.Public else None
  else name ← dr_grantee row;
       if bool_decide (name ∈ managed_roles) then Some (Grantee.Role name) else None.
Definition default_row (managed_roles : gset string) (scopes : list DefaultPrivScopePattern)
    (row : DefaultAclRow) : option (DefaultPrivKey * Privilege) :=
  privilege ← acl_char_to_privilege (dr_privilege_type row);
  on_type ← defacl_obj_type_to_object_type (dr_obj_type_char row);
  grantee ← default_grantee managed_roles scopes row on_type privilege;
  Some ({| dk_owner := dr_owner_name row;
           dk_scope := match dr_schema_name row with
                       | Some schema => DefaultPrivilegeScope.Schema schema
                       | None => DefaultPrivilegeScope.Global
                       end;
           dk_on_type := on_type; dk_grantee := grantee |}, privilege).
Definition default_step (managed_roles : gset string) (scopes : list DefaultPrivScopePattern)
    (defaults : gmap DefaultPrivKey DefaultPrivState) (row : DefaultAclRow) :
    gmap DefaultPrivKey DefaultPrivState :=
  match default_row managed_roles scopes row with
  | Some (key, privilege) => entry_extend key {[privilege]} defaults
  | None => defaults
  end.
