(* ===== verification/Snapshot.v ===== *)
(** * Shared reads of a database ([snapshot.rs])

    [Catalog] holds the rows the inspection's queries join, and the PostgreSQL functions
    they call; [read_inspection] runs the queries over one scope and [derive] answers one
    configuration from what was read.  Queries themselves do not fail here, except the
    resolution of a routine; durations and counters are left out. *)

From Stdlib Require Import Ascii.
From S2P Require Import Prelude BTree RustStr Types Guc Model Manifest Sql Inspect.

(** ** The catalogs *)

(** An entry [aclexplode] returns; a grantee that is no longer a role is joined away. *)
Record AclItem := {
  ai_grantee : Grantee;
  ai_privilege_type : string;
  ai_grantor : string;
}.

(** A row of [pg_class], [pg_type], [pg_namespace] or [pg_database] with its schema's name
    and owner's name; a [None] ACL is SQL's [NULL]. *)
Record CatalogObject := {
  co_namespace : string;
  co_name : string;
  co_kind : string;
  co_owner : string;
  co_acl : option (list AclItem);
}.

Record CatalogRoutine := {
  ct_pronamespace : string;
  ct_proname : string;
  ct_argtypes : string;
  ct_identity_args : string;
  ct_proowner : string;
  ct_proacl : option (list AclItem);
}.

Record CatalogColumn := {
  ca_namespace : string;
  ca_relation : string;
  ca_relkind : string;
  ca_column : string;
  ca_acl : list AclItem;
}.

Record CatalogDefault := {
  da_owner : string;
  da_namespace : option string;
  da_objtype : string;
  da_acl : list AclItem;
}.

Module RoutineLookup.
Inductive RoutineLookup : Set := Found (canonical : string) | NotFound | SyntaxError | Failed.
End RoutineLookup.
Abbreviation RoutineLookup := RoutineLookup.RoutineLookup.

Record Catalog := {
  ct_current_database : string;
  ct_current_user : string;
  ct_roles : list RoleRow;
  ct_memberships : list MembershipRow;
  ct_namespaces : list SchemaRow;
  ct_namespace_acls : list CatalogObject;
  ct_class : list CatalogObject;
  ct_proc : list CatalogRoutine;
  ct_type : list CatalogObject;
  ct_database : CatalogObject;
  ct_attribute : list CatalogColumn;
  ct_default_acl : list CatalogDefault;
  (** [acldefault(char, owner)] *)
  ct_acldefault : string → string → list AclItem;
  (** [to_regprocedure] (when the flag is set) and [to_regproc] *)
  ct_to_regproc : string → bool → RoutineLookup;
  (** [pg_has_role(current_user, owner, 'USAGE')] *)
  ct_has_role : string → bool;
  (** [has_*_privilege(current_user, object, '... WITH GRANT OPTION')] *)
  ct_has_grant_option : ObjectType * (string * string) → Privilege → bool;
}.

(** ** The queries *)

Definition in_set (x : string) (X : gset string) : bool := bool_decide (x ∈ X).

(** [CASE c.relkind], without and with sequences *)
Definition relation_type (kind : string) : option string :=
  if String.eqb kind "r" || String.eqb kind "p" then Some "table"
  else if String.eqb kind "v" then Some "view"
  else if String.eqb kind "m" then Some "materialized_view"
  else if String.eqb kind "S" then Some "sequence"
  else None.
(** [t.typname NOT LIKE '\_%' AND t.typtype <> 'p'] *)
Definition type_type (t : CatalogObject) : option string :=
  if String.prefix "_" (co_name t) || String.eqb (co_kind t) "p" then None else Some "type".

Definition canonical_signature (p : CatalogRoutine) : string :=
  ct_proname p +:+ "(" +:+ ct_argtypes p +:+ ")".
Definition legacy_signature (p : CatalogRoutine) : string :=
  ct_proname p +:+ "(" +:+ ct_identity_args p +:+ ")".
Definition routine_object (p : CatalogRoutine) : CatalogObject := {|
  co_namespace := ct_pronamespace p; co_name := canonical_signature p; co_kind := "f";
  co_owner := ct_proowner p; co_acl := ct_proacl p |}.

(** An object with the discriminator its query embeds and the [schema_name] column. *)
Definition with_entries (acl : CatalogObject → list AclItem) (objects : list CatalogObject) :
    list (CatalogObject * AclItem) :=
  objects ≫= λ o, (λ item, (o, item)) <$> acl o.
Definition explicit_acl (o : CatalogObject) : list AclItem := default [] (co_acl o).

Definition acl_row (grantee : option string) (obj_type : string) (schema_name : option string)
    (o : CatalogObject) (item : AclItem) : AclRow := {|
  acl_grantee := grantee; acl_privilege_type := ai_privilege_type item;
  acl_schema_name := schema_name; acl_object_name := co_name o; acl_obj_type := obj_type;
  acl_owner_name := Some (co_owner o); acl_grantor := Some (ai_grantor item) |}.

(** [fetch_relation_privileges], [fetch_schema_privileges], [fetch_function_privileges],
    [fetch_type_privileges]: explicit entries of managed roles. *)
Definition role_row (obj_type : CatalogObject → option string) (namespace : CatalogObject → string)
    (schema_name : CatalogObject → option string) (schemas roles : gset string)
    (entry : CatalogObject * AclItem) : option AclRow :=
  match obj_type entry.1, ai_grantee entry.2 with
  | Some t, Grantee.Role grantee =>
      if in_set (namespace entry.1) schemas && in_set grantee roles
      then Some (acl_row (Some grantee) t (schema_name entry.1) entry.1 entry.2) else None
  | _, _ => None
  end.
Definition in_namespace (o : CatalogObject) : option string := Some (co_namespace o).
Definition relation_kind (o : CatalogObject) : option string := relation_type (co_kind o).

Definition fetch_relation_privileges (cat : Catalog) (schemas roles : gset string) : list AclRow :=
  omap (role_row relation_kind co_namespace in_namespace schemas roles) (with_entries explicit_acl (ct_class cat)).
Definition fetch_schema_privileges (cat : Catalog) (schemas roles : gset string) : list AclRow :=
  omap (role_row (const (Some "schema")) co_name (const None) schemas roles)
    (with_entries explicit_acl (ct_namespace_acls cat)).
Definition fetch_function_privileges (cat : Catalog) (schemas roles : gset string) : list AclRow :=
  omap (role_row (const (Some "function")) co_namespace in_namespace schemas roles)
    (with_entries explicit_acl (routine_object <$> ct_proc cat)).
Definition fetch_type_privileges (cat : Catalog) (schemas roles : gset string) : list AclRow :=
  omap (role_row type_type co_namespace in_namespace schemas roles) (with_entries explicit_acl (ct_type cat)).

(** [fetch_object_inventory_for_wildcards] *)
Definition catalog_objects (cat : Catalog) : list (string * CatalogObject) :=
  omap (λ o, (λ t, (t, o)) <$> relation_kind o) (ct_class cat) ++
  ((λ p, ("function", routine_object p)) <$> ct_proc cat) ++
  omap (λ o, (λ t, (t, o)) <$> type_type o) (ct_type cat).
Definition wildcard_object (filter : WildcardScopeFilter) (e : string * CatalogObject) :
    option ((ObjectType * string) * CatalogObject) :=
  object_type ← obj_type_str_to_object_type e.1;
  if bool_decide (is_Some (filter !! (object_type, co_namespace e.2)))
  then Some ((object_type, co_namespace e.2), e.2) else None.
Definition fetch_object_inventory_for_wildcards (cat : Catalog) (filter : WildcardScopeFilter) :
    Inventory :=
  foldl (λ m e, entry_extend e.1 {[co_name e.2]} m) ∅
    (omap (wildcard_object filter) (catalog_objects cat)).

(** [read_raw_public_privileges]: effective entries of PUBLIC, of the families and schemas
    the scopes name. *)
Definition effective_acl (cat : Catalog) (char : CatalogObject → string) (o : CatalogObject) :
    list AclItem :=
  default (ct_acldefault cat (char o) (co_owner o)) (co_acl o).
Definition public_row (obj_type : CatalogObject → option string)
    (schema_name : CatalogObject → option string) (selected : CatalogObject → bool)
    (entry : CatalogObject * AclItem) : option AclRow :=
  match obj_type entry.1, ai_grantee entry.2 with
  | Some t, Grantee.Public =>
      if selected entry.1 then Some (acl_row None t (schema_name entry.1) entry.1 entry.2) else None
  | _, _ => None
  end.
Definition scope_schemas (p : ObjectType → bool) (scopes : list PublicObjectScope) : gset string :=
  list_to_set (omap pos_schema (filter (λ s, p (pos_object_type s)) scopes)).
Definition is_relation (t : ObjectType) : bool :=
  match t with
  | ObjectType.Table | ObjectType.View | ObjectType.MaterializedView | ObjectType.Sequence => true
  | _ => false
  end.
Definition is_type (t u : ObjectType) : bool := bool_decide (u = t).
Definition scope_schema_names (scopes : list PublicObjectScope) : gset string :=
  list_to_set (omap pos_name (filter (λ s, is_type ObjectType.Schema (pos_object_type s)) scopes)).

Definition relation_default (o : CatalogObject) : string :=
  if String.eqb (co_kind o) "S" then "S" else "r".
Definition from_schemas (X : gset string) (o : CatalogObject) : bool := in_set (co_namespace o) X.

Definition public_relation_rows (cat : Catalog) (scopes : list PublicObjectScope) : list AclRow :=
  omap (public_row relation_kind in_namespace (from_schemas (scope_schemas is_relation scopes)))
    (with_entries (effective_acl cat relation_default) (ct_class cat)).
Definition public_function_rows (cat : Catalog) (scopes : list PublicObjectScope) : list AclRow :=
  omap (public_row (const (Some "function")) in_namespace
          (from_schemas (scope_schemas (is_type ObjectType.Function) scopes)))
    (with_entries (effective_acl cat (const "f")) (routine_object <$> ct_proc cat)).
Definition public_type_rows (cat : Catalog) (scopes : list PublicObjectScope) : list AclRow :=
  omap (public_row type_type in_namespace
          (from_schemas (scope_schemas (is_type ObjectType.Type_) scopes)))
    (with_entries (effective_acl cat (const "T")) (ct_type cat)).
Definition public_schema_rows (cat : Catalog) (scopes : list PublicObjectScope) : list AclRow :=
  omap (public_row (const (Some "schema")) (const None)
          (λ o, in_set (co_name o) (scope_schema_names scopes)))
    (with_entries (effective_acl cat (const "n")) (ct_namespace_acls cat)).
Definition public_database_rows (cat : Catalog) (scopes : list PublicObjectScope) : list AclRow :=
  if existsb (λ s, is_type ObjectType.Database (pos_object_type s)) scopes
  then omap (public_row (const (Some "database")) (const None) (const true))
         (with_entries (effective_acl cat (const "d")) [ct_database cat])
  else [].
Definition read_raw_public_privileges (cat : Catalog) (scopes : list PublicObjectScope) : list AclRow :=
  public_relation_rows cat scopes ++ public_function_rows cat scopes ++
  public_type_rows cat scopes ++ public_schema_rows cat scopes ++ public_database_rows cat scopes.

(** [read_raw_privileges] *)
Definition read_raw_privileges (cat : Catalog) (schemas roles : gset string)
    (wildcard_scopes : gset (ObjectType * string)) (public_scopes : list PublicObjectScope) :
    RawPrivilegeState := {|
  rp_inventory := if decide (wildcard_scopes = ∅) then ∅
                  else fetch_object_inventory_for_wildcards cat (from_scopes wildcard_scopes);
  rp_acl_rows := fetch_relation_privileges cat schemas roles ++ fetch_schema_privileges cat schemas roles ++
                 fetch_function_privileges cat schemas roles ++ fetch_type_privileges cat schemas roles;
  rp_public_acl_rows := if decide (public_scopes = []) then []
                        else read_raw_public_privileges cat public_scopes |}.

(** [RoutineCatalog::read] *)
Definition add_alias (aliases : gmap (string * string) string) (p : CatalogRoutine) :
    gmap (string * string) string :=
  <[(ct_pronamespace p, canonical_signature p) := canonical_signature p]>
    (<[(ct_pronamespace p, legacy_signature p) := canonical_signature p]> aliases).
Definition routine_candidates (rows : list CatalogRoutine) (schema name : string) : list string :=
  let signatures : gmap (string * string) (gset string) :=
    foldl (λ m p, entry_extend (ct_pronamespace p, ct_proname p) {[canonical_signature p]} m) ∅ rows in
  match signatures !! (schema, routine_base_name name) with
  | Some found => set_iter found
  | None => []
  end.
Definition resolve_target (cat : Catalog) (rows : list CatalogRoutine)
    (acc : gmap (string * string) string * gmap (string * string) UnresolvedRoutine)
    (key : string * string) :
    res InspectError (gmap (string * string) string * gmap (string * string) UnresolvedRoutine) :=
  let '(schema, name) := key in
  match acc.1 !! key with
  | Some _ => Ok acc
  | None =>
      let candidates := routine_candidates rows schema name in
      let unresolved failure :=
        Ok (acc.1, <[key := {| ur_failure := failure; ur_candidates := candidates |}]> acc.2) in
      match ct_to_regproc cat (qualified_function_name schema name) (ends_with_paren name) with
      | RoutineLookup.Found canonical => Ok (<[key := canonical]> acc.1, acc.2)
      | RoutineLookup.NotFound =>
          if negb (ends_with_paren name) && negb (bool_decide (candidates = []))
          then unresolved RoutineResolutionFailure.Ambiguous
          else unresolved RoutineResolutionFailure.Missing
      | RoutineLookup.SyntaxError => unresolved RoutineResolutionFailure.Unparseable
      | RoutineLookup.Failed => Err (InspectError.RoutineTarget schema name)
      end
  end.
Definition routine_rows (cat : Catalog) (targets : gset (string * string)) : list CatalogRoutine :=
  filter (λ p, ct_pronamespace p ∈ (set_map fst targets : gset string)) (ct_proc cat).
Definition read_routines (cat : Catalog) (config : InspectConfig) : res InspectError RoutineCatalog :=
  let targets := routine_targets config in
  if decide (targets = ∅) then Ok routine_catalog_default
  else
    let rows := routine_rows cat targets in
    acc ← fold_res (resolve_target cat rows) (foldl add_alias ∅ rows, ∅) (set_iter targets);
    Ok {| rc_aliases := acc.1; rc_unresolved := acc.2; rc_targets := targets |}.

(** [fetch_roles], [fetch_memberships], [fetch_schemas] *)
Definition fetch_roles (cat : Catalog) (managed_roles : gset string) : list RoleRow :=
  filter (λ r, rolname r ∈ managed_roles) (ct_roles cat).
Definition fetch_memberships (cat : Catalog) (managed_roles : gset string) : list MembershipRow :=
  filter (λ m, mr_role_name m ∈ managed_roles) (ct_memberships cat).
Definition fetch_schemas (cat : Catalog) (managed_schemas : gset string) : list SchemaRow :=
  filter (λ s, sw_schema_name s ∈ managed_schemas) (ct_namespaces cat).

(** [fetch_database_privileges] *)
Definition database_row (roles : gset string) (entry : CatalogObject * AclItem) : option AclRow :=
  match ai_grantee entry.2 with
  | Grantee.Role grantee =>
      if in_set grantee roles then Some (acl_row (Some grantee) "database" None entry.1 entry.2)
      else None
  | Grantee.Public => None
  end.
Definition fetch_database_privileges (cat : Catalog) (roles : gset string) :
    gmap GrantKey GrantState * gset GrantKey :=
  database_privileges_of
    (omap (database_row roles) (with_entries explicit_acl [ct_database cat])).

(** [fetch_column_level_grants] *)
Definition column_rows (privilege_schemas : gset string) (c : CatalogColumn) : list ColumnAclRow :=
  if existsb (String.eqb (ca_relkind c)) ["r"; "p"; "v"; "m"; "f"] &&
     in_set (ca_namespace c) privilege_schemas
  then (λ item, {| cr_schema_name := ca_namespace c; cr_relation_name := ca_relation c;
                   cr_grantee_name := grantee_as_str (ai_grantee item);
                   cr_privilege_type := ai_privilege_type item; cr_column_name := ca_column c |})
       <$> ca_acl c
  else [].
Definition fetch_column_level_grants (cat : Catalog) (privilege_schemas : gset string) :
    list ColumnLevelGrantDiagnostic :=
  if decide (privilege_schemas = ∅) then []
  else aggregate_column_acl_rows (ct_attribute cat ≫= column_rows privilege_schemas).

(** [fetch_default_privileges]: the schema layer, then the effective global layer of the
    declared (owner, type) pairs without the owner's own entries. *)
Definition default_acl_row (owner : string) (namespace : option string) (objtype : string)
    (item : AclItem) : DefaultAclRow := {|
  dr_owner_name := owner; dr_schema_name := namespace;
  dr_grantee := match ai_grantee item with Grantee.Role r => Some r | Grantee.Public => None end;
  dr_is_public := is_public (ai_grantee item);
  dr_privilege_type := ai_privilege_type item; dr_obj_type_char := objtype |}.
Definition schema_default_rows (schemas : gset string) (d : CatalogDefault) : list DefaultAclRow :=
  if in_some (da_namespace d) schemas
  then default_acl_row (da_owner d) (da_namespace d) (da_objtype d) <$> da_acl d else [].
Definition global_pair (pattern : DefaultPrivScopePattern) : option (string * (string * string)) :=
  match dps_pattern_schema pattern with
  | Some _ => None
  | None =>
      stored ← object_type_to_defacl_char (dps_on_type pattern);
      builtin ← object_type_to_acldefault_char (dps_on_type pattern);
      Some (dps_owner pattern, (stored, builtin))
  end.
Definition global_pairs (scopes : list DefaultPrivScopePattern) : gset (string * (string * string)) :=
  list_to_set (omap global_pair scopes).
Definition global_acl (cat : Catalog) (owner stored builtin : string) : list AclItem :=
  match List.find (λ d, String.eqb (da_owner d) owner && bool_decide (da_namespace d = None) &&
                        String.eqb (da_objtype d) stored) (ct_default_acl cat) with
  | Some d => da_acl d
  | None => ct_acldefault cat builtin owner
  end.
Definition global_default_rows (cat : Catalog) (pair : string * (string * string)) : list DefaultAclRow :=
  let '(owner, (stored, builtin)) := pair in
  if existsb (λ r, String.eqb (rolname r) owner) (ct_roles cat)
  then default_acl_row owner None stored <$>
         filter (λ item, ai_grantee item ≠ Grantee.Role owner) (global_acl cat owner stored builtin)
  else [].
Definition default_rows (cat : Catalog) (managed_schemas : gset string)
    (scopes : list DefaultPrivScopePattern) : list DefaultAclRow :=
  (ct_default_acl cat ≫= schema_default_rows managed_schemas) ++
  (set_iter (global_pairs scopes) ≫= global_default_rows cat).
Definition fetch_default_privileges (cat : Catalog) (managed_schemas managed_roles : gset string)
    (scopes : list DefaultPrivScopePattern) : gmap DefaultPrivKey DefaultPrivState :=
  foldl (default_step managed_roles scopes) ∅ (default_rows cat managed_schemas scopes).

(** [fetch_wildcard_grantability]: the columns of a type that are not constantly false. *)
Definition grantable_columns (t : ObjectType) : list Privilege :=
  match t with
  | ObjectType.Table | ObjectType.View | ObjectType.MaterializedView =>
      [Privilege.Select; Privilege.Insert; Privilege.Update; Privilege.Delete; Privilege.Truncate;
       Privilege.References; Privilege.Trigger]
  | ObjectType.Sequence => [Privilege.Select; Privilege.Update; Privilege.Usage]
  | ObjectType.Function => [Privilege.Execute]
  | ObjectType.Type_ => [Privilege.Usage]
  | _ => []
  end.
Definition grantability_row (cat : Catalog) (needs : gset Privilege) (obj_type : string)
    (object_type : ObjectType) (o : CatalogObject) : GrantabilityRow :=
  let can p :=
    bool_decide (p ∈ grantable_columns object_type) &&
    if ct_has_role cat (co_owner o) then bool_decide (p ∈ needs)
    else bool_decide (p ∈ needs) &&
         ct_has_grant_option cat (object_type, (co_namespace o, co_name o)) p in {|
    gb_schema_name := co_namespace o; gb_object_name := co_name o; gb_owner_name := co_owner o;
    gb_obj_type := obj_type;
    can_select := can Privilege.Select; can_insert := can Privilege.Insert;
    can_update := can Privilege.Update; can_delete := can Privilege.Delete;
    can_truncate := can Privilege.Truncate; can_references := can Privilege.References;
    can_trigger := can Privilege.Trigger; can_execute := can Privilege.Execute;
    can_usage := can Privilege.Usage |}.
Definition grantability_entry (cat : Catalog) (filter : WildcardScopeFilter)
    (e : string * CatalogObject) : option ((ObjectType * (string * string)) * GrantabilityRow) :=
  object_type ← obj_type_str_to_object_type e.1;
  needs ← filter !! (object_type, co_namespace e.2);
  Some ((object_type, (co_namespace e.2, co_name e.2)),
        grantability_row cat needs e.1 object_type e.2).
Definition fetch_wildcard_grantability (cat : Catalog) (filter : WildcardScopeFilter) :
    gmap (ObjectType * (string * string)) GrantabilityRow :=
  map_collect (omap (grantability_entry cat filter) (catalog_objects cat)).
Definition read_raw_grantability (cat : Catalog) (wildcard_scopes : gset (ObjectType * string)) :
    RawGrantability := {|
  rg_executor := ct_current_user cat;
  rg_rows := fetch_wildcard_grantability cat (from_scopes wildcard_scopes) |}.

(** ** [RawInspection] *)

Record RawInspection := {
  ri_scope : InspectConfig;
  ri_routines : RoutineCatalog;
  ri_roles : list RoleRow;
  ri_memberships : list MembershipRow;
  ri_schemas : list SchemaRow;
  ri_privileges : RawPrivilegeState;
  ri_column_level_grants : list ColumnLevelGrantDiagnostic;
  ri_database_grants : gmap GrantKey GrantState;
  ri_database_inherent_grants : gset GrantKey;
  ri_default_privileges : gmap DefaultPrivKey DefaultPrivState;
}.

Definition names (l : list string) : gset string := list_to_set l.

(** [RawInspection::read] *)
Definition check_database_targets (cat : Catalog) (scope : InspectConfig) : res InspectError unit :=
  match List.find (λ t, negb (String.eqb t (ct_current_database cat))) (ic_database_targets scope) with
  | Some target => Err (InspectError.DatabaseTargetMismatch target (ct_current_database cat))
  | None => Ok tt
  end.

(** The queries [read] makes once the routines are resolved. *)
Definition read_scope (cat : Catalog) (scope : InspectConfig) (routines : RoutineCatalog) :
    RawInspection :=
  let resolved_scope := resolve_public_scopes routines scope in
  let role_refs := names (ic_managed_roles scope) in
  let privilege_schema_refs := names (ic_privilege_schemas scope) in
  let no_privileges := bool_decide (ic_privilege_schemas scope = []) in
  let database_privileges := if ic_include_database_privileges scope
                             then fetch_database_privileges cat role_refs else (∅, ∅) in {|
    ri_scope := scope;
    ri_routines := routines;
    ri_roles := fetch_roles cat role_refs;
    ri_memberships := fetch_memberships cat (role_refs ∪ names (ic_membership_grantors scope));
    ri_schemas := if decide (ic_managed_schemas scope = []) then []
                  else fetch_schemas cat (names (ic_managed_schemas scope));
    ri_privileges :=
      if no_privileges && bool_decide (ic_public_object_scopes scope = [])
      then {| rp_acl_rows := []; rp_inventory := ∅; rp_public_acl_rows := [] |}
      else read_raw_privileges cat privilege_schema_refs role_refs
             (wildcard_scopes_of (ic_wildcard_grants scope)) (ic_public_object_scopes resolved_scope);
    ri_column_level_grants :=
      if no_privileges then [] else fetch_column_level_grants cat privilege_schema_refs;
    ri_database_grants := database_privileges.1;
    ri_database_inherent_grants := database_privileges.2;
    ri_default_privileges :=
      if no_privileges && bool_decide (ic_default_priv_scopes scope = []) then ∅
      else fetch_default_privileges cat privilege_schema_refs role_refs (ic_default_priv_scopes scope)
  |}.

Definition read_inspection (cat : Catalog) (scope : InspectConfig) : res InspectError RawInspection :=
  _ ← check_database_targets cat scope;
  routines ← read_routines cat scope;
  Ok (read_scope cat scope routines).

(** [RawInspection::uncovered_axis], [RawInspection::covers] *)
Definition first_outside {A} `{Countable A} (l : list A) (X : gset A) : option A :=
  List.find (λ x, negb (bool_decide (x ∈ X))) l.
Definition public_target (s : PublicObjectScope) : ObjectType * (option string * option string) :=
  (pos_object_type s, (pos_schema s, pos_name s)).

Definition uncovered_axis (self : RawInspection) (config : InspectConfig) : option ScopeAxis :=
  let scope := ri_scope self in
  let roles := names (ic_managed_roles scope) in
  head (omap id [
    (λ '(schema, name), ScopeAxis.Routine schema name) <$> missing_target (ri_routines self) config;
    (if ic_include_database_privileges config && negb (ic_include_database_privileges scope)
     then Some ScopeAxis.DatabasePrivileges else None);
    ScopeAxis.DatabaseTarget <$>
      first_outside (ic_database_targets config) (names (ic_database_targets scope));
    ScopeAxis.ManagedRole <$> first_outside (ic_managed_roles config) roles;
    ScopeAxis.MembershipGrantor <$>
      first_outside (ic_membership_grantors config) (names (ic_membership_grantors scope) ∪ roles);
    ScopeAxis.ManagedSchema <$>
      first_outside (ic_managed_schemas config) (names (ic_managed_schemas scope));
    ScopeAxis.PrivilegeSchema <$>
      first_outside (ic_privilege_schemas config) (names (ic_privilege_schemas scope));
    (λ '(object_type, schema), ScopeAxis.WildcardScope object_type schema) <$>
      first_outside (set_iter (wildcard_scopes_of (ic_wildcard_grants config)))
        (wildcard_scopes_of (ic_wildcard_grants scope));
    (λ '(object_type, (schema, name)), ScopeAxis.PublicScope object_type name schema) <$>
      first_outside (public_target <$> ic_public_object_scopes config)
        (list_to_set (public_target <$> ic_public_object_scopes scope));
    (λ pattern, ScopeAxis.DefaultScope (dps_owner pattern) (dps_on_type pattern)
                  (dps_pattern_schema pattern)) <$>
      first_outside (ic_default_priv_scopes config) (list_to_set (ic_default_priv_scopes scope)) ]).
Definition covers (self : RawInspection) (config : InspectConfig) : bool :=
  match uncovered_axis self config with None => true | Some _ => false end.

(** The loop over memberships: effective edges by pair, and what each grantor's edge is. *)
Record MembershipFold := {
  mf_effective : gmap (string * string) MembershipEdge;
  mf_authority : gset (string * string * string);
  mf_options : gmap (string * string) (gmap string MembershipOptions);
  mf_grantors : gmap (string * string) (gset string);
}.

Definition membership_step (acc : MembershipFold) (row : MembershipRow) : MembershipFold :=
  let key := (mr_role_name row, mr_member_name row) in
  let edge := default (to_membership_edge row) (mf_effective acc !! key) in
  let effective :=
    <[key := {| me_role := me_role edge; me_member := me_member edge;
                me_inherit := me_inherit edge || mr_inherit_option row;
                me_admin := me_admin edge || mr_admin_option row |}]> (mf_effective acc) in
  match mr_grantor row with
  | Some grantor => {|
      mf_effective := effective;
      mf_authority := if mr_executor_authority row
                      then {[(mr_role_name row, mr_member_name row, grantor)]} ∪ mf_authority acc
                      else mf_authority acc;
      mf_options :=
        <[key := <[grantor := {| mo_inherit := mr_inherit_option row; mo_admin := mr_admin_option row;
                                 mo_set := mr_set_option row |}]>
                   (default ∅ (mf_options acc !! key))]> (mf_options acc);
      mf_grantors := entry_extend key {[grantor]} (mf_grantors acc) |}
  | None => {| mf_effective := effective; mf_authority := mf_authority acc;
               mf_options := mf_options acc; mf_grantors := mf_grantors acc |}
  end.

(** [remove_redundant_schema_owner_grants] *)
Definition redundant_owner_grant (schemas : gmap string SchemaState) (key : GrantKey) : bool :=
  match gk_object_type key, gk_name key with
  | ObjectType.Schema, Some schema_name =>
      match schemas !! schema_name with
      | Some state => bool_decide (ss_owner state = Some (grantee_as_str (gk_role key)))
      | None => false
      end
  | _, _ => false
  end.
Definition remove_redundant_schema_owner_grants (schemas : gmap string SchemaState)
    (grants : gmap GrantKey GrantState) : gmap GrantKey GrantState :=
  filter (λ e, ¬ redundant_owner_grant schemas e.1) grants.

(** What a configuration sees of a default-privilege entry. *)
Definition declared_public (config : InspectConfig) (key : DefaultPrivKey) : gset Privilege :=
  ⋃ (dps_public_privileges <$>
       filter (λ p, dps_owner p = dk_owner key ∧
                    dps_pattern_schema p = match dk_scope key with
                                           | DefaultPrivilegeScope.Schema s => Some s
                                           | DefaultPrivilegeScope.Global => None
                                           end ∧
                    dps_on_type p = dk_on_type key) (ic_default_priv_scopes config)).
Definition default_in_scope (config : InspectConfig) (key : DefaultPrivKey) : bool :=
  match dk_scope key with
  | DefaultPrivilegeScope.Schema schema => in_set schema (names (ic_privilege_schemas config))
  | DefaultPrivilegeScope.Global =>
      existsb (λ p, bool_decide (dps_pattern_schema p = None) && String.eqb (dps_owner p) (dk_owner key) &&
                    bool_decide (dps_on_type p = dk_on_type key)) (ic_default_priv_scopes config)
  end.
Definition derive_default (config : InspectConfig) (key : DefaultPrivKey) (state : DefaultPrivState) :
    option DefaultPrivState :=
  if default_in_scope config key then
    match dk_grantee key with
    | Grantee.Role role =>
        if in_set role (names (ic_managed_roles config)) then Some state else None
    | Grantee.Public =>
        let privileges := state ∩ declared_public config key in
        if decide (privileges = ∅) then None else Some privileges
    end
  else None.

(** The database entries of managed roles. *)
Definition managed_key (managed_roles : gset string) (key : GrantKey) : bool :=
  match gk_role key with Grantee.Role role => in_set role managed_roles | Grantee.Public => false end.

Record InspectionResult := {
  ir_graph : RoleGraph;
  ir_unsatisfiable : list UnsatisfiableWildcardGrant;
  ir_column_level_grants : list ColumnLevelGrantDiagnostic;
}.

(** [RawInspection::grantability]: at most one read per snapshot, of the whole scope. *)
Definition grantability (cat : Catalog) (self : RawInspection) (cache : option RawGrantability) :
    RawGrantability :=
  default (read_raw_grantability cat (wildcard_scopes_of (ic_wildcard_grants (ri_scope self)))) cache.

(** The object-privilege part of [derive_impl], with the cache it leaves. *)
Definition derive_objects (cat : Catalog) (self : RawInspection) (config : InspectConfig)
    (cache : option RawGrantability) : PrivilegeInspectionResult * option RawGrantability :=
  let privilege_schemas := names (ic_privilege_schemas config) in
  if bool_decide (ic_privilege_schemas config = []) && bool_decide (ic_public_object_scopes config = [])
  then ({| pi_grants := ∅; pi_entry_grantors := ∅; pi_inherent := ∅; pi_diagnostics := [] |}, cache)
  else
    let derived := derive_privileges (ri_privileges self) privilege_schemas
                     (names (ic_managed_roles config)) (ic_wildcard_grants config)
                     (ic_public_object_scopes config) in
    match dv_unsatisfied derived with
    | [] => (finish derived None, cache)
    | _ => let raw := grantability cat self cache in (finish derived (Some raw), Some raw)
    end.

Definition schema_state (row : SchemaRow) : string * SchemaState :=
  (sw_schema_name row, {| ss_owner := Some (sw_owner_name row);
                          ss_owner_privileges := row_owner_privileges row |}).

Definition derive_graph (self : RawInspection) (config : InspectConfig)
    (objects : PrivilegeInspectionResult) : RoleGraph :=
  let managed_roles := names (ic_managed_roles config) in
  let managed_schemas := names (ic_managed_schemas config) in
  let privilege_schemas := names (ic_privilege_schemas config) in
  let grantors := names (ic_membership_grantors config) in
  let memberships :=
    foldl membership_step
      {| mf_effective := ∅; mf_authority := ∅; mf_options := ∅; mf_grantors := ∅ |}
      (filter (λ m, mr_role_name m ∈ managed_roles ∨ mr_role_name m ∈ grantors)
         (ri_memberships self)) in
  let schemas :=
    map_collect (schema_state <$> filter (λ s, sw_schema_name s ∈ managed_schemas) (ri_schemas self)) in
  let database_grants :=
    if ic_include_database_privileges config
    then filter (λ e, managed_key managed_roles e.1) (ri_database_grants self) else ∅ in {|
    routine_aliases := filter (λ e, e.1.1 ∈ privilege_schemas) (rc_aliases (ri_routines self));
    roles := map_collect ((λ r, (rolname r, to_role_state r)) <$>
                            filter (λ r, rolname r ∈ managed_roles) (ri_roles self));
    schemas := schemas;
    grants := database_grants ∪ remove_redundant_schema_owner_grants schemas (pi_grants objects);
    default_privileges := map_imap (derive_default config) (ri_default_privileges self);
    memberships := map_to_set (λ _ edge, edge) (mf_effective memberships);
    grant_absences := ∅; default_privilege_absences := ∅; exclusive_membership_roles := ∅;
    inherent_grants :=
      filter (λ k, k ∈ ri_database_inherent_grants self) (dom database_grants) ∪ pi_inherent objects;
    membership_edge_grantors := mf_grantors memberships;
    membership_edge_options := mf_options memberships;
    executor_authority_edges := mf_authority memberships;
    grant_entry_grantors := pi_entry_grantors objects |}.

(** [RawInspection::derive_impl] *)
Definition derive (cat : Catalog) (self : RawInspection) (config : InspectConfig)
    (cache : option RawGrantability) : res InspectError (InspectionResult * option RawGrantability) :=
  match uncovered_axis self config with
  | Some axis => Err (InspectError.ScopeNotCovered axis)
  | None =>
      _ ← validate_routines (ri_routines self) config;
      let config := resolve_public_scopes (ri_routines self) config in
      let '(objects, cache) := derive_objects cat self config cache in
      Ok ({| ir_graph := derive_graph self config objects;
             ir_unsatisfiable := pi_diagnostics objects;
             ir_column_level_grants :=
               if bool_decide (ic_privilege_schemas config = []) &&
                  bool_decide (ic_public_object_scopes config = [])
               then []
               else filter (λ d, cd_schema d ∈ names (ic_privilege_schemas config))
                      (ri_column_level_grants self) |}, cache)
  end.

(** [inspect_with_diagnostics] *)
Definition inspect_with_diagnostics (cat : Catalog) (config : InspectConfig) :
    res InspectError InspectionResult :=
  raw ← read_inspection cat config; r ← derive cat raw config None; Ok r.1.

(** ** Unscoped reads *)

(** [fetch_owned_relations] *)
Definition owned_relation (schemas : gset string) (e : string * CatalogObject) :
    option (string * (ObjectType * (string * string))) :=
  if in_set (co_namespace e.2) schemas then
    object_type ← obj_type_str_to_object_type e.1;
    Some (co_owner e.2, (object_type, (co_namespace e.2, co_name e.2)))
  else None.
Definition fetch_owned_relations (cat : Catalog) (managed_schemas : gset string) :
    gset (string * (ObjectType * (string * string))) :=
  list_to_set (omap (owned_relation managed_schemas)
    (omap (λ o, (λ t, (t, o)) <$> relation_kind o) (ct_class cat) ++
     ((λ p, ("function", routine_object p)) <$> ct_proc cat))).
