(* ===== verification/InspectFacts.v ===== *)
(** * Inspection: what normalization keeps

    [normalization_preserves_access]: folding the grants of a wildcard scope into its
    [*] key loses no access and adds none. *)

From Stdlib Require Import Ascii.
From S2P Require Import Prelude BTree RustStr Types Guc Model Manifest Sql Desired Inspect Snapshot.

(** ** Normalization *)

Definition privs (grants : gmap GrantKey GrantState) (key : GrantKey) : gset Privilege :=
  default ∅ (grants !! key).

Section normalization.
Context (inventory : Inventory).

Definition objects (scope : ObjectType * string) : gset string := default ∅ (inventory !! scope).

(** What every object of a pattern's scope grants of its privileges. *)
Definition held (g : gmap GrantKey GrantState) (w : WildcardGrantPattern) (p : Privilege) : Prop :=
  p ∈ wg_privileges w ∧ ∀ o, o ∈ objects (wildcard_scope_key w) → p ∈ privs g (wildcard_object_key w o).

#[local] Instance wildcard_object_key_inj w : Inj (=) (=) (wildcard_object_key w).
Proof. by intros x y [=]. Qed.

Lemma privs_insert g k X k' : privs (<[k := X]> g) k' = if decide (k = k') then X else privs g k'.
Proof. unfold privs. case_decide; simplify_map_eq; done. Qed.

Lemma elem_of_shared g w X names p :
  p ∈ shared_privileges g w X names ↔
  p ∈ X ∧ ∀ o, o ∈ names → p ∈ privs g (wildcard_object_key w o).
Proof.
  revert X. induction names as [|o names IH]=> X /=.
  { split; [|by intros []]. intros Hp. split; [done|]. by intros o Ho%not_elem_of_nil. }
  destruct (g !! wildcard_object_key w o) as [state|] eqn:Hk.
  - rw IH elem_of_intersection. setoid_rewrite elem_of_cons. split.
    + intros [[? ?] Hall]. split; [done|]. intros o' [->|]; [|by apply Hall]. unfold privs. by rw Hk.
    + intros [? Hall]. assert (p ∈ state).
      { specialize (Hall o (or_introl eq_refl)). unfold privs in Hall. by rw Hk in Hall. } naive_solver.
  - split; [by intros ?%not_elem_of_empty|]. intros [_ Hall].
    specialize (Hall o (list_elem_of_here _ _)). unfold privs in Hall. rw Hk in Hall.
    by apply not_elem_of_empty in Hall.
Qed.

Lemma privs_remove_shared w X g o k :
  privs (remove_shared w X g o) k = if decide (k = wildcard_object_key w o) then privs g k ∖ X else privs g k.
Proof.
  unfold remove_shared, privs. destruct (g !! wildcard_object_key w o) as [state|] eqn:Hk;
    destruct (decide (k = wildcard_object_key w o)) as [->|Hne]; rw ?Hk; cbn; try done;
    [| |set_solver]; case_decide as He; simplify_map_eq; done.
Qed.

Lemma elem_of_removed w X names g k p :
  p ∈ privs (foldl (remove_shared w X) g names) k ↔
  p ∈ privs g k ∧ ¬ (p ∈ X ∧ ∃ o, o ∈ names ∧ k = wildcard_object_key w o).
Proof.
  revert g. induction names as [|o names IH]=> g /=.
  { split; [|naive_solver]. intros ?. split; [done|]. intros [_ (? & []%not_elem_of_nil & _)]. }
  rw IH privs_remove_shared. setoid_rewrite elem_of_cons.
  case_decide; [subst; rw elem_of_difference|]; naive_solver.
Qed.

(** One pattern, away from its own keys and on them. *)
Lemma normalize_wildcard_other g w k :
  (∀ o, k ≠ wildcard_object_key w o) → privs (normalize_wildcard inventory g w) k = privs g k.
Proof.
  intros Hk. assert (wildcard_key w ≠ k) as Hw by (intros <-; by eapply Hk).
  assert (∀ X, privs (<[wildcard_key w := X]> g) k = privs g k) as Hi.
  { intros X. by rw privs_insert decide_False. }
  unfold normalize_wildcard, insert_vacuous_wildcard. repeat case_match; try done.
  apply set_eq. intros p. rw elem_of_removed Hi. naive_solver.
Qed.

Lemma normalize_wildcard_own g w :
  "*" ∉ objects (wildcard_scope_key w) → privs g (wildcard_key w) = ∅ →
  (∀ p, p ∈ privs (normalize_wildcard inventory g w) (wildcard_key w) ↔ held g w p) ∧
  (∀ o p, o ≠ "*" →
     p ∈ privs (normalize_wildcard inventory g w) (wildcard_object_key w o) ↔
     p ∈ privs g (wildcard_object_key w o) ∧
     ¬ (o ∈ objects (wildcard_scope_key w) ∧ held g w p)).
Proof.
  unfold held, normalize_wildcard, insert_vacuous_wildcard, objects. intros Hstar Hnone.
  assert (∀ o, o ≠ "*" → wildcard_key w ≠ wildcard_object_key w o) as Hne by by intros o Ho [= <-].
  destruct (inventory !! wildcard_scope_key w) as [names|]; cbn in *; [case_decide as He; [subst names|]|].
  - split; intros; [rw privs_insert decide_True //|rw privs_insert decide_False; [|by apply Hne]]; set_solver.
  - assert (∀ p, p ∈ shared_privileges g w (wg_privileges w) (set_iter names) ↔
                 p ∈ wg_privileges w ∧ ∀ o, o ∈ names → p ∈ privs g (wildcard_object_key w o)) as Hs.
    { intros p. rw elem_of_shared. by setoid_rewrite elem_of_set_iter. }
    case_decide as Hsh.
    + rw Hsh in Hs. rw Hnone. split; set_solver.
    + split; intros; rw elem_of_removed privs_insert; case_decide as Hk.
      * rw Hs. split; [naive_solver|]. intros ?. split; [done|]. intros [_ (o & Ho & [= <-])].
        by rw elem_of_set_iter in Ho.
      * done.
      * by apply Hne in Hk.
      * rw Hs. setoid_rewrite elem_of_set_iter. split; [naive_solver|].
        intros [? Hn]. split; [done|]. intros [? (o' & ? & <-%(inj _))]. naive_solver.
  - split; intros; [rw privs_insert decide_True //|rw privs_insert decide_False; [|by apply Hne]]; set_solver.
Qed.

(** All patterns, each with keys of its own. *)
Definition pattern_key (w : WildcardGrantPattern) : string * (ObjectType * string) :=
  (wg_role w, wildcard_scope_key w).

Lemma pattern_key_ne w w' o o' :
  pattern_key w ≠ pattern_key w' → wildcard_object_key w o ≠ wildcard_object_key w' o'.
Proof.
  intros Hne [= Hr%(inj grantee_parse) Ht Hs Ho]. apply Hne. unfold pattern_key, wildcard_scope_key.
  congruence.
Qed.

Lemma normalize_wildcard_frame g w w' o :
  pattern_key w ≠ pattern_key w' →
  privs (normalize_wildcard inventory g w) (wildcard_object_key w' o) = privs g (wildcard_object_key w' o).
Proof. intros Hne. apply normalize_wildcard_other. intros o'. apply pattern_key_ne. naive_solver. Qed.

Lemma held_frame g w w' p :
  pattern_key w ≠ pattern_key w' → held (normalize_wildcard inventory g w) w' p ↔ held g w' p.
Proof. intros Hne. unfold held. by setoid_rewrite (normalize_wildcard_frame g w w' _ Hne). Qed.

Lemma normalize_other ws g k :
  (∀ w o, w ∈ ws → k ≠ wildcard_object_key w o) →
  privs (normalize_wildcard_grants g inventory ws) k = privs g k.
Proof.
  unfold normalize_wildcard_grants. revert g. induction ws as [|w ws IH]=> g Hk //=.
  rw IH; [apply normalize_wildcard_other|]; intros; apply Hk; [left|by right].
Qed.

Lemma normalize_own ws g w :
  (∀ scope, "*" ∉ objects scope) → NoDup (pattern_key <$> ws) →
  (∀ w, w ∈ ws → privs g (wildcard_key w) = ∅) → w ∈ ws →
  (∀ p, p ∈ privs (normalize_wildcard_grants g inventory ws) (wildcard_key w) ↔ held g w p) ∧
  (∀ o p, o ≠ "*" →
     p ∈ privs (normalize_wildcard_grants g inventory ws) (wildcard_object_key w o) ↔
     p ∈ privs g (wildcard_object_key w o) ∧
     ¬ (o ∈ objects (wildcard_scope_key w) ∧ held g w p)).
Proof.
  intros Hstar. unfold normalize_wildcard_grants. revert g.
  induction ws as [|w1 ws IH]=> g /= Hnd Hnone Hw; [by apply not_elem_of_nil in Hw|].
  apply NoDup_cons in Hnd as [Hw1 Hnd].
  assert (∀ w', w' ∈ ws → pattern_key w1 ≠ pattern_key w') as Hne.
  { intros w' Hw' Heq. apply Hw1. rw Heq. by apply list_elem_of_fmap_2. }
  apply elem_of_cons in Hw as [->|Hw].
  - destruct (normalize_wildcard_own g w1) as [H1 H2]; [done|apply Hnone; left|].
    assert (∀ o, privs (foldl (normalize_wildcard inventory) (normalize_wildcard inventory g w1) ws)
                   (wildcard_object_key w1 o) =
                 privs (normalize_wildcard inventory g w1) (wildcard_object_key w1 o)) as Hf.
    { intros o. apply (normalize_other ws). intros w' o' Hw'. by apply pattern_key_ne, Hne. }
    split; [intros p|intros o p Ho]; unfold wildcard_key; rw Hf; [apply H1|by apply H2].
  - destruct (IH (normalize_wildcard inventory g w1)) as [H1 H2]; [done| |done|].
    { intros w' Hw'. unfold wildcard_key. rw normalize_wildcard_frame; [|by apply Hne].
      apply Hnone. by right. }
    split; [intros p; rw H1 held_frame //; by apply Hne|].
    intros o p Ho. rw H2 // normalize_wildcard_frame; [|by apply Hne]. rw held_frame //. by apply Hne.
Qed.

Lemma missing_spec g w names X p :
  p ∈ foldl (missing_on g w) X names ↔
  p ∈ X ∨ p ∈ wg_privileges w ∧ ∃ o, o ∈ names ∧ p ∉ privs g (wildcard_object_key w o).
Proof.
  revert X. induction names as [|o names IH]=> X /=.
  { split; [by left|]. intros [?|(_ & ? & []%not_elem_of_nil & _)]; done. }
  rw IH. unfold missing_on. setoid_rewrite elem_of_cons. fold (privs g (wildcard_object_key w o)).
  rw elem_of_union elem_of_difference. naive_solver.
Qed.

Lemma unsatisfied_spec g w u :
  unsatisfied_wildcard g inventory w = Some u ↔
  pattern_key u = pattern_key w ∧ wg_privileges u ≠ ∅ ∧
  ∀ p, p ∈ wg_privileges u ↔ p ∈ wg_privileges w ∧
       ∃ o, o ∈ objects (wildcard_scope_key w) ∧ p ∉ privs g (wildcard_object_key w o).
Proof.
  unfold unsatisfied_wildcard, objects. destruct (inventory !! _) as [names|]; cbn.
  - set (X := foldl _ _ _).
    assert (∀ p, p ∈ X ↔ p ∈ wg_privileges w ∧ ∃ o, o ∈ names ∧ p ∉ privs g (wildcard_object_key w o)) as HX.
    { intros p. unfold X. rw missing_spec. setoid_rewrite elem_of_set_iter. set_solver. }
    clearbody X. case_decide as He.
    + split; [done|]. intros (_ & Hne & Hu). exfalso. apply Hne. set_solver.
    + split; [intros [= <-]; done|]. destruct u as [r t s Y], w as [r' t' s' Z]; cbn in *.
      intros ([= -> -> ->] & _ & Hu). do 2 f_equal. apply set_eq. set_solver.
  - split; [done|]. intros (_ & Hne & Hu). exfalso. apply Hne. set_solver.
Qed.
End normalization.

(** A role's access to an object, through the object's key or the wildcard key over it. *)
Definition can_access (grants : gmap GrantKey GrantState) (inventory : Inventory) (role : Grantee)
    (object_type : ObjectType) (schema object : string) (p : Privilege) : Prop :=
  let key name := {| gk_role := role; gk_object_type := object_type; gk_schema := Some schema;
                     gk_name := Some name |} in
  p ∈ privs grants (key object) ∨
  object ∈ objects inventory (object_type, schema) ∧ p ∈ privs grants (key "*").

(** C25: Normalizing wildcard grants keeps access.  When patterns are distinct, as the
    configuration's map makes them, and no object is named [*], then for every role and
    object: what is reachable through the object's key or the wildcard key over it is what
    the object's own entry granted; a wildcard key holds exactly the declared privileges
    every object in scope grants, all of them when there is none; and the patterns
    reported as unsatisfied are those whose wildcard key lacks a declared privilege, with
    the privileges it lacks. *)
Theorem normalization_preserves_access (grants : gmap GrantKey GrantState) (inventory : Inventory)
    (ws : list WildcardGrantPattern) :
  NoDup (pattern_key <$> ws) →
  (∀ scope, "*" ∉ objects inventory scope) →
  (∀ key, gk_name key = Some "*" → grants !! key = None) →
  let normalized := normalize_wildcard_grants grants inventory ws in
  (∀ role object_type schema object p, object ≠ "*" →
     can_access normalized inventory role object_type schema object p ↔
     can_access grants inventory role object_type schema object p) ∧
  (∀ w p, w ∈ ws →
     p ∈ privs normalized (wildcard_key w) ↔ held inventory grants w p) ∧
  (∀ u, u ∈ unsatisfied_wildcard_grants grants inventory ws ↔
     ∃ w, w ∈ ws ∧ pattern_key u = pattern_key w ∧ wg_privileges u ≠ ∅ ∧
          wg_privileges u = wg_privileges w ∖ privs normalized (wildcard_key w)).
Proof.
  intros Hnd Hstar Hnone normalized.
  assert (∀ k, gk_name k = Some "*" → privs grants k = ∅) as Hn by (unfold privs; intros k ->%Hnone; done).
  assert (∀ w, w ∈ ws → privs grants (wildcard_key w) = ∅) as Hnw by by intros; apply Hn.
  split_and!.
  - intros role t s o p Ho. unfold can_access. rw (Hn {| gk_name := Some "*" |}) //.
    destruct (decide (Exists (λ w, wildcard_object_key w o = {| gk_role := role; gk_object_type := t;
                gk_schema := Some s; gk_name := Some o |}) ws)) as [He|He].
    + apply Exists_exists in He as (w & Hw & [= <- <- <-]).
      destruct (normalize_own inventory ws grants w) as [H1 H2]; [done..|].
      specialize (H1 p). specialize (H2 o p Ho). fold (wildcard_scope_key w).
      fold (wildcard_object_key w o) (wildcard_object_key w "*"). fold (wildcard_key w). rw H2.
      assert (o ∈ objects inventory (wildcard_scope_key w) → held inventory grants w p →
              p ∈ privs grants (wildcard_object_key w o)) by (intros ? [_ Hh]; by apply Hh).
      assert (Decision (held inventory grants w p)).
      { destruct (decide (p ∈ privs (normalize_wildcard_grants grants inventory ws) (wildcard_key w)));
          [left|right]; naive_solver. }
      destruct (decide (o ∈ objects inventory (wildcard_scope_key w)));
        destruct (decide (held inventory grants w p)); naive_solver.
    + rw !normalize_other; [by rw (Hn {| gk_name := Some "*" |})| |];
        intros w o' Hw [= Hr Ht Hs _]; apply He, Exists_exists; exists w; by subst.
  - intros w p Hw. by apply normalize_own.
  - intros u. unfold unsatisfied_wildcard_grants. rw list_elem_of_omap.
    assert (∀ w p, w ∈ ws → (p ∈ wg_privileges w ∧
              ∃ o, o ∈ objects inventory (wildcard_scope_key w) ∧ p ∉ privs grants (wildcard_object_key w o))
            ↔ p ∈ wg_privileges w ∖ privs normalized (wildcard_key w)) as Hm.
    { intros w p Hw. rw elem_of_difference. destruct (normalize_own inventory ws grants w) as [H1 _]; [done..|].
      unfold normalized. rw H1. unfold held.
      split; [naive_solver|]. intros [? Hno]. split; [done|].
      destruct (decide (set_Exists (λ o, p ∉ privs grants (wildcard_object_key w o))
                          (objects inventory (wildcard_scope_key w)))) as [He|He]; [done|].
      exfalso. apply Hno. split; [done|]. intros o Ho. apply dec_stable. intros Hp. apply He. by exists o. }
    setoid_rewrite unsatisfied_spec. split; intros (w & Hw & Hp & Hne & Hu); exists w; split_and!; try done.
    + apply set_eq. intros p. by rw Hu Hm.
    + intros p. by rw Hu Hm.
Qed.

Definition reader_pattern : WildcardGrantPattern := {|
  wg_role := "reader"; wg_object_type := ObjectType.Table; wg_schema := "app";
  wg_privileges := {[Privilege.Select; Privilege.Insert]} |}.
Definition reader_inventory : Inventory := {[(ObjectType.Table, "app") := {["orders"; "users"]}]}.
Definition reader_grants : gmap GrantKey GrantState :=
  <[wildcard_object_key reader_pattern "orders" := {[Privilege.Select; Privilege.Delete]}]>
    {[wildcard_object_key reader_pattern "users" := {[Privilege.Select]}]}.

(** [SELECT] folds into the wildcard key, [DELETE] on one table stays concrete, and [INSERT]
    is what the pattern lacks. *)
Example reader_normalized :
  normalize_wildcard_grants reader_grants reader_inventory [reader_pattern] =
    <[wildcard_key reader_pattern := {[Privilege.Select]}]>
      {[wildcard_object_key reader_pattern "orders" := {[Privilege.Delete]}]} ∧
  wg_privileges <$> unsatisfied_wildcard_grants reader_grants reader_inventory [reader_pattern] =
    [{[Privilege.Insert]}].
Proof. apply (bool_decide_unpack _). by vm_compute. Qed.

Lemma normalization_preserves_access_witness :
  let normalized := normalize_wildcard_grants reader_grants reader_inventory [reader_pattern] in
  can_access normalized reader_inventory (Grantee.Role "reader") ObjectType.Table "app" "users"
    Privilege.Select ↔
  can_access reader_grants reader_inventory (Grantee.Role "reader") ObjectType.Table "app" "users"
    Privilege.Select.
Proof.
  apply (normalization_preserves_access reader_grants reader_inventory [reader_pattern]); [| | |done].
  - apply NoDup_singleton.
  - intros scope. unfold objects, reader_inventory.
    destruct (decide ((ObjectType.Table, "app") = scope)) as [<-|]; simplify_map_eq; set_solver.
  - intros [r t s n]; cbn; intros ->. unfold reader_grants, wildcard_object_key.
    rw !lookup_insert_ne //.
Defined.
