(* ===== verification/SnapshotFacts.v ===== *)
(** * Sharing a read: what a configuration sees of a wider snapshot

    The reads of [Snapshot] select rows, and the derivation selects from what was read; each
    lemma here says that one selection inside a wider one is itself.  Together:
    [shared_snapshot_is_invisible], what a configuration derives from the read over a union
    of scopes is what its own read would have given it. *)

From Stdlib Require Import Ascii.
From S2P Require Import Prelude BTree RustStr Types Guc Model Manifest Sql Ownership Desired Inspect Snapshot InspectFacts.

(** ** Folds of rows into maps of sets *)

Section extend.
Context {K A : Type} `{Countable K, Countable A}.

Definition extend_all (m : gmap K (gset A)) (l : list (K * A)) : gmap K (gset A) :=
  foldl (λ m e, entry_extend e.1 {[e.2]} m) m l.

Lemma extend_all_spec m l k p :
  p ∈ default ∅ (extend_all m l !! k) ↔ p ∈ default ∅ (m !! k) ∨ (k, p) ∈ l.
Proof.
  revert m. induction l as [|[k' a] l IH]=> m /=.
  { split; [by left|]. by intros [?|?%not_elem_of_nil]. }
  rw IH elem_of_cons. unfold entry_extend. destruct (decide (k = k')) as [->|Hne]; simplify_map_eq.
  - set_solver.
  - naive_solver.
Qed.

Lemma extend_all_Some m l k :
  is_Some (extend_all m l !! k) ↔ is_Some (m !! k) ∨ ∃ p, (k, p) ∈ l.
Proof.
  revert m. induction l as [|[k' a] l IH]=> m /=.
  { split; [by left|]. by intros [?|[? ?%not_elem_of_nil]]. }
  rw IH. setoid_rewrite elem_of_cons. unfold entry_extend.
  destruct (decide (k = k')) as [->|Hne]; simplify_map_eq; naive_solver.
Qed.

(** The entry of a key depends on the rows of that key. *)
Lemma extend_all_agree l1 l2 k :
  (∀ p, (k, p) ∈ l1 ↔ (k, p) ∈ l2) → extend_all ∅ l1 !! k = extend_all ∅ l2 !! k.
Proof.
  intros Hl. assert (is_Some (extend_all ∅ l1 !! k) ↔ is_Some (extend_all ∅ l2 !! k)) as Hi.
  { rw !extend_all_Some. by setoid_rewrite Hl. }
  assert (default ∅ (extend_all ∅ l1 !! k) = default ∅ (extend_all ∅ l2 !! k)) as Hd.
  { apply set_eq. intros p. by rw !extend_all_spec Hl. }
  destruct (extend_all ∅ l1 !! k), (extend_all ∅ l2 !! k); cbn in *; try by subst.
  - by destruct Hi as [[] _].
  - by destruct Hi as [_ []].
Qed.
End extend.

Lemma foldl_omap {A B C} (f : C → B → C) (g : A → option B) acc (l : list A) :
  foldl (λ acc x, match g x with Some y => f acc y | None => acc end) acc l = foldl f acc (omap g l).
Proof. revert acc. induction l as [|x l IH]=> acc //=. rw IH. by destruct (g x). Qed.

Lemma filter_omap_agree {A B} (P : B → Prop) `{∀ y, Decision (P y)} (f g : A → option B) (l : list A) :
  (∀ x y, x ∈ l → P y → f x = Some y ↔ g x = Some y) → filter P (omap f l) = filter P (omap g l).
Proof.
  induction l as [|x l IH]=> Hfg //=.
  assert (filter P (omap f l) = filter P (omap g l)) as IHl by (apply IH; intros; apply Hfg; [by right|done]).
  destruct (f x) as [y|] eqn:Hf, (g x) as [z|] eqn:Hg; rw ?filter_cons ?IHl; try done.
  - destruct (decide (P y)) as [Hy|Hy].
    + assert (g x = Some y) as Hz by by apply (Hfg x y (list_elem_of_here _ _)).
      assert (y = z) as -> by congruence. by rw decide_True.
    + rw decide_False; [done|]. intros Hz. apply Hy.
      assert (f x = Some z) by by apply (Hfg x z (list_elem_of_here _ _)). by simplify_eq.
  - rw decide_False //. intros Hy. apply (Hfg x y (list_elem_of_here _ _) Hy) in Hf. congruence.
  - rw decide_False //. intros Hz. apply (Hfg x z (list_elem_of_here _ _) Hz) in Hg. congruence.
Qed.

(** [map_collect] looks up the last binding of a key. *)
Lemma map_collect_agree {K V} `{Countable K} (l1 l2 : list (K * V)) k :
  filter (λ e, e.1 = k) l1 = filter (λ e, e.1 = k) l2 → map_collect l1 !! k = map_collect l2 !! k.
Proof.
  assert (∀ (l : list (K * V)) (m : gmap K V), foldl (λ m p, <[p.1 := p.2]> m) m l !! k =
            default (m !! k) (Some <$> last (filter (λ e, e.1 = k) l).*2)) as Hl.
  { induction l as [|[k' v] l IH]=> m //=. rw IH filter_cons. cbn. case_decide; simplify_eq.
    - rw lookup_insert_eq. cbn. by destruct (last _) eqn:Hx; rw last_cons Hx.
    - by rw lookup_insert_ne. }
  intros Hf. unfold map_collect. by rw !Hl Hf.
Qed.

Lemma first_outside_None {A} `{Countable A} (l : list A) (X : gset A) :
  first_outside l X = None ↔ ∀ x, x ∈ l → x ∈ X.
Proof.
  unfold first_outside. split.
  - intros Hn x Hx. apply list_elem_of_In in Hx. eapply List.find_none in Hn; [|done].
    by destruct (bool_decide_reflect (x ∈ X)).
  - intros Hl. destruct (List.find _ l) as [x|] eqn:Hf; [|done].
    apply List.find_some in Hf as [Hx%list_elem_of_In Hn]. apply Hl in Hx.
    by rw bool_decide_true in Hn.
Qed.

(** ** What a covering read contains *)

Lemma head_omap_None {A} (l : list (option A)) : head (omap id l) = None ↔ Forall (λ x, x = None) l.
Proof.
  induction l as [|[a|] l IH]; cbn.
  - split; [constructor|done].
  - split; [done|]. by intros [? _]%Forall_cons.
  - rw IH Forall_cons. naive_solver.
Qed.

Record Within (S C : InspectConfig) : Prop := {
  wi_targets : routine_targets C ⊆ routine_targets S;
  wi_database : ic_include_database_privileges C = true → ic_include_database_privileges S = true;
  wi_database_targets : ∀ x, x ∈ ic_database_targets C → x ∈ ic_database_targets S;
  wi_roles : ∀ x, x ∈ ic_managed_roles C → x ∈ ic_managed_roles S;
  wi_grantors : ∀ x, x ∈ ic_membership_grantors C →
                     x ∈ ic_membership_grantors S ∨ x ∈ ic_managed_roles S;
  wi_schemas : ∀ x, x ∈ ic_managed_schemas C → x ∈ ic_managed_schemas S;
  wi_privilege_schemas : ∀ x, x ∈ ic_privilege_schemas C → x ∈ ic_privilege_schemas S;
  wi_wildcards : wildcard_scopes_of (ic_wildcard_grants C) ⊆ wildcard_scopes_of (ic_wildcard_grants S);
  wi_public : ∀ x, x ∈ public_target <$> ic_public_object_scopes C →
                   x ∈ public_target <$> ic_public_object_scopes S;
  wi_defaults : ∀ x, x ∈ ic_default_priv_scopes C → x ∈ ic_default_priv_scopes S;
}.

Lemma missing_target_None self C : missing_target self C = None ↔ routine_targets C ⊆ rc_targets self.
Proof.
  unfold missing_target. destruct (set_iter _) as [|x l] eqn:Hx; cbn.
  - apply set_iter_nil in Hx. split; [set_solver|done].
  - split; [done|]. intros Hsub. assert (x ∈ set_iter (routine_targets C ∖ rc_targets self)) as Hin.
    { rw Hx. left. } rw elem_of_set_iter in Hin. set_solver.
Qed.

Lemma uncovered_None raw C :
  rc_targets (ri_routines raw) = routine_targets (ri_scope raw) →
  uncovered_axis raw C = None ↔ Within (ri_scope raw) C.
Proof.
  intros Ht. unfold uncovered_axis. rw head_omap_None !Forall_cons Forall_nil !fmap_None
    missing_target_None !first_outside_None Ht. unfold names.
  setoid_rewrite elem_of_union. setoid_rewrite elem_of_list_to_set. setoid_rewrite elem_of_set_iter.
  split.
  - intros (H1 & H2 & ? & ? & ? & ? & ? & ? & ? & ? & _). split; try done.
    + intros Hc. rw Hc in H2. by destruct (ic_include_database_privileges (ri_scope raw)).
    + intros x Hx. unfold wildcard_scopes_of. rw elem_of_list_to_set. naive_solver.
  - intros []. split_and!; try done.
    + destruct (ic_include_database_privileges C); [|done]. by rw wi_database0.
    + intros x Hx%wi_wildcards0. unfold wildcard_scopes_of in Hx. by rw elem_of_list_to_set in Hx.
Qed.

(** A union covers each of its members. *)
Lemma in_sorted_bind {B} (f : B → list string) (l : list B) b x :
  b ∈ l → x ∈ f b → x ∈ sorted_set (l ≫= f).
Proof.
  intros Hb Hx. unfold sorted_set. rw elem_of_set_iter elem_of_list_to_set list_elem_of_bind. by exists b.
Qed.

Lemma extend_fold_lookup {K A B} `{Countable K, Countable A} (f : B → K) (g : B → gset A) l
    (m : gmap K (gset A)) k :
  is_Some (foldl (λ m b, entry_extend (f b) (g b) m) m l !! k) ↔ is_Some (m !! k) ∨ k ∈ f <$> l.
Proof.
  revert m. induction l as [|b l IH]=> m /=; [set_solver|].
  rw IH elem_of_cons. unfold entry_extend.
  destruct (decide (k = f b)) as [->|Hne]; simplify_map_eq; naive_solver.
Qed.

Lemma union_within cs C : C ∈ cs → Within (union_of cs) C.
Proof.
  intros HC. split; cbn; try (intros x Hx; by eapply in_sorted_bind).
  - intros t. unfold routine_targets. cbn. rw !elem_of_list_to_set !list_elem_of_omap.
    intros (g & Hg & ?). exists g. split; [|done]. apply list_elem_of_bind. by exists C.
  - intros Hd. apply existsb_exists. exists C. by rw -list_elem_of_In.
  - intros x Hx. left. by eapply in_sorted_bind.
  - intros [t s]. unfold wildcard_scopes_of. rw !elem_of_list_to_set !list_elem_of_fmap.
    intros (w & [= -> ->] & [Hw Hin]%list_elem_of_filter).
    destruct (foldl union_wildcard ∅ (cs ≫= ic_wildcard_grants) !!
                (wg_role w, (wg_object_type w, wg_schema w))) as [X|] eqn:Hk.
    + exists {| wg_role := wg_role w; wg_object_type := wg_object_type w; wg_schema := wg_schema w;
                wg_privileges := X |}.
      split; [done|]. apply list_elem_of_filter. split; [done|]. unfold wildcard_list.
      apply list_elem_of_fmap. exists (wg_role w, (wg_object_type w, wg_schema w), X). split; [done|].
      by apply elem_of_map_iter.
    + exfalso. apply eq_None_not_Some in Hk. apply Hk, extend_fold_lookup. right.
      apply list_elem_of_fmap. exists w. split; [done|]. apply list_elem_of_bind. by exists C.
  - intros x (s & -> & Hs)%list_elem_of_fmap.
    destruct (foldl union_public ∅ (cs ≫= ic_public_object_scopes) !! public_target s) as [X|] eqn:Hk.
    + apply list_elem_of_fmap. eexists. split; [|apply list_elem_of_fmap; exists (public_target s, X);
        split; [reflexivity|by apply elem_of_map_iter]]. done.
    + exfalso. apply eq_None_not_Some in Hk. apply Hk, extend_fold_lookup. right.
      apply list_elem_of_fmap. exists s. split; [done|]. apply list_elem_of_bind. by exists C.
  - intros x Hx. rw elem_of_set_iter elem_of_list_to_set list_elem_of_bind. by exists C.
Qed.

(** ** Routine targets *)

Lemma signature_not_star a b : a +:+ "(" +:+ b +:+ ")" ≠ "*".
Proof. intros Heq. apply (f_equal String.length) in Heq. rw !str_length_app in Heq. cbn in Heq. lia. Qed.

Lemma aliases_agree rows schema name (P : CatalogRoutine → Prop) `{∀ p, Decision (P p)} m1 m2 :
  (∀ p, p ∈ rows → ct_pronamespace p = schema → P p) →
  m1 !! (schema, name) = m2 !! (schema, name) →
  foldl add_alias m1 (filter P rows) !! (schema, name) = foldl add_alias m2 rows !! (schema, name).
Proof.
  revert m1 m2. induction rows as [|p rows IH]=> m1 m2 HP Hm //=.
  assert (∀ p', p' ∈ rows → ct_pronamespace p' = schema → P p') by (intros; apply HP; [by right|done]).
  rw filter_cons. case_decide as Hp; cbn.
  - apply IH; [done|]. unfold add_alias.
    destruct (decide ((ct_pronamespace p, canonical_signature p) = (schema, name))) as [->|];
      [by rw !lookup_insert_eq|rw !(lookup_insert_ne _ (ct_pronamespace p, canonical_signature p)) //].
    destruct (decide ((ct_pronamespace p, legacy_signature p) = (schema, name))) as [->|];
      [by rw !lookup_insert_eq|by rw !lookup_insert_ne].
  - apply IH; [done|]. rw Hm. unfold add_alias.
    assert (ct_pronamespace p ≠ schema) by (intros Hs; by apply Hp, HP; [left|]).
    rw !lookup_insert_ne //; naive_solver.
Qed.

Lemma aliases_star rows schema : foldl add_alias ∅ rows !! (schema, "*") = None.
Proof.
  assert (∀ m : gmap (string * string) string, m !! (schema, "*") = None →
            foldl add_alias m rows !! (schema, "*") = None) as Hm; [|by apply Hm].
  induction rows as [|p rows IH]=> m Hm //=. apply IH. unfold add_alias.
  rw !lookup_insert_ne //; intros [= _ Heq]; by eapply signature_not_star.
Qed.

Lemma candidates_agree (cat : Catalog) (T : gset (string * string)) (schema name : string) :
  schema ∈ (set_map fst T : gset string) →
  routine_candidates (routine_rows cat T) schema name = routine_candidates (ct_proc cat) schema name.
Proof.
  intros Hs. unfold routine_candidates. f_equal.
  assert (∀ l m, foldl (λ m p, entry_extend (ct_pronamespace p, ct_proname p) {[canonical_signature p]} m) m l =
            extend_all m ((λ p, ((ct_pronamespace p, ct_proname p), canonical_signature p)) <$> l)) as Hf.
  { induction l as [|p l IH]=> m //=. }
  rw !Hf. erewrite extend_all_agree; [done|]. intros p. rw !list_elem_of_fmap.
  unfold routine_rows. setoid_rewrite list_elem_of_filter. split; intros (q & [= -> -> ->] & Hq).
  - exists q. by destruct Hq.
  - by exists q.
Qed.

(** What one target resolves to, and the fold over targets. *)
Definition lookup_of (cat : Catalog) (key : string * string) : RoutineLookup :=
  ct_to_regproc cat (qualified_function_name key.1 key.2) (ends_with_paren key.2).
Definition resolved_alias (cat : Catalog) (base : gmap (string * string) string) (key : string * string) :
    option string :=
  match base !! key with
  | Some c => Some c
  | None => match lookup_of cat key with RoutineLookup.Found c => Some c | _ => None end
  end.
Definition resolved_failure (cat : Catalog) (rows : list CatalogRoutine)
    (base : gmap (string * string) string) (key : string * string) : option UnresolvedRoutine :=
  let candidates := routine_candidates rows key.1 key.2 in
  let failed failure := Some {| ur_failure := failure; ur_candidates := candidates |} in
  match base !! key with
  | Some _ => None
  | None =>
      match lookup_of cat key with
      | RoutineLookup.NotFound =>
          if negb (ends_with_paren key.2) && negb (bool_decide (candidates = []))
          then failed RoutineResolutionFailure.Ambiguous else failed RoutineResolutionFailure.Missing
      | RoutineLookup.SyntaxError => failed RoutineResolutionFailure.Unparseable
      | _ => None
      end
  end.

Lemma resolve_step cat rows a u key :
  u !! key = None →
  ((∃ acc, resolve_target cat rows (a, u) key = Ok acc) ↔
   (a !! key = None → lookup_of cat key ≠ RoutineLookup.Failed)) ∧
  ∀ acc, resolve_target cat rows (a, u) key = Ok acc →
    ∀ k, acc.1 !! k = (if decide (k = key) then resolved_alias cat a key else a !! k) ∧
         acc.2 !! k = (if decide (k = key) then resolved_failure cat rows a key else u !! k).
Proof.
  intros Hu. destruct key as [s n]. unfold resolve_target, resolved_alias, resolved_failure, lookup_of. cbn.
  destruct (a !! (s, n)) as [c|] eqn:Ha; cbn.
  { split; [naive_solver|]. intros _ [= <-] k. cbn. by case_decide; [subst; rw Ha Hu|]. }
  destruct (ct_to_regproc _ _ _) as [c| | |]; [| |split; [naive_solver|]|split; [naive_solver|done]].
  - split; [naive_solver|]. intros _ [= <-] k. cbn.
    case_decide; [subst; by rw lookup_insert_eq Hu|]. rw lookup_insert_ne; [done|congruence].
  - destruct (_ && _); (split; [naive_solver|]); intros _ [= <-] k; cbn;
      (destruct (decide (k = (s, n))) as [->|]; [by rw lookup_insert_eq Ha|]);
      (rw lookup_insert_ne; [done|congruence]).
  - intros _ [= <-] k; cbn.
    case_decide; [subst; by rw lookup_insert_eq Ha|]. rw lookup_insert_ne; [done|congruence].
Qed.

Lemma resolve_fold cat rows l a u :
  NoDup l → (∀ key, key ∈ l → u !! key = None) →
  ((∃ acc, fold_res (resolve_target cat rows) (a, u) l = Ok acc) ↔
   ∀ key, key ∈ l → a !! key = None → lookup_of cat key ≠ RoutineLookup.Failed) ∧
  ∀ acc, fold_res (resolve_target cat rows) (a, u) l = Ok acc →
    ∀ key, acc.1 !! key = (if decide (key ∈ l) then resolved_alias cat a key else a !! key) ∧
           acc.2 !! key = (if decide (key ∈ l) then resolved_failure cat rows a key else u !! key).
Proof.
  revert a u. induction l as [|key l IH]=> a u Hnd Hu; cbn [fold_res].
  { split; [set_solver|]. intros _ [= <-] key. by destruct (decide (key ∈ [])) as [?%not_elem_of_nil|]. }
  apply NoDup_cons in Hnd as [Hkey Hnd].
  destruct (resolve_step cat rows a u key) as [Hok Hstep]; [apply Hu; left|].
  destruct (resolve_target cat rows (a, u) key) as [acc| |] eqn:Hr; cbn.
  - specialize (Hstep acc eq_refl). destruct acc as [a' u']. cbn in Hstep.
    assert (∀ k, k ∈ l → a' !! k = a !! k) as Ha'.
    { intros k Hk. destruct (Hstep k) as [-> _]. by destruct (decide (k = key)) as [->|]. }
    destruct (IH a' u') as [IHok IHacc]; [done| |].
    { intros k Hk. destruct (Hstep k) as [_ ->]. destruct (decide (k = key)) as [->|]; [done|]. apply Hu. by right. }
    split.
    + rw IHok. split.
      * intros Hl k [->|Hk]%elem_of_cons; [apply Hok; by eexists|]. intros Hn. apply Hl; [done|].
        by rw Ha'.
      * intros Hl k Hk Hn. apply Hl; [by right|]. by rw -Ha'.
    + intros acc Hacc k. destruct (IHacc acc Hacc k) as [-> ->].
      destruct (decide (k ∈ l)) as [Hk|Hk].
      * destruct (decide (k ∈ key :: l)) as [_|Hn]; [|by destruct Hn; right].
        unfold resolved_alias, resolved_failure. by rw Ha'.
      * destruct (Hstep k) as [-> ->].
        destruct (decide (k = key)) as [Hd|Hd], (decide (k ∈ key :: l)) as [Hin|Hn]; subst; try done.
        -- by destruct Hn; left.
        -- by apply elem_of_cons in Hin as [].
  - split; [|done]. split; [by intros []|]. intros Hl. destruct Hok as [_ []]; [|done].
    apply Hl. left.
  - split; [|done]. split; [by intros []|]. intros Hl. destruct Hok as [_ []]; [|done].
    apply Hl. left.
Qed.

(** The catalog of any scope, in terms of all routines. *)
Definition all_aliases (cat : Catalog) : gmap (string * string) string := foldl add_alias ∅ (ct_proc cat).

Definition alias_in (cat : Catalog) (T : gset (string * string)) (key : string * string) : option string :=
  if decide (key ∈ T) then resolved_alias cat (all_aliases cat) key
  else if decide (key.1 ∈ (set_map fst T : gset string)) then all_aliases cat !! key else None.

Lemma base_alias (cat : Catalog) (T : gset (string * string)) (key : string * string) :
  foldl add_alias ∅ (routine_rows cat T) !! key =
    if decide (key.1 ∈ (set_map fst T : gset string)) then all_aliases cat !! key else None.
Proof.
  destruct key as [s n]. cbn. case_decide as Hs.
  - unfold routine_rows, all_aliases. apply aliases_agree; [|done]. by intros p _ ->.
  - unfold routine_rows.
    assert (∀ (l : list CatalogRoutine) (m : gmap (string * string) string),
      m !! (s, n) = None → foldl add_alias m (filter (λ p, ct_pronamespace p ∈ (set_map fst T : gset string)) l) !! (s, n) = None)
      as Hl; [|by apply Hl].
    induction l as [|p l IH]=> m Hm //=. rw filter_cons. case_decide as Hp; [|by apply IH].
    apply IH. unfold add_alias. rw !lookup_insert_ne //; intros [= <- _]; done.
Qed.

Lemma resolved_base (cat : Catalog) (T : gset (string * string)) key :
  key ∈ T →
  resolved_alias cat (foldl add_alias ∅ (routine_rows cat T)) key = resolved_alias cat (all_aliases cat) key ∧
  resolved_failure cat (routine_rows cat T) (foldl add_alias ∅ (routine_rows cat T)) key =
  resolved_failure cat (ct_proc cat) (all_aliases cat) key.
Proof.
  intros Hkey. assert (key.1 ∈ (set_map fst T : gset string)) as Hs by (apply elem_of_map; by exists key).
  unfold resolved_alias, resolved_failure. by rw base_alias decide_True // candidates_agree.
Qed.

Lemma read_routines_spec (cat : Catalog) (C : InspectConfig) :
  ((∃ rc, read_routines cat C = Ok rc) ↔
   ∀ key, key ∈ routine_targets C → all_aliases cat !! key = None →
          lookup_of cat key ≠ RoutineLookup.Failed) ∧
  ∀ rc, read_routines cat C = Ok rc →
    rc_targets rc = routine_targets C ∧
    ∀ key, rc_aliases rc !! key = alias_in cat (routine_targets C) key ∧
           rc_unresolved rc !! key = (if decide (key ∈ routine_targets C)
                                      then resolved_failure cat (ct_proc cat) (all_aliases cat) key else None).
Proof.
  unfold read_routines, alias_in. set (T := routine_targets C). case_decide as HT.
  { split; [rw HT; set_solver|]. intros _ [= <-]. split; [by rw HT|]. intros key.
    rw HT. destruct (decide (key ∈ ∅)) as [?%not_elem_of_empty|]; [done|].
    by destruct (decide (key.1 ∈ _)) as [(? & _ & ?%not_elem_of_empty)%elem_of_map|]. }
  destruct (resolve_fold cat (routine_rows cat T) (set_iter T) (foldl add_alias ∅ (routine_rows cat T)) ∅)
    as [Hok Hacc]; [apply NoDup_set_iter|done|].
  setoid_rewrite elem_of_set_iter in Hok. split.
  - split.
    + intros [rc (acc & Hf & _)%bind_Ok] key Hkey Hn. apply Hok; [by exists acc|done|].
      rw base_alias decide_True //. apply elem_of_map. by exists key.
    + intros Hl. destruct Hok as [_ [acc Hf]]; [|rw Hf; by eexists].
      intros key Hkey Hn. apply Hl; [done|]. rw base_alias decide_True // in Hn.
      apply elem_of_map. by exists key.
  - intros rc (acc & Hf & [= <-])%bind_Ok. split; [done|]. intros key. cbn.
    destruct (Hacc acc Hf key) as [-> ->].
    destruct (decide (key ∈ T)) as [Hk|Hk], (decide (key ∈ set_iter T)) as [Hi|Hi];
      rw elem_of_set_iter in Hi; try done.
    + by apply resolved_base.
    + by rw base_alias lookup_empty.
Qed.

(** ** One scope inside another *)

Lemma fold_res_ext {E A T} (f g : T → A → res E T) acc l :
  (∀ acc x, x ∈ l → f acc x = g acc x) → fold_res f acc l = fold_res g acc l.
Proof.
  revert acc. induction l as [|x l IH]=> acc Hl //=. rw (Hl acc x); [|left].
  destruct (g acc x) as [acc'| |]; cbn; [|done..]. apply IH. intros; apply Hl; by right.
Qed.

Lemma filter_refine {A} (P Q : A → Prop) `{∀ x, Decision (P x), ∀ x, Decision (Q x)} (l : list A) :
  (∀ x, P x → Q x) → filter P (filter Q l) = filter P l.
Proof.
  intros HPQ. induction l as [|x l IH]; [done|]. rw (filter_cons Q) (filter_cons P _ l).
  destruct (decide (Q x)) as [|Hn], (decide (P x)) as [Hp|]; rw ?filter_cons.
  - by rw decide_True // IH.
  - by rw decide_False.
  - by destruct Hn; apply HPQ.
  - done.
Qed.

Lemma elem_of_name_set l x : x ∈ names l ↔ x ∈ l.
Proof. apply elem_of_list_to_set. Qed.

Lemma names_mono l k : (∀ x, x ∈ l → x ∈ k) → names l ⊆ names k.
Proof. intros Hl x. rw !elem_of_name_set. apply Hl. Qed.

(** PUBLIC rules on routines are routine grants of the configuration. *)
Definition public_routines_resolved (C : InspectConfig) : Prop :=
  ∀ s schema name, s ∈ ic_public_object_scopes C → pos_object_type s = ObjectType.Function →
    pos_schema s = Some schema → pos_name s = Some name →
    name = "*" ∨ (schema, name) ∈ routine_targets C.

Lemma target_not_star C schema name : (schema, name) ∈ routine_targets C → name ≠ "*".
Proof.
  unfold routine_targets. rw elem_of_list_to_set list_elem_of_omap. intros (g & _ & Hg).
  unfold routine_target in Hg. destruct (ot_schema _); [|done]. destruct (ot_name _) as [n|]; [|done].
  cbn in Hg. destruct (String.eqb_spec n "*"); [done|]. by simplify_eq.
Qed.

Section within.
Context (cat : Catalog) (S C : InspectConfig) (rcS rcC : RoutineCatalog).
Context (HW : Within S C) (HrS : read_routines cat S = Ok rcS) (HrC : read_routines cat C = Ok rcC).

Lemma routines_agree schema name :
  name = "*" ∨ (schema, name) ∈ routine_targets C →
  rc_aliases rcS !! (schema, name) = rc_aliases rcC !! (schema, name) ∧
  rc_unresolved rcS !! (schema, name) = rc_unresolved rcC !! (schema, name).
Proof.
  destruct (proj2 (read_routines_spec cat S) _ HrS) as [_ HS].
  destruct (proj2 (read_routines_spec cat C) _ HrC) as [_ HC].
  destruct (HS (schema, name)) as [-> ->], (HC (schema, name)) as [-> ->]. unfold alias_in.
  intros Hn. destruct (decide ((schema, name) ∈ routine_targets C)) as [Ht|Ht].
  - destruct (decide ((schema, name) ∈ routine_targets S)) as [|Hs]; [done|].
    by destruct Hs; apply HW.
  - destruct Hn as [->|]; [|done].
    destruct (decide ((schema, "*") ∈ routine_targets S)) as [Hs|Hs]; [by apply target_not_star in Hs|].
    split; [|done]. unfold all_aliases. rw aliases_star. by repeat case_decide.
Qed.

Lemma aliases_extend : rc_aliases rcC ⊆ rc_aliases rcS.
Proof.
  apply map_subseteq_spec. intros [schema name] c.
  destruct (proj2 (read_routines_spec cat S) _ HrS) as [_ HS].
  destruct (proj2 (read_routines_spec cat C) _ HrC) as [_ HC].
  destruct (HS (schema, name)) as [-> _], (HC (schema, name)) as [-> _]. unfold alias_in.
  destruct (decide ((schema, name) ∈ routine_targets C)) as [Ht|Ht].
  - destruct (decide ((schema, name) ∈ routine_targets S)) as [|Hs]; [done|]. by destruct Hs; apply HW.
  - destruct (decide (_ ∈ set_map fst (routine_targets C))) as [(k & Hk & Hin)%elem_of_map|]; [|done].
    intros Ha. destruct (decide ((schema, name) ∈ routine_targets S)) as [|Hs].
    + unfold resolved_alias. by rw Ha.
    + destruct (decide (_ ∈ set_map fst (routine_targets S))) as [|Hn]; [done|].
      destruct Hn. apply elem_of_map. exists k. split; [done|]. by apply HW.
Qed.

Lemma validate_agree : validate_routines rcS C = validate_routines rcC C.
Proof.
  unfold validate_routines. erewrite fold_res_ext; [done|]. intros acc g Hg.
  unfold validate_routine_grant. destruct (ot_schema (gr_object g)) as [schema|] eqn:Hs; [|done].
  destruct (ot_name (gr_object g)) as [name|] eqn:Hn; [|done].
  unfold canonical_name.
  destruct (routines_agree schema name) as [-> ->]; [|done].
  destruct (decide (name = "*")) as [|Hne]; [by left|]. right. unfold routine_targets.
  apply elem_of_list_to_set, list_elem_of_omap. exists g. split; [done|]. unfold routine_target.
  rw Hs Hn. cbn. by destruct (String.eqb_spec name "*").
Qed.

Lemma public_agree :
  public_routines_resolved C → resolve_public_scopes rcS C = resolve_public_scopes rcC C.
Proof.
  intros HP. unfold resolve_public_scopes. f_equal. apply list_fmap_ext. intros i s Hs%list_elem_of_lookup_2.
  unfold resolve_public_scope. f_equal. destruct (pos_object_type s) eqn:Ht; try done.
  destruct (pos_schema s) as [schema|] eqn:Hsc; [|done]. destruct (pos_name s) as [name|] eqn:Hn; [|done].
  unfold canonical_name. destruct (routines_agree schema name) as [-> _]; [|done]. by eapply HP.
Qed.
End within.

(** ** Rows of roles *)

Lemma role_rows_agree obj_type namespace schema_name XS XC RS RC (l : list (CatalogObject * AclItem)) :
  XC ⊆ XS → RC ⊆ RS →
  (∀ o t item g, obj_type o = Some t →
     scoping_schema (acl_row g t (schema_name o) o item) = Some (namespace o)) →
  filter (row_in_scope XC RC) (omap (role_row obj_type namespace schema_name XS RS) l) =
  filter (row_in_scope XC RC) (omap (role_row obj_type namespace schema_name XC RC) l).
Proof.
  intros HX HR Hsc. apply filter_omap_agree. intros [o item] y _ Hy. unfold role_row. cbn.
  destruct (obj_type o) as [t|] eqn:Ht; [|done]. destruct (ai_grantee item) as [|r]; [done|].
  assert (y = acl_row (Some r) t (schema_name o) o item → namespace o ∈ XC ∧ r ∈ RC) as Hin.
  { intros ->. unfold row_in_scope in Hy. rw Hsc // in Hy. cbn in Hy.
    by apply andb_True in Hy as [?%bool_decide_unpack ?%bool_decide_unpack]. }
  unfold in_set. repeat case_bool_decide; cbn; split; intros [= Heq]; try (destruct (Hin (eq_sym Heq)));
    set_solver.
Qed.

Definition acl_rows (cat : Catalog) (schemas roles : gset string) : list AclRow :=
  fetch_relation_privileges cat schemas roles ++ fetch_schema_privileges cat schemas roles ++
  fetch_function_privileges cat schemas roles ++ fetch_type_privileges cat schemas roles.

Lemma acl_rows_agree cat XS XC RS RC :
  XC ⊆ XS → RC ⊆ RS →
  filter (row_in_scope XC RC) (acl_rows cat XS RS) = filter (row_in_scope XC RC) (acl_rows cat XC RC).
Proof.
  intros HX HR. unfold acl_rows. rw !filter_app. f_equal; [|f_equal; [|f_equal]]; apply role_rows_agree; try done.
  - intros o t item g. unfold relation_kind, relation_type. repeat case_match; intros; simplify_eq; done.
  - by intros o t item g [= <-].
  - by intros o t item g [= <-].
  - intros o t item g. unfold type_type. case_match; intros; simplify_eq; done.
Qed.

(** ** Rows of PUBLIC *)

Definition public_within (X scopes : list PublicObjectScope) : Prop :=
  ∀ s, s ∈ scopes → ∃ s', s' ∈ X ∧ pos_object_type s' = pos_object_type s ∧
    pos_schema s' = pos_schema s ∧ (pos_object_type s = ObjectType.Schema → pos_name s' = pos_name s).

Lemma covered_scope scopes row :
  is_Some (public_privilege scopes row) →
  ∃ t s, obj_type_str_to_object_type (acl_obj_type row) = Some t ∧ s ∈ scopes ∧ pos_object_type s = t ∧
    match t with
    | ObjectType.Schema => pos_name s = Some (acl_object_name row)
    | ObjectType.Database => True
    | _ => pos_schema s = acl_schema_name row
    end.
Proof.
  unfold public_privilege. intros [y Hy].
  apply bind_Some in Hy as (p & _ & (t & Ht & Hy)%bind_Some).
  destruct (public_scopes_cover _ _ _ _ _) eqn:Hc; [|done]. clear Hy.
  unfold public_scopes_cover in Hc. apply existsb_exists in Hc as (s & Hs%list_elem_of_In & Hc).
  exists t, s. unfold public_scope_covers in Hc.
  apply andb_prop in Hc as [[Ht' _]%andb_prop Hc]. apply bool_decide_eq_true in Ht'.
  split_and!; [done..|]. destruct t; try done;
    try (by apply andb_prop in Hc as [Hc%bool_decide_eq_true _]). by apply bool_decide_eq_true in Hc.
Qed.

Lemma public_family obj_type schema_name selX selY scopes (l : list (CatalogObject * AclItem)) :
  (∀ o item t, obj_type o = Some t →
     is_Some (public_privilege scopes (acl_row None t (schema_name o) o item)) →
     selX o = true ∧ selY o = true) →
  filter (λ r, is_Some (public_privilege scopes r)) (omap (public_row obj_type schema_name selX) l) =
  filter (λ r, is_Some (public_privilege scopes r)) (omap (public_row obj_type schema_name selY) l).
Proof.
  intros Hsel. apply filter_omap_agree. intros [o item] y _ Hy. unfold public_row. cbn.
  destruct (obj_type o) as [t|] eqn:Ht; [|done]. destruct (ai_grantee item) as [|]; [|done].
  assert (y = acl_row None t (schema_name o) o item → selX o = true ∧ selY o = true) as Hin.
  { intros ->. by eapply Hsel. }
  destruct (selX o) eqn:HX, (selY o) eqn:HY; try done; split; intros [= Heq];
    by destruct (Hin (eq_sym Heq)).
Qed.

Lemma in_scope_schemas p X s schema :
  s ∈ X → p (pos_object_type s) = true → pos_schema s = Some schema → in_set schema (scope_schemas p X) = true.
Proof.
  intros Hs Hp Hsc. apply bool_decide_eq_true, elem_of_list_to_set, list_elem_of_omap. exists s.
  split; [|done]. apply list_elem_of_filter. by rw Hp.
Qed.

(** The selections of two reads agree where a covering scope decides. *)
Lemma in_both X Y scopes s p schema :
  public_within X scopes → public_within Y scopes → s ∈ scopes → p (pos_object_type s) = true →
  pos_schema s = Some schema →
  in_set schema (scope_schemas p X) = true ∧ in_set schema (scope_schemas p Y) = true.
Proof.
  intros HX HY Hs Hp Hsc. destruct (HX s Hs) as (x & ? & Hx & ? & _), (HY s Hs) as (y & ? & Hy & ? & _).
  split; eapply in_scope_schemas; try done; congruence.
Qed.

Lemma public_rows_agree cat X Y scopes :
  public_within X scopes → public_within Y scopes →
  filter (λ r, is_Some (public_privilege scopes r)) (read_raw_public_privileges cat X) =
  filter (λ r, is_Some (public_privilege scopes r)) (read_raw_public_privileges cat Y).
Proof.
  intros HX HY. unfold read_raw_public_privileges. rw !filter_app.
  f_equal; [|f_equal; [|f_equal; [|f_equal]]].
  - apply public_family. intros o item t Ht (u & s & Hu & Hs & Hty & Hc)%covered_scope. cbn in *.
    assert (is_relation u = true ∧ pos_schema s = Some (co_namespace o)) as [Hr Hsc].
    { revert Ht Hu Hc. unfold relation_kind, relation_type. clear.
      repeat case_match; intros; simplify_eq; cbn in *; simplify_eq; done. }
    apply (in_both X Y scopes s is_relation); try done; by rw Hty.
  - apply public_family. intros o item t [= <-] (u & s & [= <-] & Hs & Hty & Hc)%covered_scope.
    apply (in_both X Y scopes s (is_type ObjectType.Function)); try done; by rw Hty.
  - apply public_family. intros o item t Ht (u & s & Hu & Hs & Hty & Hc)%covered_scope. cbn in *.
    assert (is_type ObjectType.Type_ u = true ∧ pos_schema s = Some (co_namespace o)) as [Hr Hsc].
    { revert Ht Hu Hc. unfold type_type. clear. case_match; intros; simplify_eq; cbn in *; by simplify_eq. }
    apply (in_both X Y scopes s (is_type ObjectType.Type_)); try done; by rw Hty.
  - apply public_family. intros o item t [= <-] (u & s & [= <-] & Hs & Hty & Hc)%covered_scope. cbn in *.
    assert (∀ Z, public_within Z scopes → in_set (co_name o) (scope_schema_names Z) = true) as Hz; [|by split; apply Hz].
    intros Z HZ. destruct (HZ s Hs) as (z & Hz & Hzt & _ & Hzn). rw Hty in Hzt.
    apply bool_decide_eq_true, elem_of_list_to_set, list_elem_of_omap. exists z. split.
    + apply list_elem_of_filter. split; [|done]. by rw Hzt.
    + by rw Hzn.
  - assert (∀ Z, public_database_rows cat Z =
        omap (public_row (const (Some "database")) (const None)
                (const (existsb (λ s, is_type ObjectType.Database (pos_object_type s)) Z)))
          (with_entries (effective_acl cat (const "d")) [ct_database cat])) as Hdb.
    { intros Z. unfold public_database_rows. destruct (existsb _ Z); [done|]. symmetry.
      induction (with_entries _ _) as [|[o item] l IH]; [done|]. cbn.
      by destruct (ai_grantee item). }
    rw !Hdb. apply public_family. intros o item t [= <-] (u & s & [= <-] & Hs & Hty & _)%covered_scope.
    assert (∀ Z, public_within Z scopes →
      existsb (λ s, is_type ObjectType.Database (pos_object_type s)) Z = true) as Hz; [|by split; apply Hz].
    intros Z HZ. destruct (HZ s Hs) as (z & Hz & Hzt & _). apply existsb_exists. exists z.
    rw -list_elem_of_In. split; [done|]. by rw Hzt Hty.
Qed.

Lemma public_noop scopes acc rows :
  foldl (public_step scopes) acc rows =
  foldl (public_step scopes) acc (filter (λ r, is_Some (public_privilege scopes r)) rows).
Proof.
  revert acc. induction rows as [|row rows IH]=> acc //=. rw filter_cons IH. clear IH.
  unfold public_step at 2. destruct (public_privilege scopes row) as [[p key]|] eqn:Hp.
  - destruct (decide (is_Some (Some (p, key)))) as [_|Hn]; [|by destruct Hn]. cbn.
    f_equal. unfold public_step. by rw Hp.
  - by destruct (decide (is_Some None)) as [[? [=]]|].
Qed.

Lemma derive_public_agree cat X Y scopes :
  public_within X scopes → public_within Y scopes →
  derive_public_privileges (read_raw_public_privileges cat X) scopes =
  derive_public_privileges (read_raw_public_privileges cat Y) scopes.
Proof.
  intros HX HY. unfold derive_public_privileges. rw public_noop (public_noop _ _ (read_raw_public_privileges cat Y)).
  by rw (public_rows_agree cat X Y).
Qed.

(** ** Inventories *)

Lemma from_wildcards_Some ws k : is_Some (from_wildcards ws !! k) ↔ k ∈ wildcard_scopes_of ws.
Proof.
  unfold from_wildcards, wildcard_scopes_of. rw elem_of_list_to_set list_elem_of_fmap.
  setoid_rewrite list_elem_of_filter.
  assert (∀ m : WildcardScopeFilter, is_Some (foldl (λ m w, if is_container (wg_object_type w) then m
                else entry_extend (wg_object_type w, wg_schema w) (wg_privileges w) m) m ws !! k) ↔
    is_Some (m !! k) ∨ ∃ w, k = (wg_object_type w, wg_schema w) ∧ negb (is_container (wg_object_type w)) ∧ w ∈ ws) as Hf.
  { induction ws as [|w ws IH]=> m /=.
    { split; [by left|]. intros [?|(? & _ & _ & ?%not_elem_of_nil)]; done. }
    rw IH. setoid_rewrite elem_of_cons. destruct (is_container (wg_object_type w)) eqn:Hc.
    - split; [naive_solver|]. intros [?|(w' & -> & Hw & [->|?])]; [by left|by rw Hc in Hw|naive_solver].
    - unfold entry_extend. destruct (decide (k = (wg_object_type w, wg_schema w))) as [->|Hne]; simplify_map_eq.
      + split; [|naive_solver]. intros _. right. exists w. by rw Hc; auto.
      + naive_solver. }
  rw Hf lookup_empty. split; [intros [[? [=]]|?]; done|by right].
Qed.

Lemma wildcard_scopes_not_container ws k : k ∈ wildcard_scopes_of ws → is_container k.1 = false.
Proof.
  unfold wildcard_scopes_of. rw elem_of_list_to_set list_elem_of_fmap.
  intros (w & -> & [Hw _]%list_elem_of_filter). cbn. by destruct (is_container _).
Qed.

Lemma from_scopes_Some X k :
  from_scopes X !! k = if decide (k ∈ X ∧ is_container k.1 = false) then Some all_privileges else None.
Proof.
  unfold from_scopes, map_collect.
  assert (∀ l (m : WildcardScopeFilter), (m !! k = None ∨ m !! k = Some all_privileges) →
    foldl (λ m p, <[p.1 := p.2]> m) m ((λ scope, (scope, all_privileges)) <$> l) !! k =
      if decide (k ∈ l) then Some all_privileges else m !! k) as Hf.
  { induction l as [|x l IH]=> m Hm; cbn [fmap list_fmap foldl fst snd].
    { by destruct (decide (k ∈ [])) as [?%not_elem_of_nil|]. }
    rw IH; [|destruct (decide (x = k)) as [->|]; simplify_map_eq; auto].
    destruct (decide (k ∈ l)) as [Hl|Hl], (decide (k ∈ x :: l)) as [Hxl|Hxl]; try done.
    - by destruct Hxl; right.
    - apply elem_of_cons in Hxl as [->|]; [by simplify_map_eq|done].
    - rw lookup_insert_ne; [done|]. intros ->. destruct Hxl. left. }
  rw Hf; [|by left]. destruct (decide (k ∈ filter _ _)) as [Hk|Hk], (decide (k ∈ X ∧ _)) as [Hx|Hx];
    rw list_elem_of_filter elem_of_set_iter in Hk; try done; exfalso; destruct (is_container k.1); naive_solver.
Qed.

Lemma inventory_agree cat X Y k :
  k ∈ X → k ∈ Y →
  fetch_object_inventory_for_wildcards cat (from_scopes X) !! k =
  fetch_object_inventory_for_wildcards cat (from_scopes Y) !! k.
Proof.
  intros HX HY. unfold fetch_object_inventory_for_wildcards.
  assert (∀ l (m : Inventory), foldl (λ m e, entry_extend e.1 {[co_name e.2]} m) m l =
            extend_all m ((λ e : (ObjectType * string) * CatalogObject, (e.1, co_name e.2)) <$> l)) as Hf.
  { induction l as [|e l IH]=> m //=. }
  rw !Hf. apply extend_all_agree. intros p. rw !list_elem_of_fmap. setoid_rewrite list_elem_of_omap.
  assert (is_Some (from_scopes X !! k) ↔ is_Some (from_scopes Y !! k)) as Hs.
  { rw !from_scopes_Some. destruct (decide (k ∈ X ∧ _)), (decide (k ∈ Y ∧ _)); naive_solver. }
  split; intros (e & [= -> ->] & x & Hx & He); exists e; (split; [done|]); exists x; (split; [done|]);
    unfold wildcard_object in *; destruct (obj_type_str_to_object_type x.1) as [t|]; cbn in *; try done;
    repeat case_bool_decide; simplify_eq/=; naive_solver.
Qed.

(** ** Derivations *)

Lemma derive_privileges_agree raw1 raw2 schemas roles ws scopes :
  filter (row_in_scope schemas roles) (rp_acl_rows raw1) =
    filter (row_in_scope schemas roles) (rp_acl_rows raw2) →
  (∀ k, k ∈ wildcard_scopes_of ws → rp_inventory raw1 !! k = rp_inventory raw2 !! k) →
  (scopes ≠ [] → derive_public_privileges (rp_public_acl_rows raw1) scopes =
                 derive_public_privileges (rp_public_acl_rows raw2) scopes) →
  derive_privileges raw1 schemas roles ws scopes = derive_privileges raw2 schemas roles ws scopes.
Proof.
  intros Hrows Hinv Hpub. unfold derive_privileges. rw Hrows.
  assert (filter (λ e : (ObjectType * string) * gset string, is_Some (from_wildcards ws !! e.1)) (rp_inventory raw1) =
          filter (λ e : (ObjectType * string) * gset string, is_Some (from_wildcards ws !! e.1)) (rp_inventory raw2)) as ->.
  { apply map_eq. intros k. apply option_eq. intros X. rw !map_lookup_filter_Some. cbn.
    rw from_wildcards_Some. split; intros [Hk Hw]; (split; [|done]); [rw -Hinv|rw Hinv]; done. }
  destruct (decide (scopes = [])); [done|]. by rw Hpub.
Qed.

Lemma unsatisfied_scopes grants inventory ws :
  wildcard_scopes_of (unsatisfied_wildcard_grants grants inventory ws) ⊆ wildcard_scopes_of ws.
Proof.
  intros k. unfold wildcard_scopes_of. rw !elem_of_list_to_set !list_elem_of_fmap.
  intros (u & -> & [Hc (w & Hw & Hu)%list_elem_of_omap]%list_elem_of_filter).
  apply unsatisfied_spec in Hu as ([= Hr Ht Hs] & _). exists w. rw Ht Hs. split; [done|].
  apply list_elem_of_filter. by rw -Ht.
Qed.

Lemma scoped_grantability_agree cat X Y ws :
  wildcard_scopes_of ws ⊆ X → wildcard_scopes_of ws ⊆ Y →
  scoped_grantability (from_wildcards ws) (read_raw_grantability cat X) =
  scoped_grantability (from_wildcards ws) (read_raw_grantability cat Y).
Proof.
  intros HX HY. unfold scoped_grantability. apply map_eq. intros k. rw !map_lookup_imap.
  destruct (from_wildcards ws !! (k.1, k.2.1)) as [needs|] eqn:Hk;
    [|by destruct (rg_rows _ !! k), (rg_rows _ !! k)].
  assert ((k.1, k.2.1) ∈ wildcard_scopes_of ws) as Hin by by apply from_wildcards_Some; rw Hk.
  assert (from_scopes X !! (k.1, k.2.1) = from_scopes Y !! (k.1, k.2.1)) as Hs.
  { apply wildcard_scopes_not_container in Hin as Hc. cbn in Hc. rw !from_scopes_Some.
    destruct (decide ((k.1, k.2.1) ∈ X ∧ _)) as [_|Hn]; [|by destruct Hn; split; [apply HX|]].
    by destruct (decide ((k.1, k.2.1) ∈ Y ∧ _)) as [_|Hn]; [|destruct Hn; split; [apply HY|]]. }
  f_equal. cbn. unfold fetch_wildcard_grantability. apply map_collect_agree, filter_omap_agree.
  intros x y _ Hy. unfold grantability_entry.
  destruct (obj_type_str_to_object_type x.1) as [t|]; cbn; [|done].
  destruct (decide ((t, co_namespace x.2) = (k.1, k.2.1))) as [->|Hne].
  { by rw Hs. }
  split; intros Hb; exfalso; apply bind_Some in Hb as (n & _ & [= <-]); cbn in Hy; subst k; done.
Qed.

Lemma finish_agree cat X Y d :
  wildcard_scopes_of (dv_unsatisfied d) ⊆ X → wildcard_scopes_of (dv_unsatisfied d) ⊆ Y →
  finish d (Some (read_raw_grantability cat X)) = finish d (Some (read_raw_grantability cat Y)).
Proof.
  intros HX HY. unfold finish. destruct (dv_unsatisfied d) as [|u us]; [done|].
  by rw (scoped_grantability_agree cat X Y).
Qed.

Lemma derived_unsatisfied raw schemas roles ws scopes :
  wildcard_scopes_of (dv_unsatisfied (derive_privileges raw schemas roles ws scopes)) ⊆ wildcard_scopes_of ws.
Proof.
  unfold derive_privileges. destruct (if decide _ then _ else _). cbn.
  destruct (negb _); [apply unsatisfied_scopes|]. by intros k ?%elem_of_empty.
Qed.

(** The cache holds the one read of the snapshot's whole scope, or nothing. *)
Definition cache_of (cat : Catalog) (raw : RawInspection) (cache : option RawGrantability) : Prop :=
  cache = None ∨
  cache = Some (read_raw_grantability cat (wildcard_scopes_of (ic_wildcard_grants (ri_scope raw)))).

Lemma derive_objects_agree cat raw own C cache :
  cache_of cat raw cache →
  wildcard_scopes_of (ic_wildcard_grants C) ⊆ wildcard_scopes_of (ic_wildcard_grants (ri_scope raw)) →
  wildcard_scopes_of (ic_wildcard_grants C) ⊆ wildcard_scopes_of (ic_wildcard_grants (ri_scope own)) →
  (ic_privilege_schemas C ≠ [] ∨ ic_public_object_scopes C ≠ [] →
   derive_privileges (ri_privileges raw) (names (ic_privilege_schemas C)) (names (ic_managed_roles C))
     (ic_wildcard_grants C) (ic_public_object_scopes C) =
   derive_privileges (ri_privileges own) (names (ic_privilege_schemas C)) (names (ic_managed_roles C))
     (ic_wildcard_grants C) (ic_public_object_scopes C)) →
  (derive_objects cat raw C cache).1 = (derive_objects cat own C None).1 ∧
  cache_of cat raw (derive_objects cat raw C cache).2.
Proof.
  intros Hcache HS HC Hd. unfold derive_objects. destruct (_ && _) eqn:He; [done|].
  rw -Hd; [|apply andb_false_iff in He as [?%bool_decide_eq_false|?%bool_decide_eq_false]; auto].
  pose proof (derived_unsatisfied (ri_privileges raw) (names (ic_privilege_schemas C))
    (names (ic_managed_roles C)) (ic_wildcard_grants C) (ic_public_object_scopes C)) as Hu.
  revert Hu. generalize (derive_privileges (ri_privileges raw) (names (ic_privilege_schemas C))
    (names (ic_managed_roles C)) (ic_wildcard_grants C) (ic_public_object_scopes C)). intros d Hu.
  assert (grantability cat raw cache =
          read_raw_grantability cat (wildcard_scopes_of (ic_wildcard_grants (ri_scope raw)))) as Hg
    by by destruct Hcache as [->| ->].
  destruct (dv_unsatisfied d) as [|u us] eqn:Hus; [done|]. rw -Hus in Hu. cbn [fst snd]. rw Hg. split; [|by right].
  apply finish_agree; by etrans.
Qed.

(** ** Default privileges *)

Definition scope_schema (scope : DefaultPrivilegeScope) : option string :=
  match scope with DefaultPrivilegeScope.Schema s => Some s | DefaultPrivilegeScope.Global => None end.

Lemma default_row_Some roles scopes row key p :
  default_row roles scopes row = Some (key, p) ↔
  dr_owner_name row = dk_owner key ∧ dr_schema_name row = scope_schema (dk_scope key) ∧
  defacl_obj_type_to_object_type (dr_obj_type_char row) = Some (dk_on_type key) ∧
  acl_char_to_privilege (dr_privilege_type row) = Some p ∧
  default_grantee roles scopes row (dk_on_type key) p = Some (dk_grantee key).
Proof.
  unfold default_row. destruct (acl_char_to_privilege _) as [q|]; cbn; [|split; [done|naive_solver]].
  destruct (defacl_obj_type_to_object_type _) as [t|]; cbn; [|split; [done|naive_solver]].
  destruct key as [o s t' g]; cbn. split.
  - intros (g' & Hg & [= <- <- <- <- <-])%bind_Some. split_and!; try done. by destruct (dr_schema_name row).
  - intros (<- & Hs & [= <-] & [= <-] & Hg). rw Hg. cbn. rw Hs. by destruct s.
Qed.

Lemma fetch_defaults_spec cat schemas roles scopes :
  fetch_default_privileges cat schemas roles scopes =
  extend_all ∅ (omap (default_row roles scopes) (default_rows cat schemas scopes)).
Proof.
  unfold fetch_default_privileges. generalize (∅ : gmap DefaultPrivKey DefaultPrivState).
  induction (default_rows _ _ _) as [|row l IH]=> m //=. rw IH. unfold default_step.
  by destruct (default_row roles scopes row) as [[]|].
Qed.

Lemma defacl_round t c : object_type_to_defacl_char t = Some c → defacl_obj_type_to_object_type c = Some t.
Proof. destruct t; intros [= <-]; done. Qed.

Section defaults.
Context (cat : Catalog) (S C : InspectConfig) (HW : Within S C).

Lemma default_rows_agree row key :
  default_in_scope C key = true → dr_owner_name row = dk_owner key →
  dr_schema_name row = scope_schema (dk_scope key) →
  defacl_obj_type_to_object_type (dr_obj_type_char row) = Some (dk_on_type key) →
  row ∈ default_rows cat (names (ic_privilege_schemas S)) (ic_default_priv_scopes S) ↔
  row ∈ default_rows cat (names (ic_privilege_schemas C)) (ic_default_priv_scopes C).
Proof.
  intros Hin Ho Hs Ht. unfold default_rows. rw !elem_of_app !list_elem_of_bind.
  assert (∀ d X, row ∈ schema_default_rows X d →
            in_some (da_namespace d) X = true ∧ da_namespace d = scope_schema (dk_scope key)) as Hschema.
  { intros d X. unfold schema_default_rows. destruct (in_some _ _); [|by intros ?%not_elem_of_nil].
    intros (i & -> & _)%list_elem_of_fmap. done. }
  assert (∀ pair, row ∈ global_default_rows cat pair →
            dk_scope key = DefaultPrivilegeScope.Global ∧ pair.1 = dk_owner key ∧ pair.2.1 = dr_obj_type_char row) as Hglobal.
  { intros [o [st bu]]. unfold global_default_rows. destruct (existsb _ _); [|by intros ?%not_elem_of_nil].
    intros (i & -> & _)%list_elem_of_fmap. cbn in *. by destruct (dk_scope key). }
  destruct (dk_scope key) as [|s] eqn:Hk.
  - assert (∀ pair, row ∈ global_default_rows cat pair →
      pair ∈ global_pairs (ic_default_priv_scopes S) ↔ pair ∈ global_pairs (ic_default_priv_scopes C)) as Hp.
    { intros [o [st bu]] (_ & Ho' & Hst)%Hglobal. cbn in *. subst o st.
      unfold global_pairs. rw !elem_of_list_to_set !list_elem_of_omap.
      split; intros (p & Hp & Hpair); [|exists p; split; [by apply HW|done]].
      unfold default_in_scope in Hin. rw Hk in Hin. apply existsb_exists in Hin as (q & Hq%list_elem_of_In & Hq').
      apply andb_prop in Hq' as [[Hq1%bool_decide_eq_true Hq2%String.eqb_eq]%andb_prop Hq3%bool_decide_eq_true].
      exists q. split; [done|]. unfold global_pair in *. rw Hq1.
      destruct (dps_pattern_schema p); [done|].
      apply bind_Some in Hpair as (st & Hst & (bu' & Hbu & [= Hop Hst' Hbu'])%bind_Some).
      subst st bu'. apply defacl_round in Hst as Hty. assert (dps_on_type p = dps_on_type q) as Heq by congruence.
      rw -Heq Hst Hbu. cbn. by rw Hq2. }
    split; (intros [(d & Hrow & Hd)|(pair & Hrow & Hpair)];
      [exfalso; apply Hschema in Hrow as [Hx Hn]; by rw Hn in Hx|]); right; exists pair;
      rw elem_of_set_iter in Hpair; rw elem_of_set_iter; (split; [done|]); by apply Hp.
  - assert (s ∈ names (ic_privilege_schemas C)) as HsC.
    { unfold default_in_scope in Hin. rw Hk in Hin. by apply bool_decide_eq_true in Hin. }
    assert (s ∈ names (ic_privilege_schemas S)) as HsS by (revert HsC; apply names_mono, HW).
    split; (intros [(d & Hrow & Hd)|(pair & Hrow & _)]; [|by destruct (Hglobal _ Hrow)]); left; exists d;
      (split; [|done]); destruct (Hschema _ _ Hrow) as [_ Hn]; unfold schema_default_rows in *;
      rw Hn in Hrow; rw Hn; cbn in *; repeat case_bool_decide; done.
Qed.

Definition defaults_of (X : InspectConfig) : gmap DefaultPrivKey DefaultPrivState :=
  fetch_default_privileges cat (names (ic_privilege_schemas X)) (names (ic_managed_roles X))
    (ic_default_priv_scopes X).

Lemma in_defaults X key p :
  (key, p) ∈ omap (default_row (names (ic_managed_roles X)) (ic_default_priv_scopes X))
               (default_rows cat (names (ic_privilege_schemas X)) (ic_default_priv_scopes X)) ↔
  ∃ row, row ∈ default_rows cat (names (ic_privilege_schemas X)) (ic_default_priv_scopes X) ∧
         default_row (names (ic_managed_roles X)) (ic_default_priv_scopes X) row = Some (key, p).
Proof. apply list_elem_of_omap. Qed.

(** Rows whose grantee both configurations read alike. *)
Lemma defaults_rows_iff key p :
  default_in_scope C key = true →
  (∀ row, dr_owner_name row = dk_owner key → dr_schema_name row = scope_schema (dk_scope key) →
     default_grantee (names (ic_managed_roles S)) (ic_default_priv_scopes S) row (dk_on_type key) p =
       Some (dk_grantee key) ↔
     default_grantee (names (ic_managed_roles C)) (ic_default_priv_scopes C) row (dk_on_type key) p =
       Some (dk_grantee key)) →
  (key, p) ∈ omap (default_row (names (ic_managed_roles S)) (ic_default_priv_scopes S))
               (default_rows cat (names (ic_privilege_schemas S)) (ic_default_priv_scopes S)) ↔
  (key, p) ∈ omap (default_row (names (ic_managed_roles C)) (ic_default_priv_scopes C))
               (default_rows cat (names (ic_privilege_schemas C)) (ic_default_priv_scopes C)).
Proof.
  intros Hin Hg. rw !in_defaults. setoid_rewrite default_row_Some.
  split; intros (row & Hrow & Ho & Hs & Ht & Hp & Hgr); exists row; split_and!; try done; try by apply Hg.
  - by apply default_rows_agree with (key := key).
  - by apply default_rows_agree with (key := key).
Qed.

Lemma derive_default_agree key :
  defaults_of S !! key ≫= derive_default C key = defaults_of C !! key ≫= derive_default C key.
Proof.
  unfold derive_default. destruct (default_in_scope C key) eqn:Hin;
    [|by destruct (defaults_of S !! key), (defaults_of C !! key)].
  unfold defaults_of. rw !fetch_defaults_spec. destruct (dk_grantee key) as [|r] eqn:Hgr.
  - assert (∀ (m : option DefaultPrivState) (D : gset Privilege),
      (m ≫= λ state, if decide (state ∩ D = ∅) then None else Some (state ∩ D)) =
      if decide (default ∅ m ∩ D = ∅) then None else Some (default ∅ m ∩ D)) as Hm.
    { intros [X|] D; [done|]. cbn. by destruct (decide _) as [|Hn]; [|destruct Hn; set_solver]. }
    cbn. rw !Hm. set (D := declared_public C key).
    match goal with |- context [if decide (?X ∩ D = ∅) then _ else _] =>
      match goal with |- _ = if decide (?Y ∩ D = ∅) then _ else _ => assert (X ∩ D = Y ∩ D) as ->; [|done] end end.
    apply set_eq. intros p. rw !elem_of_intersection !extend_all_spec lookup_empty.
    assert (p ∈ D → (key, p) ∈ omap (default_row (names (ic_managed_roles S)) (ic_default_priv_scopes S))
               (default_rows cat (names (ic_privilege_schemas S)) (ic_default_priv_scopes S)) ↔
      (key, p) ∈ omap (default_row (names (ic_managed_roles C)) (ic_default_priv_scopes C))
               (default_rows cat (names (ic_privilege_schemas C)) (ic_default_priv_scopes C))) as Hp; [|naive_solver].
    intros HD. apply defaults_rows_iff; [done|]. intros row Ho Hs. rw Hgr. unfold default_grantee.
    destruct (dr_is_public row); [|split; intros (n & _ & Hn)%bind_Some; by case_match].
    unfold D, declared_public in HD. apply elem_of_union_list in HD as (Y & (q & -> & Hq)%list_elem_of_fmap & HpY).
    apply list_elem_of_filter in Hq as [(Hq1 & Hq2 & Hq3) Hq].
    assert (∀ l, q ∈ l → existsb (pattern_covers row (dk_on_type key) p) l = true) as He.
    { intros l Hl. apply existsb_exists. exists q. rw -list_elem_of_In. split; [done|].
      unfold pattern_covers. rw Ho Hs Hq1 Hq2 Hq3 String.eqb_refl.
      by rw !bool_decide_eq_true_2. }
    rw !He //. by apply HW.
  - destruct (in_set r (names (ic_managed_roles C))) eqn:Hr;
      [|by destruct (extend_all _ _ !! key), (extend_all _ _ !! key)].
    f_equal. apply extend_all_agree. intros p. apply defaults_rows_iff; [done|].
    intros row _ _. rw Hgr. unfold default_grantee. destruct (dr_is_public row).
    { by repeat case_match. }
    destruct (dr_grantee row) as [n|]; [|done]. cbn.
    apply bool_decide_eq_true in Hr. assert (r ∈ names (ic_managed_roles S)) by (revert Hr; apply names_mono, HW).
    repeat case_bool_decide; naive_solver.
Qed.
End defaults.

(** ** Database privileges *)

Definition database_entry (row : AclRow) : option (GrantKey * Privilege) :=
  grantee ← acl_grantee row; p ← acl_char_to_privilege (acl_privilege_type row);
  Some (row_key (Grantee.Role grantee) ObjectType.Database row, p).
Definition database_own (row : AclRow) : option GrantKey :=
  grantee ← acl_grantee row; _ ← acl_char_to_privilege (acl_privilege_type row);
  if decide (acl_owner_name row = Some grantee)
  then Some (row_key (Grantee.Role grantee) ObjectType.Database row) else None.

Lemma database_step_spec m X row :
  database_step (m, X) row =
    (match database_entry row with Some e => entry_extend e.1 {[e.2]} m | None => m end,
     match database_own row with Some k => {[k]} ∪ X | None => X end).
Proof.
  unfold database_step, database_entry, database_own. destruct (acl_grantee row); [|done].
  destruct (acl_char_to_privilege _); [|done]. cbn. by case_decide.
Qed.

Lemma database_fold rows m X :
  (foldl database_step (m, X) rows).1 = extend_all m (omap database_entry rows) ∧
  ∀ k, k ∈ (foldl database_step (m, X) rows).2 ↔ k ∈ X ∨ k ∈ omap database_own rows.
Proof.
  revert m X. induction rows as [|row rows IH]=> m X.
  { split; [done|]. intros k. split; [by left|]. by intros [?|?%not_elem_of_nil]. }
  cbn [foldl]. rw database_step_spec.
  destruct (IH (match database_entry row with Some e => entry_extend e.1 {[e.2]} m | None => m end)
    (match database_own row with Some k => {[k]} ∪ X | None => X end)) as [-> H2].
  cbn. split; [by destruct (database_entry row)|]. intros k. rw H2.
  destruct (database_own row); [rw elem_of_cons; set_solver|done].
Qed.

Lemma database_rows_agree RS RC (l : list (CatalogObject * AclItem)) (row : AclRow) r :
  RC ⊆ RS → r ∈ RC → acl_grantee row = Some r →
  row ∈ omap (database_row RS) l ↔ row ∈ omap (database_row RC) l.
Proof.
  intros HR Hr Hg. rw !list_elem_of_omap.
  split; intros (e & He & Hrow); exists e; (split; [done|]); unfold database_row in *;
    destruct (ai_grantee e.2) as [|g]; try done; unfold in_set in *; repeat case_bool_decide; try done;
    injection Hrow as <-; cbn in Hg; simplify_eq; set_solver.
Qed.

Lemma database_agree cat RS RC k :
  RC ⊆ RS → managed_key RC k = true →
  (fetch_database_privileges cat RS).1 !! k = (fetch_database_privileges cat RC).1 !! k ∧
  (k ∈ (fetch_database_privileges cat RS).2 ↔ k ∈ (fetch_database_privileges cat RC).2).
Proof.
  intros HR Hk. unfold managed_key in Hk. destruct (gk_role k) as [|r] eqn:Hrole; [done|].
  apply bool_decide_eq_true in Hk. unfold fetch_database_privileges, database_privileges_of.
  set (l := with_entries _ _).
  destruct (database_fold (omap (database_row RS) l) ∅ ∅) as [-> HS].
  destruct (database_fold (omap (database_row RC) l) ∅ ∅) as [-> HC]. split.
  - apply extend_all_agree. intros p. rw !(list_elem_of_omap database_entry).
    split; intros (row & Hrow & Hp); exists row; (split; [|done]);
      apply bind_Some in Hp as (g & Hg & (q & _ & [= <- _])%bind_Some); cbn in Hrole; simplify_eq;
      by apply (database_rows_agree RS RC l row r).
  - rw HS HC !(list_elem_of_omap database_own).
    assert (∀ row, database_own row = Some k → acl_grantee row = Some r) as Hown.
    { intros row (g & Hg & (q & _ & Hq)%bind_Some)%bind_Some. case_decide; [|done].
      injection Hq as <-. cbn in Hrole. by simplify_eq. }
    split; (intros [?%not_elem_of_empty|(row & Hrow & Hp)]; [done|]); right; exists row; (split; [|done]);
      by apply (database_rows_agree RS RC l row r); auto.
Qed.

(** ** Column-level grants *)

Lemma map_iter_filter {K V} `{Countable K, Ord K} (m : gmap K V) (Q : K * V → Prop) `{∀ e, Decision (Q e)} :
  filter Q (map_iter m) = map_iter (filter Q m).
Proof.
  apply (StronglySorted_unique_strong key_le).
  - intros [k v] [k' v'] [_ Hk]%list_elem_of_filter Hk' Hle Hge.
    apply elem_of_map_iter in Hk. apply elem_of_map_iter, map_lookup_filter_Some in Hk' as [Hk' _].
    unfold key_le in *. cbn in *. assert (k = k') as <- by by apply (anti_symm ord_le). congruence.
  - apply StronglySorted_filter, map_iter_sorted.
  - apply map_iter_sorted.
  - apply NoDup_Permutation; [apply NoDup_filter, NoDup_map_iter|apply NoDup_map_iter|].
    intros [k v]. rw list_elem_of_filter !elem_of_map_iter map_lookup_filter_Some. naive_solver.
Qed.

Definition column_key (row : ColumnAclRow) : string * (string * string) :=
  (cr_schema_name row, (cr_relation_name row, cr_grantee_name row)).

Lemma column_fold rows m k :
  foldl column_step m rows !! k = foldl column_step m (filter (λ r, column_key r = k) rows) !! k.
Proof.
  assert (∀ m1 m2 : gmap (string * (string * string)) (gset string * gset Privilege), m1 !! k = m2 !! k →
    foldl column_step m1 rows !! k = foldl column_step m2 (filter (λ r, column_key r = k) rows) !! k) as Hf; [|by apply Hf].
  induction rows as [|row rows IH]=> m1 m2 Hm //=. rw filter_cons. case_decide as Hk.
  - apply IH. unfold column_step. fold (column_key row). rw Hk Hm.
    destruct (acl_char_to_privilege _); [by rw !lookup_insert_eq|done].
  - apply IH. rw -Hm. unfold column_step. fold (column_key row).
    destruct (acl_char_to_privilege _); [by rw lookup_insert_ne|done].
Qed.

Lemma column_rows_agree XS XC (l : list CatalogColumn) (k : string * (string * string)) :
  XC ⊆ XS → k.1 ∈ XC →
  filter (λ r, column_key r = k) (l ≫= column_rows XS) = filter (λ r, column_key r = k) (l ≫= column_rows XC).
Proof.
  intros HX Hk. induction l as [|c l IH]; [done|]. rw !bind_cons !filter_app IH. f_equal.
  unfold column_rows, in_set. destruct (existsb _ _); [|done]. cbn [andb].
  destruct (decide (ca_namespace c ∈ XC)) as [Hc|Hc].
  - apply HX in Hc as Hc'. by rw !bool_decide_eq_true_2.
  - rw (bool_decide_eq_false_2 (ca_namespace c ∈ XC)) //.
    apply list_filter_none. intros r Hr Heq. case_bool_decide; [|by apply not_elem_of_nil in Hr].
    apply list_elem_of_fmap in Hr as (i & -> & _). by subst k.
Qed.

Lemma filter_fmap {A B} (f : A → B) (P : B → Prop) (Q : A → Prop) `{∀ y, Decision (P y), ∀ x, Decision (Q x)}
    (l : list A) :
  (∀ x, P (f x) ↔ Q x) → filter P (f <$> l) = f <$> filter Q l.
Proof.
  intros HPQ. induction l as [|x l IH]; [done|]. rw fmap_cons !filter_cons IH.
  destruct (decide (P (f x))) as [Hp|Hp], (decide (Q x)) as [Hq|Hq]; try done; apply HPQ in Hq || apply HPQ in Hp; done.
Qed.

Lemma columns_agree cat XS XC :
  XC ⊆ XS →
  filter (λ d, cd_schema d ∈ XC) (fetch_column_level_grants cat XS) =
  filter (λ d, cd_schema d ∈ XC) (fetch_column_level_grants cat XC).
Proof.
  intros HX. unfold fetch_column_level_grants. destruct (decide (XC = ∅)) as [->|HC].
  { trans (@nil ColumnLevelGrantDiagnostic); [|symmetry]; apply list_filter_none;
      by intros d _ ?%not_elem_of_empty. }
  destruct (decide (XS = ∅)) as [->|]; [exfalso; apply HC; set_solver|].
  unfold aggregate_column_acl_rows.
  rw !(filter_fmap _ _ (λ e : (string * (string * string)) * (gset string * gset Privilege), e.1.1 ∈ XC));
    try by intros [[? [? ?]] [? ?]].
  f_equal. rw !map_iter_filter. f_equal.
  apply map_eq. intros k. apply option_eq. intros v. rw !map_lookup_filter_Some. cbn.
  rw (column_fold _ _ k) (column_fold (_ ≫= column_rows XC) _ k).
  split; intros [Hv Hk]; (split; [|done]); [rw -(column_rows_agree XS)|rw (column_rows_agree XS XC)]; done.
Qed.

(** ** The whole inspection *)

Definition without_aliases (g : RoleGraph) : RoleGraph := {|
  routine_aliases := ∅; roles := roles g; schemas := schemas g; grants := grants g;
  default_privileges := default_privileges g; memberships := memberships g;
  grant_absences := grant_absences g; default_privilege_absences := default_privilege_absences g;
  exclusive_membership_roles := exclusive_membership_roles g; inherent_grants := inherent_grants g;
  membership_edge_grantors := membership_edge_grantors g;
  membership_edge_options := membership_edge_options g;
  executor_authority_edges := executor_authority_edges g;
  grant_entry_grantors := grant_entry_grantors g |}.

(** Equal results, but that the shared one may know more spellings of routines; those of the
    configuration's own rules are the same. *)
Definition same_inspection (C : InspectConfig) (shared own : InspectionResult) : Prop :=
  without_aliases (ir_graph shared) = without_aliases (ir_graph own) ∧
  routine_aliases (ir_graph own) ⊆ routine_aliases (ir_graph shared) ∧
  (∀ key, key ∈ routine_targets C →
     routine_aliases (ir_graph shared) !! key = routine_aliases (ir_graph own) !! key) ∧
  ir_unsatisfiable shared = ir_unsatisfiable own ∧
  ir_column_level_grants shared = ir_column_level_grants own.

Lemma within_refl C : Within C C.
Proof. split; try done. by left. Qed.

#[local] Arguments names : simpl never.
#[local] Arguments fetch_database_privileges : simpl never.
#[local] Arguments wildcard_scopes_of : simpl never.

Section whole.
Context (cat : Catalog) (S C : InspectConfig) (rcS rcC : RoutineCatalog).
Context (HW : Within S C) (HrS : read_routines cat S = Ok rcS) (HrC : read_routines cat C = Ok rcC).
Context (HP : public_routines_resolved C).
#[local] Abbreviation raw := (read_scope cat S rcS).
#[local] Abbreviation own := (read_scope cat C rcC).
#[local] Abbreviation D := (resolve_public_scopes rcC C).

Lemma publics_within : public_within (ic_public_object_scopes (resolve_public_scopes rcS S)) (ic_public_object_scopes D).
Proof.
  intros s (c & -> & Hc)%list_elem_of_fmap.
  assert (public_target c ∈ public_target <$> ic_public_object_scopes S) as (s & Heq & Hs)%list_elem_of_fmap
    by by apply HW, list_elem_of_fmap_2.
  unfold public_target in Heq. injection Heq as Ht Hsc Hn.
  exists (resolve_public_scope rcS s). split_and!; [by apply list_elem_of_fmap_2|by symmetry..|].
  unfold resolve_public_scope. cbn. intros Hty. by rw -Ht Hty Hn.
Qed.

Lemma nonempty_within {A} (l k : list A) : (∀ x, x ∈ l → x ∈ k) → l ≠ [] → k ≠ [].
Proof. destruct l as [|x l]; [done|]. intros Hl _ ->. specialize (Hl x (list_elem_of_here _ _)). by apply not_elem_of_nil in Hl. Qed.

Lemma privileges_read (X : InspectConfig) rc :
  ic_privilege_schemas X ≠ [] ∨ ic_public_object_scopes X ≠ [] →
  ri_privileges (read_scope cat X rc) =
    read_raw_privileges cat (names (ic_privilege_schemas X)) (names (ic_managed_roles X))
      (wildcard_scopes_of (ic_wildcard_grants X)) (ic_public_object_scopes (resolve_public_scopes rc X)).
Proof.
  intros Hne. cbn. destruct (_ && _) eqn:He; [|done].
  apply andb_prop in He as [?%bool_decide_eq_true ?%bool_decide_eq_true]. naive_solver.
Qed.

Lemma publics_nonempty : ic_public_object_scopes C ≠ [] → ic_public_object_scopes S ≠ [].
Proof.
  intros Hne. assert (public_target <$> ic_public_object_scopes S ≠ []) as Hn.
  { eapply nonempty_within; [apply HW|]. by destruct (ic_public_object_scopes C). }
  by intros Heq; rw Heq in Hn.
Qed.

Lemma privileges_agree :
  ic_privilege_schemas D ≠ [] ∨ ic_public_object_scopes D ≠ [] →
  derive_privileges (ri_privileges raw) (names (ic_privilege_schemas D)) (names (ic_managed_roles D))
    (ic_wildcard_grants D) (ic_public_object_scopes D) =
  derive_privileges (ri_privileges own) (names (ic_privilege_schemas D)) (names (ic_managed_roles D))
    (ic_wildcard_grants D) (ic_public_object_scopes D).
Proof.
  intros Hne. assert (ic_privilege_schemas C ≠ [] ∨ ic_public_object_scopes C ≠ []) as HneC.
  { destruct Hne as [?|Hd]; [by left|right]. intros Heq. apply Hd. cbn. by rw Heq. }
  rw !privileges_read //.
  2: { destruct HneC; [left|right; by apply publics_nonempty]. by eapply nonempty_within; [apply HW|]. }
  apply derive_privileges_agree; cbn.
  - apply acl_rows_agree; apply names_mono, HW.
  - intros k Hk. assert (k ∈ wildcard_scopes_of (ic_wildcard_grants C)) as HkC by exact Hk. clear Hk. assert (k ∈ wildcard_scopes_of (ic_wildcard_grants S)) as HkS by by apply HW.
    destruct (decide (wildcard_scopes_of (ic_wildcard_grants S) = ∅)) as [He|]; [rw He in HkS; by apply not_elem_of_empty in HkS|].
    destruct (decide (wildcard_scopes_of (ic_wildcard_grants C) = ∅)) as [He|]; [rw He in HkC; by apply not_elem_of_empty in HkC|].
    by apply inventory_agree.
  - intros Hp. assert (ic_public_object_scopes C ≠ []) as HpC by by intros Heq; rw Heq in Hp.
    destruct (decide (resolve_public_scope rcS <$> ic_public_object_scopes S = [])) as [He|].
    { by apply publics_nonempty in HpC; destruct (ic_public_object_scopes S). }
    destruct (decide (resolve_public_scope rcC <$> ic_public_object_scopes C = [])) as [He|]; [done|].
    apply derive_public_agree; [apply publics_within|]. intros s Hs. by exists s.
Qed.

Lemma defaults_read (X : InspectConfig) rc : ri_default_privileges (read_scope cat X rc) = defaults_of cat X.
Proof.
  cbn. destruct (_ && _) eqn:He; [|done].
  apply andb_prop in He as [Hp%bool_decide_eq_true Hd%bool_decide_eq_true].
  unfold defaults_of, fetch_default_privileges, default_rows. rw Hp Hd.
  assert (set_iter (global_pairs []) = []) as -> by by apply set_iter_nil.
  assert (ct_default_acl cat ≫= schema_default_rows (names []) = []) as ->; [|done].
  induction (ct_default_acl cat) as [|d l IH]; [done|]. rw bind_cons IH app_nil_r.
  unfold schema_default_rows, in_some. by destruct (da_namespace d).
Qed.

Lemma schemas_read (X : InspectConfig) rc :
  ri_schemas (read_scope cat X rc) = fetch_schemas cat (names (ic_managed_schemas X)).
Proof.
  cbn. destruct (decide (ic_managed_schemas X = [])) as [->|]; [|done]. symmetry.
  apply list_filter_none. by intros s _ ?%not_elem_of_empty.
Qed.

Lemma columns_read (X : InspectConfig) rc :
  ri_column_level_grants (read_scope cat X rc) = fetch_column_level_grants cat (names (ic_privilege_schemas X)).
Proof. cbn. destruct (bool_decide _) eqn:He; [|done]. apply bool_decide_eq_true in He. by rw He. Qed.

(** The database entries of the configuration's roles. *)
Definition database_of (X : InspectConfig) (read : gmap GrantKey GrantState) : gmap GrantKey GrantState :=
  if ic_include_database_privileges X
  then filter (λ e, managed_key (names (ic_managed_roles X)) e.1) read else ∅.

Lemma database_grants_agree :
  database_of C (ri_database_grants raw) = database_of C (ri_database_grants own) ∧
  ∀ k, k ∈ dom (database_of C (ri_database_grants own)) →
       k ∈ ri_database_inherent_grants raw ↔ k ∈ ri_database_inherent_grants own.
Proof.
  unfold database_of. cbn. destruct (ic_include_database_privileges C) eqn:Hc; [|split; [done|set_solver]].
  rw (wi_database _ _ HW Hc).
  assert (names (ic_managed_roles C) ⊆ names (ic_managed_roles S)) as HR by apply names_mono, HW.
  split.
  - apply map_eq. intros k. apply option_eq. intros v. rw !map_lookup_filter_Some. cbn.
    destruct (managed_key (names (ic_managed_roles C)) k) eqn:Hk; [|naive_solver].
    by destruct (database_agree cat _ _ k HR Hk) as [-> _].
  - intros k [v [_ Hk%Is_true_true]%map_lookup_filter_Some]%elem_of_dom. cbn in Hk.
    by destruct (database_agree cat _ _ k HR Hk).
Qed.

(** Everything of a derived graph but the aliases, from the parts of a read. *)
Lemma derive_graph_agree objects :
  without_aliases (derive_graph raw D objects) = without_aliases (derive_graph own D objects).
Proof.
  assert (∀ X rc, ri_roles (read_scope cat X rc) = fetch_roles cat (names (ic_managed_roles X))) as Hroles by done.
  assert (∀ X rc, ri_memberships (read_scope cat X rc) =
            fetch_memberships cat (names (ic_managed_roles X) ∪ names (ic_membership_grantors X))) as Hmem by done.
  destruct database_grants_agree as [Hdb Hinh].
  assert (∀ X rc, Within X C →
    filter (λ r, rolname r ∈ names (ic_managed_roles C)) (ri_roles (read_scope cat X rc)) =
    filter (λ r, rolname r ∈ names (ic_managed_roles C)) (ct_roles cat)) as Hr.
  { intros X rc HX. apply filter_refine. intros r. apply names_mono, HX. }
  assert (∀ X rc, Within X C →
    filter (λ s, sw_schema_name s ∈ names (ic_managed_schemas C)) (ri_schemas (read_scope cat X rc)) =
    filter (λ s, sw_schema_name s ∈ names (ic_managed_schemas C)) (ct_namespaces cat)) as Hs.
  { intros X rc HX. rw schemas_read. apply filter_refine. intros r. apply names_mono, HX. }
  assert (∀ X rc, Within X C →
    filter (λ m, mr_role_name m ∈ names (ic_managed_roles C) ∨ mr_role_name m ∈ names (ic_membership_grantors C))
      (ri_memberships (read_scope cat X rc)) =
    filter (λ m, mr_role_name m ∈ names (ic_managed_roles C) ∨ mr_role_name m ∈ names (ic_membership_grantors C))
      (ct_memberships cat)) as Hm.
  { intros X rc HX. apply filter_refine. intros m. rw elem_of_union !elem_of_name_set.
    intros [?%(wi_roles _ _ HX)|?%(wi_grantors _ _ HX)]; naive_solver. }
  assert (∀ X rc, map_imap (derive_default D) (ri_default_privileges (read_scope cat X rc)) =
                  map_imap (derive_default C) (defaults_of cat X)) as Hd0 by by intros; rw defaults_read.
  assert (map_imap (derive_default C) (defaults_of cat S) = map_imap (derive_default C) (defaults_of cat C)) as Hd.
  { apply map_eq. intros k. rw !map_lookup_imap. by apply derive_default_agree. }
  pose proof (within_refl C) as HC. unfold derive_graph. cbn -[read_scope].
  rw !Hr // !Hs // !Hm //. unfold without_aliases. cbn -[read_scope].
  rw !Hd0 Hd. fold (database_of C (ri_database_grants raw)) (database_of C (ri_database_grants own)).
  rw !Hdb. f_equal. f_equal. apply set_eq. intros k. rw !elem_of_filter. naive_solver.
Qed.
End whole.

Lemma fold_res_no_panic {E A T} (f : T → A → res E T) acc l :
  (∀ acc x, f acc x ≠ Panic) → fold_res f acc l ≠ Panic.
Proof.
  intros Hf. revert acc. induction l as [|x l IH]=> acc //=.
  destruct (f acc x) eqn:Hx; cbn; [done|done|]. by apply Hf in Hx.
Qed.

Lemma validate_no_panic rc X : validate_routines rc X ≠ Panic.
Proof.
  unfold validate_routines. destruct (fold_res _ _ _) eqn:Hf; [done..|]. exfalso. revert Hf.
  apply fold_res_no_panic. intros acc g. unfold validate_routine_grant.
  destruct (ot_schema _) as [schema|]; [|done]. destruct (ot_name _) as [name|]; [|done].
  assert (∀ r, fold_res (assert_routine (gr_role g) schema (canonical_name rc schema name) (gr_ensure g)) r
            (gr_privileges g) ≠ Panic) as Hp.
  { intros r. apply fold_res_no_panic. intros m p. unfold assert_routine. by destruct (throw_if _ _) eqn:Ht;
      unfold throw_if in Ht; destruct (match m !! _ with Some _ => _ | None => _ end). }
  destruct (rc_unresolved rc !! _) as [u|]; [|apply Hp].
  unfold throw_if. destruct (_ || _); [done|apply Hp].
Qed.

(** C33: Deriving a configuration from a shared read is invisible to it.  One read over the
    union of several configurations succeeds only if the read of each would; from it each
    member is inspected with the result, or the error, of its own inspection: the same
    roles, memberships, schemas, grants, owners' entries, grantors, default privileges and
    diagnostics, whatever grantability an earlier derivation left cached.  The shared graph
    may only know more spellings of routines, and none of the configuration's own rules. *)
Theorem shared_snapshot_is_invisible cat cs C raw cache :
  C ∈ cs → public_routines_resolved C →
  read_inspection cat (union_of cs) = Ok raw → cache_of cat raw cache →
  match derive cat raw C cache, inspect_with_diagnostics cat C with
  | Ok (shared, cache'), Ok own => same_inspection C shared own ∧ cache_of cat raw cache'
  | Err e, Err e' => e = e'
  | _, _ => False
  end.
Proof.
  intros HC HP Hread Hcache. set (S := union_of cs) in *.
  pose proof (union_within cs C HC) as HW. fold S in HW.
  apply bind_Ok in Hread as ([] & Hdb & (rcS & HrS & [= <-])%bind_Ok).
  destruct (proj1 (read_routines_spec cat C)) as [_ [rcC HrC]].
  { intros key Hkey Hn. apply (proj1 (proj1 (read_routines_spec cat S)) (ex_intro _ rcS HrS)); [by apply HW|done]. }
  assert (check_database_targets cat C = Ok tt) as HdbC.
  { unfold check_database_targets in *. destruct (List.find _ (ic_database_targets C)) as [t|] eqn:Ht; [|done].
    apply List.find_some in Ht as [Ht%list_elem_of_In Hne]. apply (wi_database_targets _ _ HW) in Ht.
    destruct (List.find _ (ic_database_targets S)) eqn:Hf; [done|].
    rw (List.find_none _ _ Hf t) in Hne; [done|by apply list_elem_of_In]. }
  assert (inspect_with_diagnostics cat C = r ← derive cat (read_scope cat C rcC) C None; Ok r.1) as ->.
  { unfold inspect_with_diagnostics, read_inspection. by rw HdbC /= HrC. }
  unfold derive.
  rw (proj2 (uncovered_None (read_scope cat S rcS) C
        (proj1 (proj2 (read_routines_spec cat S) rcS HrS))) HW).
  rw (proj2 (uncovered_None (read_scope cat C rcC) C
        (proj1 (proj2 (read_routines_spec cat C) rcC HrC))) (within_refl C)).
  change (ri_routines (read_scope cat S rcS)) with rcS. change (ri_routines (read_scope cat C rcC)) with rcC.
  rw (validate_agree cat S C rcS rcC) // (public_agree cat S C rcS rcC) //.
  destruct (validate_routines rcC C) as [[]|e|] eqn:Hv; cbn -[derive_objects read_scope derive_graph];
    [|done|by apply validate_no_panic in Hv].
  destruct (derive_objects_agree cat (read_scope cat S rcS) (read_scope cat C rcC)
    (resolve_public_scopes rcC C) cache) as [Ho Hc]; [done|apply HW|done|by apply privileges_agree|].
  destruct (derive_objects cat (read_scope cat S rcS) _ cache) as [o c'],
    (derive_objects cat (read_scope cat C rcC) _ None) as [o' c'']. cbn [fst snd] in Ho, Hc. subst o'.
  cbn -[read_scope derive_graph]. split; [|done]. unfold same_inspection. cbn -[read_scope derive_graph].
  split_and!.
  - by apply derive_graph_agree.
  - apply map_subseteq_spec. intros k v. cbn. rw !map_lookup_filter_Some. intros [Hk ?]. split; [|done].
    eapply lookup_weaken; [done|]. by eapply aliases_extend.
  - intros [schema name] Hkey. cbn. apply option_eq. intros v. rw !map_lookup_filter_Some.
    destruct (routines_agree cat S C rcS rcC HW HrS HrC schema name) as [-> _]; [by right|done].
  - done.
  - destruct (_ && _); [done|]. rw !columns_read. apply columns_agree, names_mono, HW.
Qed.

(** Configurations as the code makes them resolve their PUBLIC routine rules. *)
Lemma public_fold (gs : list Grant) (m : PublicScopeMap) (k : ObjectType * (option string * option string)) :
  is_Some (foldl add_public_scope m gs !! k) →
  is_Some (m !! k) ∨ ∃ g, g ∈ gs ∧
    k = (ot_object_type (gr_object g), (ot_schema (gr_object g), ot_name (gr_object g))).
Proof.
  revert m. induction gs as [|g gs IH]=> m /=; [by left|].
  intros [Hm|(g' & Hg & ->)]%IH; [|right; exists g'; split; [by right|done]].
  unfold add_public_scope in Hm. destruct (String.eqb _ _); [|by left].
  unfold entry_extend in Hm.
  destruct (decide (k = (ot_object_type (gr_object g), (ot_schema (gr_object g), ot_name (gr_object g))))) as [->|].
  - right. exists g. split; [left|done].
  - left. by rw lookup_insert_ne in Hm.
Qed.

Lemma expanded_routine expanded include s schema name :
  s ∈ ic_public_object_scopes (config_from_expanded expanded include) →
  pos_object_type s = ObjectType.Function → pos_schema s = Some schema → pos_name s = Some name →
  ∃ g, g ∈ ic_routine_grants (config_from_expanded expanded include) ∧
       ot_schema (gr_object g) = Some schema ∧ ot_name (gr_object g) = Some name.
Proof.
  cbn. intros ([[t [sc n]] X] & -> & Hk%elem_of_map_iter)%list_elem_of_fmap. cbn. intros -> -> ->.
  destruct (public_fold (em_grants expanded) ∅ (ObjectType.Function, (Some schema, Some name)))
    as [[? [=]]|(g & Hg & [= Ht Hs Hn])]; [by eexists|].
  exists g. split; [|done]. by apply list_elem_of_filter.
Qed.

Lemma grant_target C g schema name :
  g ∈ ic_routine_grants C → ot_schema (gr_object g) = Some schema → ot_name (gr_object g) = Some name →
  name = "*" ∨ (schema, name) ∈ routine_targets C.
Proof.
  intros Hg Hs Hn. destruct (decide (name = "*")) as [|Hne]; [by left|right].
  apply elem_of_list_to_set, list_elem_of_omap. exists g. split; [done|]. unfold routine_target.
  rw Hs Hn. cbn. by destruct (String.eqb_spec name "*").
Qed.

Lemma expanded_resolves expanded include : public_routines_resolved (config_from_expanded expanded include).
Proof. intros s schema name Hs Ht Hsc Hn. destruct (expanded_routine _ _ _ _ _ Hs Ht Hsc Hn) as (g & ? & ? & ?). by eapply grant_target. Qed.

Lemma managed_scope_resolves scope expanded include :
  public_routines_resolved (config_from_managed_scope scope expanded include).
Proof.
  intros s schema name [Hb Hs]%list_elem_of_filter Ht Hsc Hn. fold (config_from_expanded expanded include) in Hs.
  destruct (expanded_routine _ _ _ _ _ Hs Ht Hsc Hn) as (g & Hg & Hgs & Hgn).
  eapply grant_target; [|done..]. apply list_elem_of_filter. split; [|done].
  unfold binds_public_scope in Hb. rw Hsc in Hb. by rw Hgs.
Qed.

(** ** Two candidates of one policy on one database *)

Module SnapshotScene.
Definition item (grantee : Grantee) (p : string) : AclItem :=
  {| ai_grantee := grantee; ai_privilege_type := p; ai_grantor := "owner" |}.
Definition table (name : string) (acl : list AclItem) : CatalogObject :=
  {| co_namespace := "app"; co_name := name; co_kind := "r"; co_owner := "owner"; co_acl := Some acl |}.
Definition plain_row (name : string) : RoleRow := {|
  rolname := name; rolsuper := false; rolinherit := true; rolcreaterole := false; rolcreatedb := false;
  rolcanlogin := false; rolreplication := false; rolbypassrls := false; rolconnlimit := -1;
  rol_comment := None; rolvaliduntil := None; rolconfig := Some ["search_path=app"] |}.

Definition catalog : Catalog := {|
  ct_current_database := "db"; ct_current_user := "admin";
  ct_roles := [plain_row "owner"; plain_row "reader"; plain_row "writer"];
  ct_memberships := [{| mr_role_name := "reader"; mr_member_name := "writer"; mr_admin_option := false;
    mr_inherit_option := true; mr_set_option := true; mr_grantor := Some "admin";
    mr_executor_authority := false |}];
  ct_namespaces := [{| sw_schema_name := "app"; sw_owner_name := "owner"; sw_owner_has_create := true;
    sw_owner_has_usage := true |}];
  ct_namespace_acls := [];
  ct_class := [table "orders" [item (Grantee.Role "reader") "r"; item (Grantee.Role "writer") "a"];
               table "users" [item (Grantee.Role "reader") "r"; item (Grantee.Role "reader") "w"]];
  ct_proc := [{| ct_pronamespace := "app"; ct_proname := "total"; ct_argtypes := "integer";
    ct_identity_args := "n integer"; ct_proowner := "owner"; ct_proacl := None |}];
  ct_type := [];
  ct_database := {| co_namespace := ""; co_name := "db"; co_kind := ""; co_owner := "admin"; co_acl := None |};
  ct_attribute := [];
  ct_default_acl := [];
  ct_acldefault := λ char owner, if String.eqb char "f" then [item Grantee.Public "X"] else [];
  ct_to_regproc := λ _ _, RoutineLookup.NotFound;
  ct_has_role := λ _, false;
  ct_has_grant_option := λ _ _, false |}.

Definition config (roles : list string) (wildcards : list WildcardGrantPattern)
    (routines : list Grant) (publics : list PublicObjectScope) : InspectConfig := {|
  ic_routine_grants := routines; ic_managed_roles := roles; ic_membership_grantors := [];
  ic_managed_schemas := ["app"]; ic_privilege_schemas := ["app"];
  ic_include_database_privileges := false; ic_database_targets := ["db"];
  ic_wildcard_grants := wildcards; ic_public_object_scopes := publics; ic_default_priv_scopes := [] |}.

Definition total : Grant := {|
  gr_role := "PUBLIC"; gr_ensure := Ensure.Absent; gr_privileges := [Privilege.Execute];
  gr_object := {| ot_object_type := ObjectType.Function; ot_schema := Some "app";
                  ot_name := Some "total(n integer)" |} |}.
(** One candidate grants every table to [reader] and revokes a function, by its old
    spelling, from PUBLIC; the other knows only [writer]. *)
Definition reading : InspectConfig :=
  config ["reader"]
    [{| wg_role := "reader"; wg_object_type := ObjectType.Table; wg_schema := "app";
        wg_privileges := {[Privilege.Select; Privilege.Delete]} |}]
    [total]
    [{| pos_object_type := ObjectType.Function; pos_schema := Some "app";
        pos_name := Some "total(n integer)"; pos_privileges := {[Privilege.Execute]} |}].
Definition writing : InspectConfig := config ["writer"] [] [] [].

Definition grants_of (r : res InspectError InspectionResult) : list (GrantKey * list Privilege) :=
  match r with Ok r => prod_map id set_iter <$> map_to_list (grants (ir_graph r)) | _ => [] end.

(** [SELECT] is folded into the wildcard key, [UPDATE] stays on one table, and PUBLIC's
    implicit [EXECUTE] is found under the signature of the catalog. *)
Example reading_inspected :
  let key role t name := {| gk_role := role; gk_object_type := t; gk_schema := Some "app"; gk_name := Some name |} in
  grants_of (inspect_with_diagnostics catalog reading) ≡ₚ
  [(key (Grantee.Role "reader") ObjectType.Table "*", [Privilege.Select]);
   (key (Grantee.Role "reader") ObjectType.Table "users", [Privilege.Update]);
   (key Grantee.Public ObjectType.Function "total(integer)", [Privilege.Execute])].
Proof. apply (bool_decide_unpack _). by vm_compute. Qed.

Definition is_ok {A} (r : res InspectError A) : bool := match r with Ok _ => true | _ => false end.
Example union_readable : is_ok (read_inspection catalog (union_of [reading; writing])) = true.
Proof. by vm_compute. Qed.

(** The one thing a shared read adds: [writing] has no rule on a routine, and its own
    inspection knows no spelling of one. *)
Definition aliases_of (r : res InspectError InspectionResult) : gmap (string * string) string :=
  match r with Ok r => routine_aliases (ir_graph r) | _ => ∅ end.
Example shared_snapshot_knows_more :
  aliases_of (inspect_with_diagnostics catalog writing) = ∅ ∧
  aliases_of (raw ← read_inspection catalog (union_of [reading; writing]);
              r ← derive catalog raw writing None; Ok r.1) !! ("app", "total(n integer)") =
    Some "total(integer)".
Proof. apply (bool_decide_unpack _). by vm_compute. Qed.
End SnapshotScene.

Lemma shared_snapshot_is_invisible_witness :
  match read_inspection SnapshotScene.catalog (union_of [SnapshotScene.reading; SnapshotScene.writing]) with
  | Ok raw =>
      match derive SnapshotScene.catalog raw SnapshotScene.reading None,
            inspect_with_diagnostics SnapshotScene.catalog SnapshotScene.reading with
      | Ok (shared, cache'), Ok own =>
          same_inspection SnapshotScene.reading shared own ∧ cache_of SnapshotScene.catalog raw cache'
      | Err e, Err e' => e = e'
      | _, _ => False
      end
  | _ => False
  end.
Proof.
  pose proof SnapshotScene.union_readable as Hok.
  destruct (read_inspection _ _) as [raw| |] eqn:Hread; [|done..].
  apply (shared_snapshot_is_invisible SnapshotScene.catalog [SnapshotScene.reading; SnapshotScene.writing]);
    [left| |done|by left].
  intros s schema name ->%list_elem_of_singleton _ [= <-] [= <-]. right.
  apply (bool_decide_unpack _). by vm_compute.
Defined.
